(* ===== verification/_CoqProject ===== *)
-Q . S2P
Prelude.v
RustStr.v
Number.v
NumberProps.v
Scaled.v
Temporal.v
Errors.v
Columns.v
Segment.v
SegmentProps.v
Policy.v
ResultStore.v
ResultStoreProps.v
StoreTheorems.v
StoreClaims.v
Events.v
SessionResults.v
EventQueue.v
EventQueueProps.v
EventClaims.v
EventBound.v
SessionShared.v
SessionWorld.v
Reply.v
Worker.v
Session.v
WorkerProps.v
SampleDriver.v
WorkerClaims.v
WorkerReplies.v
WorkerLoop.v
SessionProps.v
SessionClaims.v
CloseClaims.v
Token.v
Dialect.v
Lexer.v
LexerProps.v
TokenStream.v
LexerClaims.v
Splitter.v
SplitterProps.v
SplitterClaims.v
Settings.v
SettingsClaims.v
RustText.v
Ids.v
Profile.v
Codec.v
ProfileClaims.v
Workspace.v
Tables.v
Store.v
StoreProps.v
StoreOps.v
HistoryClaims.v
WorkspaceClaims.v
Schema.v
SchemaClaims.v
Params.v
Descriptor.v
Connect.v
ConnectClaims.v
Classify.v
Rewrite.v
OracleTextClaims.v
ServerOutput.v
OracleErrors.v
OracleTime.v
OracleTypes.v
LobStream.v
Handoff.v
OracleCursor.v
OracleCursorClaims.v
Format.v
Contract.v
OracleConnection.v
OracleConnectionClaims.v
