(* ===== verification/Prelude.v ===== *)
(** * Reldex: a verification of its sessions, its result path and its SQL text layer

    Reldex is a desktop database client: a Rust core under a Qt editor.  Three of
    its parts carry its own logic and are modelled here as executable
    definitions, with the theorems that make them correct.

    ** The program

    _The result path_ (crates/db-driver-api, crates/db-core).  A driver delivers
    batches of typed columns.  A worker thread compacts each batch into a
    segment and answers a fetch with it.  A result store retains the segments
    of one open result, decides what to fetch next under row and byte caps, and
    answers the grid's reads; a session holds its stores and tells them when a
    commit, a rollback or a disconnect ends them.

    _The session_ (crates/db-core: events, shared, reply, worker, session,
    registry).  A session is one worker thread that owns a driver's connection.
    Callers hold a handle, send commands through a channel, and get one answer
    to each, on a one-shot channel or as an event in a queue that all sessions
    share and one consumer drains.  A registry opens sessions without waiting,
    abandons and retires them.

    _The SQL text layer_ (crates/sql-text).  A dialect descriptor, supplied by a
    driver, drives a lexer, which colours the editor line by line, and a
    statement splitter, whose spans are what gets sent to the database.

    ** The files, in dependency order

    - Prelude (this file): machine integers with saturation, [Result] as
      [result], the panic monad [run] with its notation [let!] and its total
      correctness predicate [wp], list facts, the tactics [boolify] and
      [case_if].
    - RustStr: [&str] as a list of Unicode scalar values with byte offsets:
      slices that panic off a character boundary, [find], [trim], UTF-8.
    - Number, NumberProps: value/number.rs, the lossless decimal.
    - Scaled: store/scaled.rs, a number as a 64-bit mantissa and a scale.
    - Temporal: value/temporal.rs, timestamps, zones and the calendar.
    - Errors: error.rs, the error category and the session state it implies.
    - Columns: result.rs, NULL masks, text and bytes columns, batches.
    - Segment, SegmentProps: store/segment.rs, compaction and cell reads.
    - Policy: store/policy.rs and types.rs, caps and fetch settings.
    - ResultStore: store/result_store.rs, every input, [due] and the pump,
      [on_fetched], [settle], the reads.  ResultStoreProps: the system of a
      store, its view and its session as a step relation, and the invariant by
      induction on its steps.  StoreLookup: the row lookup against a walk.
      StoreTheorems, StoreClaims: the store's guarantees.
    - Events: the events of events.rs and what they carry (session.rs, and the
      driver's values, warnings and server output).
    - SessionResults: store/session_results.rs, the stores of one session.
    - EventQueue: events.rs, the queue with its slots, caps and drop counts.
      EventQueueProps: its invariant over every interleaving of producers and
      consumer ([chan_step]).  EventClaims, EventBound: its guarantees.
    - SessionShared: shared.rs, the state a session's threads share, and its
      emissions ([Sess]).
    - SessionWorld: the contract of a driver ([Driver]), the worker's fields and
      the state monad [M] of its operations.
    - Reply: reply.rs.  Worker: worker.rs, command by command, the loop and the
      shutdown.
    - Session: session.rs and registry.rs: the handle, the thread's start and
      turns, the registry's entry ([System]).
    - WorkerProps: a program logic for [M] ([wpM], [keeps]), where a fact is
      proved once per primitive and follows for every command.  SampleDriver: a
      driver to evaluate the claims on.  WorkerClaims: driver calls and handles.
      WorkerReplies, WorkerLoop: every command, dispatch and shutdown answers
      what it takes.  SessionProps: the actions of callers, registry and thread
      as a step relation and the invariant they keep.  SessionClaims,
      CloseClaims, SessionBounds: the session's guarantees.
    - Token: token.rs, tokens and the lexer state in an [i32].
    - Dialect: dialect.rs, and Oracle's descriptor
      (crates/drivers/oracle-thin/src/sql_dialect.rs) as [sql_dialect].
    - Lexer: lexer.rs, function by function.  LexerProps: how far each scanner
      goes and that none panics.  TokenStream: the class of what the lexer
      promises the splitter, and that [tokenize] keeps it.  LexerClaims.
    - Splitter: splitter.rs, function by function.  SplitterProps: every scan
      returns a well-formed end, proved from [TokenStream] alone.
      SplitterClaims: a run of the splitter as a derivation and what follows.

    A definition keeps its Rust name; where two of them collide, the type goes
    in front ([mask_new], [scaled_new]).  A branch of a long function that has a
    definition of its own ([lex_word] of [next_token_normal], [open_word] of
    [scan_structured]) is composed in the order the source tries it.

    ** What the theorems show

    - The result path loses and changes nothing: a compacted segment reads back
      every cell of the batch ([compaction_lossless]), a shown cell keeps its
      value ([shown_cells_stable]), a row is found where it is
      ([row_lookup_correct]).
    - Its caps hold and it makes progress: [row_cap_exact], [pump_terminates],
      [active_store_makes_progress], [fetch_all_finishes],
      [in_order_replies_taken].
    - Its life cycle: [terminal_is_final], [stop_is_honoured],
      [transaction_end_releases], [session_results_invariant],
      [no_fetch_while_ending].
    - A session answers: every accepted request exactly once
      ([requests_answered_once]), in order ([worker_answers_in_order]), and in
      bounded time of its worker ([worker_catches_up]); no call fails an
      assertion or loops ([actions_return]).  Its open is answered first
      ([open_answered_first]) and its end is said once, after everything else
      ([end_said_once_and_last]); a connection that comes too late is closed
      ([late_connection_closed]).
    - A session does not touch a transaction unasked
      ([resolved_only_when_asked]), and the answer to a close says what became
      of it ([close_answer_means]).
    - What a session holds is bounded: [handles_bounded_and_owned],
      [collected_output_bounded], [lob_chunk_bounded].
    - The queue delivers in order ([events_in_order]), never loses the state of a
      transaction ([transaction_state_never_lost]) or an uncounted line
      ([output_lines_accounted]), never panics ([queue_never_panics]) and never
      holds more of a session than the source publishes
      ([queue_bounded_per_session]).
    - The values: canonical forms, exact conversions and parsing, orders and
      round trips of numbers, scaled numbers, timestamps and columns.
    - The lexer covers any text and always returns ([tokenize_covers_text]),
      highlighting by line agrees with the whole document
      ([highlighting_by_line_agrees]), a literal is one token
      ([literals_are_one_token]).
    - The splitter never panics, keeps its spans in order
      ([split_is_safe]), loses no statement text ([split_loses_nothing]), ends a
      plain statement at its first terminator
      ([plain_ends_at_first_terminator]), and finds the statement under any
      offset ([statement_at_finds]).

    ** Integers, panics and fuel

    Counters of the store are [Z], with the source's saturation, and their range
    is proved.  The splitter's depths, lines and columns are checked at their
    width, so its theorems ask for a text below 2 GiB.  Byte offsets and token
    indices are [nat].  A panic of the source ([expect], indexing, slicing, an
    assertion, an overflow) is [Panic]; assertions and overflow checks are
    modelled as on, and since no theorem's program reaches one, a build without
    them behaves the same.  The out-of-sequence assertion of [on_fetched], which
    a release build turns into a report, takes the build as [debug].

    Sequence numbers and serials of 64 bits that count events do not wrap;
    counters the source lets wrap or saturate do so here.

    Fuel: the loop that reads server output gets one turn more than the driver
    has output left, and every turn but the last takes some.  A pump gets one turn more than the policy's fetch slots, and each turn
    takes a slot or is the single close ([pump_terminates]).  A loop of the
    lexer gets one step per character and one to stop, a loop of the splitter
    one step per token and one to stop; the specifications in LexerProps and
    SplitterProps show no loop runs out.  Digits of an integer get the room its
    width needs: 39 for 128 bits, 20 for 64, 10 for a timestamp's fields.

    ** Threads

    A lock, an atomic or a channel operation makes its definition one step.  A
    worker's turn is one step, in which other threads act while a driver call
    runs: [outside] lists the abandons and failed cancels of each call, in any
    number.  Between steps anything may happen.  What is not represented is
    another thread acting inside a turn and outside its driver calls; there only
    a failed cancel could change the session's state.  [said], [calls],
    [completions] and [accepted] are history variables.

    ** What is a parameter

    [Alloc] (how a vector grows), [Layout] (sizes of Rust structs), [Unicode]
    (the tables behind [is_alphabetic] and [is_alphanumeric], with an ASCII
    instance to run the definitions), the driver's objects [DriverObjects] and
    its contract [Driver], with the one law the worker relies on
    ([LawfulOutput]: a read of output that leaves more took some), the driver's
    locators [Loc] and the parking callback [park] of a compaction, and the session that accepts what a pump submits
    ([submit]).  The lexer's theorems ask that a dialect's block comment can end
    ([block_close d] is not empty): with an empty closing delimiter the source's
    loop does not advance.

    ** What is not modelled

    The driver traits' implementations and the Oracle adapter (foreign libraries
    and a network), the waker and the timed waits, the C interface (pointers and
    handles), the workspace's SQLite store, the operating system's secret
    stores, error texts and float conversions.  Planned next, in this order: that
    the worker is a producer in the sense of EventBound, so that the published
    bound holds of [System]; the workspace's settings resolution and history;
    the statement rewriting and classification of the Oracle driver; the batch
    formatting of the C interface. *)

From Stdlib Require Export ZArith Lia.
From stdpp Require Export base option list numbers strings.

Set Default Proof Using "Type".
Open Scope Z_scope.

(** ** Machine integers *)

Definition usize_max : Z := 2 ^ 64 - 1.
Definition i64_min : Z := - 2 ^ 63.
Definition i64_max : Z := 2 ^ 63 - 1.
Definition i128_max : Z := 2 ^ 127 - 1.

(** [a.saturating_add(b)], [a.saturating_sub(b)], [a.saturating_mul(b)] on
    [usize]. *)
Definition sat_add (a b : Z) : Z := Z.min (a + b) usize_max.
Definition sat_sub (a b : Z) : Z := Z.max (a - b) 0.
Definition sat_mul (a b : Z) : Z := Z.min (a * b) usize_max.

(** [a.clamp(lo, hi)]; the panic for [hi < lo] is excluded by its callers. *)
Definition clamp (a lo hi : Z) : Z := if a <? lo then lo else if hi <? a then hi else a.

(** [a.div_ceil(b)]. *)
Definition div_ceil (a b : nat) : nat := if (a mod b =? 0)%nat then a / b else a / b + 1.

(** ** [Result] *)

Inductive result (A E : Type) : Type :=
| Ok (a : A)
| Err (e : E).
Arguments Ok {A E} _.
Arguments Err {A E} _.

Definition result_bind {A B E} (m : result A E) (k : A -> result B E) : result B E :=
  match m with Ok a => k a | Err e => Err e end.

Definition result_is_ok {A E} (m : result A E) : bool :=
  match m with Ok _ => true | Err _ => false end.

(** ** The panic monad *)

Inductive run (A : Type) : Type :=
| Ret (a : A)
| Panic
| OutOfFuel.
Arguments Ret {A} _.
Arguments Panic {A}.
Arguments OutOfFuel {A}.

Definition rbind {A B} (m : run A) (k : A -> run B) : run B :=
  match m with Ret a => k a | Panic => Panic | OutOfFuel => OutOfFuel end.

Declare Scope run_scope.
Delimit Scope run_scope with run.
Notation "'let!' x := m 'in' k" := (rbind m (fun x => k))
  (at level 10, x pattern, m at level 100, k at level 200,
   format "'let!'  x  :=  m  'in' '//' k") : run_scope.
Open Scope run_scope.

Definition of_option {A} (o : option A) : run A :=
  match o with Some a => Ret a | None => Panic end.

(** Total correctness: [m] returns, and what it returns satisfies [Q]. *)
Definition wp {A} (m : run A) (Q : A -> Prop) : Prop :=
  match m with Ret a => Q a | _ => False end.

Lemma wp_ret {A} (a : A) (Q : A -> Prop) : Q a -> wp (Ret a) Q.
Proof. exact id. Qed.

Lemma wp_bind {A B} (m : run A) (k : A -> run B) (R : A -> Prop) (Q : B -> Prop) :
  wp m R -> (forall a, R a -> wp (k a) Q) -> wp (rbind m k) Q.
Proof. destruct m; simpl; naive_solver. Qed.

Lemma wp_mono {A} (m : run A) (P Q : A -> Prop) :
  wp m P -> (forall a, P a -> Q a) -> wp m Q.
Proof. destruct m; simpl; naive_solver. Qed.

Lemma wp_elim {A} (m : run A) (Q : A -> Prop) : wp m Q -> exists a, m = Ret a /\ Q a.
Proof. destruct m; simpl; [eauto|done..]. Qed.

(** [iter().take_while(p).count()]. *)
Fixpoint count_while {A} (p : A -> bool) (l : list A) : nat :=
  match l with
  | [] => 0
  | x :: l' => if p x then S (count_while p l') else 0
  end.

(** ** Shared facts *)

Lemma count_while_le {A} (p : A -> bool) l : (count_while p l <= length l)%nat.
Proof. induction l as [|x l IH]; simpl; [lia|]. destruct (p x); lia. Qed.

Lemma count_while_take {A} (p : A -> bool) l :
  Forall (fun x => p x = true) (take (count_while p l) l).
Proof.
  induction l as [|x l IH]; simpl; [constructor|].
  destruct (p x) eqn:E; simpl; [by constructor|constructor].
Qed.

Lemma count_while_drop {A} (p : A -> bool) l x :
  head (drop (count_while p l) l) = Some x -> p x = false.
Proof.
  induction l as [|y l IH]; simpl; [done|].
  destruct (p y) eqn:E; simpl; [done|]. congruence.
Qed.

Lemma count_while_app {A} (p : A -> bool) l k :
  Forall (fun x => p x = true) l ->
  count_while p (l ++ k) = (length l + count_while p k)%nat.
Proof. induction 1 as [|x l Hx _ IH]; simpl; [done|]. rewrite Hx. lia. Qed.

Lemma count_while_stop {A} (p : A -> bool) l :
  (forall x, head l = Some x -> p x = false) -> count_while p l = 0%nat.
Proof. destruct l as [|x l]; simpl; [done|]. intros H. by rewrite (H x). Qed.

Lemma rev_replicate {A} n (x : A) : rev (replicate n x) = replicate n x.
Proof. induction n as [|n IH]; simpl; [done|]. by rewrite IH, <- replicate_cons_app. Qed.

(** A closed equation, by running both sides in the virtual machine. *)
Ltac evaluate := match goal with |- _ = ?r => vm_cast_no_check (eq_refl r) end.

(** Turn boolean comparisons into propositions. *)
Ltac boolify :=
  repeat match goal with
  | H : (_ && _)%bool = true |- _ => apply andb_true_iff in H as [? ?]
  | H : (_ || _)%bool = false |- _ => apply orb_false_iff in H as [? ?]
  | H : negb _ = true |- _ => apply negb_true_iff in H
  | H : negb _ = false |- _ => apply negb_false_iff in H
  | H : (_ <? _)%Z = true |- _ => apply Z.ltb_lt in H
  | H : (_ <? _)%Z = false |- _ => apply Z.ltb_ge in H
  | H : (_ <=? _)%Z = true |- _ => apply Z.leb_le in H
  | H : (_ <=? _)%Z = false |- _ => apply Z.leb_gt in H
  | H : (_ =? _)%Z = true |- _ => apply Z.eqb_eq in H
  | H : (_ =? _)%Z = false |- _ => apply Z.eqb_neq in H
  | H : (_ <? _)%nat = true |- _ => apply Nat.ltb_lt in H
  | H : (_ <? _)%nat = false |- _ => apply Nat.ltb_ge in H
  | H : (_ <=? _)%nat = true |- _ => apply Nat.leb_le in H
  | H : (_ <=? _)%nat = false |- _ => apply Nat.leb_gt in H
  | H : (_ =? _)%nat = true |- _ => apply Nat.eqb_eq in H
  | H : (_ =? _)%nat = false |- _ => apply Nat.eqb_neq in H
  end.

(** Case analysis on the boolean scrutinee of the goal's outermost [if]. *)
Tactic Notation "case_if" "as" ident(E) :=
  match goal with |- context [if ?b then _ else _] => destruct b eqn:E end; boolify.
