(* ===== verification/RustStr.v ===== *)
(** * Rust strings

    [&str] as a list of Unicode scalar values, with the byte-offset view the
    sources use: UTF-8 lengths, slices that panic off a character boundary,
    [find], [trim], ASCII case folding, and the UTF-8 bytes themselves.

    [char::is_whitespace] is written out in full (the White_Space property).
    [char::is_alphabetic] and [char::is_alphanumeric] are Unicode tables; what
    the sources rely on about them is the class [Unicode]. *)

From S2P Require Import Prelude.
From stdpp Require Import strings.
Open Scope Z_scope.
Open Scope run_scope.

Abbreviation char := Z (only parsing).
Abbreviation str := (list Z) (only parsing).

(** ** Literals *)

Definition chr (a : Ascii.ascii) : char := Z.of_N (Ascii.N_of_ascii a).
Fixpoint lit (s : string) : str :=
  match s with
  | EmptyString => []
  | String a s' => chr a :: lit s'
  end.

Definition NEWLINE : char := 10.
Definition QUOTE : char := 39.
Definition DQUOTE : char := 34.

(** ** UTF-8 *)

(** A [char] is a Unicode scalar value: no surrogates. *)
Definition is_scalar (c : Z) : bool :=
  ((0 <=? c) && (c <? 0xD800)) || ((0xDFFF <? c) && (c <? 0x110000)).

Definition len_utf8 (c : char) : nat :=
  if c <? 0x80 then 1 else if c <? 0x800 then 2 else if c <? 0x10000 then 3 else 4.

Definition encode_utf8 (c : char) : list Z :=
  if c <? 0x80 then [c]
  else if c <? 0x800 then [Z.lor 0xC0 (Z.shiftr c 6); Z.lor 0x80 (Z.land c 0x3F)]
  else if c <? 0x10000 then
    [Z.lor 0xE0 (Z.shiftr c 12); Z.lor 0x80 (Z.land (Z.shiftr c 6) 0x3F);
     Z.lor 0x80 (Z.land c 0x3F)]
  else
    [Z.lor 0xF0 (Z.shiftr c 18); Z.lor 0x80 (Z.land (Z.shiftr c 12) 0x3F);
     Z.lor 0x80 (Z.land (Z.shiftr c 6) 0x3F); Z.lor 0x80 (Z.land c 0x3F)].

Fixpoint as_bytes (s : str) : list Z :=
  match s with [] => [] | c :: s' => encode_utf8 c ++ as_bytes s' end.

(** [s.len()]: the length in bytes. *)
Fixpoint blen (s : str) : nat :=
  match s with [] => 0 | c :: s' => len_utf8 c + blen s' end.

(** ** Slices *)

(** [s.split_at_checked(n)]: [None] when [n] is not a character boundary. *)
Fixpoint split_at (s : str) (n : nat) : option (str * str) :=
  if (n =? 0)%nat then Some ([], s)
  else match s with
  | [] => None
  | c :: s' =>
      if (n <? len_utf8 c)%nat then None
      else match split_at s' (n - len_utf8 c) with
      | Some (a, b) => Some (c :: a, b)
      | None => None
      end
  end.

(** [&s[n..]], [&s[..n]] and [&s[a..b]], which panic off a boundary. *)
Definition slice_from (s : str) (n : nat) : run str :=
  match split_at s n with Some (_, b) => Ret b | None => Panic end.
Definition slice_to (s : str) (n : nat) : run str :=
  match split_at s n with Some (a, _) => Ret a | None => Panic end.
Definition slice (s : str) (a b : nat) : run str :=
  if (b <? a)%nat then Panic
  else let! t := slice_from s a in slice_to t (b - a).

Definition is_char_boundary (s : str) (n : nat) : bool :=
  match split_at s n with Some _ => true | None => false end.

(** [s.starts_with(p)]. *)
Fixpoint starts_with (s p : str) {struct p} : bool :=
  match p, s with
  | [], _ => true
  | c :: p', d :: s' => (c =? d) && starts_with s' p'
  | _ :: _, [] => false
  end.

(** [s.find(p)]: the byte offset of the first character satisfying [p]. *)
Fixpoint find_byte (p : char -> bool) (s : str) : option nat :=
  match s with
  | [] => None
  | c :: s' =>
      if p c then Some 0%nat
      else match find_byte p s' with Some n => Some (len_utf8 c + n)%nat | None => None end
  end.

(** [s.rfind(p)]: the byte offset of the last one. *)
Fixpoint rfind_byte (p : char -> bool) (s : str) : option nat :=
  match s with
  | [] => None
  | c :: s' =>
      match rfind_byte p s' with
      | Some n => Some (len_utf8 c + n)%nat
      | None => if p c then Some 0%nat else None
      end
  end.

(** ** Character classes *)

Definition is_ascii_digit (c : Z) : bool := (48 <=? c) && (c <=? 57).
Definition is_ascii_alphabetic (c : Z) : bool :=
  ((65 <=? c) && (c <=? 90)) || ((97 <=? c) && (c <=? 122)).

(** [char::is_whitespace]: the Unicode White_Space property. *)
Definition is_whitespace (c : char) : bool :=
  ((9 <=? c) && (c <=? 13)) || (c =? 0x20) || (c =? 0x85) || (c =? 0xA0)
  || (c =? 0x1680) || ((0x2000 <=? c) && (c <=? 0x200A)) || (c =? 0x2028)
  || (c =? 0x2029) || (c =? 0x202F) || (c =? 0x205F) || (c =? 0x3000).

(** [char::is_alphabetic] and [char::is_alphanumeric], by the facts their
    documentation promises: on ASCII they are the obvious tests, the second
    contains the first, and no white space is alphabetic. *)
Class Unicode := {
  is_alphabetic : char -> bool;
  is_alphanumeric : char -> bool;
  is_alphabetic_ascii : forall c, 0 <= c < 128 -> is_alphabetic c = is_ascii_alphabetic c;
  is_alphanumeric_ascii : forall c, 0 <= c < 128 ->
    is_alphanumeric c = is_ascii_alphabetic c || is_ascii_digit c;
  alphabetic_alphanumeric : forall c, is_alphabetic c = true -> is_alphanumeric c = true;
  alphabetic_not_whitespace : forall c, is_alphabetic c = true -> is_whitespace c = false;
}.

(** The tables restricted to ASCII, for running the definitions. *)
#[export] Program Instance ascii_unicode : Unicode := {
  is_alphabetic := is_ascii_alphabetic;
  is_alphanumeric := fun c => is_ascii_alphabetic c || is_ascii_digit c;
}.
Next Obligation. done. Qed.
Next Obligation. done. Qed.
Next Obligation. simpl. intros c ->. done. Qed.
Next Obligation.
  unfold is_ascii_alphabetic, is_whitespace. intros c H.
  rewrite !orb_false_iff, !andb_false_iff, !Z.eqb_neq, !Z.leb_gt.
  apply orb_true_iff in H as [H|H]; boolify; lia.
Qed.

(** [s.trim_start()], [s.trim_end()], [s.trim()]. *)
Fixpoint trim_start (s : str) : str :=
  match s with
  | [] => []
  | c :: s' => if is_whitespace c then trim_start s' else s
  end.
Definition trim_end (s : str) : str := rev (trim_start (rev s)).
Definition trim (s : str) : str := trim_end (trim_start s).

(** [a.eq_ignore_ascii_case(b)]. *)
Definition to_ascii_lowercase (c : char) : char :=
  if (65 <=? c) && (c <=? 90) then c + 32 else c.
Fixpoint eq_ignore_ascii_case (a b : str) : bool :=
  match a, b with
  | [], [] => true
  | c :: a', d :: b' =>
      (to_ascii_lowercase c =? to_ascii_lowercase d) && eq_ignore_ascii_case a' b'
  | _, _ => false
  end.

(** [a == b] on [&str]. *)
Definition str_eqb (a b : str) : bool := bool_decide (a = b).

(** ** Lemmas *)

Lemma len_utf8_pos c : (0 < len_utf8 c)%nat.
Proof. unfold len_utf8. repeat case_match; lia. Qed.

Lemma length_encode_utf8 c : length (encode_utf8 c) = len_utf8 c.
Proof. unfold encode_utf8, len_utf8. repeat case_match; done. Qed.

Lemma blen_app a b : blen (a ++ b) = (blen a + blen b)%nat.
Proof. induction a as [|c a IH]; simpl; [done|]. rewrite IH. lia. Qed.

Lemma length_as_bytes s : length (as_bytes s) = blen s.
Proof.
  induction s as [|c s IH]; simpl; [done|].
  by rewrite length_app, length_encode_utf8, IH.
Qed.

Lemma blen_nil_inv s : blen s = 0%nat -> s = [].
Proof. destruct s as [|c s]; simpl; [done|]. pose proof (len_utf8_pos c). lia. Qed.

Lemma split_at_app a b : split_at (a ++ b) (blen a) = Some (a, b).
Proof.
  induction a as [|c a IH]; cbn [split_at app blen].
  - by destruct b.
  - pose proof (len_utf8_pos c).
    rewrite (proj2 (Nat.eqb_neq _ _)) by lia.
    rewrite (proj2 (Nat.ltb_ge _ _)) by lia.
    replace (len_utf8 c + blen a - len_utf8 c)%nat with (blen a) by lia. by rewrite IH.
Qed.

Lemma split_at_Some s n a b : split_at s n = Some (a, b) -> s = a ++ b /\ blen a = n.
Proof.
  revert n a. induction s as [|c s IH]; intros n a; cbn [split_at].
  - destruct (n =? 0)%nat eqn:E; [|done]. boolify. naive_solver.
  - destruct (n =? 0)%nat eqn:E; boolify.
    { intros [= <- <-]. by subst. }
    destruct (n <? len_utf8 c)%nat eqn:E2; [done|]. boolify.
    destruct (split_at s (n - len_utf8 c)) as [[a' b']|] eqn:E3; [|done].
    intros [= <- <-]. apply IH in E3 as [-> Hn]. simpl. split; [done|lia].
Qed.

Lemma split_at_cons c s : split_at (c :: s) (len_utf8 c) = Some ([c], s).
Proof.
  pose proof (split_at_app [c] s) as H. simpl in H.
  by rewrite Nat.add_0_r in H.
Qed.

Lemma slice_from_app a b : slice_from (a ++ b) (blen a) = Ret b.
Proof. unfold slice_from. by rewrite split_at_app. Qed.

Lemma slice_to_app a b : slice_to (a ++ b) (blen a) = Ret a.
Proof. unfold slice_to. by rewrite split_at_app. Qed.

Lemma slice_app a b c : slice (a ++ b ++ c) (blen a) (blen a + blen b) = Ret b.
Proof.
  unfold slice. rewrite (proj2 (Nat.ltb_ge _ _)) by lia.
  rewrite slice_from_app. simpl.
  replace (blen a + blen b - blen a)%nat with (blen b) by lia. apply slice_to_app.
Qed.

Lemma starts_with_app p s : starts_with (p ++ s) p = true.
Proof. induction p as [|c p IH]; simpl; [done|]. by rewrite Z.eqb_refl, IH. Qed.

Lemma starts_with_true s p : starts_with s p = true -> exists s', s = p ++ s'.
Proof.
  revert s. induction p as [|c p IH]; intros s; simpl; [eauto|].
  destruct s as [|d s]; [done|]. intros H. boolify. subst d.
  destruct (IH s) as [s' ->]; eauto.
Qed.

(** [find_byte] splits its argument at a character boundary. *)
Lemma find_byte_Some p s n :
  find_byte p s = Some n ->
  exists a c b, s = a ++ c :: b /\ blen a = n /\ p c = true /\
                Forall (fun x => p x = false) a.
Proof.
  revert n. induction s as [|c s IH]; intros n; simpl; [done|].
  destruct (p c) eqn:E.
  - intros [= <-]. by exists [], c, s.
  - destruct (find_byte p s) as [m|]; [|done]. intros [= <-].
    destruct (IH m eq_refl) as (a & d & b & -> & <- & ? & ?).
    exists (c :: a), d, b. simpl. repeat split; [done|]. by constructor.
Qed.

Lemma find_byte_None p s : find_byte p s = None -> Forall (fun x => p x = false) s.
Proof.
  induction s as [|c s IH]; simpl; [constructor|].
  destruct (p c) eqn:E; [done|]. destruct (find_byte p s); [done|].
  constructor; auto.
Qed.

Lemma rfind_byte_Some p s n :
  rfind_byte p s = Some n ->
  exists a c b, s = a ++ c :: b /\ blen a = n /\ p c = true /\
                Forall (fun x => p x = false) b.
Proof.
  assert (HN : forall t, rfind_byte p t = None -> Forall (fun x => p x = false) t).
  { induction t as [|c t IH]; simpl; [constructor|].
    destruct (rfind_byte p t); [done|]. destruct (p c) eqn:E; [done|]. constructor; auto. }
  revert n. induction s as [|c s IH]; intros n; simpl; [done|].
  destruct (rfind_byte p s) as [m|] eqn:E.
  - intros [= <-]. destruct (IH m eq_refl) as (a & d & b & -> & <- & ? & ?).
    by exists (c :: a), d, b.
  - destruct (p c) eqn:Ec; [|done]. intros [= <-]. exists [], c, s. auto.
Qed.

Lemma rfind_byte_None p s : rfind_byte p s = None -> Forall (fun x => p x = false) s.
Proof.
  induction s as [|c s IH]; simpl; [constructor|].
  destruct (rfind_byte p s); [done|]. destruct (p c) eqn:E; [done|]. constructor; auto.
Qed.

(** What [trim_end] and [trim_start] remove is white space. *)
Lemma trim_start_spec s :
  exists w, s = w ++ trim_start s /\ Forall (fun c => is_whitespace c = true) w.
Proof.
  induction s as [|c s IH]; simpl; [by exists []|].
  destruct (is_whitespace c) eqn:E; [|by exists []].
  destruct IH as (w & Hs & Hw). exists (c :: w). simpl. split; [by f_equal|by constructor].
Qed.

Lemma trim_end_spec s :
  exists w, s = trim_end s ++ w /\ Forall (fun c => is_whitespace c = true) w.
Proof.
  unfold trim_end. destruct (trim_start_spec (rev s)) as (w & Hs & Hw).
  exists (rev w). split.
  - rewrite <- rev_app_distr, <- Hs. symmetry. apply rev_involutive.
  - rewrite Forall_forall in *. intros c Hc. apply Hw.
    apply list_elem_of_In. rewrite in_rev. by apply list_elem_of_In.
Qed.

Lemma trim_start_nil s : trim_start s = [] <-> Forall (fun c => is_whitespace c = true) s.
Proof.
  split.
  - intros H. destruct (trim_start_spec s) as (w & Hs & Hw).
    rewrite H, app_nil_r in Hs. by subst.
  - induction 1 as [|c s Hc _ IH]; simpl; [done|]. by rewrite Hc.
Qed.

Lemma trim_nil s : trim s = [] <-> Forall (fun c => is_whitespace c = true) s.
Proof.
  unfold trim, trim_end. split.
  - intros H. apply (f_equal (@rev Z)) in H. rewrite rev_involutive in H. simpl in H.
    apply trim_start_nil in H. destruct (trim_start_spec s) as (w & Hs & Hw). rewrite Hs.
    apply Forall_app. split; [done|]. apply Forall_rev in H. by rewrite rev_involutive in H.
  - intros H. apply trim_start_nil in H. rewrite H. done.
Qed.

Lemma trim_end_le s : (blen (trim_end s) <= blen s)%nat.
Proof.
  destruct (trim_end_spec s) as (w & Hs & _).
  apply (f_equal blen) in Hs. rewrite blen_app in Hs. lia.
Qed.

Lemma trim_id s :
  (forall c, head s = Some c -> is_whitespace c = false) ->
  (forall c, last s = Some c -> is_whitespace c = false) ->
  trim s = s.
Proof.
  intros Hh Hl. unfold trim.
  assert (trim_start s = s) as ->.
  { destruct s as [|c s]; simpl; [done|]. by rewrite (Hh c). }
  unfold trim_end. destruct s as [|c s] using rev_ind; simpl; [done|].
  rewrite rev_app_distr. simpl. rewrite (Hl c) by apply last_snoc.
  by rewrite <- rev_involutive, rev_app_distr.
Qed.

Lemma eq_ignore_ascii_case_refl a : eq_ignore_ascii_case a a = true.
Proof. induction a as [|c a IH]; simpl; [done|]. by rewrite Z.eqb_refl, IH. Qed.

Lemma eq_ignore_ascii_case_length a b :
  eq_ignore_ascii_case a b = true -> length a = length b.
Proof.
  revert b. induction a as [|c a IH]; intros [|d b]; simpl; try done.
  intros H. boolify. f_equal. auto.
Qed.

#[global] Opaque len_utf8.
