(* ===== verification/Number.v ===== *)
(** * [Number]: lossless decimals (db-driver-api/src/value/number.rs)

    A [Number] is a sign, up to forty decimal digits and a decimal exponent,
    in one canonical form.  The file models every constructor ([from_digits],
    [parse], [from_magnitude] and the integer conversions), the canonical
    [Display], the order and the exact integer readers.

    Values are compared through [units]: the value of a number in units of
    [10^-169], the finest step any well-formed number needs, so that every
    value is an integer and no rational arithmetic is involved. *)

From S2P Require Import Prelude RustStr.
Open Scope Z_scope.
Open Scope run_scope.

Definition MAX_SIGNIFICANT_DIGITS : nat := 40.
Definition MIN_EXPONENT : Z := -129.
Definition MAX_EXPONENT : Z := 126.

Inductive NumberError :=
| Empty
| InvalidSyntax
| InvalidDigit
| TooManyDigits
| ExponentOutOfRange.

(** [buf] is the array [digits: [u8; 40]] of the source; [digits] below is its
    first [len] entries. *)
Record Number := mkNumber {
  buf : list Z;
  len : nat;
  exponent : Z;
  negative : bool;
}.

Definition ZERO : Number :=
  {| buf := replicate MAX_SIGNIFICANT_DIGITS 0; len := 0; exponent := 0; negative := false |}.

(** [u8::try_from(n).unwrap_or(0)] and [i32::try_from(n).unwrap_or(i32::MAX)]. *)
Definition u8_or_zero (n : nat) : nat := if (n <=? 255)%nat then n else 0.
Definition i32_or_max (n : nat) : Z := Z.min (Z.of_nat n) (2 ^ 31 - 1).

Definition is_zero (n : Number) : bool := (len n =? 0)%nat.
Definition is_negative (n : Number) : bool := negative n.
Definition digit_count (n : Number) : nat := len n.
Definition digits (n : Number) : list Z := take (len n) (buf n).

(** An array of forty digits that starts with [ds]. *)
Definition pad (ds : list Z) : list Z :=
  ds ++ replicate (MAX_SIGNIFICANT_DIGITS - length ds) 0.

Definition check_exponent (e : Z) : result Z NumberError :=
  if (MIN_EXPONENT <=? e) && (e <=? MAX_EXPONENT) then Ok e else Err ExponentOutOfRange.

Definition is_zero_digit (d : Z) : bool := d =? 0.

Definition from_digits (neg : bool) (ds : list Z) (e : Z) : result Number NumberError :=
  if existsb (fun d => 9 <? d) ds then Err InvalidDigit
  else
    let leading := count_while is_zero_digit ds in
    let significant := drop leading ds in
    let trailing := count_while is_zero_digit (rev significant) in
    let significant := take (length significant - trailing) significant in
    if (length significant =? 0)%nat then Ok ZERO
    else if (MAX_SIGNIFICANT_DIGITS <? length significant)%nat then Err TooManyDigits
    else
      result_bind (check_exponent (e - i32_or_max leading)) (fun e =>
      Ok {| buf := pad significant; len := u8_or_zero (length significant);
            exponent := e; negative := neg |}).

(** ** [parse] *)

Definition PLUS : Z := 43.
Definition MINUS : Z := 45.
Definition DOT : Z := 46.
Definition is_e (b : Z) : bool := (b =? 101) || (b =? 69).

(** The optional sign at the head of a byte string, and what follows it. *)
Definition take_sign (bytes : list Z) : bool * list Z :=
  match bytes with
  | b :: rest => if b =? MINUS then (true, rest) else if b =? PLUS then (false, rest) else (false, bytes)
  | [] => (false, [])
  end.

(** The run of ASCII digits at the head, and what follows it. *)
Definition take_digits (bytes : list Z) : list Z * list Z :=
  let n := count_while is_ascii_digit bytes in (take n bytes, drop n bytes).

(** [exponent_part = exponent_part * 10 + (byte - b'0')], from 0. *)
Definition decimal_bytes (bytes : list Z) : Z :=
  fold_left (fun acc b => acc * 10 + (b - 48)) bytes 0.

(** The optional [e]/[E] exponent, at most six digits. *)
Definition parse_exponent (bytes : list Z) : result (Z * list Z) NumberError :=
  match bytes with
  | b :: rest =>
      if is_e b then
        let '(neg, rest) := take_sign rest in
        let '(ds, rest) := take_digits rest in
        if (length ds =? 0)%nat || (6 <? length ds)%nat then Err InvalidSyntax
        else Ok (if neg then - decimal_bytes ds else decimal_bytes ds, rest)
      else Ok (0, bytes)
  | [] => Ok (0, [])
  end.

(** The significant-digit loop: [acc] is [buf[..len]], [zeros] counts the zeros
    seen before the first non-zero digit. *)
Fixpoint collect (bytes : list Z) (acc : list Z) (zeros : Z) (started : bool)
    : result (list Z * Z) NumberError :=
  match bytes with
  | [] => Ok (acc, zeros)
  | b :: rest =>
      let digit := b - 48 in
      if negb started && (digit =? 0) then collect rest acc (zeros + 1) false
      else if (length acc <? MAX_SIGNIFICANT_DIGITS)%nat then collect rest (acc ++ [digit]) zeros true
      else if negb (digit =? 0) then Err TooManyDigits
      else collect rest acc zeros true
  end.

Definition parse_bytes (bytes : list Z) : result Number NumberError :=
  if (length bytes =? 0)%nat then Err Empty
  else
    let '(neg, rest) := take_sign bytes in
    let '(int, rest) := take_digits rest in
    let '(frac, rest) :=
      match rest with
      | b :: rest' => if b =? DOT then take_digits rest' else ([], rest)
      | [] => ([], [])
      end in
    if (length int =? 0)%nat && (length frac =? 0)%nat then Err InvalidSyntax
    else
      result_bind (parse_exponent rest) (fun '(exponent_part, rest) =>
      if negb (length rest =? 0)%nat then Err InvalidSyntax
      else
        result_bind (collect (int ++ frac) [] 0 false) (fun '(acc, leading_zeros) =>
        let n := (length acc - count_while is_zero_digit (rev acc))%nat in
        if (n =? 0)%nat then Ok ZERO
        else
          result_bind (check_exponent (i32_or_max (length int) - leading_zeros + exponent_part))
            (fun e => Ok {| buf := pad acc; len := u8_or_zero n; exponent := e; negative := neg |}))).

Definition parse (text : str) : result Number NumberError := parse_bytes (as_bytes (trim text)).

(** ** [Display] *)

Definition ascii (d : Z) : Z := 48 + d.
Definition zeros (n : Z) : str := replicate (Z.to_nat n) 48.

Definition display (n : Number) : str :=
  if (len n =? 0)%nat then [48]
  else
    let ds := digits n in
    let count := Z.of_nat (length ds) in
    let e := exponent n in
    (if negative n then [MINUS] else []) ++
    (if count <=? e then map ascii ds ++ zeros (e - count)
     else if 0 <? e then
       map ascii (take (Z.to_nat e) ds) ++ [DOT] ++ map ascii (drop (Z.to_nat e) ds)
     else [48; DOT] ++ zeros (- e) ++ map ascii ds).

(** ** Order *)

(** [Ord for [u8]]: lexicographic. *)
Fixpoint slice_cmp (a b : list Z) : comparison :=
  match a, b with
  | [], [] => Eq
  | [], _ :: _ => Lt
  | _ :: _, [] => Gt
  | x :: a', y :: b' => match x ?= y with Eq => slice_cmp a' b' | c => c end
  end.

Definition cmp (a b : Number) : comparison :=
  match negative a, negative b with
  | false, true => Gt
  | true, false => Lt
  | neg, _ =>
      let magnitude :=
        match len a, len b with
        | O, O => Eq
        | O, _ => Lt
        | _, O => Gt
        | _, _ =>
            match exponent a ?= exponent b with
            | Eq => slice_cmp (digits a) (digits b)
            | c => c
            end
        end in
      if neg then CompOpp magnitude else magnitude
  end.

(** ** Integers *)

(** [while rest > 0 { out[count] = rest % 10; rest /= 10; count += 1 }] into an
    array of [room] digits: least significant first, a panic when it is full. *)
Fixpoint rev_digits (room : nat) (rest : Z) : run (list Z) :=
  if rest <=? 0 then Ret []
  else match room with
  | O => Panic
  | S room' => let! ds := rev_digits room' (rest / 10) in Ret (rest mod 10 :: ds)
  end.

(** [magnitude] is a [u128]; [reversed] has room for 39 digits. *)
Definition from_magnitude (magnitude : Z) (neg : bool) : run (result Number NumberError) :=
  if magnitude =? 0 then Ret (Ok ZERO)
  else
    let! reversed := rev_digits 39 magnitude in
    let count := length reversed in
    let trailing_zeros := count_while is_zero_digit reversed in
    let significant := (count - trailing_zeros)%nat in
    if (MAX_SIGNIFICANT_DIGITS <? significant)%nat then Ret (Err TooManyDigits)
    else
      Ret (Ok {| buf := pad (rev (drop trailing_zeros reversed));
                 len := u8_or_zero significant;
                 exponent := Z.of_nat count;
                 negative := neg |}).

(** [TryFrom<i128>] and [TryFrom<u128>]. *)
Definition try_from_i128 (v : Z) : run (result Number NumberError) :=
  from_magnitude (Z.abs v) (v <? 0).
Definition try_from_u128 (v : Z) : run (result Number NumberError) := from_magnitude v false.

(** [From<i64>] and [From<u64>] (and the narrower types): [unwrap_or(ZERO)]. *)
Definition unwrap_or_zero (r : result Number NumberError) : Number :=
  match r with Ok n => n | Err _ => ZERO end.
Definition from_signed (v : Z) : run Number :=
  let! r := from_magnitude (Z.abs v) (v <? 0) in Ret (unwrap_or_zero r).
Definition from_unsigned (v : Z) : run Number :=
  let! r := from_magnitude v false in Ret (unwrap_or_zero r).

Definition i128_checked (v : Z) : option Z :=
  if (- 2 ^ 127 <=? v) && (v <=? 2 ^ 127 - 1) then Some v else None.
Definition checked_mul10 (v : Z) : option Z := i128_checked (v * 10).

Fixpoint checked_digits (ds : list Z) (v : Z) : option Z :=
  match ds with
  | [] => Some v
  | d :: ds' =>
      match checked_mul10 v with
      | Some v => match i128_checked (v + d) with Some v => checked_digits ds' v | None => None end
      | None => None
      end
  end.

Fixpoint checked_scale (n : nat) (v : Z) : option Z :=
  match n with
  | O => Some v
  | S n' => match checked_mul10 v with Some v => checked_scale n' v | None => None end
  end.

Definition to_i128 (n : Number) : option Z :=
  if (len n =? 0)%nat then Some 0
  else
    let count := Z.of_nat (len n) in
    if exponent n <? count then None
    else
      match checked_digits (digits n) 0 with
      | Some v =>
          match checked_scale (Z.to_nat (exponent n - count)) v with
          | Some v => Some (if negative n then - v else v)
          | None => None
          end
      | None => None
      end.

Definition to_i64 (n : Number) : option Z :=
  match to_i128 n with
  | Some v => if (i64_min <=? v) && (v <=? i64_max) then Some v else None
  | None => None
  end.
