(* ===== verification/NumberProps.v ===== *)
(** * Properties of [Number]

    The canonical-form invariant and that every constructor establishes it,
    the value of a parsed literal, the round trip through [Display], the order,
    and the integer conversions. *)

From S2P Require Import Prelude RustStr Number.
From stdpp Require Import strings.
Open Scope Z_scope.
Open Scope run_scope.

(** ** Digit runs *)

Abbreviation digit d := (0 <= d <= 9) (only parsing).
Abbreviation nines := (fun d => 0 <= d <= 9) (only parsing).

(** The integer a digit run spells, most significant digit first. *)
Definition dval (ds : list Z) : Z := fold_left (fun acc d => acc * 10 + d) ds 0.

Lemma fold_dval ds a : fold_left (fun acc d => acc * 10 + d) ds a = a * 10 ^ Z.of_nat (length ds) + dval ds.
Proof.
  unfold dval. revert a. induction ds as [|d ds IH]; intros a; simpl fold_left.
  - simpl. lia.
  - rewrite (IH (a * 10 + d)), (IH (0 * 10 + d)). cbn [length].
    rewrite Nat2Z.inj_succ, Z.pow_succ_r by lia. lia.
Qed.

Lemma dval_cons d ds : dval (d :: ds) = d * 10 ^ Z.of_nat (length ds) + dval ds.
Proof. unfold dval at 1. simpl fold_left. rewrite fold_dval. lia. Qed.

Lemma dval_app a b : dval (a ++ b) = dval a * 10 ^ Z.of_nat (length b) + dval b.
Proof. unfold dval at 1. rewrite fold_left_app. apply fold_dval. Qed.

Lemma dval_zeros n : dval (replicate n 0) = 0.
Proof. induction n as [|n IH]; [done|]. simpl replicate. rewrite dval_cons, IH. lia. Qed.

Lemma pow10_pos n : 0 <= n -> 0 < 10 ^ n.
Proof. intros. apply Z.pow_pos_nonneg; lia. Qed.

Lemma dval_bound ds : Forall nines ds -> 0 <= dval ds < 10 ^ Z.of_nat (length ds).
Proof.
  induction 1 as [|d ds Hd _ IH]; [cbn; lia|].
  rewrite dval_cons. cbn [length]. rewrite Nat2Z.inj_succ, Z.pow_succ_r by lia.
  pose proof (pow10_pos (Z.of_nat (length ds)) ltac:(lia)). nia.
Qed.

(** A normalized run: not empty, no leading and no trailing zero. *)
Record canonical (ds : list Z) : Prop := {
  canonical_digits : Forall nines ds;
  canonical_head : exists d ds', ds = d :: ds' /\ d <> 0;
  canonical_last : exists d ds', ds = ds' ++ [d] /\ d <> 0;
}.

Lemma canonical_dval_lower ds :
  canonical ds -> 10 ^ (Z.of_nat (length ds) - 1) <= dval ds.
Proof.
  intros [Hd (d & ds' & -> & Hne) _]. rewrite dval_cons. cbn [length].
  apply Forall_cons in Hd as [Hd0 Hd]. pose proof (dval_bound _ Hd).
  replace (Z.of_nat (S (length ds')) - 1) with (Z.of_nat (length ds')) by lia.
  pose proof (pow10_pos (Z.of_nat (length ds')) ltac:(lia)). nia.
Qed.

Lemma canonical_length ds : canonical ds -> (0 < length ds)%nat.
Proof. intros [_ (d & ds' & -> & _) _]. simpl. lia. Qed.

Lemma zero_run ds : Forall (fun d => is_zero_digit d = true) ds -> ds = replicate (length ds) 0.
Proof.
  induction 1 as [|d ds Hd _ IH]; simpl; [done|].
  unfold is_zero_digit in Hd. boolify. by f_equal.
Qed.

Lemma zero_run_forall n : Forall (fun d => is_zero_digit d = true) (replicate n 0).
Proof. by apply Forall_replicate. Qed.

(** Every run is zeros, or a canonical run between zeros. *)
Lemma strip_zeros ds :
  Forall nines ds ->
  (exists n, ds = replicate n 0) \/
  (exists a sig b, ds = replicate a 0 ++ sig ++ replicate b 0 /\ canonical sig).
Proof.
  intros Hds. set (a := count_while is_zero_digit ds).
  pose proof (count_while_take is_zero_digit ds) as Hz. fold a in Hz.
  pose proof (count_while_le is_zero_digit ds) as Hle. fold a in Hle.
  pose proof (zero_run _ Hz) as Ez. rewrite length_take, Nat.min_l in Ez by done.
  destruct (drop a ds) as [|d rest] eqn:Ed.
  { left. exists a. by rewrite <- (take_drop a ds), Ez, Ed, app_nil_r. }
  right. assert (d <> 0) as Hne.
  { pose proof (count_while_drop is_zero_digit ds d) as H. fold a in H.
    rewrite Ed in H. specialize (H eq_refl). unfold is_zero_digit in H. by boolify. }
  set (sig := drop a ds) in *. set (b := count_while is_zero_digit (rev sig)).
  pose proof (count_while_take is_zero_digit (rev sig)) as Hz2. fold b in Hz2.
  pose proof (count_while_le is_zero_digit (rev sig)) as Hle2. fold b in Hle2.
  pose proof (zero_run _ Hz2) as Ez2. rewrite length_take, Nat.min_l in Ez2 by done.
  assert (Hsig : sig = rev (drop b (rev sig)) ++ replicate b 0).
  { rewrite <- (rev_involutive sig) at 1. rewrite <- (take_drop b (rev sig)) at 1.
    by rewrite rev_app_distr, Ez2, rev_replicate. }
  set (core := rev (drop b (rev sig))) in *.
  assert (Hcore : core <> []).
  { intros E. rewrite E in Hsig. simpl in Hsig. rewrite Hsig in Ed.
    destruct b; simpl in Ed; [done|]. congruence. }
  exists a, core, b. split.
  { rewrite <- (take_drop a ds) at 1. rewrite Ez. f_equal. exact Hsig. }
  split.
  - assert (Forall nines sig) as Hall by (by apply Forall_drop).
    rewrite Hsig, Forall_app in Hall. tauto.
  - destruct core as [|c core'] eqn:Ec; [done|]. rewrite Hsig in Ed.
    simpl in Ed. injection Ed as -> _. eauto.
  - destruct core as [|c core' _] eqn:Ec using rev_ind; [done|].
    exists c, core'. split; [done|].
    pose proof (count_while_drop is_zero_digit (rev sig) c) as H. fold b in H.
    unfold core in Ec. apply (f_equal (@rev Z)) in Ec.
    rewrite rev_involutive, rev_app_distr in Ec. simpl in Ec. rewrite Ec in H.
    specialize (H eq_refl). unfold is_zero_digit in H. by boolify.
Qed.

(** ** The canonical form *)

(** The number with significant digits [ds]. *)
Definition make (neg : bool) (ds : list Z) (e : Z) : Number :=
  {| buf := pad ds; len := length ds; exponent := e; negative := neg |}.

(** The invariant of the type: zero in its one form, or a canonical run of at
    most forty digits (the rest of the array zero) and an exponent in range. *)
Inductive number_ok : Number -> Prop :=
| number_ok_zero : number_ok ZERO
| number_ok_make neg ds e :
    canonical ds -> (length ds <= MAX_SIGNIFICANT_DIGITS)%nat ->
    MIN_EXPONENT <= e <= MAX_EXPONENT -> number_ok (make neg ds e).

Lemma digits_make neg ds e : digits (make neg ds e) = ds.
Proof. unfold digits, make, pad. simpl. by rewrite take_app_length. Qed.

Definition sgn (neg : bool) : Z := if neg then -1 else 1.

(** The value in units of [10^-169]. *)
Definition units (n : Number) : Z :=
  sgn (negative n) * dval (digits n) * 10 ^ (exponent n - Z.of_nat (len n) + 169).

(** [n] is exactly [m * 10^k]. *)
Definition denotes (n : Number) (m k : Z) : Prop :=
  forall a b, 0 <= a -> 0 <= b -> b - a = k + 169 -> units n * 10 ^ a = m * 10 ^ b.

(** The outcome of normalizing [ds] at exponent [e]. *)
Lemma from_digits_zeros neg n e : from_digits neg (replicate n 0) e = Ok ZERO.
Proof.
  unfold from_digits.
  assert (existsb (fun d => 9 <? d) (replicate n 0) = false) as ->.
  { induction n; simpl; auto. }
  pose proof (count_while_app is_zero_digit (replicate n 0) [] (zero_run_forall n)) as H.
  rewrite app_nil_r in H. rewrite H, length_replicate. simpl count_while.
  rewrite Nat.add_0_r, drop_ge by (by rewrite length_replicate). done.
Qed.

Lemma canonical_stop ds : canonical ds -> count_while is_zero_digit ds = 0%nat.
Proof.
  intros [_ (d & ds' & -> & Hd) _]. apply count_while_stop. simpl.
  intros x [= ->]. unfold is_zero_digit. by apply Z.eqb_neq.
Qed.

Lemma canonical_rev_stop ds : canonical ds -> count_while is_zero_digit (rev ds) = 0%nat.
Proof.
  intros [_ _ (d & ds' & -> & Hd)]. apply count_while_stop.
  rewrite rev_app_distr. simpl. intros x [= ->]. unfold is_zero_digit. by apply Z.eqb_neq.
Qed.

Lemma digits_not_above_9 ds : Forall nines ds -> existsb (fun d => 9 <? d) ds = false.
Proof.
  induction 1 as [|d ds Hd _ IH]; simpl; [done|]. rewrite IH, orb_false_r.
  apply Z.ltb_ge. lia.
Qed.

(** The digits left once the zeros at both ends are stripped. *)
Lemma strip_trailing sig b :
  canonical sig ->
  let s := sig ++ replicate b 0 in
  take (length s - count_while is_zero_digit (rev s)) s = sig.
Proof.
  intros Hc s. unfold s. rewrite rev_app_distr, rev_replicate.
  rewrite (count_while_app _ _ _ (zero_run_forall b)), canonical_rev_stop by done.
  rewrite length_app, length_replicate.
  replace (length sig + b - (b + 0))%nat with (length sig) by lia.
  apply take_app_length.
Qed.

Lemma from_digits_strip neg a sig b e :
  canonical sig -> Z.of_nat a < 2 ^ 31 ->
  from_digits neg (replicate a 0 ++ sig ++ replicate b 0) e =
    if (MAX_SIGNIFICANT_DIGITS <? length sig)%nat then Err TooManyDigits
    else result_bind (check_exponent (e - Z.of_nat a)) (fun e => Ok (make neg sig e)).
Proof.
  intros Hc Ha. unfold from_digits.
  rewrite digits_not_above_9.
  2:{ rewrite !Forall_app. repeat split; try (apply Forall_replicate; lia). apply Hc. }
  rewrite count_while_app by apply zero_run_forall.
  assert (count_while is_zero_digit (sig ++ replicate b 0) = 0%nat) as ->.
  { destruct (canonical_head _ Hc) as (d & ds' & -> & Hd). simpl.
    unfold is_zero_digit. by rewrite (proj2 (Z.eqb_neq _ _)). }
  rewrite length_replicate, Nat.add_0_r, drop_app_length' by (by rewrite length_replicate).
  rewrite strip_trailing by done. pose proof (canonical_length _ Hc).
  rewrite (proj2 (Nat.eqb_neq _ _)) by lia.
  destruct (_ <? _)%nat eqn:E; [done|]. boolify. unfold MAX_SIGNIFICANT_DIGITS in *.
  unfold i32_or_max. rewrite Z.min_l by lia.
  destruct (check_exponent _); simpl; [|done]. unfold make, u8_or_zero.
  by rewrite (proj2 (Nat.leb_le _ _)) by lia.
Qed.

Lemma check_exponent_ok e e' : check_exponent e = Ok e' -> e' = e /\ MIN_EXPONENT <= e <= MAX_EXPONENT.
Proof. unfold check_exponent. case_if as E; [|done]. intros [= ->]. done. Qed.

Lemma units_make neg ds e :
  units (make neg ds e) = sgn neg * dval ds * 10 ^ (e - Z.of_nat (length ds) + 169).
Proof. unfold units. by rewrite digits_make. Qed.

(** Stripping zeros does not change the value. *)
Lemma make_denotes neg a sig b e :
  canonical sig -> (length sig <= MAX_SIGNIFICANT_DIGITS)%nat -> MIN_EXPONENT <= e ->
  denotes (make neg sig e) (sgn neg * dval (replicate a 0 ++ sig ++ replicate b 0))
    (e - Z.of_nat (length sig + b)).
Proof.
  intros Hc Hl He x y Hx Hy Hxy. rewrite units_make.
  rewrite !dval_app, !dval_zeros, length_replicate.
  unfold MAX_SIGNIFICANT_DIGITS, MIN_EXPONENT in *.
  rewrite Z.mul_0_l, Z.add_0_l, Z.add_0_r, <- !Z.mul_assoc, <- !Z.pow_add_r by lia.
  do 3 f_equal. lia.
Qed.

Lemma denotes_zero k : denotes ZERO 0 k.
Proof. intros a b _ _ _. by rewrite !Z.mul_0_l. Qed.

(** What a digit run is worth, when it is accepted. *)
Lemma from_digits_sound neg ds e n :
  Forall nines ds -> Z.of_nat (length ds) < 2 ^ 31 ->
  from_digits neg ds e = Ok n ->
  number_ok n /\ denotes n (sgn neg * dval ds) (e - Z.of_nat (length ds)).
Proof.
  intros Hds Hlen. destruct (strip_zeros ds Hds) as [[k ->]|(a & sig & b & -> & Hc)].
  - rewrite from_digits_zeros. intros [= <-]. rewrite dval_zeros, Z.mul_0_r.
    split; [constructor|apply denotes_zero].
  - rewrite !length_app, !length_replicate in Hlen.
    rewrite from_digits_strip by (done || lia).
    destruct (_ <? _)%nat eqn:E; [done|]. boolify.
    destruct (check_exponent _) as [e'|] eqn:Ee; simpl; [|done]. intros [= <-].
    apply check_exponent_ok in Ee as [-> Hr]. split; [by constructor|].
    rewrite !length_app, !length_replicate.
    replace (e - Z.of_nat (a + (length sig + b)))
      with (e - Z.of_nat a - Z.of_nat (length sig + b)) by lia.
    apply make_denotes; [done..|lia].
Qed.

(** ** Decimal literals *)

(** The grammar [parse] documents: an optional sign, digits with an optional
    point, an optional exponent of one to six digits. *)
Record literal := {
  lit_sign : option bool;
  lit_int : list Z;
  lit_frac : option (list Z);
  lit_exp : option (bool * option bool * list Z);
}.

Definition sign_text (s : option bool) : str :=
  match s with None => [] | Some true => [MINUS] | Some false => [PLUS] end.
Definition frac_digits (l : literal) : list Z := default [] (lit_frac l).
Definition frac_text (l : literal) : str :=
  match lit_frac l with None => [] | Some f => DOT :: map ascii f end.
Definition exp_text (l : literal) : str :=
  match lit_exp l with
  | None => []
  | Some (upper, s, ds) => (if upper then 69 else 101) :: sign_text s ++ map ascii ds
  end.
Definition literal_text (l : literal) : str :=
  sign_text (lit_sign l) ++ map ascii (lit_int l) ++ frac_text l ++ exp_text l.

Definition is_minus (s : option bool) : bool := default false s.
Definition literal_exponent (l : literal) : Z :=
  match lit_exp l with None => 0 | Some (_, s, ds) => sgn (is_minus s) * dval ds end.

Record literal_ok (l : literal) : Prop := {
  literal_int_digits : Forall nines (lit_int l);
  literal_frac_digits : Forall nines (frac_digits l);
  literal_some_digit : lit_int l ++ frac_digits l <> [];
  literal_length : Z.of_nat (length (lit_int l ++ frac_digits l)) < 2 ^ 31;
  literal_exp_digits : forall u s ds, lit_exp l = Some (u, s, ds) ->
    Forall nines ds /\ (1 <= length ds <= 6)%nat;
}.

Lemma ascii_digit d : 0 <= d <= 9 -> is_ascii_digit (ascii d) = true.
Proof. intros. unfold is_ascii_digit, ascii. apply andb_true_intro. split; apply Z.leb_le; lia. Qed.

Lemma ascii_digits ds : Forall nines ds -> Forall (fun b => is_ascii_digit b = true) (map ascii ds).
Proof. induction 1; simpl; constructor; auto using ascii_digit. Qed.

Lemma take_digits_map ds rest :
  Forall nines ds -> (forall b, head rest = Some b -> is_ascii_digit b = false) ->
  take_digits (map ascii ds ++ rest) = (map ascii ds, rest).
Proof.
  intros Hd Hr. unfold take_digits.
  rewrite count_while_app, (count_while_stop _ rest), Nat.add_0_r by auto using ascii_digits.
  by rewrite take_app_length, drop_app_length.
Qed.

Lemma take_sign_text s rest :
  (forall b, head rest = Some b -> b <> MINUS /\ b <> PLUS) ->
  take_sign (sign_text s ++ rest) = (is_minus s, rest).
Proof.
  intros Hr. destruct s as [[]|]; simpl; [done..|].
  destruct rest as [|b rest]; [done|]. destruct (Hr b eq_refl). simpl.
  by rewrite !(proj2 (Z.eqb_neq _ _)).
Qed.

Lemma decimal_bytes_map ds : decimal_bytes (map ascii ds) = dval ds.
Proof.
  unfold decimal_bytes, dval. generalize 0. induction ds as [|d ds IH]; intros a; simpl; [done|].
  rewrite IH. unfold ascii. f_equal. lia.
Qed.

Lemma collect_started ds acc z :
  (length acc <= MAX_SIGNIFICANT_DIGITS)%nat ->
  collect (map ascii ds) acc z true =
    if forallb is_zero_digit (drop MAX_SIGNIFICANT_DIGITS (acc ++ ds))
    then Ok (take MAX_SIGNIFICANT_DIGITS (acc ++ ds), z) else Err TooManyDigits.
Proof.
  revert acc. induction ds as [|d ds IH]; intros acc Hacc.
  - rewrite app_nil_r, drop_ge, take_ge by done. done.
  - cbn [map collect]. replace (ascii d - 48) with d by (unfold ascii; lia).
    change (negb true && (d =? 0)) with false. cbv iota.
    destruct (_ <? _)%nat eqn:E; boolify.
    + rewrite IH by (rewrite length_app; simpl; lia).
      by rewrite <- !app_assoc.
    + assert (length acc = MAX_SIGNIFICANT_DIGITS) as Hl by lia. rewrite <- Hl.
      rewrite drop_app_length, take_app_length. cbn [forallb]. unfold is_zero_digit at 1.
      destruct (d =? 0); cbn [negb andb]; [|done].
      rewrite IH by lia. by rewrite <- Hl, drop_app_length, take_app_length.
Qed.

Lemma collect_zeros a ds z :
  collect (map ascii (replicate a 0 ++ ds)) [] z false = collect (map ascii ds) [] (z + Z.of_nat a) false.
Proof.
  revert z. induction a as [|a IH]; intros z.
  - simpl. by rewrite Z.add_0_r.
  - cbn [replicate app map collect]. change (ascii 0 - 48) with 0. simpl (_ && _).
    cbv iota. rewrite IH. f_equal. lia.
Qed.

Lemma forallb_zero_suffix sig b :
  canonical sig ->
  forallb is_zero_digit (drop MAX_SIGNIFICANT_DIGITS (sig ++ replicate b 0)) =
    negb (MAX_SIGNIFICANT_DIGITS <? length sig)%nat.
Proof.
  intros Hc. destruct (_ <? _)%nat eqn:E; boolify; simpl.
  - destruct (canonical_last _ Hc) as (d & ds' & -> & Hd).
    rewrite length_app in E. simpl in E. apply not_true_iff_false.
    rewrite forallb_forall. intros H. specialize (H d).
    rewrite <- app_assoc, drop_app_le in H by lia.
    assert (is_zero_digit d = true) as Hz.
    { apply H. rewrite !in_app_iff. right. left. by left. }
    unfold is_zero_digit in Hz. by boolify.
  - apply forallb_forall. intros d Hd. apply list_elem_of_In in Hd.
    rewrite drop_app_ge, drop_replicate in Hd by lia.
    by apply elem_of_replicate in Hd as [-> _].
Qed.

Lemma pad_take sig b :
  (length sig <= MAX_SIGNIFICANT_DIGITS)%nat ->
  pad (take MAX_SIGNIFICANT_DIGITS (sig ++ replicate b 0)) = pad sig.
Proof.
  intros Hl. unfold pad. rewrite take_app_ge by done.
  rewrite take_replicate, length_app, length_replicate, <- app_assoc, <- replicate_add.
  do 2 f_equal. lia.
Qed.

Lemma collect_strip a sig b :
  canonical sig ->
  collect (map ascii (replicate a 0 ++ sig ++ replicate b 0)) [] 0 false =
    if (MAX_SIGNIFICANT_DIGITS <? length sig)%nat then Err TooManyDigits
    else Ok (take MAX_SIGNIFICANT_DIGITS (sig ++ replicate b 0), Z.of_nat a).
Proof.
  intros Hc. rewrite collect_zeros, Z.add_0_l.
  assert (forall z, collect (map ascii (sig ++ replicate b 0)) [] z false =
          collect (map ascii (sig ++ replicate b 0)) [] z true) as ->.
  { intros z. destruct (canonical_head _ Hc) as (d & ds' & -> & Hd).
    cbn [app map collect]. replace (ascii d - 48) with d by (unfold ascii; lia).
    by rewrite (proj2 (Z.eqb_neq _ _)). }
  rewrite collect_started by (simpl; unfold MAX_SIGNIFICANT_DIGITS; lia).
  rewrite app_nil_l, forallb_zero_suffix by done. by destruct (_ <? _)%nat.
Qed.

Lemma collect_all_zeros n :
  collect (map ascii (replicate n 0)) [] 0 false = Ok ([], Z.of_nat n).
Proof.
  pose proof (collect_zeros n [] 0) as H. rewrite app_nil_r in H. by rewrite H.
Qed.

(** The digit loop and the normalization of [from_digits] agree. *)
Lemma collect_from_digits neg ds e :
  Forall nines ds -> Z.of_nat (length ds) < 2 ^ 31 ->
  result_bind (collect (map ascii ds) [] 0 false) (fun '(acc, leading_zeros) =>
    let n := (length acc - count_while is_zero_digit (rev acc))%nat in
    if (n =? 0)%nat then Ok ZERO
    else result_bind (check_exponent (e - leading_zeros))
      (fun e => Ok {| buf := pad acc; len := u8_or_zero n; exponent := e; negative := neg |}))
  = from_digits neg ds e.
Proof.
  intros Hds Hlen. destruct (strip_zeros ds Hds) as [[k ->]|(a & sig & b & -> & Hc)].
  { by rewrite collect_all_zeros, from_digits_zeros. }
  rewrite !length_app, !length_replicate in Hlen.
  rewrite collect_strip, from_digits_strip by (done || lia).
  destruct (_ <? _)%nat eqn:E; [done|]. boolify. cbn [result_bind].
  rewrite (take_app_ge sig), take_replicate by done.
  set (b' := ((MAX_SIGNIFICANT_DIGITS - length sig) `min` b)%nat).
  rewrite rev_app_distr, rev_replicate.
  rewrite (count_while_app _ _ _ (zero_run_forall b')), canonical_rev_stop by done.
  rewrite length_app, length_replicate. cbv zeta.
  replace (length sig + b' - (b' + 0))%nat with (length sig) by lia.
  pose proof (canonical_length _ Hc). rewrite (proj2 (Nat.eqb_neq _ _)) by lia.
  destruct (check_exponent _); simpl; [|done]. do 2 f_equal. unfold make, u8_or_zero, MAX_SIGNIFICANT_DIGITS in *.
  rewrite (proj2 (Nat.leb_le _ _)) by lia. f_equal.
  rewrite <- (pad_take sig b) by done. unfold b'.
  by rewrite <- take_replicate, <- take_app_ge.
Qed.

(** Characters a literal is made of: ASCII, none of them white space. *)
Definition literal_char (c : Z) : Prop :=
  (48 <= c <= 57) \/ c = PLUS \/ c = MINUS \/ c = DOT \/ c = 101 \/ c = 69.

Lemma literal_text_chars l : literal_ok l -> Forall literal_char (literal_text l).
Proof.
  intros H. assert (HS : forall s, Forall literal_char (sign_text s)).
  { intros [[]|]; simpl; repeat constructor; unfold literal_char, MINUS, PLUS; lia. }
  assert (HD : forall ds, Forall nines ds -> Forall literal_char (map ascii ds)).
  { induction 1; simpl; constructor; auto. unfold literal_char, ascii. lia. }
  unfold literal_text. rewrite !Forall_app. split; [auto|split; [by apply HD, H|split]].
  - unfold frac_text. destruct (lit_frac l) as [f|] eqn:Ef; [|constructor].
    constructor; [unfold literal_char, DOT; lia|]. apply HD.
    pose proof (literal_frac_digits _ H) as Hf. unfold frac_digits in Hf. by rewrite Ef in Hf.
  - unfold exp_text. destruct (lit_exp l) as [[[u s] ds]|] eqn:Ee; [|constructor].
    destruct (literal_exp_digits _ H u s ds Ee).
    constructor; [unfold literal_char; destruct u; lia|]. rewrite Forall_app. auto.
Qed.

Lemma literal_char_not_whitespace c : literal_char c -> is_whitespace c = false.
Proof.
  unfold literal_char, is_whitespace, PLUS, MINUS, DOT. intros H.
  rewrite !orb_false_iff, !andb_false_iff, !Z.eqb_neq, !Z.leb_gt. lia.
Qed.

Lemma as_bytes_literal s : Forall literal_char s -> as_bytes s = s.
Proof.
  induction 1 as [|c s Hc _ IH]; simpl; [done|]. rewrite IH.
  unfold encode_utf8, literal_char, PLUS, MINUS, DOT in *.
  by rewrite (proj2 (Z.ltb_lt _ _)) by lia.
Qed.

Lemma trim_literal s : Forall literal_char s -> trim s = s.
Proof.
  intros H. rewrite Forall_forall in H. apply trim_id; intros c Hc;
    apply literal_char_not_whitespace, H.
  - destruct s; [done|]. simpl in Hc. injection Hc as ->. left.
  - by apply last_Some_elem_of.
Qed.

Lemma exp_text_head l b :
  head (exp_text l) = Some b -> is_ascii_digit b = false /\ b <> DOT.
Proof.
  unfold exp_text, DOT. destruct (lit_exp l) as [[[[] ?] ?]|]; simpl; [|..|done];
    intros [= <-]; split; done.
Qed.

Lemma parse_exponent_text l :
  literal_ok l -> parse_exponent (exp_text l) = Ok (literal_exponent l, []).
Proof.
  intros H. unfold exp_text, literal_exponent, parse_exponent.
  destruct (lit_exp l) as [[[u s] ds]|] eqn:Ee; [|done].
  destruct (literal_exp_digits _ H u s ds Ee) as [Hd Hl].
  assert (is_e (if u then 69 else 101) = true) as -> by (by destruct u).
  rewrite take_sign_text.
  2:{ destruct ds as [|d ds]; [simpl in Hl; lia|]. simpl. intros b [= <-].
      apply Forall_cons in Hd as [Hd _]. unfold ascii, MINUS, PLUS. lia. }
  rewrite <- (app_nil_r (map ascii ds)), take_digits_map by done.
  rewrite length_map, (proj2 (Nat.eqb_neq _ _)), (proj2 (Nat.ltb_ge _ _)) by lia.
  simpl. rewrite decimal_bytes_map. destruct (is_minus s); simpl; do 2 f_equal; lia.
Qed.

(** Reading a literal is normalizing its digits. *)
Lemma parse_literal_digits l :
  literal_ok l ->
  parse (literal_text l) =
    from_digits (is_minus (lit_sign l)) (lit_int l ++ frac_digits l)
      (Z.of_nat (length (lit_int l)) + literal_exponent l).
Proof.
  intros H. unfold parse. rewrite trim_literal, as_bytes_literal by auto using literal_text_chars.
  unfold parse_bytes.
  pose proof (literal_int_digits _ H) as Hi. pose proof (literal_frac_digits _ H) as Hf.
  pose proof (literal_some_digit _ H) as Hne. pose proof (literal_length _ H) as Hl.
  assert (Hlen : length (literal_text l) <> 0%nat).
  { unfold literal_text, frac_text, frac_digits in *. rewrite !length_app, length_map.
    destruct (lit_int l); simpl; [|lia]. destruct (lit_frac l); simpl in *; [lia|done]. }
  rewrite (proj2 (Nat.eqb_neq _ _) Hlen). unfold literal_text.
  rewrite take_sign_text.
  2:{ unfold frac_text, frac_digits in *. destruct (lit_int l) as [|d ds]; simpl.
      - destruct (lit_frac l); simpl in *; [|done]. intros b [= <-]. done.
      - apply Forall_cons in Hi as [Hd _]. intros b [= <-]. unfold ascii, MINUS, PLUS. lia. }
  rewrite take_digits_map; [|done|].
  2:{ unfold frac_text. destruct (lit_frac l); simpl; [by intros b [= <-]|].
      intros b Hb. by apply exp_text_head in Hb as [? _]. }
  assert (match frac_text l ++ exp_text l with
          | b :: rest' => if b =? DOT then take_digits rest' else ([], frac_text l ++ exp_text l)
          | [] => ([], []) end = (map ascii (frac_digits l), exp_text l)) as ->.
  { unfold frac_text, frac_digits in *. destruct (lit_frac l) as [f|]; simpl in *.
    - apply take_digits_map; [done|]. intros b Hb. by apply exp_text_head in Hb as [? _].
    - destruct (exp_text l) as [|b e] eqn:Ee; [done|].
      destruct (exp_text_head l b) as [_ Hb]; [by rewrite Ee|].
      by rewrite (proj2 (Z.eqb_neq _ _)). }
  rewrite !length_map.
  assert ((length (lit_int l) =? 0)%nat && (length (frac_digits l) =? 0)%nat = false) as ->.
  { apply andb_false_iff. rewrite !Nat.eqb_neq. destruct (lit_int l); simpl; [|left; lia].
    right. by destruct (frac_digits l). }
  rewrite parse_exponent_text by done. cbn [result_bind length negb Nat.eqb].
  rewrite <- map_app, <- collect_from_digits by (done || by rewrite Forall_app).
  rewrite length_app in Hl. unfold i32_or_max. rewrite Z.min_l by lia.
  destruct (collect _ _ _ _) as [[acc z]|]; simpl; [|done].
  by rewrite Z.add_sub_swap.
Qed.

(** ** Canonical runs determine their value *)

Lemma dval_inj a b :
  length a = length b -> Forall nines a -> Forall nines b -> dval a = dval b -> a = b.
Proof.
  revert b. induction a as [|x a IH]; intros [|y b] Hl Ha Hb; try done.
  apply Forall_cons in Ha as [Hx Ha]. apply Forall_cons in Hb as [Hy Hb].
  injection Hl as Hl. rewrite !dval_cons, Hl.
  pose proof (dval_bound a Ha) as Ba. pose proof (dval_bound b Hb) as Bb. rewrite Hl in Ba.
  intros E. assert (x = y) as -> by nia. f_equal. apply IH; auto. lia.
Qed.

Lemma canonical_not_mult10 ds : canonical ds -> dval ds mod 10 <> 0.
Proof.
  intros [Hd _ (d & ds' & -> & Hne)]. rewrite dval_app. cbn [length].
  rewrite Forall_app in Hd. destruct Hd as [_ Hd]. apply Forall_cons in Hd as [Hd _].
  unfold dval at 2. simpl fold_left.
  change (10 ^ Z.of_nat 1) with 10. rewrite Z.add_comm, Z.mod_add by lia.
  rewrite Z.mod_small by lia. lia.
Qed.

Lemma canonical_unique a b x y :
  canonical a -> canonical b -> 0 <= x -> 0 <= y ->
  dval a * 10 ^ x = dval b * 10 ^ y -> a = b /\ x = y.
Proof.
  assert (HW : forall a b x y, canonical a -> canonical b -> 0 <= x <= y ->
    dval a * 10 ^ x = dval b * 10 ^ y -> a = b /\ x = y).
  { clear. intros a b x y Ha Hb Hxy E.
    replace y with (y - x + x) in E by lia. rewrite Z.pow_add_r, Z.mul_assoc in E by lia.
    apply Z.mul_cancel_r in E; [|pose proof (pow10_pos x); lia].
    assert (y = x) as ->.
    { destruct (Z.eq_dec y x) as [|Hne]; [done|]. exfalso.
      apply (canonical_not_mult10 a Ha). rewrite E.
      replace (y - x) with (1 + (y - x - 1)) by lia.
      rewrite Z.pow_add_r, Z.pow_1_r by lia.
      replace (dval b * (10 * 10 ^ (y - x - 1))) with (dval b * 10 ^ (y - x - 1) * 10) by lia.
      apply Z.mod_mul. lia. }
    rewrite Z.sub_diag, Z.pow_0_r, Z.mul_1_r in E. split; [|done].
    pose proof (canonical_dval_lower a Ha) as La. pose proof (canonical_dval_lower b Hb) as Lb.
    pose proof (dval_bound a (canonical_digits _ Ha)) as Ua.
    pose proof (dval_bound b (canonical_digits _ Hb)) as Ub.
    apply dval_inj; try apply Ha; try apply Hb; try done. rewrite E in *.
    pose proof (canonical_length _ Ha). pose proof (canonical_length _ Hb).
    destruct (lt_eq_lt_dec (length a) (length b)) as [[Hlt|]|Hlt]; [exfalso|done|exfalso].
    - assert (10 ^ Z.of_nat (length a) <= 10 ^ (Z.of_nat (length b) - 1)) by
        (apply Z.pow_le_mono_r; lia). lia.
    - assert (10 ^ Z.of_nat (length b) <= 10 ^ (Z.of_nat (length a) - 1)) by
        (apply Z.pow_le_mono_r; lia). lia. }
  intros Ha Hb Hx Hy E. destruct (Z.le_ge_cases x y).
  - by apply HW.
  - destruct (HW b a y x) as [-> ->]; auto.
Qed.

Lemma canonical_dval_pos ds : canonical ds -> 0 < dval ds.
Proof.
  intros Hc. pose proof (canonical_dval_lower _ Hc). pose proof (canonical_length _ Hc).
  pose proof (pow10_pos (Z.of_nat (length ds) - 1)). lia.
Qed.

(** A value with more than forty significant digits, or an exponent out of
    range, is the value of no well-formed number. *)
Lemma not_denotes neg a sig b e n :
  canonical sig ->
  (MAX_SIGNIFICANT_DIGITS < length sig)%nat \/ ~ (MIN_EXPONENT <= e - Z.of_nat a <= MAX_EXPONENT) ->
  number_ok n ->
  ~ denotes n (sgn neg * dval (replicate a 0 ++ sig ++ replicate b 0))
      (e - Z.of_nat (length (replicate a 0 ++ sig ++ replicate b 0))).
Proof.
  intros Hc Hbad Hn Hd.
  rewrite !dval_app, !dval_zeros, !length_app, !length_replicate in Hd.
  rewrite Z.mul_0_l, Z.add_0_l, Z.add_0_r in Hd.
  set (k := e - Z.of_nat (a + (length sig + b))) in *.
  specialize (Hd (Z.max 0 (- (k + 169))) (Z.max 0 (k + 169)) ltac:(lia) ltac:(lia) ltac:(lia)).
  pose proof (canonical_dval_pos _ Hc).
  pose proof (pow10_pos (Z.of_nat b) ltac:(lia)).
  pose proof (pow10_pos (Z.max 0 (k + 169)) ltac:(lia)).
  pose proof (pow10_pos (Z.max 0 (- (k + 169))) ltac:(lia)).
  destruct Hn as [|neg' ds e' Hc' Hl He].
  { change (units ZERO) with 0 in Hd. destruct neg; simpl in Hd; nia. }
  rewrite units_make in Hd. pose proof (canonical_dval_pos _ Hc').
  unfold MIN_EXPONENT, MAX_EXPONENT, MAX_SIGNIFICANT_DIGITS in *.
  pose proof (pow10_pos (e' - Z.of_nat (length ds) + 169) ltac:(lia)).
  assert (Hs : sgn neg' = sgn neg) by (destruct neg', neg; simpl in *; nia).
  rewrite Hs in Hd. rewrite <- !Z.mul_assoc in Hd.
  apply Z.mul_reg_l in Hd; [|destruct neg; simpl; lia].
  rewrite <- !Z.pow_add_r in Hd by lia.
  apply canonical_unique in Hd as [-> Hk]; [lia|done|done|lia|lia].
Qed.

(** ** Order *)

(** A digit run read as a fraction, in units of [10^-N]. *)
Definition fraction (N : nat) (ds : list Z) : Z :=
  dval ds * 10 ^ (Z.of_nat N - Z.of_nat (length ds)).

Definition no_trailing_zero (ds : list Z) : Prop := last ds <> Some 0.

Lemma fraction_bound N ds :
  Forall nines ds -> (length ds <= N)%nat -> 0 <= fraction N ds < 10 ^ Z.of_nat N.
Proof.
  intros Hd Hl. unfold fraction. pose proof (dval_bound ds Hd).
  replace (10 ^ Z.of_nat N) with
    (10 ^ Z.of_nat (length ds) * 10 ^ (Z.of_nat N - Z.of_nat (length ds))) by
    (rewrite <- Z.pow_add_r by lia; f_equal; lia).
  pose proof (pow10_pos (Z.of_nat N - Z.of_nat (length ds)) ltac:(lia)). nia.
Qed.

Lemma fraction_cons N d ds :
  (length ds <= N)%nat -> fraction (S N) (d :: ds) = d * 10 ^ Z.of_nat N + fraction N ds.
Proof.
  intros Hl. unfold fraction. rewrite dval_cons. cbn [length].
  replace (Z.of_nat (S N) - Z.of_nat (S (length ds))) with (Z.of_nat N - Z.of_nat (length ds)) by lia.
  rewrite Z.mul_add_distr_r, <- Z.mul_assoc, <- Z.pow_add_r by lia. do 3 f_equal. lia.
Qed.

Lemma fraction_pos N ds :
  Forall nines ds -> (length ds <= N)%nat -> ds <> [] -> no_trailing_zero ds -> 0 < fraction N ds.
Proof.
  intros Hd Hl Hne Hlast. unfold fraction.
  assert (0 < dval ds).
  { destruct ds as [|d ds' _] using rev_ind; [done|]. unfold no_trailing_zero in Hlast.
    rewrite last_snoc in Hlast. rewrite Forall_app in Hd. destruct Hd as [Hd Hx].
    apply Forall_cons in Hx as [Hx _]. rewrite dval_app. cbn [length].
    pose proof (dval_bound ds' Hd). unfold dval at 2. simpl fold_left.
    assert (d <> 0) by congruence. pose proof (pow10_pos (Z.of_nat 1) ltac:(lia)). nia. }
  pose proof (pow10_pos (Z.of_nat N - Z.of_nat (length ds)) ltac:(lia)). nia.
Qed.

Lemma no_trailing_zero_tail d ds : no_trailing_zero (d :: ds) -> no_trailing_zero ds.
Proof. unfold no_trailing_zero. by destruct ds. Qed.

Lemma slice_cmp_spec a b N :
  Forall nines a -> Forall nines b -> (length a <= N)%nat -> (length b <= N)%nat ->
  no_trailing_zero a -> no_trailing_zero b ->
  slice_cmp a b = (fraction N a ?= fraction N b).
Proof.
  intros Ha. revert b N. induction Ha as [|x a Hx Ha IH]; intros [|y b] N Hb La Lb Za Zb.
  - done.
  - simpl slice_cmp. symmetry. apply Z.compare_lt_iff.
    pose proof (fraction_pos N (y :: b) Hb Lb ltac:(done) Zb).
    by change (fraction N []) with 0.
  - simpl slice_cmp. symmetry. apply Z.compare_gt_iff.
    pose proof (fraction_pos N (x :: a) ltac:(by constructor) La ltac:(done) Za).
    by change (fraction N []) with 0.
  - destruct N as [|N]; [simpl in La; lia|]. simpl in La, Lb.
    apply Forall_cons in Hb as [Hy Hb]. rewrite !fraction_cons by lia. simpl slice_cmp.
    pose proof (fraction_bound N a Ha ltac:(lia)). pose proof (fraction_bound N b Hb ltac:(lia)).
    destruct (Z.compare_spec x y) as [->|Hlt|Hgt].
    + rewrite (IH b N) by eauto using no_trailing_zero_tail with lia.
      by rewrite Zcompare_plus_compat.
    + symmetry. apply Z.compare_lt_iff. nia.
    + symmetry. apply Z.compare_gt_iff. nia.
Qed.

Lemma canonical_no_trailing_zero ds : canonical ds -> no_trailing_zero ds.
Proof.
  intros [_ _ (d & ds' & -> & Hd)]. unfold no_trailing_zero. rewrite last_snoc. congruence.
Qed.

(** The magnitude of a well-formed number, between the powers its exponent names. *)
Definition magnitude (ds : list Z) (e : Z) : Z := dval ds * 10 ^ (e - Z.of_nat (length ds) + 169).

Lemma magnitude_bounds ds e :
  canonical ds -> (length ds <= MAX_SIGNIFICANT_DIGITS)%nat -> MIN_EXPONENT <= e ->
  10 ^ (e + 168) <= magnitude ds e < 10 ^ (e + 169).
Proof.
  intros Hc Hl He. unfold magnitude, MAX_SIGNIFICANT_DIGITS, MIN_EXPONENT in *.
  pose proof (canonical_dval_lower _ Hc) as L.
  pose proof (dval_bound ds (canonical_digits _ Hc)) as U. pose proof (canonical_length _ Hc).
  set (k := e - Z.of_nat (length ds) + 169). assert (0 <= k) by (unfold k; lia).
  replace (e + 168) with (Z.of_nat (length ds) - 1 + k) by (unfold k; lia).
  replace (e + 169) with (Z.of_nat (length ds) + k) by (unfold k; lia).
  rewrite !Z.pow_add_r by lia. pose proof (pow10_pos k). nia.
Qed.

Lemma compare_scale a b c : 0 < c -> (a * c ?= b * c) = (a ?= b).
Proof.
  intros Hc. destruct (Z.compare_spec a b) as [->|H|H].
  - apply Z.compare_refl.
  - apply Z.compare_lt_iff. nia.
  - apply Z.compare_gt_iff. nia.
Qed.

(** Two non-zero magnitudes compare by exponent, then by digits. *)
Lemma magnitude_cmp a b e f :
  canonical a -> canonical b ->
  (length a <= MAX_SIGNIFICANT_DIGITS)%nat -> (length b <= MAX_SIGNIFICANT_DIGITS)%nat ->
  MIN_EXPONENT <= e -> MIN_EXPONENT <= f ->
  match e ?= f with Eq => slice_cmp a b | c => c end = (magnitude a e ?= magnitude b f).
Proof.
  intros Ha Hb La Lb He Hf.
  pose proof (magnitude_bounds a e Ha La He) as Ba. pose proof (magnitude_bounds b f Hb Lb Hf) as Bb.
  unfold MIN_EXPONENT in *. destruct (Z.compare_spec e f) as [<-|Hlt|Hgt].
  - rewrite (slice_cmp_spec a b MAX_SIGNIFICANT_DIGITS) by
      (try apply Ha; try apply Hb; auto using canonical_no_trailing_zero).
    unfold magnitude, fraction, MAX_SIGNIFICANT_DIGITS in *.
    replace (e - Z.of_nat (length a) + 169) with (Z.of_nat 40 - Z.of_nat (length a) + (e + 129)) by lia.
    replace (e - Z.of_nat (length b) + 169) with (Z.of_nat 40 - Z.of_nat (length b) + (e + 129)) by lia.
    rewrite !(Z.pow_add_r _ _ (e + 129)), !Z.mul_assoc by lia.
    pose proof (pow10_pos (e + 129) ltac:(lia)).
    symmetry. apply compare_scale. lia.
  - symmetry. apply Z.compare_lt_iff.
    assert (10 ^ (e + 169) <= 10 ^ (f + 168)) by (apply Z.pow_le_mono_r; lia). lia.
  - symmetry. apply Z.compare_gt_iff.
    assert (10 ^ (f + 169) <= 10 ^ (e + 168)) by (apply Z.pow_le_mono_r; lia). lia.
Qed.

Lemma magnitude_pos ds e :
  canonical ds -> (length ds <= MAX_SIGNIFICANT_DIGITS)%nat -> MIN_EXPONENT <= e -> 0 < magnitude ds e.
Proof.
  intros Hc Hl He. pose proof (magnitude_bounds ds e Hc Hl He).
  unfold MIN_EXPONENT in *. pose proof (pow10_pos (e + 168) ltac:(lia)). lia.
Qed.

Lemma units_magnitude neg ds e : units (make neg ds e) = sgn neg * magnitude ds e.
Proof. rewrite units_make. unfold magnitude. lia. Qed.

Lemma len_make_S neg ds e : canonical ds -> exists k, len (make neg ds e) = S k.
Proof. intros Hc. pose proof (canonical_length _ Hc). simpl. destruct (length ds); [lia|eauto]. Qed.

Lemma cmp_units a b : number_ok a -> number_ok b -> cmp a b = (units a ?= units b).
Proof.
  intros [|neg ds e Hc Hl [He _]] [|neg' ds' e' Hc' Hl' [He' _]].
  - done.
  - rewrite units_magnitude. pose proof (magnitude_pos ds' e' Hc' Hl' He').
    destruct (len_make_S neg' ds' e' Hc') as [k Hk]. unfold cmp. rewrite Hk.
    change (units ZERO) with 0. destruct neg'; cbn [sgn].
    + transitivity Gt; [done|]. symmetry. apply Z.compare_gt_iff. lia.
    + transitivity Lt; [done|]. symmetry. apply Z.compare_lt_iff. lia.
  - rewrite units_magnitude. pose proof (magnitude_pos ds e Hc Hl He).
    destruct (len_make_S neg ds e Hc) as [k Hk]. unfold cmp. rewrite Hk.
    change (units ZERO) with 0. destruct neg; cbn [sgn].
    + transitivity Lt; [done|]. symmetry. apply Z.compare_lt_iff. lia.
    + transitivity Gt; [done|]. symmetry. apply Z.compare_gt_iff. lia.
  - rewrite !units_magnitude. pose proof (magnitude_pos ds e Hc Hl He).
    pose proof (magnitude_pos ds' e' Hc' Hl' He').
    destruct (len_make_S neg ds e Hc) as [k Hk]. destruct (len_make_S neg' ds' e' Hc') as [k' Hk'].
    unfold cmp. rewrite Hk, Hk', !digits_make.
    change (negative (make neg ds e)) with neg. change (negative (make neg' ds' e')) with neg'.
    change (exponent (make neg ds e)) with e. change (exponent (make neg' ds' e')) with e'.
    rewrite (magnitude_cmp ds ds' e e') by done.
    destruct neg, neg'; cbn [sgn]; rewrite ?Z.mul_1_l, ?Z.mul_opp_l, ?Z.mul_1_l.
    + rewrite Z.compare_opp. symmetry. apply Z.compare_antisym.
    + symmetry. apply Z.compare_lt_iff. lia.
    + symmetry. apply Z.compare_gt_iff. lia.
    + done.
Qed.

Lemma cmp_eq a b : number_ok a -> number_ok b -> cmp a b = Eq -> a = b.
Proof.
  intros Ha Hb. rewrite cmp_units, Z.compare_eq_iff by done.
  destruct Ha as [|neg ds e Hc Hl [He _]], Hb as [|neg' ds' e' Hc' Hl' [He' _]]; [done|..];
    rewrite ?units_magnitude; change (units ZERO) with 0;
    try (pose proof (magnitude_pos ds e Hc Hl He));
    try (pose proof (magnitude_pos ds' e' Hc' Hl' He')); intros E.
  - destruct neg'; cbn [sgn] in E; lia.
  - destruct neg; cbn [sgn] in E; lia.
  - assert (neg = neg') as -> by (destruct neg, neg'; cbn [sgn] in E; (done || lia)).
    apply Z.mul_reg_l in E; [|destruct neg'; simpl; lia]. unfold magnitude in E.
    unfold MAX_SIGNIFICANT_DIGITS, MIN_EXPONENT in *.
    apply canonical_unique in E as [-> ?]; [|done|done|lia|lia]. f_equal. lia.
Qed.

(** ** Integers *)

Lemma rev_digits_spec room rest :
  0 <= rest < 10 ^ Z.of_nat room ->
  wp (rev_digits room rest) (fun ds =>
    Forall nines ds /\ dval (rev ds) = rest /\ (length ds <= room)%nat /\
    (rest = 0 -> ds = []) /\ (0 < rest -> exists d ds', ds = ds' ++ [d] /\ d <> 0)).
Proof.
  revert rest. induction room as [|room IH]; intros rest Hr.
  - assert (rest = 0) as -> by (simpl in Hr; lia). simpl. repeat split; auto; lia.
  - cbn [rev_digits]. destruct (rest <=? 0) eqn:E; boolify.
    { assert (rest = 0) as -> by lia. simpl. repeat split; auto; lia. }
    rewrite Nat2Z.inj_succ, Z.pow_succ_r in Hr by lia.
    assert (Hq : 0 <= rest / 10 < 10 ^ Z.of_nat room).
    { split; [apply Z.div_pos; lia|apply Z.div_lt_upper_bound; lia]. }
    pose proof (Z.mod_pos_bound rest 10 ltac:(lia)) as Hm.
    eapply wp_bind; [by apply IH|]. intros ds (Hd & Hv & Hl & H0 & H1). apply wp_ret.
    split; [constructor; [lia|done]|]. split.
    { simpl. rewrite dval_app, Hv. cbn [length]. unfold dval. simpl fold_left.
      change (10 ^ Z.of_nat 1) with 10. pose proof (Z.div_mod rest 10). lia. }
    split; [simpl; lia|]. split; [lia|]. intros _.
    destruct (Z.eq_dec (rest / 10) 0) as [Hz|Hz].
    + rewrite (H0 Hz). exists (rest mod 10), []. split; [done|].
      pose proof (Z.div_mod rest 10). lia.
    + destruct H1 as (d & ds' & -> & Hne); [lia|]. by exists d, (rest mod 10 :: ds').
Qed.

Lemma u128_digits m : 0 <= m < 2 ^ 128 -> 0 <= m < 10 ^ Z.of_nat 39.
Proof. intros H. split; [lia|]. apply Z.lt_le_trans with (2 ^ 128); [lia|].
  vm_compute. discriminate.
Qed.

Lemma from_magnitude_spec m neg :
  0 <= m < 2 ^ 128 ->
  wp (from_magnitude m neg) (fun r =>
    exists n, r = Ok n /\ number_ok n /\ units n = sgn neg * m * 10 ^ 169).
Proof.
  intros Hm. unfold from_magnitude. destruct (m =? 0) eqn:E; boolify.
  { simpl. exists ZERO. split; [done|]. split; [constructor|].
    subst. change (units ZERO) with 0. lia. }
  eapply wp_bind; [apply rev_digits_spec, u128_digits, Hm|].
  intros rd (Hd & Hv & Hl & _ & Hlast). destruct (Hlast ltac:(lia)) as (top & rd' & Erd & Htop).
  set (b := count_while is_zero_digit rd).
  pose proof (count_while_le is_zero_digit rd) as Hb. fold b in Hb.
  assert (Erev : rev rd = rev (drop b rd) ++ replicate b 0).
  { rewrite <- (take_drop b rd) at 1. rewrite rev_app_distr.
    pose proof (zero_run _ (count_while_take is_zero_digit rd)) as Hz.
    fold b in Hz. rewrite length_take, Nat.min_l in Hz by done. by rewrite Hz, rev_replicate. }
  assert (Hne : drop b rd <> []).
  { intros E0. rewrite E0 in Erev. simpl in Erev. rewrite Erev, dval_zeros in Hv. lia. }
  assert (Hc : canonical (rev (drop b rd))).
  { split.
    - apply Forall_rev. by apply Forall_drop.
    - rewrite Erd, rev_app_distr in Erev. simpl in Erev.
      destruct (rev (drop b rd)) as [|c core] eqn:Ec.
      + apply (f_equal (@rev Z)) in Ec. rewrite rev_involutive in Ec. done.
      + rewrite <- Erd in Erev. rewrite Ec in Erev. simpl in Erev. injection Erev as -> _. eauto.
    - destruct (drop b rd) as [|c core] eqn:Ec; [done|]. exists c, (rev core). split; [done|].
      pose proof (count_while_drop is_zero_digit rd c) as H. fold b in H. rewrite Ec in H.
      specialize (H eq_refl). unfold is_zero_digit in H. by boolify. }
  assert (Hlen : length (rev (drop b rd)) = (length rd - b)%nat) by (rewrite length_rev, length_drop; done).
  pose proof (canonical_length _ Hc) as Hpos. rewrite Hlen in Hpos.
  unfold MAX_SIGNIFICANT_DIGITS. rewrite (proj2 (Nat.ltb_ge _ _)) by lia. apply wp_ret.
  unfold u8_or_zero. rewrite (proj2 (Nat.leb_le _ _)) by lia.
  exists (make neg (rev (drop b rd)) (Z.of_nat (length rd))). split; [|split].
  - unfold make. by rewrite Hlen.
  - constructor; [done| |].
    + unfold MAX_SIGNIFICANT_DIGITS. lia.
    + unfold MIN_EXPONENT, MAX_EXPONENT. lia.
  - rewrite units_make, Hlen, <- Hv, Erev, dval_app, dval_zeros, length_replicate.
    replace (Z.of_nat (length rd) - Z.of_nat (length rd - b) + 169) with (Z.of_nat b + 169) by lia.
    rewrite Z.pow_add_r by lia. lia.
Qed.

Lemma i128_checked_nonneg v : 0 <= v -> i128_checked v = if v <=? i128_max then Some v else None.
Proof.
  intros H. unfold i128_checked, i128_max.
  assert ((- 2 ^ 127 <=? v) = true) as -> by (apply Z.leb_le; lia). done.
Qed.

Lemma checked_digits_spec ds v :
  Forall nines ds -> 0 <= v ->
  v <= i128_max ->
  checked_digits ds v =
    let r := v * 10 ^ Z.of_nat (length ds) + dval ds in if r <=? i128_max then Some r else None.
Proof.
  intros Hd. revert v. induction Hd as [|d ds Hx Hd IH]; intros v Hv Hmax.
  - simpl. change (dval []) with 0. rewrite Z.mul_1_r, Z.add_0_r.
    by rewrite (proj2 (Z.leb_le _ _)).
  - cbn [checked_digits length]. rewrite dval_cons. unfold checked_mul10.
    pose proof (dval_bound ds Hd). pose proof (pow10_pos (Z.of_nat (length ds)) ltac:(lia)).
    replace (v * 10 ^ Z.of_nat (S (length ds)) + (d * 10 ^ Z.of_nat (length ds) + dval ds))
      with ((v * 10 + d) * 10 ^ Z.of_nat (length ds) + dval ds)
      by (rewrite Nat2Z.inj_succ, Z.pow_succ_r by lia; lia).
    rewrite i128_checked_nonneg by lia.
    destruct (v * 10 <=? i128_max) eqn:E1; boolify.
    + rewrite i128_checked_nonneg by lia. destruct (v * 10 + d <=? i128_max) eqn:E2; boolify.
      * by rewrite IH by lia.
      * cbv zeta. by rewrite (proj2 (Z.leb_gt _ _)) by nia.
    + cbv zeta. by rewrite (proj2 (Z.leb_gt _ _)) by nia.
Qed.

Lemma checked_scale_spec n v :
  0 <= v -> v <= i128_max ->
  checked_scale n v = let r := v * 10 ^ Z.of_nat n in if r <=? i128_max then Some r else None.
Proof.
  revert v. induction n as [|n IH]; intros v Hv Hmax.
  - simpl. rewrite Z.mul_1_r. by rewrite (proj2 (Z.leb_le _ _)).
  - cbn [checked_scale]. unfold checked_mul10.
    pose proof (pow10_pos (Z.of_nat n) ltac:(lia)).
    rewrite Nat2Z.inj_succ, Z.pow_succ_r, Z.mul_assoc by lia.
    rewrite i128_checked_nonneg by lia. destruct (v * 10 <=? i128_max) eqn:E; boolify.
    + by rewrite IH by lia.
    + cbv zeta. by rewrite (proj2 (Z.leb_gt _ _)) by nia.
Qed.

(** What the checked arithmetic computes on an integral number. *)
Lemma to_i128_make neg ds e :
  canonical ds -> MIN_EXPONENT <= e ->
  to_i128 (make neg ds e) =
    if e <? Z.of_nat (length ds) then None
    else let m := dval ds * 10 ^ (e - Z.of_nat (length ds)) in
         if m <=? i128_max then Some (sgn neg * m) else None.
Proof.
  intros Hc He. pose proof (canonical_length _ Hc). pose proof (canonical_dval_pos _ Hc).
  unfold to_i128. cbn [len exponent negative make]. rewrite digits_make.
  rewrite (proj2 (Nat.eqb_neq _ _)) by lia. destruct (_ <? _) eqn:E; [done|]. boolify.
  rewrite checked_digits_spec by (apply Hc || done). cbv zeta. rewrite Z.mul_0_l, Z.add_0_l.
  set (k := e - Z.of_nat (length ds)) in *.
  pose proof (pow10_pos k ltac:(lia)).
  destruct (dval ds <=? i128_max) eqn:E2; boolify.
  - rewrite checked_scale_spec, Z2Nat.id by lia. cbv zeta.
    destruct (_ <=? _); [|done]. destruct neg; cbn [sgn]; f_equal; lia.
  - by rewrite (proj2 (Z.leb_gt _ _)) by nia.
Qed.

Lemma to_i128_spec n v :
  number_ok n -> to_i128 n = Some v <-> units n = v * 10 ^ 169 /\ Z.abs v <= i128_max.
Proof.
  intros [|neg ds e Hc Hl [He _]].
  { change (units ZERO) with 0. change (to_i128 ZERO) with (Some 0).
    pose proof (pow10_pos 169 ltac:(lia)). split.
    - intros [= <-]. done.
    - intros [H0 _]. f_equal. nia. }
  rewrite to_i128_make, units_make by done.
  unfold MAX_SIGNIFICANT_DIGITS, MIN_EXPONENT in *.
  pose proof (canonical_dval_pos _ Hc). destruct (_ <? _) eqn:E; boolify.
  - split; [done|]. intros [H0 _]. exfalso.
    assert (Hdiv : dval ds = sgn neg * v * 10 ^ (Z.of_nat (length ds) - e)).
    { set (k := e - Z.of_nat (length ds) + 169) in *.
      replace 169 with (Z.of_nat (length ds) - e + k) in H0 by (unfold k; lia).
      rewrite Z.pow_add_r, Z.mul_assoc in H0 by (unfold k; lia).
      apply Z.mul_cancel_r in H0; [destruct neg; cbn [sgn] in *; lia|].
      pose proof (pow10_pos k ltac:(unfold k; lia)). lia. }
    apply (canonical_not_mult10 ds Hc). rewrite Hdiv.
    replace (Z.of_nat (length ds) - e) with (Z.of_nat (length ds) - e - 1 + 1) by lia.
    rewrite Z.pow_add_r, Z.pow_1_r, Z.mul_assoc by lia. apply Z.mod_mul. lia.
  - set (k := e - Z.of_nat (length ds)) in *. cbv zeta.
    rewrite Z.pow_add_r by lia. pose proof (pow10_pos 169 ltac:(lia)) as Hp.
    replace (sgn neg * dval ds * (10 ^ k * 10 ^ 169))
      with (sgn neg * (dval ds * 10 ^ k) * 10 ^ 169) by lia.
    rewrite Z.mul_cancel_r by lia. pose proof (pow10_pos k ltac:(lia)).
    assert (0 < dval ds * 10 ^ k) by nia. generalize dependent (dval ds * 10 ^ k). intros m Hm.
    destruct (m <=? i128_max) eqn:E2; boolify; (split; [intros [=]; subst|intros [<- ?]]);
      destruct neg; cbn [sgn] in *; try (split; [done|]); try f_equal; lia.
Qed.

(** ** Every constructor produces the canonical form *)

Lemma ascii_run l :
  Forall (fun b => is_ascii_digit b = true) l -> exists ds, l = map ascii ds /\ Forall nines ds.
Proof.
  induction 1 as [|b l Hb _ (ds & -> & Hd)]; [by exists []|].
  unfold is_ascii_digit in Hb. boolify. exists (b - 48 :: ds). simpl. split.
  - f_equal. unfold ascii. lia.
  - constructor; [lia|done].
Qed.

Lemma take_digits_run bytes ds rest :
  take_digits bytes = (ds, rest) ->
  Forall (fun b => is_ascii_digit b = true) ds /\ (length ds <= length bytes)%nat /\
  (length rest <= length bytes)%nat /\ (length ds + length rest = length bytes)%nat.
Proof.
  unfold take_digits. intros [= <- <-]. pose proof (count_while_le is_ascii_digit bytes).
  rewrite length_take, length_drop. split; [apply count_while_take|lia].
Qed.

Lemma take_sign_length bytes s rest : take_sign bytes = (s, rest) -> (length rest <= length bytes)%nat.
Proof. destruct bytes as [|b bytes]; simpl; repeat case_match; intros [= <- <-]; simpl; lia. Qed.

Lemma parse_bytes_sound bytes n :
  Z.of_nat (length bytes) < 2 ^ 31 -> parse_bytes bytes = Ok n -> number_ok n.
Proof.
  intros Hlen. unfold parse_bytes. destruct (_ =? _)%nat; [done|].
  destruct (take_sign bytes) as [neg rest] eqn:Es. apply take_sign_length in Es.
  destruct (take_digits rest) as [int rest1] eqn:Ei. apply take_digits_run in Ei as (Hi & ? & ? & ?).
  destruct (match rest1 with b :: rest' => _ | [] => _ end) as [frac rest2] eqn:Ef.
  assert (Forall (fun b => is_ascii_digit b = true) frac /\ (length frac <= length rest1)%nat) as [Hf ?].
  { destruct rest1 as [|b r]; [injection Ef as <- _; done|].
    destruct (b =? DOT); [|injection Ef as <- _; split; [constructor|simpl; lia]].
    apply take_digits_run in Ef as (? & ? & ? & ?). simpl. split; [done|lia]. }
  destruct (ascii_run int Hi) as (di & -> & Hdi). destruct (ascii_run frac Hf) as (df & -> & Hdf).
  rewrite !length_map in *. destruct (_ && _); [done|].
  destruct (parse_exponent rest2) as [[e rest3]|]; cbn [result_bind]; [|done].
  destruct (negb _); [done|]. rewrite <- map_app. unfold i32_or_max. rewrite Z.min_l by lia.
  assert (Forall nines (di ++ df)) as Hall by (by rewrite Forall_app).
  assert (Z.of_nat (length (di ++ df)) < 2 ^ 31) as Hb by (rewrite length_app; lia).
  pose proof (collect_from_digits neg (di ++ df) (Z.of_nat (length di) + e) Hall Hb) as Heq.
  pose proof (from_digits_sound neg (di ++ df) (Z.of_nat (length di) + e) n Hall Hb) as Hs.
  rewrite <- Heq in Hs. intros Hp. apply Hs. rewrite <- Hp.
  destruct (collect _ _ _ _) as [[acc z]|]; simpl; [|done]. by rewrite Z.add_sub_swap.
Qed.

Lemma trim_length_le s : (blen (trim s) <= blen s)%nat.
Proof.
  unfold trim. pose proof (trim_end_le (trim_start s)).
  destruct (trim_start_spec s) as (w & Hw & _). apply (f_equal blen) in Hw.
  rewrite blen_app in Hw. lia.
Qed.

(** The literal [display] writes. *)
Definition display_literal (n : Number) : literal :=
  let ds := digits n in
  let e := exponent n in
  let count := Z.of_nat (length ds) in
  let sign := if negative n then Some true else None in
  if (len n =? 0)%nat then {| lit_sign := None; lit_int := [0]; lit_frac := None; lit_exp := None |}
  else if count <=? e then
    {| lit_sign := sign; lit_int := ds ++ replicate (Z.to_nat (e - count)) 0; lit_frac := None; lit_exp := None |}
  else if 0 <? e then
    {| lit_sign := sign; lit_int := take (Z.to_nat e) ds; lit_frac := Some (drop (Z.to_nat e) ds); lit_exp := None |}
  else
    {| lit_sign := sign; lit_int := [0]; lit_frac := Some (replicate (Z.to_nat (- e)) 0 ++ ds); lit_exp := None |}.

Lemma zeros_ascii n : zeros n = map ascii (replicate (Z.to_nat n) 0).
Proof. unfold zeros. generalize (Z.to_nat n). induction n0 as [|k IH]; simpl; [done|]. by rewrite IH. Qed.

Lemma display_is_literal n : display n = literal_text (display_literal n).
Proof.
  unfold display, display_literal, literal_text, frac_text, exp_text. cbv zeta.
  destruct (_ =? _)%nat; [done|].
  destruct (Z.of_nat _ <=? _); [|destruct (0 <? _)];
    destruct (negative n); simpl; rewrite ?zeros_ascii, ?map_app, ?app_nil_r; done.
Qed.

Lemma display_literal_spec neg ds e :
  canonical ds -> (length ds <= MAX_SIGNIFICANT_DIGITS)%nat -> MIN_EXPONENT <= e <= MAX_EXPONENT ->
  let l := display_literal (make neg ds e) in
  literal_ok l /\
  from_digits (is_minus (lit_sign l)) (lit_int l ++ frac_digits l)
    (Z.of_nat (length (lit_int l)) + literal_exponent l) = Ok (make neg ds e).
Proof.
  intros Hc Hl He. unfold display_literal. rewrite digits_make. cbn [exponent len negative make].
  pose proof (canonical_length _ Hc) as Hpos. pose proof (canonical_digits _ Hc) as Hd.
  rewrite (proj2 (Nat.eqb_neq _ _)) by lia. unfold MAX_SIGNIFICANT_DIGITS in Hl.
  assert (Hstrip : forall a b x, Z.of_nat a < 2 ^ 31 -> x - Z.of_nat a = e ->
    from_digits neg (replicate a 0 ++ ds ++ replicate b 0) x = Ok (make neg ds e)).
  { intros a b x Ha Hx. rewrite from_digits_strip, Hx by done.
    unfold MAX_SIGNIFICANT_DIGITS. rewrite (proj2 (Nat.ltb_ge _ _)) by lia.
    unfold check_exponent. by rewrite !(proj2 (Z.leb_le _ _)) by lia. }
  assert (Hsign : is_minus (if neg then Some true else None) = neg) by (by destruct neg).
  assert (Hz : forall k, Forall nines (replicate k 0)) by (intros k; apply Forall_replicate; lia).
  unfold MIN_EXPONENT, MAX_EXPONENT in He.
  destruct (_ <=? e) eqn:E1; boolify; [|destruct (0 <? e) eqn:E2; boolify];
    cbn [lit_sign lit_int lit_frac lit_exp]; rewrite Hsign; unfold frac_digits, literal_exponent;
    cbn [lit_sign lit_int lit_frac lit_exp default].
  - rewrite app_nil_r. split.
    + split; cbn; rewrite ?app_nil_r; try done.
      * rewrite Forall_app. auto.
      * intros E%(f_equal length). rewrite length_app in E. simpl in E. lia.
      * rewrite length_app, length_replicate. lia.
    + apply (Hstrip 0%nat (Z.to_nat (e - Z.of_nat (length ds)))); [done|].
      rewrite length_app, length_replicate. lia.
  - simpl from_option. unfold id. rewrite ?take_drop. split.
    + split; cbn; rewrite ?take_drop; try done.
      * by apply Forall_take.
      * by apply Forall_drop.
      * intros E%(f_equal length). simpl in E. lia.
      * lia.
    + pose proof (Hstrip 0%nat 0%nat) as H0. simpl replicate in H0. rewrite app_nil_r in H0.
      apply H0; [done|]. rewrite length_take. lia.
  - split.
    + split; cbn; try done.
      * repeat constructor; lia.
      * rewrite Forall_app. auto.
      * rewrite length_app, length_replicate. lia.
    + pose proof (Hstrip (S (Z.to_nat (- e))) 0%nat) as H0. simpl replicate in H0. rewrite app_nil_r in H0.
      apply H0; simpl; lia.
Qed.

(** ** The properties *)

(** C40: whatever builds a [Number] builds it in canonical form: [from_digits]
    on a digit run, [parse] on any text at all, and the integer conversions on
    any magnitude of a [u128], which also never overrun their digit buffer. *)
Theorem number_constructors_canonical neg ds e text m n :
  Z.of_nat (length ds) < 2 ^ 31 -> Z.of_nat (blen text) < 2 ^ 31 -> 0 <= m < 2 ^ 128 ->
  Forall (fun d => 0 <= d) ds ->
  (from_digits neg ds e = Ok n -> number_ok n) /\
  (parse text = Ok n -> number_ok n) /\
  (exists n', from_magnitude m neg = Ret (Ok n') /\ number_ok n').
Proof.
  intros Hds Htext Hm Hpos. split; [|split].
  - intros H. assert (Forall nines ds) as Hd.
    { unfold from_digits in H. destruct (existsb _ ds) eqn:E; [done|]. clear H.
      induction Hpos as [|d ds Hd Hp IH]; constructor; simpl in E; apply orb_false_iff in E as [E1 E2].
      - boolify. lia.
      - apply IH; [simpl in Hds; lia|done]. }
    by eapply from_digits_sound.
  - apply parse_bytes_sound. rewrite length_as_bytes. pose proof (trim_length_le text). lia.
  - destruct (wp_elim _ _ (from_magnitude_spec m neg Hm)) as (r & Hr & n' & -> & ? & ?). eauto.
Qed.

Lemma number_constructors_canonical_witness :
  exists n, parse (lit "-01.50"%string) = Ok n /\ number_ok n.
Proof.
  eexists. split; [reflexivity|].
  refine (proj1 (proj2 (number_constructors_canonical false [] 0 (lit "-01.50"%string) 0 _ _ _ _ _)) eq_refl).
  - done.
  - done.
  - lia.
  - constructor.
Defined.

(** [parse] reads every decimal literal of its grammar exactly: it returns
    the well-formed number whose value is the literal's, or an error, and an
    error only when no well-formed number has that value (it never rounds). *)
Theorem parse_literal_exact l :
  literal_ok l ->
  let m := sgn (is_minus (lit_sign l)) * dval (lit_int l ++ frac_digits l) in
  let k := literal_exponent l - Z.of_nat (length (frac_digits l)) in
  match parse (literal_text l) with
  | Ok n => number_ok n /\ denotes n m k
  | Err _ => forall n, number_ok n -> ~ denotes n m k
  end.
Proof.
  intros H m k. rewrite parse_literal_digits by done.
  set (ds := lit_int l ++ frac_digits l) in *. set (neg := is_minus (lit_sign l)) in *.
  set (e := Z.of_nat (length (lit_int l)) + literal_exponent l).
  assert (Hk : k = e - Z.of_nat (length ds)) by (unfold k, e, ds; rewrite length_app; lia).
  rewrite Hk. assert (Hd : Forall nines ds) by (unfold ds; rewrite Forall_app; split; apply H).
  pose proof (literal_length _ H) as Hlen. fold ds in Hlen.
  destruct (from_digits neg ds e) as [n|err] eqn:E; [by apply from_digits_sound|].
  destruct (strip_zeros ds Hd) as [[z ->]|(a & sig & b & -> & Hc)].
  { by rewrite from_digits_zeros in E. }
  intros n Hn. apply not_denotes; [done| |done].
  rewrite !length_app, !length_replicate in Hlen.
  rewrite from_digits_strip in E by (done || lia).
  destruct (_ <? _)%nat eqn:E2; boolify; [by left|right].
  unfold check_exponent in E. destruct (_ && _) eqn:E3; [done|].
  apply andb_false_iff in E3 as [E3|E3]; boolify; lia.
Qed.

Lemma parse_literal_exact_witness :
  let l := {| lit_sign := Some true; lit_int := [0; 1]; lit_frac := Some [5; 0]; lit_exp := Some (false, None, [3]) |} in
  literal_text l = lit "-01.50e3"%string /\
  match parse (literal_text l) with Ok n => number_ok n /\ denotes n (- 150) 1 | Err _ => False end.
Proof.
  set (l := {| lit_sign := _ |}). intros l'. split; [reflexivity|].
  assert (literal_ok l) as H.
  { split; simpl.
    - repeat constructor; lia.
    - repeat constructor; lia.
    - done.
    - lia.
    - intros u s ds [= <- <- <-]. split; [repeat constructor; lia|simpl; lia]. }
  exact (parse_literal_exact l H).
Defined.

(** C39: [Display] is a serialization: parsing what it writes gives back the
    same [Number], for every well-formed number. *)
Theorem display_parse_roundtrip n : number_ok n -> parse (display n) = Ok n.
Proof.
  intros [|neg ds e Hc Hl He].
  - reflexivity.
  - rewrite display_is_literal.
    destruct (display_literal_spec neg ds e Hc Hl He) as [Hok Heq].
    by rewrite parse_literal_digits.
Qed.

Lemma display_parse_roundtrip_witness :
  parse (display (make true [1; 2; 5] (-1))) = Ok (make true [1; 2; 5] (-1)).
Proof.
  apply display_parse_roundtrip. constructor.
  - split; [repeat constructor; lia|by exists 1, [2; 5]|by exists 5, [1; 2]].
  - vm_compute. lia.
  - vm_compute. split; discriminate.
Defined.

(** The order on [Number] is the order of the values, and it is consistent
    with the derived equality: [Equal] exactly for identical numbers. *)
Theorem cmp_orders_values a b :
  number_ok a -> number_ok b ->
  cmp a b = (units a ?= units b) /\ (cmp a b = Eq <-> a = b).
Proof.
  intros Ha Hb. split; [by apply cmp_units|]. split; [by apply cmp_eq|].
  intros ->. by rewrite cmp_units, Z.compare_refl.
Qed.

Lemma cmp_orders_values_witness :
  cmp (make false [9] 0) (make false [1; 0; 5] 1) = Lt /\ units (make false [9] 0) < units (make false [1; 0; 5] 1).
Proof.
  assert (number_ok (make false [9] 0)) as Ha.
  { constructor; [|vm_compute; lia|vm_compute; split; discriminate].
    split; [repeat constructor; lia|by exists 9, []|by exists 9, []]. }
  assert (number_ok (make false [1; 0; 5] 1)) as Hb.
  { constructor; [|vm_compute; lia|vm_compute; split; discriminate].
    split; [repeat constructor; lia|by exists 1, [0; 5]|by exists 5, [1; 0]]. }
  pose proof (proj1 (cmp_orders_values _ _ Ha Hb)) as H. split; [reflexivity|].
  unfold Z.lt. rewrite <- H. reflexivity.
Defined.

(** The integer conversions are exact.  [to_i128] returns [v] exactly when
    the number's value is [v] and [|v|] fits [i128::MAX]; and every [i128] but
    the least one survives the trip through [Number]. *)
Theorem i128_conversions_exact n v w :
  number_ok n -> Z.abs w <= i128_max ->
  (to_i128 n = Some v <-> units n = v * 10 ^ 169 /\ Z.abs v <= i128_max) /\
  (exists n', try_from_i128 w = Ret (Ok n') /\ to_i128 n' = Some w).
Proof.
  intros Hn Hw. split; [by apply to_i128_spec|]. unfold try_from_i128.
  assert (0 <= Z.abs w < 2 ^ 128) as Hm by (unfold i128_max in Hw; lia).
  destruct (wp_elim _ _ (from_magnitude_spec (Z.abs w) (w <? 0) Hm)) as (r & -> & n' & -> & Hok & Hu).
  exists n'. split; [done|]. apply to_i128_spec; [done|]. split; [|done]. rewrite Hu. f_equal.
  destruct (w <? 0) eqn:E; boolify; cbn [sgn]; lia.
Qed.

Lemma i128_conversions_exact_witness :
  exists n', try_from_i128 (- 1500) = Ret (Ok n') /\ to_i128 n' = Some (- 1500).
Proof. apply (proj2 (i128_conversions_exact ZERO 0 (- 1500) number_ok_zero ltac:(vm_compute; discriminate))). Defined.

(** The least [i128] converts to a [Number] but not back: the magnitude is
    accumulated as a positive [i128], where [2^127] does not fit, although the
    documentation promises the value whenever it fits. *)
Lemma i128_min_does_not_convert_back :
  exists n, try_from_i128 (- 2 ^ 127) = Ret (Ok n) /\ number_ok n /\
            units n = - 2 ^ 127 * 10 ^ 169 /\ to_i128 n = None.
Proof.
  destruct (wp_elim _ _ (from_magnitude_spec (2 ^ 127) true ltac:(lia))) as (r & Hr & n & -> & Hok & Hu).
  exists n. change (try_from_i128 (- 2 ^ 127)) with (from_magnitude (2 ^ 127) true).
  split; [done|]. split; [done|]. cbn [sgn] in Hu. split; [lia|].
  destruct (to_i128 n) as [v|] eqn:E; [|done]. apply to_i128_spec in E as [E1 E2]; [|done].
  exfalso. rewrite Hu in E1. apply Z.mul_reg_r in E1; [|pose proof (pow10_pos 169); lia].
  unfold i128_max in E2. lia.
Qed.
