(* ===== verification/Scaled.v ===== *)
(** * Scaled numbers (db-core/src/store/scaled.rs)

    A [NUMBER] held as a 64-bit mantissa and a decimal scale.  The file models
    the encoding, the decoding and the [Display] of a [ScaledNumber], and shows
    what the module promises its readers: which scale a value needs, that the
    encoding is exact, and that neither the value nor the text a reader sees
    depends on the encoding chosen. *)

From S2P Require Import Prelude RustStr Number NumberProps.
Open Scope Z_scope.
Open Scope run_scope.

Record ScaledNumber := mkScaled { mantissa : Z; scale : nat }.

Definition MAX_SCALE : nat := 18.

Definition scaled_new (m : Z) (s : nat) : option ScaledNumber :=
  if (MAX_SCALE <? s)%nat then None else Some {| mantissa := m; scale := s |}.

(** [i64::try_from(v).ok()]. *)
Definition i64_checked (v : Z) : option Z :=
  if (i64_min <=? v) && (v <=? i64_max) then Some v else None.

Definition from_number (value : Number) (s : nat) : option ScaledNumber :=
  if (MAX_SCALE <? s)%nat then None
  else if is_zero value then Some {| mantissa := 0; scale := s |}
  else
    let ds := digits value in
    let count := Z.of_nat (length ds) in
    let shift := exponent value - count + Z.of_nat s in
    if shift <? 0 then None
    else if 19 <? count + shift then None
    else
      let m := fold_left (fun acc d => acc * 10 + d) ds 0 in
      let m := Nat.iter (Z.to_nat shift) (fun acc => acc * 10) m in
      let signed := if is_negative value then - m else m in
      match i64_checked signed with
      | Some v => Some {| mantissa := v; scale := s |}
      | None => None
      end.

Definition required_scale (value : Number) : option nat :=
  if is_zero value then Some 0%nat
  else
    let fraction_digits := Z.max (Z.of_nat (digit_count value) - exponent value) 0 in
    if (fraction_digits <=? 255) && (fraction_digits <=? Z.of_nat MAX_SCALE)
    then Some (Z.to_nat fraction_digits) else None.

(** The first [len] entries of the array, most significant digit first. *)
Definition magnitude_digits (s : ScaledNumber) : run (list Z) :=
  let! ds := rev_digits 20 (Z.abs (mantissa s)) in Ret (rev ds).

Definition to_number (s : ScaledNumber) : run Number :=
  let! ds := magnitude_digits s in
  Ret (unwrap_or_zero
         (from_digits (mantissa s <? 0) ds (Z.of_nat (length ds) - Z.of_nat (scale s)))).

(** [while scale > 0 && digits[len - 1] == 0 { len -= 1; scale -= 1 }]. *)
Fixpoint drop_fraction_zeros (s : nat) (ds : list Z) : run (nat * list Z) :=
  match s with
  | O => Ret (0%nat, ds)
  | S s' =>
      let! d := of_option (last ds) in
      if d =? 0 then drop_fraction_zeros s' (take (length ds - 1) ds) else Ret (S s', ds)
  end.

Definition scaled_display (s : ScaledNumber) : run str :=
  if mantissa s =? 0 then Ret [48]
  else
    let! ds := magnitude_digits s in
    let! (sc, ds) := drop_fraction_zeros (scale s) ds in
    let sign := if mantissa s <? 0 then [MINUS] else [] in
    if (sc =? 0)%nat then Ret (sign ++ map ascii ds)
    else if (sc <? length ds)%nat then
      let split := (length ds - sc)%nat in
      Ret (sign ++ map ascii (take split ds) ++ [DOT] ++ map ascii (drop split ds))
    else Ret (sign ++ [48; DOT] ++ zeros (Z.of_nat (sc - length ds)) ++ map ascii ds).

(** A [NUMBER] cell as the store holds it. *)
Inductive NumberValue :=
| ScaledValue (s : ScaledNumber)
| DecimalValue (n : Number).

Definition value_to_number (v : NumberValue) : run Number :=
  match v with ScaledValue s => to_number s | DecimalValue n => Ret n end.

Definition value_display (v : NumberValue) : run str :=
  match v with ScaledValue s => scaled_display s | DecimalValue n => Ret (display n) end.

(** ** The encoding *)

(** A mantissa of an [i64] and a scale in range. *)
Definition scaled_ok (s : ScaledNumber) : Prop :=
  i64_min <= mantissa s <= i64_max /\ (scale s <= MAX_SCALE)%nat.

Lemma iter_mul10 k m : Nat.iter k (fun acc => acc * 10) m = m * 10 ^ Z.of_nat k.
Proof.
  induction k as [|k IH]; [cbn; lia|].
  change (Nat.iter (S k) (fun acc => acc * 10) m) with (Nat.iter k (fun acc => acc * 10) m * 10).
  rewrite IH, <- Z.mul_assoc, (Z.mul_comm _ 10), <- Z.pow_succ_r by lia. do 2 f_equal. lia.
Qed.

Lemma i64_checked_Some v w : i64_checked v = Some w <-> v = w /\ i64_min <= w <= i64_max.
Proof.
  unfold i64_checked. case_if as E; split.
  - intros [= <-]. done.
  - intros [-> _]. done.
  - done.
  - intros [-> [H1 H2]]. apply Z.leb_le in H1, H2. by rewrite H1, H2 in E.
Qed.

(** The digits of a non-zero mantissa: a canonical run and the zeros after it. *)
Lemma magnitude_digits_spec s :
  scaled_ok s -> mantissa s <> 0 ->
  exists sig b, magnitude_digits s = Ret (sig ++ replicate b 0) /\ canonical sig /\
    dval sig * 10 ^ Z.of_nat b = Z.abs (mantissa s) /\ (length sig + b <= 20)%nat.
Proof.
  intros [Hm _] Hne. unfold magnitude_digits.
  assert (0 <= Z.abs (mantissa s) < 10 ^ Z.of_nat 20) as Hr by (unfold i64_min, i64_max in Hm; lia).
  destruct (wp_elim _ _ (rev_digits_spec 20 _ Hr)) as (rd & -> & Hd & Hv & Hl & _ & Hlast).
  destruct (Hlast ltac:(lia)) as (top & rd' & -> & Htop). cbn [rbind].
  assert (Hd' : Forall nines (rev (rd' ++ [top]))) by (by apply Forall_rev).
  destruct (strip_zeros _ Hd') as [(n & E)|(a & sig & b & E & Hc)].
  - rewrite E, dval_zeros in Hv. lia.
  - destruct a as [|a].
    2:{ rewrite rev_app_distr in E. simpl in E. injection E as -> _. done. }
    assert (length sig + b <= 20)%nat as Hlen.
    { apply (f_equal length) in E. rewrite length_rev, !length_app, !length_replicate in E.
      rewrite length_app in Hl. simpl length in E, Hl. lia. }
    exists sig, b. rewrite E in Hv |- *. simpl replicate in Hv |- *. rewrite app_nil_l in Hv |- *.
    rewrite dval_app, dval_zeros, length_replicate in Hv. split; [done|]. split; [done|]. split; [lia|done].
Qed.

Lemma to_number_spec s sig b :
  scaled_ok s -> magnitude_digits s = Ret (sig ++ replicate b 0) -> canonical sig ->
  (length sig + b <= 20)%nat ->
  to_number s = Ret (make (mantissa s <? 0) sig (Z.of_nat (length sig + b) - Z.of_nat (scale s))).
Proof.
  intros [_ Hs] E Hc Hl. unfold to_number. rewrite E. cbn [rbind].
  pose proof (from_digits_strip (mantissa s <? 0) 0 sig b) as H. simpl replicate in H.
  rewrite app_nil_l in H. rewrite H by done. rewrite length_app, length_replicate.
  pose proof (canonical_length _ Hc). unfold MAX_SIGNIFICANT_DIGITS, check_exponent, MAX_SCALE in *.
  rewrite (proj2 (Nat.ltb_ge _ _)) by lia. unfold MIN_EXPONENT, MAX_EXPONENT.
  rewrite !(proj2 (Z.leb_le _ _)) by lia. simpl. do 2 f_equal. lia.
Qed.

Lemma to_number_zero s : mantissa s = 0 -> to_number s = Ret ZERO.
Proof. destruct s as [m k]. simpl. intros ->. reflexivity. Qed.

(** [from_number] on a non-zero number, as arithmetic. *)
Lemma from_number_make neg ds e k :
  canonical ds ->
  from_number (make neg ds e) k =
    let shift := e - Z.of_nat (length ds) + Z.of_nat k in
    if (MAX_SCALE <? k)%nat || (shift <? 0) || (19 <? Z.of_nat (length ds) + shift) then None
    else match i64_checked (sgn neg * (dval ds * 10 ^ shift)) with
         | Some v => Some {| mantissa := v; scale := k |}
         | None => None
         end.
Proof.
  intros Hc. unfold from_number. rewrite digits_make. pose proof (canonical_length _ Hc).
  unfold is_zero, is_negative. cbn [len exponent negative make]. cbv zeta.
  destruct (MAX_SCALE <? k)%nat; [done|]. rewrite (proj2 (Nat.eqb_neq _ _)) by lia.
  cbn [orb]. destruct (_ <? 0) eqn:E1; [done|]. cbn [orb]. destruct (19 <? _); [done|].
  boolify. rewrite iter_mul10, Z2Nat.id by lia. fold (dval ds).
  replace (if neg then _ else _) with (sgn neg * (dval ds * 10 ^ (e - Z.of_nat (length ds) + Z.of_nat k)));
    [done|]. destruct neg; cbn [sgn]; lia.
Qed.

(** A canonical run times a negative power of ten is no integer. *)
Lemma canonical_not_integral neg ds v j :
  canonical ds -> 0 < j -> sgn neg * dval ds <> v * 10 ^ j.
Proof.
  intros Hc Hj E. apply (canonical_not_mult10 ds Hc).
  assert (dval ds = sgn neg * v * 10 ^ (j - 1) * 10) as ->.
  { rewrite <- Z.mul_assoc, (Z.mul_comm _ 10), <- Z.pow_succ_r by lia.
    replace (Z.succ (j - 1)) with j by lia. destruct neg; cbn [sgn] in *; lia. }
  apply Z.mod_mul. lia.
Qed.

(** A well-formed number at scale [k] is [m] exactly when this equation holds. *)
Definition scales_to (n : Number) (k : nat) (m : Z) : Prop := units n * 10 ^ Z.of_nat k = m * 10 ^ 169.

Lemma scales_to_zero k m : scales_to ZERO k m <-> m = 0.
Proof.
  unfold scales_to. change (units ZERO) with 0. pose proof (pow10_pos 169 ltac:(lia)). split; nia.
Qed.

Lemma scales_to_make neg ds e k m :
  canonical ds -> (length ds <= MAX_SIGNIFICANT_DIGITS)%nat -> MIN_EXPONENT <= e ->
  let shift := e - Z.of_nat (length ds) + Z.of_nat k in
  scales_to (make neg ds e) k m <-> 0 <= shift /\ m = sgn neg * (dval ds * 10 ^ shift).
Proof.
  intros Hc Hl He shift. unfold scales_to. rewrite units_make.
  unfold MAX_SIGNIFICANT_DIGITS, MIN_EXPONENT in *.
  rewrite <- Z.mul_assoc, <- Z.pow_add_r by lia.
  replace (e - Z.of_nat (length ds) + 169 + Z.of_nat k) with (shift + 169) by (unfold shift; lia).
  pose proof (pow10_pos 169 ltac:(lia)) as Hp.
  destruct (Z.lt_ge_cases shift 0) as [Hneg|Hpos].
  - split; [|lia]. intros E. exfalso.
    replace 169 with (- shift + (shift + 169)) in E at 2 by lia.
    rewrite (Z.pow_add_r 10 (- shift)), (Z.mul_assoc m) in E by (unfold shift in *; lia).
    apply Z.mul_cancel_r in E; [|pose proof (pow10_pos (shift + 169) ltac:(unfold shift in *; lia)); lia].
    by apply canonical_not_integral in E; [|done|lia].
  - rewrite Z.pow_add_r, Z.mul_assoc, Z.mul_cancel_r by lia.
    split; [intros <-; split; [done|ring]|intros [_ ->]; ring].
Qed.

Lemma from_number_spec n k m :
  number_ok n ->
  from_number n k = Some {| mantissa := m; scale := k |} <->
  (k <= MAX_SCALE)%nat /\ scales_to n k m /\ i64_min <= m <= i64_max.
Proof.
  intros [|neg ds e Hc Hl [He _]].
  { rewrite scales_to_zero. unfold from_number. change (is_zero ZERO) with true. cbv iota.
    destruct (_ <? _)%nat eqn:E; boolify; [split; [done|lia]|]. split.
    - intros [= <-]. split; [done|]. split; [done|]. by vm_compute.
    - by intros (_ & -> & _). }
  rewrite from_number_make, scales_to_make by done. cbv zeta.
  set (shift := e - _ + _). destruct (_ <? k)%nat eqn:E1; boolify; [split; [done|lia]|].
  destruct (shift <? 0) eqn:E2; boolify; [split; [done|lia]|].
  destruct (19 <? _) eqn:E3; boolify; cbn [orb].
  - split; [done|]. intros (_ & [_ ->] & Hm). exfalso.
    pose proof (canonical_dval_lower _ Hc) as Hlow. pose proof (canonical_length _ Hc).
    assert (10 ^ 19 <= dval ds * 10 ^ shift).
    { apply Z.le_trans with (10 ^ (Z.of_nat (length ds) - 1) * 10 ^ shift).
      - rewrite <- Z.pow_add_r by lia. apply Z.pow_le_mono_r; lia.
      - apply Z.mul_le_mono_nonneg_r; [pose proof (pow10_pos shift); lia|done]. }
    unfold i64_min, i64_max in Hm. destruct neg; cbn [sgn] in Hm; lia.
  - destruct (i64_checked _) as [v|] eqn:E4.
    + apply i64_checked_Some in E4 as [Ev Hv]. split.
      * intros [= <-]. auto.
      * intros (_ & [_ ->] & _). by rewrite Ev.
    + split; [done|]. intros (_ & [_ ->] & Hm). exfalso.
      by rewrite (proj2 (i64_checked_Some _ _) (conj eq_refl Hm)) in E4.
Qed.

Lemma from_number_scale n k s : from_number n k = Some s -> scale s = k.
Proof.
  unfold from_number. cbv zeta. intros H.
  repeat match type of H with (if ?b then _ else _) = _ => destruct b; [try done|] end;
    simplify_eq/=; try done. destruct (i64_checked _); by simplify_eq/=.
Qed.

Lemma from_number_ok n k s : number_ok n -> from_number n k = Some s -> scaled_ok s /\ scales_to n k (mantissa s).
Proof.
  intros Hn E. pose proof (from_number_scale _ _ _ E) as Hs.
  destruct s as [m k']. simpl in Hs. subst k'. apply from_number_spec in E; [|done].
  destruct E as (Hk & Hsc & Hm). by split.
Qed.

(** What a [ScaledNumber] is worth, in [units]. *)
Lemma to_number_value s :
  scaled_ok s -> exists n, to_number s = Ret n /\ number_ok n /\ scales_to n (scale s) (mantissa s).
Proof.
  intros Hok. destruct (Z.eq_dec (mantissa s) 0) as [E|Hne].
  { exists ZERO. rewrite to_number_zero, E, scales_to_zero by done. by repeat constructor. }
  destruct (magnitude_digits_spec s Hok Hne) as (sig & b & Eq & Hc & Hv & Hl).
  rewrite (to_number_spec _ _ _ Hok Eq Hc Hl). eexists. split; [done|].
  destruct Hok as [_ Hs]. pose proof (canonical_length _ Hc). unfold MAX_SCALE in Hs.
  assert (length sig <= MAX_SIGNIFICANT_DIGITS)%nat by (unfold MAX_SIGNIFICANT_DIGITS; lia).
  split.
  - constructor; [done|done|]. unfold MIN_EXPONENT, MAX_EXPONENT. lia.
  - apply scales_to_make; [done|done|unfold MIN_EXPONENT; lia|].
    replace (Z.of_nat (length sig + b) - _ - _ + _) with (Z.of_nat b) by lia.
    split; [lia|]. rewrite Hv. destruct (_ <? 0) eqn:E; boolify; cbn [sgn]; lia.
Qed.

Lemma from_number_to_number n k s : number_ok n -> from_number n k = Some s -> to_number s = Ret n.
Proof.
  intros Hn E.
  pose proof (from_number_scale _ _ _ E) as <-.
  destruct (from_number_ok _ _ _ Hn E) as [Hok Hs].
  destruct (to_number_value s Hok) as (n' & -> & Hn' & Hs'). f_equal.
  unfold scales_to in *. rewrite <- Hs in Hs'.
  apply Z.mul_cancel_r in Hs'; [|pose proof (pow10_pos (Z.of_nat (scale s))); lia].
  apply cmp_eq; [done..|]. by rewrite cmp_units, Z.compare_eq_iff.
Qed.

(** ** [Display] *)

Lemma last_zeros sig b : last (sig ++ replicate (S b) 0) = Some 0.
Proof. rewrite <- (Nat.add_1_r b), replicate_add, app_assoc. apply last_snoc. Qed.

Lemma drop_fraction_zeros_spec sig b s :
  canonical sig ->
  drop_fraction_zeros s (sig ++ replicate b 0) =
    Ret ((s - b)%nat, sig ++ replicate (b - s) 0).
Proof.
  intros Hc. revert b. induction s as [|s IH]; intros b; cbn [drop_fraction_zeros].
  { by rewrite Nat.sub_0_r. }
  destruct b as [|b].
  - destruct (canonical_last _ Hc) as (d & ds' & -> & Hd). rewrite app_nil_r, last_snoc.
    cbn [of_option rbind]. rewrite (proj2 (Z.eqb_neq _ _)) by done. by rewrite app_nil_r.
  - rewrite last_zeros. cbn [of_option rbind Z.eqb].
    replace (take _ _) with (sig ++ replicate b 0); [by rewrite IH|].
    rewrite <- (Nat.add_1_r b), replicate_add, app_assoc, length_app. cbn [replicate length].
    by rewrite Nat.add_sub, take_app_length.
Qed.

Lemma map_ascii_zeros b : map ascii (replicate b 0) = zeros (Z.of_nat b).
Proof. by rewrite zeros_ascii, Nat2Z.id. Qed.

Lemma scaled_display_to_number s n :
  scaled_ok s -> to_number s = Ret n -> scaled_display s = Ret (display n).
Proof.
  intros Hok E. unfold scaled_display. destruct (mantissa s =? 0) eqn:E0; boolify.
  { rewrite to_number_zero in E by done. by injection E as <-. }
  destruct (magnitude_digits_spec s Hok E0) as (sig & b & Eq & Hc & Hv & Hl).
  rewrite (to_number_spec _ _ _ Hok Eq Hc Hl) in E. injection E as <-.
  rewrite Eq. cbn [rbind]. rewrite drop_fraction_zeros_spec by done. cbn [rbind].
  pose proof (canonical_length _ Hc). unfold display. rewrite digits_make.
  cbn [len exponent negative make]. rewrite (proj2 (Nat.eqb_neq (length sig) 0)) by lia. cbv zeta.
  rewrite Nat2Z.inj_add. destruct (Nat.le_gt_cases (scale s) b).
  - rewrite (proj2 (Nat.eqb_eq _ _)), (proj2 (Z.leb_le _ _)) by lia.
    rewrite map_app, map_ascii_zeros. do 4 f_equal. lia.
  - rewrite (proj2 (Nat.eqb_neq _ _)), (proj2 (Z.leb_gt _ _)) by lia.
    replace (b - scale s)%nat with 0%nat by lia. cbn [replicate]. rewrite app_nil_r.
    destruct (_ <? length sig)%nat eqn:E; boolify.
    + rewrite (proj2 (Z.ltb_lt 0 _)) by lia.
      by replace (Z.to_nat (Z.of_nat (length sig) + Z.of_nat b - Z.of_nat (scale s)))
        with (length sig - (scale s - b))%nat by lia.
    + rewrite (proj2 (Z.ltb_ge 0 _)) by lia. do 5 f_equal. lia.
Qed.

(** ** The scale a value needs *)

Definition fraction_digits (n : Number) : nat :=
  if is_zero n then 0%nat else Z.to_nat (Z.of_nat (digit_count n) - exponent n).

Lemma scales_to_exists n j : number_ok n -> (exists m, scales_to n j m) <-> (fraction_digits n <= j)%nat.
Proof.
  intros [|neg ds e Hc Hl [He _]].
  - split; [cbn; lia|]. intros _. exists 0. by apply scales_to_zero.
  - unfold fraction_digits, is_zero, digit_count. cbn [len exponent make].
    pose proof (canonical_length _ Hc). rewrite (proj2 (Nat.eqb_neq _ _)) by lia. split.
    + intros [m Hm]. apply scales_to_make in Hm; [lia|done..].
    + intros Hj. eexists. apply scales_to_make; [done..|]. split; [lia|reflexivity].
Qed.

Lemma required_scale_digits n :
  required_scale n = if (fraction_digits n <=? MAX_SCALE)%nat then Some (fraction_digits n) else None.
Proof.
  unfold required_scale, fraction_digits. destruct (is_zero n); [done|]. cbv zeta.
  set (f := _ - _). unfold MAX_SCALE. destruct (f <=? 18) eqn:E; boolify.
  - rewrite !(proj2 (Z.leb_le _ _)), (proj2 (Nat.leb_le _ _)) by lia. cbn [andb]. f_equal. lia.
  - rewrite (proj2 (Z.leb_gt (Z.max f 0) (Z.of_nat 18))), (proj2 (Nat.leb_gt _ _)) by lia. by rewrite andb_false_r.
Qed.

Lemma required_scale_spec n k :
  number_ok n ->
  required_scale n = Some k <->
  (k <= MAX_SCALE)%nat /\ (exists m, scales_to n k m) /\ (forall j m, (j < k)%nat -> ~ scales_to n j m).
Proof.
  intros Hn. rewrite required_scale_digits, (scales_to_exists n k Hn).
  assert ((forall j m, (j < k)%nat -> ~ scales_to n j m) <-> (k <= fraction_digits n)%nat) as ->.
  { split.
    - intros Hj. destruct (Nat.le_gt_cases k (fraction_digits n)) as [|Hlt]; [done|]. exfalso.
      destruct (proj2 (scales_to_exists n (fraction_digits n) Hn) ltac:(lia)) as [m Hm]. by apply (Hj _ m Hlt).
    - intros Hk j m Hj Hm. assert (fraction_digits n <= j)%nat by (apply scales_to_exists; eauto). lia. }
  destruct (_ <=? _)%nat eqn:E; boolify; split; [intros [= <-]; lia|intros ?; f_equal; lia|done|lia].
Qed.

(** A value that fits a scale fits every smaller scale at which it is exact. *)
Lemma from_number_smaller n k K s :
  number_ok n -> (fraction_digits n <= k <= K)%nat -> from_number n K = Some s ->
  exists s', from_number n k = Some s'.
Proof.
  intros Hn Hk E. pose proof (from_number_scale _ _ _ E) as Hs. destruct s as [m K']. simpl in Hs. subst K'.
  apply from_number_spec in E as (HK & Hm & Hi); [|done].
  destruct (proj2 (scales_to_exists n k Hn) ltac:(lia)) as [m' Hm'].
  exists {| mantissa := m'; scale := k |}. apply from_number_spec; [done|]. split; [lia|]. split; [done|].
  assert (m = m' * 10 ^ Z.of_nat (K - k)) as ->.
  { unfold scales_to in *. replace (Z.of_nat K) with (Z.of_nat k + Z.of_nat (K - k)) in Hm by lia.
    rewrite Z.pow_add_r, Z.mul_assoc, Hm' in Hm by lia. pose proof (pow10_pos 169 ltac:(lia)). nia. }
  pose proof (pow10_pos (Z.of_nat (K - k)) ltac:(lia)). unfold i64_min, i64_max in *. nia.
Qed.

(** ** The properties *)

(** The encoding is exact and complete.  [from_number] encodes a number at a
    scale exactly when the scale is at most 18 and the value times [10^scale] is
    an [i64], and then that integer is the mantissa; [to_number] decodes what
    was encoded to the number itself, without a panic. *)
Theorem scaled_roundtrip n k m :
  number_ok n ->
  (from_number n k = Some {| mantissa := m; scale := k |} <->
     (k <= MAX_SCALE)%nat /\ scales_to n k m /\ i64_min <= m <= i64_max) /\
  (forall s, from_number n k = Some s -> to_number s = Ret n).
Proof.
  intros Hn. split; [by apply from_number_spec|]. intros s. by apply from_number_to_number.
Qed.

Lemma scaled_roundtrip_witness :
  from_number (make true [1; 5] 1) 2 = Some {| mantissa := -150; scale := 2 |} /\
  to_number {| mantissa := -150; scale := 2 |} = Ret (make true [1; 5] 1).
Proof.
  assert (number_ok (make true [1; 5] 1)) as Hok.
  { constructor; [|vm_compute; lia|vm_compute; split; discriminate].
    split; [repeat constructor; lia|by exists 1, [5]|by exists 5, [1]]. }
  split; [reflexivity|]. apply (proj2 (scaled_roundtrip _ 2 0 Hok)). reflexivity.
Defined.

(** [Display] of a scaled number never panics and writes, for every mantissa
    and every scale, exactly the text [Number]'s [Display] writes for the value:
    the text does not depend on the encoding. *)
Theorem scaled_display_canonical s :
  scaled_ok s ->
  exists n, to_number s = Ret n /\ number_ok n /\ scaled_display s = Ret (display n).
Proof.
  intros Hok. destruct (to_number_value s Hok) as (n & E & Hn & _).
  exists n. split; [done|]. split; [done|]. by apply scaled_display_to_number.
Qed.

Lemma scaled_display_canonical_witness :
  exists n, to_number {| mantissa := 150; scale := 2 |} = Ret n /\ number_ok n /\
            scaled_display {| mantissa := 150; scale := 2 |} = Ret (display n).
Proof. apply scaled_display_canonical. vm_compute. repeat split; (discriminate || lia). Defined.

(** [required_scale] is the least scale at which a value is an integer, and
    [None] exactly when every scale up to 18 falls short. *)
Theorem required_scale_least n k :
  number_ok n ->
  required_scale n = Some k <->
  (k <= MAX_SCALE)%nat /\ (exists m, scales_to n k m) /\ (forall j m, (j < k)%nat -> ~ scales_to n j m).
Proof. apply required_scale_spec. Qed.

Lemma required_scale_least_witness :
  required_scale (make true [1; 5] 1) = Some 1%nat /\ ~ scales_to (make true [1; 5] 1) 0 1.
Proof.
  assert (number_ok (make true [1; 5] 1)) as Hok.
  { constructor; [|vm_compute; lia|vm_compute; split; discriminate].
    split; [repeat constructor; lia|by exists 1, [5]|by exists 5, [1]]. }
  assert (required_scale (make true [1; 5] 1) = Some 1%nat) as E by reflexivity.
  split; [done|]. apply (proj1 (required_scale_least _ 1 Hok) E). lia.
Defined.
