(* ===== verification/Temporal.v ===== *)
(** * Timestamps (db-driver-api/src/value/temporal.rs)

    A validated date and time with an optional UTC offset, in the historical
    calendar: Julian leap years before 1582, Gregorian from then on, no year
    zero, and ten days of October 1582 that never were.  The file models both
    constructors, the zone, and the [Display] of each. *)

From S2P Require Import Prelude RustStr Number NumberProps.
From Stdlib Require Import ZifyBool.
Open Scope Z_scope.

Inductive TemporalError :=
| YearOutOfRange
| MonthOutOfRange
| DayOutOfRange
| NonexistentCalendarDate
| TimeOutOfRange
| NanosecondOutOfRange
| OffsetOutOfRange.

Inductive TimeZone :=
| Unspecified
| Offset (minutes : Z).

Definition zone_offset (minutes : Z) : result TimeZone TemporalError :=
  if negb ((-1439 <=? minutes) && (minutes <=? 1439)) then Err OffsetOutOfRange else Ok (Offset minutes).

Definition offset_minutes (z : TimeZone) : option Z :=
  match z with Unspecified => None | Offset m => Some m end.

Record Timestamp := mkTimestamp {
  year : Z; month : Z; day : Z;
  hour : Z; minute : Z; second : Z;
  nanosecond : Z;
  zone : TimeZone;
}.

Definition GREGORIAN_REFORM_YEAR : Z := 1582.

Definition is_leap_year (y : Z) : bool :=
  let astronomical := if y <? 0 then y + 1 else y in
  if negb (Z.rem astronomical 4 =? 0) then false
  else if y <? GREGORIAN_REFORM_YEAR then true
  else negb (Z.rem astronomical 100 =? 0) || (Z.rem astronomical 400 =? 0).

Definition days_in_month (y m : Z) : Z :=
  match m with
  | 1 | 3 | 5 | 7 | 8 | 10 | 12 => 31
  | 4 | 6 | 9 | 11 => 30
  | 2 => if is_leap_year y then 29 else 28
  | _ => 0
  end.

Definition is_in_reform_gap (y m d : Z) : bool :=
  (y =? GREGORIAN_REFORM_YEAR) && (m =? 10) && (5 <=? d) && (d <=? 14).

Definition from_source (y m d h mi s : Z) : result Timestamp TemporalError :=
  if negb ((-4712 <=? y) && (y <=? 9999)) || (y =? 0) then Err YearOutOfRange
  else if negb ((1 <=? m) && (m <=? 12)) then Err MonthOutOfRange
  else if (d =? 0) || (days_in_month y m <? d) then Err DayOutOfRange
  else if (23 <? h) || (59 <? mi) || (59 <? s) then Err TimeOutOfRange
  else Ok {| year := y; month := m; day := d; hour := h; minute := mi; second := s;
             nanosecond := 0; zone := Unspecified |}.

Definition timestamp_new (y m d h mi s : Z) : result Timestamp TemporalError :=
  result_bind (from_source y m d h mi s) (fun t =>
  if is_in_reform_gap y m d then Err NonexistentCalendarDate else Ok t).

Definition date (y m d : Z) : result Timestamp TemporalError := timestamp_new y m d 0 0 0.

Definition with_nanosecond (t : Timestamp) (n : Z) : result Timestamp TemporalError :=
  if 1000000000 <=? n then Err NanosecondOutOfRange
  else Ok {| year := year t; month := month t; day := day t; hour := hour t;
             minute := minute t; second := second t; nanosecond := n; zone := zone t |}.

Definition with_zone (t : Timestamp) (z : TimeZone) : Timestamp :=
  {| year := year t; month := month t; day := day t; hour := hour t;
     minute := minute t; second := second t; nanosecond := nanosecond t; zone := z |}.

(** ** [Display] *)

(** The decimal digits of a [u32], most significant first, [0] as one digit. *)
Fixpoint decimal (fuel : nat) (n : Z) : list Z :=
  match fuel with
  | O => []
  | S fuel' => if n <? 10 then [n] else decimal fuel' (n / 10) ++ [n mod 10]
  end.

(** [{:0w}] of an unsigned integer of at most 32 bits. *)
Definition padded (w : nat) (n : Z) : str :=
  let ds := decimal 10 n in zeros (Z.of_nat (w - length ds)) ++ map ascii ds.

Definition COLON : Z := 58.

Definition zone_display (z : TimeZone) : str :=
  match z with
  | Unspecified => []
  | Offset m =>
      let absolute := Z.abs m in
      (if m <? 0 then MINUS else PLUS) :: padded 2 (absolute / 60) ++ [COLON] ++ padded 2 (absolute mod 60)
  end.

Definition timestamp_display (t : Timestamp) : str :=
  (if year t <? 0 then MINUS :: padded 4 (Z.abs (year t)) else padded 4 (year t)) ++
  [MINUS] ++ padded 2 (month t) ++ [MINUS] ++ padded 2 (day t) ++ [84] ++
  padded 2 (hour t) ++ [COLON] ++ padded 2 (minute t) ++ [COLON] ++ padded 2 (second t) ++
  (if negb (nanosecond t =? 0) then [DOT] ++ padded 9 (nanosecond t) else []) ++
  zone_display (zone t).

(** ** The calendar *)

(** Leap years, stated with divisibility. *)
Definition leap (y : Z) : Prop :=
  let astronomical := if y <? 0 then y + 1 else y in
  (4 | astronomical) /\ (1582 <= y -> (100 | astronomical) -> (400 | astronomical)).

Lemma rem_divide a b : b <> 0 -> (Z.rem a b =? 0) = true <-> (b | a).
Proof. intros Hb. rewrite Z.eqb_eq. by apply Z.rem_divide. Qed.

Lemma rem_not_divide a b : b <> 0 -> (Z.rem a b =? 0) = false <-> ~ (b | a).
Proof. intros Hb. rewrite Z.eqb_neq. by rewrite Z.rem_divide. Qed.

Lemma is_leap_year_spec y : is_leap_year y = true <-> leap y.
Proof.
  unfold is_leap_year, leap, GREGORIAN_REFORM_YEAR. set (a := if y <? 0 then _ else _). cbv zeta.
  destruct (Z.rem a 4 =? 0) eqn:E4; cbn [negb].
  2:{ apply rem_not_divide in E4; [|done]. intuition done. }
  apply rem_divide in E4; [|done]. destruct (y <? 1582) eqn:Ey; boolify.
  { split; [|done]. intros _. split; [done|]. lia. }
  destruct (Z.rem a 100 =? 0) eqn:E100; cbn [negb orb].
  - apply rem_divide in E100; [|done]. rewrite rem_divide by done. intuition (done || lia).
  - apply rem_not_divide in E100; [|done]. intuition (done || lia).
Qed.

(** The dates of the calendar: twelve months of the usual lengths. *)
Definition month_length (y m : Z) : Z :=
  nth (Z.to_nat m) [0; 31; if is_leap_year y then 29 else 28; 31; 30; 31; 30; 31; 31; 30; 31; 30; 31] 0.

Definition real_date (y m d : Z) : Prop :=
  -4712 <= y <= 9999 /\ y <> 0 /\ 1 <= m <= 12 /\ 1 <= d <= month_length y m.

Definition real_time (h mi s : Z) : Prop := h <= 23 /\ mi <= 59 /\ s <= 59.

Lemma days_in_month_length y m : 1 <= m <= 12 -> days_in_month y m = month_length y m.
Proof.
  intros Hm. assert (m = 1 \/ m = 2 \/ m = 3 \/ m = 4 \/ m = 5 \/ m = 6 \/ m = 7 \/ m = 8 \/
    m = 9 \/ m = 10 \/ m = 11 \/ m = 12) as H by lia.
  repeat destruct H as [->|H]; try reflexivity. by subst m.
Qed.

Lemma from_source_spec y m d h mi s :
  0 <= d ->
  from_source y m d h mi s = Ok (mkTimestamp y m d h mi s 0 Unspecified) /\ real_date y m d /\ real_time h mi s
  \/ (exists e, from_source y m d h mi s = Err e) /\ ~ (real_date y m d /\ real_time h mi s).
Proof.
  intros Hd. unfold from_source, real_date, real_time.
  destruct (negb ((-4712 <=? y) && (y <=? 9999)) || (y =? 0)) eqn:E1; [right; split; [eauto|lia]|].
  destruct (negb ((1 <=? m) && (m <=? 12))) eqn:E2; [right; split; [eauto|lia]|].
  rewrite <- days_in_month_length by lia.
  destruct ((d =? 0) || (days_in_month y m <? d)) eqn:E3; [right; split; [eauto|lia]|].
  destruct ((23 <? h) || (59 <? mi) || (59 <? s)) eqn:E4; [right; split; [eauto|lia]|].
  left. split; [done|]. lia.
Qed.

(** ** Fixed-width decimals *)

Fixpoint fixed (w : nat) (n : Z) : list Z :=
  match w with O => [] | S w' => fixed w' (n / 10) ++ [n mod 10] end.

Lemma fixed_small w n : 0 <= n < 10 -> fixed (S w) n = replicate w 0 ++ [n].
Proof.
  revert n. induction w as [|w IH]; intros n Hn.
  { cbn [fixed]. by rewrite Z.mod_small. }
  change (fixed (S (S w)) n) with (fixed (S w) (n / 10) ++ [n mod 10]).
  rewrite Z.div_small, Z.mod_small by lia. rewrite (IH 0) by lia.
  by rewrite (replicate_S_end w).
Qed.

Lemma decimal_fixed fuel w n :
  0 <= n < 10 ^ Z.of_nat w -> (0 < w <= fuel)%nat ->
  replicate (w - length (decimal fuel n)) 0 ++ decimal fuel n = fixed w n /\
  (length (decimal fuel n) <= w)%nat.
Proof.
  revert w n. induction fuel as [|fuel IH]; intros w n Hn Hw; [lia|].
  destruct w as [|w]; [lia|]. cbn [decimal]. destruct (n <? 10) eqn:E; boolify.
  { rewrite fixed_small by lia. cbn [length Nat.sub]. rewrite Nat.sub_0_r. split; [done|lia]. }
  destruct w as [|w]; [simpl in Hn; lia|].
  assert (0 <= n / 10 < 10 ^ Z.of_nat (S w)) as Hq.
  { split; [apply Z.div_pos; lia|]. apply Z.div_lt_upper_bound; [lia|].
    rewrite (Nat2Z.inj_succ (S w)), Z.pow_succ_r in Hn by lia. lia. }
  destruct (IH (S w) (n / 10) Hq ltac:(lia)) as [IH1 IH2].
  cbn [fixed]. cbn [fixed] in IH1. rewrite <- IH1, length_app. cbn [length].
  split; [|lia]. rewrite <- app_assoc. f_equal. f_equal. lia.
Qed.

Lemma padded_fixed w n : 0 <= n < 10 ^ Z.of_nat w -> (0 < w <= 10)%nat -> padded w n = map ascii (fixed w n).
Proof.
  intros Hn Hw. destruct (decimal_fixed 10 w n Hn Hw) as [E _]. unfold padded.
  by rewrite zeros_ascii, Nat2Z.id, <- map_app, E.
Qed.

Lemma length_fixed w n : length (fixed w n) = w.
Proof. revert n. induction w as [|w IH]; intros n; cbn [fixed]; [done|]. rewrite length_app, IH. simpl. lia. Qed.

Lemma dval_fixed w n : 0 <= n < 10 ^ Z.of_nat w -> dval (fixed w n) = n.
Proof.
  revert n. induction w as [|w IH]; intros n Hn; cbn [fixed].
  { simpl in Hn. unfold dval. simpl. lia. }
  rewrite dval_app, IH.
  - unfold dval. cbn [length fold_left]. change (10 ^ Z.of_nat 1) with 10. pose proof (Z.div_mod n 10). lia.
  - rewrite Nat2Z.inj_succ, Z.pow_succ_r in Hn by lia.
    split; [apply Z.div_pos; lia|apply Z.div_lt_upper_bound; lia].
Qed.

Lemma decimal_digits fuel n : 0 <= n -> Forall (fun d => 0 <= d <= 9) (decimal fuel n).
Proof.
  revert n. induction fuel as [|fuel IH]; intros n Hn; cbn [decimal]; [constructor|].
  destruct (n <? 10) eqn:E; boolify; [repeat constructor; lia|].
  apply Forall_app. split; [apply IH, Z.div_pos; lia|]. repeat constructor; pose proof (Z.mod_pos_bound n 10); lia.
Qed.

Lemma decimal_not_nil fuel n : decimal (S fuel) n <> [].
Proof. cbn [decimal]. destruct (n <? 10); [done|]. by destruct (decimal fuel _). Qed.

Lemma padded_1 n : padded 1 n = map ascii (decimal 10 n).
Proof.
  unfold padded. pose proof (decimal_not_nil 9 n) as Hn. destruct (decimal 10 n) as [|d ds]; [done|].
  by replace (1 - length (d :: ds))%nat with 0%nat by (simpl; lia).
Qed.

Lemma decimal_value n : 0 <= n < 10 ^ 10 -> dval (decimal 10 n) = n.
Proof.
  intros Hn. destruct (decimal_fixed 10 10 n ltac:(done) ltac:(lia)) as [E _].
  apply (f_equal dval) in E. rewrite dval_fixed, dval_app in E by done.
  rewrite dval_zeros in E. lia.
Qed.

Lemma map_ascii_inj a b : map ascii a = map ascii b -> a = b.
Proof.
  revert b. induction a as [|x a IH]; intros [|y b]; try done. cbn [map]. unfold ascii at 1 3.
  intros [= E1 E2]. f_equal; [lia|auto].
Qed.

(** A padded field at the head of two equal texts holds the same number. *)
Lemma padded_inj w n m s t :
  0 <= n < 10 ^ Z.of_nat w -> 0 <= m < 10 ^ Z.of_nat w -> (0 < w <= 10)%nat ->
  padded w n ++ s = padded w m ++ t -> n = m /\ s = t.
Proof.
  intros Hn Hm Hw. rewrite !padded_fixed by done. intros E.
  apply app_inj_1 in E as [E ->]; [|by rewrite !length_map, !length_fixed].
  split; [|done]. apply map_ascii_inj in E.
  by rewrite <- (dval_fixed w n), <- (dval_fixed w m), E.
Qed.

(** ** [Display] determines the timestamp *)

(** What the constructors establish: a real date and time, a nanosecond below
    one second, an offset within a day. *)
Record timestamp_ok (t : Timestamp) : Prop := {
  ok_date : real_date (year t) (month t) (day t);
  ok_time : real_time (hour t) (minute t) (second t);
  ok_unsigned : 0 <= hour t /\ 0 <= minute t /\ 0 <= second t;
  ok_nanosecond : 0 <= nanosecond t < 1000000000;
  ok_zone : forall m, zone t = Offset m -> -1439 <= m <= 1439;
}.

Lemma month_length_le y m : month_length y m <= 31.
Proof.
  unfold month_length. destruct (Z.to_nat m) as [|[|[|[|[|[|[|[|[|[|[|[|[|k]]]]]]]]]]]]];
    cbn [nth]; try destruct k; destruct (is_leap_year y); lia.
Qed.

Lemma padded_head w n : 0 <= n < 10 ^ Z.of_nat w -> (0 < w <= 10)%nat ->
  exists d s, padded w n = d :: s /\ is_ascii_digit d = true.
Proof.
  intros Hn Hw. destruct (decimal_fixed 10 w n Hn Hw) as [E _]. rewrite padded_fixed by done.
  assert (Forall nines (fixed w n)) as H.
  { clear E Hw. revert n Hn. induction w as [|w IH]; intros n Hn; cbn [fixed]; [constructor|].
    apply Forall_app. split.
    - apply IH. rewrite Nat2Z.inj_succ, Z.pow_succ_r in Hn by lia.
      split; [apply Z.div_pos; lia|apply Z.div_lt_upper_bound; lia].
    - constructor; [|constructor]. pose proof (Z.mod_pos_bound n 10). lia. }
  pose proof (length_fixed w n) as Hlen.
  destruct (fixed w n) as [|d ds]; [simpl in Hlen; lia|].
  apply Forall_cons in H as [Hd _]. exists (ascii d), (map ascii ds). split; [done|]. by apply ascii_digit.
Qed.

Lemma zone_display_inj z z' :
  (forall m, z = Offset m -> -1439 <= m <= 1439) -> (forall m, z' = Offset m -> -1439 <= m <= 1439) ->
  zone_display z = zone_display z' -> z = z'.
Proof.
  intros Hz Hz'. destruct z as [|m], z' as [|m']; try done; cbn [zone_display].
  specialize (Hz _ eq_refl). specialize (Hz' _ eq_refl). intros [= Hs E].
  assert (forall a, -1439 <= a <= 1439 -> 0 <= Z.abs a / 60 < 10 ^ Z.of_nat 2 /\
    0 <= Z.abs a mod 60 < 10 ^ Z.of_nat 2) as H.
  { intros a Ha. pose proof (Z.mod_pos_bound (Z.abs a) 60). pose proof (Z.div_mod (Z.abs a) 60).
    split; [|lia]. split; [apply Z.div_pos; lia|]. apply Z.div_lt_upper_bound; lia. }
  destruct (H m Hz), (H m' Hz').
  apply padded_inj in E as [E1 E]; [|done|done|lia]. injection E as E.
  rewrite <- (app_nil_r (padded 2 (Z.abs m mod 60))), <- (app_nil_r (padded 2 (Z.abs m' mod 60))) in E.
  apply padded_inj in E as [E2 _]; [|done|done|lia].
  assert (Z.abs m = Z.abs m') by (rewrite (Z.div_mod (Z.abs m) 60), (Z.div_mod (Z.abs m') 60); lia).
  f_equal. destruct (m <? 0) eqn:A, (m' <? 0) eqn:B; boolify; try done; lia.
Qed.

Lemma zone_display_not_dot z s : zone_display z <> [DOT] ++ s.
Proof. destruct z as [|m]; [done|]. cbn [zone_display]. by destruct (m <? 0). Qed.

Ltac field H n := apply padded_inj in H as [n H]; [|lia|lia|lia]; simpl in H; injection H as H.

(** ** The properties *)

(** The strict constructor accepts exactly the dates of the historical
    calendar with the ten days of the reform left out, the decoding one
    exactly the dates of the calendar; and the leap years are those divisible
    by four, less the centuries not divisible by 400 from 1582 on, with the
    missing year zero accounted for. *)
Theorem timestamps_follow_the_calendar y m d h mi s :
  0 <= d ->
  (result_is_ok (from_source y m d h mi s) = true <-> real_date y m d /\ real_time h mi s) /\
  (result_is_ok (timestamp_new y m d h mi s) = true <->
     real_date y m d /\ real_time h mi s /\ ~ (y = 1582 /\ m = 10 /\ 5 <= d <= 14)) /\
  (is_leap_year y = true <-> leap y).
Proof.
  intros Hd. split; [|split; [|apply is_leap_year_spec]];
    destruct (from_source_spec y m d h mi s Hd) as [(E & H1 & H2)|((e & E) & H)].
  - rewrite E. cbn [result_is_ok]. tauto.
  - rewrite E. cbn [result_is_ok]. split; [done|tauto].
  - unfold timestamp_new. rewrite E. cbn [result_bind].
    destruct (is_in_reform_gap y m d) eqn:G; unfold is_in_reform_gap, GREGORIAN_REFORM_YEAR in G; cbn [result_is_ok].
    + boolify. split; [done|]. intros (_ & _ & Hn). exfalso. apply Hn. lia.
    + split; [|done]. intros _. split; [done|]. split; [done|]. intros (-> & -> & ?).
      rewrite !(proj2 (Z.leb_le _ _)) in G by lia. done.
  - unfold timestamp_new. rewrite E. cbn. split; [done|tauto].
Qed.

Lemma timestamps_follow_the_calendar_witness :
  result_is_ok (from_source (-1) 2 29 0 0 0) = true /\ real_date (-1) 2 29.
Proof.
  assert (result_is_ok (from_source (-1) 2 29 0 0 0) = true) as E by reflexivity. split; [done|].
  apply (proj1 (timestamps_follow_the_calendar (-1) 2 29 0 0 0 ltac:(lia))). exact E.
Defined.

(** The text of a timestamp determines it: two well-formed timestamps with
    the same [Display] are equal, era, nanoseconds and offset included. *)
Theorem timestamp_display_injective t t' :
  timestamp_ok t -> timestamp_ok t' -> timestamp_display t = timestamp_display t' -> t = t'.
Proof.
  destruct t as [y m d h mi s ns z], t' as [y' m' d' h' mi' s' ns' z'].
  intros [[Hy [Hy0 [Hm Hd]]] [Hh [Hmi Hs]] Hu Hns Hz] [[Hy' [Hy0' [Hm' Hd']]] [Hh' [Hmi' Hs']] Hu' Hns' Hz'].
  cbn [year month day hour minute second nanosecond zone] in *.
  pose proof (month_length_le y m). pose proof (month_length_le y' m').
  unfold timestamp_display. cbn [year month day hour minute second nanosecond zone]. intros E.
  assert (y = y' /\ (y < 0 <-> y' < 0)) as [<- _] .
  { destruct (y <? 0) eqn:A, (y' <? 0) eqn:B; boolify.
    - injection E as E. apply padded_inj in E as [E _]; lia.
    - destruct (padded_head 4 y') as (c & r & Ec & Hc); [lia..|]. rewrite Ec in E. injection E as <- _. discriminate.
    - destruct (padded_head 4 y) as (c & r & Ec & Hc); [lia..|]. rewrite Ec in E. injection E as -> _. discriminate.
    - apply padded_inj in E as [E _]; lia. }
  apply app_inv_head in E. simpl in E. injection E as E.
  field E Em. field E Ed. field E Eh. field E Emi.
  apply padded_inj in E as [Es E]; [|lia|lia|lia].
  assert (ns = ns' /\ zone_display z = zone_display z') as [<- Ez].
  { destruct (ns =? 0) eqn:A, (ns' =? 0) eqn:B; boolify; cbn [negb] in E.
    - split; [lia|done].
    - by apply zone_display_not_dot in E.
    - symmetry in E. by apply zone_display_not_dot in E.
    - simpl in E. injection E as E. apply padded_inj in E; [done|lia|lia|lia]. }
  apply zone_display_inj in Ez; [|done|done]. by subst.
Qed.

Lemma timestamp_display_injective_witness :
  mkTimestamp (-1) 2 29 23 59 59 5 (Offset (-90)) = mkTimestamp (-1) 2 29 23 59 59 5 (Offset (-90)).
Proof.
  assert (timestamp_ok (mkTimestamp (-1) 2 29 23 59 59 5 (Offset (-90)))) as H.
  { split; vm_compute; try (repeat split; (discriminate || lia)). intros m [= <-]. split; discriminate. }
  apply (timestamp_display_injective _ _ H H). reflexivity.
Defined.
