(* ===== verification/Errors.v ===== *)
(** * Database errors (db-driver-api/src/error.rs)

    The vendor-neutral error every fallible operation returns: a category, what
    the driver believes of the session, and a message.  A message the modelled
    code formats is kept as the arguments it formats; any other is its text.
    The cause, a foreign error object, is kept as the text it prints. *)

From S2P Require Import Prelude RustStr.

Inductive ErrorKind :=
| Configuration | Connection | Authentication | NetworkLost | Timeout | Cancelled
| Syntax | Constraint | Permission | Transaction | Resource | DataConversion
| UnsupportedKind | DriverInternal | OtherKind.

Inductive SessionState := Usable | NeedsValidation | Lost.

Definition initial_for (kind : ErrorKind) : SessionState :=
  match kind with
  | NetworkLost => Lost
  | Connection | Timeout | Cancelled | DriverInternal => NeedsValidation
  | _ => Usable
  end.

Inductive Message :=
| NullRowOutOfRange (row len : nat)
| MaskLengthMismatch (values mask : nat)
| ColumnLengthMismatch (bad rows batch_rows : nat)
| NoLobToPark
| OutOfSequenceMessage (sequence : Z)
| ColumnCountMismatch (segment result : nat)
| InContext (context : str) (m : Message)
| OutstandingLimit (limit : Z)
| OpenResultsLimit (limit : Z)
| DriverPanicked (payload : option str)
| ForeignCursor (found owner : Z)
| ForeignLocator (found owner : Z)
| ForeignResult (session result : Z)
| ForeignLob (session serial : Z)
| ClosedLob (session serial : Z)
| NotSupported (capability : str)
| UsedAfterClose (handle : str)
| Text (s : str).

(** The database's own code and text, and where in the statement it points. *)
Record NativeError := mkNative { code : Z; native_message : str }.
Record SqlPosition := mkPosition { char_offset : option Z; line : option Z; column : option Z }.

Record DbError := mkError {
  kind : ErrorKind;
  session_state : SessionState;
  retryable : bool;
  message : Message;
  native : option NativeError;
  position : option SqlPosition;
  source : option Message;
}.

Definition error_new (k : ErrorKind) (m : Message) : DbError :=
  {| kind := k; session_state := initial_for k; retryable := false; message := m;
     native := None; position := None; source := None |}.

Definition internal (m : Message) : DbError := error_new DriverInternal m.

Definition unsupported (capability : str) : DbError := error_new UnsupportedKind (NotSupported capability).

Definition with_session_state (e : DbError) (s : SessionState) : DbError :=
  {| kind := kind e; session_state := s; retryable := retryable e; message := message e;
     native := native e; position := position e; source := source e |}.

Definition with_native (e : DbError) (n : NativeError) : DbError :=
  {| kind := kind e; session_state := session_state e; retryable := retryable e; message := message e;
     native := Some n; position := position e; source := source e |}.

Definition with_position (e : DbError) (p : SqlPosition) : DbError :=
  {| kind := kind e; session_state := session_state e; retryable := retryable e; message := message e;
     native := native e; position := Some p; source := source e |}.

Definition with_source (e : DbError) (m : Message) : DbError :=
  {| kind := kind e; session_state := session_state e; retryable := retryable e; message := message e;
     native := native e; position := position e; source := Some m |}.

Definition connection_closed (handle : str) : DbError :=
  with_session_state (internal (UsedAfterClose handle)) Lost.

Definition is_cancelled (e : DbError) : bool :=
  match kind e with Cancelled => true | _ => false end.

Definition session_may_be_unusable (e : DbError) : bool :=
  match session_state e with Usable => false | _ => true end.

#[global] Instance SessionState_eq_dec : EqDecision SessionState.
Proof. solve_decision. Defined.
