(* ===== verification/Columns.v ===== *)
(** * Column-oriented batches (db-driver-api/src/result.rs)

    What a driver delivers: a [RowBatch] of typed [Column]s, each with the
    bitmask of its NULL rows; text and bytes as one buffer plus offsets.

    A vector is its elements and its capacity, since the result store accounts
    for capacity.  How a vector grows is the allocator's choice, an interface
    ([Alloc]).  A driver's large-object locator is opaque: the type [Loc].
    Binary floats are their bit patterns. *)

From S2P Require Import Prelude RustStr Number Temporal Errors.
Open Scope Z_scope.
Open Scope run_scope.

(** ** Vectors *)

(** What a growing vector asks of the allocator: at least the room needed. *)
Class Alloc := {
  grow : nat -> nat -> nat;
  grow_enough : forall cap needed, (needed <= grow cap needed)%nat;
}.

(** Doubling, from four. *)
#[global, refine] Instance std_alloc : Alloc :=
  {| grow cap needed := (Nat.max (2 * cap) (Nat.max needed 4))%nat |}.
Proof. intros. lia. Defined.

Record vec (A : Type) := mkVec { elems : list A; cap : nat }.
Arguments mkVec {A} _ _.
Arguments elems {A} _.
Arguments cap {A} _.

Definition vec_len {A} (v : vec A) : nat := length (elems v).
Definition vec_new {A} : vec A := mkVec [] 0.
Definition vec_with_capacity {A} (n : nat) : vec A := mkVec [] n.
(** A fresh copy of exactly the elements. *)
Definition to_vec {A} (l : list A) : vec A := mkVec l (length l).

(** The capacity after making room for [extra] more units. *)
Definition reserve `{Alloc} (cap len extra : nat) : nat :=
  if (cap - len <? extra)%nat then grow cap (len + extra) else cap.

Definition vec_push `{Alloc} {A} (v : vec A) (x : A) : vec A :=
  mkVec (elems v ++ [x]) (reserve (cap v) (vec_len v) 1).

Definition vec_ok {A} (v : vec A) : Prop := (vec_len v <= cap v)%nat.

(** ** [NullMask] *)

Record NullMask := mkMask { bits : list Z; mask_len : nat }.

Definition mask_new (n : nat) : NullMask :=
  {| bits := replicate (div_ceil n 64) 0; mask_len := n |}.

(** [self.bits[row / 64] |= 1 << (row % 64)]. *)
Definition set_null (m : NullMask) (row : nat) : run (result NullMask DbError) :=
  if (mask_len m <=? row)%nat then Ret (Err (internal (NullRowOutOfRange row (mask_len m))))
  else
    let! w := of_option (bits m !! (row / 64)%nat) in
    Ret (Ok {| bits := <[(row / 64)%nat := Z.lor w (Z.shiftl 1 (Z.of_nat (row mod 64)))]> (bits m);
               mask_len := mask_len m |}).

(** A word out of range reads as 0; [mask_ok] below excludes it. *)
Definition mask_is_null (m : NullMask) (row : nat) : bool :=
  (row <? mask_len m)%nat &&
  match bits m !! (row / 64)%nat with
  | Some w => Z.land (Z.shiftr w (Z.of_nat (row mod 64))) 1 =? 1
  | None => false
  end.

(** ** Text and bytes: one buffer plus offsets *)

(** What the two buffers have in common: a length and a checked range read. *)
Record Buffer := {
  size : list Z -> nat;
  range : list Z -> nat -> nat -> option (list Z);
  size_nil : size [] = 0%nat;
  size_app : forall a b, size (a ++ b) = (size a + size b)%nat;
  range_middle : forall a b c, range (a ++ b ++ c) (size a) (size a + size b) = Some b;
}.

(** [String]: bytes of UTF-8, and [str::get], which refuses a range off a
    character boundary. *)
Definition text_range (s : str) (a b : nat) : option str :=
  match slice s a b with Ret t => Some t | _ => None end.
#[program] Definition text_buffer : Buffer := {| size := blen; range := text_range |}.
Next Obligation. done. Qed.
Next Obligation. apply blen_app. Qed.
Next Obligation. intros. unfold text_range. by rewrite slice_app. Qed.

(** [Vec<u8>]. *)
Definition bytes_range (s : list Z) (a b : nat) : option (list Z) :=
  if (a <=? b)%nat && (b <=? length s)%nat then Some (take (b - a) (drop a s)) else None.
#[program] Definition bytes_buffer : Buffer := {| size := fun s => length s; range := bytes_range |}.
Next Obligation. done. Qed.
Next Obligation. intros. apply length_app. Qed.
Next Obligation.
  intros a b c. unfold bytes_range. rewrite !length_app.
  rewrite !(proj2 (Nat.leb_le _ _)) by lia. cbn [andb].
  rewrite drop_app_length. replace (_ + _ - _)%nat with (length b) by lia.
  by rewrite take_app_length.
Qed.

Record VarColumn := mkVar { buffer : list Z; buffer_cap : nat; offsets : vec nat }.

Section var_column.
Context (B : Buffer) `{Alloc}.

Definition var_new : VarColumn := {| buffer := []; buffer_cap := 0; offsets := vec_new |}.

Definition var_with_capacity (rows bytes : nat) : VarColumn :=
  {| buffer := []; buffer_cap := bytes; offsets := vec_push (vec_with_capacity (rows + 1)) 0%nat |}.

Definition var_push (c : VarColumn) (x : list Z) : VarColumn :=
  let offs := if (vec_len (offsets c) =? 0)%nat then vec_push (offsets c) 0%nat else offsets c in
  let buf := buffer c ++ x in
  {| buffer := buf;
     buffer_cap := reserve (buffer_cap c) (size B (buffer c)) (size B x);
     offsets := vec_push offs (size B buf) |}.

Definition var_push_null (c : VarColumn) : VarColumn := var_push c [].

Definition var_get (c : VarColumn) (row : nat) : option (list Z) :=
  match elems (offsets c) !! row, elems (offsets c) !! (row + 1)%nat with
  | Some start, Some end_ => range B (buffer c) start end_
  | _, _ => None
  end.

Definition var_len (c : VarColumn) : nat := vec_len (offsets c) - 1.

(** The capacity of both vectors, in bytes; an offset is a 64-bit [usize]. *)
Definition var_heap_bytes (c : VarColumn) : nat := buffer_cap c + cap (offsets c) * 8.

(** [Clone]: exact allocations. *)
Definition var_clone (c : VarColumn) : VarColumn :=
  {| buffer := buffer c; buffer_cap := size B (buffer c); offsets := to_vec (elems (offsets c)) |}.

(** The column holds the values [vs]. *)
Fixpoint offsets_from (at_ : nat) (vs : list (list Z)) : list nat :=
  match vs with [] => [at_] | v :: vs' => at_ :: offsets_from (at_ + size B v) vs' end.

Definition var_holds (c : VarColumn) (vs : list (list Z)) : Prop :=
  buffer c = concat vs /\
  (elems (offsets c) = offsets_from 0 vs \/ (vs = [] /\ elems (offsets c) = [])).

Definition var_ok (c : VarColumn) : Prop :=
  (exists vs, var_holds c vs) /\ (size B (buffer c) <= buffer_cap c)%nat /\ vec_ok (offsets c).

Lemma length_offsets_from at_ vs : length (offsets_from at_ vs) = S (length vs).
Proof. revert at_. induction vs as [|v vs IH]; intros at_; simpl; [done|]. by rewrite IH. Qed.

Lemma offsets_from_snoc at_ vs v :
  offsets_from at_ (vs ++ [v]) = offsets_from at_ vs ++ [(at_ + size B (concat vs) + size B v)%nat].
Proof.
  revert at_. induction vs as [|w vs IH]; intros at_; cbn [offsets_from concat app].
  { rewrite size_nil. f_equal. f_equal. lia. }
  rewrite IH. cbn [app]. rewrite size_app. do 3 f_equal. lia.
Qed.

Lemma offsets_from_lookup at_ vs i :
  (i <= length vs)%nat -> offsets_from at_ vs !! i = Some (at_ + size B (concat (take i vs)))%nat.
Proof.
  revert at_ i. induction vs as [|v vs IH]; intros at_ [|i] Hi; cbn [offsets_from take concat length] in *;
    try lia; simpl lookup.
  - rewrite size_nil. f_equal. lia.
  - rewrite size_nil. f_equal. lia.
  - rewrite IH by lia. rewrite size_app. f_equal. lia.
Qed.

Lemma concat_middle (vs : list (list Z)) i v :
  vs !! i = Some v -> concat vs = concat (take i vs) ++ v ++ concat (drop (S i) vs).
Proof.
  intros E. rewrite <- (take_drop_middle vs i v E) at 1. by rewrite concat_app.
Qed.

Lemma var_get_holds c vs row : var_holds c vs -> var_get c row = vs !! row.
Proof.
  intros [Hb [Ho|[-> Ho]]]; unfold var_get; rewrite Ho; [|done].
  destruct (vs !! row) as [v|] eqn:E.
  - pose proof (lookup_lt_Some _ _ _ E). rewrite !offsets_from_lookup by lia.
    rewrite Hb, (concat_middle vs row v E), Nat.add_1_r.
    rewrite (take_S_r _ _ _ E), concat_app, size_app. cbn [concat]. rewrite app_nil_r.
    apply (range_middle B).
  - apply lookup_ge_None in E. destruct (offsets_from 0 vs !! row); [|done].
    rewrite (proj2 (lookup_ge_None (offsets_from 0 vs) (row + 1))); [done|].
    rewrite length_offsets_from. lia.
Qed.

Lemma var_len_holds c vs : var_holds c vs -> var_len c = length vs.
Proof.
  intros [_ [Ho|[-> Ho]]]; unfold var_len, vec_len; rewrite Ho; [|done].
  rewrite length_offsets_from. lia.
Qed.

Lemma var_push_holds c vs v : var_holds c vs -> var_holds (var_push c v) (vs ++ [v]).
Proof.
  intros [Hb Ho]. split.
  { cbn [buffer var_push]. rewrite Hb, concat_app. simpl. by rewrite app_nil_r. }
  left. cbn [offsets var_push elems vec_push]. rewrite offsets_from_snoc, <- Hb, Nat.add_0_l, <- size_app.
  unfold vec_len. destruct Ho as [Ho|[-> Ho]]; rewrite Ho.
  - rewrite length_offsets_from. cbn [Nat.eqb]. by rewrite Ho.
  - cbn [length Nat.eqb elems vec_push]. rewrite Ho. done.
Qed.

Lemma var_clone_holds c vs : var_holds c vs -> var_holds (var_clone c) vs.
Proof. exact id. Qed.

End var_column.

(** The two instances. *)
Definition TextColumn := VarColumn.
Definition BytesColumn := VarColumn.
Definition text_push `{Alloc} := var_push text_buffer.
Definition bytes_push `{Alloc} := var_push bytes_buffer.
Definition text_get := var_get text_buffer.
Definition bytes_get := var_get bytes_buffer.

(** ** Columns *)

Inductive ColumnKind :=
| KBoolean | KNumber | KFloat | KDouble | KText | KBytes | KTimestamp | KJson | KLob | KUnsupported.

Inductive ColumnData (Loc : Type) :=
| CBoolean (values : vec bool)
| CNumber (values : vec Number)
| CFloat (values : vec Z)
| CDouble (values : vec Z)
| CText (values : TextColumn)
| CBytes (values : BytesColumn)
| CTimestamp (values : vec Timestamp)
| CJson (values : TextColumn)
| CLob (values : vec (option Loc))
| CUnsupported (values : TextColumn).
Arguments CBoolean {Loc} _.
Arguments CNumber {Loc} _.
Arguments CFloat {Loc} _.
Arguments CDouble {Loc} _.
Arguments CText {Loc} _.
Arguments CBytes {Loc} _.
Arguments CTimestamp {Loc} _.
Arguments CJson {Loc} _.
Arguments CLob {Loc} _.
Arguments CUnsupported {Loc} _.

Inductive ValueRef (Loc : Type) :=
| VNull
| VBoolean (b : bool)
| VNumber (n : Number)
| VFloat (f : Z)
| VDouble (f : Z)
| VText (s : str)
| VBytes (b : list Z)
| VTimestamp (t : Timestamp)
| VJson (s : str)
| VLob (l : Loc)
| VUnsupported (s : str)
| VTaken.
Arguments VNull {Loc}.
Arguments VBoolean {Loc} _.
Arguments VNumber {Loc} _.
Arguments VFloat {Loc} _.
Arguments VDouble {Loc} _.
Arguments VText {Loc} _.
Arguments VBytes {Loc} _.
Arguments VTimestamp {Loc} _.
Arguments VJson {Loc} _.
Arguments VLob {Loc} _.
Arguments VUnsupported {Loc} _.
Arguments VTaken {Loc}.

Record Column (Loc : Type) := mkColumn { data : ColumnData Loc; nulls : NullMask }.
Arguments mkColumn {Loc} _ _.
Arguments data {Loc} _.
Arguments nulls {Loc} _.

Record RowBatch (Loc : Type) := mkBatch { columns : list (Column Loc); row_count : nat }.
Arguments mkBatch {Loc} _ _.
Arguments columns {Loc} _.
Arguments row_count {Loc} _.

Section column.
Context {Loc : Type}.
Implicit Types (d : ColumnData Loc) (c : Column Loc) (b : RowBatch Loc).

Definition data_len d : nat :=
  match d with
  | CBoolean v => vec_len v
  | CNumber v => vec_len v
  | CFloat v | CDouble v => vec_len v
  | CText v | CJson v | CUnsupported v => var_len v
  | CBytes v => var_len v
  | CTimestamp v => vec_len v
  | CLob v => vec_len v
  end.

Definition data_kind d : ColumnKind :=
  match d with
  | CBoolean _ => KBoolean
  | CNumber _ => KNumber
  | CFloat _ => KFloat
  | CDouble _ => KDouble
  | CText _ => KText
  | CBytes _ => KBytes
  | CTimestamp _ => KTimestamp
  | CJson _ => KJson
  | CLob _ => KLob
  | CUnsupported _ => KUnsupported
  end.

Definition column_new d (m : NullMask) : result (Column Loc) DbError :=
  if negb (data_len d =? mask_len m)%nat then Err (internal (MaskLengthMismatch (data_len d) (mask_len m)))
  else Ok {| data := d; nulls := m |}.

Definition not_null d : Column Loc := {| data := d; nulls := mask_new (data_len d) |}.

Definition column_len c : nat := data_len (data c).
Definition column_is_null c (row : nat) : bool := mask_is_null (nulls c) row.

Definition is_taken c (row : nat) : bool :=
  match data c with
  | CLob values =>
      (row <? column_len c)%nat && negb (mask_is_null (nulls c) row) &&
      match elems values !! row with Some None => true | _ => false end
  | _ => false
  end.

Definition column_value c (row : nat) : option (ValueRef Loc) :=
  if (column_len c <=? row)%nat then None
  else if mask_is_null (nulls c) row then Some VNull
  else match data c with
  | CBoolean v => VBoolean <$> elems v !! row
  | CNumber v => VNumber <$> elems v !! row
  | CFloat v => VFloat <$> elems v !! row
  | CDouble v => VDouble <$> elems v !! row
  | CText v => VText <$> text_get v row
  | CJson v => VJson <$> text_get v row
  | CBytes v => VBytes <$> bytes_get v row
  | CTimestamp v => VTimestamp <$> elems v !! row
  | CUnsupported v => VUnsupported <$> text_get v row
  | CLob v =>
      match elems v !! row with
      | Some (Some l) => Some (VLob l)
      | Some None => Some VTaken
      | None => None
      end
  end.

(** The locator taken, and the column without it. *)
Definition take_lob c (row : nat) : option Loc * Column Loc :=
  if mask_is_null (nulls c) row then (None, c)
  else match data c with
  | CLob v =>
      match elems v !! row with
      | Some l => (l, {| data := CLob (mkVec (<[row := None]> (elems v)) (cap v)); nulls := nulls c |})
      | None => (None, c)
      end
  | _ => (None, c)
  end.

Definition batch_empty : RowBatch Loc := {| columns := []; row_count := 0 |}.

(** [columns.iter().position(..)], counted from [i]. *)
Fixpoint first_bad (rows : nat) (i : nat) (cs : list (Column Loc)) : option (nat * nat) :=
  match cs with
  | [] => None
  | c :: cs' => if negb (column_len c =? rows)%nat then Some (i, column_len c) else first_bad rows (S i) cs'
  end.

Definition batch_new (cs : list (Column Loc)) : result (RowBatch Loc) DbError :=
  let rows := match cs with [] => 0%nat | c :: _ => column_len c end in
  match first_bad rows 0 cs with
  | Some (bad, n) => Err (internal (ColumnLengthMismatch bad n rows))
  | None => Ok {| columns := cs; row_count := rows |}
  end.

Definition batch_value b (row col : nat) : option (ValueRef Loc) :=
  match columns b !! col with Some c => column_value c row | None => None end.

End column.

(** ** Invariants *)

(** As many words as the rows need, each a [u64], and nothing set past the last
    row. *)
Definition mask_ok (m : NullMask) : Prop :=
  length (bits m) = div_ceil (mask_len m) 64 /\
  Forall (fun w => 0 <= w < 2 ^ 64) (bits m) /\
  (forall i w k, bits m !! i = Some w -> (mask_len m <= i * 64 + k)%nat -> (k < 64)%nat ->
     Z.testbit w (Z.of_nat k) = false).

Definition data_ok {Loc} (d : ColumnData Loc) : Prop :=
  match d with
  | CBoolean v => vec_ok v
  | CNumber v => vec_ok v
  | CFloat v | CDouble v => vec_ok v
  | CText v | CJson v | CUnsupported v => var_ok text_buffer v
  | CBytes v => var_ok bytes_buffer v
  | CTimestamp v => vec_ok v
  | CLob v => vec_ok v
  end.

Definition column_ok {Loc} (c : Column Loc) : Prop :=
  data_ok (data c) /\ mask_ok (nulls c) /\ data_len (data c) = mask_len (nulls c).

Definition batch_ok {Loc} (b : RowBatch Loc) : Prop :=
  Forall (fun c => column_ok c /\ column_len c = row_count b) (columns b).

(** ** The mask *)

Lemma land_one_testbit w k : 0 <= k -> (Z.land (Z.shiftr w k) 1 =? 1) = Z.testbit w k.
Proof.
  intros Hk. change 1 with (Z.ones 1) at 1. rewrite Z.land_ones by lia. change (2 ^ 1) with 2.
  rewrite <- Z.bit0_mod, Z.shiftr_spec, Z.add_0_l by lia. by destruct (Z.testbit w k).
Qed.

Lemma mask_is_null_spec m row :
  mask_is_null m row =
  (row <? mask_len m)%nat &&
  match bits m !! (row / 64)%nat with Some w => Z.testbit w (Z.of_nat (row mod 64)) | None => false end.
Proof.
  unfold mask_is_null. f_equal. destruct (bits m !! _); [|done]. by rewrite land_one_testbit by lia.
Qed.

Lemma div_ceil_spec n row : (row < n)%nat -> (row / 64 < div_ceil n 64)%nat.
Proof.
  intros Hr. unfold div_ceil. pose proof (Nat.div_mod n 64 ltac:(lia)). pose proof (Nat.div_mod row 64 ltac:(lia)).
  pose proof (Nat.mod_upper_bound row 64 ltac:(lia)). pose proof (Nat.mod_upper_bound n 64 ltac:(lia)).
  destruct (n mod 64 =? 0)%nat eqn:E; boolify; nia.
Qed.

Lemma mask_word m row : mask_ok m -> (row < mask_len m)%nat -> is_Some (bits m !! (row / 64)%nat).
Proof. intros [Hl _] Hr. apply lookup_lt_is_Some. rewrite Hl. by apply div_ceil_spec. Qed.

Lemma mask_new_ok n : mask_ok (mask_new n).
Proof.
  split; [by cbn; rewrite length_replicate|]. split; cbn [bits mask_new].
  - apply Forall_replicate. lia.
  - intros i w k E _ _. apply lookup_replicate in E as [-> _]. apply Z.testbit_0_l.
Qed.

Lemma mask_new_null n row : mask_is_null (mask_new n) row = false.
Proof.
  rewrite mask_is_null_spec. destruct (bits _ !! _) as [w|] eqn:E; [|apply andb_false_r].
  cbn [bits mask_new] in E. apply lookup_replicate in E as [-> _]. rewrite Z.testbit_0_l. apply andb_false_r.
Qed.

(** The word with one more bit. *)
Lemma testbit_set w k j : (k < 64)%nat ->
  Z.testbit (Z.lor w (Z.shiftl 1 (Z.of_nat k))) (Z.of_nat j) = (j =? k)%nat || Z.testbit w (Z.of_nat j).
Proof.
  intros Hk. rewrite Z.lor_spec, Z.shiftl_1_l, Z.pow2_bits_eqb by lia. rewrite orb_comm. f_equal.
  destruct (j =? k)%nat eqn:E; boolify; [apply Z.eqb_eq|apply Z.eqb_neq]; lia.
Qed.

Lemma set_bit_bound w k : (k < 64)%nat -> 0 <= w < 2 ^ 64 -> 0 <= Z.lor w (Z.shiftl 1 (Z.of_nat k)) < 2 ^ 64.
Proof.
  intros Hk Hw. rewrite Z.shiftl_1_l. assert (0 < 2 ^ Z.of_nat k) by (apply Z.pow_pos_nonneg; lia).
  assert (0 <= Z.lor w (2 ^ Z.of_nat k)) by (apply Z.lor_nonneg; lia). split; [done|].
  destruct (Z.eq_dec (Z.lor w (2 ^ Z.of_nat k)) 0) as [->|]; [lia|].
  apply Z.log2_lt_pow2; [lia|]. rewrite Z.log2_lor, Z.log2_pow2 by lia.
  apply Z.max_lub_lt; [|lia]. destruct (Z.eq_dec w 0) as [->|]; [simpl; lia|]. apply Z.log2_lt_pow2; lia.
Qed.

Lemma set_null_spec m row :
  mask_ok m -> (row < mask_len m)%nat ->
  exists m', set_null m row = Ret (Ok m') /\ mask_ok m' /\ mask_len m' = mask_len m /\
    forall r, mask_is_null m' r = ((r =? row)%nat || mask_is_null m r).
Proof.
  intros Hok Hr. destruct (mask_word m row Hok Hr) as [w Hw]. destruct Hok as (Hl & Hwords & Hpad).
  unfold set_null. rewrite (proj2 (Nat.leb_gt _ _)), Hw by done. cbn [of_option rbind].
  set (k := (row mod 64)%nat). assert (k < 64)%nat as Hk by (apply Nat.mod_upper_bound; lia).
  pose proof (Nat.div_mod row 64 ltac:(lia)) as Hdm. fold k in Hdm.
  pose proof (lookup_lt_Some _ _ _ Hw) as Hlt.
  eexists. split; [done|]. split; [|split; [done|]].
  - split; [by cbn; rewrite length_insert|]. split; cbn [bits mask_len].
    + apply Forall_insert; [done|]. apply set_bit_bound; [done|]. exact (Forall_lookup_1 _ _ _ _ Hwords Hw).
    + intros i v j E Hi Hj. apply list_lookup_insert_Some in E as [(<- & <- & _)|[_ E]]; [|by eapply Hpad].
      rewrite testbit_set by done. rewrite (Hpad _ _ _ Hw Hi Hj), orb_false_r. apply Nat.eqb_neq. lia.
  - intros r. rewrite !mask_is_null_spec. cbn [bits mask_len].
    pose proof (Nat.div_mod r 64 ltac:(lia)) as Hdr.
    destruct (decide (r / 64 = row / 64)%nat) as [E|E].
    + rewrite E, list_lookup_insert_eq, Hw by done. rewrite testbit_set by done.
      destruct (r =? row)%nat eqn:F; boolify.
      * subst r. rewrite (proj2 (Nat.ltb_lt _ _)) by done. fold k. by rewrite Nat.eqb_refl.
      * cbn [orb]. f_equal. unfold k. rewrite (proj2 (Nat.eqb_neq (r mod 64) _)); [done|]. lia.
    + rewrite list_lookup_insert_ne by done.
      rewrite (proj2 (Nat.eqb_neq r row)); [done|]. intros ->. done.
Qed.

(** ** Batches *)

Lemma first_bad_None {Loc} rows i (cs : list (Column Loc)) :
  first_bad rows i cs = None <-> Forall (fun c => column_len c = rows) cs.
Proof.
  revert i. induction cs as [|c cs IH]; intros i; cbn [first_bad]; [done|].
  rewrite Forall_cons, <- (IH (S i)). destruct (column_len c =? rows)%nat eqn:E; boolify; cbn [negb]; [tauto|].
  split; [done|]. by intros [? _].
Qed.

Lemma text_get_len v row : var_ok text_buffer v -> (row < var_len v)%nat <-> is_Some (text_get v row).
Proof.
  intros [[vs Hv] _]. unfold text_get. rewrite (var_get_holds _ _ _ _ Hv), (var_len_holds _ _ _ Hv).
  by rewrite lookup_lt_is_Some.
Qed.

Lemma column_value_Some {Loc} (c : Column Loc) row :
  column_ok c -> (row < column_len c)%nat -> is_Some (column_value c row).
Proof.
  intros (Hd & _ & _) Hr. unfold column_value. rewrite (proj2 (Nat.leb_gt _ _)) by done.
  destruct (mask_is_null _ _); [done|]. unfold column_len in Hr.
  destruct (data c) as [v|v|v|v|v|v|v|v|v|v]; cbn [data_len data_ok] in *;
    try (apply fmap_is_Some; by apply lookup_lt_is_Some);
    try (apply fmap_is_Some; by apply text_get_len).
  - destruct Hd as [[vs Hv] _]. apply fmap_is_Some. unfold bytes_get. rewrite (var_get_holds _ _ _ _ Hv).
    apply lookup_lt_is_Some. by rewrite <- (var_len_holds _ _ _ Hv).
  - destruct (lookup_lt_is_Some_2 (elems v) row Hr) as [[l|] ->]; done.
Qed.

(** ** The properties *)

(** The NULL mask records exactly the rows marked.  A fresh mask marks none;
    marking a row of the mask marks it and no other, keeps the words past the
    last row zero and never indexes out of the words; a row past the end is
    refused. *)
Theorem null_mask_records_nulls n m row :
  mask_ok m ->
  (mask_ok (mask_new n) /\ forall r, mask_is_null (mask_new n) r = false) /\
  ((row < mask_len m)%nat ->
     exists m', set_null m row = Ret (Ok m') /\ mask_ok m' /\ mask_len m' = mask_len m /\
       forall r, mask_is_null m' r = ((r =? row)%nat || mask_is_null m r)) /\
  ((mask_len m <= row)%nat -> set_null m row = Ret (Err (internal (NullRowOutOfRange row (mask_len m))))).
Proof.
  intros Hok. split; [split; [apply mask_new_ok|intros; apply mask_new_null]|].
  split; [by apply set_null_spec|]. intros Hr. unfold set_null. by rewrite (proj2 (Nat.leb_le _ _)).
Qed.

Lemma null_mask_records_nulls_witness :
  exists m', set_null (mask_new 70) 69 = Ret (Ok m') /\ mask_is_null m' 69 = true /\ mask_is_null m' 5 = false.
Proof.
  destruct (null_mask_records_nulls 70 (mask_new 70) 69 (mask_new_ok 70)) as (_ & H & _).
  destruct (H ltac:(cbn; lia)) as (m' & E & _ & _ & Hn). exists m'. rewrite !Hn.
  split; [done|]. split; [reflexivity|]. vm_compute. reflexivity.
Defined.

(** A variable-length column returns what was pushed.  Pushing values onto
    a fresh column, whatever capacity it was given and however it grows, gives
    a column with that many rows, each reading back the value pushed there, and
    nothing past the end; the text a row reads is always on character
    boundaries.  The same holds of text and of bytes. *)
Theorem var_column_roundtrip `{Alloc} (B : Buffer) (reserved : option (nat * nat)) (vs : list (list Z)) :
  let start := match reserved with Some (r, n) => var_with_capacity r n | None => var_new end in
  let c := fold_left (var_push B) vs start in
  var_len c = length vs /\ forall row, var_get B c row = vs !! row.
Proof.
  intros start c.
  assert (forall vs ws c0, var_holds B c0 ws -> var_holds B (fold_left (var_push B) vs c0) (ws ++ vs)) as Hfold.
  { clear. intros vs. induction vs as [|v vs IH]; intros ws c0 H0; cbn [fold_left]; [by rewrite app_nil_r|].
    rewrite cons_middle, app_assoc. apply IH. by apply var_push_holds. }
  assert (var_holds B start []) as H0.
  { unfold start. destruct reserved as [[r n]|]; split; try done; [by left|by right]. }
  specialize (Hfold vs [] start H0). cbn [app] in Hfold. fold c in Hfold.
  split; [by apply (var_len_holds B)|]. intros row. by apply var_get_holds.
Qed.

(** Taking a large object leaves the row non-NULL: the cell reads as taken,
    every other cell and the mask are unchanged, and the locator cannot be
    taken twice. *)
Theorem take_lob_is_not_null {Loc} (c c' : Column Loc) row l :
  take_lob c row = (Some l, c') ->
  column_value c' row = Some VTaken /\ is_taken c' row = true /\ nulls c' = nulls c /\
  (forall r, r <> row -> column_value c' r = column_value c r) /\
  take_lob c' row = (None, c').
Proof.
  unfold take_lob. destruct (mask_is_null _ _) eqn:En; [done|].
  destruct (data c) as [| | | | | | | |v|] eqn:Ed; try done.
  destruct (elems v !! row) as [x|] eqn:El; [|done]. intros [= -> <-].
  pose proof (lookup_lt_Some _ _ _ El) as Hlt.
  assert (column_len c = vec_len v) as Hlen by (unfold column_len; by rewrite Ed).
  assert (El' : <[row:=None]> (elems v) !! row = Some None) by (by apply list_lookup_insert_eq).
  unfold is_taken, column_value, column_len. cbn [data nulls data_len elems]. unfold vec_len. cbn [elems].
  rewrite length_insert, En, El'. rewrite (proj2 (Nat.leb_gt _ _)), (proj2 (Nat.ltb_lt _ _)) by done.
  split; [done|]. split; [done|]. split; [done|]. split.
  - intros r Hr. rewrite Ed. cbn [data_len]. unfold vec_len. destruct (_ <=? r)%nat; [done|].
    destruct (mask_is_null _ r); [done|]. by rewrite list_lookup_insert_ne.
  - by rewrite list_insert_insert_eq.
Qed.

Lemma take_lob_is_not_null_witness :
  let c := mkColumn (CLob (mkVec [Some 7%nat; None] 2)) (mask_new 2) in
  exists c', take_lob c 0 = (Some 7%nat, c') /\ column_value c' 0 = Some VTaken.
Proof.
  intros c. eexists. split; [reflexivity|]. apply (take_lob_is_not_null c _ 0 7%nat). reflexivity.
Defined.

(** A batch is accepted exactly when its columns have the same number of
    rows; an accepted batch of well-formed columns is well formed, and every
    cell within its rows and columns can be read. *)
Theorem batch_new_checks_lengths {Loc} (cs : list (Column Loc)) :
  Forall column_ok cs ->
  ((exists b, batch_new cs = Ok b) <-> (forall c c', c ∈ cs -> c' ∈ cs -> column_len c = column_len c')) /\
  (forall b, batch_new cs = Ok b -> columns b = cs /\ batch_ok b /\
     forall row col, (row < row_count b)%nat -> (col < length cs)%nat -> is_Some (batch_value b row col)).
Proof.
  intros Hok. unfold batch_new. destruct cs as [|c0 cs]; cbn [first_bad].
  { split; [split; [intros _ ? ? []%not_elem_of_nil|eauto]|]. intros b [= <-].
    split; [done|]. split; [constructor|]. cbn. lia. }
  rewrite Nat.eqb_refl. cbn [negb]. destruct (first_bad _ 1 cs) as [[bad n]|] eqn:E.
  - split; [|done]. split; [by intros [b ?]|]. intros Hall. exfalso.
    assert (first_bad (column_len c0) 1 cs = None) as E'; [|congruence].
    apply first_bad_None, Forall_forall. intros c Hc. apply Hall; [by right|by left].
  - apply first_bad_None in E. assert (Forall (fun c => column_len c = column_len c0) (c0 :: cs)) as E' by (by constructor).
    rewrite Forall_forall in E'. split.
    { split; [|by eauto]. intros _ c c' Hc Hc'. by rewrite (E' c), (E' c'). }
    intros b [= <-]. cbn [columns row_count]. split; [done|]. split.
    + apply Forall_forall. intros c Hc. split; [by eapply Forall_forall|by apply E'].
    + intros row col Hr Hc. unfold batch_value. cbn [columns].
      destruct (lookup_lt_is_Some_2 _ _ Hc) as [c Ec]. rewrite Ec. apply list_elem_of_lookup_2 in Ec.
      apply column_value_Some; [by eapply Forall_forall|]. rewrite (E' c) by done. done.
Qed.

Lemma batch_new_checks_lengths_witness :
  let c := not_null (Loc := nat) (CBoolean (to_vec [true; false])) in
  exists b, batch_new [c; c] = Ok b /\ is_Some (batch_value b 1 1).
Proof.
  intros c. assert (Forall column_ok [c; c]) as H.
  { assert (column_ok c); [|by apply Forall_cons; split; [|apply Forall_cons; split]]. split; [cbn; unfold vec_ok; cbn; lia|].
    split; [apply mask_new_ok|reflexivity]. }
  eexists. split; [reflexivity|]. apply (proj2 (batch_new_checks_lengths [c; c] H)); [reflexivity|cbn; lia..].
Defined.
