(* ===== verification/Segment.v ===== *)
(** * Result segments (db-core/src/store/segment.rs)

    One fetched batch, compacted: the unit the result store retains.  The file
    models the compaction of every column kind, the parking of large-object
    locators through the worker's callback, the reading of a cell and the
    accounting of bytes.

    The sizes of the Rust structs are the compiler's choice: the interface
    [Layout].  The parking callback is the worker's: a function [park] from the
    worker's state [St], the row and the locator to a new state and an id. *)

From S2P Require Import Prelude RustStr Number NumberProps Scaled Temporal Errors Columns.
Open Scope Z_scope.
Open Scope run_scope.

(** [size_of::<T>()] for the structs whose layout is the compiler's choice. *)
Class Layout := {
  size_Number : Z;
  size_Timestamp : Z;
  size_ResultSegment : Z;
  size_SegmentColumn : Z;
  layout_pos : 0 < size_Number /\ 0 < size_Timestamp /\ 0 < size_ResultSegment /\ 0 < size_SegmentColumn;
}.

(** A 64-bit target. *)
#[global, refine] Instance lp64 : Layout :=
  {| size_Number := 44; size_Timestamp := 16; size_ResultSegment := 40; size_SegmentColumn := 88 |}.
Proof. lia. Defined.

(** ** Identifiers (db-core/src/ids.rs) *)

Definition SessionId := Z.
Definition UNOWNED : SessionId := 0.

Record LobHandle := mkLob { lob_session : SessionId; serial : Z }.
Definition from_serial (s : SessionId) (n : Z) : LobHandle := {| lob_session := s; serial := n |}.

(** ** Data *)

Definition LOB_CELL_BYTES : Z := 320.

Inductive NumberStorage :=
| NScaled (values : vec Z) (scale : nat)
| NDecimal (values : vec Number).

Inductive Storage :=
| SBoolean (values : vec bool)
| SNumber (values : NumberStorage)
| SFloat (values : vec Z)
| SDouble (values : vec Z)
| SText (values : TextColumn)
| SBytes (values : BytesColumn)
| STimestamp (values : vec Timestamp)
| SJson (values : TextColumn)
| SUnsupported (values : TextColumn)
| SLob (ids : vec Z).

Record SegmentColumn := mkSegmentColumn { seg_nulls : NullMask; storage : Storage }.

(** Why a large-object cell can no longer be read (store/result_store.rs). *)
Inductive LobUnavailable := LobTransactionEnded | LobSessionEnded | LobResultClosed.

Inductive CellValue :=
| CellNull
| CellBoolean (b : bool)
| CellNumber (n : NumberValue)
| CellFloat (f : Z)
| CellDouble (f : Z)
| CellText (s : str)
| CellBytes (b : list Z)
| CellTimestamp (t : Timestamp)
| CellJson (s : str)
| CellUnsupported (s : str)
| CellLob (h : LobHandle)
| CellLobUnavailable (why : LobUnavailable).

Record ResultSegment := mkSegment {
  seg_session : SessionId;
  rows : nat;
  seg_columns : list SegmentColumn;
  accounted_bytes : Z;
}.

(** ** Reading *)

Definition segment_kind (c : SegmentColumn) : ColumnKind :=
  match storage c with
  | SBoolean _ => KBoolean
  | SNumber _ => KNumber
  | SFloat _ => KFloat
  | SDouble _ => KDouble
  | SText _ => KText
  | SBytes _ => KBytes
  | STimestamp _ => KTimestamp
  | SJson _ => KJson
  | SUnsupported _ => KUnsupported
  | SLob _ => KLob
  end.

Definition segment_column_value (c : SegmentColumn) (session : SessionId) (row : nat) : option CellValue :=
  if (mask_len (seg_nulls c) <=? row)%nat then None
  else if mask_is_null (seg_nulls c) row then Some CellNull
  else match storage c with
  | SBoolean v => CellBoolean <$> elems v !! row
  | SNumber (NScaled v s) =>
      match elems v !! row with
      | Some m => (fun x => CellNumber (ScaledValue x)) <$> scaled_new m s
      | None => None
      end
  | SNumber (NDecimal v) => (fun n => CellNumber (DecimalValue n)) <$> elems v !! row
  | SFloat v => CellFloat <$> elems v !! row
  | SDouble v => CellDouble <$> elems v !! row
  | SText v => CellText <$> text_get v row
  | SBytes v => CellBytes <$> bytes_get v row
  | STimestamp v => CellTimestamp <$> elems v !! row
  | SJson v => CellJson <$> text_get v row
  | SUnsupported v => CellUnsupported <$> text_get v row
  | SLob ids => (fun id => CellLob (from_serial session id)) <$> elems ids !! row
  end.

Definition segment_value (s : ResultSegment) (row col : nat) : option CellValue :=
  match seg_columns s !! col with Some c => segment_column_value c (seg_session s) row | None => None end.

Section compaction.
Context `{Layout} {Loc : Type}.

(** ** Bytes *)

(** [values.capacity() * size_of::<T>()]. *)
Definition vec_bytes {A} (v : vec A) (size : Z) : Z := Z.of_nat (cap v) * size.

Definition segment_column_heap_bytes (c : SegmentColumn) : Z :=
  let nulls := Z.of_nat (length (bits (seg_nulls c))) * 8 in
  let values :=
    match storage c with
    | SBoolean v => vec_bytes v 1
    | SNumber (NScaled v _) => vec_bytes v 8
    | SNumber (NDecimal v) => vec_bytes v size_Number
    | SFloat v => vec_bytes v 4
    | SDouble v => vec_bytes v 8
    | SText v | SJson v | SUnsupported v => Z.of_nat (var_heap_bytes v)
    | SBytes v => Z.of_nat (var_heap_bytes v)
    | STimestamp v => vec_bytes v size_Timestamp
    | SLob ids =>
        let present := length (filter (fun id => id <> 0) (elems ids)) in
        vec_bytes ids 8 + Z.of_nat present * (LOB_CELL_BYTES - 8)
    end in
  nulls + values.

(** ** Compaction *)

(** The batch's own buffers, kept until every column is copied. *)
Definition Spent := list (ColumnData Loc).

Definition exact {A} (v : vec A) (spent : Spent) (wrap : vec A -> ColumnData Loc) : vec A * Spent :=
  if (cap v =? vec_len v)%nat then (v, spent) else (to_vec (elems v), spent ++ [wrap v]).

Definition exact_text (v : TextColumn) (spent : Spent) (wrap : TextColumn -> ColumnData Loc) : TextColumn * Spent :=
  if (var_heap_bytes v =? blen (buffer v) + vec_len (offsets v) * 8)%nat then (v, spent)
  else (var_clone text_buffer v, spent ++ [wrap v]).

Definition exact_bytes (v : BytesColumn) (spent : Spent) : BytesColumn * Spent :=
  if (var_heap_bytes v =? length (buffer v) + vec_len (offsets v) * 8)%nat then (v, spent)
  else (var_clone bytes_buffer v, spent ++ [CBytes v]).

(** The first loop: the largest scale a non-NULL value needs. *)
Fixpoint common_scale (row : nat) (values : list Number) (nulls : NullMask) (scale : nat) : option nat :=
  match values with
  | [] => Some scale
  | value :: rest =>
      if mask_is_null nulls row then common_scale (S row) rest nulls scale
      else match required_scale value with
      | Some needed => common_scale (S row) rest nulls (Nat.max scale needed)
      | None => None
      end
  end.

(** The second: every value at that scale. *)
Fixpoint encode_numbers (row : nat) (values : list Number) (nulls : NullMask) (scale : nat) : option (list Z) :=
  match values with
  | [] => Some []
  | value :: rest =>
      if mask_is_null nulls row then cons 0 <$> encode_numbers (S row) rest nulls scale
      else match from_number value scale with
      | Some cell => cons (mantissa cell) <$> encode_numbers (S row) rest nulls scale
      | None => None
      end
  end.

Definition compact_numbers (v : vec Number) (nulls : NullMask) (spent : Spent) : NumberStorage * Spent :=
  let decimal := let '(v', spent) := exact v spent CNumber in (NDecimal v', spent) in
  match common_scale 0 (elems v) nulls 0 with
  | None => decimal
  | Some scale =>
      match encode_numbers 0 (elems v) nulls scale with
      | None => decimal
      | Some ms => (NScaled (mkVec ms (vec_len v)) scale, spent ++ [CNumber v])
      end
  end.

Context {St : Type} (park : St -> nat -> Loc -> St * result Z DbError).

Fixpoint park_rows (st : St) (row : nat) (ls : list (option Loc)) : St * result (list Z) DbError :=
  match ls with
  | [] => (st, Ok [])
  | None :: rest =>
      let '(st, r) := park_rows st (S row) rest in
      (st, result_bind r (fun ids => Ok (0 :: ids)))
  | Some l :: rest =>
      match park st row l with
      | (st, Ok id) =>
          let '(st, r) := park_rows st (S row) rest in
          (st, result_bind r (fun ids => Ok (id :: ids)))
      | (st, Err e) => (st, Err e)
      end
  end.

Definition compact_data (st : St) (d : ColumnData Loc) (nulls : NullMask) (spent : Spent)
    : St * result (Storage * Spent) DbError :=
  match d with
  | CBoolean v => let '(v, spent) := exact v spent CBoolean in (st, Ok (SBoolean v, spent))
  | CNumber v => let '(v, spent) := compact_numbers v nulls spent in (st, Ok (SNumber v, spent))
  | CFloat v => let '(v, spent) := exact v spent CFloat in (st, Ok (SFloat v, spent))
  | CDouble v => let '(v, spent) := exact v spent CDouble in (st, Ok (SDouble v, spent))
  | CText v => let '(v, spent) := exact_text v spent CText in (st, Ok (SText v, spent))
  | CBytes v => let '(v, spent) := exact_bytes v spent in (st, Ok (SBytes v, spent))
  | CTimestamp v => let '(v, spent) := exact v spent CTimestamp in (st, Ok (STimestamp v, spent))
  | CJson v => let '(v, spent) := exact_text v spent CJson in (st, Ok (SJson v, spent))
  | CUnsupported v => let '(v, spent) := exact_text v spent CUnsupported in (st, Ok (SUnsupported v, spent))
  | CLob ls =>
      let '(st, r) := park_rows st 0 (elems ls) in
      (st, result_bind r (fun ids => Ok (SLob (mkVec ids (vec_len ls)), spent)))
  end.

Fixpoint compact_columns (st : St) (cs : list (Column Loc)) (spent : Spent)
    : St * result (list SegmentColumn) DbError :=
  match cs with
  | [] => (st, Ok [])
  | c :: rest =>
      match compact_data st (data c) (nulls c) spent with
      | (st, Ok (s, spent)) =>
          let '(st, r) := compact_columns st rest spent in
          (st, result_bind r (fun out => Ok ({| seg_nulls := nulls c; storage := s |} :: out)))
      | (st, Err e) => (st, Err e)
      end
  end.

Definition compact_batch (session : SessionId) (st : St) (b : RowBatch Loc) : St * result ResultSegment DbError :=
  let '(st, r) := compact_columns st (columns b) [] in
  (st, result_bind r (fun cs =>
    Ok {| seg_session := session;
          rows := row_count b;
          seg_columns := cs;
          accounted_bytes :=
            size_ResultSegment + 2 * 8 + Z.of_nat (length cs) * size_SegmentColumn +
            foldr Z.add 0 (map segment_column_heap_bytes cs) |})).

End compaction.

(** [ResultSegment::compact]: a batch without large objects, or the batch back. *)
Definition retainable (k : ColumnKind) : bool := match k with KLob => false | _ => true end.

Definition compact `{Layout} {Loc} (b : RowBatch Loc) : result ResultSegment (RowBatch Loc) :=
  if negb (forallb (fun c => retainable (data_kind (data c))) (columns b)) then Err b
  else
    match compact_batch (fun (st : unit) _ _ => (st, Err (internal NoLobToPark))) UNOWNED tt b with
    | (_, Ok s) => Ok s
    | (_, Err _) => Err batch_empty
    end.
