(* ===== verification/SegmentProps.v ===== *)
(** * Compaction loses nothing (db-core/src/store/segment.rs)

    Every cell of a compacted segment reads back the value the driver
    delivered, whatever encoding its column took; a segment holds no spare
    capacity; a [NUMBER] column is scaled exactly when it can be. *)

From S2P Require Import Prelude RustStr Number NumberProps Scaled Temporal Errors Columns Segment.
Open Scope Z_scope.
Open Scope run_scope.

(** ** What a compacted column must satisfy *)

(** The numbers of a column are well formed; only [Number]'s constructors make
    one. *)
Definition numbers_ok {Loc} (d : ColumnData Loc) : Prop :=
  match d with CNumber v => Forall number_ok (elems v) | _ => True end.

Definition vec_exact {A} (v : vec A) : Prop := cap v = vec_len v.
Definition var_exact (B : Buffer) (v : VarColumn) : Prop :=
  buffer_cap v = size B (buffer v) /\ vec_exact (offsets v).

Definition storage_exact (s : Storage) : Prop :=
  match s with
  | SBoolean v => vec_exact v
  | SNumber (NScaled v _) => vec_exact v
  | SNumber (NDecimal v) => vec_exact v
  | SFloat v | SDouble v => vec_exact v
  | SText v | SJson v | SUnsupported v => var_exact text_buffer v
  | SBytes v => var_exact bytes_buffer v
  | STimestamp v => vec_exact v
  | SLob v => vec_exact v
  end.

(** A stored cell stands for the driver's cell.  A parked large object is the
    handle of its id; a locator the driver took back has the id 0, which no
    parked object has. *)
Definition cell_agrees {Loc} (parked : Loc -> Z -> Prop) (session : SessionId)
    (v : ValueRef Loc) (c : CellValue) : Prop :=
  match v, c with
  | VNull, CellNull => True
  | VBoolean b, CellBoolean b' => b = b'
  | VNumber n, CellNumber x => value_to_number x = Ret n /\ value_display x = Ret (display n)
  | VFloat f, CellFloat f' => f = f'
  | VDouble f, CellDouble f' => f = f'
  | VText s, CellText s' => s = s'
  | VBytes s, CellBytes s' => s = s'
  | VTimestamp t, CellTimestamp t' => t = t'
  | VJson s, CellJson s' => s = s'
  | VUnsupported s, CellUnsupported s' => s = s'
  | VLob l, CellLob h => lob_session h = session /\ parked l (serial h)
  | VTaken, CellLob h => h = from_serial session 0
  | _, _ => False
  end.

(** ** Exact allocations *)

Section props.
Context `{Layout} {Loc : Type}.
Implicit Types spent : list (ColumnData Loc).

Lemma exact_spec {A} (v v' : vec A) spent spent' wrap :
  exact v spent wrap = (v', spent') -> elems v' = elems v /\ vec_exact v'.
Proof.
  unfold exact, vec_exact. destruct (_ =? _)%nat eqn:E; boolify; intros [= <- _]; done.
Qed.

Lemma var_exact_case (B : Buffer) v :
  var_ok B v -> var_heap_bytes v = (size B (buffer v) + vec_len (offsets v) * 8)%nat -> var_exact B v.
Proof. unfold var_ok, var_heap_bytes, var_exact, vec_exact, vec_ok. intros (_ & ? & ?) ?. lia. Qed.

Lemma exact_text_spec v v' spent spent' wrap :
  var_ok text_buffer v -> exact_text v spent wrap = (v', spent') ->
  buffer v' = buffer v /\ elems (offsets v') = elems (offsets v) /\ var_exact text_buffer v'.
Proof.
  intros Hok. unfold exact_text. destruct (_ =? _)%nat eqn:E; boolify; intros [= <- _]; [|done].
  split; [done|]. split; [done|]. by apply var_exact_case.
Qed.

Lemma exact_bytes_spec v v' spent spent' :
  var_ok bytes_buffer v -> exact_bytes v spent = (v', spent') ->
  buffer v' = buffer v /\ elems (offsets v') = elems (offsets v) /\ var_exact bytes_buffer v'.
Proof.
  intros Hok. unfold exact_bytes. destruct (_ =? _)%nat eqn:E; boolify; intros [= <- _]; [|done].
  split; [done|]. split; [done|]. by apply var_exact_case.
Qed.

Lemma var_get_same B v v' row :
  buffer v' = buffer v -> elems (offsets v') = elems (offsets v) -> var_get B v' row = var_get B v row.
Proof. unfold var_get. by intros -> ->. Qed.

(** ** Numbers *)

Lemma encode_numbers_lookup row values nulls k ms :
  encode_numbers row values nulls k = Some ms ->
  length ms = length values /\
  forall i n, values !! i = Some n -> mask_is_null nulls (row + i) = false ->
    exists s, from_number n k = Some s /\ ms !! i = Some (mantissa s).
Proof.
  revert row ms. induction values as [|v values IH]; intros row ms; cbn [encode_numbers].
  { intros [= <-]. done. }
  destruct (mask_is_null nulls row) eqn:En; [|destruct (from_number v k) as [s|] eqn:Es; [|done]];
    intros (ms' & E & ->)%fmap_Some; apply IH in E as [Hl Hi]; (split; [simpl; lia|]);
    intros [|i] n; simpl lookup.
  - intros [= <-]. rewrite Nat.add_0_r. congruence.
  - rewrite Nat.add_succ_r, <- Nat.add_succ_l. apply Hi.
  - intros [= <-] _. eauto.
  - rewrite Nat.add_succ_r, <- Nat.add_succ_l. apply Hi.
Qed.

Lemma compact_numbers_agree v nulls spent storage spent' session row n parked :
  Forall number_ok (elems v) ->
  compact_numbers v nulls spent = (storage, spent') ->
  elems v !! row = Some n -> mask_is_null nulls row = false -> (row < mask_len nulls)%nat ->
  exists c, segment_column_value (mkSegmentColumn nulls (SNumber storage)) session row = Some c /\
    cell_agrees (Loc := Loc) parked session (VNumber n) c.
Proof.
  intros Hok E Hn Hnull Hrow. unfold segment_column_value. cbn [seg_nulls Segment.storage].
  rewrite (proj2 (Nat.leb_gt _ _)), Hnull by done.
  assert (Hdec : forall v' sp, exact v spent CNumber = (v', sp) -> storage = NDecimal v' ->
    exists c, match storage with
      | NScaled w k => match elems w !! row with
          | Some m => (fun x => CellNumber (ScaledValue x)) <$> scaled_new m k | None => None end
      | NDecimal w => (fun x => CellNumber (DecimalValue x)) <$> elems w !! row
      end = Some c /\ cell_agrees (Loc := Loc) parked session (VNumber n) c).
  { intros v' sp Ev ->. apply exact_spec in Ev as [-> _]. rewrite Hn. by eexists. }
  unfold compact_numbers in E. destruct (exact v spent CNumber) as [v' sp] eqn:Ev.
  destruct (common_scale _ _ _ _) as [k|]; [|injection E as <- _; by eapply Hdec].
  destruct (encode_numbers _ _ _ _) as [ms|] eqn:Em; [|injection E as <- _; by eapply Hdec].
  injection E as <- _. destruct (encode_numbers_lookup _ _ _ _ _ Em) as [_ Hi].
  destruct (Hi row n Hn Hnull) as (s & Hs & Hm). cbn [elems]. rewrite Hm.
  assert (number_ok n) as Hnok by (eapply Forall_lookup_1; eauto).
  destruct (from_number_ok _ _ _ Hnok Hs) as [Hsok _]. pose proof (from_number_scale _ _ _ Hs) as Hk.
  unfold scaled_new. rewrite (proj2 (Nat.ltb_ge _ _)) by (rewrite <- Hk; apply Hsok).
  eexists. split; [done|]. cbn [cell_agrees value_to_number value_display].
  rewrite <- Hk. destruct s as [m k']. cbn [mantissa scale] in *.
  pose proof (from_number_to_number _ _ _ Hnok Hs) as Ht.
  split; [done|]. by apply scaled_display_to_number.
Qed.

Lemma compact_numbers_exact v nulls spent storage spent' :
  compact_numbers v nulls spent = (storage, spent') -> storage_exact (SNumber storage).
Proof.
  unfold compact_numbers. destruct (exact v spent CNumber) as [v' sp] eqn:Ev.
  apply exact_spec in Ev as [_ Ev].
  destruct (common_scale _ _ _ _) as [k|]; [|by intros [= <- _]].
  destruct (encode_numbers _ _ _ _) as [ms|] eqn:Em; [|by intros [= <- _]].
  intros [= <- _]. apply encode_numbers_lookup in Em as [Hl _].
  cbn. unfold vec_exact, vec_len. cbn. by rewrite Hl.
Qed.

(** Every non-NULL value encodes at scale [k]. *)
Definition encodes (row : nat) (values : list Number) (nulls : NullMask) (k : nat) : Prop :=
  forall i n, values !! i = Some n -> mask_is_null nulls (row + i) = false -> is_Some (from_number n k).

Lemma encodes_cons row v values nulls k :
  encodes row (v :: values) nulls k <->
  (mask_is_null nulls row = false -> is_Some (from_number v k)) /\ encodes (S row) values nulls k.
Proof.
  unfold encodes. split.
  - intros He. split.
    + intros En. apply (He 0%nat v); [done|]. by rewrite Nat.add_0_r.
    + intros i n Hi En. apply (He (S i) n); [done|]. by rewrite Nat.add_succ_r.
  - intros [H1 H2] [|i] n; simpl lookup.
    + intros [= <-]. by rewrite Nat.add_0_r.
    + intros Hi En. apply (H2 i n Hi). by rewrite Nat.add_succ_r in En.
Qed.

Lemma encode_numbers_total row values nulls k :
  encodes row values nulls k <-> is_Some (encode_numbers row values nulls k).
Proof.
  revert row. induction values as [|v values IH]; intros row; cbn [encode_numbers].
  { split; [done|]. by intros _ i n. }
  rewrite encodes_cons, IH. destruct (mask_is_null nulls row) eqn:En; rewrite ?fmap_is_Some.
  - split; [tauto|]. by split.
  - destruct (from_number v k) as [s|]; rewrite ?fmap_is_Some; [|].
    + split; [tauto|]. intros Hs. by split.
    + split; [intros [Hf _]; by destruct (Hf eq_refl)|by intros []].
Qed.

Lemma common_scale_spec row values nulls s0 K :
  Forall number_ok values -> (s0 <= K <= MAX_SCALE)%nat -> encodes row values nulls K ->
  exists k, common_scale row values nulls s0 = Some k /\ (s0 <= k <= K)%nat /\ encodes row values nulls k.
Proof.
  intros Hok. revert row s0. induction Hok as [|v values Hv _ IH]; intros row s0 HK He; cbn [common_scale].
  { exists s0. split; [done|]. split; [lia|]. intros i n Hi. done. }
  apply encodes_cons in He as [H1 H2]. destruct (mask_is_null nulls row) eqn:En.
  { destruct (IH (S row) s0 HK H2) as (k & E & Hk & He). exists k. split; [done|]. split; [done|].
    apply encodes_cons. split; [congruence|done]. }
  destruct (H1 eq_refl) as [s Hs]. destruct (from_number_ok _ _ _ Hv Hs) as [_ Hsc].
  assert (fraction_digits v <= K)%nat as Hf by (apply scales_to_exists; eauto).
  rewrite required_scale_digits, (proj2 (Nat.leb_le _ _)) by lia.
  destruct (IH (S row) (Nat.max s0 (fraction_digits v)) ltac:(lia) H2) as (k & E & Hk & He).
  exists k. split; [done|]. split; [lia|]. apply encodes_cons. split; [|done]. intros _.
  destruct (from_number_smaller v k K s Hv ltac:(lia) Hs) as [s' ->]. done.
Qed.

Lemma common_scale_max row values nulls s0 k :
  common_scale row values nulls s0 = Some k -> (s0 <= MAX_SCALE)%nat -> (k <= MAX_SCALE)%nat.
Proof.
  revert row s0. induction values as [|v values IH]; intros row s0; cbn [common_scale].
  { by intros [= <-]. }
  destruct (mask_is_null nulls row); [by apply IH|]. rewrite required_scale_digits.
  destruct (_ <=? _)%nat eqn:E; boolify; [|done]. intros Hk Hs. apply (IH _ _ Hk). lia.
Qed.

Definition is_scaled (s : NumberStorage) : bool := match s with NScaled _ _ => true | NDecimal _ => false end.

Lemma compact_numbers_scaled v nulls spent :
  Forall number_ok (elems v) ->
  is_scaled (fst (compact_numbers v nulls spent)) = true <->
  exists k, (k <= MAX_SCALE)%nat /\ encodes 0 (elems v) nulls k.
Proof.
  intros Hok. unfold compact_numbers. destruct (exact v spent CNumber) as [v' sp]. split.
  - destruct (common_scale _ _ _ _) as [k|] eqn:Ek; [|done].
    destruct (encode_numbers _ _ _ _) as [ms|] eqn:Em; [|done]. intros _. exists k.
    split; [apply common_scale_max in Ek; [done|unfold MAX_SCALE; lia]|]. apply encode_numbers_total. by rewrite Em.
  - intros (K & HK & He). destruct (common_scale_spec 0 _ nulls 0 K Hok ltac:(lia) He) as (k & -> & _ & He').
    apply encode_numbers_total in He' as [ms ->]. done.
Qed.

(** ** Large objects *)

Context {St : Type} (park : St -> nat -> Loc -> St * result Z DbError).

(** [park] answered [id] for [l], at some point. *)
Definition parked (l : Loc) (id : Z) : Prop := exists st st' row, park st row l = (st', Ok id).

Lemma park_rows_spec st st' row ls ids :
  park_rows park st row ls = (st', Ok ids) ->
  Forall2 (fun l id => match l with None => id = 0 | Some l => parked l id end) ls ids.
Proof.
  revert st row ids. induction ls as [|l ls IH]; intros st row ids; cbn [park_rows].
  { intros [= _ <-]. constructor. }
  destruct l as [l|].
  - destruct (park st row l) as [st1 [id|e]] eqn:Ep; [|done].
    destruct (park_rows park st1 (S row) ls) as [st2 [out|e]] eqn:E; [|done].
    cbn [result_bind]. intros [= -> <-]. constructor; [by do 3 eexists|by eapply IH].
  - destruct (park_rows park st (S row) ls) as [st2 [out|e]] eqn:E; [|done].
    cbn [result_bind]. intros [= -> <-]. constructor; [done|by eapply IH].
Qed.

Lemma park_rows_total st row ls :
  (forall st row l, exists st' id, park st row l = (st', Ok id)) ->
  exists st' ids, park_rows park st row ls = (st', Ok ids).
Proof.
  intros Hp. revert st row. induction ls as [|[l|] ls IH]; intros st row; cbn [park_rows]; [eauto|..].
  - destruct (Hp st row l) as (st1 & id & ->). destruct (IH st1 (S row)) as (st2 & ids & ->). cbn. eauto.
  - destruct (IH st (S row)) as (st2 & ids & ->). cbn. eauto.
Qed.

(** ** One column *)

Lemma compact_data_agrees st st' c s spent spent' session row :
  column_ok c -> numbers_ok (data c) ->
  compact_data park st (data c) (nulls c) spent = (st', Ok (s, spent')) ->
  option_Forall2 (cell_agrees parked session)
    (column_value c row) (segment_column_value (mkSegmentColumn (nulls c) s) session row).
Proof.
  intros (Hd & Hm & Hlen) Hn E. unfold column_value, column_len. rewrite Hlen.
  destruct (_ <=? row)%nat eqn:Er; boolify.
  { unfold segment_column_value. cbn [seg_nulls]. rewrite (proj2 (Nat.leb_le _ _)) by done. constructor. }
  destruct (mask_is_null (nulls c) row) eqn:En.
  { unfold segment_column_value. cbn [seg_nulls]. rewrite (proj2 (Nat.leb_gt _ _)), En by done. by constructor. }
  assert (Hsame : forall {A} (f : A -> ValueRef Loc) (g : A -> CellValue) (o : option A),
    (forall a, cell_agrees parked session (f a) (g a)) -> option_Forall2 (cell_agrees parked session) (f <$> o) (g <$> o)).
  { intros A f g [a|] Ha; constructor. apply Ha. }
  destruct (data c) as [v|v|v|v|v|v|v|v|v|v] eqn:Ed; cbn [compact_data data_ok data_len] in *;
    try (destruct (exact v spent _) as [v' sp] eqn:Ev; apply exact_spec in Ev as [Ev _];
         injection E as _ <- _);
    try (destruct (exact_text v spent _) as [v' sp] eqn:Ev; apply exact_text_spec in Ev as (Eb & Eo & _); [|done];
         injection E as _ <- _);
    try (destruct (exact_bytes v spent) as [v' sp] eqn:Ev; apply exact_bytes_spec in Ev as (Eb & Eo & _); [|done];
         injection E as _ <- _).
  2: { destruct (compact_numbers v (nulls c) spent) as [ns sp] eqn:Ev. injection E as _ <- _.
       destruct (lookup_lt_is_Some_2 (elems v) row) as [n En']; [rewrite <- Hlen in Er; done|].
       destruct (compact_numbers_agree _ _ _ _ _ session row n parked Hn Ev En' En Er) as (cell & -> & Hc).
       rewrite En'. by constructor. }
  8: { destruct (park_rows park st 0 (elems v)) as [st1 [ids|e]] eqn:Ep; [|done]. cbn [result_bind] in E.
       injection E as _ <- _. apply park_rows_spec in Ep.
       unfold segment_column_value. cbn [seg_nulls storage elems].
       rewrite (proj2 (Nat.leb_gt _ _)), En by done.
       destruct (lookup_lt_is_Some_2 (elems v) row) as [l El]; [rewrite <- Hlen in Er; done|].
       destruct (Forall2_lookup_l _ _ _ _ _ Ep El) as (id & -> & Hid). rewrite El.
       destruct l as [l|]; constructor; [by split|by subst id]. }
  all: unfold segment_column_value; cbn [seg_nulls storage]; rewrite (proj2 (Nat.leb_gt _ _)), En by done;
    unfold text_get, bytes_get; rewrite ?Ev, ?(var_get_same _ _ _ row Eb Eo); by apply Hsame.
Qed.

Lemma compact_data_exact st st' d m s spent spent' :
  data_ok d -> compact_data park st d m spent = (st', Ok (s, spent')) -> storage_exact s.
Proof.
  intros Hd E. destruct d as [v|v|v|v|v|v|v|v|v|v]; cbn [compact_data data_ok] in *;
    try (destruct (exact v spent _) as [v' sp] eqn:Ev; apply exact_spec in Ev as [_ Ev]; by injection E as _ <- _);
    try (destruct (exact_text v spent _) as [v' sp] eqn:Ev; apply exact_text_spec in Ev as (_ & _ & Ev); [|done];
         by injection E as _ <- _);
    try (destruct (exact_bytes v spent) as [v' sp] eqn:Ev; apply exact_bytes_spec in Ev as (_ & _ & Ev); [|done];
         by injection E as _ <- _).
  - destruct (compact_numbers v m spent) as [ns sp] eqn:Ev. injection E as _ <- _.
    by eapply compact_numbers_exact.
  - destruct (park_rows park st 0 (elems v)) as [st1 [ids|e]] eqn:Ep; [|done]. injection E as _ <- _.
    apply park_rows_spec, Forall2_length in Ep. cbn. unfold vec_exact, vec_len. cbn. by rewrite Ep.
Qed.

Lemma compact_data_kind st st' d m s spent spent' :
  compact_data park st d m spent = (st', Ok (s, spent')) -> segment_kind (mkSegmentColumn m s) = data_kind d.
Proof.
  destruct d as [v|v|v|v|v|v|v|v|v|v]; cbn [compact_data data_kind].
  all: try (destruct (exact v spent _)); try (destruct (exact_text v spent _));
    try (destruct (exact_bytes v spent)); try (destruct (compact_numbers v m spent)); try (by intros [= _ <- _]).
  destruct (park_rows park st 0 (elems v)) as [st1 [ids|e]]; [|done]. by intros [= _ <- _].
Qed.

(** ** The columns of a batch *)

Definition column_compacted (session : SessionId) (c : Column Loc) (sc : SegmentColumn) : Prop :=
  seg_nulls sc = nulls c /\ segment_kind sc = data_kind (data c) /\ storage_exact (storage sc) /\
  forall row, option_Forall2 (cell_agrees parked session) (column_value c row) (segment_column_value sc session row).

Lemma compact_columns_spec session st st' cs spent out :
  Forall (fun c => column_ok c /\ numbers_ok (data c)) cs ->
  compact_columns park st cs spent = (st', Ok out) -> Forall2 (column_compacted session) cs out.
Proof.
  intros Hok. revert st spent out. induction Hok as [|c cs [Hc Hn] _ IH]; intros st spent out; cbn [compact_columns].
  { intros [= _ <-]. constructor. }
  destruct (compact_data park st (data c) (nulls c) spent) as [st1 [[s sp]|e]] eqn:E; [|done].
  destruct (compact_columns park st1 cs sp) as [st2 [rest|e]] eqn:Er; [|done].
  cbn [result_bind]. intros [= -> <-]. constructor; [|by eapply IH].
  split; [done|]. split; [by eapply compact_data_kind|]. split; [eapply compact_data_exact; [apply Hc|done]|].
  intros row. by eapply compact_data_agrees.
Qed.

Lemma compact_columns_total st cs spent :
  (forall st row l, exists st' id, park st row l = (st', Ok id)) \/
    Forall (fun c => data_kind (data c) <> KLob) cs ->
  exists st' out, compact_columns park st cs spent = (st', Ok out).
Proof.
  intros Hp. revert st spent. induction cs as [|c cs IH]; intros st spent; cbn [compact_columns]; [eauto|].
  assert (exists st1 s sp, compact_data park st (data c) (nulls c) spent = (st1, Ok (s, sp))) as (st1 & s & sp & ->).
  { destruct (data c) as [v|v|v|v|v|v|v|v|v|v] eqn:Ed; cbn [compact_data].
    all: try (destruct (exact v spent _)); try (destruct (exact_text v spent _));
      try (destruct (exact_bytes v spent)); try (destruct (compact_numbers v (nulls c) spent)); eauto.
    destruct Hp as [Hp|Hp].
    - destruct (park_rows_total st 0 (elems v) Hp) as (st1 & ids & ->). cbn. eauto.
    - apply Forall_cons in Hp as [Hp _]. by rewrite Ed in Hp. }
  destruct (IH ltac:(destruct Hp as [|[_ ?]%Forall_cons]; [by left|by right]) st1 sp) as (st2 & out & ->).
  cbn. eauto.
Qed.
End props.

(** ** The properties *)

(** The bytes of the contents alone: every vector counted at its length. *)
Definition content_bytes `{Layout} (c : SegmentColumn) : Z :=
  Z.of_nat (length (bits (seg_nulls c))) * 8 +
  match storage c with
  | SBoolean v => Z.of_nat (vec_len v)
  | SNumber (NScaled v _) => Z.of_nat (vec_len v) * 8
  | SNumber (NDecimal v) => Z.of_nat (vec_len v) * size_Number
  | SFloat v => Z.of_nat (vec_len v) * 4
  | SDouble v => Z.of_nat (vec_len v) * 8
  | SText v | SJson v | SUnsupported v => Z.of_nat (blen (buffer v) + vec_len (offsets v) * 8)
  | SBytes v => Z.of_nat (length (buffer v) + vec_len (offsets v) * 8)
  | STimestamp v => Z.of_nat (vec_len v) * size_Timestamp
  | SLob ids => Z.of_nat (vec_len ids) * 8 + Z.of_nat (length (filter (fun id => id <> 0) (elems ids))) * (LOB_CELL_BYTES - 8)
  end.

Lemma exact_heap_bytes `{Layout} c : storage_exact (storage c) -> segment_column_heap_bytes c = content_bytes c.
Proof.
  unfold segment_column_heap_bytes, content_bytes, vec_bytes. cbv zeta.
  destruct (storage c) as [v|[v k|v]|v|v|v|v|v|v|v|v]; cbn [storage_exact]; unfold var_exact, vec_exact, var_heap_bytes;
    try (intros ->; lia); intros [-> ->]; done.
Qed.

(** A batch the store may be handed. *)
Definition compactable {Loc} (b : RowBatch Loc) : Prop :=
  batch_ok b /\ Forall (fun c => numbers_ok (data c)) (columns b).

Lemma compactable_columns {Loc} (b : RowBatch Loc) :
  compactable b -> Forall (fun c => column_ok c /\ numbers_ok (data c)) (columns b).
Proof.
  intros [Hb Hn]. unfold batch_ok in Hb. rewrite Forall_forall in Hb, Hn. apply Forall_forall. intros c Hc.
  split; [by apply Hb|by apply Hn].
Qed.

Lemma compact_batch_Ok `{Layout} {Loc St} (park : St -> nat -> Loc -> St * result Z DbError) session st st' b seg :
  compactable b -> compact_batch park session st b = (st', Ok seg) ->
  rows seg = row_count b /\ seg_session seg = session /\
  Forall2 (column_compacted park session) (columns b) (seg_columns seg) /\
  accounted_bytes seg =
    size_ResultSegment + 2 * 8 + Z.of_nat (length (seg_columns seg)) * size_SegmentColumn +
    foldr Z.add 0 (map segment_column_heap_bytes (seg_columns seg)).
Proof.
  intros Hb%compactable_columns. unfold compact_batch.
  destruct (compact_columns park st (columns b) []) as [st1 [cs|e]] eqn:E; [|done].
  cbn [result_bind]. intros [= -> <-]. cbn. split; [done|]. split; [done|]. split; [|done].
  by eapply compact_columns_spec.
Qed.

Lemma column_compacted_value `{Layout} {Loc St} (park : St -> nat -> Loc -> St * result Z DbError) seg b row col :
  Forall2 (column_compacted park (seg_session seg)) (columns b) (seg_columns seg) ->
  option_Forall2 (cell_agrees (parked park) (seg_session seg)) (batch_value b row col) (segment_value seg row col).
Proof.
  intros Hc. unfold batch_value, segment_value. destruct (columns b !! col) as [c|] eqn:Ec.
  - destruct (Forall2_lookup_l _ _ _ _ _ Hc Ec) as (sc & -> & _ & _ & _ & Hv). apply Hv.
  - apply lookup_ge_None in Ec. rewrite (Forall2_length _ _ _ Hc) in Ec.
    rewrite (proj2 (lookup_ge_None _ _) Ec). constructor.
Qed.

(** C5: compaction loses nothing.  A batch of well-formed columns compacts to a
    segment with the same rows and columns in which every cell, in range or
    not, reads back the driver's value: NULL as NULL, a number to the exact
    number and the same text whether or not its column was scaled, text and
    bytes unchanged, a large object as the handle of the id it was parked
    under and never as NULL. *)
Theorem compaction_lossless `{Layout} {Loc St} (park : St -> nat -> Loc -> St * result Z DbError) session st st' b seg :
  compactable b -> compact_batch park session st b = (st', Ok seg) ->
  rows seg = row_count b /\ length (seg_columns seg) = length (columns b) /\
  forall row col,
    option_Forall2 (cell_agrees (parked park) session) (batch_value b row col) (segment_value seg row col).
Proof.
  intros Hb E. destruct (compact_batch_Ok _ _ _ _ _ _ Hb E) as (Hr & <- & Hc & _).
  split; [done|]. split; [by rewrite (Forall2_length _ _ _ Hc)|]. intros row col.
  by apply column_compacted_value.
Qed.

Definition sample_batch : RowBatch nat :=
  {| columns := [not_null (CNumber (mkVec [make false [1; 5] 1; make true [2] 2] 4));
                 not_null (CLob (to_vec [Some 7%nat; None]))];
     row_count := 2 |}.

Lemma sample_number_ok : Forall number_ok [make false [1; 5] 1; make true [2] 2].
Proof.
  apply Forall_cons; split; [|apply Forall_cons; split; [|constructor]];
    (apply number_ok_make; [|vm_compute; lia|vm_compute; split; discriminate]).
  - split; [repeat constructor; lia|by exists 1, [5]|by exists 5, [1]].
  - split; [repeat constructor; lia|by exists 2, []|by exists 2, []].
Qed.

Lemma sample_compactable : compactable sample_batch.
Proof.
  split.
  - apply Forall_cons; split; [|apply Forall_cons; split; [|constructor]];
      (split; [|reflexivity]); (split; [cbn; unfold vec_ok; cbn; lia|]); (split; [apply mask_new_ok|reflexivity]).
  - apply Forall_cons; split; [apply sample_number_ok|]. apply Forall_cons; split; [done|constructor].
Qed.

Definition sample_park (st : Z) (row : nat) (l : nat) : Z * result Z DbError := (st + 1, Ok st).

Lemma compaction_lossless_witness :
  exists seg, compact_batch sample_park 9 1 sample_batch = (2, Ok seg) /\
    segment_value seg 0 0 = Some (CellNumber (ScaledValue {| mantissa := 15; scale := 1 |})) /\
    rows seg = 2%nat.
Proof.
  eexists. split; [reflexivity|]. split; [reflexivity|].
  eapply (proj1 (compaction_lossless sample_park 9 1 2 sample_batch _ sample_compactable eq_refl)).
Defined.

(** A segment holds nothing spare.  Whatever capacity the driver's vectors
    had, the bytes a segment is accounted at are the bytes of its contents and
    its own structs, each present large object counted at its charge. *)
Theorem segment_bytes_are_contents `{Layout} {Loc St} (park : St -> nat -> Loc -> St * result Z DbError) session st st' b seg :
  compactable b -> compact_batch park session st b = (st', Ok seg) ->
  accounted_bytes seg =
    size_ResultSegment + 16 + Z.of_nat (length (columns b)) * size_SegmentColumn +
    foldr Z.add 0 (map content_bytes (seg_columns seg)).
Proof.
  intros Hb E. destruct (compact_batch_Ok _ _ _ _ _ _ Hb E) as (_ & _ & Hc & ->).
  rewrite <- (Forall2_length _ _ _ Hc). f_equal. clear E. induction Hc as [|c sc cs scs Hcc _ IH]; simpl; [done|].
  rewrite IH. f_equal. apply exact_heap_bytes. apply Hcc.
Qed.

Lemma segment_bytes_are_contents_witness :
  exists seg, compact_batch sample_park 9 1 sample_batch = (2, Ok seg) /\
    accounted_bytes seg = 40 + 16 + 2 * 88 + ((8 + 16) + (8 + 16 + 312)).
Proof.
  eexists. split; [reflexivity|].
  rewrite (segment_bytes_are_contents sample_park 9 1 2 sample_batch _ sample_compactable eq_refl). reflexivity.
Defined.

(** Compaction fails only when parking does.  When every locator is parked
    a batch compacts; and [compact], which parks nothing, accepts exactly the
    batches without large objects and hands any other batch back unchanged. *)
Theorem compaction_total `{Layout} {Loc St} (park : St -> nat -> Loc -> St * result Z DbError) session st b :
  (forall st row l, exists st' id, park st row l = (st', Ok id)) ->
  (exists st' seg, compact_batch park session st b = (st', Ok seg)) /\
  (if forallb (fun c => retainable (data_kind (data c))) (columns b)
   then exists seg, compact b = Ok seg else compact b = Err b).
Proof.
  intros Hp. split.
  - unfold compact_batch. destruct (compact_columns_total park st (columns b) [] (or_introl Hp)) as (st' & cs & ->).
    cbn. eauto.
  - unfold compact. destruct (forallb _ _) eqn:E; cbn [negb]; [|done]. unfold compact_batch.
    set (nopark := fun (st : unit) (_ : nat) (_ : Loc) => (st, Err (internal NoLobToPark))).
    destruct (compact_columns_total nopark tt (columns b) []) as (st' & cs & ->).
    + right. rewrite forallb_forall in E. apply Forall_forall. intros c Hc.
      specialize (E c ltac:(by apply list_elem_of_In)). by destruct (data_kind (data c)).
    + cbn. eauto.
Qed.

Lemma compaction_total_witness :
  (exists st' seg, compact_batch sample_park 9 1 sample_batch = (st', Ok seg)) /\ compact sample_batch = Err sample_batch.
Proof.
  destruct (compaction_total sample_park 9 1 sample_batch) as [H1 H2]; [by do 2 eexists|]. by split.
Defined.

(** A [NUMBER] column is kept scaled exactly when some scale up to 18 fits
    every non-NULL value of the segment in an [i64]; the scale the code picks,
    the largest one a value needs, is never the reason it falls back. *)
Theorem number_column_scaled_when_possible {Loc} (v : vec Number) nulls (spent : list (ColumnData Loc)) :
  Forall number_ok (elems v) ->
  is_scaled (fst (compact_numbers v nulls spent)) = true <->
  exists k, (k <= MAX_SCALE)%nat /\ encodes 0 (elems v) nulls k.
Proof. apply compact_numbers_scaled. Qed.

Lemma number_column_scaled_when_possible_witness :
  exists k, (k <= MAX_SCALE)%nat /\ encodes 0 [make false [1; 5] 1; make true [2] 2] (mask_new 2) k.
Proof.
  apply (number_column_scaled_when_possible (Loc := nat) (to_vec [make false [1; 5] 1; make true [2] 2]) (mask_new 2) []).
  - apply sample_number_ok.
  - reflexivity.
Defined.
