(* ===== verification/Policy.v ===== *)
(** * Caps and fetch settings (db-core/src/store/policy.rs)

    What one result store runs under: the row and byte caps with where each
    came from, the sizes of a fetch, and the row width declared by the describe
    that the first round trip is sized by.  A [usize] is a [Z]; a
    [NonZeroUsize] one that is at least 1, which [policy_ok] states. *)

From S2P Require Import Prelude RustStr Columns Segment.
Open Scope Z_scope.

(** ** Column descriptions (db-driver-api/src/types.rs) *)

Inductive SqlType :=
| TBoolean
| TNumber
| TBinaryFloat
| TBinaryDouble
| TText (national fixed_length : bool)
| TDate
| TTimestamp
| TTimestampWithTimeZone
| TRaw
| TCharacterLob (national : bool)
| TBinaryLob
| TJson
| TCursor
| TUnsupported.

Definition is_lob (t : SqlType) : bool :=
  match t with TCharacterLob _ | TBinaryLob => true | _ => false end.
Definition is_text (t : SqlType) : bool :=
  match t with TText _ _ | TJson => true | _ => false end.

Record ColumnMetadata := mkMetadata {
  meta_name : str;
  sql_type : SqlType;
  nullable : option bool;
  precision : option Z;
  meta_scale : option Z;
  max_size_bytes : option Z;
  native_type_name : option str;
}.

Definition metadata_new (name : str) (t : SqlType) : ColumnMetadata :=
  {| meta_name := name; sql_type := t; nullable := None; precision := None; meta_scale := None;
     max_size_bytes := None; native_type_name := None |}.

Definition with_max_size_bytes (c : ColumnMetadata) (n : Z) : ColumnMetadata :=
  {| meta_name := meta_name c; sql_type := sql_type c; nullable := nullable c; precision := precision c;
     meta_scale := meta_scale c; max_size_bytes := Some n; native_type_name := native_type_name c |}.

(** ** Caps *)

Definition DEFAULT_FETCH_ROWS : Z := 1000.
Definition GRID_ROW_CEILING : Z := 2147483647.
Definition DEFAULT_ROUND_TRIP_BYTES : Z := 192 * 1024.
Definition DEFAULT_FETCHES_IN_FLIGHT : Z := 2.
Definition UNKNOWN_VARIABLE_WIDTH : Z := 4000.
Definition UNSUPPORTED_MIN_WIDTH : Z := 64.

Inductive Cap :=
| At (value : Z)
| Unlimited.

Definition limit (c : Cap) : option Z := match c with At v => Some v | Unlimited => None end.

Definition cap_raised_by (c step : Cap) : Cap :=
  match c, step with At v, At s => At (sat_add v s) | _, _ => Unlimited end.

Inductive CapSource := BuiltIn | Application | Profile | Worksheet | FetchMoreSource.

Record Sourced (T : Type) := mkSourced { value : T; source : CapSource }.
Arguments mkSourced {T} _ _.
Arguments value {T} _.
Arguments source {T} _.

Record ResultCaps := mkCaps {
  max_rows : Sourced Cap;
  max_bytes : Sourced Cap;
  close_cursor_at_limit : Sourced bool;
}.

Definition caps_new (rows bytes : Sourced Cap) : ResultCaps :=
  {| max_rows := rows; max_bytes := bytes; close_cursor_at_limit := mkSourced false BuiltIn |}.

Definition with_close_cursor_at_limit (c : ResultCaps) (close : Sourced bool) : ResultCaps :=
  {| max_rows := max_rows c; max_bytes := max_bytes c; close_cursor_at_limit := close |}.

Definition raised_by (c steps : ResultCaps) : ResultCaps :=
  {| max_rows := mkSourced (cap_raised_by (value (max_rows c)) (value (max_rows steps))) FetchMoreSource;
     max_bytes := mkSourced (cap_raised_by (value (max_bytes c)) (value (max_bytes steps))) FetchMoreSource;
     close_cursor_at_limit := close_cursor_at_limit c |}.

Definition lifted (c : ResultCaps) : ResultCaps :=
  {| max_rows := mkSourced Unlimited FetchMoreSource;
     max_bytes := mkSourced Unlimited FetchMoreSource;
     close_cursor_at_limit := close_cursor_at_limit c |}.

Record ResultPolicy := mkPolicy {
  policy_caps : ResultCaps;
  fetch_rows : Z;
  fetches_in_flight : Z;
  round_trip_bytes : Z;
}.

Definition policy_new (c : ResultCaps) : ResultPolicy :=
  {| policy_caps := c; fetch_rows := DEFAULT_FETCH_ROWS; fetches_in_flight := DEFAULT_FETCHES_IN_FLIGHT;
     round_trip_bytes := DEFAULT_ROUND_TRIP_BYTES |}.

Definition with_fetch_rows (p : ResultPolicy) (n : Z) : ResultPolicy :=
  {| policy_caps := policy_caps p; fetch_rows := n; fetches_in_flight := fetches_in_flight p;
     round_trip_bytes := round_trip_bytes p |}.
Definition with_fetches_in_flight (p : ResultPolicy) (n : Z) : ResultPolicy :=
  {| policy_caps := policy_caps p; fetch_rows := fetch_rows p; fetches_in_flight := n;
     round_trip_bytes := round_trip_bytes p |}.
Definition with_round_trip_bytes (p : ResultPolicy) (n : Z) : ResultPolicy :=
  {| policy_caps := policy_caps p; fetch_rows := fetch_rows p; fetches_in_flight := fetches_in_flight p;
     round_trip_bytes := n |}.

(** ** The declared row width *)

Section width.
Context `{Layout}.

Definition variable_width (c : ColumnMetadata) : Z :=
  sat_add (match max_size_bytes c with None => UNKNOWN_VARIABLE_WIDTH | Some n => n end) 8.

Definition declared_cell_width (c : ColumnMetadata) : Z :=
  match sql_type c with
  | TBoolean => 1
  | TNumber => size_Number
  | TBinaryFloat => 4
  | TBinaryDouble => 8
  | TDate | TTimestamp | TTimestampWithTimeZone => size_Timestamp
  | TCharacterLob _ | TBinaryLob => LOB_CELL_BYTES
  | TUnsupported => Z.max (variable_width c) (UNSUPPORTED_MIN_WIDTH + 8)
  | _ => variable_width c
  end.

Definition declared_row_width (columns : list ColumnMetadata) : Z :=
  let cells := fold_left (fun width c => sat_add width (declared_cell_width c)) columns 0 in
  Z.max (sat_add cells (Z.of_nat (div_ceil (length columns) 8))) 1.

Lemma declared_row_width_pos columns : 1 <= declared_row_width columns.
Proof. unfold declared_row_width. lia. Qed.

Lemma declared_row_width_usize columns : declared_row_width columns <= usize_max.
Proof. unfold declared_row_width, sat_add, usize_max. lia. Qed.
End width.

(** ** Well-formed policies *)

Definition cap_ok (c : Cap) : Prop := match c with At v => 1 <= v <= usize_max | Unlimited => True end.

Definition caps_ok (c : ResultCaps) : Prop := cap_ok (value (max_rows c)) /\ cap_ok (value (max_bytes c)).

Record policy_ok (p : ResultPolicy) : Prop := {
  policy_caps_ok : caps_ok (policy_caps p);
  policy_fetch_rows : 1 <= fetch_rows p <= usize_max;
  policy_in_flight : 1 <= fetches_in_flight p <= usize_max;
  policy_round_trip : 1 <= round_trip_bytes p <= usize_max;
}.

Lemma cap_raised_ok c s : cap_ok c -> cap_ok s -> cap_ok (cap_raised_by c s).
Proof. destruct c, s; simpl; try done. unfold sat_add, usize_max. lia. Qed.

Lemma raised_ok c s : caps_ok c -> caps_ok s -> caps_ok (raised_by c s).
Proof. intros [] []. split; by apply cap_raised_ok. Qed.

Lemma lifted_ok c : caps_ok (lifted c).
Proof. done. Qed.

(** The order of caps: no limit is the largest. *)
Definition cap_le (a b : Cap) : Prop :=
  match a, b with _, Unlimited => True | At v, At w => v <= w | Unlimited, At _ => False end.

Lemma cap_le_raised c s : cap_ok c -> cap_ok s -> cap_le c (cap_raised_by c s).
Proof. destruct c, s; simpl; try done. unfold sat_add, usize_max. lia. Qed.
