(* ===== verification/ResultStore.v ===== *)
(** * The result store (db-core/src/store/result_store.rs)

    One open result's retained prefix: the segments fetched so far, the fetch
    policy, the fetches in flight and the state a reader is shown.  The file
    models the whole store: every input of the view and the session, the
    decision of what to fetch next, the pump that submits it, the handling of
    replies, and the reads.

    Counters are [Z]; that they stay within a [usize] is a theorem of
    ResultStoreProps.  A division by zero and a debug assertion are [Panic].
    [debug] is [cfg!(debug_assertions)].  The growth of the two index vectors is
    the allocator's ([Alloc]). *)

From S2P Require Import Prelude RustStr Errors Columns Segment Policy.
Open Scope Z_scope.
Open Scope run_scope.

(** ** Data *)

(** A result set of a session (db-core/src/ids.rs). *)
Record ResultId := mkResultId { owner : SessionId; result_set : Z }.
#[global] Instance ResultId_eq_dec : EqDecision ResultId.
Proof. solve_decision. Defined.

Record FetchTicket := mkTicket { ticket_result : ResultId; ticket_sequence : Z }.
Record FetchRequest := mkRequest { ticket : FetchTicket; request_rows : Z }.

Inductive StoreAction :=
| Fetch (f : FetchRequest)
| CloseResult (r : ResultId).

Record SegmentReply := mkReply { segment : ResultSegment; reply_exhausted : bool }.

Inductive LimitKind := Rows | Bytes | RowCeiling.
Inductive MoreRows := Yes | UnknownMore.
Inductive EndCause := SessionEnded | TransactionEnded | Discarded.
Inductive LobCell := Readable (h : LobHandle) | Unavailable (why : LobUnavailable).

Inductive ResultPhase :=
| PFetching
| POpen
| PComplete
| PAtLimit (limit : LimitKind) (more : MoreRows) (cursor_open : bool)
| PFailed (after : Z) (error : DbError)
| PEnded (cause : EndCause).

Inductive Fetched :=
| Appended (rows : Z)
| FetchFailed
| Stale
| NotThisResult
| OutOfSequence.

Inductive FetchMore := Step | UnlimitedMore.

Record InFlight := mkInFlight { sequence : Z; flight_rows : Z; flight_bytes : Z }.

Inductive Phase :=
| Active
| AtLimit (limit : LimitKind) (more : MoreRows)
| Complete
| Failed (after : Z) (error : DbError)
| Ended (cause : EndCause).

(** The kind of a statement (db-driver-api/src/result.rs), and what the store
    reads of its outcome (db-core/src/session.rs). *)
Inductive StatementKind := Query | Dml | Ddl | PlSqlBlock | TransactionControl | SessionControl | OtherStatement.
#[global] Instance StatementKind_eq_dec : EqDecision StatementKind.
Proof. solve_decision. Defined.

Record ExecuteOutcome := mkOutcome {
  outcome_result : option ResultId;
  outcome_columns : list ColumnMetadata;
  statement_kind : StatementKind;
  committed_implicitly : bool;
}.

Record ResultStore := mkStore {
  store_result : ResultId;
  store_columns : list ColumnMetadata;
  policy : ResultPolicy;
  caps : ResultCaps;
  declared_width : Z;
  segments : vec ResultSegment;
  starts : vec Z;
  uniform : bool;
  retained_rows : Z;
  segment_bytes : Z;
  next_sequence : Z;
  in_flight : list InFlight;
  in_flight_rows : Z;
  in_flight_bytes : Z;
  first_submitted : bool;
  demand : Z;
  fetch_all : bool;
  stopped : bool;
  transaction_ends_pending : Z;
  exhausted : bool;
  phase : Phase;
  close_due : bool;
  cursor_closed : bool;
  lobs : option LobUnavailable;
}.

(** One field replaced. *)
Definition set_caps (x : ResultCaps) (s : ResultStore) : ResultStore :=
  {| store_result := store_result s; store_columns := store_columns s; policy := policy s; caps := x; declared_width :=
     declared_width s; segments := segments s; starts := starts s; uniform := uniform s; retained_rows :=
     retained_rows s; segment_bytes := segment_bytes s; next_sequence := next_sequence s; in_flight :=
     in_flight s; in_flight_rows := in_flight_rows s; in_flight_bytes := in_flight_bytes s; first_submitted :=
     first_submitted s; demand := demand s; fetch_all := fetch_all s; stopped := stopped s;
     transaction_ends_pending := transaction_ends_pending s; exhausted := exhausted s; phase := phase s;
     close_due := close_due s; cursor_closed := cursor_closed s; lobs := lobs s |}.
Definition set_segments (x : vec ResultSegment) (s : ResultStore) : ResultStore :=
  {| store_result := store_result s; store_columns := store_columns s; policy := policy s; caps := caps s; declared_width
     := declared_width s; segments := x; starts := starts s; uniform := uniform s; retained_rows :=
     retained_rows s; segment_bytes := segment_bytes s; next_sequence := next_sequence s; in_flight :=
     in_flight s; in_flight_rows := in_flight_rows s; in_flight_bytes := in_flight_bytes s; first_submitted :=
     first_submitted s; demand := demand s; fetch_all := fetch_all s; stopped := stopped s;
     transaction_ends_pending := transaction_ends_pending s; exhausted := exhausted s; phase := phase s;
     close_due := close_due s; cursor_closed := cursor_closed s; lobs := lobs s |}.
Definition set_starts (x : vec Z) (s : ResultStore) : ResultStore :=
  {| store_result := store_result s; store_columns := store_columns s; policy := policy s; caps := caps s; declared_width
     := declared_width s; segments := segments s; starts := x; uniform := uniform s; retained_rows :=
     retained_rows s; segment_bytes := segment_bytes s; next_sequence := next_sequence s; in_flight :=
     in_flight s; in_flight_rows := in_flight_rows s; in_flight_bytes := in_flight_bytes s; first_submitted :=
     first_submitted s; demand := demand s; fetch_all := fetch_all s; stopped := stopped s;
     transaction_ends_pending := transaction_ends_pending s; exhausted := exhausted s; phase := phase s;
     close_due := close_due s; cursor_closed := cursor_closed s; lobs := lobs s |}.
Definition set_uniform (x : bool) (s : ResultStore) : ResultStore :=
  {| store_result := store_result s; store_columns := store_columns s; policy := policy s; caps := caps s; declared_width
     := declared_width s; segments := segments s; starts := starts s; uniform := x; retained_rows :=
     retained_rows s; segment_bytes := segment_bytes s; next_sequence := next_sequence s; in_flight :=
     in_flight s; in_flight_rows := in_flight_rows s; in_flight_bytes := in_flight_bytes s; first_submitted :=
     first_submitted s; demand := demand s; fetch_all := fetch_all s; stopped := stopped s;
     transaction_ends_pending := transaction_ends_pending s; exhausted := exhausted s; phase := phase s;
     close_due := close_due s; cursor_closed := cursor_closed s; lobs := lobs s |}.
Definition set_retained_rows (x : Z) (s : ResultStore) : ResultStore :=
  {| store_result := store_result s; store_columns := store_columns s; policy := policy s; caps := caps s; declared_width
     := declared_width s; segments := segments s; starts := starts s; uniform := uniform s; retained_rows :=
     x; segment_bytes := segment_bytes s; next_sequence := next_sequence s; in_flight := in_flight s;
     in_flight_rows := in_flight_rows s; in_flight_bytes := in_flight_bytes s; first_submitted :=
     first_submitted s; demand := demand s; fetch_all := fetch_all s; stopped := stopped s;
     transaction_ends_pending := transaction_ends_pending s; exhausted := exhausted s; phase := phase s;
     close_due := close_due s; cursor_closed := cursor_closed s; lobs := lobs s |}.
Definition set_segment_bytes (x : Z) (s : ResultStore) : ResultStore :=
  {| store_result := store_result s; store_columns := store_columns s; policy := policy s; caps := caps s; declared_width
     := declared_width s; segments := segments s; starts := starts s; uniform := uniform s; retained_rows :=
     retained_rows s; segment_bytes := x; next_sequence := next_sequence s; in_flight := in_flight s;
     in_flight_rows := in_flight_rows s; in_flight_bytes := in_flight_bytes s; first_submitted :=
     first_submitted s; demand := demand s; fetch_all := fetch_all s; stopped := stopped s;
     transaction_ends_pending := transaction_ends_pending s; exhausted := exhausted s; phase := phase s;
     close_due := close_due s; cursor_closed := cursor_closed s; lobs := lobs s |}.
Definition set_next_sequence (x : Z) (s : ResultStore) : ResultStore :=
  {| store_result := store_result s; store_columns := store_columns s; policy := policy s; caps := caps s; declared_width
     := declared_width s; segments := segments s; starts := starts s; uniform := uniform s; retained_rows :=
     retained_rows s; segment_bytes := segment_bytes s; next_sequence := x; in_flight := in_flight s;
     in_flight_rows := in_flight_rows s; in_flight_bytes := in_flight_bytes s; first_submitted :=
     first_submitted s; demand := demand s; fetch_all := fetch_all s; stopped := stopped s;
     transaction_ends_pending := transaction_ends_pending s; exhausted := exhausted s; phase := phase s;
     close_due := close_due s; cursor_closed := cursor_closed s; lobs := lobs s |}.
Definition set_in_flight (x : list InFlight) (s : ResultStore) : ResultStore :=
  {| store_result := store_result s; store_columns := store_columns s; policy := policy s; caps := caps s; declared_width
     := declared_width s; segments := segments s; starts := starts s; uniform := uniform s; retained_rows :=
     retained_rows s; segment_bytes := segment_bytes s; next_sequence := next_sequence s; in_flight := x;
     in_flight_rows := in_flight_rows s; in_flight_bytes := in_flight_bytes s; first_submitted :=
     first_submitted s; demand := demand s; fetch_all := fetch_all s; stopped := stopped s;
     transaction_ends_pending := transaction_ends_pending s; exhausted := exhausted s; phase := phase s;
     close_due := close_due s; cursor_closed := cursor_closed s; lobs := lobs s |}.
Definition set_in_flight_rows (x : Z) (s : ResultStore) : ResultStore :=
  {| store_result := store_result s; store_columns := store_columns s; policy := policy s; caps := caps s; declared_width
     := declared_width s; segments := segments s; starts := starts s; uniform := uniform s; retained_rows :=
     retained_rows s; segment_bytes := segment_bytes s; next_sequence := next_sequence s; in_flight :=
     in_flight s; in_flight_rows := x; in_flight_bytes := in_flight_bytes s; first_submitted :=
     first_submitted s; demand := demand s; fetch_all := fetch_all s; stopped := stopped s;
     transaction_ends_pending := transaction_ends_pending s; exhausted := exhausted s; phase := phase s;
     close_due := close_due s; cursor_closed := cursor_closed s; lobs := lobs s |}.
Definition set_in_flight_bytes (x : Z) (s : ResultStore) : ResultStore :=
  {| store_result := store_result s; store_columns := store_columns s; policy := policy s; caps := caps s; declared_width
     := declared_width s; segments := segments s; starts := starts s; uniform := uniform s; retained_rows :=
     retained_rows s; segment_bytes := segment_bytes s; next_sequence := next_sequence s; in_flight :=
     in_flight s; in_flight_rows := in_flight_rows s; in_flight_bytes := x; first_submitted := first_submitted
     s; demand := demand s; fetch_all := fetch_all s; stopped := stopped s; transaction_ends_pending :=
     transaction_ends_pending s; exhausted := exhausted s; phase := phase s; close_due := close_due s;
     cursor_closed := cursor_closed s; lobs := lobs s |}.
Definition set_first_submitted (x : bool) (s : ResultStore) : ResultStore :=
  {| store_result := store_result s; store_columns := store_columns s; policy := policy s; caps := caps s; declared_width
     := declared_width s; segments := segments s; starts := starts s; uniform := uniform s; retained_rows :=
     retained_rows s; segment_bytes := segment_bytes s; next_sequence := next_sequence s; in_flight :=
     in_flight s; in_flight_rows := in_flight_rows s; in_flight_bytes := in_flight_bytes s; first_submitted :=
     x; demand := demand s; fetch_all := fetch_all s; stopped := stopped s; transaction_ends_pending :=
     transaction_ends_pending s; exhausted := exhausted s; phase := phase s; close_due := close_due s;
     cursor_closed := cursor_closed s; lobs := lobs s |}.
Definition set_demand (x : Z) (s : ResultStore) : ResultStore :=
  {| store_result := store_result s; store_columns := store_columns s; policy := policy s; caps := caps s; declared_width
     := declared_width s; segments := segments s; starts := starts s; uniform := uniform s; retained_rows :=
     retained_rows s; segment_bytes := segment_bytes s; next_sequence := next_sequence s; in_flight :=
     in_flight s; in_flight_rows := in_flight_rows s; in_flight_bytes := in_flight_bytes s; first_submitted :=
     first_submitted s; demand := x; fetch_all := fetch_all s; stopped := stopped s; transaction_ends_pending
     := transaction_ends_pending s; exhausted := exhausted s; phase := phase s; close_due := close_due s;
     cursor_closed := cursor_closed s; lobs := lobs s |}.
Definition set_fetch_all (x : bool) (s : ResultStore) : ResultStore :=
  {| store_result := store_result s; store_columns := store_columns s; policy := policy s; caps := caps s; declared_width
     := declared_width s; segments := segments s; starts := starts s; uniform := uniform s; retained_rows :=
     retained_rows s; segment_bytes := segment_bytes s; next_sequence := next_sequence s; in_flight :=
     in_flight s; in_flight_rows := in_flight_rows s; in_flight_bytes := in_flight_bytes s; first_submitted :=
     first_submitted s; demand := demand s; fetch_all := x; stopped := stopped s; transaction_ends_pending :=
     transaction_ends_pending s; exhausted := exhausted s; phase := phase s; close_due := close_due s;
     cursor_closed := cursor_closed s; lobs := lobs s |}.
Definition set_stopped (x : bool) (s : ResultStore) : ResultStore :=
  {| store_result := store_result s; store_columns := store_columns s; policy := policy s; caps := caps s; declared_width
     := declared_width s; segments := segments s; starts := starts s; uniform := uniform s; retained_rows :=
     retained_rows s; segment_bytes := segment_bytes s; next_sequence := next_sequence s; in_flight :=
     in_flight s; in_flight_rows := in_flight_rows s; in_flight_bytes := in_flight_bytes s; first_submitted :=
     first_submitted s; demand := demand s; fetch_all := fetch_all s; stopped := x; transaction_ends_pending
     := transaction_ends_pending s; exhausted := exhausted s; phase := phase s; close_due := close_due s;
     cursor_closed := cursor_closed s; lobs := lobs s |}.
Definition set_transaction_ends_pending (x : Z) (s : ResultStore) : ResultStore :=
  {| store_result := store_result s; store_columns := store_columns s; policy := policy s; caps := caps s; declared_width
     := declared_width s; segments := segments s; starts := starts s; uniform := uniform s; retained_rows :=
     retained_rows s; segment_bytes := segment_bytes s; next_sequence := next_sequence s; in_flight :=
     in_flight s; in_flight_rows := in_flight_rows s; in_flight_bytes := in_flight_bytes s; first_submitted :=
     first_submitted s; demand := demand s; fetch_all := fetch_all s; stopped := stopped s;
     transaction_ends_pending := x; exhausted := exhausted s; phase := phase s; close_due := close_due s;
     cursor_closed := cursor_closed s; lobs := lobs s |}.
Definition set_exhausted (x : bool) (s : ResultStore) : ResultStore :=
  {| store_result := store_result s; store_columns := store_columns s; policy := policy s; caps := caps s; declared_width
     := declared_width s; segments := segments s; starts := starts s; uniform := uniform s; retained_rows :=
     retained_rows s; segment_bytes := segment_bytes s; next_sequence := next_sequence s; in_flight :=
     in_flight s; in_flight_rows := in_flight_rows s; in_flight_bytes := in_flight_bytes s; first_submitted :=
     first_submitted s; demand := demand s; fetch_all := fetch_all s; stopped := stopped s;
     transaction_ends_pending := transaction_ends_pending s; exhausted := x; phase := phase s; close_due :=
     close_due s; cursor_closed := cursor_closed s; lobs := lobs s |}.
Definition set_phase (x : Phase) (s : ResultStore) : ResultStore :=
  {| store_result := store_result s; store_columns := store_columns s; policy := policy s; caps := caps s; declared_width
     := declared_width s; segments := segments s; starts := starts s; uniform := uniform s; retained_rows :=
     retained_rows s; segment_bytes := segment_bytes s; next_sequence := next_sequence s; in_flight :=
     in_flight s; in_flight_rows := in_flight_rows s; in_flight_bytes := in_flight_bytes s; first_submitted :=
     first_submitted s; demand := demand s; fetch_all := fetch_all s; stopped := stopped s;
     transaction_ends_pending := transaction_ends_pending s; exhausted := exhausted s; phase := x; close_due
     := close_due s; cursor_closed := cursor_closed s; lobs := lobs s |}.
Definition set_close_due (x : bool) (s : ResultStore) : ResultStore :=
  {| store_result := store_result s; store_columns := store_columns s; policy := policy s; caps := caps s; declared_width
     := declared_width s; segments := segments s; starts := starts s; uniform := uniform s; retained_rows :=
     retained_rows s; segment_bytes := segment_bytes s; next_sequence := next_sequence s; in_flight :=
     in_flight s; in_flight_rows := in_flight_rows s; in_flight_bytes := in_flight_bytes s; first_submitted :=
     first_submitted s; demand := demand s; fetch_all := fetch_all s; stopped := stopped s;
     transaction_ends_pending := transaction_ends_pending s; exhausted := exhausted s; phase := phase s;
     close_due := x; cursor_closed := cursor_closed s; lobs := lobs s |}.
Definition set_cursor_closed (x : bool) (s : ResultStore) : ResultStore :=
  {| store_result := store_result s; store_columns := store_columns s; policy := policy s; caps := caps s; declared_width
     := declared_width s; segments := segments s; starts := starts s; uniform := uniform s; retained_rows :=
     retained_rows s; segment_bytes := segment_bytes s; next_sequence := next_sequence s; in_flight :=
     in_flight s; in_flight_rows := in_flight_rows s; in_flight_bytes := in_flight_bytes s; first_submitted :=
     first_submitted s; demand := demand s; fetch_all := fetch_all s; stopped := stopped s;
     transaction_ends_pending := transaction_ends_pending s; exhausted := exhausted s; phase := phase s;
     close_due := close_due s; cursor_closed := x; lobs := lobs s |}.
Definition set_lobs (x : option LobUnavailable) (s : ResultStore) : ResultStore :=
  {| store_result := store_result s; store_columns := store_columns s; policy := policy s; caps := caps s; declared_width
     := declared_width s; segments := segments s; starts := starts s; uniform := uniform s; retained_rows :=
     retained_rows s; segment_bytes := segment_bytes s; next_sequence := next_sequence s; in_flight :=
     in_flight s; in_flight_rows := in_flight_rows s; in_flight_bytes := in_flight_bytes s; first_submitted :=
     first_submitted s; demand := demand s; fetch_all := fetch_all s; stopped := stopped s;
     transaction_ends_pending := transaction_ends_pending s; exhausted := exhausted s; phase := phase s;
     close_due := close_due s; cursor_closed := cursor_closed s; lobs := x |}.

(** Read through the setters. *)
Ltac store_simpl :=
  cbn [store_result store_columns policy caps declared_width segments starts uniform retained_rows segment_bytes next_sequence in_flight in_flight_rows in_flight_bytes first_submitted demand fetch_all stopped transaction_ends_pending exhausted phase close_due cursor_closed lobs set_caps set_segments set_starts set_uniform set_retained_rows set_segment_bytes set_next_sequence set_in_flight set_in_flight_rows set_in_flight_bytes set_first_submitted set_demand set_fetch_all set_stopped set_transaction_ends_pending set_exhausted set_phase set_close_due set_cursor_closed set_lobs].
Tactic Notation "store_simpl" "in" "*" :=
  cbn [store_result store_columns policy caps declared_width segments starts uniform retained_rows segment_bytes next_sequence in_flight in_flight_rows in_flight_bytes first_submitted demand fetch_all stopped transaction_ends_pending exhausted phase close_due cursor_closed lobs set_caps set_segments set_starts set_uniform set_retained_rows set_segment_bytes set_next_sequence set_in_flight set_in_flight_rows set_in_flight_bytes set_first_submitted set_demand set_fetch_all set_stopped set_transaction_ends_pending set_exhausted set_phase set_close_due set_cursor_closed set_lobs] in *.

(** ** Construction and state *)

Section store.
Context `{Layout} `{Alloc}.

Definition store_new (r : ResultId) (columns : list ColumnMetadata) (p : ResultPolicy) : ResultStore :=
  {| store_result := r; store_columns := columns; policy := p; caps := policy_caps p;
     declared_width := declared_row_width columns;
     segments := vec_new; starts := vec_new; uniform := true; retained_rows := 0; segment_bytes := 0;
     next_sequence := 0; in_flight := []; in_flight_rows := 0; in_flight_bytes := 0; first_submitted := false;
     demand := 0; fetch_all := false; stopped := false; transaction_ends_pending := 0; exhausted := false;
     phase := Active; close_due := false; cursor_closed := false; lobs := None |}.

(** The row cap in force, bounded by the grid's ceiling. *)
Definition row_limit (s : ResultStore) : Z :=
  match limit (value (max_rows (caps s))) with
  | None => GRID_ROW_CEILING
  | Some rows => Z.min rows GRID_ROW_CEILING
  end.

Definition shown_rows (s : ResultStore) : Z := Z.min (retained_rows s) (row_limit s).

Definition retained_bytes (s : ResultStore) : Z :=
  segment_bytes s + Z.of_nat (cap (segments s)) * 8 + Z.of_nat (cap (starts s)) * 8.

Definition is_nil {A} (l : list A) : bool := match l with [] => true | _ => false end.

Definition state_phase (s : ResultStore) : ResultPhase :=
  match phase s with
  | Active => if is_nil (in_flight s) then POpen else PFetching
  | AtLimit l m => PAtLimit l m (negb (cursor_closed s) && negb (close_due s))
  | Complete => PComplete
  | Failed a e => PFailed a e
  | Ended c => PEnded c
  end.

(** ** Reads *)

(** [slice::partition_point], whose slice is partitioned: the length of the
    prefix that satisfies the predicate. *)
Definition partition_point {A} (p : A -> bool) (l : list A) : nat := count_while p l.

Definition checked_sub1 (n : nat) : option nat := match n with O => None | S m => Some m end.

Definition seg_rows (seg : ResultSegment) : Z := Z.of_nat (rows seg).

Definition segment_index (s : ResultStore) (row : Z) : run (option nat) :=
  if retained_rows s <=? row then Ret None
  else
    match checked_sub1 (length (elems (segments s))) with
    | None => Ret None
    | Some last =>
        if uniform s then
          match elems (segments s) !! 0%nat with
          | None => Ret None
          | Some seg0 =>
              let first := seg_rows seg0 in
              if row <? first then Ret (Some 0%nat)
              else
                match elems (segments s) !! 1%nat with
                | None => Ret None
                | Some seg1 =>
                    let rows := seg_rows seg1 in
                    if rows =? 0 then Panic
                    else Ret (Some (Nat.min (1 + Z.to_nat ((row - first) / rows)) last))
                end
          end
        else Ret (checked_sub1 (partition_point (fun start => start <=? row) (elems (starts s))))
    end.

Definition segment_for_row (s : ResultStore) (row : Z) : run (option (ResultSegment * Z)) :=
  if shown_rows s <=? row then Ret None
  else
    let! index := segment_index s row in
    Ret (match index with
         | None => None
         | Some i =>
             match elems (segments s) !! i, elems (starts s) !! i with
             | Some seg, Some first => Some (seg, first)
             | _, _ => None
             end
         end).

Definition store_value (s : ResultStore) (row : Z) (col : nat) : run (option CellValue) :=
  let! found := segment_for_row s row in
  Ret (match found with
       | None => None
       | Some (seg, first) =>
           match segment_value seg (Z.to_nat (row - first)) col with
           | None => None
           | Some cell =>
               match cell, lobs s with
               | CellLob _, Some reason => Some (CellLobUnavailable reason)
               | _, _ => Some cell
               end
           end
       end).

Definition store_lob (s : ResultStore) (row : Z) (col : nat) : run (option LobCell) :=
  let! found := segment_for_row s row in
  Ret (match found with
       | None => None
       | Some (seg, first) =>
           let r := Z.to_nat (row - first) in
           match seg_columns seg !! col with
           | None => None
           | Some data =>
               match storage data with
               | SLob _ =>
                   if mask_is_null (seg_nulls data) r then None
                   else
                     match segment_value seg r col, lobs s with
                     | Some (CellLob _), Some reason => Some (Unavailable reason)
                     | Some (CellLob h), None => Some (Readable h)
                     | _, _ => None
                     end
               | _ => None
               end
           end
       end).

(** ** What to fetch next *)

Definition row_width (s : ResultStore) : Z :=
  if retained_rows s =? 0 then declared_width s
  else clamp (segment_bytes s / retained_rows s) 1 (declared_width s).

Definition rows_per_round_trip (s : ResultStore) : Z :=
  clamp (round_trip_bytes (policy s) / row_width s) 1 (fetch_rows (policy s)).

(** [NonZeroUsize::new]. *)
Definition non_zero (n : Z) : option Z := if n =? 0 then None else Some n.

Definition next_request_rows (s : ResultStore) : option Z :=
  let per_trip := rows_per_round_trip s in
  let pending := retained_rows s + in_flight_rows s in
  let first := negb (first_submitted s) in
  let target := if fetch_all s then usize_max else sat_add (demand s) per_trip in
  if negb first && (target <=? pending) then None
  else
    let row_room := sat_sub (sat_add (row_limit s) 1) pending in
    let byte_room :=
      match limit (value (max_bytes (caps s))) with
      | None => usize_max
      | Some cap => sat_sub cap (sat_add (retained_bytes s) (in_flight_bytes s)) / row_width s
      end in
    let rows := Z.min (Z.min per_trip row_room) byte_room in
    match non_zero rows with
    | Some n => Some n
    | None => if first then Some 1 else None
    end.

Definition is_active (p : Phase) : bool := match p with Active => true | _ => false end.
Definition is_at_limit (p : Phase) : bool := match p with AtLimit _ _ => true | _ => false end.

Definition due (s : ResultStore) : option StoreAction :=
  if close_due s then Some (CloseResult (store_result s))
  else if negb (is_active (phase s)) || stopped s || exhausted s || (0 <? transaction_ends_pending s) ||
          (fetches_in_flight (policy s) <=? Z.of_nat (length (in_flight s))) ||
          ((retained_rows s =? 0) && negb (is_nil (in_flight s)))
  then None
  else
    match next_request_rows s with
    | None => None
    | Some n =>
        Some (Fetch {| ticket := {| ticket_result := store_result s; ticket_sequence := next_sequence s |};
                       request_rows := n |})
    end.

(** [Some(self.lobs.unwrap_or(why))]. *)
Definition lose_lobs (why : LobUnavailable) (s : ResultStore) : ResultStore :=
  set_lobs (Some (default why (lobs s))) s.

Definition record (s : ResultStore) (a : StoreAction) : ResultStore :=
  match a with
  | Fetch f =>
      let rows := request_rows f in
      let bytes := sat_mul rows (row_width s) in
      set_first_submitted true
        (set_next_sequence (next_sequence s + 1)
        (set_in_flight_bytes (sat_add (in_flight_bytes s) bytes)
        (set_in_flight_rows (in_flight_rows s + rows)
        (set_in_flight (in_flight s ++ [mkInFlight (ticket_sequence (ticket f)) rows bytes]) s))))
  | CloseResult _ => lose_lobs LobResultClosed (set_cursor_closed true (set_close_due false s))
  end.

(** [while let Some(action) = self.due()], with the caller's [submit]. *)
Section pump.
Context {St : Type} (submit : St -> StoreAction -> St * result unit DbError).

Fixpoint pump_loop (fuel : nat) (st : St) (s : ResultStore) (submitted : Z)
    : run (St * ResultStore * result Z DbError) :=
  match due s with
  | None => Ret (st, s, Ok submitted)
  | Some a =>
      match fuel with
      | O => OutOfFuel
      | S fuel' =>
          match submit st a with
          | (st, Ok _) => pump_loop fuel' st (record s a) (submitted + 1)
          | (st, Err e) => Ret (st, s, Err e)
          end
      end
  end.

(** Every fetch fills a slot and a close happens once: as many turns as slots,
    and one more, are enough. *)
Definition pump_fuel (s : ResultStore) : nat := S (Z.to_nat (fetches_in_flight (policy s))).
Definition pump (st : St) (s : ResultStore) := pump_loop (pump_fuel s) st s 0.
End pump.

(** ** Settling *)

Definition settle (s : ResultStore) : ResultStore :=
  if negb (is_active (phase s)) || negb (is_nil (in_flight s)) then s
  else
    let next :=
      if row_limit s <? retained_rows s then
        let from_ceiling :=
          match limit (value (max_rows (caps s))) with None => true | Some r => GRID_ROW_CEILING <? r end in
        Some (AtLimit (if from_ceiling then RowCeiling else Rows) Yes)
      else if exhausted s then Some Complete
      else
        match limit (value (max_bytes (caps s))) with
        | Some cap => if cap <? sat_add (retained_bytes s) (row_width s) then Some (AtLimit Bytes UnknownMore) else None
        | None => None
        end in
    match next with
    | None => s
    | Some p =>
        let s := set_phase p s in
        if is_at_limit p && value (close_cursor_at_limit (caps s)) && negb (cursor_closed s)
        then set_close_due true s else s
    end.

(** ** Inputs *)

Definition set_demand_rows (s : ResultStore) (n : Z) : ResultStore := set_demand n s.
Definition do_fetch_all (s : ResultStore) : ResultStore := set_stopped false (set_fetch_all true s).
Definition stop (s : ResultStore) : ResultStore := set_fetch_all false (set_stopped true s).
Definition resume (s : ResultStore) : ResultStore := set_stopped false s.

Definition can_raise (p : Phase) : bool :=
  match p with AtLimit Rows _ | AtLimit Bytes _ => true | _ => false end.

Definition fetch_more (s : ResultStore) (more : FetchMore) : ResultStore * bool :=
  if negb (can_raise (phase s)) || cursor_closed s || close_due s then (s, false)
  else
    let c := match more with
             | Step => raised_by (caps s) (policy_caps (policy s))
             | UnlimitedMore => lifted (caps s)
             end in
    (settle (set_stopped false (set_phase Active (set_caps c s))), true).

Definition discard (s : ResultStore) : ResultStore :=
  lose_lobs LobResultClosed (set_cursor_closed true (set_close_due false (set_phase (Ended Discarded) s))).

Definition end_transaction (s : ResultStore) : ResultStore :=
  let cursor_was_open := negb (cursor_closed s) && negb (close_due s) in
  let s := set_close_due false (set_cursor_closed true (lose_lobs LobTransactionEnded s)) in
  match phase s with
  | Active => set_phase (Ended TransactionEnded) s
  | AtLimit _ _ => if cursor_was_open then set_phase (Ended TransactionEnded) s else s
  | _ => s
  end.

Definition transaction_end_submitted (s : ResultStore) : ResultStore :=
  set_transaction_ends_pending (transaction_ends_pending s + 1) s.

Definition transaction_end_answered (s : ResultStore) (succeeded : bool) : ResultStore :=
  let s := set_transaction_ends_pending (sat_sub (transaction_ends_pending s) 1) s in
  if succeeded then end_transaction s else s.

Definition statement_executed (s : ResultStore) (o : ExecuteOutcome) : ResultStore :=
  if committed_implicitly o || bool_decide (statement_kind o = TransactionControl) then end_transaction s else s.

Definition session_ended (s : ResultStore) : ResultStore :=
  let s := set_close_due false (set_cursor_closed true (lose_lobs LobSessionEnded s)) in
  if is_active (phase s) || is_at_limit (phase s) then set_phase (Ended SessionEnded) s else s.

(** ** Replies *)

Definition forget (s : ResultStore) (e : InFlight) : ResultStore :=
  set_in_flight_bytes (sat_sub (in_flight_bytes s) (flight_bytes e))
    (set_in_flight_rows (in_flight_rows s - flight_rows e) s).

Definition append (s : ResultStore) (seg : ResultSegment) : ResultStore :=
  let segs := elems (segments s) in
  let s :=
    if (3 <=? length segs)%nat &&
       match segs !! 1%nat, last segs with
       | Some second, Some l => negb (seg_rows second =? seg_rows l)
       | _, _ => false
       end
    then set_uniform false s else s in
  set_segments (vec_push (segments s) seg)
    (set_segment_bytes (segment_bytes s + accounted_bytes seg)
    (set_retained_rows (retained_rows s + seg_rows seg)
    (set_starts (vec_push (starts s) (retained_rows s)) s))).

(** [iter().position(..)] and [VecDeque::remove]. *)
Fixpoint remove_sequence (n : Z) (l : list InFlight) : option (InFlight * list InFlight) :=
  match l with
  | [] => None
  | e :: l' =>
      if sequence e =? n then Some (e, l')
      else match remove_sequence n l' with Some (x, rest) => Some (x, e :: rest) | None => None end
  end.

Definition out_of_sequence (s : ResultStore) (n : Z) : ResultStore :=
  let s := match remove_sequence n (in_flight s) with
           | Some (e, rest) => forget (set_in_flight rest s) e
           | None => s
           end in
  if is_active (phase s) || is_at_limit (phase s)
  then set_phase (Failed (shown_rows s) (internal (OutOfSequenceMessage n))) s else s.

Definition on_fetched (debug : bool) (s : ResultStore) (fetch : FetchTicket)
    (reply : result SegmentReply DbError) : run (ResultStore * Fetched) :=
  if negb (bool_decide (ticket_result fetch = store_result s)) then Ret (s, NotThisResult)
  else
    match in_flight s with
    | e :: rest =>
        if sequence e =? ticket_sequence fetch then
          let s := forget (set_in_flight rest s) e in
          if negb (is_active (phase s)) then Ret (s, Stale)
          else
            match reply with
            | Err error =>
                let reason := if bool_decide (session_state error = Lost) then LobSessionEnded else LobResultClosed in
                Ret (set_phase (Failed (shown_rows s) error) (set_cursor_closed true (lose_lobs reason s)), FetchFailed)
            | Ok outcome =>
                let seg := segment outcome in
                let rows := seg_rows seg in
                if (0 <? rows) && negb (length (seg_columns seg) =? length (store_columns s))%nat then
                  Ret (set_phase (Failed (shown_rows s)
                         (internal (ColumnCountMismatch (length (seg_columns seg)) (length (store_columns s))))) s,
                       FetchFailed)
                else
                  let s := if reply_exhausted outcome then set_exhausted true s else s in
                  let s := if 0 <? rows then append s seg else s in
                  Ret (settle s, Appended rows)
            end
        else if debug then Panic else Ret (out_of_sequence s (ticket_sequence fetch), OutOfSequence)
    | [] => if debug then Panic else Ret (out_of_sequence s (ticket_sequence fetch), OutOfSequence)
    end.

End store.
