(* ===== verification/ResultStoreProps.v ===== *)
(** * The result store's invariant (db-core/src/store/result_store.rs)

    The store runs between a view, which drives it with inputs, and a session,
    which answers its fetches in the order they were submitted.  [step] is one
    event of that system, on the store and the queue of fetches the session has
    accepted and not answered; the invariant is proved by induction on the
    steps from a fresh store. *)

From S2P Require Import Prelude RustStr Errors Columns Segment Policy ResultStore.
Open Scope Z_scope.
Open Scope run_scope.

(** ** The system *)

Inductive input :=
| ISetDemand (rows : Z)
| IFetchAll
| IStop
| IResume
| IFetchMore (more : FetchMore)
| IDiscard
| ITransactionEndSubmitted
| ITransactionEndAnswered (succeeded : bool)
| IStatementExecuted (o : ExecuteOutcome)
| ISessionEnded.

Section system.
Context `{Layout} `{Alloc}.

Definition apply_input (i : input) (s : ResultStore) : ResultStore :=
  match i with
  | ISetDemand n => set_demand_rows s n
  | IFetchAll => do_fetch_all s
  | IStop => stop s
  | IResume => resume s
  | IFetchMore m => (fetch_more s m).1
  | IDiscard => discard s
  | ITransactionEndSubmitted => transaction_end_submitted s
  | ITransactionEndAnswered b => transaction_end_answered s b
  | IStatementExecuted o => statement_executed s o
  | ISessionEnded => session_ended s
  end.

(** A demand is a [usize]. *)
Definition input_ok (i : input) : Prop := match i with ISetDemand n => 0 <= n <= usize_max | _ => True end.

(** The driver's contract: at most the rows asked for. *)
Definition reply_fits (f : FetchRequest) (r : result SegmentReply DbError) : Prop :=
  match r with Ok rep => seg_rows (segment rep) <= request_rows f | Err _ => True end.

Definition config : Type := ResultStore * list FetchRequest.

Inductive step : config -> config -> Prop :=
| step_input i s q : input_ok i -> step (s, q) (apply_input i s, q)
| step_submit s q f : due s = Some (Fetch f) -> step (s, q) (record s (Fetch f), q ++ [f])
| step_close s q r : due s = Some (CloseResult r) -> step (s, q) (record s (CloseResult r), q)
| step_reply s q f reply s' outcome :
    reply_fits f reply -> on_fetched true s (ticket f) reply = Ret (s', outcome) ->
    step (s, f :: q) (s', q).

Definition start (r : ResultId) (columns : list ColumnMetadata) (p : ResultPolicy) : config :=
  (store_new r columns p, []).

Inductive reachable (c0 : config) : config -> Prop :=
| reachable_start : reachable c0 c0
| reachable_step c c' : reachable c0 c -> step c c' -> reachable c0 c'.

(** ** What the segments and the index hold *)

Definition total (segs : list ResultSegment) : Z := foldr (fun seg n => seg_rows seg + n) 0 segs.
Definition total_bytes (segs : list ResultSegment) : Z := foldr (fun seg n => accounted_bytes seg + n) 0 segs.

Fixpoint starts_from (at_ : Z) (segs : list ResultSegment) : list Z :=
  match segs with [] => [] | seg :: rest => at_ :: starts_from (at_ + seg_rows seg) rest end.

(** Every segment between the first and the last has the second's rows. *)
Definition uniform_segments (segs : list ResultSegment) : Prop :=
  forall i seg second, segs !! 1%nat = Some second -> (1 <= i)%nat -> (S i < length segs)%nat ->
    segs !! i = Some seg -> seg_rows seg = seg_rows second.

Record content_ok (s : ResultStore) : Prop := {
  content_rows : Forall (fun seg => 1 <= seg_rows seg) (elems (segments s));
  content_starts : elems (starts s) = starts_from 0 (elems (segments s));
  content_retained : retained_rows s = total (elems (segments s));
  content_bytes : segment_bytes s = total_bytes (elems (segments s));
  content_uniform : uniform s = true -> uniform_segments (elems (segments s));
}.

Record static_ok (s : ResultStore) : Prop := {
  static_policy : policy_ok (policy s);
  static_caps : caps_ok (caps s);
  static_width : 1 <= declared_width s <= usize_max;
  static_demand : 0 <= demand s <= usize_max;
}.

(** ** What is in flight *)

Definition flight_total (l : list InFlight) : Z := foldr (fun e n => flight_rows e + n) 0 l.

Definition flight_bytes_total (l : list InFlight) : Z := foldr (fun e n => flight_bytes e + n) 0 l.

Definition same_fetch (e : InFlight) (f : FetchRequest) : Prop :=
  sequence e = ticket_sequence (ticket f) /\ flight_rows e = request_rows f.

Record flight_ok (s : ResultStore) (q : list FetchRequest) : Prop := {
  flight_sum : in_flight_rows s = flight_total (in_flight s);
  flight_pos : Forall (fun e => 1 <= flight_rows e) (in_flight s);
  flight_bytes_pos : Forall (fun e => 0 <= flight_bytes e) (in_flight s);
  flight_bytes_bound : 0 <= in_flight_bytes s <= flight_bytes_total (in_flight s);
  flight_queue : Forall2 same_fetch (in_flight s) q;
  flight_result : Forall (fun f => ticket_result (ticket f) = store_result s) q;
  flight_slots : Z.of_nat (length (in_flight s)) <= fetches_in_flight (policy s);
}.

(** ** The phase *)

Definition byte_cap_allows (s : ResultStore) : Prop :=
  match limit (value (max_bytes (caps s))) with
  | Some cap => sat_add (retained_bytes s) (row_width s) <= cap
  | None => True
  end.

Record phase_ok (s : ResultStore) : Prop := {
  phase_cap : retained_rows s + in_flight_rows s <= row_limit s + 1;
  phase_first : first_submitted s = false ->
    retained_rows s = 0 /\ in_flight s = [] /\ is_at_limit (phase s) = false /\ exhausted s = false;
  phase_resting : is_at_limit (phase s) = true \/ phase s = Complete -> in_flight s = [];
  phase_at_rows : forall k m, phase s = AtLimit k m -> k <> Bytes -> retained_rows s = row_limit s + 1 /\ m = Yes;
  phase_at_bytes : forall m, phase s = AtLimit Bytes m -> ~ byte_cap_allows s /\ retained_rows s <= row_limit s;
  phase_complete : phase s = Complete -> exhausted s = true /\ retained_rows s <= row_limit s;
  phase_close_due : close_due s = true -> is_at_limit (phase s) = true /\ cursor_closed s = false;
  phase_closed : cursor_closed s = true -> is_Some (lobs s);
  phase_ended : forall c, phase s = Ended c -> cursor_closed s = true;
  phase_settled : phase s = Active -> in_flight s = [] -> first_submitted s = true ->
    retained_rows s <= row_limit s /\ exhausted s = false /\ byte_cap_allows s;
}.

Definition inv (c : config) : Prop :=
  content_ok c.1 /\ static_ok c.1 /\ flight_ok c.1 c.2 /\ phase_ok c.1.

(** ** Arithmetic of the request *)

Lemma total_nonneg segs : 0 <= total segs.
Proof. induction segs as [|seg segs IH]; simpl; [lia|]. unfold seg_rows. lia. Qed.

Lemma total_app a b : total (a ++ b) = total a + total b.
Proof. induction a as [|seg a IH]; simpl; [done|]. rewrite IH. lia. Qed.

Lemma total_bytes_app a b : total_bytes (a ++ b) = total_bytes a + total_bytes b.
Proof. induction a as [|seg a IH]; simpl; [done|]. rewrite IH. lia. Qed.

Lemma flight_total_app a b : flight_total (a ++ b) = flight_total a + flight_total b.
Proof. induction a as [|e a IH]; simpl; [done|]. rewrite IH. lia. Qed.

Lemma flight_bytes_total_app a b : flight_bytes_total (a ++ b) = flight_bytes_total a + flight_bytes_total b.
Proof. induction a as [|e a IH]; simpl; [done|]. rewrite IH. lia. Qed.

Lemma flight_bytes_total_nonneg l : Forall (fun e => 0 <= flight_bytes e) l -> 0 <= flight_bytes_total l.
Proof. induction 1; simpl; lia. Qed.

Lemma flight_total_nonneg l : Forall (fun e => 1 <= flight_rows e) l -> 0 <= flight_total l.
Proof. induction 1; simpl; lia. Qed.

Lemma row_limit_bounds s : caps_ok (caps s) -> 1 <= row_limit s <= GRID_ROW_CEILING.
Proof.
  intros [Hr _]. unfold row_limit, GRID_ROW_CEILING. destruct (value (max_rows (caps s))); simpl in *; lia.
Qed.

Lemma clamp_bounds a lo hi : lo <= hi -> lo <= clamp a lo hi <= hi.
Proof. intros ?. unfold clamp. destruct (a <? lo) eqn:E; boolify; [lia|]. destruct (hi <? a) eqn:E'; boolify; lia. Qed.

Lemma row_width_bounds s : static_ok s -> 1 <= row_width s <= declared_width s.
Proof.
  intros [_ _ Hw _]. unfold row_width. destruct (_ =? _); [lia|]. apply clamp_bounds. lia.
Qed.

Lemma rows_per_round_trip_bounds s : static_ok s -> 1 <= rows_per_round_trip s <= fetch_rows (policy s).
Proof. intros [[_ Hf _ _] _ _ _]. unfold rows_per_round_trip. apply clamp_bounds. lia. Qed.

Lemma flight_rows_nonneg s q : flight_ok s q -> 0 <= in_flight_rows s.
Proof. intros Hf. rewrite (flight_sum _ _ Hf). apply flight_total_nonneg, Hf. Qed.

Lemma retained_nonneg s : content_ok s -> 0 <= retained_rows s.
Proof. intros [_ _ -> _ _]. apply total_nonneg. Qed.

Lemma next_request_bounds s q n :
  inv (s, q) -> next_request_rows s = Some n ->
  1 <= n /\ n <= rows_per_round_trip s /\ retained_rows s + in_flight_rows s + n <= row_limit s + 1.
Proof.
  intros (Hc & Hs & Hf & Hp) E. cbn [fst snd] in *. pose proof (rows_per_round_trip_bounds s Hs) as Ht.
  pose proof (retained_nonneg s Hc). pose proof (flight_rows_nonneg s q Hf).
  pose proof (row_limit_bounds s (static_caps _ Hs)) as Hl. pose proof (row_width_bounds s Hs) as Hw.
  unfold next_request_rows in E. cbv zeta in E. destruct (negb _ && _); [done|].
  set (byte_room := match limit (value (max_bytes _)) with None => _ | Some _ => _ end) in E.
  assert (0 <= byte_room) as Hb.
  { unfold byte_room. destruct (limit _); [|unfold usize_max; lia]. apply Z.div_pos; [|lia]. unfold sat_sub. lia. }
  unfold GRID_ROW_CEILING in Hl.
  unfold non_zero, sat_sub, sat_add in E. rewrite (Z.min_l (row_limit s + 1) usize_max) in E by (unfold usize_max; lia).
  destruct (_ =? 0) eqn:Ez; boolify.
  - destruct (first_submitted s) eqn:Ef; cbn [negb] in E; [done|]. injection E as <-.
    destruct (phase_first _ Hp Ef) as (Hr & Hq & _). rewrite (flight_sum _ _ Hf), Hq. simpl. lia.
  - injection E as <-. lia.
Qed.

(** ** Settling *)

(** An invariant that does not read the fields a setter changes. *)
Ltac frame H := intros; destruct H; constructor; assumption.

(** Settling changes the phase and, perhaps, asks for the cursor's close. *)
Lemma settle_frame (P : ResultStore -> Prop) s :
  P s -> (forall p, P (set_phase p s)) -> (forall p, P (set_close_due true (set_phase p s))) -> P (settle s).
Proof.
  intros H1 H2 H3. unfold settle. destruct (_ || _); [done|]. cbv zeta.
  destruct (if row_limit s <? _ then _ else _) as [p|]; [|done]. destruct (_ && _); auto.
Qed.

Lemma settle_content s : content_ok s -> content_ok (settle s).
Proof. intros Hc. apply settle_frame; [done|frame Hc|frame Hc]. Qed.
Lemma settle_static s : static_ok s -> static_ok (settle s).
Proof. intros Hc. apply settle_frame; [done|frame Hc|frame Hc]. Qed.
Lemma settle_flight s q : flight_ok s q -> flight_ok (settle s) q.
Proof. intros Hc. apply (settle_frame (fun s => flight_ok s q)); [done|frame Hc|frame Hc]. Qed.

(** What an active store must satisfy before it settles. *)
Record unsettled (s : ResultStore) : Prop := {
  unsettled_active : phase s = Active;
  unsettled_cap : retained_rows s + in_flight_rows s <= row_limit s + 1;
  unsettled_first : first_submitted s = true;
  unsettled_close : close_due s = false;
  unsettled_lobs : cursor_closed s = true -> is_Some (lobs s);
}.

Lemma settle_waits s : in_flight s <> [] -> settle s = s.
Proof. intros Hq. unfold settle. destruct (in_flight s); [done|]. by rewrite orb_true_r. Qed.

(** The one store settling produces, when nothing is in flight. *)
Lemma settle_rests s q :
  flight_ok s q -> phase s = Active -> in_flight s = [] -> close_due s = false ->
  let s' := settle s in
  (retained_rows s = row_limit s + 1 \/ retained_rows s <= row_limit s) ->
  (exists k m, phase s' = AtLimit k m /\ close_due s' = (value (close_cursor_at_limit (caps s)) && negb (cursor_closed s)) /\
     ((k <> Bytes /\ m = Yes /\ retained_rows s = row_limit s + 1) \/
      (k = Bytes /\ retained_rows s <= row_limit s /\ exhausted s = false /\ ~ byte_cap_allows s))) \/
  (phase s' = Complete /\ close_due s' = false /\ exhausted s = true /\ retained_rows s <= row_limit s) \/
  (s' = s /\ retained_rows s <= row_limit s /\ exhausted s = false /\ byte_cap_allows s).
Proof.
  intros Hf Ha Hq Hcd s' Hr. unfold s', settle, byte_cap_allows. rewrite Ha, Hq. cbn [is_active is_nil negb orb].
  destruct (row_limit s <? retained_rows s) eqn:El; boolify.
  - left. do 2 eexists. cbn [is_at_limit andb]. store_simpl.
    destruct (_ && _); store_simpl; (split; [reflexivity|]); (split; [done|]); left; (split; [|split; [done|lia]]);
      by destruct (match limit _ with None => _ | Some _ => _ end).
  - destruct (exhausted s) eqn:Ee.
    { right. left. cbn [is_at_limit andb]. store_simpl. split; [done|]. split; [done|]. split; [done|lia]. }
    destruct (limit (value (max_bytes (caps s)))) as [cap|]; [|by right; right].
    destruct (cap <? _) eqn:Eb; boolify; [|by right; right].
    left. do 2 eexists. cbn [is_at_limit andb]. store_simpl.
    destruct (_ && _); store_simpl; (split; [reflexivity|]); (split; [done|]); right;
      (split; [done|]); (split; [lia|]); (split; [done|lia]).
Qed.

Lemma settle_lobs s : lobs (settle s) = lobs s.
Proof. by apply (settle_frame (fun x => lobs x = lobs s)). Qed.
Lemma settle_closed s : cursor_closed (settle s) = cursor_closed s.
Proof. by apply (settle_frame (fun x => cursor_closed x = cursor_closed s)). Qed.
Lemma settle_in_flight s : in_flight (settle s) = in_flight s.
Proof. by apply (settle_frame (fun x => in_flight x = in_flight s)). Qed.
Lemma settle_first s : first_submitted (settle s) = first_submitted s.
Proof. by apply (settle_frame (fun x => first_submitted x = first_submitted s)). Qed.
Lemma settle_rows s : retained_rows (settle s) = retained_rows s.
Proof. by apply (settle_frame (fun x => retained_rows x = retained_rows s)). Qed.
Lemma settle_flight_rows s : in_flight_rows (settle s) = in_flight_rows s.
Proof. by apply (settle_frame (fun x => in_flight_rows x = in_flight_rows s)). Qed.
Lemma settle_limit s : row_limit (settle s) = row_limit s.
Proof. by apply (settle_frame (fun x => row_limit x = row_limit s)). Qed.
Lemma settle_exhausted s : exhausted (settle s) = exhausted s.
Proof. by apply (settle_frame (fun x => exhausted x = exhausted s)). Qed.
Lemma settle_byte_cap s : byte_cap_allows (settle s) <-> byte_cap_allows s.
Proof. by apply (settle_frame (fun x => byte_cap_allows x <-> byte_cap_allows s)). Qed.

Lemma settle_phase_ok s q : flight_ok s q -> unsettled s -> phase_ok (settle s).
Proof.
  intros Hf [Ha Hcap Hfirst Hclose Hlobs]. destruct (in_flight s) as [|e l] eqn:Hq.
  2:{ rewrite settle_waits by (by rewrite Hq).
      split; rewrite ?Ha, ?Hclose, ?Hfirst, ?Hq; try done. intros [?|?]; done. }
  pose proof (flight_sum _ _ Hf) as Hsum. rewrite Hq in Hsum. simpl in Hsum.
  destruct (settle_rests s q Hf Ha Hq Hclose ltac:(lia)) as
    [(k & m & Hph & Hcd & Hk)|[(Hph & Hcd & He & Hr)|(Hs & Hr & He & Hb)]];
  split; rewrite ?settle_rows, ?settle_flight_rows, ?settle_limit, ?settle_first, ?settle_in_flight,
    ?settle_closed, ?settle_lobs, ?settle_exhausted, ?settle_byte_cap, ?Hph, ?Hcd, ?Hfirst, ?Hq;
    try done; try (rewrite Hs, ?Ha, ?Hclose; (done || by intros [])).
  - intros k' m' [= <- <-] Hne. destruct Hk as [(_ & -> & ?)|[-> _]]; done.
  - intros m' [= -> <-]. rewrite settle_byte_cap, ?settle_rows, ?settle_limit. destruct Hk as [[? _]|(_ & ? & _ & ?)]; done.
  - intros [_ Hc]%andb_true_iff. by apply negb_true_iff in Hc.
Qed.

(** ** Inputs *)

Lemma row_limit_mono s c :
  cap_le (value (max_rows (caps s))) (value (max_rows c)) -> row_limit s <= row_limit (set_caps c s).
Proof.
  unfold row_limit. store_simpl. unfold GRID_ROW_CEILING.
  destruct (value (max_rows (caps s))) as [v|], (value (max_rows c)) as [w|]; simpl; lia.
Qed.

Lemma fetch_more_inv s q m : inv (s, q) -> inv ((fetch_more s m).1, q).
Proof.
  intros (Hc & Hs & Hf & Hp). cbn [fst snd] in *. unfold fetch_more.
  destruct (negb (can_raise (phase s)) || cursor_closed s || close_due s) eqn:E; [done|].
  boolify. cbn [fst]. set (c := match m with Step => _ | UnlimitedMore => _ end).
  assert (is_at_limit (phase s) = true) as Hat by (destruct (phase s); done).
  assert (caps_ok c /\ cap_le (value (max_rows (caps s))) (value (max_rows c))) as [Hcaps Hle].
  { destruct (static_policy _ Hs) as [Hpc _ _ _]. pose proof (static_caps _ Hs) as Hsc. unfold c. destruct m.
    - split; [by apply raised_ok|]. apply cap_le_raised; [apply Hsc|apply Hpc].
    - split; [apply lifted_ok|]. by destruct (value (max_rows (caps s))). }
  set (s1 := set_stopped false (set_phase Active (set_caps c s))).
  assert (flight_ok s1 q) as Hf1 by (frame Hf).
  split; [apply settle_content; frame Hc|]. split; [apply settle_static; destruct Hs; by constructor|].
  split; [by apply settle_flight|]. apply (settle_phase_ok s1 q); [done|]. constructor; try done.
  - pose proof (phase_cap _ Hp). pose proof (row_limit_mono s c Hle). unfold s1. store_simpl.
    change (row_limit (set_stopped _ _)) with (row_limit (set_caps c s)). lia.
  - unfold s1. store_simpl. destruct (first_submitted s) eqn:Ef; [done|].
    destruct (phase_first _ Hp Ef) as (_ & _ & Hno & _). congruence.
  - unfold s1. store_simpl. congruence.
Qed.

(** Ending a store: the phase of the transitions that release the cursor. *)
Lemma phase_released s s' :
  phase_ok s -> retained_rows s' = retained_rows s -> in_flight_rows s' = in_flight_rows s ->
  in_flight s' = in_flight s -> row_limit s' = row_limit s -> first_submitted s' = first_submitted s ->
  exhausted s' = exhausted s -> (byte_cap_allows s' <-> byte_cap_allows s) ->
  close_due s' = false -> cursor_closed s' = true -> is_Some (lobs s') ->
  (exists c, phase s' = Ended c) \/ (phase s' = phase s /\ phase s <> Active) ->
  phase_ok s'.
Proof.
  intros Hp Er Efr Ef El Efs Ee Eb Ecd Ecc El' Hph.
  split; rewrite ?Er, ?Efr, ?Ef, ?El, ?Efs, ?Ee, ?Eb, ?Ecd, ?Ecc; try done; try apply Hp.
  - intros Hfirst. destruct (phase_first _ Hp Hfirst) as (? & ? & ? & ?). split; [done|]. split; [done|].
    split; [|done]. destruct Hph as [[c ->]|[-> _]]; done.
  - destruct Hph as [[c ->]|[-> _]]; [by intros []|apply Hp].
  - destruct Hph as [[c ->]|[-> _]]; [done|apply Hp].
  - intros m. rewrite Eb. destruct Hph as [[c ->]|[-> _]]; [done|apply Hp].
  - destruct Hph as [[c ->]|[-> _]]; [done|apply Hp].
  - intros Ha. destruct Hph as [[c Hc]|[Hc Hne]]; congruence.
Qed.

Lemma end_transaction_inv s q : inv (s, q) -> inv (end_transaction s, q).
Proof.
  intros (Hc & Hs & Hf & Hp). cbn [fst snd] in *. unfold end_transaction. cbv zeta.
  change (phase (set_close_due false (set_cursor_closed true (lose_lobs LobTransactionEnded s)))) with (phase s).
  destruct (phase s) as [|k m| | |] eqn:Eph; [|destruct (_ && _)|..];
    (split; [frame Hc|]); (split; [frame Hs|]); (split; [frame Hf|]);
    eapply (phase_released s); try done; cbn; rewrite ?Eph; by eauto.
Qed.

Lemma session_ended_inv s q : inv (s, q) -> inv (session_ended s, q).
Proof.
  intros (Hc & Hs & Hf & Hp). cbn [fst snd] in *. unfold session_ended. cbv zeta.
  change (phase (set_close_due false (set_cursor_closed true (lose_lobs LobSessionEnded s)))) with (phase s).
  destruct (phase s) as [|k m| | |] eqn:Eph; cbn [is_active is_at_limit orb];
    (split; [frame Hc|]); (split; [frame Hs|]); (split; [frame Hf|]);
    eapply (phase_released s); try done; cbn; rewrite ?Eph; by eauto.
Qed.

Lemma input_inv i s q : input_ok i -> inv (s, q) -> inv (apply_input i s, q).
Proof.
  intros Hi Hinv. destruct i as [n| | | |m| | |b|o|]; cbn [apply_input input_ok] in *.
  - destruct Hinv as (Hc & Hs & Hf & Hp). split; [frame Hc|]. split; [by destruct Hs|]. split; [frame Hf|frame Hp].
  - destruct Hinv as (Hc & Hs & Hf & Hp). split; [frame Hc|]. split; [frame Hs|]. split; [frame Hf|frame Hp].
  - destruct Hinv as (Hc & Hs & Hf & Hp). split; [frame Hc|]. split; [frame Hs|]. split; [frame Hf|frame Hp].
  - destruct Hinv as (Hc & Hs & Hf & Hp). split; [frame Hc|]. split; [frame Hs|]. split; [frame Hf|frame Hp].
  - by apply fetch_more_inv.
  - destruct Hinv as (Hc & Hs & Hf & Hp). split; [frame Hc|]. split; [frame Hs|]. split; [frame Hf|].
    eapply (phase_released s); try done. left. by eexists.
  - destruct Hinv as (Hc & Hs & Hf & Hp). split; [frame Hc|]. split; [frame Hs|]. split; [frame Hf|frame Hp].
  - assert (inv (set_transaction_ends_pending (sat_sub (transaction_ends_pending s) 1) s, q)) as H1.
    { destruct Hinv as (Hc & Hs & Hf & Hp). split; [frame Hc|]. split; [frame Hs|]. split; [frame Hf|frame Hp]. }
    unfold transaction_end_answered. destruct b; [by apply end_transaction_inv|done].
  - unfold statement_executed. destruct (_ || _); [by apply end_transaction_inv|done].
  - by apply session_ended_inv.
Qed.

(** ** Submissions *)

(** What it means for a fetch to be due. *)
Lemma due_fetch s f :
  due s = Some (Fetch f) ->
  close_due s = false /\ phase s = Active /\ stopped s = false /\ exhausted s = false /\
  transaction_ends_pending s <= 0 /\ Z.of_nat (length (in_flight s)) < fetches_in_flight (policy s) /\
  (retained_rows s = 0 -> in_flight s = []) /\
  next_request_rows s = Some (request_rows f) /\
  ticket f = {| ticket_result := store_result s; ticket_sequence := next_sequence s |}.
Proof.
  unfold due. destruct (close_due s); [done|]. destruct (_ || _) eqn:E; [done|]. boolify.
  destruct (next_request_rows s) as [n|]; [|done]. intros [= <-].
  destruct (phase s); try done. destruct (in_flight s) as [|e l] eqn:El; cbn [is_nil negb] in *.
  - cbn [length] in *. repeat split; try done.
  - rewrite andb_true_r in *. boolify. repeat split; try done.
Qed.

Lemma due_close s r : due s = Some (CloseResult r) -> close_due s = true /\ r = store_result s.
Proof.
  unfold due. destruct (close_due s); [by intros [= <-]|]. destruct (_ || _); [done|].
  by destruct (next_request_rows s).
Qed.

Lemma record_fetch_inv s q f : inv (s, q) -> due s = Some (Fetch f) -> inv (record s (Fetch f), q ++ [f]).
Proof.
  intros Hinv Hdue. destruct (due_fetch s f Hdue) as (Hcd & Ha & _ & He & _ & Hslots & _ & Hn & Ht).
  destruct (next_request_bounds s q _ Hinv Hn) as (Hpos & _ & Hcap).
  destruct Hinv as (Hc & Hs & Hf & Hp). cbn [fst snd] in *. unfold record.
  split; [frame Hc|]. split; [frame Hs|]. cbn [fst snd]. split.
  - pose proof (row_width_bounds s Hs) as Hw.
    assert (0 <= sat_mul (request_rows f) (row_width s)) as Hb by (unfold sat_mul, usize_max; nia).
    destruct Hf as [H1 H2 H2b H2c H3 H4 _]. split; store_simpl.
    + rewrite flight_total_app, H1. simpl. lia.
    + apply Forall_app. split; [done|]. by constructor; [|constructor].
    + apply Forall_app. split; [done|]. by constructor; [|constructor].
    + rewrite flight_bytes_total_app. simpl. unfold sat_add, usize_max. lia.
    + apply Forall2_app; [done|]. constructor; [|constructor]. split; [by rewrite Ht|done].
    + apply Forall_app. split; [done|]. constructor; [by rewrite Ht|constructor].
    + rewrite length_app. cbn [length]. lia.
  - split; store_simpl; try done; try apply Hp.
    + change (row_limit (set_first_submitted _ _)) with (row_limit s). lia.
    + rewrite Ha. by intros [].
    + intros _ Hq. by destruct (in_flight s).
Qed.

Lemma record_close_inv s q r : inv (s, q) -> due s = Some (CloseResult r) -> inv (record s (CloseResult r), q).
Proof.
  intros (Hc & Hs & Hf & Hp) Hdue. destruct (due_close s r Hdue) as [Hcd _]. cbn [fst snd] in *. cbn [record].
  destruct (phase_close_due _ Hp Hcd) as [Hat _].
  split; [frame Hc|]. split; [frame Hs|]. split; [frame Hf|].
  eapply (phase_released s); try done. right. split; [done|]. by intros Ha; rewrite Ha in Hat.
Qed.

(** ** Replies *)

Lemma starts_from_snoc at_ segs seg : starts_from at_ (segs ++ [seg]) = starts_from at_ segs ++ [at_ + total segs].
Proof.
  revert at_. induction segs as [|x segs IH]; intros at_; simpl; [by rewrite Z.add_0_r|].
  rewrite IH. do 3 f_equal. lia.
Qed.

Lemma uniform_snoc segs seg :
  uniform_segments segs ->
  (forall second l, (3 <= length segs)%nat -> segs !! 1%nat = Some second -> last segs = Some l -> seg_rows second = seg_rows l) ->
  uniform_segments (segs ++ [seg]).
Proof.
  intros Hu Hlast i x second H2 Hi Hlen Hx. rewrite length_app in Hlen. cbn [length] in Hlen.
  rewrite lookup_app_l in Hx by lia. rewrite lookup_app_l in H2 by lia.
  destruct (decide (S i < length segs)%nat) as [|Hge]; [by eapply Hu|].
  assert (last segs = Some x) as Hl.
  { rewrite last_lookup. by replace (pred (length segs)) with i by lia. }
  destruct (decide (3 <= length segs)%nat) as [H3|H3].
  - symmetry. by eapply Hlast.
  - assert (i = 1)%nat as -> by lia. congruence.
Qed.

(** Appending, as one update of the content. *)
Lemma append_eq s seg : exists u c1 c2,
  append s seg =
    set_segments (mkVec (elems (segments s) ++ [seg]) c1)
      (set_segment_bytes (segment_bytes s + accounted_bytes seg)
      (set_retained_rows (retained_rows s + seg_rows seg)
      (set_starts (mkVec (elems (starts s) ++ [retained_rows s]) c2) (set_uniform u s)))) /\
  (u = true -> uniform s = true /\
     forall second l, (3 <= length (elems (segments s)))%nat -> elems (segments s) !! 1%nat = Some second ->
       last (elems (segments s)) = Some l -> seg_rows second = seg_rows l).
Proof.
  unfold append. cbv zeta. destruct ((3 <=? _)%nat && _) eqn:E.
  - exists false. by do 2 eexists.
  - exists (uniform s). do 2 eexists. split; [by destruct s|]. intros Hu. split; [done|].
    intros second l Hlen Hs2 Hl. rewrite (proj2 (Nat.leb_le _ _) Hlen), Hs2, Hl in E. cbn [andb] in E. by boolify.
Qed.

Lemma append_content s seg : content_ok s -> 1 <= seg_rows seg -> content_ok (append s seg).
Proof.
  intros [H1 H2 H3 H4 H5] Hr. destruct (append_eq s seg) as (u & c1 & c2 & -> & Hu). split; store_simpl; cbn [elems].
  - apply Forall_app. split; [done|by constructor; [|constructor]].
  - by rewrite starts_from_snoc, Z.add_0_l, <- H3, <- H2.
  - rewrite total_app, H3. simpl. lia.
  - rewrite total_bytes_app, H4. simpl. lia.
  - intros ->. destruct (Hu eq_refl) as [Hu1 Hu2]. apply uniform_snoc; [by apply H5|done].
Qed.

(** The store after the reply at the head of the queue is taken off the books. *)
Lemma forget_flight s e l f q :
  flight_ok s (f :: q) -> in_flight s = e :: l ->
  flight_ok (forget (set_in_flight l s) e) q /\ same_fetch e f /\ 1 <= flight_rows e /\
  in_flight_rows (forget (set_in_flight l s) e) = in_flight_rows s - flight_rows e.
Proof.
  intros [H1 H2 H2b H2c H3 H4 H5] El. rewrite El in *.
  apply Forall_cons in H2 as [Hpos H2]. apply Forall_cons in H2b as [Hposb H2b].
  pose proof (flight_bytes_total_nonneg _ H2b). apply Forall2_cons in H3 as [He H3]. apply Forall_cons in H4 as [_ H4].
  split; [|done]. split; store_simpl; try done.
  - unfold forget. store_simpl. rewrite H1. simpl. lia.
  - unfold forget. store_simpl. simpl in H2c. unfold sat_sub. lia.
  - unfold forget. store_simpl. cbn [length] in H5. lia.
Qed.

(** A store failing on a reply. *)
Lemma phase_failed s' a e :
  phase s' = Failed a e -> retained_rows s' + in_flight_rows s' <= row_limit s' + 1 ->
  (first_submitted s' = true) -> close_due s' = false -> (cursor_closed s' = true -> is_Some (lobs s')) ->
  phase_ok s'.
Proof.
  intros Hph Hcap Hfirst Hcd Hlobs. split; rewrite ?Hph, ?Hfirst, ?Hcd; try done. by intros [].
Qed.

(** A store in a phase that takes no rows forgets the fetch and nothing else. *)
Lemma phase_stale s e l :
  phase_ok s -> in_flight s = e :: l -> is_active (phase s) = false -> 1 <= flight_rows e ->
  phase_ok (forget (set_in_flight l s) e).
Proof.
  intros Hp El Hna Hpos. split; unfold forget; store_simpl; try apply Hp.
  - pose proof (phase_cap _ Hp). change (row_limit _) with (row_limit s). lia.
  - intros Hf. destruct (phase_first _ Hp Hf) as (_ & Hq & _). congruence.
  - intros Hr. pose proof (phase_resting _ Hp Hr). congruence.
  - intros Ha. by rewrite Ha in Hna.
Qed.

Lemma on_fetched_inv s q f reply s' outcome :
  inv (s, f :: q) -> reply_fits f reply -> on_fetched true s (ticket f) reply = Ret (s', outcome) -> inv (s', q).
Proof.
  intros (Hc & Hs & Hf & Hp) Hfits E. cbn [fst snd] in *. unfold on_fetched in E.
  pose proof (flight_result _ _ Hf) as Hres. apply Forall_cons in Hres as [Hres _].
  rewrite bool_decide_eq_true_2 in E by done. cbn [negb] in E.
  destruct (in_flight s) as [|e l] eqn:El; [done|]. destruct (_ =? _); [|done].
  destruct (forget_flight s e l f q Hf El) as (Hf1 & [_ Hsame] & Hpos & Hfr).
  set (s1 := forget (set_in_flight l s) e) in *.
  assert (content_ok s1) as Hc1 by (frame Hc). assert (static_ok s1) as Hs1 by (frame Hs).
  change (phase s1) with (phase s) in E. change (store_columns s1) with (store_columns s) in E.
  destruct (is_active (phase s)) eqn:Ha; cbn [negb] in E.
  2:{ injection E as <- _. split; [done|]. split; [done|]. split; [done|]. by apply phase_stale. }
  assert (phase s = Active) as Hact by (by destruct (phase s)).
  assert (first_submitted s = true) as Hfirst.
  { destruct (first_submitted s) eqn:Efs; [done|]. destruct (phase_first _ Hp Efs) as (_ & Hq & _). congruence. }
  assert (close_due s = false) as Hcd.
  { destruct (close_due s) eqn:Ecd; [|done]. destruct (phase_close_due _ Hp Ecd) as [Hat _]. by rewrite Hact in Hat. }
  pose proof (phase_cap _ Hp) as Hcap. pose proof (phase_closed _ Hp) as Hlobs.
  assert (retained_rows s1 + in_flight_rows s1 <= row_limit s1 + 1) as Hcap1
    by (rewrite Hfr; change (retained_rows s1) with (retained_rows s); change (row_limit s1) with (row_limit s); lia).
  destruct reply as [rep|err].
  - cbn [reply_fits] in Hfits. destruct ((0 <? _) && _).
    { injection E as <- _. split; [frame Hc1|]. split; [frame Hs1|]. split; [frame Hf1|].
      by eapply phase_failed. }
    injection E as <- _. set (s2 := if reply_exhausted rep then set_exhausted true s1 else s1).
    assert (content_ok s2 /\ static_ok s2 /\ flight_ok s2 q) as (Hc2 & Hs2 & Hf2).
    { unfold s2. destruct (reply_exhausted rep); [|done]. split; [frame Hc1|]. split; [frame Hs1|frame Hf1]. }
    assert (unsettled (if 0 <? seg_rows (segment rep) then append s2 (segment rep) else s2)) as Hu.
    { destruct (0 <? seg_rows (segment rep)).
      - destruct (append_eq s2 (segment rep)) as (u & c1 & c2 & -> & _). unfold s2.
        destruct (reply_exhausted rep); split; store_simpl; try done;
          change (row_limit _) with (row_limit s);
          change (in_flight_rows (set_exhausted true s1)) with (in_flight_rows s1);
          change (retained_rows (set_exhausted true s1)) with (retained_rows s);
          change (retained_rows s1) with (retained_rows s); rewrite Hfr; lia.
      - unfold s2. by destruct (reply_exhausted rep); split. }
    destruct (0 <? seg_rows (segment rep)) eqn:Er; boolify.
    + destruct (append_eq s2 (segment rep)) as (u & c1 & c2 & Eapp & _).
      assert (flight_ok (append s2 (segment rep)) q) as Hf3 by (rewrite Eapp; frame Hf2).
      split; [apply settle_content, append_content; [done|lia]|].
      split; [apply settle_static; rewrite Eapp; frame Hs2|].
      split; [by apply settle_flight|]. by eapply settle_phase_ok.
    + split; [by apply settle_content|]. split; [by apply settle_static|].
      split; [by apply settle_flight|]. by eapply settle_phase_ok.
  - injection E as <- _. split; [frame Hc1|]. split; [frame Hs1|]. split; [frame Hf1|].
    by eapply phase_failed.
Qed.

Lemma step_inv c c' : step c c' -> inv c -> inv c'.
Proof.
  intros [] Hinv; eauto using input_inv, record_fetch_inv, record_close_inv, on_fetched_inv.
Qed.

Lemma start_inv r columns p : policy_ok p -> inv (start r columns p).
Proof.
  intros Hp. split; [|split; [|split]]; cbn.
  - split; try done.
  - split; cbn; [done|apply Hp| |unfold usize_max; lia].
    split; [apply declared_row_width_pos|apply declared_row_width_usize].
  - split; cbn; try done. destruct Hp. lia.
  - split; cbn; try done. pose proof (row_limit_bounds (store_new r columns p)) as Hl. cbn in Hl.
    specialize (Hl ltac:(apply Hp)). unfold row_limit, store_new in *. cbn in *. lia.
Qed.

Lemma reachable_inv r columns p c : policy_ok p -> reachable (start r columns p) c -> inv c.
Proof. intros Hp. induction 1; eauto using start_inv, step_inv. Qed.
End system.
