(* ===== verification/StoreTheorems.v ===== *)
(** * What the result store promises (db-core/src/store/result_store.rs)

    A row is found by a division while the segments are uniform and by a binary
    search otherwise; both agree with walking the segments from the first.
    Then what a step can change, and what an accepted reply does. *)

From stdpp Require Import relations.
From S2P Require Import Prelude RustStr Errors Columns Segment Policy ResultStore ResultStoreProps.
Open Scope Z_scope.
Open Scope run_scope.

(** The reference: walk the segments. *)
Fixpoint find_segment (segs : list ResultSegment) (row : Z) : option nat :=
  match segs with
  | [] => None
  | seg :: rest => if row <? seg_rows seg then Some 0%nat else S <$> find_segment rest (row - seg_rows seg)
  end.

Lemma find_segment_spec segs row i :
  0 <= row -> find_segment segs row = Some i <->
  exists seg, segs !! i = Some seg /\ total (take i segs) <= row < total (take i segs) + seg_rows seg.
Proof.
  revert row i. induction segs as [|seg segs IH]; intros row i Hrow; cbn [find_segment].
  { split; [done|]. by intros (seg & ? & _). }
  destruct (row <? seg_rows seg) eqn:E; boolify.
  - split.
    + intros [= <-]. exists seg. split; [done|]. simpl. lia.
    + intros (x & Hx & Ht). destruct i as [|i]; [done|]. exfalso. simpl in Ht.
      pose proof (total_nonneg (take i segs)). lia.
  - destruct i as [|i].
    + split; [by intros (? & _ & ?)%fmap_Some|]. intros (x & [= <-] & Ht). simpl in Ht. lia.
    + rewrite fmap_Some. split.
      * intros (j & Hj & [= <-]). apply IH in Hj as (x & Hx & Ht); [|lia]. exists x. split; [done|]. simpl. lia.
      * intros (x & Hx & Ht). exists i. split; [|done]. apply IH; [lia|]. exists x. split; [done|]. simpl in Ht. lia.
Qed.

Lemma find_segment_total segs row : 0 <= row < total segs -> is_Some (find_segment segs row).
Proof.
  revert row. induction segs as [|seg segs IH]; intros row; cbn [find_segment total foldr]; [lia|].
  intros Hr. destruct (_ <? _) eqn:E; boolify; [done|]. apply fmap_is_Some, IH.
  unfold total in *. cbn [foldr] in Hr. lia.
Qed.

Lemma find_segment_None segs row :
  Forall (fun seg => 1 <= seg_rows seg) segs -> total segs <= row -> find_segment segs row = None.
Proof.
  intros Hp. revert row. induction Hp as [|seg segs Hs Hp IH]; intros row; cbn [find_segment total foldr]; [done|].
  intros Ht. fold (total segs) in Ht. pose proof (total_nonneg segs).
  rewrite (proj2 (Z.ltb_ge _ _)) by lia. rewrite IH; [done|lia].
Qed.

(** ** Binary search *)

Lemma starts_from_lookup at_ segs i :
  (i < length segs)%nat -> starts_from at_ segs !! i = Some (at_ + total (take i segs)).
Proof.
  revert at_ i. induction segs as [|seg segs IH]; intros at_ [|i] Hi; cbn [starts_from take length] in *; try lia.
  - simpl. f_equal. lia.
  - simpl lookup. rewrite IH by lia. simpl. f_equal. lia.
Qed.

Lemma partition_point_spec at_ segs row :
  Forall (fun seg => 1 <= seg_rows seg) segs -> at_ <= row < at_ + total segs ->
  Some (partition_point (fun start => start <=? row) (starts_from at_ segs)) = S <$> find_segment segs (row - at_).
Proof.
  intros Hp. revert at_. unfold partition_point.
  induction Hp as [|seg segs Hs Hp IH]; intros at_; [cbn; lia|].
  intros Hr. cbn [total foldr] in Hr. fold (total segs) in Hr. cbn [starts_from count_while find_segment].
  rewrite (proj2 (Z.leb_le at_ row)) by lia. destruct (row - at_ <? seg_rows seg) eqn:E; boolify.
  - cbn [fmap option_fmap option_map]. do 2 f_equal. apply count_while_stop. intros x.
    destruct segs as [|s2 rest]; [done|]. intros [= <-]. apply Z.leb_gt. lia.
  - replace (row - at_ - seg_rows seg) with (row - (at_ + seg_rows seg)) by lia.
    assert (at_ + seg_rows seg <= row < at_ + seg_rows seg + total segs) as Hr' by lia.
    specialize (IH _ Hr'). destruct (find_segment segs _) as [i|]; [|done]. injection IH as ->. done.
Qed.

(** ** Division *)

(** Up to the last segment, the middle ones have the second's rows. *)
Lemma uniform_total segs seg0 seg1 i :
  uniform_segments segs -> segs !! 0%nat = Some seg0 -> segs !! 1%nat = Some seg1 ->
  (1 <= i < length segs)%nat ->
  total (take i segs) = seg_rows seg0 + (Z.of_nat i - 1) * seg_rows seg1.
Proof.
  intros Hu H0 H1. induction i as [|i IH]; intros Hi; [lia|].
  destruct (decide (i = 0)%nat) as [->|Hne].
  { destruct segs as [|x segs]; [done|]. injection H0 as ->. simpl. lia. }
  destruct (lookup_lt_is_Some_2 segs i ltac:(lia)) as [seg Hseg].
  rewrite (take_S_r _ _ _ Hseg), total_app, IH by lia. simpl.
  rewrite (Hu i seg seg1 H1 ltac:(lia) ltac:(lia) Hseg). lia.
Qed.

Lemma division_spec segs seg0 seg1 row :
  uniform_segments segs -> segs !! 0%nat = Some seg0 -> segs !! 1%nat = Some seg1 ->
  1 <= seg_rows seg1 -> seg_rows seg0 <= row < total segs ->
  find_segment segs row =
    Some (Nat.min (1 + Z.to_nat ((row - seg_rows seg0) / seg_rows seg1)) (length segs - 1)).
Proof.
  intros Hu H0 H1 Hpos Hr. pose proof (lookup_lt_Some _ _ _ H1) as Hlen.
  set (d := (row - seg_rows seg0) / seg_rows seg1).
  assert (0 <= d) as Hd by (apply Z.div_pos; lia).
  pose proof (Z.div_mod (row - seg_rows seg0) (seg_rows seg1) ltac:(lia)) as Hdm. fold d in Hdm.
  pose proof (Z.mod_pos_bound (row - seg_rows seg0) (seg_rows seg1) ltac:(lia)) as Hm.
  set (i := Nat.min _ _). assert (1 <= i < length segs)%nat as Hi by (unfold i; lia).
  assert (0 <= seg_rows seg0) by (unfold seg_rows; lia).
  destruct (lookup_lt_is_Some_2 segs i ltac:(lia)) as [seg Hseg].
  apply find_segment_spec; [lia|]. exists seg. split; [done|].
  pose proof (uniform_total segs seg0 seg1 i Hu H0 H1 Hi) as Ht.
  destruct (decide (S i < length segs)%nat) as [Hlt|Hge].
  - rewrite (Hu i seg seg1 H1 ltac:(lia) Hlt Hseg), Ht.
    assert (Z.of_nat i - 1 = d) as -> by (unfold i; lia). lia.
  - assert (total segs = total (take i segs) + seg_rows seg) as Htot.
    { rewrite <- (take_drop_middle segs i seg Hseg) at 1. rewrite total_app. simpl.
      rewrite (drop_ge segs (S i)) by lia. simpl. lia. }
    split; [|lia]. rewrite Ht. assert (Z.of_nat i - 1 <= d) by (unfold i; lia). nia.
Qed.

Section lookup.
Context `{Layout} `{Alloc}.

Lemma segment_index_spec s row :
  content_ok s -> 0 <= row -> segment_index s row = Ret (find_segment (elems (segments s)) row).
Proof.
  intros [Hp Hst Hret _ Hun] Hrow. unfold segment_index. rewrite Hret.
  destruct (_ <=? row) eqn:E; boolify; [by rewrite find_segment_None|].
  set (segs := elems (segments s)) in *.
  destruct segs as [|seg0 rest] eqn:Esegs; [cbn in E; lia|]. rewrite <- Esegs in *. 
  assert (segs !! 0%nat = Some seg0) as H0seg by (by rewrite Esegs).
  assert (checked_sub1 (length segs) = Some (length segs - 1)%nat) as -> by (rewrite Esegs; simpl; f_equal; lia).
  destruct (uniform s) eqn:Eu.
  - rewrite H0seg. cbv zeta. destruct (row <? seg_rows seg0) eqn:E0; boolify.
    { f_equal. symmetry. apply find_segment_spec; [done|]. exists seg0. split; [done|]. rewrite take_0. simpl. lia. }
    destruct (segs !! 1%nat) as [seg1|] eqn:E1.
    + assert (1 <= seg_rows seg1) as Hpos by (exact (Forall_lookup_1 _ _ _ _ Hp E1)).
      rewrite (proj2 (Z.eqb_neq _ _)) by lia. f_equal. symmetry. apply division_spec; auto. 
    + exfalso. destruct rest as [|seg1 rest]; [|by rewrite Esegs in E1].
      rewrite Esegs in E. simpl in E. lia.
  - f_equal. rewrite Hst.
    pose proof (partition_point_spec 0 segs row Hp ltac:(lia)) as Hpp. rewrite Z.sub_0_r in Hpp.
    destruct (find_segment segs row) as [i|]; [|done]. injection Hpp as ->. done.
Qed.

(** The segment of a row, as the walk finds it. *)
Lemma segment_for_row_spec s row :
  content_ok s -> 0 <= row ->
  exists r, segment_for_row s row = Ret r /\
    (r = None <-> shown_rows s <= row) /\
    forall seg first, r = Some (seg, first) ->
      exists i, find_segment (elems (segments s)) row = Some i /\ elems (segments s) !! i = Some seg /\
        first = total (take i (elems (segments s))) /\ first <= row < first + seg_rows seg.
Proof.
  intros Hc Hrow. unfold segment_for_row. destruct (shown_rows s <=? row) eqn:E; boolify.
  { exists None. split; [done|]. split; [done|]. done. }
  rewrite (segment_index_spec s row Hc Hrow). cbn [rbind]. eexists. split; [done|].
  assert (row < total (elems (segments s))) as Hlt by (rewrite <- (content_retained _ Hc); unfold shown_rows in E; lia).
  destruct (find_segment_total (elems (segments s)) row ltac:(lia)) as [i Hi]. rewrite Hi.
  destruct (proj1 (find_segment_spec _ _ _ Hrow) Hi) as (seg & Hseg & Hr). rewrite Hseg.
  rewrite (content_starts _ Hc), starts_from_lookup by (by eapply lookup_lt_Some).
  split; [split; [done|lia]|]. intros seg' first [= <- <-]. exists i. rewrite Z.add_0_l. done.
Qed.
End lookup.

(** ** Steps of a store *)


Section theorems.
Context `{Layout} `{Alloc}.

(** ** What a step can change *)

(** The retained prefix only grows, the row cap only rises, and the reason the
    large objects are lost is said once. *)
Record grows (s s' : ResultStore) : Prop := {
  grows_segments : elems (segments s) `prefix_of` elems (segments s');
  grows_limit : row_limit s <= row_limit s';
  grows_lobs : forall why, lobs s = Some why -> lobs s' = Some why;
}.

Lemma settle_segments s : segments (settle s) = segments s.
Proof. by apply (settle_frame (fun x => segments x = segments s)). Qed.

Lemma lose_lobs_keeps why s w : lobs s = Some w -> lobs (lose_lobs why s) = Some w.
Proof. unfold lose_lobs. store_simpl. by intros ->. Qed.

Lemma grows_same s s' :
  segments s' = segments s -> row_limit s' = row_limit s -> (forall w, lobs s = Some w -> lobs s' = Some w) -> grows s s'.
Proof. intros E1 E2 E3. split; [by rewrite E1|lia|done]. Qed.

Lemma end_transaction_grows s : grows s (end_transaction s).
Proof.
  unfold end_transaction. cbv zeta.
  destruct (phase _); [|destruct (_ && _)|..]; apply grows_same; try done; apply lose_lobs_keeps.
Qed.

Lemma input_grows i s q : inv (s, q) -> grows s (apply_input i s).
Proof.
  intros (_ & Hs & _ & _). cbn [fst] in *.
  destruct i as [n| | | |m| | |b|o|]; cbn [apply_input]; try (by apply grows_same).
  - unfold fetch_more. destruct (_ || _); [by apply grows_same|]. cbn [fst].
    set (c := match m with Step => _ | UnlimitedMore => _ end). split.
    + by rewrite settle_segments.
    + rewrite settle_limit. apply row_limit_mono. unfold c. destruct m.
      * apply cap_le_raised; [apply Hs|apply (static_policy _ Hs)].
      * by destruct (value (max_rows (caps s))).
    + by rewrite settle_lobs.
  - apply grows_same; [done|done|]. intros w Hw. unfold discard. apply lose_lobs_keeps. exact Hw.
  - unfold transaction_end_answered. destruct b; [|by apply grows_same].
    destruct (end_transaction_grows (set_transaction_ends_pending (sat_sub (transaction_ends_pending s) 1) s)).
    by split.
  - unfold statement_executed. destruct (_ || _); [apply end_transaction_grows|by apply grows_same].
  - unfold session_ended. cbv zeta. destruct (_ || _); apply grows_same; try done; apply lose_lobs_keeps.
Qed.

Lemma on_fetched_grows s t reply s' o : on_fetched true s t reply = Ret (s', o) -> grows s s'.
Proof.
  unfold on_fetched. destruct (negb _); [intros [= <- _]; by apply grows_same|].
  destruct (in_flight s) as [|e l]; [done|]. destruct (_ =? _); [|done].
  destruct (negb _); [intros [= <- _]; by apply grows_same|]. destruct reply as [rep|err].
  - destruct (_ && _); [intros [= <- _]; by apply grows_same|]. intros [= <- _].
    set (s1 := if reply_exhausted rep then _ else _).
    assert (segments s1 = segments s /\ row_limit s1 = row_limit s /\ lobs s1 = lobs s) as (E1 & E2 & E3)
      by (unfold s1; by destruct (reply_exhausted rep)).
    split; rewrite ?settle_segments, ?settle_limit, ?settle_lobs.
    + destruct (0 <? _); [|by rewrite E1]. destruct (append_eq s1 (segment rep)) as (u & c1 & c2 & -> & _).
      store_simpl. rewrite E1. cbn [elems]. by eexists.
    + destruct (0 <? _); [|lia]. destruct (append_eq s1 (segment rep)) as (u & c1 & c2 & -> & _).
      match goal with |- _ <= row_limit ?x => change (row_limit x) with (row_limit s1) end. lia.
    + destruct (0 <? _); [|by rewrite E3]. destruct (append_eq s1 (segment rep)) as (u & c1 & c2 & -> & _).
      store_simpl. by rewrite E3.
  - intros [= <- _]. apply grows_same; [done|done|]. intros w Hw. store_simpl. by apply lose_lobs_keeps.
Qed.

Lemma step_grows c c' : inv c -> step c c' -> grows c.1 c'.1.
Proof.
  intros Hinv Hstep. destruct Hstep; cbn [fst].
  - by eapply input_grows.
  - by apply grows_same.
  - apply grows_same; [done|done|]. intros w Hw. cbn [record]. apply lose_lobs_keeps. exact Hw.
  - by eapply on_fetched_grows.
Qed.

(** The policy is the one the store was opened with. *)
Lemma step_policy c c' : step c c' -> policy c'.1 = policy c.1.
Proof.
  intros Hstep. destruct Hstep as [i s q _| | |s q f reply s' o _ E]; cbn [fst]; try done.
  - destruct i as [n| | | |m| | |b|o|]; cbn [apply_input]; try done.
    + unfold fetch_more. destruct (_ || _); [done|]. cbn [fst].
      by apply (settle_frame (fun x => policy x = policy s)).
    + unfold transaction_end_answered, end_transaction. destruct b; [|done]. cbv zeta.
      destruct (phase _); [|destruct (_ && _)|..]; done.
    + unfold statement_executed, end_transaction. destruct (_ || _); [|done]. cbv zeta.
      destruct (phase _); [|destruct (_ && _)|..]; done.
    + unfold session_ended. cbv zeta. by destruct (_ || _).
  - revert E. unfold on_fetched. destruct (negb _); [by intros [= <- _]|].
    destruct (in_flight s) as [|e l]; [done|]. destruct (_ =? _); [|done].
    destruct (negb _); [by intros [= <- _]|]. destruct reply as [rep|err]; [|by intros [= <- _]].
    destruct (_ && _); [by intros [= <- _]|]. intros [= <- _].
    apply (settle_frame (fun x => policy x = policy s)); try intros ph;
      (destruct (0 <? _); [|by destruct (reply_exhausted rep)]);
      match goal with |- context [append ?x ?y] => destruct (append_eq x y) as (u & c1 & c2 & -> & _) end;
      by destruct (reply_exhausted rep).
Qed.

Lemma reachable_policy r columns p c : reachable (start r columns p) c -> policy c.1 = p.
Proof. induction 1 as [|c c' _ IH Hstep]; [done|]. by rewrite (step_policy _ _ Hstep). Qed.

(** ** Reading *)

Lemma find_segment_app segs more row i :
  0 <= row -> find_segment segs row = Some i -> find_segment (segs ++ more) row = Some i.
Proof.
  intros Hrow Hi. apply find_segment_spec in Hi as (seg & Hseg & Hr); [|done]. apply find_segment_spec; [done|].
  exists seg. split; [by apply lookup_app_l_Some|].
  rewrite take_app_le; [done|]. apply lookup_lt_Some in Hseg. lia.
Qed.

(** What a cell reads, through the walk. *)
Definition cell_now (s : ResultStore) (cell : CellValue) : CellValue :=
  match cell, lobs s with CellLob _, Some reason => CellLobUnavailable reason | _, _ => cell end.

Lemma store_value_spec s row col :
  content_ok s -> 0 <= row ->
  store_value s row col = Ret (
    if shown_rows s <=? row then None
    else match find_segment (elems (segments s)) row with
    | Some i =>
        match elems (segments s) !! i with
        | Some seg => cell_now s <$> segment_value seg (Z.to_nat (row - total (take i (elems (segments s))))) col
        | None => None
        end
    | None => None
    end).
Proof.
  intros Hc Hrow. unfold store_value. destruct (segment_for_row_spec s row Hc Hrow) as (r & -> & Hnone & Hsome).
  cbn [rbind]. f_equal. destruct r as [[seg first]|].
  - destruct (Hsome _ _ eq_refl) as (i & -> & -> & -> & _). rewrite (proj2 (Z.leb_gt _ _)).
    + destruct (segment_value _ _ _) as [cell|]; [|done]. simpl. unfold cell_now. by destruct cell, (lobs s).
    + destruct (Z.le_gt_cases (shown_rows s) row) as [Hle|]; [|done]. apply Hnone in Hle. done.
  - by rewrite (proj2 (Z.leb_le _ _)) by (by apply Hnone).
Qed.

(** How a cell already shown may change: not at all, or from a readable large
    object to one that is not. *)
Inductive cell_later : CellValue -> CellValue -> Prop :=
| later_same v : cell_later v v
| later_lost h why : cell_later (CellLob h) (CellLobUnavailable why).

Lemma value_stable s s' row col v :
  content_ok s -> content_ok s' -> grows s s' -> 0 <= row ->
  store_value s row col = Ret (Some v) -> exists v', store_value s' row col = Ret (Some v') /\ cell_later v v'.
Proof.
  intros Hc Hc' [Hpre Hlim Hlob] Hrow. rewrite !store_value_spec by done.
  destruct (shown_rows s <=? row) eqn:E; boolify; [done|].
  destruct (find_segment (elems (segments s)) row) as [i|] eqn:Ei; [|done].
  destruct (elems (segments s) !! i) as [seg|] eqn:Eseg; [|done].
  destruct Hpre as [more Emore].
  assert (shown_rows s <= shown_rows s') as Hshown.
  { unfold shown_rows. rewrite (content_retained _ Hc), (content_retained _ Hc'), Emore, total_app.
    pose proof (total_nonneg more). lia. }
  rewrite (proj2 (Z.leb_gt (shown_rows s') row)) by lia.
  rewrite Emore, (find_segment_app _ _ _ _ Hrow Ei), (lookup_app_l_Some _ _ _ _ Eseg).
  rewrite take_app_le by (apply lookup_lt_Some in Eseg; lia).
  destruct (segment_value _ _ _) as [cell|]; [|done]. intros [= <-]. eexists. split; [done|].
  unfold cell_now. destruct cell; try apply later_same.
  destruct (lobs s) as [w|] eqn:El; [rewrite (Hlob w eq_refl); apply later_same|].
  destruct (lobs s'); constructor.
Qed.

(** ** Pumping *)

(** The turns left to a pump: the free slots, and a close if one is due. *)
Definition turns_left (s : ResultStore) : Z :=
  fetches_in_flight (policy s) - Z.of_nat (length (in_flight s)) + (if close_due s then 1 else 0).

Lemma record_turns s a : due s = Some a -> turns_left (record s a) = turns_left s - 1 /\ policy (record s a) = policy s.
Proof.
  intros Hdue. destruct a as [f|r].
  - destruct (due_fetch s f Hdue) as (Hcd & _). split; [|done]. unfold turns_left, record. store_simpl.
    rewrite Hcd, length_app. cbn [length]. lia.
  - destruct (due_close s r Hdue) as [Hcd _]. split; [|done]. unfold turns_left, record, lose_lobs. store_simpl.
    rewrite Hcd. lia.
Qed.

Lemma due_turns s q a : inv (s, q) -> due s = Some a -> 1 <= turns_left s.
Proof.
  intros (_ & _ & Hf & _) Hdue. pose proof (flight_slots _ _ Hf) as Hsl. cbn [fst snd] in Hsl. unfold turns_left.
  destruct a as [f|r].
  - destruct (due_fetch s f Hdue) as (Hcd & _ & _ & _ & _ & Hlt & _). rewrite Hcd. lia.
  - destruct (due_close s r Hdue) as [Hcd _]. rewrite Hcd. lia.
Qed.

(** What a pump leaves behind. *)
Definition pumped {St} (s : ResultStore) (q : list FetchRequest) (n : Z)
    (out : St * ResultStore * result Z DbError) : Prop :=
  let '(_, s', r) := out in
  exists q', rtc step (s, q) (s', q') /\ policy s' = policy s /\
    match r with
    | Ok m => due s' = None /\ n <= m <= n + turns_left s
    | Err _ => is_Some (due s')
    end.

Lemma record_step s q a : due s = Some a -> exists q', step (s, q) (record s a, q').
Proof. destruct a as [f|r]; intros Hdue; [exists (q ++ [f])|exists q]; by constructor. Qed.

Lemma pump_loop_spec {St} (submit : St -> StoreAction -> St * result unit DbError) fuel st s q n :
  inv (s, q) -> turns_left s <= Z.of_nat fuel -> wp (pump_loop submit fuel st s n) (pumped s q n).
Proof.
  revert st s q n. induction fuel as [|fuel IH]; intros st s q n Hinv Hturns; cbn [pump_loop];
    destruct (due s) as [a|] eqn:Hdue.
  - pose proof (due_turns s q a Hinv Hdue). lia.
  - apply wp_ret. exists q. split; [apply rtc_refl|]. split; [done|]. split; [done|].
    destruct Hinv as (_ & _ & Hf & _). pose proof (flight_slots _ _ Hf) as Hsl. cbn [fst snd] in Hsl.
    unfold turns_left in *. destruct (close_due s); lia.
  - destruct (submit st a) as [st1 [u|e]].
    + destruct (record_step s q a Hdue) as [q1 Hstep]. pose proof (step_inv _ _ Hstep Hinv) as Hinv1.
      destruct (record_turns s a Hdue) as [Ht Hpol].
      eapply wp_mono; [apply (IH st1 _ q1 (n + 1) Hinv1); lia|].
      intros [[st' s'] r] (q' & Hsteps & Hpol' & Hr). exists q'.
      split; [by eapply rtc_l|]. split; [congruence|]. destruct r as [m|e]; [|done].
      destruct Hr as [Hd Hm]. split; [done|]. lia.
    + apply wp_ret. exists q. split; [apply rtc_refl|]. split; [done|]. by rewrite Hdue.
  - apply wp_ret. exists q. split; [apply rtc_refl|]. split; [done|]. split; [done|].
    destruct Hinv as (_ & _ & Hf & _). pose proof (flight_slots _ _ Hf) as Hsl. cbn [fst snd] in Hsl.
    unfold turns_left in *. destruct (close_due s); lia.
Qed.

(** ** Progress *)

(** The bytes retained, and one more row, are within the address space. *)
Definition fits_memory (s : ResultStore) : Prop := retained_bytes s + row_width s <= usize_max.

Lemma due_when_active s q :
  inv (s, q) -> fits_memory s -> phase s = Active -> in_flight s = [] -> stopped s = false -> transaction_ends_pending s <= 0 ->
  fetch_all s = true \/ first_submitted s = false \/ retained_rows s < sat_add (demand s) (rows_per_round_trip s) ->
  exists f, due s = Some (Fetch f).
Proof.
  intros (Hc & Hs & Hf & Hp) Hmem Ha Hq Hst Htx Hwant. cbn [fst snd] in *.
  assert (close_due s = false) as Hcd.
  { destruct (close_due s) eqn:E; [|done]. destruct (phase_close_due _ Hp E) as [Hat _]. by rewrite Ha in Hat. }
  pose proof (flight_sum _ _ Hf) as Hsum. rewrite Hq in Hsum. simpl in Hsum.
  pose proof (row_limit_bounds s (static_caps _ Hs)) as Hl. unfold GRID_ROW_CEILING in Hl.
  pose proof (row_width_bounds s Hs) as Hw. pose proof (rows_per_round_trip_bounds s Hs) as Ht.
  pose proof (retained_nonneg s Hc) as Hr0. pose proof (policy_in_flight _ (static_policy _ Hs)) as Hslots.
  assert (exhausted s = false) as He.
  { destruct (first_submitted s) eqn:Efs; [|by apply (phase_first _ Hp Efs)]. by apply (phase_settled _ Hp Ha Hq Efs). }
  assert (exists n, next_request_rows s = Some n) as [n Hn].
  { unfold next_request_rows. cbv zeta. rewrite Hsum, Z.add_0_r. destruct (first_submitted s) eqn:Efs; cbn [negb andb].
    - destruct (phase_settled _ Hp Ha Hq Efs) as (Hrl & _ & Hb).
      assert (((if fetch_all s then usize_max else sat_add (demand s) (rows_per_round_trip s)) <=? retained_rows s) = false) as ->.
      { apply Z.leb_gt. destruct (fetch_all s) eqn:Efa; [unfold usize_max; lia|]. destruct Hwant as [?|[?|?]]; done. }
      set (byte_room := match limit (value (max_bytes _)) with None => _ | Some _ => _ end).
      assert (1 <= byte_room) as Hbr.
      { unfold byte_room. unfold byte_cap_allows in Hb.
        destruct (limit (value (max_bytes (caps s)))) as [cap|]; [|unfold usize_max; lia].
        pose proof (flight_bytes_bound _ _ Hf) as Hfb. rewrite Hq in Hfb. simpl in Hfb.
        unfold fits_memory in Hmem. apply Z.div_le_lower_bound; [lia|]. unfold sat_sub, sat_add, usize_max in *. lia. }
      unfold non_zero, sat_sub, sat_add. rewrite (Z.min_l (row_limit s + 1)) by (unfold usize_max; lia).
      rewrite (proj2 (Z.eqb_neq _ _)); [by eexists|]. lia.
    - destruct (non_zero _); by eexists. }
  unfold due. rewrite Hcd, Ha, Hst, He, Hq, Hn. cbn [is_active negb orb is_nil length].
  rewrite (proj2 (Z.ltb_ge _ _)), (proj2 (Z.leb_gt _ _)), andb_false_r by lia. by eexists.
Qed.

(** ** Replies at the head of the queue *)

Lemma on_fetched_head s q f reply :
  inv (s, f :: q) -> exists e l, in_flight s = e :: l /\ 
    on_fetched true s (ticket f) reply =
      let s1 := forget (set_in_flight l s) e in
      if negb (is_active (phase s)) then Ret (s1, Stale)
      else match reply with
      | Err error =>
          let reason := if bool_decide (session_state error = Lost) then LobSessionEnded else LobResultClosed in
          Ret (set_phase (Failed (shown_rows s) error) (set_cursor_closed true (lose_lobs reason s1)), FetchFailed)
      | Ok outcome =>
          let seg := segment outcome in
          if (0 <? seg_rows seg) && negb (length (seg_columns seg) =? length (store_columns s))%nat then
            Ret (set_phase (Failed (shown_rows s)
                   (internal (ColumnCountMismatch (length (seg_columns seg)) (length (store_columns s))))) s1, FetchFailed)
          else
            let s2 := if reply_exhausted outcome then set_exhausted true s1 else s1 in
            let s3 := if 0 <? seg_rows seg then append s2 seg else s2 in
            Ret (settle s3, Appended (seg_rows seg))
      end.
Proof.
  intros (_ & _ & Hf & _). cbn [fst snd] in Hf.
  destruct Hf as [_ _ _ _ Hq Hr _]. inversion Hq as [|e f' l q' [Hseq _] _ E1 E2]; subst.
  apply Forall_cons in Hr as [Hr _]. exists e, l. split; [done|]. unfold on_fetched.
  rewrite bool_decide_eq_true_2 by done. cbn [negb]. rewrite <- E1, Hseq, Z.eqb_refl. done.
Qed.

(** ** Streaming to the end *)

(** A reply of a driver that keeps its contract: no more rows than asked for,
    the select list's columns, and an empty batch only at the end. *)
Definition good_reply (s : ResultStore) (f : FetchRequest) (rep : SegmentReply) : Prop :=
  seg_rows (segment rep) <= request_rows f /\
  length (seg_columns (segment rep)) = length (store_columns s) /\
  (1 <= seg_rows (segment rep) \/ reply_exhausted rep = true).

(** One fetch submitted, or one answered, by an active store. *)
Inductive fetching : config -> config -> Prop :=
| fetching_submit s q f : due s = Some (Fetch f) -> fetching (s, q) (record s (Fetch f), q ++ [f])
| fetching_reply s q f rep s' o :
    phase s = Active -> good_reply s f rep -> on_fetched true s (ticket f) (Ok rep) = Ret (s', o) ->
    fetching (s, f :: q) (s', q).

Definition fetching_measure (c : config) : Z :=
  let s := c.1 in
  let slots := fetches_in_flight (policy s) in
  let used := Z.of_nat (length (in_flight s)) in
  (row_limit s + 1 - retained_rows s) * (2 * slots + 2) + (if exhausted s then used else 2 * slots + 1 - used).

Lemma fetching_is_step c c' : fetching c c' -> step c c'.
Proof. intros []; econstructor; eauto. by destruct H2. Qed.

Lemma settle_policy s : policy (settle s) = policy s.
Proof. by apply (settle_frame (fun x => policy x = policy s)). Qed.
Lemma settle_controls s :
  fetch_all (settle s) = fetch_all s /\ stopped (settle s) = stopped s /\
  transaction_ends_pending (settle s) = transaction_ends_pending s /\ store_columns (settle s) = store_columns s.
Proof.
  by apply (settle_frame (fun x => fetch_all x = fetch_all s /\ stopped x = stopped s /\
    transaction_ends_pending x = transaction_ends_pending s /\ store_columns x = store_columns s)).
Qed.

(** A good reply, in full. *)
Lemma good_reply_effect s q f rep s' o :
  inv (s, f :: q) -> phase s = Active -> good_reply s f rep ->
  on_fetched true s (ticket f) (Ok rep) = Ret (s', o) ->
  o = Appended (seg_rows (segment rep)) /\
  retained_rows s' = retained_rows s + seg_rows (segment rep) /\
  row_limit s' = row_limit s /\ policy s' = policy s /\ exhausted s' = exhausted s || reply_exhausted rep /\
  length (in_flight s) = S (length (in_flight s')) /\
  (phase s' = Active \/ is_at_limit (phase s') = true \/ phase s' = Complete) /\
  fetch_all s' = fetch_all s /\ stopped s' = stopped s /\ transaction_ends_pending s' = transaction_ends_pending s.
Proof.
  intros Hinv Ha (Hfit & Hcols & Hgood) E.
  destruct (on_fetched_head s q f (Ok rep) Hinv) as (e & l & El & Eq). rewrite Eq in E. cbv zeta in E.
  rewrite Ha, Hcols, Nat.eqb_refl in E. cbn [is_active negb] in E. rewrite andb_false_r in E. injection E as <- <-.
  set (s1 := forget (set_in_flight l s) e).
  set (s2 := if reply_exhausted rep then set_exhausted true s1 else s1).
  set (s3 := if 0 <? seg_rows (segment rep) then append s2 (segment rep) else s2).
  assert (retained_rows s3 = retained_rows s + seg_rows (segment rep) /\ row_limit s3 = row_limit s /\
    policy s3 = policy s /\ exhausted s3 = exhausted s || reply_exhausted rep /\ in_flight s3 = l /\ phase s3 = Active /\
    fetch_all s3 = fetch_all s /\ stopped s3 = stopped s /\
    transaction_ends_pending s3 = transaction_ends_pending s) as (H1 & H2 & H3 & H4 & H5 & H6 & H7 & H8 & H9).
  { assert (seg_rows (segment rep) = 0 \/ 0 < seg_rows (segment rep)) as Hz by (unfold seg_rows; lia).
    unfold s3. destruct (0 <? _) eqn:Er; boolify.
    - destruct (append_eq s2 (segment rep)) as (u & c1 & c2 & -> & _). unfold s2, s1.
      destruct (reply_exhausted rep); store_simpl; rewrite ?orb_true_r, ?orb_false_r; repeat split; try done.
    - assert (seg_rows (segment rep) = 0) as -> by lia. unfold s2, s1.
      destruct (reply_exhausted rep); rewrite ?orb_true_r, ?orb_false_r, ?Z.add_0_r; repeat split; try done. }
  destruct (settle_controls s3) as (C1 & C2 & C3 & _).
  rewrite settle_rows, settle_limit, settle_policy, settle_exhausted, settle_in_flight, C1, C2, C3, El, H5.
  repeat split; try done. unfold settle. rewrite H6. cbn [is_active negb orb].
  destruct (negb (is_nil _)); [by left|]. cbv zeta.
  destruct (if row_limit s3 <? _ then _ else _) as [p|] eqn:Ep; [|by left].
  right. assert (is_at_limit p = true \/ p = Complete) as Hp.
  { destruct (row_limit s3 <? _); [injection Ep as <-; by left|]. destruct (exhausted s3); [injection Ep as <-; by right|].
    destruct (limit _) as [cap|]; [|done]. destruct (cap <? _); [|done]. injection Ep as <-. by left. }
  destruct (_ && _); exact Hp.
Qed.

Lemma fetching_decreases c c' : inv c -> fetching c c' -> 0 <= fetching_measure c' < fetching_measure c.
Proof.
  intros Hinv Hstep. pose proof (step_inv _ _ (fetching_is_step _ _ Hstep) Hinv) as Hinv'.
  assert (forall c, inv c -> 0 <= fetching_measure c) as Hpos.
  { clear. intros [s q] (Hc & Hs & Hf & Hp). cbn [fst snd] in *. unfold fetching_measure. cbn [fst].
    pose proof (flight_slots _ _ Hf). pose proof (phase_cap _ Hp). pose proof (flight_rows_nonneg _ _ Hf).
    pose proof (policy_in_flight _ (static_policy _ Hs)). destruct (exhausted s); nia. }
  split; [by apply Hpos|]. destruct Hstep as [s q f Hdue|s q f rep s' o Ha Hgood E].
  - destruct (due_fetch s f Hdue) as (_ & _ & _ & He & _). unfold fetching_measure, record. cbn [fst]. store_simpl.
    match goal with |- (row_limit ?x + 1 - _) * _ + _ < _ => change (row_limit x) with (row_limit s) end.
    rewrite He, length_app. cbn [length]. lia.
  - destruct (good_reply_effect s q f rep s' o Hinv Ha Hgood E) as (_ & H1 & H2 & H3 & H4 & H5 & _).
    unfold fetching_measure. cbn [fst]. rewrite H1, H2, H3, H4, H5. destruct Hgood as (_ & _ & Hg).
    destruct Hinv as (Hc & Hs & Hf & Hp). cbn [fst snd] in *. pose proof (flight_slots _ _ Hf) as Hsl. rewrite H5 in Hsl.
    assert (0 <= seg_rows (segment rep)) by (unfold seg_rows; lia).
    destruct (exhausted s), (reply_exhausted rep); cbn [orb]; try nia; destruct Hg; nia || done.
Qed.

Lemma fetching_acc c : inv c -> Acc (fun c' c => fetching c c') c.
Proof.
  intros Hinv. assert (exists n, fetching_measure c < Z.of_nat n) as [n Hn].
  { exists (S (Z.to_nat (fetching_measure c))). lia. }
  revert c Hinv Hn. induction n as [|n IH]; intros c Hinv Hn; constructor; intros c' Hstep;
    pose proof (fetching_decreases _ _ Hinv Hstep); [lia|].
  apply IH; [|lia]. eapply step_inv; [by apply fetching_is_step|done].
Qed.

(** The controls that keep a store streaming. *)
Definition streaming (s : ResultStore) : Prop :=
  fetch_all s = true /\ stopped s = false /\ transaction_ends_pending s <= 0.

Lemma fetching_streaming c c' :
  inv c -> streaming c.1 -> fetching c c' ->
  streaming c'.1 /\ (phase c'.1 = Active \/ is_at_limit (phase c'.1) = true \/ phase c'.1 = Complete).
Proof.
  intros Hinv (H1 & H2 & H3) Hstep. destruct Hstep as [s q f Hdue|s q f rep s' o Ha Hgood E]; cbn [fst] in *.
  - destruct (due_fetch s f Hdue) as (_ & Ha & _). split; [by split|by left].
  - destruct (good_reply_effect s q f rep s' o Hinv Ha Hgood E) as (_ & _ & _ & _ & _ & _ & Hph & E1 & E2 & E3).
    split; [|done]. split; [congruence|]. split; [congruence|lia].
Qed.

Lemma fetching_progress s q :
  inv (s, q) -> streaming s -> fits_memory s -> phase s = Active -> exists c', fetching (s, q) c'.
Proof.
  intros Hinv (Hall & Hst & Htx) Hmem Ha. destruct q as [|f q].
  - assert (in_flight s = []) as Hq.
    { destruct Hinv as (_ & _ & Hf & _). pose proof (flight_queue _ _ Hf) as H2. cbn in H2. by inversion H2. }
    destruct (due_when_active s [] Hinv Hmem Ha Hq Hst Htx (or_introl Hall)) as [f Hdue].
    eexists. by apply fetching_submit.
  - set (seg := {| seg_session := 0; rows := 0;
                   seg_columns := replicate (length (store_columns s)) (mkSegmentColumn (mask_new 0) (SBoolean vec_new));
                   accounted_bytes := 0 |}).
    set (rep := {| segment := seg; reply_exhausted := true |}).
    assert (good_reply s f rep) as Hgood.
    { split; [|split].
      - destruct Hinv as (_ & _ & Hf & _). cbn [fst snd] in Hf. cbn.
        pose proof (flight_pos _ _ Hf) as Hp. pose proof (flight_queue _ _ Hf) as Hq.
        inversion Hq as [|e f' l q' [_ Hrows] _ E1 E2]; subst. rewrite <- E1 in Hp.
        apply Forall_cons in Hp as [Hp _]. unfold seg_rows. cbn. lia.
      - cbn. by rewrite length_replicate.
      - by right. }
    destruct (on_fetched_head s q f (Ok rep) Hinv) as (e & l & _ & E). rewrite Ha in E. cbn [is_active negb] in E.
    cbv zeta in E. change (0 <? seg_rows (segment rep)) with false in E. cbn [andb] in E.
    eexists. by eapply fetching_reply.
Qed.

Lemma fetching_run c c' :
  inv c -> streaming c.1 -> phase c.1 = Active -> rtc fetching c c' ->
  inv c' /\ streaming c'.1 /\ (phase c'.1 = Active \/ is_at_limit (phase c'.1) = true \/ phase c'.1 = Complete).
Proof.
  intros Hinv Hst Ha Hrun. assert (phase c.1 = Active \/ is_at_limit (phase c.1) = true \/ phase c.1 = Complete) as Hph by (by left).
  clear Ha. induction Hrun as [c|c c1 c2 Hstep _ IH]; [done|].
  destruct (fetching_streaming _ _ Hinv Hst Hstep) as [Hst1 Hph1].
  apply IH; [|done|done]. eapply step_inv; [by apply fetching_is_step|done].
Qed.
End theorems.
