(* ===== verification/StoreClaims.v ===== *)
(** * The result store's guarantees (db-core/src/store/result_store.rs)

    The properties of the store, each over every state it can reach from a
    fresh one under any sequence of inputs and in-order replies, and the sample
    run their witnesses evaluate. *)

From stdpp Require Import relations.
From S2P Require Import Prelude RustStr Errors Columns Segment Policy ResultStore ResultStoreProps StoreTheorems.
Open Scope Z_scope.
Open Scope run_scope.

(** ** A sample run *)

Definition sample_result : ResultId := {| owner := 1; result_set := 5 |}.
Definition sample_columns : list ColumnMetadata := [metadata_new [78] TNumber].
Definition sample_policy : ResultPolicy :=
  policy_new (caps_new (mkSourced (At 3) Application) (mkSourced Unlimited BuiltIn)).
Definition sample_segment (n : nat) : ResultSegment :=
  {| seg_session := 1; rows := n;
     seg_columns := [mkSegmentColumn (mask_new n) (SLob (to_vec (replicate n 4)))]; accounted_bytes := 100 |}.
Definition sample_reply (n : nat) : SegmentReply := {| segment := sample_segment n; reply_exhausted := false |}.
Definition sample_fetch : FetchRequest :=
  {| ticket := {| ticket_result := sample_result; ticket_sequence := 0 |}; request_rows := 4 |}.

Definition sample_start : config := start sample_result sample_columns sample_policy.
Definition sample_flying : ResultStore := record sample_start.1 (Fetch sample_fetch).
(** After the first fetch of four rows was answered with two. *)
Definition sample_store : ResultStore :=
  match on_fetched true sample_flying (ticket sample_fetch) (Ok (sample_reply 2)) with
  | Ret (s, _) => s
  | _ => sample_flying
  end.

Lemma sample_policy_ok : policy_ok sample_policy.
Proof. split; [split|..]; vm_compute; (split; discriminate) || done. Qed.

Lemma sample_flying_reachable : reachable sample_start (sample_flying, [sample_fetch]).
Proof.
  eapply reachable_step; [apply reachable_start|].
  apply (step_submit sample_start.1 [] sample_fetch). vm_compute. reflexivity.
Qed.

Definition sample_config : config := (sample_store, []).

Lemma sample_reachable : reachable sample_start sample_config.
Proof.
  eapply reachable_step; [apply sample_flying_reachable|].
  eapply (step_reply _ _ _ (Ok (sample_reply 2)) _ (Appended 2)); [vm_compute; discriminate|]. vm_compute. reflexivity.
Qed.

Section claims.
Context `{Layout} `{Alloc}.
Context (r : ResultId) (columns : list ColumnMetadata) (p : ResultPolicy).


(** C19: finding a row is right and never panics.  For every reachable store and
    every row, the division over uniform segments and the search over the first
    rows both give the segment a walk from the first segment finds: the one
    whose rows contain the row, with the number of rows before it; past the
    rows shown there is none. *)
Theorem row_lookup_correct c row :
  policy_ok p -> reachable (start r columns p) c -> 0 <= row ->
  segment_index c.1 row = Ret (find_segment (elems (segments c.1)) row) /\
  exists found, segment_for_row c.1 row = Ret found /\
    (found = None <-> shown_rows c.1 <= row) /\
    forall seg first, found = Some (seg, first) ->
      exists i, elems (segments c.1) !! i = Some seg /\
        first = total (take i (elems (segments c.1))) /\ first <= row < first + seg_rows seg.
Proof.
  intros Hp Hr Hrow. pose proof (reachable_inv _ _ _ _ Hp Hr) as (Hc & _).
  split; [by apply segment_index_spec|].
  destruct (segment_for_row_spec c.1 row Hc Hrow) as (found & E & Hnone & Hsome).
  exists found. split; [done|]. split; [done|]. intros seg first Ef.
  destruct (Hsome seg first Ef) as (i & _ & Hi & Hfirst & Hin). by exists i.
Qed.

(** C20: what was shown stays shown.  Across any step of the system, whatever
    the view asks, the session answers or the transaction does, a cell that
    could be read reads the same value afterwards, except that a large object
    may become unavailable; it never becomes NULL or another value, and once
    the reason is given it is kept. *)
Theorem shown_cells_stable c c' row col v :
  policy_ok p -> reachable (start r columns p) c -> step c c' -> 0 <= row ->
  store_value c.1 row col = Ret (Some v) ->
  (exists v', store_value c'.1 row col = Ret (Some v') /\ cell_later v v') /\
  (forall why, lobs c.1 = Some why -> lobs c'.1 = Some why).
Proof.
  intros Hp Hr Hstep Hrow Hv. pose proof (reachable_inv _ _ _ _ Hp Hr) as Hinv.
  pose proof (step_inv _ _ Hstep Hinv) as Hinv'. pose proof (step_grows _ _ Hinv Hstep) as Hg.
  split; [|apply Hg]. eapply value_stable; [apply Hinv|apply Hinv'|done..].
Qed.

(** Pumping terminates.  Whatever the caller's [submit] does, a pump of a
    reachable store returns without running out of turns or panicking, having
    taken only actions that were due; when every submission succeeds nothing is
    due afterwards and no more actions were taken than there were free slots
    and a pending close; when one fails the action stays due. *)
Theorem pump_terminates {St} (submit : St -> StoreAction -> St * result unit DbError) st c :
  policy_ok p -> reachable (start r columns p) c ->
  exists st' s' out, pump submit st c.1 = Ret (st', s', out) /\
    (exists q', rtc step c (s', q')) /\
    match out with
    | Ok n => due s' = None /\ 0 <= n <= turns_left c.1
    | Err _ => is_Some (due s')
    end.
Proof.
  intros Hp Hr. pose proof (reachable_inv _ _ _ _ Hp Hr) as Hinv. destruct c as [s q].
  pose proof (policy_in_flight _ (static_policy _ (proj1 (proj2 Hinv)))) as Hslots. cbn [fst] in *.
  assert (turns_left s <= Z.of_nat (pump_fuel s)) as Hfuel.
  { unfold turns_left, pump_fuel. destruct (close_due s); lia. }
  destruct (wp_elim _ _ (pump_loop_spec submit (pump_fuel s) st s q 0 Hinv Hfuel)) as
    ([[st' s'] out] & E & q' & Hsteps & _ & Hout).
  exists st', s', out. split; [exact E|]. split; [by exists q'|]. destruct out; [|done].
  destruct Hout as [Hd Hn]. split; [done|lia].
Qed.

(** The inputs that undo a stop. *)
Definition undoes_stop (i : input) : bool :=
  match i with IFetchAll | IResume | IFetchMore _ => true | _ => false end.

(** "Stop fetching" is honoured.  From a stopped store no step submits a
    fetch: the fetches already submitted are only answered, and the stop stays
    in force until the view resumes, asks for everything or asks for more. *)
Theorem stop_is_honoured c c' :
  policy_ok p -> reachable (start r columns p) c -> step c c' -> stopped c.1 = true ->
  (stopped c'.1 = true /\ (c'.2 = c.2 \/ exists f, c.2 = f :: c'.2)) \/
  (exists i, undoes_stop i = true /\ c' = (apply_input i c.1, c.2)).
Proof.
  intros Hp Hr Hstep Hst. pose proof (reachable_inv _ _ _ _ Hp Hr) as Hinv.
  destruct Hstep as [i s q _|s q f Hdue|s q res Hdue|s q f reply s' o _ E]; cbn [fst snd] in *.
  - destruct (undoes_stop i) eqn:Ei; [right; by exists i|]. left. split; [|by left].
    destruct i as [n| | | |m| | |b|o|]; try done; cbn [apply_input].
    + unfold transaction_end_answered, end_transaction. destruct b; [|done]. cbv zeta.
      destruct (phase _); [|destruct (_ && _)|..]; done.
    + unfold statement_executed, end_transaction. destruct (_ || _); [|done]. cbv zeta.
      destruct (phase _); [|destruct (_ && _)|..]; done.
    + unfold session_ended. cbv zeta. by destruct (_ || _).
  - destruct (due_fetch s f Hdue) as (_ & _ & Hs & _). congruence.
  - left. split; [done|]. by left.
  - left. split; [|right; by exists f].
    destruct (on_fetched_head s q f reply Hinv) as (e & l & _ & Eq). rewrite Eq in E. cbv zeta in E.
    destruct (negb _); [by injection E as <- _|]. destruct reply as [rep|err]; [|by injection E as <- _].
    destruct (_ && _); [by injection E as <- _|]. injection E as <- _.
    rewrite (proj1 (proj2 (settle_controls _))).
    destruct (0 <? _); [|by destruct (reply_exhausted rep)].
    match goal with |- context [append ?x ?y] => destruct (append_eq x y) as (u & c1 & c2 & -> & _) end.
    by destruct (reply_exhausted rep).
Qed.

(** A store that will take no more rows. *)
Definition terminal (ph : Phase) : bool :=
  match ph with Complete | Failed _ _ | Ended _ => true | Active | AtLimit _ _ => false end.

(** An ended result stays ended.  A complete, failed or ended store never
    becomes active or limited again, submits nothing, and its rows and the
    rows it shows never change. *)
Theorem terminal_is_final c c' :
  policy_ok p -> reachable (start r columns p) c -> step c c' -> terminal (phase c.1) = true ->
  terminal (phase c'.1) = true /\ segments c'.1 = segments c.1 /\ shown_rows c'.1 = shown_rows c.1 /\
  due c.1 = None.
Proof.
  intros Hp Hr Hstep Ht. pose proof (reachable_inv _ _ _ _ Hp Hr) as Hinv.
  assert (due c.1 = None) as Hnone.
  { destruct (due c.1) as [[f|x]|] eqn:Hdue; [..|done]; exfalso.
    - destruct (due_fetch _ _ Hdue) as (_ & Ha & _). by rewrite Ha in Ht.
    - destruct (due_close _ _ Hdue) as [Hcd _]. destruct Hinv as (_ & _ & _ & Hph).
      destruct (phase_close_due _ Hph Hcd) as [Hat _]. by destruct (phase c.1). }
  destruct Hstep as [i s q _|s q f Hdue|s q x Hdue|s q f reply s' o _ E]; cbn [fst snd] in *; try congruence.
  - destruct i as [n| | | |m| | |b|o|]; try (by repeat split); cbn [apply_input].
    + unfold fetch_more. assert (can_raise (phase s) = false) as -> by (by destruct (phase s)). by repeat split.
    + unfold transaction_end_answered, end_transaction. destruct b; [|by repeat split]. cbv zeta.
      change (phase (set_close_due _ _)) with (phase s).
      destruct (phase s) eqn:E; try done; (split; [cbn; by rewrite E|by repeat split]).
    + unfold statement_executed, end_transaction. destruct (_ || _); [|by repeat split]. cbv zeta.
      change (phase (set_close_due _ _)) with (phase s).
      destruct (phase s) eqn:E; try done; (split; [cbn; by rewrite E|by repeat split]).
    + unfold session_ended. cbv zeta. change (phase (set_close_due _ _)) with (phase s).
      destruct (phase s) eqn:E; try done; (split; [cbn; by rewrite E|by repeat split]).
  - destruct (on_fetched_head s q f reply Hinv) as (e & l & _ & Eq). rewrite Eq in E. cbv zeta in E.
    assert (is_active (phase s) = false) as Hna by (by destruct (phase s)). rewrite Hna in E. cbn [negb] in E.
    injection E as <- _. by repeat split.
Qed.

(** Replies in order are always taken.  Answering the oldest outstanding
    fetch of a reachable store never trips the sequence assertion and is never
    taken for another result's: the rows are appended by an active store that
    can take them, a failed fetch fails the store, and a store that already
    ended drops them. *)
Theorem in_order_replies_taken s q f reply :
  policy_ok p -> reachable (start r columns p) (s, f :: q) ->
  exists s' o, on_fetched true s (ticket f) reply = Ret (s', o) /\ o <> OutOfSequence /\ o <> NotThisResult /\
    (o = Stale <-> phase s <> Active) /\
    (forall n, o = Appended n -> retained_rows s' = retained_rows s + n /\ exists rep, reply = Ok rep /\ n = seg_rows (segment rep)).
Proof.
  intros Hp Hr. pose proof (reachable_inv _ _ _ _ Hp Hr) as Hinv.
  destruct (on_fetched_head s q f reply Hinv) as (e & l & _ & ->). cbv zeta.
  destruct (is_active (phase s)) eqn:Ha; cbn [negb].
  2:{ do 2 eexists. split; [done|]. split; [done|]. split; [done|]. split; [|done].
      split; [|done]. intros _ Hact. by rewrite Hact in Ha. }
  assert (phase s = Active) as Hact by (by destruct (phase s)).
  destruct reply as [rep|err].
  2:{ do 2 eexists. split; [done|]. split; [done|]. split; [done|]. split; [|done]. split; [done|]. by rewrite Hact. }
  destruct (_ && _).
  { do 2 eexists. split; [done|]. split; [done|]. split; [done|]. split; [|done]. split; [done|]. by rewrite Hact. }
  do 2 eexists. split; [done|]. split; [done|]. split; [done|]. split; [split; [done|by rewrite Hact]|].
  intros n [= <-]. split; [|by exists rep]. rewrite settle_rows.
  destruct (0 <? seg_rows (segment rep)) eqn:Er; boolify.
  - destruct (append_eq (if reply_exhausted rep then set_exhausted true (forget (set_in_flight l s) e)
      else forget (set_in_flight l s) e) (segment rep)) as (u & c1 & c2 & -> & _).
    by destruct (reply_exhausted rep).
  - assert (seg_rows (segment rep) = 0) as -> by (unfold seg_rows in *; lia).
    rewrite Z.add_0_r. by destruct (reply_exhausted rep).
Qed.

(** The store never stalls.  An active store with nothing in flight that is
    neither stopped nor waiting for a transaction to end has a fetch due
    whenever the view wants more rows, as long as the bytes it accounts for fit
    the address space: reaching a cap moves it out of the active phase
    instead. *)
Theorem active_store_makes_progress s :
  policy_ok p -> reachable (start r columns p) (s, []) ->
  phase s = Active -> stopped s = false -> transaction_ends_pending s <= 0 -> fits_memory s ->
  fetch_all s = true \/ first_submitted s = false \/ retained_rows s < sat_add (demand s) (rows_per_round_trip s) ->
  exists f, due s = Some (Fetch f) /\ 1 <= request_rows f /\
    retained_rows s + request_rows f <= row_limit s + 1.
Proof.
  intros Hp Hr Ha Hst Htx Hmem Hwant. pose proof (reachable_inv _ _ _ _ Hp Hr) as Hinv.
  assert (in_flight s = []) as Hq.
  { destruct Hinv as (_ & _ & Hf & _). pose proof (flight_queue _ _ Hf) as H2. cbn in H2. by inversion H2. }
  destruct (due_when_active s [] Hinv Hmem Ha Hq Hst Htx Hwant) as [f Hdue]. exists f. split; [done|].
  destruct (due_fetch s f Hdue) as (_ & _ & _ & _ & _ & _ & _ & Hn & _).
  destruct (next_request_bounds s [] _ Hinv Hn) as (H1 & _ & H3). split; [done|].
  pose proof (flight_rows_nonneg _ _ (proj1 (proj2 (proj2 Hinv)))). cbn [fst] in *. lia.
Qed.

(** "Fetch all" finishes.  From any reachable active store that streams,
    against a driver that keeps its contract, submitting and answering fetches
    in any order terminates; the store stays active or rests complete or at a
    cap, and while it is active (within the address space) a fetch is due or
    outstanding.  So every maximal run ends complete or at a cap. *)
Theorem fetch_all_finishes c :
  policy_ok p -> reachable (start r columns p) c -> streaming c.1 -> phase c.1 = Active ->
  Acc (fun c' c => fetching c c') c /\
  forall c', rtc fetching c c' ->
    (phase c'.1 = Active \/ is_at_limit (phase c'.1) = true \/ phase c'.1 = Complete) /\
    (phase c'.1 = Active -> fits_memory c'.1 -> exists c'', fetching c' c'').
Proof.
  intros Hp Hr Hst Ha. pose proof (reachable_inv _ _ _ _ Hp Hr) as Hinv. split; [by apply fetching_acc|].
  intros c' Hrun. destruct (fetching_run _ _ Hinv Hst Ha Hrun) as (Hinv' & Hst' & Hph). split; [done|].
  intros Ha' Hmem. destruct c' as [s' q']. by apply fetching_progress.
Qed.
End claims.

(** ** The sample run *)


Lemma row_lookup_correct_witness :
  segment_index sample_config.1 1 = Ret (find_segment (elems (segments sample_config.1)) 1) /\
  find_segment (elems (segments sample_config.1)) 1 = Some 0%nat.
Proof.
  split; [|vm_compute; reflexivity].
  exact (proj1 (row_lookup_correct _ _ _ _ 1 sample_policy_ok sample_reachable ltac:(lia))).
Defined.

Lemma shown_cells_stable_witness :
  exists v', store_value (session_ended sample_store) 1 0 = Ret (Some v') /\
    cell_later (CellLob (from_serial 1 4)) v'.
Proof.
  refine (proj1 (shown_cells_stable _ _ _ _ (session_ended sample_store, []) 1 0 _ sample_policy_ok sample_reachable _ _ _)).
  - exact (step_input ISessionEnded sample_store [] I).
  - lia.
  - vm_compute. reflexivity.
Defined.

Definition always (n : Z) (a : StoreAction) : Z * result unit DbError := (n + 1, Ok tt).

Lemma pump_terminates_witness :
  exists st' s' out, pump always 0 sample_config.1 = Ret (st', s', out) /\
    (exists q', rtc step sample_config (s', q')) /\
    match out with Ok n => due s' = None /\ 0 <= n <= turns_left sample_config.1 | Err _ => is_Some (due s') end.
Proof. exact (pump_terminates _ _ _ always 0 _ sample_policy_ok sample_reachable). Defined.

Definition sample_stopped : config := (stop sample_flying, [sample_fetch]).
Definition sample_answered : config :=
  (match on_fetched true (stop sample_flying) (ticket sample_fetch) (Ok (sample_reply 2)) with
   | Ret (s, _) => s
   | _ => sample_flying
   end, []).

Lemma sample_stopped_reachable : reachable sample_start sample_stopped.
Proof. eapply reachable_step; [apply sample_flying_reachable|]. exact (step_input IStop _ _ I). Qed.

Lemma sample_stopped_step : step sample_stopped sample_answered.
Proof.
  eapply (step_reply _ _ _ (Ok (sample_reply 2)) _ (Appended 2)); [vm_compute; discriminate|]. vm_compute. reflexivity.
Qed.

Lemma stop_is_honoured_witness : stopped sample_answered.1 = true /\ retained_rows sample_answered.1 = 2.
Proof.
  split; [|vm_compute; reflexivity].
  destruct (stop_is_honoured _ _ _ _ _ sample_policy_ok sample_stopped_reachable sample_stopped_step eq_refl)
    as [[Hs _]|(i & _ & E)].
  - exact Hs.
  - apply (f_equal snd) in E. discriminate E.
Defined.

Definition sample_discarded : config := (discard sample_store, []).
Definition sample_discarded_all : config := (do_fetch_all (discard sample_store), []).

Lemma sample_discarded_reachable : reachable sample_start sample_discarded.
Proof. eapply reachable_step; [apply sample_reachable|]. exact (step_input IDiscard _ _ I). Qed.

Lemma sample_discarded_step : step sample_discarded sample_discarded_all.
Proof. exact (step_input IFetchAll _ _ I). Qed.

Lemma terminal_is_final_witness :
  terminal (phase sample_discarded_all.1) = true /\ due sample_discarded.1 = None.
Proof.
  destruct (terminal_is_final _ _ _ _ _ sample_policy_ok sample_discarded_reachable sample_discarded_step)
    as (H1 & _ & _ & H2); [vm_compute; reflexivity|]. split; [exact H1|exact H2].
Defined.

Lemma in_order_replies_taken_witness :
  exists s' o, on_fetched true sample_flying (ticket sample_fetch) (Ok (sample_reply 2)) = Ret (s', o) /\ o <> OutOfSequence.
Proof.
  destruct (in_order_replies_taken _ _ _ _ _ _ (Ok (sample_reply 2)) sample_policy_ok sample_flying_reachable)
    as (s' & o & E & Ho & _).
  exists s', o. split; [exact E|exact Ho].
Defined.

Definition sample_streaming : ResultStore := do_fetch_all sample_store.

Lemma sample_streaming_reachable : reachable sample_start (sample_streaming, []).
Proof. eapply reachable_step; [apply sample_reachable|]. exact (step_input IFetchAll _ _ I). Qed.

Lemma active_store_makes_progress_witness :
  exists f, due sample_streaming = Some (Fetch f) /\ 1 <= request_rows f.
Proof.
  destruct (active_store_makes_progress _ _ _ sample_streaming sample_policy_ok sample_streaming_reachable)
    as (f & E & Hf & _);
    [vm_compute; reflexivity|vm_compute; reflexivity|vm_compute; discriminate|vm_compute; discriminate|
     left; vm_compute; reflexivity|].
  exists f. split; [exact E|exact Hf].
Defined.

Definition sample_streaming_config : config := (sample_streaming, []).

Lemma fetch_all_finishes_witness : Acc (fun c' c => fetching c c') sample_streaming_config.
Proof.
  refine (proj1 (fetch_all_finishes _ _ _ sample_streaming_config sample_policy_ok sample_streaming_reachable _ _)).
  - split; [vm_compute; reflexivity|]. split; [vm_compute; reflexivity|]. vm_compute. discriminate.
  - vm_compute. reflexivity.
Defined.
