(* ===== verification/Events.v ===== *)
(** * What a session says (db-core/src/events.rs, the types of session.rs)

    The events of a session, with everything they carry: the handles, the
    replies of every operation, the outcome of a close, server output and the
    terminal report.  The driver's own objects, a cursor and a large-object
    locator, are opaque types of the class [DriverObjects]. *)

From S2P Require Import Prelude RustStr Number Temporal Errors Columns Segment Policy ResultStore.
Open Scope Z_scope.

Class DriverObjects := {
  Locator : Type;
  CursorObject : Type;
}.

(** A caller-chosen correlation id, and the driver's connection id. *)
Definition RequestId := Z.
Definition ConnectionId := Z.
(** A duration in nanoseconds. *)
Definition Duration := Z.

Inductive SessionLifecycle := LUsable | LNeedsValidation | LLost | LClosed.
#[global] Instance SessionLifecycle_eq_dec : EqDecision SessionLifecycle.
Proof. solve_decision. Defined.

Definition lifecycle_is_usable (l : SessionLifecycle) : bool :=
  match l with LUsable | LNeedsValidation => true | _ => false end.
Definition lifecycle_is_terminal (l : SessionLifecycle) : bool :=
  match l with LLost | LClosed => true | _ => false end.

Inductive CancelKind := CancelUnsupported | PreArmedDeadline | Native.
#[global] Instance CancelKind_eq_dec : EqDecision CancelKind.
Proof. solve_decision. Defined.

Inductive WarningKind := CompiledWithErrors | Informational.
Record Warning := mkWarning {
  warning_kind : WarningKind;
  warning_message : Message;
  warning_native : option NativeError;
  warning_position : option SqlPosition;
}.

(** Server output (db-driver-api/src/server_output.rs). *)
Inductive ServerOutputBuffer := UnlimitedBuffer | BufferBytes (n : Z).
Inductive ServerOutputSetting := Disabled | Enabled (b : ServerOutputBuffer).
Definition is_enabled (s : ServerOutputSetting) : bool :=
  match s with Enabled _ => true | Disabled => false end.
Record ServerOutputChunk := mkChunk {
  chunk_lines : list str;
  drained : bool;
  invalid_utf8_lines : Z;
}.
Definition chunk_is_empty (c : ServerOutputChunk) : bool := is_nil (chunk_lines c).

(** ** Values and outcomes *)

(** A value a driver returns (db-driver-api/src/value/mod.rs). *)
Inductive Value `{DriverObjects} :=
| ONull
| OBoolean (b : bool)
| ONumber (n : Number)
| OFloat (bits : Z)
| ODouble (bits : Z)
| OText (s : str)
| OBytes (b : list Z)
| OTimestamp (t : Timestamp)
| OJson (s : str)
| OLob (l : Locator)
| OCursor (c : CursorObject)
| OTaken.

Inductive DriverOutValues `{DriverObjects} :=
| DNone
| DPositional (vs : list (option Value))
| DNamed (vs : list (str * Value)).

(** What a driver's [execute] returns (db-driver-api/src/result.rs). *)
Record ExecutionOutcome `{DriverObjects} := mkExecution {
  ex_cursor : option CursorObject;
  ex_rows_affected : option Z;
  ex_kind : StatementKind;
  ex_out_values : DriverOutValues;
  ex_warnings : list Warning;
}.

(** [StatementKind::commits_implicitly]. *)
Definition commits_implicitly (k : StatementKind) : bool :=
  match k with Ddl => true | _ => false end.

(** What the session answers an execute with: [OutValue] holds no driver
    object, a cursor has become a result and a locator a handle. *)
Inductive OutValue `{DriverObjects} :=
| OutPlain (v : Value)
| OutResult (r : ResultId)
| OutLob (h : LobHandle).

Inductive OutValues `{DriverObjects} :=
| OutNone
| OutPositional (vs : list (option OutValue))
| OutNamed (vs : list (str * OutValue)).

Definition positional `{DriverObjects} (o : OutValues) (index : nat) : option OutValue :=
  match o with OutPositional vs => mjoin (vs !! index) | _ => None end.

Definition named `{DriverObjects} (o : OutValues) (name : str) : option OutValue :=
  match o with
  | OutNamed vs => snd <$> (snd <$> list_find (fun p => p.1 = name) vs)
  | _ => None
  end.

Definition out_values_is_empty `{DriverObjects} (o : OutValues) : bool :=
  match o with
  | OutNone => true
  | OutPositional vs => forallb (fun v => match v with None => true | Some _ => false end) vs
  | OutNamed vs => is_nil vs
  end.

(** [ExecuteOutcome]: [reply_outcome] holds the fields a result store reads. *)
Record ExecuteReply `{DriverObjects} := mkExecuteReply {
  reply_outcome : ExecuteOutcome;
  rows_affected : option Z;
  reply_warnings : list Warning;
  out_values : OutValues;
}.

(** A batch whose locators have been taken out, with the handles they got. *)
Record FetchedBatch `{DriverObjects} := mkFetched {
  fetched_batch : RowBatch Locator;
  fetched_lobs : list (nat * nat * LobHandle);
}.

Definition fetched_lob `{DriverObjects} (f : FetchedBatch) (row col : nat) : option LobHandle :=
  snd <$> (snd <$> list_find (fun '(r, c, _) => r = row /\ c = col) (fetched_lobs f)).

(** ** Closing *)

Inductive CloseDisposition := CommitFirst | RollbackFirst.
Inductive CloseError :=
| DecisionRequired
| CommitFailed (e : DbError)
| RollbackFailed (e : DbError)
| CloseFailed (e : DbError).

Definition session_is_still_open (e : CloseError) : bool :=
  match e with DecisionRequired | CommitFailed _ | RollbackFailed _ => true | CloseFailed _ => false end.

(** ** Events *)

Inductive CompletedOperation :=
| Commit
| Rollback
| Savepoint
| RollbackToSavepoint
| Ping
| CloseResultDone (r : ResultId)
| CloseLobDone (h : LobHandle).

Inductive SessionEvent `{DriverObjects} :=
| Opened (session : SessionId) (request : RequestId) (connection : ConnectionId)
    (cancel_kind : CancelKind) (warnings : list Warning)
| OpenFailed (session : SessionId) (request : RequestId) (error : DbError)
| Executed (session : SessionId) (request : RequestId) (outcome : result ExecuteReply DbError)
| FetchedRows (session : SessionId) (request : RequestId) (res : ResultId) (batch : result FetchedBatch DbError)
| FetchedSegment (session : SessionId) (request : RequestId) (fetch : FetchTicket) (segment : result SegmentReply DbError)
| LobChunk (session : SessionId) (request : RequestId) (lob : LobHandle) (bytes : result (list Z) DbError)
| Completed (session : SessionId) (request : RequestId) (operation : CompletedOperation) (outcome : result unit DbError)
| SessionClosed (session : SessionId) (request : RequestId) (outcome : result unit CloseError)
| ServerOutputConfigured (session : SessionId) (request : RequestId) (outcome : result ServerOutputSetting DbError)
| Executing (session : SessionId) (request : RequestId) (deadline : option Duration)
| ServerOutput (session : SessionId) (lines : list str) (dropped : Z) (failure : option DbError) (invalid : Z)
| TransactionStateChanged (session : SessionId) (possibly_active : bool)
| Terminal (session : SessionId) (lifecycle : SessionLifecycle) (cause : option DbError)
    (transaction_possibly_lost : bool).

Section events.
Context `{DriverObjects}.
Implicit Types e : SessionEvent.

Definition event_session e : SessionId :=
  match e with
  | Opened s _ _ _ _ | OpenFailed s _ _ | Executed s _ _ | FetchedRows s _ _ _ | FetchedSegment s _ _ _
  | LobChunk s _ _ _ | Completed s _ _ _ | SessionClosed s _ _ | ServerOutputConfigured s _ _
  | Executing s _ _ | ServerOutput s _ _ _ _ | TransactionStateChanged s _ | Terminal s _ _ _ => s
  end.

Definition event_request e : option RequestId :=
  match e with
  | Opened _ r _ _ _ | OpenFailed _ r _ | Executed _ r _ | FetchedRows _ r _ _ | FetchedSegment _ r _ _
  | LobChunk _ r _ _ | Completed _ r _ _ | SessionClosed _ r _ | ServerOutputConfigured _ r _
  | Executing _ r _ => Some r
  | ServerOutput _ _ _ _ _ | TransactionStateChanged _ _ | Terminal _ _ _ _ => None
  end.

Definition is_reply e : bool :=
  match e with
  | Opened _ _ _ _ _ | OpenFailed _ _ _ | Executed _ _ _ | FetchedRows _ _ _ _ | FetchedSegment _ _ _ _
  | LobChunk _ _ _ _ | Completed _ _ _ _ | SessionClosed _ _ _ | ServerOutputConfigured _ _ _ => true
  | _ => false
  end.

Definition is_terminal e : bool := match e with Terminal _ _ _ _ => true | _ => false end.

Definition is_unsolicited e : bool :=
  match e with ServerOutput _ _ _ _ _ | TransactionStateChanged _ _ => true | _ => false end.
End events.
