(* ===== verification/SessionResults.v ===== *)
(** * The stores of a session (db-core/src/store/session_results.rs)

    Every open result store of one session, and the one place that decides
    which of the session's events end them. *)

From S2P Require Import Prelude RustStr Errors Columns Segment Policy ResultStore ResultStoreProps Events.
Open Scope Z_scope.
Open Scope run_scope.

Inductive Observed `{DriverObjects} :=
| OSegment (r : ResultId) (fetched : option Fetched)
| OEvent (e : SessionEvent).

Record SessionResults := mkResults {
  of_session : SessionId;
  stores : list ResultStore;
  ends_pending : Z;
}.

Section session.
Context `{Layout} `{Alloc} {DO : DriverObjects}.

Definition results_new (session : SessionId) : SessionResults :=
  {| of_session := session; stores := []; ends_pending := 0 |}.

(** A commit already submitted pauses the new store too; a store of the same
    result is replaced. *)
Definition open (sr : SessionResults) (o : ExecuteOutcome) (p : ResultPolicy) : SessionResults * option ResultStore :=
  match outcome_result o with
  | None => (sr, None)
  | Some r =>
      if negb (owner r =? of_session sr) then (sr, None)
      else
        let store := Nat.iter (Z.to_nat (ends_pending sr)) transaction_end_submitted
                       (store_new r (outcome_columns o) p) in
        ({| of_session := of_session sr;
            stores := filter (fun s => store_result s <> r) (stores sr) ++ [store];
            ends_pending := ends_pending sr |}, Some store)
  end.

Definition get (sr : SessionResults) (r : ResultId) : option ResultStore :=
  snd <$> list_find (fun s => store_result s = r) (stores sr).

(** [position] and [Vec::remove]. *)
Fixpoint remove_first (r : ResultId) (l : list ResultStore) : option (ResultStore * list ResultStore) :=
  match l with
  | [] => None
  | s :: l' =>
      if bool_decide (store_result s = r) then Some (s, l')
      else match remove_first r l' with Some (x, rest) => Some (x, s :: rest) | None => None end
  end.

Definition remove (sr : SessionResults) (r : ResultId) : SessionResults * option ResultStore :=
  match remove_first r (stores sr) with
  | Some (s, rest) => ({| of_session := of_session sr; stores := rest; ends_pending := ends_pending sr |}, Some s)
  | None => (sr, None)
  end.

(** [for store in &mut self.stores]. *)
Definition each (f : ResultStore -> ResultStore) (sr : SessionResults) : SessionResults :=
  {| of_session := of_session sr; stores := map f (stores sr); ends_pending := ends_pending sr |}.

Definition results_end_submitted (sr : SessionResults) : SessionResults :=
  each transaction_end_submitted
    {| of_session := of_session sr; stores := stores sr; ends_pending := ends_pending sr + 1 |}.

(** [get_mut(result).map(|store| store.on_fetched(..))]. *)
Fixpoint fetched_into (debug : bool) (t : FetchTicket) (reply : result SegmentReply DbError) (l : list ResultStore)
    : run (list ResultStore * option Fetched) :=
  match l with
  | [] => Ret ([], None)
  | s :: l' =>
      if bool_decide (store_result s = ticket_result t) then
        let! (s', o) := on_fetched debug s t reply in Ret (s' :: l', Some o)
      else
        let! (rest, o) := fetched_into debug t reply l' in Ret (s :: rest, o)
  end.

Definition ends_transaction (op : CompletedOperation) : bool :=
  match op with Commit | Rollback | RollbackToSavepoint => true | _ => false end.

Definition observe (debug : bool) (sr : SessionResults) (e : SessionEvent) : run (SessionResults * Observed) :=
  if negb (event_session e =? of_session sr) then Ret (sr, OEvent e)
  else
    match e with
    | FetchedSegment _ _ fetch reply =>
        let! (l, o) := fetched_into debug fetch reply (stores sr) in
        Ret ({| of_session := of_session sr; stores := l; ends_pending := ends_pending sr |},
             OSegment (ticket_result fetch) o)
    | Executed _ _ (Ok outcome) => Ret (each (fun s => statement_executed s (reply_outcome outcome)) sr, OEvent e)
    | Completed _ _ op outcome =>
        if ends_transaction op then
          Ret (each (fun s => transaction_end_answered s (result_is_ok outcome))
                 {| of_session := of_session sr; stores := stores sr;
                    ends_pending := sat_sub (ends_pending sr) 1 |}, OEvent e)
        else Ret (sr, OEvent e)
    | Terminal _ _ _ _ => Ret (each session_ended sr, OEvent e)
    | _ => Ret (sr, OEvent e)
    end.

(** Each store pumped in turn; the first failure stops it. *)
Section pump.
Context {St : Type} (submit : St -> StoreAction -> St * result unit DbError).

Fixpoint pump_each (st : St) (l : list ResultStore) (n : Z) : run (St * list ResultStore * result Z DbError) :=
  match l with
  | [] => Ret (st, [], Ok n)
  | s :: l' =>
      let! (st', s', out) := pump submit st s in
      match out with
      | Err e => Ret (st', s' :: l', Err e)
      | Ok k =>
          let! (st'', rest, out) := pump_each st' l' (n + k) in
          Ret (st'', s' :: rest, out)
      end
  end.

Definition results_pump (st : St) (sr : SessionResults) : run (St * SessionResults * result Z DbError) :=
  let! (st', l, out) := pump_each st (stores sr) 0 in
  Ret (st', {| of_session := of_session sr; stores := l; ends_pending := ends_pending sr |}, out).
End pump.

(** ** The invariant *)

(** One store per result, each of this session, and each waiting for exactly
    the transaction ends the session waits for. *)
Record results_ok (sr : SessionResults) : Prop := {
  results_distinct : NoDup (map store_result (stores sr));
  results_owned : Forall (fun s => owner (store_result s) = of_session sr) (stores sr);
  results_pending : Forall (fun s => transaction_ends_pending s = ends_pending sr) (stores sr);
  results_pending_nonneg : 0 <= ends_pending sr;
}.

Lemma iter_submitted n s :
  store_result (Nat.iter n transaction_end_submitted s) = store_result s /\
  transaction_ends_pending (Nat.iter n transaction_end_submitted s) = transaction_ends_pending s + Z.of_nat n /\
  phase (Nat.iter n transaction_end_submitted s) = phase s.
Proof.
  induction n as [|n (IH1 & IH2 & IH3)]; [split; [done|]; split; [cbn; lia|done]|].
  change (Nat.iter (S n) transaction_end_submitted s) with
    (transaction_end_submitted (Nat.iter n transaction_end_submitted s)).
  unfold transaction_end_submitted at 1 3 5. store_simpl. rewrite IH1, IH2, IH3. split; [done|]. split; [lia|done].
Qed.

Lemma map_result_filter r l :
  map store_result (filter (fun s => store_result s <> r) l) = filter (fun x => x <> r) (map store_result l).
Proof.
  induction l as [|s l IH]; cbn [map]; [done|]. rewrite !filter_cons.
  destruct (decide (store_result s <> r)); cbn [map]; by rewrite IH.
Qed.

Lemma Forall_kept (P : ResultStore -> Prop) r l : Forall P l -> Forall P (filter (fun s => store_result s <> r) l).
Proof.
  rewrite !Forall_forall. intros Hl s [_ Hs]%list_elem_of_filter. by apply Hl.
Qed.

Lemma open_ok sr o p : results_ok sr -> results_ok (open sr o p).1.
Proof.
  intros [H1 H2 H3 H4]. unfold open. destruct (outcome_result o) as [r|]; [|done].
  destruct (owner r =? of_session sr) eqn:E; boolify; cbn [negb fst]; [|done].
  set (new := Nat.iter _ _ _). destruct (iter_submitted (Z.to_nat (ends_pending sr)) (store_new r (outcome_columns o) p)) as (E1 & E2 & _).
  fold new in E1, E2. split; cbn [stores of_session ends_pending].
  - rewrite map_app, map_result_filter. cbn [map]. apply NoDup_app. split; [by apply NoDup_filter|].
    split; [|apply NoDup_singleton]. intros x Hx%list_elem_of_filter Hin%list_elem_of_singleton.
    rewrite E1 in Hin. cbn in Hin. tauto.
  - apply Forall_app. split; [by apply Forall_kept|]. constructor; [by rewrite E1|constructor].
  - apply Forall_app. split; [by apply Forall_kept|]. constructor; [|constructor]. rewrite E2. cbn. lia.
  - done.
Qed.

(** An update of every store that keeps its result and moves its pending ends
    as the session moves its own. *)
Lemma each_ok f sr n :
  results_ok sr -> 0 <= n ->
  (forall s, store_result (f s) = store_result s) ->
  (forall s, transaction_ends_pending s = ends_pending sr -> transaction_ends_pending (f s) = n) ->
  results_ok (each f {| of_session := of_session sr; stores := stores sr; ends_pending := n |}).
Proof.
  intros [H1 H2 H3 H4] Hn Hres Hpend. split; cbn [each stores of_session ends_pending].
  - rewrite map_map. erewrite map_ext; [done|]. done.
  - apply Forall_map. eapply Forall_impl; [exact H2|]. intros s Hs. cbn. by rewrite Hres.
  - apply Forall_map. eapply Forall_impl; [exact H3|]. intros s. cbn. apply Hpend.
  - done.
Qed.

Lemma end_transaction_frame s :
  store_result (end_transaction s) = store_result s /\
  transaction_ends_pending (end_transaction s) = transaction_ends_pending s.
Proof.
  unfold end_transaction. cbv zeta. destruct (phase _); [|destruct (_ && _)|..]; done.
Qed.

Lemma on_fetched_result debug s t reply s' o :
  on_fetched debug s t reply = Ret (s', o) ->
  store_result s' = store_result s /\ transaction_ends_pending s' = transaction_ends_pending s.
Proof.
  assert (Hoos : forall n, store_result (out_of_sequence s n) = store_result s /\
    transaction_ends_pending (out_of_sequence s n) = transaction_ends_pending s).
  { intros n. unfold out_of_sequence. cbv zeta. destruct (remove_sequence _ _) as [[e rest]|]; destruct (_ || _); done. }
  unfold on_fetched. destruct (negb _); [by intros [= <- _]|].
  destruct (in_flight s) as [|e l]; [destruct debug; [done|]; by intros [= <- _]|].
  destruct (_ =? _); [|destruct debug; [done|]; by intros [= <- _]].
  destruct (negb _); [by intros [= <- _]|]. destruct reply as [rep|err]; [|by intros [= <- _]].
  destruct (_ && _); [by intros [= <- _]|]. intros [= <- _].
  apply (settle_frame (fun x => store_result x = store_result s /\ transaction_ends_pending x = transaction_ends_pending s));
    try intros ph;
    (destruct (0 <? _); [|by destruct (reply_exhausted rep)]);
    match goal with |- context [append ?x ?y] => destruct (append_eq x y) as (u & c1 & c2 & -> & _) end;
    by destruct (reply_exhausted rep).
Qed.

(** A reply touches one store at most, and keeps every result. *)
Lemma fetched_into_spec debug t reply l l' o :
  fetched_into debug t reply l = Ret (l', o) ->
  Forall2 (fun s s' => store_result s' = store_result s /\ transaction_ends_pending s' = transaction_ends_pending s /\
    (store_result s <> ticket_result t -> s' = s)) l l'.
Proof.
  revert l' o. induction l as [|s l IH]; intros l' o; cbn [fetched_into].
  { intros [= <- _]. constructor. }
  assert (forall l, Forall2 (fun s s' => store_result s' = store_result s /\ transaction_ends_pending s' = transaction_ends_pending s /\
    (store_result s <> ticket_result t -> s' = s)) l l) as Hrefl
    by (intros k; induction k; constructor; auto).
  case_bool_decide as E.
  - destruct (on_fetched debug s t reply) as [[s' o']| |] eqn:Ef; cbn [rbind]; try done. intros [= <- _].
    destruct (on_fetched_result _ _ _ _ _ _ Ef) as [E1 E2]. constructor; [|apply Hrefl]. done.
  - destruct (fetched_into debug t reply l) as [[rest o']| |] eqn:Ef; cbn [rbind]; try done. intros [= <- _].
    constructor; [done|]. by eapply IH.
Qed.

Lemma observe_ok debug sr e sr' out : results_ok sr -> observe debug sr e = Ret (sr', out) -> results_ok sr'.
Proof.
  intros Hok. pose proof Hok as [H1 H2 H3 H4]. unfold observe. destruct (negb _); [by intros [= <- _]|].
  destruct e as [| |s req [o|err]| |s req fetch reply| |s req op outcome| | | | | |s lc cause lost]; try (by intros [= <- _]).
  - intros [= <- _]. apply (each_ok (fun s => statement_executed s (reply_outcome o)) sr (ends_pending sr) Hok H4).
    + intros x. unfold statement_executed. destruct (_ || _); [|done]. apply end_transaction_frame.
    + intros x. unfold statement_executed. destruct (_ || _); [|done]. by rewrite (proj2 (end_transaction_frame x)).
  - destruct (fetched_into debug fetch reply (stores sr)) as [[l o]| |] eqn:E; cbn [rbind]; try done.
    intros [= <- _]. apply fetched_into_spec in E. split; cbn [stores of_session ends_pending]; try done.
    + assert (map store_result l = map store_result (stores sr)) as ->; [|done].
      clear -E. induction E as [|x y l k (Hr & _) _ IH]; [done|]. cbn [map]. by rewrite Hr, IH.
    + clear -E H2. induction E as [|x y l k (Hr & _) _ IH]; [constructor|].
      apply Forall_cons in H2 as [Hx H2]. constructor; [by rewrite Hr|auto].
    + clear -E H3. induction E as [|x y l k (_ & Hr & _) _ IH]; [constructor|].
      apply Forall_cons in H3 as [Hx H3]. constructor; [by rewrite Hr|auto].
  - destruct (ends_transaction op); [|by intros [= <- _]]. intros [= <- _].
    apply each_ok; [done|unfold sat_sub; lia|..]; intros x; unfold transaction_end_answered; cbv zeta;
      destruct (result_is_ok outcome); rewrite ?(proj1 (end_transaction_frame _)), ?(proj2 (end_transaction_frame _));
      store_simpl; try done; by intros ->.
  - intros [= <- _]. apply (each_ok session_ended sr (ends_pending sr) Hok H4);
      intros x; unfold session_ended; cbv zeta; destruct (_ || _); done.
Qed.

Lemma record_frame s a :
  store_result (record s a) = store_result s /\ transaction_ends_pending (record s a) = transaction_ends_pending s.
Proof. by destruct a. Qed.

Lemma pump_loop_frame {St} (submit : St -> StoreAction -> St * result unit DbError) fuel st s n st' s' out :
  pump_loop submit fuel st s n = Ret (st', s', out) ->
  store_result s' = store_result s /\ transaction_ends_pending s' = transaction_ends_pending s.
Proof.
  revert st s n. induction fuel as [|fuel IH]; intros st s n; cbn [pump_loop];
    destruct (due s) as [a|]; try done; try (by intros [= _ <- _]).
  destruct (submit st a) as [st1 [u|e]]; [|by intros [= _ <- _]].
  intros E. apply IH in E as [E1 E2]. destruct (record_frame s a) as [E3 E4]. split; congruence.
Qed.

Lemma pump_each_frame {St} (submit : St -> StoreAction -> St * result unit DbError) st l n st' l' out :
  pump_each submit st l n = Ret (st', l', out) ->
  Forall2 (fun s s' => store_result s' = store_result s /\ transaction_ends_pending s' = transaction_ends_pending s) l l'.
Proof.
  revert st n l' out. induction l as [|s l IH]; intros st n l' out; cbn [pump_each].
  { intros [= _ <- _]. constructor. }
  destruct (pump submit st s) as [[[st1 s1] [k|e]]| |] eqn:E; cbn [rbind]; try done;
    apply pump_loop_frame in E.
  - destruct (pump_each submit st1 l (n + k)) as [[[st2 rest] o]| |] eqn:Er; cbn [rbind]; try done.
    intros [= -> <- ->]. constructor; [done|by eapply IH].
  - intros [= _ <- _]. constructor; [done|]. clear -l. induction l; constructor; auto.
Qed.

(** Stores replaced one for one. *)
Lemma replaced_ok sr l :
  results_ok sr ->
  Forall2 (fun s s' => store_result s' = store_result s /\ transaction_ends_pending s' = transaction_ends_pending s)
    (stores sr) l ->
  results_ok {| of_session := of_session sr; stores := l; ends_pending := ends_pending sr |}.
Proof.
  intros [H1 H2 H3 H4] E. split; cbn [stores of_session ends_pending]; try done.
  - assert (map store_result l = map store_result (stores sr)) as ->; [|done].
    clear -E. induction E as [|x y l k [Hr _] _ IH]; [done|]. cbn [map]. by rewrite Hr, IH.
  - clear -E H2. induction E as [|x y l k [Hr _] _ IH]; [constructor|].
    apply Forall_cons in H2 as [Hx H2]. constructor; [by rewrite Hr|auto].
  - clear -E H3. induction E as [|x y l k [_ Hr] _ IH]; [constructor|].
    apply Forall_cons in H3 as [Hx H3]. constructor; [by rewrite Hr|auto].
Qed.

Lemma remove_first_spec r l s rest :
  remove_first r l = Some (s, rest) -> exists a b, l = a ++ s :: b /\ rest = a ++ b /\ store_result s = r.
Proof.
  revert s rest. induction l as [|x l IH]; intros s rest; cbn [remove_first]; [done|].
  case_bool_decide as E; [intros [= <- <-]; by exists [], l|].
  destruct (remove_first r l) as [[y k]|]; [|done]. intros [= <- <-].
  destruct (IH _ _ eq_refl) as (a & b & -> & -> & Hr). by exists (x :: a), b.
Qed.

Lemma remove_ok sr r : results_ok sr -> results_ok (remove sr r).1.
Proof.
  intros Hok. unfold remove. destruct (remove_first r (stores sr)) as [[s rest]|] eqn:E; [|done]. cbn [fst].
  apply remove_first_spec in E as (a & b & E & -> & _). destruct Hok as [H1 H2 H3 H4]. rewrite E in *.
  apply Forall_app in H2 as [H2a [_ H2b]%Forall_cons]. apply Forall_app in H3 as [H3a [_ H3b]%Forall_cons].
  split; cbn [stores of_session ends_pending]; try done; try (by apply Forall_app).
  rewrite map_app in *. cbn [map] in H1. apply NoDup_app in H1 as (Ha & Hd & [_ Hb]%NoDup_cons).
  apply NoDup_app. split; [done|]. split; [|done]. intros x Hx Hx'. apply (Hd x Hx). by right.
Qed.

(** ** The properties *)

(** Every operation of a session keeps its stores well formed: at most one
    store per result, all of this session, all waiting for as many transaction
    ends as the session itself, whether they were open when a commit was
    submitted or opened while it was outstanding. *)
Theorem session_results_invariant sr :
  results_ok sr ->
  (forall o p, results_ok (open sr o p).1) /\
  (forall r, results_ok (remove sr r).1) /\
  results_ok (results_end_submitted sr) /\
  (forall debug e sr' out, observe debug sr e = Ret (sr', out) -> results_ok sr') /\
  (forall (submit : Z -> StoreAction -> Z * result unit DbError) st st' sr' out,
     results_pump submit st sr = Ret (st', sr', out) -> results_ok sr').
Proof.
  intros Hok. split; [intros; by apply open_ok|]. split; [intros; by apply remove_ok|]. split; [|split].
  - pose proof (results_pending_nonneg _ Hok).
    apply each_ok; [done|lia|done|]. intros s Hs. unfold transaction_end_submitted. store_simpl. lia.
  - intros debug e sr' out. by apply observe_ok.
  - intros submit st st' sr' out. unfold results_pump.
    destruct (pump_each submit st (stores sr) 0) as [[[st1 l] o]| |] eqn:E; cbn [rbind]; try done.
    intros [= _ <- _]. apply replaced_ok; [done|by eapply pump_each_frame].
Qed.

(** A store a transaction's end has released: nothing to fetch, nothing to
    close, no large object to read, and not shown as open. *)
Definition released (s : ResultStore) : Prop :=
  due s = None /\ is_Some (lobs s) /\ cursor_closed s = true /\ phase s <> Active /\
  match state_phase s with POpen | PFetching | PAtLimit _ _ true => False | _ => True end.

Lemma end_transaction_released s : released (end_transaction s).
Proof.
  unfold end_transaction, released. cbv zeta.
  change (phase (set_close_due false (set_cursor_closed true (lose_lobs LobTransactionEnded s)))) with (phase s).
  destruct (phase s) eqn:E; [|destruct (_ && _)|..];
    unfold due, state_phase, lose_lobs; store_simpl; rewrite ?E; cbn; by repeat split.
Qed.

(** A transaction's end ends the stores.  A successful commit, rollback or
    rollback to a savepoint observed by the session releases every store: none
    is left active or shown as open, with anything due, or with a readable
    large object.  A failed one only lets the stores resume, changing nothing
    else; an event of another session changes nothing at all. *)
Theorem transaction_end_releases debug sr req op outcome session :
  ends_transaction op = true ->
  exists sr', observe debug sr (Completed session req op outcome) = Ret (sr', OEvent (Completed session req op outcome)) /\
    (session <> of_session sr -> sr' = sr) /\
    (session = of_session sr ->
       match outcome with
       | Ok _ => Forall released (stores sr')
       | Err _ =>
           stores sr' = map (fun s => set_transaction_ends_pending (sat_sub (transaction_ends_pending s) 1) s) (stores sr)
       end).
Proof.
  intros Hop. unfold observe. cbn [event_session]. destruct (session =? of_session sr) eqn:E; boolify; cbn [negb].
  - rewrite Hop. eexists. split; [done|]. split; [done|]. intros _. cbn [each stores].
    destruct outcome as [u|e]; cbn [result_is_ok]; [|done]. apply Forall_map, Forall_forall. intros s _.
    apply end_transaction_released.
  - exists sr. split; [done|]. split; [done|]. done.
Qed.

(** Nothing is fetched into a transaction that is ending.  While a commit
    or rollback the session submitted is unanswered no store of the session,
    old or new, has a fetch due; once every one is answered none is held
    back. *)
Theorem no_fetch_while_ending sr s :
  results_ok sr -> s ∈ stores sr ->
  (0 < ends_pending sr -> forall f, due s <> Some (Fetch f)) /\
  (ends_pending sr = 0 -> transaction_ends_pending s = 0).
Proof.
  intros Hok Hs. pose proof (proj1 (Forall_forall _ _) (results_pending _ Hok) s Hs) as Hp. cbn in Hp.
  split; [|lia]. intros Hpos f Hdue. destruct (due_fetch s f Hdue) as (_ & _ & _ & _ & Htx & _). lia.
Qed.
End session.

(** ** A sample session *)

#[local] Instance sample_objects : DriverObjects := {| Locator := Z; CursorObject := Z |}.

Definition one_result : ExecuteOutcome :=
  {| outcome_result := Some {| owner := 1; result_set := 5 |}; outcome_columns := [];
     statement_kind := Query; committed_implicitly := false |}.
Definition some_policy : ResultPolicy := policy_new (caps_new (mkSourced Unlimited BuiltIn) (mkSourced Unlimited BuiltIn)).
Definition sample_results : SessionResults := (open (results_end_submitted (results_new 1)) one_result some_policy).1.

Lemma sample_results_ok : results_ok sample_results.
Proof.
  unfold sample_results. apply open_ok. split; cbn; try constructor; lia.
Qed.

Lemma session_results_invariant_witness : results_ok (results_end_submitted sample_results).
Proof. exact (proj1 (proj2 (proj2 (session_results_invariant _ sample_results_ok)))). Defined.

Lemma transaction_end_releases_witness :
  exists sr', observe true sample_results (Completed 1 0 Commit (Ok tt)) = Ret (sr', OEvent (Completed 1 0 Commit (Ok tt))) /\
    Forall released (stores sr').
Proof.
  destruct (transaction_end_releases true sample_results 0 Commit (Ok tt) 1 eq_refl) as (sr' & E & _ & Hr).
  exists sr'. split; [exact E|]. apply Hr. reflexivity.
Defined.

Definition sample_paused : ResultStore := transaction_end_submitted (store_new {| owner := 1; result_set := 5 |} [] some_policy).

Lemma no_fetch_while_ending_witness : ~ exists f, due sample_paused = Some (Fetch f).
Proof.
  intros [f Hf]. refine (proj1 (no_fetch_while_ending sample_results sample_paused sample_results_ok _) _ f Hf).
  - apply list_elem_of_singleton. reflexivity.
  - reflexivity.
Defined.
