(* ===== verification/EventQueue.v ===== *)
(** * The event queue (db-core/src/events.rs)

    One queue carries the events of every session to one consumer.  A reply
    holds the slot its request reserved until the consumer takes it; the
    unsolicited events of a session are capped, coalesced or counted.

    The mutex makes each operation one step on [Chan].  The [Arc<RequestSlots>]
    a session shares with the queue is an entry of [slots], by session.  The
    waker and the condition variable are reduced to what decides them: whether
    a push made an empty queue non-empty.  Sequence numbers do not wrap: they
    are 64 bits wide and count events. *)

From stdpp Require Import gmap.
From S2P Require Import Prelude RustStr Errors Segment ResultStore Events.
Open Scope Z_scope.
Open Scope run_scope.

Definition u32_max : Z := 2 ^ 32 - 1.
Definition sat_add32 (a b : Z) : Z := Z.min (a + b) u32_max.
Definition wrap64 (n : Z) : Z := n mod 2 ^ 64.

(** ** Reply slots *)

(** [RequestSlots::reserve]; the compare-and-exchange loop ends on the value
    the exchange succeeded on. *)
Definition reserve_slot (limit taken : Z) : result Z DbError :=
  if limit <=? taken then Err (error_new Resource (OutstandingLimit limit)) else Ok (taken + 1).

(** [RequestSlots::release], its assertion on. *)
Definition release_slot (taken : Z) : run Z := if taken =? 0 then Panic else Ret (taken - 1).

(** ** The queue *)

Record SessionQueueState := mkSession {
  unsolicited : Z;
  dropped_lines : Z;
  transaction_seq : option Z;
}.
Definition idle_session : SessionQueueState :=
  {| unsolicited := 0; dropped_lines := 0; transaction_seq := None |}.
Definition is_idle (s : SessionQueueState) : bool :=
  (unsolicited s =? 0) && (dropped_lines s =? 0) &&
  match transaction_seq s with None => true | Some _ => false end.

Record Pushed := mkPushed { wake : bool; kept : bool }.
Definition DISCARDED : Pushed := {| wake := false; kept := false |}.

Inductive Admission := Enqueue | EnqueueWithoutLines | Coalesced | Dropped.

Section queue.
Context {DO : DriverObjects}.
Implicit Types e : SessionEvent.

Record Queued := mkQueued { event : SessionEvent; slot : option SessionId }.

Record Inner := mkInner {
  queue : list Queued;
  front_seq : Z;
  next_seq : Z;
  sessions : gmap Z SessionQueueState;
  closed : bool;
}.

Record Chan := mkChan {
  inner : Inner;
  event_cap : Z;
  dropped_unsolicited : Z;
  slots : gmap Z Z;
}.

Definition event_channel (cap : Z) : Chan :=
  {| inner := {| queue := []; front_seq := 0; next_seq := 0; sessions := ∅; closed := false |};
     event_cap := cap; dropped_unsolicited := 0; slots := ∅ |}.

Definition set_queue (q : list Queued) (i : Inner) : Inner :=
  {| queue := q; front_seq := front_seq i; next_seq := next_seq i; sessions := sessions i; closed := closed i |}.
Definition set_sessions (m : gmap Z SessionQueueState) (i : Inner) : Inner :=
  {| queue := queue i; front_seq := front_seq i; next_seq := next_seq i; sessions := m; closed := closed i |}.
Definition set_inner (i : Inner) (c : Chan) : Chan :=
  {| inner := i; event_cap := event_cap c; dropped_unsolicited := dropped_unsolicited c; slots := slots c |}.
Definition set_slots (m : gmap Z Z) (c : Chan) : Chan :=
  {| inner := inner c; event_cap := event_cap c; dropped_unsolicited := dropped_unsolicited c; slots := m |}.

(** How many slots a session has taken. *)
Definition outstanding (c : Chan) (s : SessionId) : Z := default 0 (slots c !! s).

Definition reserve (limit : Z) (s : SessionId) (c : Chan) : result Chan DbError :=
  match reserve_slot limit (outstanding c s) with
  | Ok n => Ok (set_slots (<[s := n]> (slots c)) c)
  | Err e => Err e
  end.

Definition release (s : SessionId) (c : Chan) : run Chan :=
  let! n := release_slot (outstanding c s) in
  Ret (set_slots (<[s := n]> (slots c)) c).

Definition queued_transaction_slot (i : Inner) (s : SessionId) : option nat :=
  st ← sessions i !! s;
  seq ← transaction_seq st;
  if seq <? front_seq i then None else Some (Z.to_nat (seq - front_seq i)).

(** [admit_unsolicited]: the transaction state is folded into the one waiting
    or admitted; output past the cap is counted and dropped, but a failure is
    let in without its lines. *)
Definition admit_unsolicited (i : Inner) e (cap : Z) : Inner * Admission :=
  match e with
  | TransactionStateChanged s possibly_active =>
      match queued_transaction_slot i s with
      | Some n =>
          match queue i !! n with
          | Some {| event := TransactionStateChanged s' _; slot := sl |} =>
              (set_queue (<[n := mkQueued (TransactionStateChanged s' possibly_active) sl]> (queue i)) i, Coalesced)
          | _ => (i, Enqueue)
          end
      | None => (i, Enqueue)
      end
  | _ =>
      let s := event_session e in
      match sessions i !! s with
      | Some st =>
          if unsolicited st <? cap then (i, Enqueue)
          else
            match e with
            | ServerOutput _ lines _ failure _ =>
                let lost := Z.min (Z.of_nat (length lines)) u32_max in
                let st' := {| unsolicited := unsolicited st;
                              dropped_lines := sat_add32 (dropped_lines st) lost;
                              transaction_seq := transaction_seq st |} in
                (set_sessions (<[s := st']> (sessions i)) i,
                 match failure with Some _ => EnqueueWithoutLines | None => Dropped end)
            | _ => (i, Dropped)
            end
      | None => (i, Enqueue)
      end
  end.

Definition stamp_unsolicited (i : Inner) e : Inner * SessionEvent :=
  if negb (is_unsolicited e) then (i, e)
  else
    let s := event_session e in
    let st := default idle_session (sessions i !! s) in
    match e with
    | TransactionStateChanged _ _ =>
        (set_sessions (<[s := {| unsolicited := unsolicited st + 1; dropped_lines := dropped_lines st;
                                 transaction_seq := Some (next_seq i) |}]> (sessions i)) i, e)
    | ServerOutput s' lines dropped failure invalid =>
        (set_sessions (<[s := {| unsolicited := unsolicited st + 1; dropped_lines := 0;
                                 transaction_seq := transaction_seq st |}]> (sessions i)) i,
         ServerOutput s' lines (sat_add32 dropped (dropped_lines st)) failure invalid)
    | _ =>
        (set_sessions (<[s := {| unsolicited := unsolicited st + 1; dropped_lines := dropped_lines st;
                                 transaction_seq := transaction_seq st |}]> (sessions i)) i, e)
    end.

Definition release_unsolicited (i : Inner) (s : SessionId) (seq : Z) : Inner :=
  match sessions i !! s with
  | None => i
  | Some st =>
      let st' := {| unsolicited := sat_sub (unsolicited st) 1; dropped_lines := dropped_lines st;
                    transaction_seq := if bool_decide (transaction_seq st = Some seq) then None
                                       else transaction_seq st |} in
      if is_idle st' then set_sessions (delete s (sessions i)) i
      else set_sessions (<[s := st']> (sessions i)) i
  end.

(** The lines a refused failure leaves behind. *)
Definition without_lines e : SessionEvent :=
  match e with ServerOutput s _ d f v => ServerOutput s [] d f v | _ => e end.

Definition enqueue (c : Chan) (i : Inner) e (sl : option SessionId) : Chan * Pushed :=
  let '(i', e') := stamp_unsolicited i e in
  (set_inner {| queue := queue i' ++ [mkQueued e' sl]; front_seq := front_seq i'; next_seq := next_seq i' + 1;
                sessions := sessions i'; closed := closed i' |} c,
   {| wake := is_nil (queue (inner c)); kept := true |}).

(** [Shared::push]. *)
Definition push (c : Chan) e (sl : option SessionId) : Chan * Pushed :=
  if closed (inner c) then (c, DISCARDED)
  else if is_unsolicited e then
    match admit_unsolicited (inner c) e (event_cap c) with
    | (i, Enqueue) => enqueue c i e sl
    | (i, EnqueueWithoutLines) => enqueue c i (without_lines e) sl
    | (i, Coalesced) => (set_inner i c, DISCARDED)
    | (i, Dropped) =>
        ({| inner := i; event_cap := event_cap c;
            dropped_unsolicited := wrap64 (dropped_unsolicited c + 1); slots := slots c |}, DISCARDED)
    end
  else enqueue c (inner c) e sl.

(** [EventSink::push] and [EventSink::push_reply], its assertion on. *)
Definition sink_push (c : Chan) e : Chan * bool :=
  let '(c', p) := push c e None in (c', wake p).
Definition push_reply (c : Chan) e (s : SessionId) : run (Chan * Pushed) :=
  if is_reply e then Ret (push c e (Some s)) else Panic.

(** The branch of [SessionShared::emit_reply] (shared.rs) with a queue bound: the
    slot goes with the reply, or back when the queue did not keep it. *)
Definition reply_into (c : Chan) e : run (Chan * bool) :=
  let s := event_session e in
  let! (c', p) := push_reply c e s in
  let! c'' := if kept p then Ret c' else release s c' in
  Ret (c'', wake p).

(** [Queued::take] and [Shared::pop]. *)
Definition pop (c : Chan) : run (option SessionEvent * Chan) :=
  match queue (inner c) with
  | [] => Ret (None, c)
  | q :: rest =>
      let! c1 := match slot q with Some s => release s c | None => Ret c end in
      let i := inner c1 in
      let i1 := {| queue := rest; front_seq := front_seq i + 1; next_seq := next_seq i;
                   sessions := sessions i; closed := closed i |} in
      let i2 := if is_unsolicited (event q)
                then release_unsolicited i1 (event_session (event q)) (front_seq i) else i1 in
      Ret (Some (event q), set_inner i2 c1)
  end.

(** [EventQueue::drain_into]: the events appended and the queue left. *)
Fixpoint drain_into (max : nat) (c : Chan) : run (list SessionEvent * Chan) :=
  match max with
  | O => Ret ([], c)
  | S n =>
      let! (o, c1) := pop c in
      match o with
      | None => Ret ([], c1)
      | Some e => let! (es, c2) := drain_into n c1 in Ret (e :: es, c2)
      end
  end.

Definition pending_dropped_lines (c : Chan) (s : SessionId) : Z :=
  match sessions (inner c) !! s with Some st => dropped_lines st | None => 0 end.

(** [Drop for EventQueue]: everything queued is popped, which takes one turn per
    event and one to see the end. *)
Definition drop_queue (c : Chan) : run Chan :=
  let i := inner c in
  let! (_, c1) := drain_into (S (length (queue i)))
    (set_inner {| queue := queue i; front_seq := front_seq i; next_seq := next_seq i;
                  sessions := sessions i; closed := true |} c) in
  Ret (set_inner (set_sessions ∅ (inner c1)) c1).
End queue.
