(* ===== verification/EventQueueProps.v ===== *)
(** * The event queue's invariant and its guarantees

    [chan_ok] ties the queue's index and its counters to the events queued.
    [chan_step] is what producers and the consumer may do, with what it pushed
    or took as its label; the invariant holds along any run of it, and with it
    the delivery guarantees: order, coalescing, counted drops and the bound on
    what one session may have waiting. *)

From stdpp Require Import gmap.
From S2P Require Import Prelude RustStr Errors Segment ResultStore Events EventQueue.
Open Scope Z_scope.
Open Scope run_scope.

(** ** Sums over a list of events *)

Section tally.
Context {A : Type}.
Implicit Types (f g : A -> Z) (l : list A).

Fixpoint tally f l : Z := match l with [] => 0 | x :: l' => f x + tally f l' end.

Lemma tally_app f l k : tally f (l ++ k) = tally f l + tally f k.
Proof. induction l as [|x l IH]; cbn; [lia|]. rewrite IH. lia. Qed.

Lemma tally_nonneg f l : (forall x, 0 <= f x) -> 0 <= tally f l.
Proof. intros Hf. induction l as [|x l IH]; cbn; [lia|]. specialize (Hf x). lia. Qed.

Lemma tally_le f g l : (forall x, f x <= g x) -> tally f l <= tally g l.
Proof. intros Hf. induction l as [|x l IH]; cbn; [lia|]. specialize (Hf x). lia. Qed.

Lemma tally_insert f l n x y : l !! n = Some x -> tally f (<[n:=y]> l) = tally f l - f x + f y.
Proof.
  revert n. induction l as [|z l IH]; intros [|n] E; [done..|injection E as ->; cbn; lia|].
  change (<[S n:=y]> (z :: l)) with (z :: <[n:=y]> l). cbn [tally]. rewrite (IH n E). lia.
Qed.

Lemma tally_pos f l : (forall x, 0 <= f x) -> 0 < tally f l -> exists n x, l !! n = Some x /\ 0 < f x.
Proof.
  intros Hf. induction l as [|z l IH]; cbn; [lia|]. intros Hp.
  destruct (decide (0 < f z)) as [Hz|Hz]; [by exists 0%nat, z|].
  destruct IH as (n & x & E & Hx); [specialize (Hf z); lia|]. by exists (S n), x.
Qed.

Lemma tally_zero f l n x : (forall x, 0 <= f x) -> tally f l = 0 -> l !! n = Some x -> f x = 0.
Proof.
  intros Hf. revert n. induction l as [|z l IH]; intros [|n]; cbn; try done.
  - intros E [= ->]. pose proof (tally_nonneg f l Hf). specialize (Hf x). lia.
  - intros E Hn. pose proof (tally_nonneg f l Hf). pose proof (Hf z). apply (IH n); [lia|done].
Qed.
End tally.

(** Sums compared element by element on one list. *)
Lemma tally_replace {A B} (f : B -> Z) (g : A -> B) l n x y :
  l !! n = Some x -> tally f (map g (<[n:=y]> l)) = tally f (map g l) - f (g x) + f (g y).
Proof.
  intros E. replace (map g (<[n:=y]> l)) with (<[n:=g y]> (map g l)) by (symmetry; apply (list_fmap_insert g)).
  apply tally_insert. change (map g l) with (g <$> l). by rewrite list_lookup_fmap, E.
Qed.

Section props.
Context {DO : DriverObjects}.
Implicit Types (e : SessionEvent) (c : Chan) (s : SessionId).

(** ** What is counted *)

Definition belongs (s : SessionId) e : bool := event_session e =? s.
Definition ind (b : bool) : Z := if b then 1 else 0.
Definition is_state e : bool := match e with TransactionStateChanged _ _ => true | _ => false end.
Definition is_plain_output e : bool := match e with ServerOutput _ _ _ None _ => true | _ => false end.
Definition is_failed_output e : bool := match e with ServerOutput _ _ _ (Some _) _ => true | _ => false end.
Definition is_executing e : bool := match e with Executing _ _ _ => true | _ => false end.
(** The lines an event delivers or reports as dropped. *)
Definition output_weight e : Z :=
  match e with ServerOutput _ lines d _ _ => Z.of_nat (length lines) + d | _ => 0 end.

Definition event_dropped e : Z := match e with ServerOutput _ _ d _ _ => d | _ => 0 end.

Definition unsolicited_of s e : Z := ind (is_unsolicited e && belongs s e).
Definition replies_of s e : Z := ind (is_reply e && belongs s e).

Definition queued c : list SessionEvent := map event (queue (inner c)).
Definition state_of c s : SessionQueueState := default idle_session (sessions (inner c) !! s).

(** ** The invariant *)

Record chan_ok c : Prop := {
  ok_next : next_seq (inner c) = front_seq (inner c) + Z.of_nat (length (queue (inner c)));
  ok_unsolicited : forall s, unsolicited (state_of c s) = tally (unsolicited_of s) (queued c);
  ok_seq : forall s n, transaction_seq (state_of c s) = Some n ->
    exists k b, n = front_seq (inner c) + Z.of_nat k /\ queued c !! k = Some (TransactionStateChanged s b);
  ok_state : forall s k b, queued c !! k = Some (TransactionStateChanged s b) ->
    transaction_seq (state_of c s) = Some (front_seq (inner c) + Z.of_nat k);
  ok_busy : forall s st, sessions (inner c) !! s = Some st -> is_idle st = false;
  ok_dropped : forall s, 0 <= dropped_lines (state_of c s) <= u32_max;
  ok_weight : Forall (fun e => 0 <= event_dropped e) (queued c);
  ok_slots : Forall (fun q => slot q = if is_reply (event q) then Some (event_session (event q)) else None)
    (queue (inner c));
  ok_outstanding : forall s, tally (replies_of s) (queued c) <= outstanding c s;
  ok_cap : 0 < event_cap c;
  ok_capped : forall s, tally (fun e => ind (is_plain_output e && belongs s e)) (queued c) <= event_cap c;
}.

Lemma ind_nonneg b : 0 <= ind b.
Proof. destruct b; cbn; lia. Qed.
Lemma unsolicited_of_nonneg s e : 0 <= unsolicited_of s e.
Proof. apply ind_nonneg. Qed.
Lemma replies_of_nonneg s e : 0 <= replies_of s e.
Proof. apply ind_nonneg. Qed.

Lemma event_channel_ok cap : 0 < cap -> chan_ok (event_channel cap).
Proof.
  intros Hc. assert (Hs : forall s, state_of (event_channel cap) s = idle_session).
  { intros s. unfold state_of. cbn. by rewrite lookup_empty. }
  split; try done; try (intros s; rewrite Hs); cbn; try done; try lia.
Qed.

(** ** Updates of the bookkeeping *)

Lemma state_of_set c i s :
  state_of (set_inner i c) s = default idle_session (sessions i !! s).
Proof. done. Qed.

Lemma state_of_insert c i m s st s' :
  sessions i = <[s := st]> m ->
  state_of (set_inner i c) s' = if decide (s = s') then st else default idle_session (m !! s').
Proof. intros E. unfold state_of. cbn. rewrite E, lookup_insert. by case_decide. Qed.

Lemma lookup_snoc_Some {A} (l : list A) x n y :
  (l ++ [x]) !! n = Some y -> l !! n = Some y \/ (n = length l /\ y = x).
Proof.
  rewrite lookup_app_Some. intros [?|[Hn E]]; [by left|].
  destruct (n - length l)%nat eqn:En; [|done]. injection E as ->. right. split; [lia|done].
Qed.

Lemma belongs_true s e : belongs s e = true <-> event_session e = s.
Proof. apply Z.eqb_eq. Qed.

Lemma belongs_false s e : event_session e <> s -> belongs s e = false.
Proof. apply Z.eqb_neq. Qed.

Lemma other_reply s e : event_session e <> s -> replies_of s e = 0.
Proof. intros Hne. unfold replies_of. by rewrite (belongs_false _ _ Hne), andb_false_r. Qed.

Lemma other_unsolicited s e : event_session e <> s -> unsolicited_of s e = 0.
Proof. intros Hne. unfold unsolicited_of. by rewrite (belongs_false _ _ Hne), andb_false_r. Qed.

Lemma own_unsolicited e : is_unsolicited e = true -> unsolicited_of (event_session e) e = 1.
Proof. intros Hu. unfold unsolicited_of, belongs. by rewrite Hu, Z.eqb_refl. Qed.

(** An event that is not counted per session: a reply, [Executing], [Terminal]. *)
Lemma enqueue_solicited_ok c e sl :
  chan_ok c -> closed (inner c) = false -> is_unsolicited e = false ->
  sl = (if is_reply e then Some (event_session e) else None) ->
  tally (replies_of (event_session e)) (queued c) + replies_of (event_session e) e <= outstanding c (event_session e) ->
  chan_ok (enqueue c (inner c) e sl).1.
Proof.
  intros H Hc Hu -> Hs. unfold enqueue, stamp_unsolicited. rewrite Hu. cbn [negb fst].
  set (c' := set_inner _ c).
  assert (Hq : queued c' = queued c ++ [e]) by (subst c'; unfold queued; cbn; by rewrite map_app).
  assert (Hst : forall s, state_of c' s = state_of c s) by done.
  assert (Hpo : is_plain_output e = false) by (by destruct e as [| | | | | | | | | |? ? ? []| |]).
  assert (Hnew : forall s, unsolicited_of s e = 0) by (intros s; unfold unsolicited_of; by rewrite Hu).
  split; try rewrite Hq; intros; rewrite ?Hst, ?tally_app in *; cbn [tally].
  - subst c'; cbn. rewrite length_app. cbn. rewrite (ok_next _ H). lia.
  - rewrite Hnew, (ok_unsolicited _ H). lia.
  - destruct (ok_seq _ H _ _ H0) as (k & b & -> & E). exists k, b. split; [done|]. by apply lookup_app_l_Some.
  - apply lookup_snoc_Some in H0 as [E|[_ <-]]; [by apply (ok_state _ H) in E|done].
  - by apply (ok_busy _ H s).
  - apply (ok_dropped _ H).
  - apply Forall_app. split; [apply (ok_weight _ H)|]. constructor; [|done]. by destruct e.
  - subst c'; cbn. apply Forall_app. split; [apply (ok_slots _ H)|]. by constructor.
  - change (outstanding c' s) with (outstanding c s). pose proof (ok_outstanding _ H s).
    destruct (decide (event_session e = s)) as [<-|Hne]; [lia|]. rewrite (other_reply s e Hne). lia.
  - apply (ok_cap _ H).
  - rewrite Hpo. cbn. pose proof (ok_capped _ H s). lia.
Qed.

Lemma unsolicited_not_reply e : is_unsolicited e = true -> is_reply e = false.
Proof. by destruct e. Qed.

Lemma plain_le_unsolicited s es :
  tally (fun e => ind (is_plain_output e && belongs s e)) es <= tally (unsolicited_of s) es.
Proof.
  apply tally_le. intros e. unfold unsolicited_of. destruct e as [| | | | | | | | | |? ? ? []| |]; cbn; try lia; apply ind_nonneg.
Qed.

(** An unsolicited event of [s], with [st] the session's entry after it. *)
Definition enqueued c e (st : SessionQueueState) : Chan :=
  set_inner {| queue := queue (inner c) ++ [mkQueued e None]; front_seq := front_seq (inner c);
               next_seq := next_seq (inner c) + 1;
               sessions := <[event_session e := st]> (sessions (inner c)); closed := closed (inner c) |} c.

Lemma enqueue_unsolicited_ok c e st :
  chan_ok c -> closed (inner c) = false -> is_unsolicited e = true -> 0 <= event_dropped e ->
  unsolicited st = unsolicited (state_of c (event_session e)) + 1 ->
  0 <= dropped_lines st <= u32_max ->
  transaction_seq st = (if is_state e then Some (next_seq (inner c)) else transaction_seq (state_of c (event_session e))) ->
  (is_state e = true -> transaction_seq (state_of c (event_session e)) = None) ->
  (is_plain_output e = true -> unsolicited (state_of c (event_session e)) < event_cap c) ->
  chan_ok (enqueued c e st).
Proof.
  intros H Hc Hu Hw Hun Hd Hseq Hfresh Hcap. set (s0 := event_session e) in *. set (c' := enqueued c e st).
  assert (Hq : queued c' = queued c ++ [e]) by (subst c'; unfold queued; cbn; by rewrite map_app).
  assert (Hst : forall s, state_of c' s = if decide (s0 = s) then st else state_of c s)
    by (intros s; by apply state_of_insert).
  assert (Hpos : 0 <= unsolicited (state_of c s0))
    by (rewrite (ok_unsolicited _ H); apply tally_nonneg, unsolicited_of_nonneg).
  split; try rewrite Hq; intros; rewrite ?Hst, ?tally_app in *; cbn [tally].
  - subst c'; cbn. rewrite length_app. cbn. rewrite (ok_next _ H). lia.
  - case_decide as Es; [subst s|rewrite (other_unsolicited s e Es), (ok_unsolicited _ H); lia].
    rewrite Hun, (ok_unsolicited _ H). unfold s0. rewrite (own_unsolicited e Hu). lia.
  - assert (Hold : forall k b, queued c !! k = Some b -> (queued c ++ [e]) !! k = Some b)
      by (intros k b; apply lookup_app_l_Some).
    change (front_seq (inner c')) with (front_seq (inner c)).
    case_decide as Es; [subst s; rewrite Hseq in H0; destruct (is_state e) eqn:Ee|];
      try (destruct (ok_seq _ H _ _ H0) as (k & b & -> & E); exists k, b; auto).
    injection H0 as <-. destruct e as [| | | | | | | | | | |s1 b1|]; try done.
    exists (length (queued c)), b1. rewrite (ok_next _ H). unfold queued at 1. rewrite length_map. split; [done|].
    by rewrite lookup_app_r, Nat.sub_diag by lia.
  - change (front_seq (inner c')) with (front_seq (inner c)).
    apply lookup_snoc_Some in H0 as [E|[-> <-]].
    + apply (ok_state _ H) in E. case_decide as Es; [subst s|done]. rewrite Hseq.
      destruct (is_state e) eqn:Ee; [|done]. rewrite Hfresh in E; done.
    + cbn in s0. subst s0. rewrite decide_True by done. rewrite Hseq. cbn. rewrite (ok_next _ H).
      unfold queued. by rewrite length_map.
  - subst c'; cbn in H0. apply lookup_insert_Some in H0 as [[<- <-]|[_ E]]; [|by apply (ok_busy _ H s)].
    unfold is_idle. rewrite Hun. destruct (_ =? 0) eqn:E; boolify; [lia|done].
  - case_decide; [done|]. apply (ok_dropped _ H).
  - apply Forall_app. split; [apply (ok_weight _ H)|]. by constructor.
  - subst c'; cbn. apply Forall_app. split; [apply (ok_slots _ H)|]. constructor; [|done]. cbn.
    by rewrite (unsolicited_not_reply e Hu).
  - change (outstanding c' s) with (outstanding c s). pose proof (ok_outstanding _ H s).
    assert (replies_of s e = 0) as -> by (unfold replies_of; by rewrite (unsolicited_not_reply e Hu)). lia.
  - apply (ok_cap _ H).
  - change (event_cap c') with (event_cap c). pose proof (ok_capped _ H s).
    destruct (decide (s0 = s)) as [<-|Hne]; [|rewrite (belongs_false s e Hne), andb_false_r; cbn; lia].
    destruct (is_plain_output e); [|cbn; lia]. specialize (Hcap eq_refl). rewrite (ok_unsolicited _ H) in Hcap.
    pose proof (plain_le_unsolicited s0 (queued c)). pose proof (ind_nonneg (true && belongs s0 e)).
    destruct (true && belongs s0 e); cbn; lia.
Qed.

(** ** What a push does, case by case *)

Definition entry (n d : Z) (t : option Z) : SessionQueueState :=
  {| unsolicited := n; dropped_lines := d; transaction_seq := t |}.

(** [c] with the entry of [s] replaced and the refusal counted. *)
Definition refused c (s : SessionId) (st : SessionQueueState) : Chan :=
  {| inner := set_sessions (<[s := st]> (sessions (inner c))) (inner c); event_cap := event_cap c;
     dropped_unsolicited := wrap64 (dropped_unsolicited c + 1); slots := slots c |}.

Definition appended c e (sl : option SessionId) : Chan :=
  set_inner {| queue := queue (inner c) ++ [mkQueued e sl]; front_seq := front_seq (inner c);
               next_seq := next_seq (inner c) + 1; sessions := sessions (inner c); closed := closed (inner c) |} c.

Definition replaced c (k : nat) q : Chan := set_inner (set_queue (<[k := q]> (queue (inner c))) (inner c)) c.

Definition taken_in c : Pushed := {| wake := is_nil (queue (inner c)); kept := true |}.
Definition line_count (lines : list str) : Z := Z.min (Z.of_nat (length lines)) u32_max.

Inductive push_case c : SessionEvent -> option SessionId -> Chan * Pushed -> Prop :=
| push_closed e sl : closed (inner c) = true -> push_case c e sl (c, DISCARDED)
| push_solicited e sl : closed (inner c) = false -> is_unsolicited e = false ->
    push_case c e sl (appended c e sl, taken_in c)
| push_state s b : closed (inner c) = false -> transaction_seq (state_of c s) = None ->
    push_case c (TransactionStateChanged s b) None
      (enqueued c (TransactionStateChanged s b)
         (entry (unsolicited (state_of c s) + 1) (dropped_lines (state_of c s)) (Some (next_seq (inner c)))),
       taken_in c)
| push_folded s b k b0 sl : closed (inner c) = false ->
    queue (inner c) !! k = Some (mkQueued (TransactionStateChanged s b0) sl) ->
    push_case c (TransactionStateChanged s b) None
      (replaced c k (mkQueued (TransactionStateChanged s b) sl), DISCARDED)
| push_output s lines d f v : closed (inner c) = false -> unsolicited (state_of c s) < event_cap c ->
    push_case c (ServerOutput s lines d f v) None
      (enqueued c (ServerOutput s lines (sat_add32 d (dropped_lines (state_of c s))) f v)
         (entry (unsolicited (state_of c s) + 1) 0 (transaction_seq (state_of c s))), taken_in c)
| push_cut s lines d f v : closed (inner c) = false -> event_cap c <= unsolicited (state_of c s) ->
    push_case c (ServerOutput s lines d (Some f) v) None
      (enqueued c (ServerOutput s [] (sat_add32 d (sat_add32 (dropped_lines (state_of c s)) (line_count lines))) (Some f) v)
         (entry (unsolicited (state_of c s) + 1) 0 (transaction_seq (state_of c s))), taken_in c)
| push_refused s lines d v : closed (inner c) = false -> event_cap c <= unsolicited (state_of c s) ->
    push_case c (ServerOutput s lines d None v) None
      (refused c s (entry (unsolicited (state_of c s)) (sat_add32 (dropped_lines (state_of c s)) (line_count lines))
                      (transaction_seq (state_of c s))), DISCARDED).

Lemma queued_slot_spec c s :
  chan_ok c ->
  match queued_transaction_slot (inner c) s with
  | Some k => exists q b, queue (inner c) !! k = Some q /\ event q = TransactionStateChanged s b
  | None => transaction_seq (state_of c s) = None
  end.
Proof.
  intros H. unfold queued_transaction_slot.
  assert (Hs : forall st, sessions (inner c) !! s = Some st -> state_of c s = st) by (intros st E; unfold state_of; by rewrite E).
  destruct (sessions (inner c) !! s) as [st|] eqn:E; cbn; [|unfold state_of; by rewrite E].
  destruct (transaction_seq st) as [n|] eqn:En; cbn; [|by rewrite (Hs st eq_refl)].
  destruct (ok_seq _ H s n) as (k & b & -> & Hk); [by rewrite (Hs st eq_refl)|].
  destruct (_ <? _) eqn:El; boolify; [lia|].
  replace (Z.to_nat _) with k by lia. unfold queued in Hk. change (map event _) with (event <$> queue (inner c)) in Hk.
  rewrite list_lookup_fmap in Hk. destruct (queue (inner c) !! k) as [q|]; [|done]. injection Hk as Hk. eauto.
Qed.

Lemma push_cases c e sl :
  chan_ok c -> (is_unsolicited e = true -> sl = None) -> push_case c e sl (push c e sl).
Proof.
  intros H Hsl. unfold push. destruct (closed (inner c)) eqn:Hc; [by constructor|].
  destruct (is_unsolicited e) eqn:Hu; [|unfold enqueue, stamp_unsolicited; rewrite Hu; by constructor].
  rewrite (Hsl eq_refl).
  destruct e as [| | | | | | | | | |s lines d f v|s b|]; try done; cbn [admit_unsolicited event_session].
  - unfold enqueue, stamp_unsolicited, without_lines. cbn [is_unsolicited negb event_session].
    destruct (sessions (inner c) !! s) as [st|] eqn:E.
    + assert (Hst : state_of c s = st) by (unfold state_of; by rewrite E).
      destruct (unsolicited st <? event_cap c) eqn:El; boolify.
      * rewrite E. cbn [default from_option]. rewrite <- Hst. apply push_output; [done|by rewrite Hst].
      * destruct f as [f|].
        -- cbn [set_sessions sessions queue front_seq next_seq closed]. rewrite lookup_insert_eq. cbn [default from_option].
           rewrite insert_insert_eq. cbn [unsolicited dropped_lines transaction_seq].
           rewrite <- Hst. apply (push_cut c s lines d f v); [done|by rewrite Hst].
        -- rewrite <- Hst. apply (push_refused c s lines d v); [done|by rewrite Hst].
    + rewrite E. pose proof (ok_cap _ H). assert (Hst : state_of c s = idle_session) by (unfold state_of; by rewrite E).
      change (default idle_session None) with idle_session. rewrite <- Hst. apply push_output; [done|by rewrite Hst].
  - pose proof (queued_slot_spec c s H) as Hs. destruct (queued_transaction_slot (inner c) s) as [k|].
    + destruct Hs as ([e0 sl0] & b0 & Hk & He). cbn in He. subst e0. rewrite Hk. by apply (push_folded c s b k b0).
    + by apply push_state.
Qed.

Lemma sat_add32_bounds a b : 0 <= a -> 0 <= b -> 0 <= sat_add32 a b <= u32_max.
Proof. unfold sat_add32, u32_max. lia. Qed.

Lemma line_count_nonneg lines : 0 <= line_count lines.
Proof. unfold line_count, u32_max. lia. Qed.

(** Events changed in place without changing what any counter sees. *)
Lemma coalesced_ok c k s b b0 sl :
  chan_ok c -> queue (inner c) !! k = Some (mkQueued (TransactionStateChanged s b0) sl) ->
  chan_ok (replaced c k (mkQueued (TransactionStateChanged s b) sl)).
Proof.
  intros H Hk. set (c' := replaced _ _ _).
  assert (Hq : queued c' = <[k := TransactionStateChanged s b]> (queued c)) by apply (list_fmap_insert event).
  assert (Hk' : queued c !! k = Some (TransactionStateChanged s b0))
    by (unfold queued; change (map event (queue (inner c))) with (event <$> queue (inner c)); by rewrite list_lookup_fmap, Hk).
  assert (Hst : forall s, state_of c' s = state_of c s) by done.
  pose proof (lookup_lt_Some _ _ _ Hk') as Hlt.
  split; try rewrite Hq; intros; rewrite ?Hst in *; try rewrite (tally_insert _ _ _ _ _ Hk').
  - subst c'; cbn. rewrite length_insert. apply (ok_next _ H).
  - rewrite (ok_unsolicited _ H).
    change (unsolicited_of s0 (TransactionStateChanged s b)) with (unsolicited_of s0 (TransactionStateChanged s b0)). lia.
  - destruct (ok_seq _ H _ _ H0) as (k1 & b1 & -> & E). destruct (decide (k1 = k)) as [->|Hne].
    + rewrite Hk' in E. injection E as -> ->. exists k, b. split; [done|]. by apply list_lookup_insert_eq.
    + exists k1, b1. split; [done|]. by rewrite list_lookup_insert_ne.
  - apply list_lookup_insert_Some in H0 as [(-> & E & _)|[_ E]]; [|by apply (ok_state _ H) in E].
    injection E as <- _. by apply (ok_state _ H) in Hk'.
  - by apply (ok_busy _ H s0).
  - apply (ok_dropped _ H).
  - apply Forall_insert; [apply (ok_weight _ H)|done].
  - subst c'; cbn. apply Forall_insert; [apply (ok_slots _ H)|].
    by apply (Forall_lookup_1 _ _ _ _ (ok_slots _ H)) in Hk.
  - change (outstanding c' s0) with (outstanding c s0). pose proof (ok_outstanding _ H s0).
    change (replies_of s0 (TransactionStateChanged s b)) with (replies_of s0 (TransactionStateChanged s b0)). lia.
  - apply (ok_cap _ H).
  - cbn. pose proof (ok_capped _ H s0). cbn in *. lia.
Qed.

Lemma refused_ok c s d :
  chan_ok c -> closed (inner c) = false -> event_cap c <= unsolicited (state_of c s) -> 0 <= d <= u32_max ->
  chan_ok (refused c s (entry (unsolicited (state_of c s)) d (transaction_seq (state_of c s)))).
Proof.
  intros H Hc Hcap Hd. set (st := entry _ _ _). set (c' := refused _ _ _).
  assert (Hst : forall s', state_of c' s' = if decide (s = s') then st else state_of c s')
    by (intros s'; unfold state_of; cbn; rewrite lookup_insert; by case_decide).
  pose proof (ok_cap _ H) as Hpos. change (queued c') with (queued c) in *.
  split; try apply H; intros; rewrite ?Hst in *.
  - case_decide as E; [subst; apply H|apply H].
  - case_decide as E; [subst; by apply (ok_seq _ H)|by apply (ok_seq _ H)].
  - case_decide as E; [subst|]; by apply (ok_state _ H) with b.
  - subst c'; cbn in H0. apply lookup_insert_Some in H0 as [[<- <-]|[_ E]]; [|by apply (ok_busy _ H s0)].
    unfold is_idle. cbn. destruct (_ =? 0) eqn:E; boolify; [lia|done].
  - case_decide; [done|]. apply (ok_dropped _ H).
Qed.

(** A reply goes in with the slot of its own session, which that session has
    taken for a request not yet answered. *)
Definition slot_for e : option SessionId := if is_reply e then Some (event_session e) else None.
Definition may_push c e : Prop :=
  0 <= event_dropped e /\
  (is_reply e = true -> tally (replies_of (event_session e)) (queued c) < outstanding c (event_session e)).

Lemma push_ok c e : chan_ok c -> may_push c e -> chan_ok (push c e (slot_for e)).1.
Proof.
  intros H [Hd Hr].
  assert (Hcase : push_case c e (slot_for e) (push c e (slot_for e))).
  { apply push_cases; [done|]. intros Hu. unfold slot_for. by rewrite (unsolicited_not_reply e Hu). }
  inversion Hcase as [? ? Hc E1|? ? Hc Hu|? ? Hc Ht|? ? ? ? ? Hc Hk|? ? ? ? ? Hc Hl|? ? ? ? ? Hc Hl|? ? ? ? Hc Hl];
    subst; cbn [fst]; try done.
  - assert (E : appended c e (slot_for e) = (enqueue c (inner c) e (slot_for e)).1)
      by (unfold enqueue, stamp_unsolicited; by rewrite Hu).
    rewrite E. apply enqueue_solicited_ok; try done. unfold replies_of at 2.
    destruct (is_reply e) eqn:Ee; [|cbn; pose proof (ok_outstanding _ H (event_session e)); lia].
    unfold belongs. rewrite Z.eqb_refl. cbn. specialize (Hr eq_refl). lia.
  - apply enqueue_unsolicited_ok; try done. apply (ok_dropped _ H).
  - by apply coalesced_ok with b0.
  - cbn in Hd. pose proof (ok_dropped _ H s). apply enqueue_unsolicited_ok; try done; cbn.
    apply sat_add32_bounds; lia.
  - cbn in Hd. pose proof (ok_dropped _ H s). pose proof (line_count_nonneg lines).
    apply enqueue_unsolicited_ok; try done; cbn. apply sat_add32_bounds; [lia|].
    apply sat_add32_bounds; lia.
  - pose proof (ok_dropped _ H s). pose proof (line_count_nonneg lines). apply refused_ok; try done.
    apply sat_add32_bounds; lia.
Qed.

(** ** Taking an event *)

Lemma idle_eq st : is_idle st = true -> st = idle_session.
Proof.
  unfold is_idle. intros H. boolify. destruct st as [u d [t|]]; cbn in *; [done|].
  unfold idle_session. by subst.
Qed.

(** The entry of a session after one of its events left at [seq]. *)
Definition after_release (st : SessionQueueState) (seq : Z) : SessionQueueState :=
  entry (sat_sub (unsolicited st) 1) (dropped_lines st)
    (if bool_decide (transaction_seq st = Some seq) then None else transaction_seq st).

Lemma release_sessions i s seq st :
  sessions i !! s = Some st ->
  exists m, release_unsolicited i s seq = set_sessions m i /\
    (forall s', default idle_session (m !! s') =
       if decide (s = s') then after_release st seq else default idle_session (sessions i !! s')) /\
    (forall s' st', m !! s' = Some st' -> is_idle st' = false \/ (s <> s' /\ sessions i !! s' = Some st')).
Proof.
  intros E. unfold release_unsolicited. rewrite E. fold (after_release st seq).
  change {| unsolicited := _; dropped_lines := _; transaction_seq := _ |} with (after_release st seq).
  destruct (is_idle (after_release st seq)) eqn:Ei; eexists; (split; [done|]); split; intros s'.
  - rewrite lookup_delete. case_decide; [by rewrite (idle_eq _ Ei)|done].
  - intros st' [Hne Hs]%lookup_delete_Some. by right.
  - rewrite lookup_insert. by case_decide.
  - intros st' [[-> <-]|[Hne Hs]]%lookup_insert_Some; [by left|by right].
Qed.

(** What [pop] leaves: the rest of the queue, the front's slot given back, the
    front's session released. *)
Record popped c e (rest : list Queued) c' : Prop := {
  popped_queue : queue (inner c') = rest;
  popped_front : front_seq (inner c') = front_seq (inner c) + 1;
  popped_next : next_seq (inner c') = next_seq (inner c);
  popped_closed : closed (inner c') = closed (inner c);
  popped_cap : event_cap c' = event_cap c;
  popped_outstanding : forall s, outstanding c' s = outstanding c s - replies_of s e;
  popped_state : forall s, state_of c' s =
    if is_unsolicited e && belongs s e then after_release (state_of c s) (front_seq (inner c)) else state_of c s;
  popped_busy : forall s st, sessions (inner c') !! s = Some st -> is_idle st = false;
}.

Lemma release_returns s c :
  0 < outstanding c s ->
  exists c', release s c = Ret c' /\ inner c' = inner c /\ event_cap c' = event_cap c /\
    forall s', outstanding c' s' = outstanding c s' - ind (s =? s').
Proof.
  intros Hp. unfold release, release_slot. destruct (_ =? 0) eqn:E; boolify; [lia|]. eexists. split; [done|].
  split; [done|]. split; [done|]. intros s'. unfold outstanding at 1. cbn. rewrite lookup_insert.
  destruct (Z.eqb_spec s s') as [->|Hne]; [rewrite decide_True by done; cbn; lia|].
  rewrite decide_False by done. unfold outstanding. cbn. lia.
Qed.

Lemma pop_front c q rest :
  chan_ok c -> queue (inner c) = q :: rest ->
  exists c', pop c = Ret (Some (event q), c') /\ popped c (event q) rest c'.
Proof.
  intros H Hq. unfold pop. rewrite Hq.
  pose proof (ok_slots _ H) as Hs. rewrite Hq in Hs. apply Forall_inv in Hs as Hsl.
  assert (Hrel : exists c1, match slot q with Some s => release s c | None => Ret c end = Ret c1 /\
    inner c1 = inner c /\ event_cap c1 = event_cap c /\
    forall s, outstanding c1 s = outstanding c s - replies_of s (event q)).
  { unfold replies_of. rewrite Hsl. destruct (is_reply (event q)) eqn:Er; [|exists c; split_and!; try done; intros s; cbn; lia].
    apply release_returns. pose proof (ok_outstanding _ H (event_session (event q))) as Ho.
    unfold queued in Ho. rewrite Hq in Ho. cbn in Ho. unfold replies_of at 1, belongs in Ho.
    rewrite Er, Z.eqb_refl in Ho. cbn in Ho. pose proof (tally_nonneg (replies_of (event_session (event q))) (map event rest) (replies_of_nonneg _)).
    lia. }
  destruct Hrel as (c1 & -> & Ei & Ec & Ho). cbn [rbind]. rewrite Ei.
  destruct (is_unsolicited (event q)) eqn:Hu.
  - set (s0 := event_session (event q)).
    assert (Hin : exists st, sessions (inner c) !! s0 = Some st /\ state_of c s0 = st).
    { pose proof (ok_unsolicited _ H s0) as Hn. unfold queued in Hn. rewrite Hq in Hn. cbn in Hn.
      unfold s0 in Hn at 2. rewrite (own_unsolicited _ Hu) in Hn.
      pose proof (tally_nonneg (unsolicited_of s0) (map event rest) (unsolicited_of_nonneg _)).
      unfold state_of in *. destruct (sessions (inner c) !! s0) as [st|]; [eauto|cbn in Hn; lia]. }
    destruct Hin as (st & Hin & Hst).
    edestruct (release_sessions {| queue := rest; front_seq := front_seq (inner c) + 1; next_seq := next_seq (inner c);
      sessions := sessions (inner c); closed := closed (inner c) |} s0 (front_seq (inner c)) st) as (m & -> & Hm & Hb); [done|].
    eexists. split; [done|]. split; try done.
    + intros s. unfold state_of at 1. cbn. rewrite Hm, Hu. unfold belongs. fold s0.
      destruct (Z.eqb_spec s0 s) as [<-|Hne]; [by rewrite decide_True, Hst by done|].
      by rewrite decide_False.
    + intros s st' [?|[_ E]]%Hb; [done|]. by apply (ok_busy _ H s).
  - eexists. split; [done|]. split; try done; [intros s; by rewrite Hu|apply (ok_busy _ H)].
Qed.

Lemma pop_ok c q rest c' :
  chan_ok c -> queue (inner c) = q :: rest -> popped c (event q) rest c' -> chan_ok c'.
Proof.
  intros H Hq P. set (e := event q) in *. set (es := map event rest).
  assert (Hes : queued c = e :: es) by (unfold queued; by rewrite Hq).
  assert (Hes' : queued c' = es) by (unfold queued; by rewrite (popped_queue _ _ _ _ P)).
  assert (Hun : forall s, unsolicited (state_of c s) = unsolicited_of s e + tally (unsolicited_of s) es)
    by (intros s; by rewrite (ok_unsolicited _ H), Hes).
  pose proof (popped_front _ _ _ _ P) as Hf. pose proof (popped_state _ _ _ _ P) as Hst.
  assert (Hseq : forall s, transaction_seq (state_of c' s) =
    if bool_decide (transaction_seq (state_of c s) = Some (front_seq (inner c))) then None else transaction_seq (state_of c s)).
  { intros s. rewrite Hst. destruct (is_unsolicited e && belongs s e) eqn:Eb; [done|]. case_bool_decide as Et; [|done].
    destruct (ok_seq _ H _ _ Et) as (k & b & Hk & E). assert (k = 0%nat) as -> by lia. rewrite Hes in E. injection E as E.
    rewrite E in Eb. cbn in Eb. unfold belongs in Eb. cbn in Eb. by rewrite Z.eqb_refl in Eb. }
  split; rewrite ?Hes', ?(popped_queue _ _ _ _ P), ?Hf, ?(popped_next _ _ _ _ P), ?(popped_cap _ _ _ _ P).
  - rewrite (ok_next _ H), Hq. cbn. lia.
  - intros s. specialize (Hun s). rewrite Hst. unfold unsolicited_of at 1 in Hun. pose proof (tally_nonneg (unsolicited_of s) es (unsolicited_of_nonneg _)).
    destruct (is_unsolicited e && belongs s e); cbn in *; [|lia]. unfold sat_sub. lia.
  - intros s n. rewrite Hseq. case_bool_decide as Et; [done|]. intros E.
    destruct (ok_seq _ H _ _ E) as (k & b & -> & Hk). rewrite Hes in Hk.
    destruct k as [|k]; [exfalso; apply Et; rewrite E; f_equal; lia|]. exists k, b. split; [lia|done].
  - intros s k b Hk. assert (Hk' : queued c !! S k = Some (TransactionStateChanged s b)) by by rewrite Hes.
    apply (ok_state _ H) in Hk'. rewrite Hseq, bool_decide_false by (rewrite Hk'; intros [= ?]; lia). rewrite Hk'. f_equal. lia.
  - apply (popped_busy _ _ _ _ P).
  - intros s. rewrite Hst. pose proof (ok_dropped _ H s). by destruct (_ && _).
  - pose proof (ok_weight _ H) as Hw. rewrite Hes in Hw. by apply Forall_cons in Hw as [_ ?].
  - pose proof (ok_slots _ H) as Hw. rewrite Hq in Hw. by apply Forall_cons in Hw as [_ ?].
  - intros s. rewrite (popped_outstanding _ _ _ _ P). pose proof (ok_outstanding _ H s) as Ho. rewrite Hes in Ho. cbn in Ho. lia.
  - apply H.
  - intros s. pose proof (ok_capped _ H s) as Ho. rewrite Hes in Ho. cbn in Ho.
    pose proof (ind_nonneg (is_plain_output e && belongs s e)). lia.
Qed.

(** ** What may happen to a queue

    A producer reports no drops of its own: the worker's output carries none. *)

Inductive Act := Accepted (s : SessionId) | Said (e : SessionEvent) | Took (e : SessionEvent) | Gone.

Inductive chan_step c : Act -> Chan -> Prop :=
| step_accept limit s c' : reserve limit s c = Ok c' -> chan_step c (Accepted s) c'
| step_say e : is_reply e = false -> event_dropped e = 0 -> chan_step c (Said e) (sink_push c e).1
| step_answer e c' w : is_reply e = true ->
    tally (replies_of (event_session e)) (queued c) < outstanding c (event_session e) ->
    reply_into c e = Ret (c', w) -> chan_step c (Said e) c'
| step_take e c' : pop c = Ret (Some e, c') -> chan_step c (Took e) c'
| step_gone c' : drop_queue c = Ret c' -> chan_step c Gone c'.

Inductive chan_steps c : list Act -> Chan -> Prop :=
| steps_nil : chan_steps c [] c
| steps_snoc l c1 a c2 : chan_steps c l c1 -> chan_step c1 a c2 -> chan_steps c (l ++ [a]) c2.

Lemma sink_push_eq c e : (sink_push c e).1 = (push c e None).1.
Proof. unfold sink_push. by destruct (push c e None). Qed.

Lemma reserve_eq limit s c c' :
  reserve limit s c = Ok c' ->
  inner c' = inner c /\ event_cap c' = event_cap c /\ outstanding c s < limit /\
  forall s', outstanding c' s' = outstanding c s' + ind (s =? s').
Proof.
  unfold reserve, reserve_slot. destruct (_ <=? _) eqn:E; [done|]. boolify. intros [= <-].
  split; [done|]. split; [done|]. split; [done|]. intros s'. unfold outstanding at 1. cbn. rewrite lookup_insert.
  destruct (Z.eqb_spec s s') as [->|Hne]; [rewrite decide_True by done; cbn; lia|].
  rewrite decide_False by done. unfold outstanding. cbn. lia.
Qed.

(** A change of the slots alone. *)
Lemma slots_ok c c' :
  chan_ok c -> inner c' = inner c -> event_cap c' = event_cap c ->
  (forall s, tally (replies_of s) (queued c) <= outstanding c' s) -> chan_ok c'.
Proof.
  intros H Ei Ec Ho. unfold queued in Ho. destruct H as [H1 H2 H3 H4 H5 H6 H7 H8 _ H10 H11].
  unfold queued, state_of in *. split; unfold queued, state_of; rewrite ?Ei, ?Ec; done.
Qed.

Lemma push_outstanding c e sl s : outstanding (push c e sl).1 s = outstanding c s.
Proof.
  unfold push. destruct (closed _); [done|]. unfold enqueue.
  destruct (is_unsolicited e); [destruct (admit_unsolicited _ _ _) as [i []]|];
    try destruct (stamp_unsolicited _ _); done.
Qed.

Lemma push_reply_kept c e : is_reply e = true ->
  kept (push c e (slot_for e)).2 = negb (closed (inner c)) /\
  (closed (inner c) = true -> (push c e (slot_for e)).1 = c).
Proof.
  intros Hr. unfold push. destruct (closed (inner c)); [done|].
  destruct (is_unsolicited e) eqn:Hu; [by rewrite (unsolicited_not_reply _ Hu) in Hr|].
  unfold enqueue, stamp_unsolicited. by rewrite Hu.
Qed.

(** A reply that may be pushed is, and its slot goes with it or comes back. *)
Lemma reply_returns c e :
  chan_ok c -> is_reply e = true ->
  tally (replies_of (event_session e)) (queued c) < outstanding c (event_session e) ->
  exists c' w, reply_into c e = Ret (c', w) /\ chan_ok c' /\
    (if closed (inner c) then inner c' = inner c /\ event_cap c' = event_cap c else c' = appended c e (slot_for e)) /\
    forall s, outstanding c' s =
      outstanding c s - if closed (inner c) then replies_of s e else 0.
Proof.
  intros H Hr Ho. unfold reply_into, push_reply. rewrite Hr. cbn [rbind].
  assert (Esl : Some (event_session e) = slot_for e) by (unfold slot_for; by rewrite Hr). rewrite Esl.
  destruct (push_reply_kept c e Hr) as [Hk Hc].
  assert (Hp : may_push c e) by (split; [by destruct e|done]).
  pose proof (push_ok c e H Hp) as Hok.
  destruct (push c e (slot_for e)) as [c1 p] eqn:Ep. cbn [fst snd] in *. rewrite Hk.
  destruct (closed (inner c)) eqn:Ec; cbn [negb].
  - rewrite (Hc eq_refl).
    pose proof (tally_nonneg (replies_of (event_session e)) (queued c) (replies_of_nonneg _)).
    destruct (release_returns (event_session e) c) as (c2 & -> & Ei & Ecap & Ho2); [lia|]. cbn [rbind].
    exists c2, (wake p). split; [done|].
    assert (Hs : forall s, outstanding c2 s = outstanding c s - replies_of s e)
      by (intros s; rewrite Ho2; unfold replies_of, belongs; by rewrite Hr).
    split; [|done]. apply (slots_ok c c2 H Ei Ecap). intros s. rewrite Hs.
    pose proof (ok_outstanding _ H s). destruct (decide (event_session e = s)) as [<-|Hne].
    + unfold replies_of at 2. rewrite Hr. unfold belongs. rewrite Z.eqb_refl. cbn. lia.
    + rewrite (other_reply s e Hne). lia.
  - cbn [rbind]. exists c1, (wake p). split; [done|]. split; [done|].
    assert (E1 : c1 = appended c e (slot_for e)).
    { unfold push in Ep. rewrite Ec in Ep.
      destruct (is_unsolicited e) eqn:Hu; [by rewrite (unsolicited_not_reply _ Hu) in Hr|].
      unfold enqueue, stamp_unsolicited in Ep. rewrite Hu in Ep. by injection Ep as <- _. }
    split; [done|]. intros s. rewrite E1. unfold outstanding. cbn. lia.
Qed.

(** Draining takes the front events, in order. *)
Lemma drain_returns max c :
  chan_ok c -> exists c', drain_into max c = Ret (take max (queued c), c') /\ chan_ok c' /\
    queue (inner c') = drop max (queue (inner c)) /\ closed (inner c') = closed (inner c) /\ event_cap c' = event_cap c /\
    forall s, outstanding c' s = outstanding c s - tally (replies_of s) (take max (queued c)).
Proof.
  revert c. induction max as [|max IH]; intros c H; cbn [drain_into].
  { exists c. rewrite take_0, drop_0. split_and!; try done. intros s. cbn [tally]. lia. }
  destruct (queue (inner c)) as [|q rest] eqn:Hq.
  { unfold pop, queued. rewrite Hq. cbn [rbind map]. rewrite take_nil. exists c. rewrite Hq, drop_nil. split_and!; try done.
    intros s. cbn [tally]. lia. }
  destruct (pop_front c q rest H Hq) as (c1 & -> & P). cbn [rbind].
  destruct (IH c1 (pop_ok c q rest c1 H Hq P)) as (c2 & E2 & H2 & Hq2 & Hc2 & Hcap2 & Ho2). rewrite E2. cbn [rbind].
  unfold queued in *. rewrite (popped_queue _ _ _ _ P) in *. rewrite Hq. cbn [map].
  rewrite skipn_cons, firstn_cons. cbn [tally]. exists c2. split_and!; try done; [by rewrite Hc2, (popped_closed _ _ _ _ P)|by rewrite Hcap2, (popped_cap _ _ _ _ P)|].
  intros s. rewrite Ho2, (popped_outstanding _ _ _ _ P). lia.
Qed.

Lemma drop_returns c :
  chan_ok c -> exists c', drop_queue c = Ret c' /\ chan_ok c' /\ closed (inner c') = true /\ queued c' = [] /\
    event_cap c' = event_cap c /\ forall s, outstanding c' s = outstanding c s - tally (replies_of s) (queued c).
Proof.
  intros H. unfold drop_queue. set (c0 := set_inner _ c).
  assert (H0 : chan_ok c0) by (destruct H; by split).
  destruct (drain_returns (S (length (queue (inner c)))) c0 H0) as (c1 & -> & H1 & Hq & Hc & Hcap & Ho). cbn [rbind].
  assert (Hall : take (S (length (queue (inner c)))) (queued c0) = queued c)
    by (apply take_ge; unfold queued; cbn; rewrite length_map; lia).
  assert (Hemp : queue (inner c1) = []) by (rewrite Hq; apply drop_ge; cbn; lia).
  eexists. split; [done|]. split; [|split; [done|]; split; [unfold queued; cbn; by rewrite Hemp|]; split; [done|]].
  - assert (Hst : forall s, state_of (set_inner (set_sessions ∅ (inner c1)) c1) s = idle_session)
      by (intros s; unfold state_of; cbn; by rewrite lookup_empty).
    unfold queued in *. split; unfold queued; intros; rewrite ?Hst in *; cbn in *; rewrite ?Hemp in *; try done.
    + pose proof (ok_next _ H1) as E. rewrite Hemp in E. done.
    + pose proof (ok_outstanding _ H1 s) as E. unfold queued in E. by rewrite Hemp in E.
    + apply (ok_cap _ H1).
    + pose proof (ok_cap _ H1). cbn. lia.
  - intros s. change (outstanding c1 s = outstanding c s - tally (replies_of s) (queued c)). by rewrite Ho, Hall.
Qed.

Lemma step_ok c a c' : chan_ok c -> chan_step c a c' -> chan_ok c'.
Proof.
  intros H Hstep. destruct Hstep as [limit s c' Hr|e Hr Hd|e c' w Hr Ho Hp|e c' Hp|c' Hp].
  - destruct (reserve_eq _ _ _ _ Hr) as (Ei & Ec & _ & Ho). apply (slots_ok c c' H Ei Ec).
    intros s'. rewrite Ho. pose proof (ok_outstanding _ H s'). pose proof (ind_nonneg (s =? s')). lia.
  - rewrite sink_push_eq. assert (E : None = slot_for e) by (unfold slot_for; by rewrite Hr). rewrite E.
    apply push_ok; [done|]. split; [lia|]. by rewrite Hr.
  - destruct (reply_returns c e H Hr Ho) as (c1 & w1 & E & H1 & _). rewrite E in Hp. by injection Hp as <- _.
  - destruct (queue (inner c)) as [|q rest] eqn:Hq; [unfold pop in Hp; by rewrite Hq in Hp|].
    destruct (pop_front c q rest H Hq) as (c1 & E & P). rewrite E in Hp. injection Hp as _ <-. by apply (pop_ok c q rest).
  - destruct (drop_returns c H) as (c1 & E & H1 & _). rewrite E in Hp. by injection Hp as <-.
Qed.

Lemma steps_ok c l c' : chan_ok c -> chan_steps c l c' -> chan_ok c'.
Proof. intros H. induction 1; [done|]. eauto using step_ok. Qed.
End props.
