(* ===== verification/EventClaims.v ===== *)
(** * What the event queue delivers

    Theorems on any run of producers and consumer over a queue: replies and
    progress reports come out in the order they went in, the last transaction
    state said is the last one delivered, every line of output is delivered or
    counted, and nothing panics. *)

From stdpp Require Import gmap.
From S2P Require Import Prelude RustStr Errors Segment ResultStore Events EventQueue EventQueueProps.
Open Scope Z_scope.
Open Scope run_scope.

(** ** Lists changed in one place *)

Lemma filter_insert_same {A} (p : A -> bool) (l : list A) n x y :
  l !! n = Some x -> p x = false -> p y = false ->
  List.filter p (<[n := y]> l) = List.filter p l.
Proof.
  revert n. induction l as [|z l IH]; intros [|n] E Hx Hy; [done..| |].
  - injection E as ->. cbn. by rewrite Hx, Hy.
  - change (<[S n := y]> (z :: l)) with (z :: <[n := y]> l). cbn. by rewrite (IH n E Hx Hy).
Qed.

Section claims.
Context {DO : DriverObjects}.
Implicit Types (e : SessionEvent) (c : Chan) (s : SessionId) (l : list Act).

(** ** The two ends of a run *)

Definition said_act (a : Act) : list SessionEvent := match a with Said e => [e] | _ => [] end.
Definition took_act (a : Act) : list SessionEvent := match a with Took e => [e] | _ => [] end.
Definition said l : list SessionEvent := flat_map said_act l.
Definition took l : list SessionEvent := flat_map took_act l.
(** What the consumer has, or will have once it drains. *)
Definition delivered l c : list SessionEvent := took l ++ queued c.

Definition ordered (es : list SessionEvent) : list SessionEvent :=
  List.filter (fun e => negb (is_unsolicited e)) es.

(** The last transaction state of [s] in a stream of events. *)
Definition state_after s (acc : option bool) e : option bool :=
  match e with TransactionStateChanged s' b => if s' =? s then Some b else acc | _ => acc end.
Definition last_state s (es : list SessionEvent) : option bool := fold_left (state_after s) es None.

Definition weight s e : Z := if belongs s e then output_weight e else 0.
Definition pending c s : Z := dropped_lines (state_of c s).

Lemma said_snoc l a : said (l ++ [a]) = said l ++ said_act a.
Proof. unfold said. rewrite flat_map_app. cbn. by rewrite app_nil_r. Qed.
Lemma took_snoc l a : took (l ++ [a]) = took l ++ took_act a.
Proof. unfold took. rewrite flat_map_app. cbn. by rewrite app_nil_r. Qed.

(** ** One step, as a change of what is queued *)

(** How a step changes the queue's events: [said] by a producer, [taken] from
    the front, or not at all. *)
Inductive queue_change c c' : Act -> Prop :=
| change_none a : said_act a = [] -> took_act a = [] -> queued c' = queued c ->
    (forall s, state_of c' s = state_of c s) -> queue_change c c' a
| change_take e : queued c = e :: queued c' ->
    (forall s, pending c' s = pending c s) -> queue_change c c' (Took e)
| change_say e p : closed (inner c) = false -> push_case c e (slot_for e) (c', p) -> queue_change c c' (Said e).

Lemma closed_stays c a c' : chan_ok c -> chan_step c a c' -> closed (inner c') = false -> closed (inner c) = false.
Proof.
  intros H Hstep Hc. destruct (closed (inner c)) eqn:E; [|done]. exfalso.
  destruct Hstep as [limit s c' Hr|e Hr Hd|e c' w Hr Ho Hp|e c' Hp|c' Hp].
  - destruct (reserve_eq _ _ _ _ Hr) as (Ei & _). congruence.
  - rewrite sink_push_eq in Hc. unfold push in Hc. rewrite E in Hc. cbn in Hc. congruence.
  - destruct (reply_returns c e H Hr Ho) as (c1 & w1 & E1 & _ & Hi & _). rewrite E1 in Hp. injection Hp as <- _.
    rewrite E in Hi. destruct Hi as [Hi _]. congruence.
  - destruct (queue (inner c)) as [|q rest] eqn:Hq; [unfold pop in Hp; by rewrite Hq in Hp|].
    destruct (pop_front c q rest H Hq) as (c1 & E1 & P). rewrite E1 in Hp. injection Hp as _ <-.
    pose proof (popped_closed _ _ _ _ P). congruence.
  - destruct (drop_returns c H) as (c1 & E1 & _ & Hc1 & _). rewrite E1 in Hp. injection Hp as <-. congruence.
Qed.

Lemma step_change c a c' :
  chan_ok c -> chan_step c a c' -> closed (inner c') = false -> queue_change c c' a.
Proof.
  intros H Hstep Hc. pose proof (closed_stays c a c' H Hstep Hc) as Hopen.
  destruct Hstep as [limit s c' Hr|e Hr Hd|e c' w Hr Ho Hp|e c' Hp|c' Hp].
  - destruct (reserve_eq _ _ _ _ Hr) as (Ei & _). apply change_none; try done; unfold queued, state_of; by rewrite Ei.
  - rewrite sink_push_eq in *. apply (change_say _ _ e (push c e None).2); [done|].
    assert (E : slot_for e = None) by (unfold slot_for; by rewrite Hr). rewrite E.
    rewrite <- surjective_pairing. by apply push_cases.
  - destruct (reply_returns c e H Hr Ho) as (c1 & w1 & E1 & _ & Hi & _). rewrite E1 in Hp. injection Hp as <- _.
    rewrite Hopen in Hi. subst c1. apply (change_say _ _ e (taken_in c)); [done|]. apply push_solicited; [done|].
    by destruct e.
  - destruct (queue (inner c)) as [|q rest] eqn:Hq; [unfold pop in Hp; by rewrite Hq in Hp|].
    destruct (pop_front c q rest H Hq) as (c1 & E1 & P). rewrite E1 in Hp. injection Hp as <- <-. apply change_take.
    + unfold queued. by rewrite Hq, (popped_queue _ _ _ _ P).
    + intros s. unfold pending. rewrite (popped_state _ _ _ _ P). by destruct (_ && _).
  - destruct (drop_returns c H) as (c1 & E1 & _ & Hc1 & _). rewrite E1 in Hp. injection Hp as <-. congruence.
Qed.

(** What a push does to the events queued: one more at the end, in the form the
    queue keeps, one changed in place, or none. *)
Lemma queued_enqueued c e st : queued (enqueued c e st) = queued c ++ [e].
Proof. unfold queued. cbn. by rewrite map_app. Qed.
Lemma queued_appended c e sl : queued (appended c e sl) = queued c ++ [e].
Proof. unfold queued. cbn. by rewrite map_app. Qed.
Lemma queued_replaced c k e sl : queued (replaced c k (mkQueued e sl)) = <[k := e]> (queued c).
Proof. apply (list_fmap_insert event). Qed.

Lemma lookup_queued c k q : queue (inner c) !! k = Some q -> queued c !! k = Some (event q).
Proof.
  intros E. unfold queued. change (map event (queue (inner c))) with (event <$> queue (inner c)).
  by rewrite list_lookup_fmap, E.
Qed.

(** ** Order *)

Lemma ordered_app es fs : ordered (es ++ fs) = ordered es ++ ordered fs.
Proof. apply List.filter_app. Qed.

Lemma push_ordered c e c' p :
  closed (inner c) = false -> push_case c e (slot_for e) (c', p) -> ordered (queued c') = ordered (queued c ++ [e]).
Proof.
  intros Hc Hp. inversion Hp as [? ? Hc'|? ? _ Hu|? ? _ Ht|? ? k b0 ? _ Hk|? ? ? ? ? _ Hl|? ? ? ? ? _ Hl|? ? ? ? _ Hl]; subst;
    rewrite ?queued_appended, ?queued_enqueued, ?queued_replaced, ?ordered_app; try done; try congruence.
  - cbn. rewrite app_nil_r. unfold ordered. by rewrite (filter_insert_same _ _ _ _ _ (lookup_queued _ _ _ Hk)).
  - cbn. by rewrite app_nil_r.
Qed.

Lemma run_ordered c0 l c :
  chan_ok c0 -> queued c0 = [] -> chan_steps c0 l c -> closed (inner c) = false ->
  ordered (delivered l c) = ordered (said l).
Proof.
  intros H0 Hq. induction 1 as [|l c1 a c2 Hs IH Hstep]; intros Hc; [unfold delivered; by rewrite Hq|].
  pose proof (steps_ok _ _ _ H0 Hs) as H1. specialize (IH (closed_stays _ _ _ H1 Hstep Hc)).
  unfold delivered in *. rewrite said_snoc, took_snoc.
  destruct (step_change _ _ _ H1 Hstep Hc) as [a Ea Et Eq _|e Eq _|e p Ho Hp].
  - by rewrite Ea, Et, Eq, !app_nil_r.
  - cbn. rewrite app_nil_r, <- IH, Eq, <- app_assoc. done.
  - cbn [took_act said_act]. rewrite app_nil_r, !ordered_app in *. rewrite (push_ordered _ _ _ _ Ho Hp), ordered_app, app_assoc.
    by rewrite IH.
Qed.

(** ** The transaction state *)

Lemma no_state_fold s es acc :
  (forall k b, es !! k <> Some (TransactionStateChanged s b)) -> fold_left (state_after s) es acc = acc.
Proof.
  revert acc. induction es as [|e es IH]; intros acc Hno; [done|]. cbn. rewrite IH by (intros k b; apply (Hno (S k) b)).
  destruct e as [| | | | | | | | | | |s' b|]; try done. cbn. destruct (Z.eqb_spec s' s) as [->|]; [|done].
  by specialize (Hno 0%nat b).
Qed.

Lemma fold_replaced s s0 es k b0 b acc :
  es !! k = Some (TransactionStateChanged s0 b0) ->
  (forall k' b', es !! k' = Some (TransactionStateChanged s0 b') -> k' = k) ->
  fold_left (state_after s) (<[k := TransactionStateChanged s0 b]> es) acc =
  state_after s (fold_left (state_after s) es acc) (TransactionStateChanged s0 b).
Proof.
  revert k acc. induction es as [|e es IH]; intros [|k] acc Hk Huniq; [done..| |].
  - injection Hk as ->. change (<[0%nat := ?x]> (?y :: es)) with (x :: es). cbn.
    destruct (Z.eqb_spec s0 s) as [->|Hne]; [|done]. apply no_state_fold. intros k b' E.
    by specialize (Huniq (S k) b' E).
  - change (<[S k := ?x]> (e :: es)) with (e :: <[k := x]> es). cbn [fold_left]. apply IH; [done|].
    intros k' b' E. specialize (Huniq (S k') b' E). congruence.
Qed.

Lemma push_last_state s c e c' p acc :
  chan_ok c -> closed (inner c) = false -> push_case c e (slot_for e) (c', p) ->
  fold_left (state_after s) (queued c') acc = state_after s (fold_left (state_after s) (queued c) acc) e.
Proof.
  intros H Hc Hp. inversion Hp as [? ? Hc'|? ? _ Hu|? ? _ Ht|? ? k b0 ? _ Hk|? ? ? ? ? _ Hl|? ? ? ? ? _ Hl|? ? ? ? _ Hl]; subst;
    rewrite ?queued_appended, ?queued_enqueued, ?queued_replaced, ?fold_left_app; try done; try congruence.
  apply lookup_queued in Hk. cbn in Hk. apply (fold_replaced _ _ _ _ b0); [done|].
  intros k' b' E. apply (ok_state _ H) in E, Hk. rewrite E in Hk. injection Hk as Hk. lia.
Qed.

Lemma run_last_state s c0 l c :
  chan_ok c0 -> queued c0 = [] -> chan_steps c0 l c -> closed (inner c) = false ->
  last_state s (delivered l c) = last_state s (said l).
Proof.
  intros H0 Hq. induction 1 as [|l c1 a c2 Hs IH Hstep]; intros Hc; [unfold delivered; by rewrite Hq|].
  pose proof (steps_ok _ _ _ H0 Hs) as H1. specialize (IH (closed_stays _ _ _ H1 Hstep Hc)).
  unfold delivered, last_state in *. rewrite said_snoc, took_snoc, !fold_left_app in *.
  destruct (step_change _ _ _ H1 Hstep Hc) as [a Ea Et Eq _|e Eq _|e p Ho Hp]; cbn [took_act said_act fold_left].
  - by rewrite Ea, Et, Eq.
  - by rewrite <- IH, Eq.
  - rewrite (push_last_state s _ _ _ _ _ H1 Ho Hp). by rewrite IH.
Qed.

(** ** Output lines *)

Lemma step_said_nonneg s c e c' : chan_step c (Said e) c' -> event_dropped e = 0 /\ 0 <= weight s e.
Proof.
  unfold weight. inversion 1 as [|? Hr Hd|? ? ? Hr| |]; subst.
  - split; [done|]. destruct (belongs s e); [|done]. destruct e; cbn in *; lia.
  - destruct e; try done; cbn; destruct (belongs _ _); lia.
Qed.

Lemma pending_enqueued c e st s :
  pending (enqueued c e st) s = if event_session e =? s then dropped_lines st else pending c s.
Proof.
  unfold pending, enqueued. erewrite state_of_insert by done. destruct (Z.eqb_spec (event_session e) s) as [->|Hne].
  - by rewrite decide_True.
  - by rewrite decide_False.
Qed.

Lemma pending_refused c s0 st s :
  pending (refused c s0 st) s = if s0 =? s then dropped_lines st else pending c s.
Proof.
  unfold pending, state_of. cbn. rewrite lookup_insert. destruct (Z.eqb_spec s0 s) as [->|Hne].
  - by rewrite decide_True.
  - by rewrite decide_False.
Qed.

Lemma weight_quiet s e : output_weight e = 0 -> weight s e = 0.
Proof. unfold weight. by destruct (belongs s e). Qed.

Lemma weight_output s s1 lines d f v :
  weight s (ServerOutput s1 lines d f v) = if s1 =? s then Z.of_nat (length lines) + d else 0.
Proof. done. Qed.

(** A push moves the lines it is given to the queue or to the drop count. *)
Lemma push_weight s c e c' p :
  chan_ok c -> closed (inner c) = false -> event_dropped e = 0 -> pending c s + weight s e <= u32_max ->
  push_case c e (slot_for e) (c', p) ->
  tally (weight s) (queued c') + pending c' s = tally (weight s) (queued c) + pending c s + weight s e.
Proof.
  intros H Hc Hd Hb Hp. pose proof (ok_dropped _ H s) as Hpend. unfold weight, belongs in Hb.
  inversion Hp as [? ? Hc'|? ? _ Hu|? ? _ Ht|s1 b k b0 sl _ Hk|s1 lines d f v _ Hl|s1 lines d f v _ Hl|s1 lines d v _ Hl]; subst;
    rewrite ?queued_appended, ?queued_enqueued, ?queued_replaced, ?tally_app, ?pending_enqueued, ?pending_refused;
    cbn [tally event_session] in *; try congruence.
  - change (pending (appended c e (slot_for e)) s) with (pending c s). lia.
  - cbn. destruct (Z.eqb_spec s0 s) as [->|]; unfold weight, pending; cbn; destruct (belongs _ _); lia.
  - rewrite (tally_insert _ _ _ _ _ (lookup_queued _ _ _ Hk)). cbn [event]. rewrite !weight_quiet by done.
    change (pending (replaced _ _ _) s) with (pending c s). lia.
  - rewrite !weight_output. cbn [event_session output_weight event_dropped dropped_lines entry] in *.
    destruct (Z.eqb_spec s1 s) as [->|]; [|lia]. unfold pending in *. unfold sat_add32. lia.
  - rewrite !weight_output. cbn [event_session output_weight event_dropped dropped_lines entry length] in *.
    destruct (Z.eqb_spec s1 s) as [->|]; [|lia]. unfold pending, sat_add32, line_count in *. lia.
  - change (queued (refused _ _ _)) with (queued c). rewrite !weight_output. cbn [event_session output_weight event_dropped dropped_lines entry] in *.
    destruct (Z.eqb_spec s1 s) as [->|]; [|lia]. unfold pending, sat_add32, line_count in *. lia.
Qed.

Lemma run_weight s c0 l c :
  chan_ok c0 -> queued c0 = [] -> pending c0 s = 0 -> chan_steps c0 l c -> closed (inner c) = false ->
  tally (weight s) (said l) <= u32_max ->
  0 <= tally (weight s) (said l) /\ 0 <= tally (weight s) (took l) /\
  tally (weight s) (said l) = tally (weight s) (delivered l c) + pending c s.
Proof.
  intros H0 Hq Hp0. induction 1 as [|l c1 a c2 Hs IH Hstep]; intros Hc Hb.
  { unfold delivered. rewrite Hq, Hp0. cbn. lia. }
  pose proof (steps_ok _ _ _ H0 Hs) as H1. pose proof (closed_stays _ _ _ H1 Hstep Hc) as Hc1. specialize (IH Hc1).
  assert (Hw : forall d, chan_ok d -> 0 <= tally (weight s) (queued d)).
  { intros d Hd. pose proof (ok_weight _ Hd) as Hf. induction Hf as [|e es He _ IHf]; [done|]. cbn [tally].
    assert (0 <= weight s e); [|lia]. unfold weight. destruct (belongs s e); [|done]. destruct e; cbn in *; lia. }
  pose proof (ok_dropped _ H1 s) as Hd1. pose proof (Hw c1 H1) as Hw1. unfold delivered in *. rewrite !said_snoc, took_snoc, !tally_app in *.
  destruct (step_change _ _ _ H1 Hstep Hc) as [a Ea Et Eq Hst|e Eq Hst|e p Ho Hp]; cbn [took_act said_act tally] in *.
  - rewrite Ea, Et, Eq in *. unfold pending in *. rewrite Hst. cbn [tally] in *. lia.
  - rewrite Hst. rewrite Eq in *. cbn [tally] in *. assert (0 <= weight s e); [|lia].
    pose proof (ok_weight _ H1) as Hf. rewrite Eq in Hf. apply Forall_inv in Hf.
    unfold weight. destruct (belongs s e); [|done]. destruct e; cbn in *; lia.
  - destruct (step_said_nonneg s _ _ _ Hstep) as [Hed Hew].
    destruct IH as (IH1 & IH2 & IH3); [lia|]. unfold pending in IH3.
    pose proof (fun Hb => push_weight s c1 e c2 p H1 Ho Hed Hb Hp) as Hpw. unfold pending in *.
    specialize (Hpw ltac:(lia)). lia.
Qed.

(** ** The properties *)

(** What a session says is delivered in order.  However producers and the
    consumer interleave, the replies, progress reports and terminal reports the
    consumer has taken, followed by those still queued, are those the sessions
    said, each once and in the order they were said; nothing the queue does to
    unsolicited events disturbs them. *)
Theorem events_in_order cap l c :
  0 < cap -> chan_steps (event_channel cap) l c -> closed (inner c) = false ->
  ordered (took l) ++ ordered (queued c) = ordered (said l).
Proof.
  intros Hcap Hs Hc. rewrite <- ordered_app.
  exact (run_ordered _ _ _ (event_channel_ok cap Hcap) eq_refl Hs Hc).
Qed.

(** A transaction state is coalesced and never lost.  At any point of any
    run, the last transaction state of a session among what the consumer took
    and what is still queued is the last one the session said, at the cap or
    not; and at most one is waiting per session. *)
Theorem transaction_state_never_lost cap l c s :
  0 < cap -> chan_steps (event_channel cap) l c -> closed (inner c) = false ->
  last_state s (took l ++ queued c) = last_state s (said l) /\
  forall j k b b', queued c !! j = Some (TransactionStateChanged s b) ->
    queued c !! k = Some (TransactionStateChanged s b') -> j = k.
Proof.
  intros Hcap Hs Hc. pose proof (event_channel_ok cap Hcap) as H0. split.
  - exact (run_last_state s _ _ _ H0 eq_refl Hs Hc).
  - intros j k b b' Hj Hk. pose proof (steps_ok _ _ _ H0 Hs) as H. apply (ok_state _ H) in Hj, Hk.
    rewrite Hj in Hk. injection Hk as Hk. lia.
Qed.

(** No line of server output disappears uncounted.  While a session has said
    fewer than 2{^32} lines, the lines it said are the lines the consumer took
    or will find queued, plus the drops those events report, plus the drops
    still pending for the session. *)
Theorem output_lines_accounted cap l c s :
  0 < cap -> chan_steps (event_channel cap) l c -> closed (inner c) = false ->
  tally (weight s) (said l) <= u32_max ->
  tally (weight s) (said l) =
  tally (weight s) (took l) + tally (weight s) (queued c) + pending_dropped_lines c s.
Proof.
  intros Hcap Hs Hc Hb.
  destruct (run_weight s _ _ _ (event_channel_ok cap Hcap) eq_refl eq_refl Hs Hc Hb) as (_ & _ & E).
  unfold delivered in E. rewrite tally_app in E. rewrite E. f_equal.
  unfold pending, state_of, pending_dropped_lines. by destruct (sessions (inner c) !! s).
Qed.

(** The queue never panics and gives back every slot.  In any reachable
    queue a pop, a budgeted drain and the consumer's departure return; a reply
    for a request that holds a slot is queued, or its slot is given back; and
    when the consumer goes, exactly the slots of the queued replies are
    released. *)
Theorem queue_never_panics cap l c :
  0 < cap -> chan_steps (event_channel cap) l c ->
  (exists o c', pop c = Ret (o, c')) /\
  (forall max, exists es c', drain_into max c = Ret (es, c') /\ es = take max (queued c)) /\
  (forall e, is_reply e = true -> tally (replies_of (event_session e)) (queued c) < outstanding c (event_session e) ->
     exists c' w, reply_into c e = Ret (c', w)) /\
  (exists c', drop_queue c = Ret c' /\ closed (inner c') = true /\ queued c' = [] /\
     forall s, outstanding c' s = outstanding c s - tally (replies_of s) (queued c)).
Proof.
  intros Hcap Hs. pose proof (steps_ok _ _ _ (event_channel_ok cap Hcap) Hs) as H. split; [|split; [|split]].
  - destruct (queue (inner c)) as [|q rest] eqn:Hq; [unfold pop; rewrite Hq; eauto|].
    destruct (pop_front c q rest H Hq) as (c' & E & _). eauto.
  - intros max. destruct (drain_returns max c H) as (c' & E & _). eauto.
  - intros e Hr Ho. destruct (reply_returns c e H Hr Ho) as (c' & w & E & _). eauto.
  - destruct (drop_returns c H) as (c' & E & _ & Hc & Hq & _ & Ho). eauto 6.
Qed.
End claims.

(** ** A run *)

#[local] Instance no_objects : DriverObjects := {| Locator := unit; CursorObject := unit |}.

Definition sample_state (b : bool) : SessionEvent := TransactionStateChanged 7 b.
Definition sample_output : SessionEvent := ServerOutput 7 [lit "one"; lit "two"] 0 None 0.
Definition sample_reply : SessionEvent := Completed 7 3 Commit (Ok tt).

(** A session whose cap is one unsolicited event accepts a request, says its
    transaction opened and closed, prints two lines too many, and answers; the
    consumer takes one event. *)
Definition run_acts : list Act :=
  [Accepted 7; Said (sample_state true); Said (sample_state false); Said sample_output; Said sample_reply;
   Took (sample_state false)].
Definition run0 : Chan := event_channel 1.
Definition run1 : Chan := match reserve 4 7 run0 with Ok c => c | Err _ => run0 end.
Definition run2 : Chan := (sink_push run1 (sample_state true)).1.
Definition run3 : Chan := (sink_push run2 (sample_state false)).1.
Definition run4 : Chan := (sink_push run3 sample_output).1.
Definition run5 : Chan := match reply_into run4 sample_reply with Ret (c, _) => c | _ => run4 end.
Definition run6 : Chan := match pop run5 with Ret (_, c) => c | _ => run5 end.

Lemma sample_run : chan_steps run0 run_acts run6.
Proof.
  change run_acts with ((((((nil ++ [Accepted 7]) ++ [Said (sample_state true)]) ++ [Said (sample_state false)]) ++
    [Said sample_output]) ++ [Said sample_reply]) ++ [Took (sample_state false)]).
  apply steps_snoc with run5; [|by apply step_take; vm_compute].
  apply steps_snoc with run4; [|eapply step_answer with (w := false); by vm_compute].
  apply steps_snoc with run3; [|by apply step_say].
  apply steps_snoc with run2; [|by apply step_say].
  apply steps_snoc with run1; [|by apply step_say].
  apply steps_snoc with run0; [constructor|]. by apply step_accept with 4; vm_compute.
Qed.

Lemma events_in_order_witness : ordered (took run_acts) ++ ordered (queued run6) = [sample_reply].
Proof. apply (events_in_order 1 run_acts run6); [lia|apply sample_run|by vm_compute]. Defined.

Lemma transaction_state_never_lost_witness : last_state 7 (took run_acts ++ queued run6) = Some false.
Proof. apply (transaction_state_never_lost 1 run_acts run6 7); [lia|apply sample_run|by vm_compute]. Defined.

Lemma output_lines_accounted_witness :
  2 = tally (weight 7) (took run_acts) + tally (weight 7) (queued run6) + pending_dropped_lines run6 7.
Proof. apply (output_lines_accounted 1 run_acts run6 7); [lia|apply sample_run|by vm_compute|by vm_compute]. Defined.

Lemma queue_never_panics_witness : exists c', drop_queue run6 = Ret c' /\ queued c' = [].
Proof.
  destruct (queue_never_panics 1 run_acts run6 ltac:(lia) sample_run) as (_ & _ & _ & c' & E & _ & Hq & _). by exists c'.
Defined.
