(* ===== verification/EventBound.v ===== *)
(** * How much one session can have waiting

    A consumer that stops draining must not let the queue grow.  The bound the
    source publishes is 3R + U + 3 events per session, for R outstanding
    requests and a cap of U unsolicited events.  It holds for a producer that
    works through its requests one at a time, reports at most one start and one
    failed output read for each, and ends once: [Prod] is that producer and
    [prod_step] lets it run beside any other session and any consumer. *)

From stdpp Require Import gmap.
From S2P Require Import Prelude RustStr Errors Segment ResultStore Events EventQueue EventQueueProps EventClaims.
Open Scope Z_scope.
Open Scope run_scope.

Record Prod := mkProd {
  ordinary : Z;                    (* accepted, not yet answered, no close *)
  closes : Z;                      (* closes accepted, not yet answered *)
  running : option (bool * bool);  (* being run: said it started, said output failed *)
  ended_said : bool;
}.
Definition quiet : Prod := {| ordinary := 0; closes := 0; running := None; ended_said := false |}.

Section bound.
Context {DO : DriverObjects}.
Implicit Types (e : SessionEvent) (c : Chan) (p : Prod).

(** What the producer may say, and what answering a request does to it. *)
Definition speak p e : option Prod :=
  match e with
  | Executing _ _ _ =>
      match running p with
      | Some (false, f) => Some (mkProd (ordinary p) (closes p) (Some (true, f)) (ended_said p))
      | _ => None
      end
  | ServerOutput _ _ _ (Some _) _ =>
      match running p with
      | Some (x, false) => Some (mkProd (ordinary p) (closes p) (Some (x, true)) (ended_said p))
      | _ => None
      end
  | ServerOutput _ _ _ None _ | TransactionStateChanged _ _ => Some p
  | Terminal _ _ _ _ =>
      if ended_said p then None else Some (mkProd (ordinary p) (closes p) (running p) true)
  | _ => None
  end.

Definition answer p e : option Prod :=
  match e, running p with
  | SessionClosed _ _ _, None =>
      if 0 <? closes p then Some (mkProd (ordinary p) (closes p - 1) None (ended_said p)) else None
  | SessionClosed _ _ _, Some _ => None
  | _, Some _ => if is_reply e then Some (mkProd (ordinary p - 1) (closes p) None (ended_said p)) else None
  | _, None => None
  end.

(** The session [s] with its limit [R], among others. *)
Inductive prod_step (s : SessionId) (R : Z) : Chan * Prod -> Chan * Prod -> Prop :=
| prod_accept c c' p : reserve R s c = Ok c' ->
    prod_step s R (c, p) (c', mkProd (ordinary p + 1) (closes p) (running p) (ended_said p))
| prod_accept_close c c' p : reserve (R + 1) s c = Ok c' ->
    prod_step s R (c, p) (c', mkProd (ordinary p) (closes p + 1) (running p) (ended_said p))
| prod_begin c p : running p = None -> 0 < ordinary p ->
    prod_step s R (c, p) (c, mkProd (ordinary p) (closes p) (Some (false, false)) (ended_said p))
| prod_say c e p p' : event_session e = s -> event_dropped e = 0 -> speak p e = Some p' ->
    prod_step s R (c, p) ((sink_push c e).1, p')
| prod_answer c e p p' c' w : event_session e = s -> answer p e = Some p' -> reply_into c e = Ret (c', w) ->
    prod_step s R (c, p) (c', p')
| prod_other c a c' p : (forall e, a = Said e -> event_session e <> s) -> a <> Accepted s ->
    chan_step c a c' -> prod_step s R (c, p) (c', p).

(** ** Classes of events *)

Definition is_close_reply e : bool := match e with SessionClosed _ _ _ => true | _ => false end.
Definition class (f : SessionEvent -> bool) (s : SessionId) e : Z := ind (f e && belongs s e).
Definition ordinary_reply e : bool := is_reply e && negb (is_close_reply e).

Lemma class_nonneg f s e : 0 <= class f s e.
Proof. apply ind_nonneg. Qed.

Lemma class_other f s e : event_session e <> s -> class f s e = 0.
Proof. intros Hne. unfold class. by rewrite (belongs_false _ _ Hne), andb_false_r. Qed.

(** Every event is in one class. *)
Lemma class_total s e :
  class (fun _ => true) s e =
  class ordinary_reply s e + class is_close_reply s e + class is_executing s e + class is_failed_output s e +
  class is_plain_output s e + class is_state s e + class is_terminal s e.
Proof. unfold class. destruct (belongs s e); destruct e as [| | | | | | | | | |? ? ? []| |]; done. Qed.

Lemma tally_class_total s es :
  tally (class (fun _ => true) s) es =
  tally (class ordinary_reply s) es + tally (class is_close_reply s) es + tally (class is_executing s) es +
  tally (class is_failed_output s) es + tally (class is_plain_output s) es + tally (class is_state s) es +
  tally (class is_terminal s) es.
Proof. induction es as [|e es IH]; [done|]. cbn [tally]. rewrite IH, class_total. lia. Qed.

Lemma replies_split s es :
  tally (replies_of s) es = tally (class ordinary_reply s) es + tally (class is_close_reply s) es.
Proof.
  induction es as [|e es IH]; [done|]. cbn [tally]. rewrite IH. unfold replies_of, class.
  destruct (belongs s e); destruct e; cbn; lia.
Qed.

(** At most one transaction state waits. *)
Lemma state_at_most_once c s : chan_ok c -> tally (class is_state s) (queued c) <= 1.
Proof.
  intros H. assert (Hu : forall j k b b', queued c !! j = Some (TransactionStateChanged s b) ->
    queued c !! k = Some (TransactionStateChanged s b') -> j = k).
  { intros j k b b' Hj Hk. apply (ok_state _ H) in Hj, Hk. rewrite Hj in Hk. injection Hk as Hk. lia. }
  revert Hu. generalize (queued c). intros es. induction es as [|e es IH]; intros Hu; [cbn; lia|]. cbn [tally].
  assert (IH' : tally (class is_state s) es <= 1).
  { apply IH. intros j k b b' Hj Hk. specialize (Hu (S j) (S k) b b' Hj Hk). congruence. }
  unfold class at 1. destruct (is_state e && belongs s e) eqn:E; [|cbn; lia]. boolify.
  destruct e as [| | | | | | | | | | |s' b|]; try done. apply belongs_true in H1. cbn in H1. subst s'.
  enough (tally (class is_state s) es <= 0) by (cbn; lia).
  destruct (Z.le_gt_cases (tally (class is_state s) es) 0) as [|Hp]; [done|].
  apply tally_pos in Hp as (k & e & Hk & He); [|apply class_nonneg]. unfold class in He.
  destruct (is_state e && belongs s e) eqn:E; [|done]. boolify.
  destruct e as [| | | | | | | | | | |s' b'|]; try done. apply belongs_true in H2. cbn in H2. subst s'.
  by specialize (Hu 0%nat (S k) b b' eq_refl Hk).
Qed.

(** ** Each start and failure is followed by its reply *)

(** In every tail of [es], at most [n] more of [f] than of [g]. *)
Definition covered (f g : SessionEvent -> Z) (n : Z) (es : list SessionEvent) : Prop :=
  forall m, tally f (drop m es) <= tally g (drop m es) + n.

Lemma covered_snoc f g n n' es x :
  0 <= n -> 0 <= n' -> f x + n <= g x + n' -> covered f g n es -> covered f g n' (es ++ [x]).
Proof.
  intros Hn Hn' Hx H m. rewrite drop_app, !tally_app. specialize (H m).
  destruct (m - length es)%nat as [|k] eqn:Em; [change (drop 0 [x]) with [x]; cbn [tally]; lia|].
  change (drop (S k) [x]) with (drop k (@nil SessionEvent)). rewrite drop_nil.
  rewrite drop_ge in * by lia. cbn [tally] in *. lia.
Qed.

Lemma covered_tail f g n x es : covered f g n (x :: es) -> covered f g n es.
Proof. intros H m. apply (H (S m)). Qed.

Lemma covered_insert f g n es k x y :
  es !! k = Some x -> f y = f x -> g y = g x -> covered f g n es -> covered f g n (<[k := y]> es).
Proof.
  intros Hk Hf Hg H m. specialize (H m). destruct (decide (m <= k)%nat) as [Hle|Hlt].
  - rewrite drop_insert_ge by done. assert (E : drop m es !! (k - m)%nat = Some x)
      by (rewrite lookup_drop; by replace (m + (k - m))%nat with k by lia).
    rewrite !(tally_insert _ _ _ _ _ E). lia.
  - by rewrite drop_insert_lt by lia.
Qed.

(** [f] does not look at what the queue changes. *)
Definition shape (f : SessionEvent -> bool) : Prop :=
  (forall s l d l' d' x v, f (ServerOutput s l d x v) = f (ServerOutput s l' d' x v)) /\
  (forall s b b', f (TransactionStateChanged s b) = f (TransactionStateChanged s b')).

Definition solicited_only (g : SessionEvent -> bool) : Prop := forall e, is_unsolicited e = true -> g e = false.

Lemma solicited_zero g s e : solicited_only g -> is_unsolicited e = true -> class g s e = 0.
Proof. intros Hg Hu. unfold class. by rewrite (Hg e Hu). Qed.

Lemma shape_output f s s1 l d l' d' x v :
  shape f -> class f s (ServerOutput s1 l d x v) = class f s (ServerOutput s1 l' d' x v).
Proof. intros [Hf _]. unfold class, belongs. by rewrite (Hf s1 l d l' d' x v). Qed.

Lemma shape_state f s s1 b b' :
  shape f -> class f s (TransactionStateChanged s1 b) = class f s (TransactionStateChanged s1 b').
Proof. intros [_ Hf]. unfold class, belongs. by rewrite (Hf s1 b b'). Qed.

Lemma push_covered s f g n n' c e c' pu :
  shape f -> shape g -> solicited_only g -> 0 <= n -> 0 <= n' ->
  class f s e + n <= class g s e + n' -> closed (inner c) = false -> push_case c e (slot_for e) (c', pu) ->
  covered (class f s) (class g s) n (queued c) -> covered (class f s) (class g s) n' (queued c').
Proof.
  intros Hf Hg Hso Hn Hn' He Hc Hp H. pose proof (class_nonneg f s e) as Hfe.
  assert (Hmono : is_unsolicited e = true -> covered (class f s) (class g s) n' (queued c)).
  { intros Hu m. specialize (H m). rewrite (solicited_zero g s e Hso Hu) in He. lia. }
  inversion Hp as [? ? Hc'|? ? _ Hu|? ? _ Ht|s1 b k b0 sl _ Hk|s1 lines d x v _ Hl|s1 lines d x v _ Hl|s1 lines d v _ Hl]; subst;
    rewrite ?queued_appended, ?queued_enqueued, ?queued_replaced; try congruence.
  - by apply covered_snoc with n.
  - by apply covered_snoc with n.
  - apply covered_insert with (TransactionStateChanged s1 b0); [by apply lookup_queued in Hk|by apply shape_state..|].
    by apply Hmono.
  - apply covered_snoc with n; try done.
    by rewrite (shape_output f _ _ _ _ lines d), (shape_output g _ _ _ _ lines d).
  - apply covered_snoc with n; try done.
    by rewrite (shape_output f _ _ _ _ lines d), (shape_output g _ _ _ _ lines d).
  - by apply Hmono.
Qed.

Lemma push_solicited_class s g c e c' pu :
  solicited_only g -> closed (inner c) = false -> push_case c e (slot_for e) (c', pu) ->
  tally (class g s) (queued c') = tally (class g s) (queued c) + class g s e.
Proof.
  intros Hso Hc Hp.
  inversion Hp as [? ? Hc'|? ? _ Hu|? ? _ Ht|s1 b k b0 sl _ Hk|s1 lines d x v _ Hl|s1 lines d x v _ Hl|s1 lines d v _ Hl]; subst;
    rewrite ?queued_appended, ?queued_enqueued, ?queued_replaced, ?tally_app; cbn [tally]; try congruence; try lia;
    rewrite ?(solicited_zero g _ _ Hso) by done; try lia.
  - rewrite (tally_insert _ _ _ _ _ (lookup_queued _ _ _ Hk)), !(solicited_zero g _ _ Hso) by done. lia.
  - change (queued (refused _ _ _)) with (queued c). lia.
Qed.

(** ** The invariant *)

Definition started p : Z := match running p with Some (true, _) => 1 | _ => 0 end.
Definition failed p : Z := match running p with Some (_, true) => 1 | _ => 0 end.

Record prod_ok (s : SessionId) (R : Z) c p : Prop := {
  prod_chan : chan_ok c;
  prod_closed : closed (inner c) = true -> queued c = [];
  prod_ordinary : 0 <= ordinary p;
  prod_closes : 0 <= closes p;
  prod_running : running p <> None -> 0 < ordinary p;
  prod_slots : outstanding c s = ordinary p + closes p + tally (replies_of s) (queued c);
  prod_limit : ordinary p + tally (class ordinary_reply s) (queued c) <= R;
  prod_total : outstanding c s <= R + 1;
  prod_started : covered (class is_executing s) (class ordinary_reply s) (started p) (queued c);
  prod_failed : covered (class is_failed_output s) (class ordinary_reply s) (failed p) (queued c);
  prod_terminal : tally (class is_terminal s) (queued c) <= ind (ended_said p);
}.

Lemma started_bounds p : 0 <= started p <= 1.
Proof. unfold started. destruct (running p) as [[[] ?]|]; lia. Qed.
Lemma failed_bounds p : 0 <= failed p <= 1.
Proof. unfold failed. destruct (running p) as [[? []]|]; lia. Qed.

Lemma shapes : shape is_executing /\ shape is_failed_output /\ shape ordinary_reply.
Proof. split; [|split]; split; intros; try done; by destruct x. Qed.
Lemma solicited_shapes : solicited_only ordinary_reply /\ solicited_only is_close_reply /\ solicited_only is_terminal.
Proof. split; [|split]; intros []; done. Qed.

(** The bound is the invariant summed over the classes. *)
Lemma prod_bound s R c p :
  prod_ok s R c p -> tally (class (fun _ => true) s) (queued c) <= 3 * R + event_cap c + 3.
Proof.
  intros H. pose proof (prod_started _ _ _ _ H 0%nat) as H1. pose proof (prod_failed _ _ _ _ H 0%nat) as H2.
  rewrite !drop_0 in *. pose proof (state_at_most_once c s (prod_chan _ _ _ _ H)).
  pose proof (ok_capped _ (prod_chan _ _ _ _ H) s) as H3. change (fun e => _) with (class is_plain_output s) in H3.
  pose proof (prod_slots _ _ _ _ H) as Hs. pose proof (prod_total _ _ _ _ H). pose proof (prod_limit _ _ _ _ H).
  pose proof (prod_ordinary _ _ _ _ H). pose proof (prod_closes _ _ _ _ H). pose proof (prod_terminal _ _ _ _ H) as Ht.
  pose proof (started_bounds p). pose proof (failed_bounds p). rewrite replies_split in Hs. rewrite tally_class_total.
  assert (Hrun : started p <= ordinary p /\ failed p <= ordinary p).
  { unfold started, failed in *. pose proof (prod_running _ _ _ _ H) as Hr.
    destruct (running p) as [[[] []]|]; try lia; specialize (Hr ltac:(done)); lia. }
  assert (ind (ended_said p) <= 1) by (destruct (ended_said p); cbn; lia). lia.
Qed.

Lemma push_keeps_closed c e sl c' pu : push_case c e sl (c', pu) -> closed (inner c') = closed (inner c).
Proof. by inversion 1. Qed.

(** An event that goes into an open queue. *)
Lemma prod_push s R c p p' e c' pu :
  prod_ok s R c p -> chan_ok c' -> closed (inner c) = false -> push_case c e (slot_for e) (c', pu) ->
  outstanding c' s = outstanding c s ->
  ordinary p' + class ordinary_reply s e = ordinary p -> closes p' + class is_close_reply s e = closes p ->
  0 <= ordinary p' -> 0 <= closes p' -> (running p' <> None -> 0 < ordinary p') ->
  class is_executing s e + started p <= class ordinary_reply s e + started p' ->
  class is_failed_output s e + failed p <= class ordinary_reply s e + failed p' ->
  class is_terminal s e + ind (ended_said p) <= ind (ended_said p') ->
  prod_ok s R c' p'.
Proof.
  intros H Hok Hc Hp Ho Hor Hcl Hor0 Hcl0 Hrun He Hf Ht.
  destruct shapes as (S1 & S2 & S3). destruct solicited_shapes as (U1 & U2 & U3).
  pose proof (push_solicited_class s _ _ _ _ _ U1 Hc Hp) as T1. pose proof (push_solicited_class s _ _ _ _ _ U2 Hc Hp) as T2.
  pose proof (push_solicited_class s _ _ _ _ _ U3 Hc Hp) as T3.
  pose proof (started_bounds p). pose proof (started_bounds p'). pose proof (failed_bounds p). pose proof (failed_bounds p').
  split; try done.
  - intros Hc'. rewrite (push_keeps_closed _ _ _ _ _ Hp) in Hc'. congruence.
  - pose proof (prod_slots _ _ _ _ H) as E. rewrite replies_split in *. lia.
  - pose proof (prod_limit _ _ _ _ H). lia.
  - pose proof (prod_total _ _ _ _ H). lia.
  - eapply push_covered; [..|apply (prod_started _ _ _ _ H)]; try done; lia.
  - eapply push_covered; [..|apply (prod_failed _ _ _ _ H)]; try done; lia.
  - pose proof (prod_terminal _ _ _ _ H). lia.
Qed.

(** Nothing is kept once the consumer has gone. *)
Lemma prod_idle s R c p p' c' :
  prod_ok s R c p -> chan_ok c' -> queued c' = [] ->
  outstanding c' s = ordinary p' + closes p' -> ordinary p' <= R -> outstanding c' s <= R + 1 ->
  0 <= ordinary p' -> 0 <= closes p' -> (running p' <> None -> 0 < ordinary p') -> prod_ok s R c' p'.
Proof.
  intros H Hok Hq Ho HR Ht Hor0 Hcl0 Hrun. pose proof (started_bounds p'). pose proof (failed_bounds p').
  pose proof (ind_nonneg (ended_said p')). split; rewrite ?Hq; try done; cbn [tally]; try lia.
  - intros m. rewrite drop_nil. cbn [tally]. lia.
  - intros m. rewrite drop_nil. cbn [tally]. lia.
Qed.

Lemma own_class f s e : event_session e = s -> class f s e = ind (f e).
Proof. intros <-. unfold class, belongs. by rewrite Z.eqb_refl, andb_true_r. Qed.

(** The slots changed and nothing else. *)
Lemma prod_slots_only s R c p p' c' :
  prod_ok s R c p -> chan_ok c' -> inner c' = inner c ->
  outstanding c' s = ordinary p' + closes p' + tally (replies_of s) (queued c) ->
  ordinary p' + tally (class ordinary_reply s) (queued c) <= R -> outstanding c' s <= R + 1 ->
  0 <= ordinary p' -> 0 <= closes p' -> (running p' <> None -> 0 < ordinary p') ->
  started p <= started p' -> failed p <= failed p' -> ended_said p = ended_said p' ->
  prod_ok s R c' p'.
Proof.
  intros H Hok Ei Ho HR Ht Hor0 Hcl0 Hrun Hs Hf He.
  assert (Hq : queued c' = queued c) by (unfold queued; by rewrite Ei).
  split; rewrite ?Hq; try done.
  - rewrite Ei. apply (prod_closed _ _ _ _ H).
  - intros m. pose proof (prod_started _ _ _ _ H m). lia.
  - intros m. pose proof (prod_failed _ _ _ _ H m). lia.
  - rewrite <- He. apply (prod_terminal _ _ _ _ H).
Qed.

(** What speaking and answering do to the producer, in terms of the classes. *)
Lemma speak_spec p e p' s :
  speak p e = Some p' -> event_session e = s -> is_reply e = false ->
  ordinary p' = ordinary p /\ closes p' = closes p /\ (running p' <> None -> running p <> None) /\
  ind (is_executing e) + started p <= started p' /\ ind (is_failed_output e) + failed p <= failed p' /\
  ind (is_terminal e) + ind (ended_said p) <= ind (ended_said p').
Proof.
  intros Hs _ _. unfold started, failed.
  destruct e as [| | | | | | | | | |? ? ? []| |]; cbn in Hs; try done;
    destruct (running p) as [[[] []]|] eqn:Er; try done; try (destruct (ended_said p) eqn:Ee; try done);
    injection Hs as <-; cbn; rewrite ?Er, ?Ee; cbn; split_and!; try done; try lia.
Qed.

Lemma answer_spec p e p' :
  answer p e = Some p' -> (running p <> None -> 0 < ordinary p) -> 0 <= ordinary p -> 0 <= closes p ->
  is_reply e = true /\ ordinary p' + ind (ordinary_reply e) = ordinary p /\ closes p' + ind (is_close_reply e) = closes p /\
  0 <= ordinary p' /\ 0 <= closes p' /\ running p' = None /\ ended_said p' = ended_said p /\
  (running p <> None -> ordinary_reply e = true) /\ is_terminal e = false.
Proof.
  intros Ha Hrun Ho Hc. destruct e as [| | | | | | | | | |? ? ? []| |]; cbn in Ha; destruct (running p) as [r|] eqn:Er; try done;
    try (injection Ha as <-; specialize (Hrun ltac:(done)); cbn; split_and!; try done; lia).
  destruct (0 <? closes p) eqn:E; [|done]. boolify. injection Ha as <-. cbn. split_and!; try done; lia.
Qed.

Lemma speak_not_reply p e p' : speak p e = Some p' -> is_reply e = false.
Proof. by destruct e. Qed.

Lemma prod_say_ok s R c e p p' :
  prod_ok s R c p -> event_session e = s -> event_dropped e = 0 -> speak p e = Some p' ->
  prod_ok s R (sink_push c e).1 p'.
Proof.
  intros H He Hd Hs. pose proof (speak_not_reply _ _ _ Hs) as Hr.
  destruct (speak_spec p e p' s Hs He Hr) as (E1 & E2 & E3 & E4 & E5 & E6).
  pose proof (prod_chan _ _ _ _ H) as Hok. pose proof (step_ok _ _ _ Hok (step_say c e Hr Hd)) as Hok'.
  pose proof (prod_ordinary _ _ _ _ H). pose proof (prod_closes _ _ _ _ H). pose proof (prod_running _ _ _ _ H).
  rewrite sink_push_eq in *. assert (Esl : None = slot_for e) by (unfold slot_for; by rewrite Hr). rewrite Esl in *.
  destruct (closed (inner c)) eqn:Hc.
  - assert (Ep : push c e (slot_for e) = (c, DISCARDED)) by (unfold push; by rewrite Hc). rewrite Ep. cbn [fst].
    pose proof (prod_slots _ _ _ _ H) as Hsl. pose proof (prod_limit _ _ _ _ H) as Hl. pose proof (prod_total _ _ _ _ H).
    rewrite (prod_closed _ _ _ _ H Hc) in *. cbn [tally] in *.
    apply (prod_idle s R c p); try done; try lia; [by apply (prod_closed _ _ _ _ H)|].
    intros Hn. rewrite E1. auto.
  - assert (Hcase : push_case c e (slot_for e) (push c e (slot_for e))) by (apply push_cases; [done|]; by rewrite <- Esl).
    destruct (push c e (slot_for e)) as [c' pu] eqn:Ep. cbn [fst] in *.
    assert (Ho : ordinary_reply e = false /\ is_close_reply e = false)
      by (unfold ordinary_reply; rewrite Hr; split; [done|by destruct e]). destruct Ho as [Ho1 Ho2].
    eapply prod_push; try done; rewrite ?(own_class _ s e He), ?Ho1, ?Ho2; cbn [ind] in *; try lia.
    + rewrite <- (push_outstanding c e (slot_for e) s). by rewrite Ep.
    + intros Hn. rewrite E1. auto.
Qed.

Lemma prod_answer_ok s R c e p p' c' w :
  prod_ok s R c p -> event_session e = s -> answer p e = Some p' -> reply_into c e = Ret (c', w) -> prod_ok s R c' p'.
Proof.
  intros H He Ha Hr. pose proof (prod_chan _ _ _ _ H) as Hok. pose proof (prod_slots _ _ _ _ H) as Hsl.
  pose proof (prod_ordinary _ _ _ _ H) as Ho. pose proof (prod_closes _ _ _ _ H) as Hcl.
  destruct (answer_spec p e p' Ha (prod_running _ _ _ _ H) Ho Hcl) as (A1 & A2 & A3 & A4 & A5 & A6 & A7 & A8 & A9).
  assert (Hone : ind (ordinary_reply e) + ind (is_close_reply e) = 1) by (destruct e; done).
  destruct (reply_returns c e Hok A1) as (c1 & w1 & E1 & Hok1 & Hi & Hout1); [rewrite He; lia|].
  rewrite E1 in Hr. injection Hr as <- _. specialize (Hout1 s).
  assert (Hrep : replies_of s e = 1) by (unfold replies_of, belongs; by rewrite A1, He, Z.eqb_refl).
  pose proof (prod_limit _ _ _ _ H) as Hl. pose proof (prod_total _ _ _ _ H) as Htot.
  assert (Hrun : running p' <> None -> 0 < ordinary p') by done.
  destruct (closed (inner c)) eqn:Hc.
  - destruct Hi as [Ei _]. assert (Hq : queued c1 = []) by (unfold queued; rewrite Ei; by apply (prod_closed _ _ _ _ H)).
    rewrite (prod_closed _ _ _ _ H Hc) in *. cbn [tally] in *. apply (prod_idle s R c p); try done; lia.
  - assert (Hx : started p <= ind (ordinary_reply e) /\ failed p <= ind (ordinary_reply e)).
    { unfold started, failed. destruct (running p) as [[[] []]|]; rewrite ?(A8 ltac:(done)); cbn; try lia;
        pose proof (ind_nonneg (ordinary_reply e)); lia. }
    assert (Hex : is_executing e = false /\ is_failed_output e = false) by (by destruct e). destruct Hex as [X1 X2].
    eapply (prod_push s R c p p' e c1 (taken_in c)); try done; rewrite ?(own_class _ s e He), ?A9, ?X1, ?X2, ?A7; cbn [ind]; try lia.
    + subst c1. apply push_solicited; [done|]. by destruct e.
    + unfold started at 2. rewrite A6. lia.
    + unfold failed at 2. rewrite A6. lia.
Qed.

Lemma prod_other_ok s R c a c' p :
  prod_ok s R c p -> (forall e, a = Said e -> event_session e <> s) -> a <> Accepted s -> chan_step c a c' ->
  prod_ok s R c' p.
Proof.
  intros H Hs Ha Hstep. pose proof (prod_chan _ _ _ _ H) as Hok. pose proof (step_ok _ _ _ Hok Hstep) as Hok'.
  assert (Hpush : forall e pu, event_session e <> s -> closed (inner c) = false -> push_case c e (slot_for e) (c', pu) ->
    outstanding c' s = outstanding c s -> prod_ok s R c' p).
  { intros e pu Hne Hc Hp Ho. eapply prod_push; try done; rewrite ?(class_other _ s e Hne); try lia; apply H. }
  assert (Hsame : inner c' = inner c -> outstanding c' s = outstanding c s -> prod_ok s R c' p).
  { intros Ei Ho. apply (prod_slots_only s R c p); try done; rewrite ?Ho; try apply H; lia. }
  destruct Hstep as [limit s' c' Hr|e Hr Hd|e c' w Hr Ho Hp|e c' Hp|c' Hp].
  - destruct (reserve_eq _ _ _ _ Hr) as (Ei & _ & _ & Ho). apply Hsame; [done|]. rewrite Ho.
    destruct (Z.eqb_spec s' s) as [->|]; [done|cbn; lia].
  - specialize (Hs e eq_refl). rewrite sink_push_eq in *.
    assert (Esl : None = slot_for e) by (unfold slot_for; by rewrite Hr). rewrite Esl in *.
    destruct (closed (inner c)) eqn:Hc.
    + assert (Ep : push c e (slot_for e) = (c, DISCARDED)) by (unfold push; by rewrite Hc). by rewrite Ep.
    + assert (Hcase : push_case c e (slot_for e) (push c e (slot_for e))) by (apply push_cases; [done|]; by rewrite <- Esl).
      rewrite (surjective_pairing (push c e (slot_for e))) in Hcase. apply (Hpush e (push c e (slot_for e)).2); try done.
      apply push_outstanding.
  - specialize (Hs e eq_refl). destruct (reply_returns c e Hok Hr Ho) as (c1 & w1 & E1 & _ & Hi & Ho1).
    rewrite E1 in Hp. injection Hp as <- _. specialize (Ho1 s). rewrite (other_reply s e Hs) in Ho1.
    destruct (closed (inner c)) eqn:Hc; [apply Hsame; [by destruct Hi|lia]|].
    apply (Hpush e (taken_in c)); [done..| |lia]. subst c1. apply push_solicited; [done|]. by destruct e.
  - destruct (queue (inner c)) as [|q rest] eqn:Hq; [unfold pop in Hp; by rewrite Hq in Hp|].
    destruct (pop_front c q rest Hok Hq) as (c1 & E1 & P). rewrite E1 in Hp. injection Hp as <- <-.
    assert (Hes : queued c = event q :: queued c1) by (unfold queued; by rewrite Hq, (popped_queue _ _ _ _ P)).
    pose proof (popped_outstanding _ _ _ _ P s) as Ho. destruct H as [H1 H2 H3 H4 H5 H6 H7 H8 H9 H10 H11].
    rewrite Hes in *. cbn [tally] in *. pose proof (replies_of_nonneg s (event q)).
    pose proof (class_nonneg ordinary_reply s (event q)). pose proof (class_nonneg is_terminal s (event q)).
    split; try done; try lia; try (by eapply covered_tail).
    rewrite (popped_closed _ _ _ _ P). intros Hc. by specialize (H2 Hc).
  - destruct (drop_returns c Hok) as (c1 & E1 & _ & Hc1 & Hq & _ & Ho). rewrite E1 in Hp. injection Hp as <-.
    specialize (Ho s). pose proof (prod_slots _ _ _ _ H). pose proof (prod_limit _ _ _ _ H). pose proof (prod_total _ _ _ _ H).
    pose proof (tally_nonneg (class ordinary_reply s) (queued c) (class_nonneg _ _)).
    pose proof (tally_nonneg (replies_of s) (queued c) (replies_of_nonneg _)).
    apply (prod_idle s R c p); try done; try apply H; lia.
Qed.

Lemma prod_step_ok s R c p c' p' : prod_ok s R c p -> prod_step s R (c, p) (c', p') -> prod_ok s R c' p'.
Proof.
  intros H Hstep. pose proof (prod_chan _ _ _ _ H) as Hok. pose proof (prod_slots _ _ _ _ H) as Hsl.
  pose proof (prod_ordinary _ _ _ _ H). pose proof (prod_closes _ _ _ _ H). pose proof (prod_running _ _ _ _ H) as Hrun.
  pose proof (prod_limit _ _ _ _ H). pose proof (prod_total _ _ _ _ H).
  inversion Hstep as [? ? ? Hr|? ? ? Hr|? ? Hn Hp|? e ? ? He Hd Hs|? e ? ? ? w He Ha Hr|? a ? ? Hs Ha Hst]; subst.
  - pose proof (step_ok _ _ _ Hok (step_accept _ _ _ _ Hr)) as Hok'.
    destruct (reserve_eq _ _ _ _ Hr) as (Ei & _ & Hlt & Ho). specialize (Ho s). rewrite Z.eqb_refl in Ho. cbn [ind] in Ho.
    rewrite replies_split in Hsl. pose proof (tally_nonneg (class is_close_reply s) (queued c) (class_nonneg _ _)).
    apply (prod_slots_only s R c p); cbn; rewrite ?replies_split; try done; try lia.
  - pose proof (step_ok _ _ _ Hok (step_accept _ _ _ _ Hr)) as Hok'.
    destruct (reserve_eq _ _ _ _ Hr) as (Ei & _ & Hlt & Ho). specialize (Ho s). rewrite Z.eqb_refl in Ho. cbn [ind] in Ho.
    apply (prod_slots_only s R c p); cbn; try done; try lia.
  - apply (prod_slots_only s R c' p); cbn; try done; try lia; unfold started, failed; by rewrite Hn.
  - by apply prod_say_ok with p.
  - by eapply prod_answer_ok.
  - by eapply prod_other_ok.
Qed.

Lemma push_cap c e sl : event_cap (push c e sl).1 = event_cap c.
Proof.
  unfold push. destruct (closed _); [done|]. unfold enqueue.
  destruct (is_unsolicited e); [destruct (admit_unsolicited _ _ _) as [i []]|];
    try destruct (stamp_unsolicited _ _); done.
Qed.

Lemma step_cap c a c' : chan_ok c -> chan_step c a c' -> event_cap c' = event_cap c.
Proof.
  intros H. destruct 1 as [limit s c' Hr|e Hr Hd|e c' w Hr Ho Hp|e c' Hp|c' Hp].
  - by destruct (reserve_eq _ _ _ _ Hr) as (_ & -> & _).
  - rewrite sink_push_eq. apply push_cap.
  - destruct (reply_returns c e H Hr Ho) as (c1 & w1 & E1 & _ & Hi & _). rewrite E1 in Hp. injection Hp as <- _.
    destruct (closed (inner c)); [by destruct Hi|by subst].
  - destruct (queue (inner c)) as [|q rest] eqn:Hq; [unfold pop in Hp; by rewrite Hq in Hp|].
    destruct (pop_front c q rest H Hq) as (c1 & E1 & P). rewrite E1 in Hp. injection Hp as _ <-.
    apply (popped_cap _ _ _ _ P).
  - destruct (drop_returns c H) as (c1 & E1 & _ & _ & _ & Hc & _). rewrite E1 in Hp. by injection Hp as <-.
Qed.

(** A step of the producer's own is a step of the queue, or none. *)
Lemma prod_step_cap s R c p c' p' : prod_ok s R c p -> prod_step s R (c, p) (c', p') -> event_cap c' = event_cap c.
Proof.
  intros H Hstep. pose proof (prod_chan _ _ _ _ H) as Hok.
  inversion Hstep as [? ? ? Hr|? ? ? Hr|? ? Hn Hp|? e ? ? He Hd Hs|? e ? ? ? w He Ha Hr|? a ? ? Hs Ha Hst]; subst.
  - by apply (step_cap c (Accepted s)), step_accept with R.
  - by apply (step_cap c (Accepted s)), step_accept with (R + 1).
  - done.
  - rewrite sink_push_eq. apply push_cap.
  - destruct (answer_spec p e p' Ha (prod_running _ _ _ _ H) (prod_ordinary _ _ _ _ H) (prod_closes _ _ _ _ H))
      as (A1 & A2 & A3 & A4 & A5 & _).
    assert (Hone : ind (ordinary_reply e) + ind (is_close_reply e) = 1) by (destruct e; done).
    apply (step_cap c (Said e)); [done|]. apply step_answer with w; try done. rewrite (prod_slots _ _ _ _ H). lia.
  - by apply (step_cap c a).
Qed.

End bound.

(** ** A session that answers one request *)

#[local] Instance no_objects : DriverObjects := {| Locator := unit; CursorObject := unit |}.

Definition sample_start : SessionEvent := Executing 7 3 None.

