(* ===== verification/SessionShared.v ===== *)
(** * The state a session's threads share (db-core/src/shared.rs)

    What the worker thread and every caller of a session read and write: its
    lifecycle, what is known of its transaction, how it ended, the output
    collected for callers that wait, and the queue its events go to.

    [Sess] is that state with the event queue.  Each lock is held for one
    operation and each atomic is one step, so an operation is a function on
    [Sess]; the waker's call is left out.  [said] is a history variable: every
    event the session emitted into the queue it is bound to, in order. *)

From stdpp Require Import gmap.
From S2P Require Import Prelude RustStr Errors Segment ResultStore Events EventQueue.
Open Scope Z_scope.
Open Scope run_scope.

(** The driver's view of the transaction (db-driver-api/src/session.rs). *)
Inductive TransactionState := Inactive | Active | Unknown.
#[global] Instance TransactionState_eq_dec : EqDecision TransactionState.
Proof. solve_decision. Defined.
Definition may_be_open (t : TransactionState) : bool :=
  match t with Active | Unknown => true | Inactive => false end.

Record LostReason := mkLost {
  lost_kind : ErrorKind;
  lost_message : Message;
  lost_native : option NativeError;
  lost_position : option SqlPosition;
  lost_cause : option Message;
}.

Definition capture (e : DbError) : LostReason :=
  {| lost_kind := kind e; lost_message := message e; lost_native := native e;
     lost_position := position e; lost_cause := source e |}.

Definition to_error (r : LostReason) (context : str) : DbError :=
  let e := with_session_state (error_new (lost_kind r) (InContext context (lost_message r))) Lost in
  let e := match lost_native r with Some n => with_native e n | None => e end in
  let e := match lost_position r with Some p => with_position e p | None => e end in
  match lost_cause r with Some m => with_source e m | None => e end.

(** [EndedAs] with its code; any other code means the session has not ended. *)
Inductive EndedAs := Cleanly | Unresolved.
#[global] Instance EndedAs_eq_dec : EqDecision EndedAs.
Proof. solve_decision. Defined.
Definition NOT_ENDED : Z := 0.
Definition ended_code (h : EndedAs) : Z := match h with Cleanly => 1 | Unresolved => 2 end.
Definition from_code (n : Z) : option EndedAs :=
  if n =? 1 then Some Cleanly else if n =? 2 then Some Unresolved else None.

Record State := mkState {
  lifecycle : SessionLifecycle;
  core_possibly_active : bool;
  driver_transaction_state : TransactionState;
  lost_reason : option LostReason;
}.
Definition possibly_active (s : State) : bool :=
  core_possibly_active s || may_be_open (driver_transaction_state s).

(** [ServerOutputLog] (session.rs) and [CollectedOutput]. *)
Record ServerOutputLog := mkLog {
  log_lines : list str;
  log_dropped : Z;
  log_failure : option DbError;
  log_failures : Z;
  log_invalid : Z;
}.
Definition MAX_RETAINED_LINES : Z := 10000.
Definition MAX_RETAINED_BYTES : Z := 1024 * 1024.
Definition log_is_empty (l : ServerOutputLog) : bool :=
  is_nil (log_lines l) && (log_dropped l =? 0) && (log_failures l =? 0) && (log_invalid l =? 0).

Record CollectedOutput := mkCollected { log : ServerOutputLog; bytes : Z; refusing : bool }.
Definition empty_log : ServerOutputLog :=
  {| log_lines := []; log_dropped := 0; log_failure := None; log_failures := 0; log_invalid := 0 |}.
Definition no_output : CollectedOutput := {| log := empty_log; bytes := 0; refusing := false |}.

Definition collected_drop (c : CollectedOutput) (refusing : bool) : CollectedOutput :=
  {| log := {| log_lines := log_lines (log c); log_dropped := sat_add32 (log_dropped (log c)) 1;
               log_failure := log_failure (log c); log_failures := log_failures (log c);
               log_invalid := log_invalid (log c) |};
     bytes := bytes c; refusing := refusing |}.

(** [CollectedOutput::push]: the first line that does not fit ends the log. *)
Definition collected_push (c : CollectedOutput) (line : str) : CollectedOutput :=
  if refusing c then collected_drop c true
  else
    let len := Z.of_nat (blen line) in
    if (Z.of_nat (length (log_lines (log c))) <? MAX_RETAINED_LINES) &&
       (sat_add (bytes c) len <=? MAX_RETAINED_BYTES) then
      {| log := {| log_lines := log_lines (log c) ++ [line]; log_dropped := log_dropped (log c);
                   log_failure := log_failure (log c); log_failures := log_failures (log c);
                   log_invalid := log_invalid (log c) |};
         bytes := bytes c + len; refusing := false |}
    else collected_drop c true.

Record SessionShared := mkShared {
  session : SessionId;
  state : State;
  in_flight : Z;
  bound : bool;
  terminal_emitted : bool;
  ended : Z;
  open_cancelled : bool;
  transaction_resolved_at_end : bool;
  abandon_requested : bool;
  collected_output : CollectedOutput;
}.

Definition shared_new (s : SessionId) : SessionShared :=
  {| session := s;
     state := {| lifecycle := LUsable; core_possibly_active := false;
                 driver_transaction_state := Unknown; lost_reason := None |};
     in_flight := 0; bound := false; terminal_emitted := false; ended := NOT_ENDED;
     open_cancelled := false; transaction_resolved_at_end := false; abandon_requested := false;
     collected_output := no_output |}.

(** Field updates. *)
Definition set_state (x : State) (s : SessionShared) : SessionShared :=
  {| session := session s; state := x; in_flight := in_flight s; bound := bound s;
     terminal_emitted := terminal_emitted s; ended := ended s; open_cancelled := open_cancelled s;
     transaction_resolved_at_end := transaction_resolved_at_end s; abandon_requested := abandon_requested s;
     collected_output := collected_output s |}.
Definition set_shared_in_flight (x : Z) (s : SessionShared) : SessionShared :=
  {| session := session s; state := state s; in_flight := x; bound := bound s;
     terminal_emitted := terminal_emitted s; ended := ended s; open_cancelled := open_cancelled s;
     transaction_resolved_at_end := transaction_resolved_at_end s; abandon_requested := abandon_requested s;
     collected_output := collected_output s |}.
Definition set_bound (x : bool) (s : SessionShared) : SessionShared :=
  {| session := session s; state := state s; in_flight := in_flight s; bound := x;
     terminal_emitted := terminal_emitted s; ended := ended s; open_cancelled := open_cancelled s;
     transaction_resolved_at_end := transaction_resolved_at_end s; abandon_requested := abandon_requested s;
     collected_output := collected_output s |}.
Definition set_terminal_emitted (x : bool) (s : SessionShared) : SessionShared :=
  {| session := session s; state := state s; in_flight := in_flight s; bound := bound s;
     terminal_emitted := x; ended := ended s; open_cancelled := open_cancelled s;
     transaction_resolved_at_end := transaction_resolved_at_end s; abandon_requested := abandon_requested s;
     collected_output := collected_output s |}.
Definition set_ended (x : Z) (s : SessionShared) : SessionShared :=
  {| session := session s; state := state s; in_flight := in_flight s; bound := bound s;
     terminal_emitted := terminal_emitted s; ended := x; open_cancelled := open_cancelled s;
     transaction_resolved_at_end := transaction_resolved_at_end s; abandon_requested := abandon_requested s;
     collected_output := collected_output s |}.
Definition set_open_cancelled (x : bool) (s : SessionShared) : SessionShared :=
  {| session := session s; state := state s; in_flight := in_flight s; bound := bound s;
     terminal_emitted := terminal_emitted s; ended := ended s; open_cancelled := x;
     transaction_resolved_at_end := transaction_resolved_at_end s; abandon_requested := abandon_requested s;
     collected_output := collected_output s |}.
Definition set_resolved (x : bool) (s : SessionShared) : SessionShared :=
  {| session := session s; state := state s; in_flight := in_flight s; bound := bound s;
     terminal_emitted := terminal_emitted s; ended := ended s; open_cancelled := open_cancelled s;
     transaction_resolved_at_end := x; abandon_requested := abandon_requested s;
     collected_output := collected_output s |}.
Definition set_abandon (x : bool) (s : SessionShared) : SessionShared :=
  {| session := session s; state := state s; in_flight := in_flight s; bound := bound s;
     terminal_emitted := terminal_emitted s; ended := ended s; open_cancelled := open_cancelled s;
     transaction_resolved_at_end := transaction_resolved_at_end s; abandon_requested := x;
     collected_output := collected_output s |}.
Definition set_collected (x : CollectedOutput) (s : SessionShared) : SessionShared :=
  {| session := session s; state := state s; in_flight := in_flight s; bound := bound s;
     terminal_emitted := terminal_emitted s; ended := ended s; open_cancelled := open_cancelled s;
     transaction_resolved_at_end := transaction_resolved_at_end s; abandon_requested := abandon_requested s;
     collected_output := x |}.
Definition set_lifecycle (l : SessionLifecycle) (s : State) : State :=
  {| lifecycle := l; core_possibly_active := core_possibly_active s;
     driver_transaction_state := driver_transaction_state s; lost_reason := lost_reason s |}.
Definition set_core_active (b : bool) (s : State) : State :=
  {| lifecycle := lifecycle s; core_possibly_active := b;
     driver_transaction_state := driver_transaction_state s; lost_reason := lost_reason s |}.
Definition set_driver_state (t : TransactionState) (s : State) : State :=
  {| lifecycle := lifecycle s; core_possibly_active := core_possibly_active s;
     driver_transaction_state := t; lost_reason := lost_reason s |}.

(** ** Reads *)

Definition is_lost (s : SessionShared) : bool := bool_decide (lifecycle (state s) = LLost).
Definition needs_validation (s : SessionShared) : bool := bool_decide (lifecycle (state s) = LNeedsValidation).
Definition has_possibly_active_transaction (s : SessionShared) : bool := possibly_active (state s).
Definition has_ended (s : SessionShared) : bool := negb (ended s =? NOT_ENDED).
Definition ended_as (s : SessionShared) : option EndedAs := from_code (ended s).
Definition driver_call_in_flight (s : SessionShared) : bool := 0 <? in_flight s.
Definition transaction_lost_at_end (s : SessionShared) : bool :=
  negb (transaction_resolved_at_end s) && has_possibly_active_transaction s.

Definition terminal_error (s : SessionShared) : DbError :=
  match lost_reason (state s) with
  | Some r => to_error r (lit "session is lost; open a new session to reconnect")
  | None =>
      if open_cancelled s then
        with_session_state (error_new Cancelled (Text (lit "reldex-db-core: the session was abandoned before its connection was open, so nothing was connected and nothing is adopted late"))) Lost
      else with_session_state (error_new Connection (Text (lit "reldex-db-core: session is closed"))) Lost
  end.

Definition lost_transaction_error (s : SessionShared) : DbError :=
  match lost_reason (state s) with
  | Some r => to_error r (lit "the session was already lost, so nothing was committed and any transaction it held is gone")
  | None => with_session_state (error_new Connection (Text (lit "reldex-db-core: the connection was already gone, so nothing was committed and any transaction it held is gone"))) Lost
  end.

Definition settled_close (s : SessionShared) : option (result unit DbError) :=
  match ended_as s with
  | None => None
  | Some Cleanly => Some (Ok tt)
  | Some Unresolved => Some (Err (lost_transaction_error s))
  end.

(** ** Lifecycle *)

Definition mark_ended (how : EndedAs) (s : SessionShared) : SessionShared :=
  if ended s =? NOT_ENDED then set_ended (ended_code how) s else s.

Definition mark_open_cancelled (s : SessionShared) : SessionShared := set_open_cancelled true s.

Definition mark_validated (s : SessionShared) : SessionShared :=
  if needs_validation s then set_state (set_lifecycle LUsable (state s)) s else s.

Definition mark_closed (s : SessionShared) : SessionShared :=
  if is_lost s then s else set_state (set_lifecycle LClosed (state s)) s.

Definition lost_state (e : DbError) (st : State) : State :=
  {| lifecycle := LLost; core_possibly_active := core_possibly_active st;
     driver_transaction_state := driver_transaction_state st; lost_reason := Some (capture e) |}.

Definition mark_lost_from (e : DbError) (s : SessionShared) : SessionShared := set_state (lost_state e (state s)) s.

Definition note_error (e : DbError) (s : SessionShared) : SessionShared :=
  if is_lost s then s
  else
    match session_state e with
    | Usable => s
    | NeedsValidation =>
        match lifecycle (state s) with
        | LUsable => set_state (set_lifecycle LNeedsValidation (state s)) s
        | _ => s
        end
    | Lost => set_state (lost_state e (state s)) s
    end.

(** [seed_driver_transaction_state]: recorded without announcing it. *)
Definition seed_driver_transaction_state (t : TransactionState) (s : SessionShared) : SessionShared :=
  set_state (set_driver_state t (state s)) s.

Definition mark_transaction_resolved_at_end (s : SessionShared) : SessionShared := set_resolved true s.
Definition enter_driver_call (s : SessionShared) : SessionShared := set_shared_in_flight (wrap64 (in_flight s + 1)) s.
Definition leave_driver_call (s : SessionShared) : SessionShared := set_shared_in_flight (wrap64 (in_flight s - 1)) s.
Definition request_abandon (s : SessionShared) : SessionShared := set_abandon true s.

Definition collect_server_output (lines : list str) (invalid : Z) (failure : option DbError) (s : SessionShared)
    : SessionShared :=
  let c := fold_left collected_push lines (collected_output s) in
  let l := log c in
  let invalid := sat_add32 (log_invalid l) invalid in
  let l' :=
    match failure with
    | Some e =>
        {| log_lines := log_lines l; log_dropped := log_dropped l;
           log_failure := match log_failure l with None => Some e | Some x => Some x end;
           log_failures := sat_add32 (log_failures l) 1; log_invalid := invalid |}
    | None =>
        {| log_lines := log_lines l; log_dropped := log_dropped l; log_failure := log_failure l;
           log_failures := log_failures l; log_invalid := invalid |}
    end in
  set_collected {| log := l'; bytes := bytes c; refusing := refusing c |} s.

Definition take_collected_server_output (s : SessionShared) : ServerOutputLog * SessionShared :=
  (log (collected_output s), set_collected no_output s).

(** ** Events *)

Section sess.
Context {DO : DriverObjects}.

Record Sess := mkSess { shared : SessionShared; chan : Chan; said : list SessionEvent }.

Definition on_shared (f : SessionShared -> SessionShared) (x : Sess) : Sess :=
  {| shared := f (shared x); chan := chan x; said := said x |}.

Definition bind_events (x : Sess) : result Sess DbError :=
  if bound (shared x) then Err (internal (Text (lit "reldex-db-core: this session already routes its events to a queue; bind once, at open")))
  else if terminal_emitted (shared x) then
    Err (error_new Resource (Text (lit "reldex-db-core: this session has already ended; its Terminal event was emitted before this queue was bound, so binding now would produce a stream that never terminates")))
  else Ok (on_shared (set_bound true) x).

Definition emit (e : SessionEvent) (x : Sess) : Sess :=
  if bound (shared x) then {| shared := shared x; chan := (sink_push (chan x) e).1; said := said x ++ [e] |}
  else x.

Definition emit_reply (e : SessionEvent) (x : Sess) : run Sess :=
  if bound (shared x) then
    let! (c, _) := reply_into (chan x) e in
    Ret {| shared := shared x; chan := c; said := said x ++ [e] |}
  else
    let! c := release (session (shared x)) (chan x) in
    Ret {| shared := shared x; chan := c; said := said x |}.

Definition reserve_request (limit : Z) (x : Sess) : result Sess DbError :=
  match reserve limit (session (shared x)) (chan x) with
  | Ok c => Ok {| shared := shared x; chan := c; said := said x |}
  | Err e => Err e
  end.

Definition shared_outstanding (x : Sess) : Z := outstanding (chan x) (session (shared x)).

Definition emit_terminal (lost : bool) (x : Sess) : Sess :=
  if terminal_emitted (shared x) then x
  else
    let st := state (shared x) in
    emit (Terminal (session (shared x)) (lifecycle st)
            ((fun r => to_error r (lit "the session was lost")) <$> lost_reason st) lost)
      (on_shared (set_terminal_emitted true) x).

Definition with_transaction_watch (f : State -> State) (x : Sess) : Sess :=
  let before := possibly_active (state (shared x)) in
  let x' := on_shared (fun s => set_state (f (state s)) s) x in
  let after := possibly_active (state (shared x')) in
  if Bool.eqb before after then x'
  else emit (TransactionStateChanged (session (shared x')) after) x'.

Definition note_statement (k : StatementKind) (driver_state : TransactionState) (exact : bool) (x : Sess) : Sess :=
  with_transaction_watch (fun st =>
    let st := set_driver_state driver_state st in
    let definitely_inactive := exact && bool_decide (driver_state = Inactive) in
    let opens := match k with Dml | PlSqlBlock => true | _ => negb definitely_inactive end in
    if opens then set_core_active true st else st) x.

Definition note_commit_or_rollback (x : Sess) : Sess := with_transaction_watch (set_core_active false) x.

Definition note_driver_transaction_state (t : TransactionState) (x : Sess) : Sess :=
  with_transaction_watch (set_driver_state t) x.
End sess.
