(* ===== verification/SessionWorld.v ===== *)
(** * A session and its driver

    Everything one session's worker thread touches: the shared state and the
    event queue ([Sess]), the worker's own fields, and the driver with the
    server behind it.  The worker's operations are in the state monad [M] over
    this [World].

    A driver is foreign code: [Driver] is the contract of db-driver-api's
    traits, one function per method.  [D] is the state of the driver and of the
    server; a cursor or a locator is a name in it.  A call returns a value or
    an error, or panics.  While a call runs, other threads may request an
    abandon or see a cancel fail; [outside] is what they did during the call
    that led to a state.  [calls] is a history variable: every driver call that
    can have an effect, in order. *)

From stdpp Require Import gmap.
From S2P Require Import Prelude RustStr Errors Columns Segment Policy ResultStore Events EventQueue SessionShared.
Open Scope Z_scope.
Open Scope run_scope.

Inductive Called (A : Type) := Returned (r : result A DbError) | Panicked (payload : option str).
Arguments Returned {A} _.
Arguments Panicked {A} _.

Inductive Outside := AbandonRequested | CancelFailed (e : DbError).

Class Driver {DO : DriverObjects} := {
  D : Type;
  Statement : Type;
  SavepointName : Type;
  statement_deadline : Statement -> option Duration;
  (* DatabaseDriver::connect: the connection is [D]'s from then on *)
  drv_connect : D -> D * Called unit;
  (* DatabaseConnection *)
  connection_id_of : D -> ConnectionId;
  exact_transaction_state_of : D -> bool;
  server_output_of : D -> bool;
  cancel_kind_of : D -> CancelKind;
  transaction_state_of : D -> TransactionState;
  drv_take_connect_warnings : D -> D * Called (list Warning);
  drv_execute : Statement -> D -> D * Called ExecutionOutcome;
  drv_commit : D -> D * Called unit;
  drv_rollback : D -> D * Called unit;
  drv_savepoint : SavepointName -> D -> D * Called unit;
  drv_rollback_to_savepoint : SavepointName -> D -> D * Called unit;
  drv_ping : D -> D * Called unit;
  drv_set_server_output : ServerOutputSetting -> D -> D * Called ServerOutputSetting;
  drv_take_server_output : Z -> Z -> D -> D * Called ServerOutputChunk;
  drv_close : D -> D * Called unit;
  (* Cursor *)
  cursor_id : CursorObject -> Z;
  cursor_connection : CursorObject -> ConnectionId;
  cursor_columns : CursorObject -> D -> D * Called (list ColumnMetadata);
  cursor_fetch : CursorObject -> Z -> D -> D * Called (RowBatch Locator);
  cursor_is_exhausted : CursorObject -> D -> bool;
  cursor_close : CursorObject -> D -> D * Called unit;
  (* LobLocator: the bytes written at the front of the buffer, and the count *)
  locator_connection : Locator -> ConnectionId;
  locator_read : Locator -> Z -> D -> D * Called (list Z * Z);
  (* the environment *)
  outside : D -> list Outside;
  output_left : D -> nat;
}.

Inductive DriverCall :=
| CallConnect | CallWarnings | CallExecute | CallCommit | CallRollback | CallSavepoint | CallRollbackTo | CallPing
| CallSetOutput | CallTakeOutput | CallClose
| CallColumns (cursor : Z) | CallFetch (cursor : Z) | CallCursorClose (cursor : Z)
| CallReadChunk (lob : Z).

(** [SessionLimits] (session.rs). *)
Record SessionLimits := mkLimits {
  max_open_results : Z;
  max_lob_chunk_bytes : Z;
  max_outstanding_requests : Z;
  server_output_chunk_lines : Z;
  server_output_chunk_bytes : Z;
}.
Definition default_limits : SessionLimits :=
  {| max_open_results := 256; max_lob_chunk_bytes := 16 * 1024 * 1024; max_outstanding_requests := 1024;
     server_output_chunk_lines := 4096; server_output_chunk_bytes := 32 * 1024 |}.

Section world.
Context {DO : DriverObjects} {DR : Driver}.

(** [ParkedLob]: the result it was taken from, if any, and its locator. *)
Record ParkedLob := mkParked { parked_result : option Z; locator : Locator }.

(** [Worker] (worker.rs).  The driver's connection is in the driver's state;
    [connected] says whether the worker still owns it.  A large object is keyed
    by the serial of its handle, whose session is the worker's; [next_serial] is
    the process-wide counter serials come from. *)
Record Worker := mkWorker {
  limits : SessionLimits;
  connection_id : ConnectionId;
  exact_transaction_state : bool;
  server_output_supported : bool;
  server_output : ServerOutputSetting;
  connected : bool;
  cursors : gmap Z CursorObject;
  lobs : gmap Z ParkedLob;
  torn : bool;
  next_serial : Z;
}.

(** [completions]: what callers that wait were sent, by one-shot channel, as the
    event the same answer would have been. *)
Record World := mkWorld {
  sess : Sess;
  worker : Worker;
  driver : D;
  calls : list DriverCall;
  completions : list (Z * SessionEvent);
}.

Definition set_sess (x : Sess) (w : World) : World :=
  {| sess := x; worker := worker w; driver := driver w; calls := calls w; completions := completions w |}.
Definition set_worker (x : Worker) (w : World) : World :=
  {| sess := sess w; worker := x; driver := driver w; calls := calls w; completions := completions w |}.

Definition set_server_output_setting (x : ServerOutputSetting) (k : Worker) : Worker :=
  {| limits := limits k; connection_id := connection_id k; exact_transaction_state := exact_transaction_state k;
     server_output_supported := server_output_supported k; server_output := x; connected := connected k;
     cursors := cursors k; lobs := lobs k; torn := torn k; next_serial := next_serial k |}.
Definition set_connected (x : bool) (k : Worker) : Worker :=
  {| limits := limits k; connection_id := connection_id k; exact_transaction_state := exact_transaction_state k;
     server_output_supported := server_output_supported k; server_output := server_output k; connected := x;
     cursors := cursors k; lobs := lobs k; torn := torn k; next_serial := next_serial k |}.
Definition set_cursors (x : gmap Z CursorObject) (k : Worker) : Worker :=
  {| limits := limits k; connection_id := connection_id k; exact_transaction_state := exact_transaction_state k;
     server_output_supported := server_output_supported k; server_output := server_output k; connected := connected k;
     cursors := x; lobs := lobs k; torn := torn k; next_serial := next_serial k |}.
Definition set_parked (x : gmap Z ParkedLob) (k : Worker) : Worker :=
  {| limits := limits k; connection_id := connection_id k; exact_transaction_state := exact_transaction_state k;
     server_output_supported := server_output_supported k; server_output := server_output k; connected := connected k;
     cursors := cursors k; lobs := x; torn := torn k; next_serial := next_serial k |}.
Definition set_torn (k : Worker) : Worker :=
  {| limits := limits k; connection_id := connection_id k; exact_transaction_state := exact_transaction_state k;
     server_output_supported := server_output_supported k; server_output := server_output k; connected := connected k;
     cursors := cursors k; lobs := lobs k; torn := true; next_serial := next_serial k |}.
Definition set_next_serial (x : Z) (k : Worker) : Worker :=
  {| limits := limits k; connection_id := connection_id k; exact_transaction_state := exact_transaction_state k;
     server_output_supported := server_output_supported k; server_output := server_output k; connected := connected k;
     cursors := cursors k; lobs := lobs k; torn := torn k; next_serial := x |}.

(** ** The monad *)

Definition M (A : Type) : Type := World -> run (A * World).
Definition ret {A} (a : A) : M A := fun w => Ret (a, w).
Definition bind {A B} (m : M A) (k : A -> M B) : M B := fun w => let! (a, w') := m w in k a w'.
Definition gets {A} (f : World -> A) : M A := fun w => Ret (f w, w).
Definition modify (f : World -> World) : M unit := fun w => Ret (tt, f w).
Definition modify_sess (f : Sess -> Sess) : M unit := modify (fun w => set_sess (f (sess w)) w).
Definition modify_shared (f : SessionShared -> SessionShared) : M unit := modify_sess (on_shared f).
Definition modify_worker (f : Worker -> Worker) : M unit := modify (fun w => set_worker (f (worker w)) w).
Definition get_shared {A} (f : SessionShared -> A) : M A := gets (fun w => f (shared (sess w))).
Definition lift_sess (f : Sess -> run Sess) : M unit :=
  fun w => let! x := f (sess w) in Ret (tt, set_sess x w).

(** What other threads did to the shared state. *)
Definition meanwhile (s : SessionShared) (o : Outside) : SessionShared :=
  match o with
  | AbandonRequested => request_abandon s
  | CancelFailed e => note_error e s
  end.

Definition panic_to_error (payload : option str) : DbError :=
  with_session_state (internal (DriverPanicked payload)) Lost.

(** [call]: a panic marks the connection torn and becomes an error that says the
    session is lost. *)
Definition call {A} (c : DriverCall) (op : D -> D * Called A) : M (result A DbError) := fun w =>
  let '(d, out) := op (driver w) in
  let w1 := {| sess := on_shared (fun s => fold_left meanwhile (outside d) s) (sess w); worker := worker w;
               driver := d; calls := calls w ++ [c]; completions := completions w |} in
  match out with
  | Returned r => Ret (r, w1)
  | Panicked p => Ret (Err (panic_to_error p), set_worker (set_torn (worker w1)) w1)
  end.
End world.

Declare Scope session_scope.
Delimit Scope session_scope with session.
Notation "'do' x <- m ; k" := (bind m (fun x => k))
  (at level 200, x pattern, m at level 100, k at level 200, format "'do'  x  <-  m ;  '//' k") : session_scope.
Notation "m ;; k" := (bind m (fun _ => k)) (at level 100, k at level 200, right associativity) : session_scope.
Open Scope session_scope.
