(* ===== verification/Reply.v ===== *)
(** * Where an answer goes (db-core/src/reply.rs)

    A request carries the place its answer goes to: a one-shot channel for a
    caller that waits, or the session's event queue.  An answer consumes it; one
    that is dropped unanswered emits the failure it owes. *)

From stdpp Require Import gmap.
From S2P Require Import Prelude RustStr Errors Columns Segment Policy ResultStore Events EventQueue SessionShared SessionWorld.
Open Scope Z_scope.
Open Scope run_scope.
Open Scope session_scope.

(** [listening]: whether the caller still holds its end when the answer is
    sent. *)
Inductive Channel :=
| OneShot (id : Z) (listening : bool)
| ByEvent (session : SessionId) (request : RequestId).

Class ReplyPayload {DO : DriverObjects} (T : Type) := {
  Subject : Type;
  into_event : SessionId -> RequestId -> Subject -> result T DbError -> SessionEvent;
}.

Record OpenedSession := mkOpened {
  opened_connection : ConnectionId;
  opened_cancel_kind : CancelKind;
  opened_warnings : list Warning;
}.

Section payloads.
Context {DO : DriverObjects}.

#[global] Instance opened_payload : ReplyPayload OpenedSession :=
  {| Subject := unit;
     into_event s r _ v :=
       match v with
       | Ok o => Opened s r (opened_connection o) (opened_cancel_kind o) (opened_warnings o)
       | Err e => OpenFailed s r e
       end |}.
#[global] Instance execute_payload : ReplyPayload ExecuteReply :=
  {| Subject := unit; into_event s r _ v := Executed s r v |}.
#[global] Instance batch_payload : ReplyPayload FetchedBatch :=
  {| Subject := ResultId; into_event s r res v := FetchedRows s r res v |}.
#[global] Instance segment_payload : ReplyPayload SegmentReply :=
  {| Subject := FetchTicket; into_event s r t v := FetchedSegment s r t v |}.
#[global] Instance bytes_payload : ReplyPayload (list Z) :=
  {| Subject := LobHandle; into_event s r h v := LobChunk s r h v |}.
#[global] Instance output_payload : ReplyPayload ServerOutputSetting :=
  {| Subject := unit; into_event s r _ v := ServerOutputConfigured s r v |}.
#[global] Instance unit_payload : ReplyPayload unit :=
  {| Subject := CompletedOperation; into_event s r op v := Completed s r op v |}.
End payloads.

Record ReplyTo {DO : DriverObjects} (T : Type) {P : ReplyPayload T} := mkReplyTo { channel : Channel; subject : Subject }.
Arguments mkReplyTo {DO T P} _ _.
Arguments channel {DO T P} _.
Arguments subject {DO T P} _.

Definition CloseReplyTo := Channel.

Definition channel_request (c : Channel) : option RequestId :=
  match c with ByEvent _ r => Some r | OneShot _ _ => None end.

Section replies.
Context {DO : DriverObjects} {DR : Driver}.

Definition reply_request {T} `{!ReplyPayload T} (r : ReplyTo T) : option RequestId := channel_request (channel r).

(** [Sender::send]: whether the caller was still there. *)
Definition send_one_shot (id : Z) (listening : bool) (e : SessionEvent) : M bool :=
  modify (fun w =>
    {| sess := sess w; worker := worker w; driver := driver w; calls := calls w;
       completions := if listening then completions w ++ [(id, e)] else completions w |});;
  ret listening.

Definition answer {T} `{!ReplyPayload T} (r : ReplyTo T) (v : result T DbError) : M bool :=
  match channel r with
  | OneShot id listening => send_one_shot id listening (into_event 0 0 (subject r) v)
  | ByEvent s q => lift_sess (emit_reply (into_event s q (subject r) v));; ret true
  end.

(** [Drop for ReplyTo]. *)
Definition drop_reply {T} `{!ReplyPayload T} (r : ReplyTo T) : M unit :=
  match channel r with
  | OneShot _ _ => ret tt
  | ByEvent s q =>
      do e <- get_shared terminal_error;
      lift_sess (emit_reply (into_event s q (subject r) (Err e)))
  end.

Definition close_answer (r : CloseReplyTo) (v : result unit CloseError) : M bool :=
  match r with
  | OneShot id listening => send_one_shot id listening (SessionClosed 0 0 v)
  | ByEvent s q => lift_sess (emit_reply (SessionClosed s q v));; ret true
  end.

(** The answer a close owes when its command never ran. *)
Definition unrun_close (s : SessionShared) : result unit CloseError :=
  match settled_close s with
  | Some (Ok _) => Ok tt
  | Some (Err e) => Err (CloseFailed e)
  | None => Err (CloseFailed (terminal_error s))
  end.

(** [Drop for CloseReplyTo]. *)
Definition drop_close_reply (r : CloseReplyTo) : M unit :=
  match r with
  | OneShot _ _ => ret tt
  | ByEvent s q =>
      do v <- get_shared unrun_close;
      lift_sess (emit_reply (SessionClosed s q v))
  end.
End replies.
