(* ===== verification/Worker.v ===== *)
(** * The session's worker (db-core/src/worker.rs)

    One thread owns a session's connection, its cursors and its large objects,
    and runs its commands in the order they were sent.  Every operation is a
    definition in the monad [M]; a command's reply is part of it.

    The command channel is the list of commands waiting in it.  A dispatch is
    one step; what other threads do meanwhile reaches it through the driver's
    calls ([outside]). *)

From stdpp Require Import gmap.
From S2P Require Import Prelude RustStr Errors Columns Segment Policy ResultStore Events EventQueue SessionShared SessionWorld Reply.
Open Scope Z_scope.
Open Scope run_scope.
Open Scope session_scope.

Inductive CloseIntent := Explicit (d : option CloseDisposition) | Abandon.

Inductive Flow := Continue | Exit.

Section worker.
Context {DO : DriverObjects} {DR : Driver} `{Layout}.

Inductive Command :=
| CExecute (st : Statement) (reply : ReplyTo ExecuteReply)
| CFetchBatch (r : ResultId) (max_rows : Z) (reply : ReplyTo FetchedBatch)
| CFetchSegment (t : FetchTicket) (max_rows : Z) (reply : ReplyTo SegmentReply)
| CCloseResult (r : ResultId) (reply : ReplyTo unit)
| CCommit (reply : ReplyTo unit)
| CRollback (reply : ReplyTo unit)
| CSavepoint (name : SavepointName) (reply : ReplyTo unit)
| CRollbackToSavepoint (name : SavepointName) (reply : ReplyTo unit)
| CPing (reply : ReplyTo unit)
| CReadLobChunk (lob : LobHandle) (max_bytes : Z) (reply : ReplyTo (list Z))
| CCloseLob (lob : LobHandle) (reply : ReplyTo unit)
| CSetServerOutput (setting : ServerOutputSetting) (reply : ReplyTo ServerOutputSetting)
| CClose (intent : CloseIntent) (reply : CloseReplyTo).

Definition is_close (c : Command) : bool := match c with CClose _ _ => true | _ => false end.

Definition command_channel (c : Command) : Channel :=
  match c with
  | CExecute _ r => channel r
  | CFetchBatch _ _ r => channel r
  | CFetchSegment _ _ r => channel r
  | CCloseResult _ r | CCommit r | CRollback r | CSavepoint _ r | CRollbackToSavepoint _ r | CPing r | CCloseLob _ r =>
      channel r
  | CReadLobChunk _ _ r => channel r
  | CSetServerOutput _ r => channel r
  | CClose _ r => r
  end.

(** [Command::fail]. *)
Definition fail (c : Command) (e : DbError) : M unit :=
  do _ <- match c with
          | CExecute _ r => answer r (Err e)
          | CFetchBatch _ _ r => answer r (Err e)
          | CFetchSegment _ _ r => answer r (Err e)
          | CCloseResult _ r | CCommit r | CRollback r | CSavepoint _ r | CRollbackToSavepoint _ r | CPing r
          | CCloseLob _ r => answer r (Err e)
          | CReadLobChunk _ _ r => answer r (Err e)
          | CSetServerOutput _ r => answer r (Err e)
          | CClose _ r => close_answer r (Err (CloseFailed e))
          end;
  ret tt.

(** A command dropped with its channel: its reply says what it owes. *)
Definition drop_command (c : Command) : M unit :=
  match c with
  | CExecute _ r => drop_reply r
  | CFetchBatch _ _ r => drop_reply r
  | CFetchSegment _ _ r => drop_reply r
  | CCloseResult _ r | CCommit r | CRollback r | CSavepoint _ r | CRollbackToSavepoint _ r | CPing r | CCloseLob _ r =>
      drop_reply r
  | CReadLobChunk _ _ r => drop_reply r
  | CSetServerOutput _ r => drop_reply r
  | CClose _ r => drop_close_reply r
  end.

Fixpoint drop_commands (cs : list Command) : M unit :=
  match cs with
  | [] => ret tt
  | c :: rest => drop_command c;; drop_commands rest
  end.

(** ** The connection *)

Definition with_connection {A} (c : DriverCall) (op : D -> D * Called A) : M (option (result A DbError)) :=
  do up <- gets (fun w => connected (worker w));
  if up then do r <- call c op; ret (Some r) else ret None.

Definition transaction_state : M TransactionState :=
  gets (fun w => if connected (worker w) then transaction_state_of (driver w) else Unknown).

Definition err_of {A} (r : result A DbError) : option DbError :=
  match r with Ok _ => None | Err e => Some e end.

Definition note_transaction_state_after (error : option DbError) : M unit :=
  do state <- match error with
              | Some e => match session_state e with Lost => ret Unknown | _ => transaction_state end
              | None => transaction_state
              end;
  modify_sess (note_driver_transaction_state state).

Definition note_err {A} (r : result A DbError) : M unit :=
  match r with Ok _ => ret tt | Err e => modify_shared (note_error e) end.

Definition answer_lost {T} `{!ReplyPayload T} (reply : ReplyTo T) : M Flow :=
  do e <- get_shared terminal_error;
  do _ <- answer reply (Err e);
  ret Continue.

Definition answered {T} `{!ReplyPayload T} (reply : ReplyTo T) (v : result T DbError) : M Flow :=
  do _ <- answer reply v;
  ret Continue.

(** [close_connection]: a torn connection is dropped, not closed. *)
Definition close_connection : M (result unit DbError) :=
  do up <- gets (fun w => connected (worker w));
  if negb up then ret (Ok tt)
  else
    modify_worker (set_connected false);;
    do t <- gets (fun w => torn (worker w));
    if t then ret (Ok tt) else call CallClose drv_close.

Definition discard_connection : M unit := do _ <- close_connection; ret tt.

(** ** Handles *)

Definition close_cursor (c : CursorObject) : M (result unit DbError) :=
  do t <- gets (fun w => torn (worker w));
  if t then ret (Ok tt) else call (CallCursorClose (cursor_id c)) (cursor_close c).

Definition close_result (id : Z) : M (result unit DbError) :=
  modify_worker (fun k => set_parked (filter (fun p => parked_result p.2 <> Some id) (lobs k)) k);;
  do c <- gets (fun w => cursors (worker w) !! id);
  match c with
  | None => ret (Ok tt)
  | Some c => modify_worker (fun k => set_cursors (delete id (cursors k)) k);; close_cursor c
  end.

Fixpoint release_registered (ids : list Z) : M unit :=
  match ids with
  | [] => ret tt
  | id :: rest => do _ <- close_result id; release_registered rest
  end.

Fixpoint close_cursors (cs : list CursorObject) : M unit :=
  match cs with
  | [] => ret tt
  | c :: rest => do _ <- close_cursor c; close_cursors rest
  end.

Definition release_results : M unit :=
  do open <- gets (fun w => cursors (worker w));
  modify_worker (fun k => set_cursors ∅ (set_parked ∅ k));;
  close_cursors (map snd (map_to_list open)).

Definition owned_result (r : ResultId) : M (result Z DbError) :=
  do s <- get_shared session;
  ret (if owner r =? s then Ok (result_set r) else Err (internal (ForeignResult (owner r) (result_set r)))).

Definition owned_lob (h : LobHandle) : M (result Z DbError) :=
  do s <- get_shared session;
  ret (if lob_session h =? s then Ok (serial h) else Err (internal (ForeignLob (lob_session h) (serial h)))).

Definition unknown_result_error : M DbError :=
  get_shared (fun s => if is_lost s then terminal_error s
                       else internal (Text (lit "reldex-db-core: unknown, closed or invalidated result handle"))).

Definition register_cursor (c : CursorObject) : M (result ResultId DbError) :=
  do k <- gets worker;
  if negb (cursor_connection c =? connection_id k) then
    do _ <- call (CallCursorClose (cursor_id c)) (cursor_close c);
    ret (Err (internal (ForeignCursor (cursor_connection c) (connection_id k))))
  else if max_open_results (limits k) <=? Z.of_nat (base.size (cursors k)) then
    do _ <- call (CallCursorClose (cursor_id c)) (cursor_close c);
    ret (Err (error_new Resource (OpenResultsLimit (max_open_results (limits k)))))
  else
    modify_worker (fun k => set_cursors (<[cursor_id c := c]> (cursors k)) k);;
    do s <- get_shared session;
    ret (Ok {| owner := s; result_set := cursor_id c |}).

(** [park_lob], as a function on the world: the segment compaction calls it. *)
Definition park_lob (res : option Z) (l : Locator) (w : World) : World * result LobHandle DbError :=
  let k := worker w in
  if negb (locator_connection l =? connection_id k) then
    (w, Err (internal (ForeignLocator (locator_connection l) (connection_id k))))
  else
    let n := next_serial k in
    (set_worker (set_next_serial (n + 1) (set_parked (<[n := mkParked res l]> (lobs k)) k)) w,
     Ok {| lob_session := session (shared (sess w)); serial := n |}).

Definition park (res : option Z) (l : Locator) : M (result LobHandle DbError) := fun w =>
  let '(w', r) := park_lob res l w in Ret (r, w').

(** ** Server output *)

Definition deliver_server_output (request : option RequestId) (lines : list str) (invalid : Z)
    (failure : option DbError) : M unit :=
  match request with
  | Some _ =>
      do s <- get_shared session;
      modify_sess (emit (ServerOutput s lines 0 failure invalid))
  | None => modify_shared (collect_server_output lines invalid failure)
  end.

Fixpoint drain_loop (fuel : nat) (request : option RequestId) : M unit :=
  match fuel with
  | O => fun _ => OutOfFuel
  | S fuel =>
      do stop <- get_shared (fun s => negb (bool_decide (lifecycle (state s) = LUsable)) || abandon_requested s);
      if stop then ret tt
      else
        do lim <- gets (fun w => limits (worker w));
        do outcome <- with_connection CallTakeOutput
                        (drv_take_server_output (server_output_chunk_lines lim) (server_output_chunk_bytes lim));
        match outcome with
        | None => ret tt
        | Some (Ok chunk) =>
            (if chunk_is_empty chunk then ret tt
             else deliver_server_output request (chunk_lines chunk) (invalid_utf8_lines chunk) None);;
            if drained chunk || chunk_is_empty chunk then ret tt else drain_loop fuel request
        | Some (Err e) =>
            modify_shared (note_error e);;
            note_transaction_state_after (Some e);;
            deliver_server_output request [] 0 (Some e)
        end
  end.

(** One turn per read, and the server's buffer bounds the reads. *)
Definition drain_server_output (request : option RequestId) : M unit :=
  do k <- gets worker;
  if negb (is_enabled (server_output k)) then ret tt
  else
    do fuel <- gets (fun w => S (output_left (driver w)));
    drain_loop fuel request.

Definition set_server_output (setting : ServerOutputSetting) (reply : ReplyTo ServerOutputSetting) : M Flow :=
  do k <- gets worker;
  if negb (server_output_supported k) then answered reply (Err (unsupported (lit "server output")))
  else
    do outcome <- with_connection CallSetOutput (drv_set_server_output setting);
    match outcome with
    | None => answer_lost reply
    | Some r =>
        match r with
        | Ok effective => modify_worker (set_server_output_setting effective)
        | Err e => modify_shared (note_error e);; note_transaction_state_after (Some e)
        end;;
        answered reply r
    end.

(** ** Execute *)

Definition adopt_out_value (v : Value) (registered : list Z) : M (result OutValue DbError * list Z) :=
  match v with
  | OCursor c =>
      do r <- register_cursor c;
      match r with
      | Ok id => ret (Ok (OutResult id), registered ++ [result_set id])
      | Err e => ret (Err e, registered)
      end
  | OLob l =>
      do r <- park None l;
      match r with
      | Ok h => ret (Ok (OutLob h), registered)
      | Err e => ret (Err e, registered)
      end
  | _ => ret (Ok (OutPlain v), registered)
  end.

Fixpoint adopt_positional (vs : list (option Value)) (registered : list Z)
    : M (result (list (option OutValue)) DbError * list Z) :=
  match vs with
  | [] => ret (Ok [], registered)
  | None :: rest =>
      do (r, registered) <- adopt_positional rest registered;
      ret (result_bind r (fun out => Ok (None :: out)), registered)
  | Some v :: rest =>
      do (o, registered) <- adopt_out_value v registered;
      match o with
      | Err e => ret (Err e, registered)
      | Ok o =>
          do (r, registered) <- adopt_positional rest registered;
          ret (result_bind r (fun out => Ok (Some o :: out)), registered)
      end
  end.

Fixpoint adopt_named (vs : list (str * Value)) (registered : list Z)
    : M (result (list (str * OutValue)) DbError * list Z) :=
  match vs with
  | [] => ret (Ok [], registered)
  | (name, v) :: rest =>
      do (o, registered) <- adopt_out_value v registered;
      match o with
      | Err e => ret (Err e, registered)
      | Ok o =>
          do (r, registered) <- adopt_named rest registered;
          ret (result_bind r (fun out => Ok ((name, o) :: out)), registered)
      end
  end.

Definition take_out_values (o : ExecutionOutcome) (registered : list Z) : M (result OutValues DbError * list Z) :=
  match ex_out_values o with
  | DNone => ret (Ok OutNone, registered)
  | DPositional vs =>
      do (r, registered) <- adopt_positional vs registered;
      ret (result_bind r (fun out => Ok (OutPositional out)), registered)
  | DNamed vs =>
      do (r, registered) <- adopt_named vs registered;
      ret (result_bind r (fun out => Ok (OutNamed out)), registered)
  end.

(** The cursor of an outcome, registered, with its columns; a cursor that
    cannot say them has none. *)
Definition take_result (o : ExecutionOutcome)
    : M (result (option ResultId * list ColumnMetadata * list Z) DbError) :=
  match ex_cursor o with
  | None => ret (Ok (None, [], []))
  | Some c =>
      do r <- register_cursor c;
      match r with
      | Err e => ret (Err e)
      | Ok id =>
          do open <- gets (fun w => cursors (worker w) !! result_set id);
          match open with
          | Some c =>
              do cols <- call (CallColumns (cursor_id c)) (cursor_columns c);
              ret (Ok (Some id, match cols with Ok l => l | Err _ => [] end, [result_set id]))
          | None => ret (Ok (Some id, [], [result_set id]))
          end
      end
  end.

Definition finish_execute (outcome : result ExecutionOutcome DbError) : M (result (ExecuteReply * list Z) DbError) :=
  match outcome with
  | Err e =>
      modify_shared (note_error e);;
      note_transaction_state_after (Some e);;
      ret (Err e)
  | Ok o =>
      let kind := ex_kind o in
      let implicit := commits_implicitly kind in
      (if implicit then modify_sess note_commit_or_rollback;; release_results
       else if bool_decide (kind = TransactionControl) then release_results
       else ret tt);;
      do r <- take_result o;
      match r with
      | Err e => modify_shared (note_error e);; ret (Err e)
      | Ok (res, columns, registered) =>
          do (out, registered) <- take_out_values o registered;
          match out with
          | Err e =>
              release_registered registered;;
              modify_shared (note_error e);;
              ret (Err e)
          | Ok out =>
              do driver_state <- transaction_state;
              do exact <- gets (fun w => exact_transaction_state (worker w));
              modify_sess (if implicit then note_driver_transaction_state driver_state
                           else note_statement kind driver_state exact);;
              ret (Ok ({| reply_outcome := {| outcome_result := res; outcome_columns := columns;
                                              statement_kind := kind; committed_implicitly := implicit |};
                          rows_affected := ex_rows_affected o; reply_warnings := ex_warnings o;
                          out_values := out |}, registered))
          end
      end
  end.

Definition execute (st : Statement) (reply : ReplyTo ExecuteReply) : M Flow :=
  do s <- get_shared session;
  match reply_request reply with
  | Some q => modify_sess (emit (Executing s q (statement_deadline st)))
  | None => ret tt
  end;;
  do outcome <- with_connection CallExecute (drv_execute st);
  match outcome with
  | None => answer_lost reply
  | Some outcome =>
      do result <- finish_execute outcome;
      drain_server_output (reply_request reply);;
      match result with
      | Ok (value, registered) =>
          do heard <- answer reply (Ok value);
          (if heard then ret tt else release_registered registered);;
          ret Continue
      | Err e => answered reply (Err e)
      end
  end.

(** ** Fetch *)

Definition remove_lobs (hs : list LobHandle) : M unit :=
  modify_worker (fun k => set_parked (foldl (fun m h => delete (serial h) m) (lobs k) hs) k).

(** The rows of one column: each locator taken out and parked. *)
Fixpoint park_column (res : Z) (index row n : nat) (c : Column Locator)
    : M (result (Column Locator * list (nat * nat * LobHandle)) DbError) :=
  match n with
  | O => ret (Ok (c, []))
  | S n =>
      match take_lob c row with
      | (None, c) => park_column res index (S row) n c
      | (Some l, c) =>
          do h <- park (Some res) l;
          match h with
          | Err e => ret (Err e)
          | Ok h =>
              do r <- park_column res index (S row) n c;
              ret (result_bind r (fun '(c, lobs) => Ok (c, (row, index, h) :: lobs)))
          end
      end
  end.

Fixpoint park_columns (res : Z) (index : nat) (cs : list (Column Locator))
    : M (result (list (Column Locator) * list (nat * nat * LobHandle)) DbError) :=
  match cs with
  | [] => ret (Ok ([], []))
  | c :: rest =>
      do r <- (match data_kind (data c) with
               | KLob => park_column res index 0 (column_len c) c
               | _ => ret (Ok (c, []))
               end);
      match r with
      | Err e => ret (Err e)
      | Ok (c, found) =>
          do r <- park_columns res (S index) rest;
          ret (result_bind r (fun '(cs, lobs) => Ok (c :: cs, found ++ lobs)))
      end
  end.

Definition park_batch_lobs (res : Z) (b : RowBatch Locator) : M (result FetchedBatch DbError) :=
  do r <- park_columns res 0 (columns b);
  ret (result_bind r (fun '(cs, lobs) =>
    Ok {| fetched_batch := {| columns := cs; row_count := row_count b |}; fetched_lobs := lobs |})).

Definition fetch_batch (r : ResultId) (max_rows : Z) (reply : ReplyTo FetchedBatch) : M Flow :=
  do id <- owned_result r;
  match id with
  | Err e => answered reply (Err e)
  | Ok id =>
      do c <- gets (fun w => cursors (worker w) !! id);
      match c with
      | None => do e <- unknown_result_error; answered reply (Err e)
      | Some c =>
          do outcome <- call (CallFetch id) (cursor_fetch c max_rows);
          match outcome with
          | Ok b =>
              do fetched <- park_batch_lobs id b;
              match fetched with
              | Err e => modify_shared (note_error e);; answered reply (Err e)
              | Ok f =>
                  do heard <- answer reply (Ok f);
                  (if heard then ret tt else remove_lobs (map snd (fetched_lobs f)));;
                  ret Continue
              end
          | Err e =>
              modify_shared (note_error e);;
              do _ <- close_result id;
              answered reply (Err e)
          end
      end
  end.

(** One guarded call: the fetch, and whether it reached the end. *)
Definition fetch_with_end (c : CursorObject) (max_rows : Z) (d : D) : D * Called (RowBatch Locator * bool) :=
  match cursor_fetch c max_rows d with
  | (d, Returned (Ok b)) => (d, Returned (Ok (b, cursor_is_exhausted c d)))
  | (d, Returned (Err e)) => (d, Returned (Err e))
  | (d, Panicked p) => (d, Panicked p)
  end.

(** [compact_batch] with the closure that parks each locator. *)
Definition compact_parking (id : Z) (b : RowBatch Locator) : M (result ResultSegment DbError * list LobHandle) :=
  fun w =>
    let step '(w, parked) (_ : nat) l :=
      match park_lob (Some id) l w with
      | (w, Ok h) => ((w, parked ++ [h]), Ok (serial h))
      | (w, Err e) => ((w, parked), Err e)
      end in
    let '((w, parked), r) := compact_batch step (session (shared (sess w))) (w, []) b in
    Ret ((r, parked), w).

Definition fetch_segment (t : FetchTicket) (max_rows : Z) (reply : ReplyTo SegmentReply) : M Flow :=
  do id <- owned_result (ticket_result t);
  match id with
  | Err e => answered reply (Err e)
  | Ok id =>
      do c <- gets (fun w => cursors (worker w) !! id);
      match c with
      | None => do e <- unknown_result_error; answered reply (Err e)
      | Some c =>
          do outcome <- call (CallFetch id) (fetch_with_end c max_rows);
          match outcome with
          | Err e =>
              modify_shared (note_error e);;
              do _ <- close_result id;
              answered reply (Err e)
          | Ok (b, known) =>
              let exhausted := known || (row_count b =? 0)%nat in
              do (compacted, parked) <- compact_parking id b;
              match compacted with
              | Ok seg =>
                  do heard <- answer reply (Ok {| segment := seg; reply_exhausted := exhausted |});
                  (if heard then ret tt else remove_lobs parked);;
                  ret Continue
              | Err e =>
                  modify_shared (note_error e);;
                  do _ <- close_result id;
                  answered reply (Err e)
              end
          end
      end
  end.

(** A buffer of [capacity] zeros with [written] at its front. *)
Definition fill (capacity : Z) (written : list Z) : list Z :=
  take (Z.to_nat capacity) (written ++ replicate (Z.to_nat capacity) 0).

Definition read_lob_chunk (lob : LobHandle) (max_bytes : Z) (reply : ReplyTo (list Z)) : M Flow :=
  do h <- owned_lob lob;
  match h with
  | Err e => answered reply (Err e)
  | Ok n =>
      do capacity <- gets (fun w => Z.min max_bytes (max_lob_chunk_bytes (limits (worker w))));
      do parked <- gets (fun w => lobs (worker w) !! n);
      match parked with
      | None => answered reply (Err (internal (ClosedLob (lob_session lob) n)))
      | Some p =>
          do outcome <- call (CallReadChunk n) (locator_read (locator p) capacity);
          match outcome with
          | Ok (written, read) => answered reply (Ok (take (Z.to_nat read) (fill capacity written)))
          | Err e =>
              modify_shared (note_error e);;
              modify_worker (fun k => set_parked (delete n (lobs k)) k);;
              answered reply (Err e)
          end
      end
  end.

(** ** Transactions *)

Definition dispose (d : CloseDisposition) : DriverCall * (D -> D * Called unit) :=
  match d with CommitFirst => (CallCommit, drv_commit) | RollbackFirst => (CallRollback, drv_rollback) end.

Definition resolve_transaction (d : CloseDisposition) (reply : ReplyTo unit) : M Flow :=
  do outcome <- with_connection (dispose d).1 (dispose d).2;
  match outcome with
  | None => answer_lost reply
  | Some r =>
      match r with
      | Ok _ => modify_sess note_commit_or_rollback;; release_results
      | Err e => modify_shared (note_error e)
      end;;
      note_transaction_state_after (err_of r);;
      answered reply r
  end.

Definition savepoint (name : SavepointName) (reply : ReplyTo unit) : M Flow :=
  do outcome <- with_connection CallSavepoint (drv_savepoint name);
  match outcome with
  | None => answer_lost reply
  | Some r => note_err r;; answered reply r
  end.

Definition rollback_to_savepoint (name : SavepointName) (reply : ReplyTo unit) : M Flow :=
  do outcome <- with_connection CallRollbackTo (drv_rollback_to_savepoint name);
  match outcome with
  | None => answer_lost reply
  | Some r =>
      match r with
      | Ok _ => release_results
      | Err e => modify_shared (note_error e)
      end;;
      note_transaction_state_after (err_of r);;
      answered reply r
  end.

Definition ping (reply : ReplyTo unit) : M Flow :=
  do outcome <- with_connection CallPing drv_ping;
  match outcome with
  | None => answer_lost reply
  | Some r =>
      match r with
      | Ok _ => modify_shared mark_validated
      | Err e => modify_shared (note_error e)
      end;;
      answered reply r
  end.

(** [Worker::close]. *)
Definition close (intent : CloseIntent) (reply : CloseReplyTo) : M Flow :=
  do up <- gets (fun w => connected (worker w));
  if negb up then
    do e <- get_shared lost_transaction_error;
    release_results;;
    modify_shared mark_closed;;
    modify_shared (mark_ended Unresolved);;
    do _ <- close_answer reply (Err (CloseFailed e));
    ret Exit
  else
    do active <- get_shared has_possibly_active_transaction;
    let undecided := match intent with Explicit None => active | _ => false end in
    if undecided then
      do _ <- close_answer reply (Err DecisionRequired);
      ret Continue
    else
      let disposition := match intent with Explicit d => d | Abandon => None end in
      do failed <- match disposition with
                   | None => ret None
                   | Some d =>
                       do outcome <- with_connection (dispose d).1 (dispose d).2;
                       match outcome with
                       | Some (Err e) =>
                           modify_shared (note_error e);;
                           ret (Some (match d with CommitFirst => CommitFailed e | RollbackFirst => RollbackFailed e end))
                       | _ =>
                           modify_sess note_commit_or_rollback;;
                           modify_shared mark_transaction_resolved_at_end;;
                           ret None
                       end
                   end;
      match failed with
      | Some e => do _ <- close_answer reply (Err e); ret Continue
      | None =>
          release_results;;
          do outcome <- close_connection;
          modify_shared mark_closed;;
          modify_shared (mark_ended (match intent with Explicit _ => Cleanly | Abandon => Unresolved end));;
          do _ <- close_answer reply (match outcome with Ok _ => Ok tt | Err e => Err (CloseFailed e) end);
          ret Exit
      end.

(** ** The loop *)

(** [Worker::run]. *)
Definition run_command (c : Command) : M Flow :=
  match c with
  | CExecute st r => execute st r
  | CFetchBatch res n r => fetch_batch res n r
  | CFetchSegment t n r => fetch_segment t n r
  | CCloseResult res r =>
      do id <- owned_result res;
      do outcome <- match id with Ok id => close_result id | Err e => ret (Err e) end;
      note_err outcome;;
      answered r outcome
  | CCommit r => resolve_transaction CommitFirst r
  | CRollback r => resolve_transaction RollbackFirst r
  | CSavepoint n r => savepoint n r
  | CRollbackToSavepoint n r => rollback_to_savepoint n r
  | CPing r => ping r
  | CReadLobChunk h n r => read_lob_chunk h n r
  | CCloseLob h r =>
      do o <- owned_lob h;
      match o with
      | Ok n => modify_worker (fun k => set_parked (delete n (lobs k)) k);; answered r (Ok tt)
      | Err e => answered r (Err e)
      end
  | CSetServerOutput x r => set_server_output x r
  | CClose i r => close i r
  end.

(** [while let Ok(command) = queued.try_recv()]: a close is run, and ends it. *)
Fixpoint fail_queued (queued : list Command) : M (option Flow * list Command) :=
  match queued with
  | [] => ret (None, [])
  | c :: rest =>
      if is_close c then
        do flow <- run_command c;
        match flow with
        | Exit => ret (Some Exit, rest)
        | Continue => fun _ => Panic
        end
      else
        do e <- get_shared terminal_error;
        fail c e;;
        fail_queued rest
  end.

Definition announce_terminal (flow : Flow) (queued : list Command) : M (Flow * list Command) :=
  do skip <- get_shared (fun s => terminal_emitted s || negb (lifecycle_is_terminal (lifecycle (state s))));
  match flow with
  | Exit => ret (Exit, queued)
  | Continue =>
      if skip then ret (Continue, queued)
      else
        do (closed, rest) <- fail_queued queued;
        match closed with
        | Some flow => ret (flow, rest)
        | None =>
            do lost <- get_shared transaction_lost_at_end;
            modify_sess (emit_terminal lost);;
            ret (Continue, rest)
        end
  end.

Definition dispatch_inner (c : Command) (queued : list Command) : M (Flow * list Command) :=
  do suspect <- get_shared needs_validation;
  (if suspect && negb (is_close c) then
     do p <- with_connection CallPing drv_ping;
     match p with
     | Some (Ok _) => modify_shared mark_validated
     | Some (Err e) => modify_shared (mark_lost_from e)
     | None => ret tt
     end
   else ret tt);;
  do dead <- get_shared is_lost;
  if suspect && negb (is_close c) && dead then
    discard_connection;;
    release_results;;
    do e <- get_shared terminal_error;
    fail c e;;
    announce_terminal Continue queued
  else
    do flow <- run_command c;
    do dead <- get_shared is_lost;
    (if dead then discard_connection;; release_results else ret tt);;
    announce_terminal flow queued.

Definition dispatch (c : Command) (queued : list Command) : M (Flow * list Command) :=
  modify_shared enter_driver_call;;
  do out <- dispatch_inner c queued;
  modify_shared leave_driver_call;;
  ret out.

(** The end of [worker_main]: what is queued is dropped, which answers it; then
    everything is released and the session ends. *)
Definition shutdown (queued : list Command) : M unit :=
  drop_commands queued;;
  release_results;;
  do _ <- close_connection;
  modify_shared mark_closed;;
  modify_shared (mark_ended Unresolved);;
  do lost <- get_shared transaction_lost_at_end;
  modify_sess (emit_terminal lost).
End worker.
