(* ===== verification/Session.v ===== *)
(** * A session and the registry that owns it (db-core/src/session.rs, registry.rs)

    The handle side: what a caller may ask of a session, and how the registry
    opens, abandons and retires one.  [System] is everything there is of one
    session: its [World], the worker thread, the commands waiting in its channel,
    the handles held, and the registry's entry for it.  The registry's map is
    seen at this session's key: every operation looks at one key, and dropping
    the registry does to each entry what [drop_registry] does to this one.

    A mutex or a channel makes each definition one step.  The worker handles one
    command per step ([work]); threads interleave between steps, and inside a
    driver call as [outside] says.  [accepted] is a history variable: the
    requests accepted, in order. *)

From stdpp Require Import gmap.
From S2P Require Import Prelude RustStr Errors Columns Segment Policy ResultStore Events EventQueue SessionShared SessionWorld Reply Worker.
Open Scope Z_scope.
Open Scope run_scope.
Open Scope session_scope.

(** What the thread of a session is doing. *)
Inductive Thread := Connecting | Running | Exited.
#[global] Instance Thread_eq_dec : EqDecision Thread.
Proof. solve_decision. Defined.

(** [RegisteredSession]. *)
Inductive RegisteredSession := RegOpening | RegOpen | RegEnding | RegEnded.

(** [Abandoned]. *)
Inductive Abandoned := AUnknown | AConnecting | AOpen (transaction_possibly_lost : bool) | AEnding.

Inductive CancelOutcome := Requested | NotInterruptible (remaining : option Duration).

(** Whether the session that just connected has an owner. *)
Inductive Adoption := Adopted | NotAdopted.

Section session.
Context {DO : DriverObjects} {DR : Driver} `{Layout}.

(** [Entry]: while connecting the registry holds the open's reply; afterwards a
    handle of the session. *)
Inductive Entry := EOpening (reply : ReplyTo OpenedSession) | EOpen | EEnding | EEnded.

Definition entry_state (e : Entry) : RegisteredSession :=
  match e with EOpening _ => RegOpening | EOpen => RegOpen | EEnding => RegEnding | EEnded => RegEnded end.

(** [Ready]; the cancel handle is the driver's. *)
Record Ready := mkReady {
  ready_cancel_kind : CancelKind;
  ready_connection : ConnectionId;
  ready_warnings : list Warning;
}.

(** [holders]: the clones of the handle that callers hold.  [joinable]: the
    thread has not been joined or detached.  [ready]: what [assemble] kept. *)
Record System := mkSystem {
  world : World;
  thread : Thread;
  waiting : list Command;
  entry : option Entry;
  holders : nat;
  joinable : bool;
  ready : option Ready;
  session_limits : SessionLimits;
  accepted : list RequestId;
}.

Definition set_world (w : World) (s : System) : System :=
  {| world := w; thread := thread s; waiting := waiting s; entry := entry s; holders := holders s;
     joinable := joinable s; ready := ready s; session_limits := session_limits s; accepted := accepted s |}.
Definition set_waiting (cs : list Command) (s : System) : System :=
  {| world := world s; thread := thread s; waiting := cs; entry := entry s; holders := holders s;
     joinable := joinable s; ready := ready s; session_limits := session_limits s; accepted := accepted s |}.
Definition set_thread (t : Thread) (s : System) : System :=
  {| world := world s; thread := t; waiting := waiting s; entry := entry s; holders := holders s;
     joinable := joinable s; ready := ready s; session_limits := session_limits s; accepted := accepted s |}.
Definition set_entry (e : option Entry) (s : System) : System :=
  {| world := world s; thread := thread s; waiting := waiting s; entry := e; holders := holders s;
     joinable := joinable s; ready := ready s; session_limits := session_limits s; accepted := accepted s |}.
Definition set_holders (n : nat) (s : System) : System :=
  {| world := world s; thread := thread s; waiting := waiting s; entry := entry s; holders := n;
     joinable := joinable s; ready := ready s; session_limits := session_limits s; accepted := accepted s |}.
Definition set_joinable (b : bool) (s : System) : System :=
  {| world := world s; thread := thread s; waiting := waiting s; entry := entry s; holders := holders s;
     joinable := b; ready := ready s; session_limits := session_limits s; accepted := accepted s |}.
Definition set_ready (r : Ready) (s : System) : System :=
  {| world := world s; thread := thread s; waiting := waiting s; entry := entry s; holders := holders s;
     joinable := joinable s; ready := Some r; session_limits := session_limits s; accepted := accepted s |}.
Definition accept (q : RequestId) (s : System) : System :=
  {| world := world s; thread := thread s; waiting := waiting s; entry := entry s; holders := holders s;
     joinable := joinable s; ready := ready s; session_limits := session_limits s; accepted := accepted s ++ [q] |}.

(** An operation of the world, run in the system. *)
Definition in_world {A} (m : M A) (s : System) : run (A * System) :=
  let! (a, w) := m (world s) in Ret (a, set_world w s).

Definition the_shared (s : System) : SessionShared := shared (sess (world s)).

(** ** The handle *)

(** [DatabaseSession::send].  A command the channel refuses is dropped, which
    answers it. *)
Definition send (c : Command) (s : System) : run (bool * System) :=
  match thread s with
  | Exited => let! (_, s) := in_world (drop_command c) s in Ret (false, s)
  | _ => Ret (true, set_waiting (waiting s ++ [c]) s)
  end.

(** [submit]: the completion path; the caller waits on the one-shot channel. *)
Definition submit {T} `{!ReplyPayload T} (id : Z) (listening : bool) (subject : Subject) (make : ReplyTo T -> Command)
    (s : System) : run System :=
  let! (sent, s) := send (make (mkReplyTo (OneShot id listening) subject)) s in
  if sent then Ret s
  else
    let! (_, s) := in_world (send_one_shot id listening (into_event 0 0 subject (Err (terminal_error (the_shared s))))) s in
    Ret s.

Definition check_event_route (s : System) : result unit DbError :=
  if bound (the_shared s) then Ok tt
  else Err (internal (Text (lit "reldex-db-core: this session has no event queue; call DatabaseSession::bind_events before submitting"))).

(** What both event paths do first: refuse, or take a slot. *)
Definition take_slot (limit : Z) (request : RequestId) (s : System) : result System DbError :=
  match check_event_route s with
  | Err e => Err e
  | Ok _ =>
      match reserve_request limit (sess (world s)) with
      | Err e => Err e
      | Ok x => Ok (accept request (set_world (set_sess x (world s)) s))
      end
  end.

Definition submit_event {T} `{!ReplyPayload T} (request : RequestId) (subject : Subject) (make : ReplyTo T -> Command)
    (s : System) : run (result unit DbError * System) :=
  match take_slot (max_outstanding_requests (session_limits s)) request s with
  | Err e => Ret (Err e, s)
  | Ok s =>
      let! (_, s) := send (make (mkReplyTo (ByEvent (session (the_shared s)) request) subject)) s in
      Ret (Ok tt, s)
  end.

Definition submit_execute (q : RequestId) (st : Statement) := submit_event (T := ExecuteReply) q tt (CExecute st).
Definition submit_fetch (q : RequestId) (r : ResultId) (max_rows : Z) := submit_event (T := FetchedBatch) q r (CFetchBatch r max_rows).
Definition submit_fetch_segment (q : RequestId) (f : FetchRequest) :=
  submit_event (T := SegmentReply) q (ticket f) (CFetchSegment (ticket f) (request_rows f)).
Definition submit_commit (q : RequestId) := submit_event (T := unit) q Commit CCommit.
Definition submit_rollback (q : RequestId) := submit_event (T := unit) q Rollback CRollback.
Definition submit_savepoint (q : RequestId) (n : SavepointName) := submit_event (T := unit) q Savepoint (CSavepoint n).
Definition submit_rollback_to_savepoint (q : RequestId) (n : SavepointName) :=
  submit_event (T := unit) q RollbackToSavepoint (CRollbackToSavepoint n).
Definition submit_ping (q : RequestId) := submit_event (T := unit) q Ping CPing.
Definition submit_read_lob_chunk (q : RequestId) (h : LobHandle) (max_bytes : Z) :=
  submit_event (T := (list Z)) q h (CReadLobChunk h max_bytes).
Definition submit_close_result (q : RequestId) (r : ResultId) := submit_event (T := unit) q (CloseResultDone r) (CCloseResult r).
Definition submit_close_lob (q : RequestId) (h : LobHandle) := submit_event (T := unit) q (CloseLobDone h) (CCloseLob h).
Definition submit_set_server_output (q : RequestId) (x : ServerOutputSetting) := submit_event (T := ServerOutputSetting) q tt (CSetServerOutput x).

(** [submit_close]: one slot above the limit, and the answer at once when the
    session is known to have ended. *)
Definition submit_close (q : RequestId) (d : option CloseDisposition) (s : System) : run (result unit DbError * System) :=
  match take_slot (sat_add (max_outstanding_requests (session_limits s)) 1) q s with
  | Err e => Ret (Err e, s)
  | Ok s =>
      let reply := ByEvent (session (the_shared s)) q in
      match settled_close (the_shared s) with
      | Some settled =>
          let! (_, s) := in_world (close_answer reply (match settled with Ok _ => Ok tt | Err e => Err (CloseFailed e) end)) s in
          Ret (Ok tt, s)
      | None =>
          let! (_, s) := send (CClose (Explicit d) reply) s in
          Ret (Ok tt, s)
      end
  end.

(** The completion path's operations. *)
Definition execute_waiting (id : Z) (l : bool) (st : Statement) := submit (T := ExecuteReply) id l tt (CExecute st).
Definition set_server_output_waiting (id : Z) (l : bool) (x : ServerOutputSetting) := submit (T := ServerOutputSetting) id l tt (CSetServerOutput x).
Definition fetch_batch_waiting (id : Z) (l : bool) (r : ResultId) (max_rows : Z) := submit (T := FetchedBatch) id l r (CFetchBatch r max_rows).
Definition fetch_segment_waiting (id : Z) (l : bool) (f : FetchRequest) :=
  submit (T := SegmentReply) id l (ticket f) (CFetchSegment (ticket f) (request_rows f)).
Definition close_result_waiting (id : Z) (l : bool) (r : ResultId) := submit (T := unit) id l (CloseResultDone r) (CCloseResult r).
Definition commit_waiting (id : Z) (l : bool) := submit (T := unit) id l Commit CCommit.
Definition rollback_waiting (id : Z) (l : bool) := submit (T := unit) id l Rollback CRollback.
Definition savepoint_waiting (id : Z) (l : bool) (n : SavepointName) := submit (T := unit) id l Savepoint (CSavepoint n).
Definition rollback_to_savepoint_waiting (id : Z) (l : bool) (n : SavepointName) :=
  submit (T := unit) id l RollbackToSavepoint (CRollbackToSavepoint n).
Definition ping_waiting (id : Z) (l : bool) := submit (T := unit) id l Ping CPing.
Definition read_lob_chunk_waiting (id : Z) (l : bool) (h : LobHandle) (max_bytes : Z) :=
  submit (T := (list Z)) id l h (CReadLobChunk h max_bytes).
Definition close_lob_waiting (id : Z) (l : bool) (h : LobHandle) := submit (T := unit) id l (CloseLobDone h) (CCloseLob h).

Definition take_server_output (s : System) : ServerOutputLog * System :=
  let '(l, sh) := take_collected_server_output (the_shared s) in
  (l, set_world (set_sess (on_shared (fun _ => sh) (sess (world s))) (world s)) s).

Definition may_be_carrying_work (s : System) : bool :=
  has_possibly_active_transaction (the_shared s) || (0 <? shared_outstanding (sess (world s))) ||
  driver_call_in_flight (the_shared s).

(** [cancel]; [outcome] is what the driver's cancel handle answers if asked. *)
Definition cancel (outcome : result CancelOutcome DbError) (s : System) : result CancelOutcome DbError * System :=
  match ready s with
  | Some {| ready_cancel_kind := Native |} =>
      if negb (driver_call_in_flight (the_shared s)) then (Ok Requested, s)
      else
        match outcome with
        | Ok o => (Ok o, s)
        | Err e => (Err e, set_world (set_sess (on_shared (note_error e) (sess (world s))) (world s)) s)
        end
  | _ =>
      match outcome with
      | Ok o => (Ok o, s)
      | Err e => (Err e, set_world (set_sess (on_shared (note_error e) (sess (world s))) (world s)) s)
      end
  end.

(** [begin_abandon]: whether the abandon was delivered. *)
Definition begin_abandon (id : Z) (listening : bool) (outcome : result CancelOutcome DbError) (s : System)
    : run (bool * System) :=
  let s := set_world (set_sess (on_shared request_abandon (sess (world s))) (world s)) s in
  let s := if has_ended (the_shared s) then s else (cancel outcome s).2 in
  send (CClose Abandon (OneShot id listening)) s.

Definition abandon_now (id : Z) (outcome : result CancelOutcome DbError) (s : System) : run System :=
  let! (_, s) := begin_abandon id false outcome s in Ret s.

(** [finish_abandon]: joined or, past the deadline, detached. *)
Definition finish_abandon (s : System) : System := set_joinable false s.

(** [close], the part that asks: [None] while it waits for the answer. *)
Definition session_settled_close (s : System) : result unit CloseError := unrun_close (the_shared s).

Definition close_begin (id : Z) (d : option CloseDisposition) (s : System) : run (option (result unit CloseError) * System) :=
  if negb (joinable s) then Ret (Some (session_settled_close s), s)
  else
    let! (sent, s) := send (CClose (Explicit d) (OneShot id true)) s in
    if sent then Ret (None, s)
    else let s := set_joinable false s in Ret (Some (session_settled_close s), s).

(** What the worker sent to the close that waits on [id]. *)
Definition close_received (id : Z) (w : World) : option (result unit CloseError) :=
  match list_find (fun p => p.1 = id) (completions w) with
  | Some (_, (_, SessionClosed _ _ v)) => Some v
  | _ => None
  end.

(** [close], the part that gets its answer; the channel ends with the worker. *)
Definition close_end (id : Z) (s : System) : option (result unit CloseError) * System :=
  match close_received id (world s) with
  | Some (Err e) => if session_is_still_open e then (Some (Err e), s) else (Some (Err e), set_joinable false s)
  | Some v => (Some v, set_joinable false s)
  | None =>
      match thread s with
      | Exited => (Some (session_settled_close s), set_joinable false s)
      | _ => (None, s)
      end
  end.

(** [Drop for DatabaseSession]. *)
Definition drop_session (id : Z) (outcome : result CancelOutcome DbError) (s : System) : run System :=
  if negb (joinable s) then Ret s
  else
    let! (_, s) := begin_abandon id true outcome s in
    Ret (finish_abandon s).

(** A handle exists: the registry's or a caller's. *)
Definition registered (s : System) : bool :=
  match entry s with Some EOpen | Some EEnding => true | _ => false end.
Definition alive (s : System) : bool := registered s || (0 <? holders s)%nat.

(** ** The worker thread *)

Definition placeholder (l : SessionLimits) : Worker :=
  {| limits := l; connection_id := 0; exact_transaction_state := false; server_output_supported := false;
     server_output := Disabled; connected := false; cursors := ∅; lobs := ∅; torn := false; next_serial := 0 |}.

(** [worker_main] up to the report. *)
Definition connect : M (result Ready DbError) :=
  do c <- call CallConnect drv_connect;
  match c with
  | Err e => ret (Err e)
  | Ok _ =>
      do ws <- call CallWarnings drv_take_connect_warnings;
      match ws with
      | Err e => ret (Err e)
      | Ok ws =>
          do t <- gets (fun w => transaction_state_of (driver w));
          modify_shared (seed_driver_transaction_state t);;
          do d <- gets driver;
          ret (Ok {| ready_cancel_kind := cancel_kind_of d; ready_connection := connection_id_of d; ready_warnings := ws |})
      end
  end.

Definition new_worker (l : SessionLimits) (d : D) (t : bool) : Worker :=
  {| limits := l; connection_id := connection_id_of d; exact_transaction_state := exact_transaction_state_of d;
     server_output_supported := server_output_of d; server_output := Disabled; connected := true;
     cursors := ∅; lobs := ∅; torn := t; next_serial := 0 |}.

(** [Inner::complete_open]. *)
Definition complete_open (outcome : result Ready DbError) (s : System) : run (Adoption * System) :=
  match entry s with
  | Some (EOpening reply) =>
      match outcome with
      | Ok r =>
          let s := set_ready r (set_entry (Some EOpen) s) in
          let! (_, s) := in_world (answer reply (Ok {| opened_connection := ready_connection r;
            opened_cancel_kind := ready_cancel_kind r; opened_warnings := ready_warnings r |})) s in
          Ret (Adopted, s)
      | Err e =>
          let! (_, s) := in_world (modify_shared (mark_lost_from e);; do _ <- answer reply (Err e); modify_sess (emit_terminal false))
            (set_entry None s) in
          Ret (NotAdopted, s)
      end
  | Some EEnded => Ret (NotAdopted, set_entry None s)
  | _ => Ret (NotAdopted, s)
  end.

(** The thread from its start to its loop. *)
Definition start (s : System) : run System :=
  let! (outcome, s) := in_world connect s in
  let! (adoption, s) := complete_open outcome s in
  match adoption, outcome with
  | Adopted, _ =>
      Ret (set_thread Running
        (set_world (set_worker (new_worker (session_limits s) (driver (world s)) (torn (worker (world s)))) (world s)) s))
  | NotAdopted, Ok _ => let! (_, s) := in_world (call CallClose drv_close) s in Ret (set_thread Exited s)
  | NotAdopted, Err _ => Ret (set_thread Exited s)
  end.

(** One turn of the loop, and what follows the last. *)
Definition work (s : System) : run System :=
  match waiting s with
  | [] => Ret s
  | c :: cs =>
      let! (out, s) := in_world (dispatch c cs) s in
      match out with
      | (Continue, rest) => Ret (set_waiting rest s)
      | (Exit, rest) =>
          let! (_, s) := in_world (shutdown rest) s in
          Ret (set_thread Exited (set_waiting [] s))
      end
  end.

(** The channel has ended: no handle is left and nothing waits. *)
Definition hang_up (s : System) : run System :=
  let! (_, s) := in_world (shutdown []) s in
  Ret (set_thread Exited s).

(** ** The registry *)

(** [SessionRegistry::open], the thread spawned or not: [x] is the queue's side
    of a session that has taken no slot. *)
Definition open (sid : SessionId) (q : RequestId) (l : SessionLimits) (spawned : result unit DbError) (c : Chan) (d : D)
    : run System :=
  let x := {| shared := shared_new sid; chan := c; said := [] |} in
  match bind_events x with
  | Err _ => Panic
  | Ok x =>
      match reserve_request (max_outstanding_requests l) x with
      | Err _ => Panic
      | Ok x =>
          let reply := mkReplyTo (T := OpenedSession) (ByEvent sid q) tt in
          let w := {| sess := x; worker := placeholder l; driver := d; calls := []; completions := [] |} in
          let s e t := {| world := w; thread := t; waiting := []; entry := e; holders := 0; joinable := true;
                          ready := None; session_limits := l; accepted := [q] |} in
          match spawned with
          | Ok _ => Ret (s (Some (EOpening reply)) Connecting)
          | Err e =>
              let! (_, s) := in_world (modify_shared (mark_lost_from e);; do _ <- answer reply (Err e); modify_sess (emit_terminal false))
                (s None Exited) in
              Ret s
          end
      end
  end.

(** [SessionManager::open_session], which waits for the connection: a session
    outside any registry, with no queue bound. *)
Definition open_session (sid : SessionId) (l : SessionLimits) (spawned : result unit DbError) (c : Chan) (d : D)
    : run (result System DbError) :=
  match spawned with
  | Err e => Ret (Err e)
  | Ok _ =>
      let! (outcome, w) := connect
        {| sess := {| shared := shared_new sid; chan := c; said := [] |}; worker := placeholder l; driver := d;
           calls := []; completions := [] |} in
      match outcome with
      | Err e => Ret (Err e)
      | Ok r =>
          Ret (Ok {| world := set_worker (new_worker l (driver w) (torn (worker w))) w; thread := Running; waiting := [];
                     entry := None; holders := 1; joinable := true; ready := Some r; session_limits := l; accepted := [] |})
      end
  end.

Definition get (s : System) : option System :=
  match entry s with Some EOpen => Some (set_holders (S (holders s)) s) | _ => None end.

Definition state_of_entry (s : System) : option RegisteredSession := entry_state <$> entry s.

Definition cancel_open (reply : ReplyTo OpenedSession) (s : System) : run System :=
  let! (_, s) := in_world (modify_shared mark_open_cancelled;; modify_shared mark_closed;; drop_reply reply;;
                           modify_sess (emit_terminal false)) s in
  Ret s.

(** [SessionRegistry::abandon]. *)
Definition abandon (id : Z) (outcome : result CancelOutcome DbError) (s : System) : run (Abandoned * System) :=
  match entry s with
  | Some (EOpening reply) =>
      let! s := cancel_open reply (set_entry (Some EEnded) s) in
      Ret (AConnecting, s)
  | Some EOpen =>
      let s := set_entry (Some EEnding) s in
      let already := lifecycle_is_terminal (lifecycle (state (the_shared s))) in
      let lost := may_be_carrying_work s in
      let! s := abandon_now id outcome s in
      Ret (if already then AEnding else AOpen lost, s)
  | Some _ => Ret (AEnding, s)
  | None => Ret (AUnknown, s)
  end.

(** A handle given up; the last one drops the session. *)
Definition released (id : Z) (outcome : result CancelOutcome DbError) (s : System) : run System :=
  if alive s then Ret s else drop_session id outcome s.

(** [SessionRegistry::retire]. *)
Definition retire (id : Z) (outcome : result CancelOutcome DbError) (s : System) : run (bool * System) :=
  let s' := set_entry None s in
  match entry s with
  | None => Ret (false, s)
  | Some (EOpening reply) => let! s := cancel_open reply s' in Ret (true, s)
  | Some EOpen | Some EEnding => let! s := released id outcome s' in Ret (true, s)
  | Some EEnded => Ret (true, s')
  end.

(** A caller gives up its handle. *)
Definition let_go (id : Z) (outcome : result CancelOutcome DbError) (s : System) : run System :=
  match holders s with
  | O => Ret s
  | S n => released id outcome (set_holders n s)
  end.

(** [Drop for SessionRegistry], at this session's entry. *)
Definition drop_registry (id : Z) (outcome : result CancelOutcome DbError) (s : System) : run System :=
  match entry s with
  | Some (EOpening reply) => cancel_open reply (set_entry None s)
  | Some EOpen | Some EEnding =>
      let! (_, s) := begin_abandon id true outcome (set_entry None s) in
      Ret (finish_abandon s)
  | _ => Ret (set_entry None s)
  end.
End session.
