(* ===== verification/WorkerProps.v ===== *)
(** * Reasoning about the worker

    [wpM] is correctness of an operation in [M], total when its mode [t] is
    true.  [keeps t I R m] says that [m] preserves [I] and relates its start and
    end by the preorder [R], and returns if [t]: with it a fact about the driver
    calls made, the events said or the handles held is proved once per primitive
    and follows for every operation by composition. *)

From stdpp Require Import gmap relations.
From S2P Require Import Prelude RustStr Errors Columns Segment Policy ResultStore Events EventQueue EventQueueProps SessionShared SessionWorld Reply Worker.
Open Scope Z_scope.
Open Scope run_scope.
Open Scope session_scope.

(** What the core relies on to stop reading output: a read that leaves more
    takes something out of the server's buffer. *)
Class LawfulOutput {DO : DriverObjects} {DR : Driver} := {
  output_decreases n b d d' chunk :
    drv_take_server_output n b d = (d', Returned (Ok chunk)) ->
    drained chunk = false -> chunk_lines chunk <> [] -> (output_left d' < output_left d)%nat;
}.

Create HintDb keeps.

Section logic.
Context {DO : DriverObjects} {DR : Driver} (t : bool).

Definition wpM {A} (m : M A) (Q : A -> World -> Prop) (w : World) : Prop :=
  match m w with Ret (a, w') => Q a w' | _ => t = false end.

Lemma wpM_bind {A B} (m : M A) (k : A -> M B) Q w : wpM m (fun a => wpM (k a) Q) w -> wpM (bind m k) Q w.
Proof. unfold wpM, bind. destruct (m w) as [[a w']| |]; cbn; done. Qed.

Lemma wpM_mono {A} (m : M A) (P Q : A -> World -> Prop) w : wpM m P w -> (forall a w', P a w' -> Q a w') -> wpM m Q w.
Proof. unfold wpM. destruct (m w) as [[a w']| |]; auto. Qed.

Lemma wpM_ret {A} (a : A) (Q : A -> World -> Prop) w : Q a w -> wpM (ret a) Q w.
Proof. done. Qed.

Lemma wpM_read {A B} (f : World -> A) (k : A -> M B) Q w : wpM (k (f w)) Q w -> wpM (bind (gets f) k) Q w.
Proof. done. Qed.

Lemma wpM_and {A} (m : M A) (P Q : A -> World -> Prop) w :
  wpM m P w -> wpM m Q w -> wpM m (fun a w' => P a w' /\ Q a w') w.
Proof. unfold wpM. by destruct (m w) as [[a w']| |]. Qed.

(** What a call does to the driver. *)
Lemma call_driver {A} c (op : D -> D * Called A) w :
  wpM (call c op) (fun r w' => driver w' = (op (driver w)).1 /\
    forall a, r = Ok a -> (op (driver w)).2 = Returned (Ok a)) w.
Proof.
  unfold wpM, call. destruct (op (driver w)) as [d [r|p]]; cbn; (split; [done|]); intros a E; [by subst|done].
Qed.

Lemma deliver_driver q lines n f w :
  wpM (deliver_server_output q lines n f) (fun _ w' => driver w' = driver w) w.
Proof. by destruct q. Qed.

Section keeps.
Context (I : World -> Prop) (R : relation World) `{!PreOrder R}.

Definition keeps {A} (m : M A) : Prop := forall w, I w -> wpM m (fun _ w' => I w' /\ R w w') w.

Lemma keeps_ret {A} (a : A) : keeps (ret a).
Proof. intros w Hw. by split. Qed.

Lemma keeps_gets {A} (f : World -> A) : keeps (gets f).
Proof. intros w Hw. by split. Qed.

Lemma keeps_bind {A B} (m : M A) (k : A -> M B) : keeps m -> (forall a, keeps (k a)) -> keeps (bind m k).
Proof.
  intros Hm Hk w Hw. apply wpM_bind. eapply wpM_mono; [by apply Hm|]. intros a w1 [Hw1 HR].
  eapply wpM_mono; [by apply Hk|]. intros b w2 [Hw2 HR2]. split; [done|]. by trans w1.
Qed.

(** The value read is the one of the world it is read in. *)
Lemma keeps_read {A B} (f : World -> A) (k : A -> M B) :
  (forall w, I w -> wpM (k (f w)) (fun _ w' => I w' /\ R w w') w) -> keeps (bind (gets f) k).
Proof. intros Hk w Hw. by apply wpM_bind, Hk. Qed.

Lemma keeps_modify f : (forall w, I w -> I (f w) /\ R w (f w)) -> keeps (modify f).
Proof. intros Hf w Hw. by apply Hf. Qed.
End keeps.
End logic.

(** Splits an operation into its primitives and closes those it knows. *)
Ltac keeps_step :=
  match goal with
  | |- keeps _ _ _ (match ?x with _ => _ end) => destruct x
  | |- keeps _ _ _ (if ?b then _ else _) => destruct b
  | |- keeps _ _ _ (modify_sess (if ?b then _ else _)) => destruct b
  | |- keeps _ _ _ (bind _ _) => apply keeps_bind; [apply _|auto with keeps|intros ?]
  | |- keeps _ _ _ (ret _) => apply keeps_ret; apply _
  | |- keeps _ _ _ (gets _) => apply keeps_gets; apply _
  | |- keeps _ _ _ (get_shared _) => apply keeps_gets; apply _
  | |- forall _, _ => intros ?
  end; auto with keeps.
Ltac keeps_auto := auto with keeps; repeat (progress cbv beta zeta || keeps_step).

(** ** The primitives of the worker *)

(** What an invariant and a relation need to hold across the worker: each
    primitive keeps them, the driver calls being those in [ok]. *)
Class Primitives {DO : DriverObjects} {DR : Driver} (t : bool) (I : World -> Prop) (R : relation World)
    (ok : DriverCall -> Prop) := {
  prim_preorder : PreOrder R;
  prim_call A c (op : D -> D * Called A) : ok c -> keeps t I R (call c op);
  prim_note_error e : keeps t I R (modify_shared (note_error e));
  prim_driver_state x : keeps t I R (modify_sess (note_driver_transaction_state x));
  prim_statement k x b : keeps t I R (modify_sess (note_statement k x b));
  prim_resolved : keeps t I R (modify_sess note_commit_or_rollback);
  prim_deliver q lines n f : keeps t I R (deliver_server_output q lines n f);
  prim_setting x : keeps t I R (modify_worker (set_server_output_setting x));
  prim_register c : keeps t I R (register_cursor c);
  prim_close_result id : keeps t I R (close_result id);
  prim_release : keeps t I R release_results;
  prim_park res l : keeps t I R (park res l);
  prim_remove_lobs hs : keeps t I R (remove_lobs hs);
  prim_delete_lob n : keeps t I R (modify_worker (fun k => set_parked (delete n (lobs k)) k));
}.

Section quiet.
Context {DO : DriverObjects} {DR : Driver} `{Layout} (t : bool) (law : t = true -> LawfulOutput).
Context (I : World -> Prop) (R : relation World) (ok : DriverCall -> Prop) `{HP : !Primitives t I R ok}.

#[local] Instance : PreOrder R := prim_preorder.
#[local] Hint Extern 0 (keeps _ _ _ _) =>
  lazymatch goal with
  | |- keeps _ _ _ (modify_shared (note_error _)) => apply (prim_note_error (ok := ok))
  | |- keeps _ _ _ (modify_sess (note_driver_transaction_state _)) => apply (prim_driver_state (ok := ok))
  | |- keeps _ _ _ (modify_sess (note_statement _ _ _)) => apply (prim_statement (ok := ok))
  | |- keeps _ _ _ (modify_sess note_commit_or_rollback) => apply (prim_resolved (ok := ok))
  | |- keeps _ _ _ (deliver_server_output _ _ _ _) => apply (prim_deliver (ok := ok))
  | |- keeps _ _ _ (modify_worker (set_server_output_setting _)) => apply (prim_setting (ok := ok))
  | |- keeps _ _ _ (register_cursor _) => apply (prim_register (ok := ok))
  | |- keeps _ _ _ (close_result _) => apply (prim_close_result (ok := ok))
  | |- keeps _ _ _ (release_results) => apply (prim_release (ok := ok))
  | |- keeps _ _ _ (park _ _) => apply (prim_park (ok := ok))
  | |- keeps _ _ _ (remove_lobs _) => apply (prim_remove_lobs (ok := ok))
  | |- keeps _ _ _ (modify_worker _) => apply (prim_delete_lob (ok := ok))
  | |- keeps _ _ _ (call _ _) => apply (prim_call (ok := ok)); solve [auto]
  end : keeps.
#[local] Hint Extern 1 (keeps _ _ _ (ret _)) => apply keeps_ret; apply _ : keeps.
#[local] Hint Extern 1 (keeps _ _ _ (gets _)) => apply keeps_gets; apply _ : keeps.
#[local] Hint Extern 1 (keeps _ _ _ (get_shared _)) => apply keeps_gets; apply _ : keeps.

Lemma with_connection_keeps {A} c (op : D -> D * Called A) : ok c -> keeps t I R (with_connection c op).
Proof. intros Hc. unfold with_connection. keeps_auto. Qed.
#[local] Hint Resolve with_connection_keeps : keeps.

Lemma note_state_after_keeps e : keeps t I R (note_transaction_state_after e).
Proof. unfold note_transaction_state_after, transaction_state. keeps_auto. Qed.
#[local] Hint Resolve note_state_after_keeps : keeps.

Lemma release_registered_keeps ids : keeps t I R (release_registered ids).
Proof. induction ids as [|id ids IH]; cbn [release_registered]; keeps_auto. Qed.
#[local] Hint Resolve release_registered_keeps : keeps.

Lemma note_err_keeps {A} (r : result A DbError) : keeps t I R (note_err r).
Proof. unfold note_err. keeps_auto. Qed.

Lemma adopt_keeps v l : keeps t I R (adopt_out_value v l).
Proof. destruct v; cbn [adopt_out_value]; keeps_auto. Qed.
#[local] Hint Resolve adopt_keeps : keeps.

Lemma adopt_positional_keeps vs l : keeps t I R (adopt_positional vs l).
Proof. revert l. induction vs as [|[v|] vs IH]; intros l; cbn [adopt_positional]; keeps_auto. Qed.
Lemma adopt_named_keeps vs l : keeps t I R (adopt_named vs l).
Proof. revert l. induction vs as [|[n v] vs IH]; intros l; cbn [adopt_named]; keeps_auto. Qed.
#[local] Hint Resolve adopt_positional_keeps adopt_named_keeps : keeps.

Lemma take_out_values_keeps o l : keeps t I R (take_out_values o l).
Proof. unfold take_out_values. keeps_auto. Qed.

Lemma take_result_keeps o : (forall n, ok (CallColumns n)) -> keeps t I R (take_result o).
Proof. intros Hc. unfold take_result. keeps_auto. Qed.
#[local] Hint Resolve take_out_values_keeps take_result_keeps : keeps.

Lemma finish_execute_keeps o : (forall n, ok (CallColumns n)) -> keeps t I R (finish_execute o).
Proof. intros Hc. unfold finish_execute, transaction_state. keeps_auto. Qed.

Lemma park_column_keeps res index row n c : keeps t I R (park_column res index row n c).
Proof. revert row c. induction n as [|n IH]; intros row c; cbn [park_column]; keeps_auto. Qed.
#[local] Hint Resolve park_column_keeps : keeps.
Lemma park_columns_keeps res index cs : keeps t I R (park_columns res index cs).
Proof. revert index. induction cs as [|c cs IH]; intros index; cbn [park_columns]; keeps_auto. Qed.
#[local] Hint Resolve park_columns_keeps : keeps.
Lemma park_batch_keeps res b : keeps t I R (park_batch_lobs res b).
Proof. unfold park_batch_lobs. keeps_auto. Qed.

(** The segment's compaction parks its locators one by one. *)
Lemma compact_parking_keeps id b : keeps t I R (compact_parking id b).
Proof.
  intros w Hw. unfold wpM, compact_parking, compact_batch. set (step := fun '(_, _) _ _ => _).
  set (P := fun st : World * list LobHandle => I st.1 /\ R w st.1).
  assert (Hstep : forall st n l, P st -> P (step st n l).1).
  { intros [w1 hs] n l [H1 HR]. unfold step. pose proof (prim_park (ok := ok) (Some id) l w1 H1) as Hp.
    unfold wpM, park in Hp. destruct (park_lob (Some id) l w1) as [w2 [h|e]]; cbn in *; destruct Hp as [H2 HR2];
      split; cbn; try done; by trans w1. }
  assert (Hrows : forall ls row st, P st -> P (park_rows step st row ls).1).
  { induction ls as [|[l|] ls IH]; intros row st Hst; cbn [park_rows]; [done| |].
    - pose proof (Hstep st row l Hst) as H1. destruct (step st row l) as [st1 [n|e]]; [|done].
      specialize (IH (S row) st1 H1). by destruct (park_rows step st1 (S row) ls).
    - specialize (IH (S row) st Hst). by destruct (park_rows step st (S row) ls). }
  assert (Hdata : forall d m sp st, P st -> P (compact_data step st d m sp).1).
  { intros d m sp st Hst. destruct d; cbn [compact_data];
      repeat match goal with |- context [let '(_, _) := ?x in _] => destruct x eqn:? end; try done.
    pose proof (Hrows (elems values) 0%nat st Hst) as Hr. by rewrite Heqp in Hr. }
  assert (Hcols : forall cs sp st, P st -> P (compact_columns step st cs sp).1).
  { induction cs as [|c cs IH]; intros sp st Hst; cbn [compact_columns]; [done|].
    pose proof (Hdata (data c) (nulls c) sp st Hst) as Hd.
    destruct (compact_data step st (data c) (nulls c) sp) as [st1 [[s1 sp1]|e]]; [|done].
    specialize (IH sp1 st1 Hd). by destruct (compact_columns step st1 cs sp1). }
  assert (Hw0 : P (w, [])) by (split; [done|reflexivity]).
  specialize (Hcols (columns b) [] (w, []) Hw0). destruct (compact_columns step (w, []) (columns b) []) as [[w1 hs] r].
  apply Hcols.
Qed.

(** The drain ends: every turn but the last takes something out. *)
Lemma drain_loop_keeps fuel q w :
  ok CallTakeOutput -> I w -> (t = true -> (output_left (driver w) < fuel)%nat) -> wpM t (drain_loop fuel q) (fun _ w' => I w' /\ R w w') w.
Proof.
  intros Hok. revert w. induction fuel as [|fuel IH]; intros w Hw Hf; [unfold wpM; cbn; destruct t; [specialize (Hf eq_refl); lia|done]|]. cbn [drain_loop].
  assert (Hret : forall w', I w' /\ R w w' -> wpM t (ret tt) (fun _ w' => I w' /\ R w w') w') by done.
  apply wpM_read. case_if as Es; [by apply Hret|].
  apply wpM_read. apply wpM_bind. unfold with_connection. apply wpM_read.
  destruct (connected (worker w)); [|by apply Hret].
  apply wpM_bind. eapply wpM_mono; [apply (wpM_and _ _ _ _ _ (prim_call (ok := ok) _ _ _ Hok w Hw) (call_driver _ _ _ w))|].
  intros [chunk|e] w1 [[Hw1 HR1] [Hd1 Hr1]]; apply wpM_ret; cbv beta iota.
  - specialize (Hr1 chunk eq_refl).
    assert (Hdel : wpM t (if chunk_is_empty chunk then ret tt
       else deliver_server_output q (chunk_lines chunk) (invalid_utf8_lines chunk) None)
       (fun _ w' => (I w' /\ R w1 w') /\ driver w' = driver w1) w1).
    { destruct (chunk_is_empty chunk); [done|]. apply wpM_and; [by apply prim_deliver|apply deliver_driver]. }
    apply wpM_bind. eapply wpM_mono; [exact Hdel|]. intros _ w2 [[Hw2 HR2] Hd2]. cbn beta.
    assert (HR : R w w2) by (by trans w1).
    destruct (drained chunk || chunk_is_empty chunk) eqn:Ed; [by apply Hret|]. boolify.
    assert (Hne : chunk_lines chunk <> []) by (unfold chunk_is_empty in *; by destruct (chunk_lines chunk)).
    assert (Hlt : t = true -> (output_left (driver w2) < fuel)%nat).
    { intros Ht. specialize (Hf Ht). pose proof (law Ht) as Hlaw. rewrite Hd2, Hd1.
      assert (output_left (drv_take_server_output (server_output_chunk_lines (limits (worker w)))
        (server_output_chunk_bytes (limits (worker w))) (driver w)).1 < output_left (driver w))%nat; [|lia].
      eapply output_decreases; [|done..]. by rewrite <- Hr1, <- surjective_pairing. }
    eapply wpM_mono; [by apply IH|]. intros _ w3 [Hw3 HR3]. split; [done|]. by trans w2.
  - assert (Hk : keeps t I R (modify_shared (note_error e);; note_transaction_state_after (Some e);;
      deliver_server_output q [] 0 (Some e))) by keeps_auto.
    eapply wpM_mono; [by apply Hk|]. intros _ w2 [Hw2 HR2]. split; [done|]. by trans w1.
Qed.

Lemma drain_keeps q : ok CallTakeOutput -> keeps t I R (drain_server_output q).
Proof.
  intros Hok. unfold drain_server_output. apply keeps_bind; [apply _|auto with keeps|]. intros k. keeps_step.
  apply keeps_read. intros w Hw. apply drain_loop_keeps; [done..|intros _; lia].
Qed.
End quiet.

(** ** Whole commands *)

(** The rest of the primitives: answering, and the session's lifecycle. *)
Class AllPrimitives {DO : DriverObjects} {DR : Driver} (t : bool) (I : World -> Prop) (R : relation World)
    (ok : DriverCall -> Prop) := {
  prim_quiet : Primitives t I R ok;
  prim_answer T (P : ReplyPayload T) (r : ReplyTo T) v : keeps t I R (answer r v);
  prim_close_answer r v : keeps t I R (close_answer r v);
  prim_drop_reply T (P : ReplyPayload T) (r : ReplyTo T) : keeps t I R (drop_reply r);
  prim_drop_close r : keeps t I R (drop_close_reply r);
  prim_executing s q d : keeps t I R (modify_sess (emit (Executing s q d)));
  prim_validated : keeps t I R (modify_shared mark_validated);
  prim_lost_from e : keeps t I R (modify_shared (mark_lost_from e));
  prim_closed : keeps t I R (modify_shared mark_closed);
  prim_ended h : keeps t I R (modify_shared (mark_ended h));
  prim_resolved_end : keeps t I R (modify_shared mark_transaction_resolved_at_end);
  prim_close_connection : keeps t I R close_connection;
  prim_terminal b : keeps t I R (modify_sess (emit_terminal b));
  prim_enter : keeps t I R (modify_shared enter_driver_call);
  prim_leave : keeps t I R (modify_shared leave_driver_call);
}.

Definition is_resolve (c : DriverCall) : bool := match c with CallCommit | CallRollback => true | _ => false end.

Section commands.
Context {DO : DriverObjects} {DR : Driver} `{Layout} (t : bool) (law : t = true -> LawfulOutput).

(** The call by which a command resolves a transaction, if it asks for it. *)
Definition resolves (c : Command) : option DriverCall :=
  match c with
  | CCommit _ => Some CallCommit
  | CRollback _ => Some CallRollback
  | CClose (Explicit (Some d)) _ => Some (dispose d).1
  | _ => None
  end.

Context (I : World -> Prop) (R : relation World) (ok : DriverCall -> Prop) `{HA : !AllPrimitives t I R ok}.
Context (Hok : forall c, is_resolve c = false -> ok c).

#[local] Instance all_quiet : Primitives t I R ok := prim_quiet.
#[local] Instance all_preorder : PreOrder R := prim_preorder.
#[local] Hint Extern 0 (keeps _ _ _ _) =>
  lazymatch goal with
  | |- keeps _ _ _ (modify_shared (note_error _)) => apply (prim_note_error (ok := ok))
  | |- keeps _ _ _ (modify_sess (note_driver_transaction_state _)) => apply (prim_driver_state (ok := ok))
  | |- keeps _ _ _ (modify_sess (note_statement _ _ _)) => apply (prim_statement (ok := ok))
  | |- keeps _ _ _ (modify_sess note_commit_or_rollback) => apply (prim_resolved (ok := ok))
  | |- keeps _ _ _ (deliver_server_output _ _ _ _) => apply (prim_deliver (ok := ok))
  | |- keeps _ _ _ (modify_worker (set_server_output_setting _)) => apply (prim_setting (ok := ok))
  | |- keeps _ _ _ (register_cursor _) => apply (prim_register (ok := ok))
  | |- keeps _ _ _ (close_result _) => apply (prim_close_result (ok := ok))
  | |- keeps _ _ _ (release_results) => apply (prim_release (ok := ok))
  | |- keeps _ _ _ (park _ _) => apply (prim_park (ok := ok))
  | |- keeps _ _ _ (remove_lobs _) => apply (prim_remove_lobs (ok := ok))
  | |- keeps _ _ _ (modify_worker _) => apply (prim_delete_lob (ok := ok))
  | |- keeps _ _ _ (call _ _) => apply (prim_call (ok := ok)); solve [auto]
  | |- keeps _ _ _ (answer _ _) => apply (prim_answer (ok := ok))
  | |- keeps _ _ _ (close_answer _ _) => apply (prim_close_answer (ok := ok))
  | |- keeps _ _ _ (drop_reply _) => apply (prim_drop_reply (ok := ok))
  | |- keeps _ _ _ (drop_close_reply _) => apply (prim_drop_close (ok := ok))
  | |- keeps _ _ _ (modify_sess (emit _)) => apply (prim_executing (ok := ok))
  | |- keeps _ _ _ (modify_shared mark_validated) => apply (prim_validated (ok := ok))
  | |- keeps _ _ _ (modify_shared (mark_lost_from _)) => apply (prim_lost_from (ok := ok))
  | |- keeps _ _ _ (modify_shared mark_closed) => apply (prim_closed (ok := ok))
  | |- keeps _ _ _ (modify_shared (mark_ended _)) => apply (prim_ended (ok := ok))
  | |- keeps _ _ _ (modify_shared mark_transaction_resolved_at_end) => apply (prim_resolved_end (ok := ok))
  | |- keeps _ _ _ (close_connection) => apply (prim_close_connection (ok := ok))
  | |- keeps _ _ _ (modify_sess (emit_terminal _)) => apply (prim_terminal (ok := ok))
  | |- keeps _ _ _ (modify_shared enter_driver_call) => apply (prim_enter (ok := ok))
  | |- keeps _ _ _ (modify_shared leave_driver_call) => apply (prim_leave (ok := ok))
  | |- keeps _ _ _ (with_connection _ _) => apply (with_connection_keeps t I R ok); solve [auto]
  | |- keeps _ _ _ (note_transaction_state_after _) => apply (note_state_after_keeps t I R ok)
  | |- keeps _ _ _ (release_registered _) => apply (release_registered_keeps t I R ok)
  | |- keeps _ _ _ (note_err _) => apply (note_err_keeps t I R ok)
  | |- keeps _ _ _ (finish_execute _) => apply (finish_execute_keeps t I R ok); solve [auto]
  | |- keeps _ _ _ (drain_server_output _) => apply (drain_keeps t law I R ok); solve [auto]
  | |- keeps _ _ _ (park_batch_lobs _ _) => apply (park_batch_keeps t I R ok)
  | |- keeps _ _ _ (compact_parking _ _) => apply (compact_parking_keeps t I R ok)
  end : keeps.
#[local] Hint Extern 1 (keeps _ _ _ (ret _)) => apply keeps_ret; apply _ : keeps.
#[local] Hint Extern 1 (keeps _ _ _ (gets _)) => apply keeps_gets; apply _ : keeps.
#[local] Hint Extern 1 (keeps _ _ _ (get_shared _)) => apply keeps_gets; apply _ : keeps.

Lemma answered_keeps {T} `{!ReplyPayload T} (r : ReplyTo T) v : keeps t I R (answered r v).
Proof. unfold answered. keeps_auto. Qed.
Lemma answer_lost_keeps {T} `{!ReplyPayload T} (r : ReplyTo T) : keeps t I R (answer_lost r).
Proof. unfold answer_lost. keeps_auto. Qed.
#[local] Hint Resolve answered_keeps answer_lost_keeps : keeps.

Lemma fail_keeps c e : keeps t I R (fail c e).
Proof. destruct c; unfold fail; keeps_auto. Qed.
Lemma drop_command_keeps c : keeps t I R (drop_command c).
Proof. destruct c; cbn [drop_command]; keeps_auto. Qed.
#[local] Hint Resolve fail_keeps drop_command_keeps : keeps.
Lemma drop_commands_keeps cs : keeps t I R (drop_commands cs).
Proof. induction cs as [|c cs IH]; cbn [drop_commands]; keeps_auto. Qed.
#[local] Hint Resolve drop_commands_keeps : keeps.

Lemma execute_keeps st r : keeps t I R (execute st r).
Proof. unfold execute. keeps_auto. Qed.
Lemma owned_result_keeps r : keeps t I R (owned_result r).
Proof. unfold owned_result. keeps_auto. Qed.
Lemma owned_lob_keeps r : keeps t I R (owned_lob r).
Proof. unfold owned_lob. keeps_auto. Qed.
Lemma unknown_keeps : keeps t I R unknown_result_error.
Proof. unfold unknown_result_error. keeps_auto. Qed.
#[local] Hint Resolve execute_keeps owned_result_keeps owned_lob_keeps unknown_keeps : keeps.
Lemma fetch_batch_keeps r n p : keeps t I R (fetch_batch r n p).
Proof. unfold fetch_batch. keeps_auto. Qed.
Lemma fetch_segment_keeps r n p : keeps t I R (fetch_segment r n p).
Proof. unfold fetch_segment. keeps_auto. Qed.
Lemma read_lob_keeps r n p : keeps t I R (read_lob_chunk r n p).
Proof. unfold read_lob_chunk. keeps_auto. Qed.
Lemma set_output_keeps x p : keeps t I R (set_server_output x p).
Proof. unfold set_server_output. keeps_auto. Qed.
Lemma savepoint_keeps x p : keeps t I R (savepoint x p).
Proof. unfold savepoint. keeps_auto. Qed.
Lemma rollback_to_keeps x p : keeps t I R (rollback_to_savepoint x p).
Proof. unfold rollback_to_savepoint. keeps_auto. Qed.
Lemma ping_keeps p : keeps t I R (ping p).
Proof. unfold ping. keeps_auto. Qed.
Lemma resolve_keeps d p : ok (dispose d).1 -> keeps t I R (resolve_transaction d p).
Proof. intros Hd. unfold resolve_transaction. keeps_auto. Qed.
#[local] Hint Resolve fetch_batch_keeps fetch_segment_keeps read_lob_keeps set_output_keeps savepoint_keeps
  rollback_to_keeps ping_keeps resolve_keeps : keeps.

Lemma close_keeps i p : (forall x, resolves (CClose i p) = Some x -> ok x) -> keeps t I R (close i p).
Proof.
  intros Hc. unfold close. destruct i as [[d|]|]; cbn in Hc; [specialize (Hc _ eq_refl)|clear Hc|clear Hc]; keeps_auto.
Qed.

Lemma run_command_keeps c : (forall x, resolves c = Some x -> ok x) -> keeps t I R (run_command c).
Proof.
  intros Hc. destruct c; cbn [run_command resolves] in *; try (by apply close_keeps);
    try (specialize (Hc _ eq_refl)); keeps_auto.
Qed.
#[local] Hint Resolve run_command_keeps : keeps.

(** Partial correctness of a dispatch, whatever is queued behind it. *)
Lemma fail_queued_keeps cs :
  t = false -> Forall (fun c => forall x, resolves c = Some x -> ok x) cs -> keeps t I R (fail_queued cs).
Proof.
  intros Ht. induction 1 as [|c cs Hc _ IH]; cbn [fail_queued]; [keeps_auto|].
  destruct (is_close c); [|keeps_auto]. apply keeps_bind; [apply _|auto with keeps|]. intros []; [|keeps_auto].
  intros w Hw. exact Ht.
Qed.

Lemma announce_keeps flow cs :
  t = false -> Forall (fun c => forall x, resolves c = Some x -> ok x) cs -> keeps t I R (announce_terminal flow cs).
Proof. intros Ht Hcs. pose proof (fail_queued_keeps cs Ht Hcs). unfold announce_terminal. keeps_auto. Qed.

Lemma dispatch_keeps c cs :
  t = false -> Forall (fun c => forall x, resolves c = Some x -> ok x) (c :: cs) -> keeps t I R (dispatch c cs).
Proof.
  intros Ht [Hc Hcs]%Forall_cons.
  assert (Hann : forall flow, keeps t I R (announce_terminal flow cs)) by (intros flow; by apply announce_keeps).
  assert (Hdis : keeps t I R discard_connection) by (unfold discard_connection; keeps_auto).
  unfold dispatch, dispatch_inner. keeps_auto.
Qed.

Lemma shutdown_keeps cs : keeps t I R (shutdown cs).
Proof. unfold shutdown. keeps_auto. Qed.
End commands.
