(* ===== verification/SampleDriver.v ===== *)
(** * A driver to try the claims on

    The smallest driver with a transaction: a statement is the outcome its
    execution returns, executing one opens a transaction, and nothing fails
    unless the statement says so.  The witnesses of the claims about the worker
    and the session run it. *)

From stdpp Require Import gmap.
From S2P Require Import Prelude RustStr Errors Columns Segment Policy ResultStore Events EventQueue SessionShared SessionWorld Reply Worker Session WorkerProps.
Open Scope Z_scope.
Open Scope run_scope.
Open Scope session_scope.

(** A locator is its connection, a cursor its identifier and its connection. *)
#[export] Instance sample_objects : DriverObjects := {| Locator := Z; CursorObject := Z * Z |}.

(** The state: whether a transaction is open. *)
#[export] Instance sample_driver : Driver := {|
  D := bool;
  Statement := result ExecutionOutcome DbError;
  SavepointName := unit;
  statement_deadline _ := None;
  drv_connect d := (false, Returned (Ok tt));
  connection_id_of _ := 5;
  exact_transaction_state_of _ := true;
  server_output_of _ := true;
  cancel_kind_of _ := Native;
  transaction_state_of d := if d then Active else Inactive;
  drv_take_connect_warnings d := (d, Returned (Ok []));
  drv_execute st d := (true, Returned st);
  drv_commit d := (false, Returned (Ok tt));
  drv_rollback d := (false, Returned (Ok tt));
  drv_savepoint _ d := (d, Returned (Ok tt));
  drv_rollback_to_savepoint _ d := (d, Returned (Ok tt));
  drv_ping d := (d, Returned (Ok tt));
  drv_set_server_output x d := (d, Returned (Ok x));
  drv_take_server_output _ _ d := (d, Returned (Ok (mkChunk [] true 0)));
  drv_close d := (d, Returned (Ok tt));
  cursor_id c := c.1;
  cursor_connection c := c.2;
  cursor_columns _ d := (d, Returned (Ok []));
  cursor_fetch _ _ d := (d, Returned (Ok {| columns := []; row_count := 0 |}));
  cursor_is_exhausted _ _ := true;
  cursor_close _ d := (d, Returned (Ok tt));
  locator_connection l := l;
  locator_read _ n d := (d, Returned (Ok ([1; 2; 3], 2)));
  outside _ := [];
  output_left _ := 0%nat;
|}.

#[export] Instance sample_lawful : LawfulOutput.
Proof. split. intros n b d d' chunk [= <- <-]. done. Qed.

(** A session in the middle of its life: bound to a queue, connected, nothing
    outstanding but the slot of one request. *)
Definition sample_shared : SessionShared := seed_driver_transaction_state Inactive (set_bound true (shared_new 7)).
Definition sample_limits : SessionLimits := mkLimits 1 2 4 10 100.
Definition sample_chan : Chan := set_slots {[7 := 1]} (event_channel 16).
Definition sample_world : World :=
  {| sess := {| shared := sample_shared; chan := sample_chan; said := [] |};
     worker := new_worker sample_limits false false; driver := false; calls := []; completions := [] |}.

Definition world_of {A} (r : run (A * World)) : World := match r with Ret (_, w) => w | _ => sample_world end.

(** A PL/SQL block that returns two cursors. *)
Definition two_cursors : result ExecutionOutcome DbError :=
  Ok {| ex_cursor := None; ex_rows_affected := None; ex_kind := PlSqlBlock;
        ex_out_values := DPositional [Some (OCursor (1, 5)); Some (OCursor (2, 5))]; ex_warnings := [] |}.
(** An update. *)
Definition an_update : result ExecutionOutcome DbError :=
  Ok {| ex_cursor := None; ex_rows_affected := Some 1; ex_kind := Dml; ex_out_values := DNone; ex_warnings := [] |}.
