(* ===== verification/WorkerClaims.v ===== *)
(** * What the worker calls and what it holds

    Two instances of [AllPrimitives]: the driver calls a dispatch makes, and the
    cursors and large objects the worker holds. *)

From stdpp Require Import gmap relations.
From S2P Require Import Prelude RustStr Errors Columns Segment Policy ResultStore Events EventQueue EventQueueProps SessionShared SessionWorld Reply Worker Session WorkerProps SampleDriver.
Open Scope Z_scope.
Open Scope run_scope.
Open Scope session_scope.

Section calls.
Context {DO : DriverObjects} {DR : Driver} `{Layout}.

(** ** The calls made *)

Definition calls_in (ok : DriverCall -> Prop) (w w' : World) : Prop :=
  exists cs, calls w' = calls w ++ cs /\ Forall ok cs.

#[local] Instance calls_in_preorder ok : PreOrder (calls_in ok).
Proof.
  split.
  - intros w. exists []. by rewrite app_nil_r.
  - intros w1 w2 w3 (cs & E & Hcs) (ds & E' & Hds). exists (cs ++ ds). rewrite E', E, app_assoc.
    split; [done|]. by apply Forall_app.
Qed.

Definition anything (w : World) : Prop := True.
Definition anything_called (c : DriverCall) : Prop := True.

Section instance.
Context (ok : DriverCall -> Prop) (Hok : forall c, is_resolve c = false -> ok c).
#[local] Notation K := (keeps false anything (calls_in ok)).

Lemma call_calls {A} c (op : D -> D * Called A) : ok c -> K (call c op).
Proof.
  intros Hc w _. unfold wpM, call. destruct (op (driver w)) as [d [r|p]]; (split; [done|]); exists [c]; by split; [|repeat constructor].
Qed.

Lemma modify_calls f : (forall w, calls (f w) = calls w) -> K (modify f).
Proof. intros Hf w _. split; [done|]. exists []. by rewrite Hf, app_nil_r. Qed.
Lemma lift_calls f : K (lift_sess f).
Proof.
  intros w _. unfold wpM, lift_sess. destruct (f (sess w)); cbn; [|done..]. split; [done|]. exists [].
  by rewrite app_nil_r.
Qed.
#[local] Hint Extern 0 (keeps _ _ _ _) =>
  lazymatch goal with
  | |- keeps _ _ _ (call _ _) => apply call_calls; solve [auto]
  | |- keeps _ _ _ (modify _) => apply modify_calls; done
  | |- keeps _ _ _ (modify_sess _) => apply modify_calls; done
  | |- keeps _ _ _ (modify_shared _) => apply modify_calls; done
  | |- keeps _ _ _ (modify_worker _) => apply modify_calls; done
  | |- keeps _ _ _ (lift_sess _) => apply lift_calls
  | |- keeps _ _ _ (ret _) => apply keeps_ret; apply _
  | |- keeps _ _ _ (gets _) => apply keeps_gets; apply _
  | |- keeps _ _ _ (get_shared _) => apply keeps_gets; apply _
  end : keeps.

Lemma close_cursor_calls c : K (close_cursor c).
Proof. unfold close_cursor. keeps_auto. Qed.
#[local] Hint Resolve close_cursor_calls : keeps.
Lemma close_cursors_calls cs : K (close_cursors cs).
Proof. induction cs as [|c cs IH]; cbn [close_cursors]; keeps_auto. Qed.
#[local] Hint Resolve close_cursors_calls : keeps.
Lemma send_calls id b e : K (send_one_shot id b e).
Proof. unfold send_one_shot. keeps_auto. Qed.
#[local] Hint Resolve send_calls : keeps.

#[local] Instance calls_primitives : Primitives false anything (calls_in ok) ok.
Proof.
  split; try apply _; try (intros; by auto with keeps).
  - intros [q|] lines n f; cbn [deliver_server_output]; keeps_auto.
  - intros c. unfold register_cursor. keeps_auto.
  - intros id. unfold close_result. keeps_auto.
  - unfold release_results. keeps_auto.
  - intros res l w _. unfold wpM, park, park_lob. destruct (negb _); (split; [done|]); exists []; by rewrite app_nil_r.
  - intros hs. unfold remove_lobs. keeps_auto.
Qed.

#[local] Instance calls_all : AllPrimitives false anything (calls_in ok) ok.
Proof.
  split; try apply _; try (intros; by auto with keeps).
  - intros T P r v. unfold answer. keeps_auto.
  - intros r v. unfold close_answer. keeps_auto.
  - intros T P r. unfold drop_reply. keeps_auto.
  - intros r. unfold drop_close_reply. keeps_auto.
  - unfold close_connection. keeps_auto.
Qed.

Lemma dispatch_calls c cs w out w' :
  Forall (fun c => forall x, resolves c = Some x -> ok x) (c :: cs) -> dispatch c cs w = Ret (out, w') -> calls_in ok w w'.
Proof.
  intros Hcs E. pose proof (dispatch_keeps false ltac:(done) anything (calls_in ok) ok Hok c cs eq_refl Hcs w I) as Hk.
  unfold wpM in Hk. rewrite E in Hk. apply Hk.
Qed.

Lemma shutdown_calls cs w w' : shutdown cs w = Ret (tt, w') -> calls_in ok w w'.
Proof.
  intros E. pose proof (shutdown_keeps false anything (calls_in ok) ok cs w I) as Hk.
  unfold wpM in Hk. rewrite E in Hk. apply Hk.
Qed.
End instance.

(** C3: nothing is committed or rolled back that nobody asked for.  Whatever a
    dispatch does, with whatever is queued behind it, a commit or a rollback
    reaches the driver only if one of those commands is that commit or
    rollback, or an explicit close with that disposition.  Abandoning a session
    and shutting its worker down reach neither. *)
Theorem resolved_only_when_asked c cs w w' x :
  is_resolve x = true ->
  (forall out, dispatch c cs w = Ret (out, w') -> exists made, calls w' = calls w ++ made /\
     (x ∈ made -> exists c', c' ∈ c :: cs /\ resolves c' = Some x)) /\
  (shutdown cs w = Ret (tt, w') -> exists made, calls w' = calls w ++ made /\ ~ x ∈ made).
Proof.
  intros Hx. split.
  - intros out E. set (ok := fun y => is_resolve y = true -> exists c', c' ∈ c :: cs /\ resolves c' = Some y).
    assert (Hcs : Forall (fun c => forall y, resolves c = Some y -> ok y) (c :: cs)).
    { apply Forall_forall. intros c' Hin y Hy _. by exists c'. }
    destruct (dispatch_calls ok ltac:(by intros y Hy; unfold ok; rewrite Hy) c cs w out w' Hcs E) as (made & Em & Hm).
    exists made. split; [done|]. intros Hin. rewrite Forall_forall in Hm. by apply (Hm x Hin).
  - intros E. destruct (shutdown_calls (fun y => is_resolve y = false) ltac:(done) cs w w' E) as (made & Em & Hm).
    exists made. split; [done|]. intros Hin. rewrite Forall_forall in Hm. specialize (Hm x Hin). cbn in Hm. congruence.
Qed.

(** ** The handles held *)

Record handles_ok (w : World) : Prop := {
  few_results : Z.of_nat (base.size (cursors (worker w))) <= max_open_results (limits (worker w));
  own_cursors : forall id c, cursors (worker w) !! id = Some c ->
    cursor_id c = id /\ cursor_connection c = connection_id (worker w);
  own_lobs : forall n p, lobs (worker w) !! n = Some p ->
    locator_connection (locator p) = connection_id (worker w) /\ n < next_serial (worker w);
}.

(** What a command never changes, and the serials it never reuses. *)
Definition same_worker (w w' : World) : Prop :=
  limits (worker w') = limits (worker w) /\ connection_id (worker w') = connection_id (worker w) /\
  next_serial (worker w) <= next_serial (worker w').

#[local] Instance same_worker_preorder : PreOrder same_worker.
Proof. split; [by intros w|]. intros w1 w2 w3 (A1 & A2 & A3) (B1 & B2 & B3). split_and!; [congruence..|lia]. Qed.

#[local] Notation K := (keeps false handles_ok same_worker).

Lemma handles_frame w w' :
  cursors (worker w') = cursors (worker w) -> lobs (worker w') = lobs (worker w) ->
  limits (worker w') = limits (worker w) -> connection_id (worker w') = connection_id (worker w) ->
  next_serial (worker w') = next_serial (worker w) -> handles_ok w -> handles_ok w' /\ same_worker w w'.
Proof.
  intros E1 E2 E3 E4 E5 [H1 H2 H3]. split; [split; rewrite ?E1, ?E2, ?E3, ?E4, ?E5; done|].
  split_and!; [done..|lia].
Qed.

Lemma call_handles {A} c (op : D -> D * Called A) : K (call c op).
Proof. intros w Hw. unfold wpM, call. destruct (op (driver w)) as [d [r|p]]; by apply handles_frame. Qed.

Lemma modify_handles f :
  (forall w, cursors (worker (f w)) = cursors (worker w) /\ lobs (worker (f w)) = lobs (worker w) /\
     limits (worker (f w)) = limits (worker w) /\ connection_id (worker (f w)) = connection_id (worker w) /\
     next_serial (worker (f w)) = next_serial (worker w)) -> K (modify f).
Proof. intros Hf w Hw. destruct (Hf w) as (E1 & E2 & E3 & E4 & E5). by apply handles_frame. Qed.

Lemma lift_handles f : K (lift_sess f).
Proof. intros w Hw. unfold wpM, lift_sess. destruct (f (sess w)); cbn; [by apply handles_frame|done..]. Qed.

(** Fewer handles. *)
Lemma shrink_handles f :
  (forall k, cursors (f k) ⊆ cursors k /\ lobs (f k) ⊆ lobs k /\ limits (f k) = limits k /\
     connection_id (f k) = connection_id k /\ next_serial (f k) = next_serial k) -> K (modify_worker f).
Proof.
  intros Hf w [H1 H2 H3]. destruct (Hf (worker w)) as (E1 & E2 & E3 & E4 & E5). split; [|split_and!; cbn; [done..|lia]].
  split; cbn; rewrite ?E3, ?E4, ?E5.
  - apply map_subseteq_size in E1. cbn in *. lia.
  - intros id c Hc. apply H2. by eapply lookup_weaken.
  - intros n p Hp. apply H3. by eapply lookup_weaken.
Qed.

#[local] Hint Extern 0 (keeps _ _ _ _) =>
  lazymatch goal with
  | |- keeps _ _ _ (call _ _) => apply call_handles
  | |- keeps _ _ _ (modify _) => apply modify_handles; done
  | |- keeps _ _ _ (modify_sess _) => apply modify_handles; done
  | |- keeps _ _ _ (modify_shared _) => apply modify_handles; done
  | |- keeps _ _ _ (lift_sess _) => apply lift_handles
  | |- keeps _ _ _ (ret _) => apply keeps_ret; apply _
  | |- keeps _ _ _ (gets _) => apply keeps_gets; apply _
  | |- keeps _ _ _ (get_shared _) => apply keeps_gets; apply _
  end : keeps.

Lemma delete_lob_handles n : K (modify_worker (fun k => set_parked (delete n (lobs k)) k)).
Proof. apply shrink_handles. intros k. split_and!; try done. apply delete_subseteq. Qed.

Lemma remove_lobs_handles hs : K (remove_lobs hs).
Proof.
  apply shrink_handles. intros k. split_and!; try done. cbn. generalize (lobs k). induction hs as [|h hs IH]; intros m; [done|].
  cbn. etrans; [apply IH|]. apply delete_subseteq.
Qed.

Lemma close_cursors_handles cs : K (close_cursors cs).
Proof. induction cs as [|c cs IH]; cbn [close_cursors]; unfold close_cursor; keeps_auto. Qed.

Lemma close_result_handles id : K (close_result id).
Proof.
  unfold close_result, close_cursor. apply keeps_bind; [apply _| |intros _].
  - apply shrink_handles. intros k. split_and!; try done. cbn. apply map_filter_subseteq.
  - keeps_auto. apply shrink_handles. intros k. split_and!; try done. apply delete_subseteq.
Qed.

Lemma release_results_handles : K release_results.
Proof.
  unfold release_results. keeps_auto; [|apply close_cursors_handles]. apply shrink_handles. intros k.
  split_and!; try done; apply map_empty_subseteq.
Qed.

Lemma register_handles c : K (register_cursor c).
Proof.
  unfold register_cursor. apply keeps_read. intros w Hw.
  assert (Hc : forall e : DbError, wpM false (do _ <- call (CallCursorClose (cursor_id c)) (cursor_close c); ret (Err (A := ResultId) e))
    (fun _ w' => handles_ok w' /\ same_worker w w') w).
  { intros e. assert (Hk : K (do _ <- call (CallCursorClose (cursor_id c)) (cursor_close c); ret (Err (A := ResultId) e)))
      by keeps_auto. by apply Hk. }
  destruct (cursor_connection c =? connection_id (worker w)) eqn:E1; cbn [negb]; [|apply Hc]. boolify.
  destruct (_ <=? _) eqn:E2; [apply Hc|]. boolify. destruct Hw as [H1 H2 H3]. split; [|split_and!; cbn; [done..|lia]].
  split; cbn; try done.
  - rewrite map_size_insert. destruct (cursors (worker w) !! cursor_id c); cbn in *; lia.
  - intros id c' [[<- <-]|[_ Hl]]%lookup_insert_Some; [done|]. by apply H2.
Qed.

Lemma park_handles res l : K (park res l).
Proof.
  intros w Hw. unfold wpM, park, park_lob.
  destruct (locator_connection l =? connection_id (worker w)) eqn:E; cbn [negb]; [|by apply handles_frame]. boolify.
  destruct Hw as [H1 H2 H3]. split; [|split_and!; cbn; [done..|lia]]. split; cbn; try done.
  intros n p [[<- <-]|[_ Hl]]%lookup_insert_Some; cbn; [split; [done|lia]|]. destruct (H3 n p Hl). split; [done|lia].
Qed.

#[local] Hint Resolve delete_lob_handles remove_lobs_handles close_result_handles release_results_handles
  register_handles park_handles : keeps.

#[local] Instance handles_primitives : Primitives false handles_ok same_worker anything_called.
Proof.
  split; try apply _; try (intros; by auto with keeps).
  - intros [q|] lines n f; cbn [deliver_server_output]; keeps_auto.
  - intros x. by apply modify_handles.
Qed.

#[local] Instance handles_all : AllPrimitives false handles_ok same_worker anything_called.
Proof.
  split; try apply _; try (intros; by auto with keeps).
  - intros T P r v. unfold answer, send_one_shot. keeps_auto.
  - intros r v. unfold close_answer, send_one_shot. keeps_auto.
  - intros T P r. unfold drop_reply. keeps_auto.
  - intros r. unfold drop_close_reply. keeps_auto.
  - unfold close_connection. keeps_auto. by apply modify_handles.
Qed.

End calls.

(** ** On the sample driver *)

Definition sample_commit : Command := CCommit (mkReplyTo (T := unit) (OneShot 1 true) Commit).
Definition sample_execute (st : result ExecutionOutcome DbError) : Command :=
  CExecute (DR := sample_driver) st (mkReplyTo (T := ExecuteReply) (OneShot 2 true) tt).

Lemma resolved_only_when_asked_witness :
  exists made, calls (world_of (dispatch sample_commit [] sample_world)) = [] ++ made /\
    (CallCommit ∈ made -> exists c', c' ∈ [sample_commit] /\ resolves c' = Some CallCommit).
Proof.
  destruct (resolved_only_when_asked sample_commit [] sample_world (world_of (dispatch sample_commit [] sample_world)) CallCommit eq_refl)
    as [H _].
  apply (H (Continue, [])). by vm_compute.
Defined.

Lemma sample_handles : handles_ok sample_world.
Proof. split; [by vm_compute|by intros id c H|by intros n p H]. Qed.

