(* ===== verification/WorkerReplies.v ===== *)
(** * Every request is answered once

    [core] is what holds between two operations of the worker of a session
    bound to a queue: the queue is well formed and the session holds one slot
    per reply queued and per request not yet answered.  [replied qs] says what an
    operation did: it said the replies to [qs], in that order, and otherwise only
    progress and unsolicited events.  Total correctness here means that no
    assertion of the code fails and no loop runs on. *)

From stdpp Require Import gmap relations.
From S2P Require Import Prelude RustStr Errors Columns Segment Policy ResultStore Events EventQueue EventQueueProps EventClaims EventBound SessionShared SessionWorld Reply Worker WorkerProps.
Open Scope Z_scope.
Open Scope run_scope.
Open Scope session_scope.

Section replies.
Context {DO : DriverObjects} {DR : Driver} `{Layout} `{law : !LawfulOutput}.
Context (sid : SessionId).

(** The requests a list of events replies to. *)
Definition reply_of (e : SessionEvent) : list RequestId :=
  if is_reply e then match event_request e with Some q => [q] | None => [] end else [].
Definition reply_requests (es : list SessionEvent) : list RequestId := flat_map reply_of es.

Lemma reply_requests_app es fs : reply_requests (es ++ fs) = reply_requests es ++ reply_requests fs.
Proof. apply flat_map_app. Qed.

Record sess_ok (n : Z) (x : Sess) : Prop := {
  core_session : session (shared x) = sid;
  core_bound : bound (shared x) = true;
  core_chan : chan_ok (chan x);
  core_held : outstanding (chan x) sid = tally (replies_of sid) (queued (chan x)) + n;
  core_nonneg : 0 <= n;
}.

Record core (n : Z) (w : World) : Prop := {
  core_sess : sess_ok n (sess w);
  core_closed : lifecycle (state (shared (sess w))) = LClosed -> connected (worker w) = false;
}.

(** What was said between two states of a session, and what did not change. *)
Record talked (qs : list RequestId) (x x' : Sess) : Prop := {
  talked_said : exists es, said x' = said x ++ es /\ reply_requests es = qs /\
    Forall (fun e => is_terminal e = false /\ event_session e = sid) es;
  talked_terminal : terminal_emitted (shared x') = terminal_emitted (shared x);
  talked_lost : is_lost (shared x) = true -> is_lost (shared x') = true;
}.

(** As [talked], without closing the session. *)
Definition calm (qs : list RequestId) (x x' : Sess) : Prop :=
  talked qs x x' /\ (lifecycle (state (shared x')) = LClosed -> lifecycle (state (shared x)) = LClosed).

Definition replied (qs : list RequestId) (w w' : World) : Prop :=
  talked qs (sess w) (sess w') /\ (connected (worker w') = true -> connected (worker w) = true).

Lemma talked_refl x : talked [] x x.
Proof. split; try done. exists []. by rewrite app_nil_r. Qed.

Lemma talked_trans qs qs' x y z : talked qs x y -> talked qs' y z -> talked (qs ++ qs') x z.
Proof.
  intros [(es & E & Hq & Hf) T1 L1] [(es' & E' & Hq' & Hf') T2 L2]. split; auto; [|congruence].
  exists (es ++ es'). split_and!; [by rewrite E', E, app_assoc|by rewrite reply_requests_app, Hq, Hq'|by apply Forall_app].
Qed.

#[global] Instance replied_preorder : PreOrder (replied []).
Proof.
  split.
  - intros w. split; [apply talked_refl|done].
  - intros w1 w2 w3 [T1 C1] [T2 C2]. split; [by apply (talked_trans [] [] _ (sess w2))|auto].
Qed.

(** ** The session's own operations *)

(** A change of the shared state that says nothing. *)
Definition mute (f : SessionShared -> SessionShared) : Prop := forall s,
  session (f s) = session s /\ bound (f s) = bound s /\ terminal_emitted (f s) = terminal_emitted s /\
  (is_lost s = true -> is_lost (f s) = true) /\
  (lifecycle (state (f s)) = LClosed -> lifecycle (state s) = LClosed).

Lemma mute_ok f n x : mute f -> sess_ok n x -> sess_ok n (on_shared f x) /\ calm [] x (on_shared f x).
Proof.
  intros Hf [H1 H2 H3 H4 H5]. destruct (Hf (shared x)) as (F1 & F2 & F3 & F4 & F5).
  split; [split; cbn; try done; congruence|]. split; [|done]. split; cbn; try done. exists []. by rewrite app_nil_r.
Qed.

Lemma mute_compose f g : mute f -> mute g -> mute (fun s => g (f s)).
Proof.
  intros Hf Hg s. destruct (Hf s) as (F1 & F2 & F3 & F4 & F5), (Hg (f s)) as (G1 & G2 & G3 & G4 & G5).
  split_and!; [congruence..| |]; auto.
Qed.

Lemma note_error_mute e : mute (note_error e).
Proof.
  intros s. unfold note_error. destruct (is_lost s) eqn:El; [by split_and!|].
  destruct (session_state e); [by split_and!| |by split_and!].
  destruct (lifecycle (state s)) eqn:E; split_and!; done || (by intros; congruence).
Qed.

Lemma outside_mute os : mute (fun s => fold_left meanwhile os s).
Proof.
  induction os as [|o os IH]; [by intros s|].
  apply (mute_compose (fun s => meanwhile s o)); [|done]. destruct o; [by intros s|apply note_error_mute].
Qed.

(** An event that is no reply and no terminal. *)
Definition aside (e : SessionEvent) : Prop :=
  is_reply e = false /\ is_terminal e = false /\ event_session e = sid /\ event_dropped e = 0.

Lemma said_push_replies c e c' pu :
  closed (inner c) = false -> push_case c e (slot_for e) (c', pu) ->
  tally (replies_of sid) (queued c') = tally (replies_of sid) (queued c) + replies_of sid e.
Proof. apply (push_solicited_class sid is_reply). by intros []. Qed.

Lemma emit_chan n c e :
  chan_ok c -> outstanding c sid = tally (replies_of sid) (queued c) + n -> is_reply e = false -> event_dropped e = 0 ->
  chan_ok (sink_push c e).1 /\ outstanding (sink_push c e).1 sid = tally (replies_of sid) (queued (sink_push c e).1) + n.
Proof.
  intros Hc Ho Hr Hd. rewrite sink_push_eq. assert (E : None = slot_for e) by (unfold slot_for; by rewrite Hr). rewrite E.
  split; [apply push_ok; [done|split; [lia|by rewrite Hr]]|].
  rewrite push_outstanding, Ho. destruct (closed (inner c)) eqn:Ec; [unfold push; by rewrite Ec|].
  assert (Hp : push_case c e (slot_for e) (push c e (slot_for e))) by (apply push_cases; [done|]; by rewrite <- E).
  rewrite (surjective_pairing (push c e (slot_for e))) in Hp. rewrite (said_push_replies _ _ _ _ Ec Hp).
  unfold replies_of. rewrite Hr. cbn. lia.
Qed.

Lemma emit_ok n x e : aside e -> sess_ok n x -> sess_ok n (emit e x) /\ calm [] x (emit e x).
Proof.
  intros (Hr & Ht & Hs & Hd) [H1 H2 H3 H4 H5]. unfold emit. rewrite H2.
  destruct (emit_chan n (chan x) e H3 H4 Hr Hd) as [Hc Ho].
  split; [by split|]. split; [|done]. split; cbn; try done. exists [e]. split; [done|]. cbn. unfold reply_of. rewrite Hr.
  split; [done|]. by repeat constructor.
Qed.

Lemma watch_ok n f x :
  (forall st, lifecycle (f st) = lifecycle st) -> sess_ok n x ->
  sess_ok n (with_transaction_watch f x) /\ calm [] x (with_transaction_watch f x).
Proof.
  intros Hf Hx. unfold with_transaction_watch.
  set (g := fun s => set_state (f (state s)) s).
  assert (Hg : mute g) by (intros s; unfold is_lost; cbn; rewrite Hf; by split_and!).
  destruct (mute_ok g n x Hg Hx) as [H1 T1]. destruct (Bool.eqb _ _); [done|].
  destruct (emit_ok n (on_shared g x) (TransactionStateChanged (session (shared (on_shared g x)))
    (possibly_active (state (shared (on_shared g x)))))) as [H2 T2]; [|done|].
  - split_and!; try done. cbn. apply Hx.
  - split; [done|]. destruct T1 as [T1 C1], T2 as [T2 C2]. split; [by apply (talked_trans [] [] _ (on_shared g x))|auto].
Qed.

Lemma note_driver_ok n t x : sess_ok n x -> sess_ok n (note_driver_transaction_state t x) /\ calm [] x (note_driver_transaction_state t x).
Proof. by apply watch_ok. Qed.
Lemma note_resolved_ok n x : sess_ok n x -> sess_ok n (note_commit_or_rollback x) /\ calm [] x (note_commit_or_rollback x).
Proof. by apply watch_ok. Qed.
Lemma note_statement_ok n k t b x : sess_ok n x -> sess_ok n (note_statement k t b x) /\ calm [] x (note_statement k t b x).
Proof. apply watch_ok. intros st. cbn zeta beta. by destruct k; try destruct (negb _). Qed.

(** A reply to a request of this session. *)
Lemma emit_reply_ok n x e q :
  is_reply e = true -> event_session e = sid -> event_request e = Some q -> sess_ok (n + 1) x -> 0 <= n ->
  exists x', emit_reply e x = Ret x' /\ sess_ok n x' /\ calm [q] x x'.
Proof.
  intros Hr Hs Hq [H1 H2 H3 H4 _] Hn. unfold emit_reply. rewrite H2.
  destruct (reply_returns (chan x) e H3 Hr) as (c' & w & E & Hok & Hi & Ho); [rewrite Hs; lia|]. rewrite E. cbn [rbind].
  eexists. split; [done|]. assert (Hrep : replies_of sid e = 1) by (unfold replies_of, belongs; by rewrite Hr, Hs, Z.eqb_refl).
  split; [split; cbn; try done|split; [split; cbn; try done|done]].
  - rewrite Ho. destruct (closed (inner (chan x))) eqn:Ec.
    + destruct Hi as [Ei _]. unfold queued. rewrite Ei. fold (queued (chan x)). lia.
    + rewrite Hi, queued_appended, tally_app. cbn [tally]. lia.
  - exists [e]. split; [done|]. cbn. unfold reply_of. rewrite Hr, Hq. split; [done|]. repeat constructor; [by destruct e|done].
Qed.

(** ** The quiet operations *)

Section quiet.
Context (n : Z).
#[local] Notation K := (keeps true (core n) (replied [])).

Lemma sess_keeps f :
  (forall x, sess_ok n x -> sess_ok n (f x) /\ calm [] x (f x)) -> K (modify_sess f).
Proof.
  intros Hf w [Hs Hc]. destruct (Hf _ Hs) as [Hs' [T C]]. split; [|by split]. split; [done|]. auto.
Qed.

Lemma mute_keeps f : mute f -> K (modify_shared f).
Proof. intros Hf. apply sess_keeps. intros x. by apply mute_ok. Qed.

Lemma worker_keeps f : (forall k, connected (f k) = connected k) -> K (modify_worker f).
Proof.
  intros Hf w [Hs Hc]. split; [split; [done|]; cbn; by rewrite Hf|]. split; [apply talked_refl|]. cbn. by rewrite Hf.
Qed.

Lemma call_keeps {A} c (op : D -> D * Called A) : K (call c op).
Proof.
  intros w [Hs Hc]. unfold wpM, call. destruct (op (driver w)) as [d out].
  destruct (mute_ok _ n _ (outside_mute (outside d)) Hs) as [Hs' [T C]].
  assert (Hcl : lifecycle (state (shared (on_shared (fun s => fold_left meanwhile (outside d) s) (sess w)))) = LClosed ->
    connected (worker w) = false) by auto.
  destruct out as [r|p]; (split; [by split|by split]).
Qed.

#[local] Hint Extern 0 (keeps _ _ _ _) =>
  lazymatch goal with
  | |- keeps _ _ _ (call _ _) => apply call_keeps
  | |- keeps _ _ _ (modify_worker _) => apply worker_keeps; done
  | |- keeps _ _ _ (ret _) => apply keeps_ret; apply _
  | |- keeps _ _ _ (gets _) => apply keeps_gets; apply _
  | |- keeps _ _ _ (get_shared _) => apply keeps_gets; apply _
  end : keeps.

Lemma close_cursor_keeps c : K (close_cursor c).
Proof. unfold close_cursor. keeps_auto. Qed.
#[local] Hint Resolve close_cursor_keeps : keeps.
Lemma close_cursors_keeps cs : K (close_cursors cs).
Proof. induction cs as [|c cs IH]; cbn [close_cursors]; keeps_auto. Qed.
#[local] Hint Resolve close_cursors_keeps : keeps.

Lemma collect_mute lines v f : mute (collect_server_output lines v f).
Proof. intros s. by unfold collect_server_output; destruct f; split_and!. Qed.

Lemma deliver_keeps q lines v f : K (deliver_server_output q lines v f).
Proof.
  destruct q as [q|]; cbn [deliver_server_output]; [|apply mute_keeps, collect_mute].
  apply keeps_read. intros w Hw. apply (sess_keeps (emit _)); [|done]. intros x. apply emit_ok. split_and!; try done.
  apply Hw.
Qed.

#[global] Instance quiet_primitives : Primitives true (core n) (replied []) (fun _ => True).
Proof.
  split; try apply _; try (intros; by auto with keeps).
  - intros e. apply mute_keeps, note_error_mute.
  - intros t. apply sess_keeps. intros x. apply note_driver_ok.
  - intros k t b. apply sess_keeps. intros x. apply note_statement_ok.
  - apply sess_keeps. intros x. apply note_resolved_ok.
  - intros q lines v f. apply deliver_keeps.
  - intros c. unfold register_cursor. keeps_auto.
  - intros id. unfold close_result. keeps_auto.
  - unfold release_results. keeps_auto.
  - intros res l w Hw. unfold wpM, park, park_lob. destruct (negb _); [by split|].
    destruct Hw as [Hs Hc]. split; [by split|]. by split; [apply talked_refl|].
  - intros hs. unfold remove_lobs. keeps_auto.
Qed.

Lemma disconnect_keeps : K (modify_worker (set_connected false)).
Proof. intros w [Hs Hc]. split; [by split|]. split; [apply talked_refl|done]. Qed.

Lemma close_connection_keeps : K close_connection.
Proof. pose proof disconnect_keeps. unfold close_connection. keeps_auto. Qed.

Lemma mark_validated_mute : mute mark_validated.
Proof.
  intros s. unfold mark_validated, needs_validation, is_lost. case_bool_decide as E; [|by split_and!].
  cbn. split_and!; try done. rewrite E. done.
Qed.
Lemma mark_lost_mute e : mute (mark_lost_from e).
Proof. by intros s. Qed.
Lemma mark_ended_mute h : mute (mark_ended h).
Proof. intros s. unfold mark_ended. by destruct (_ =? _). Qed.
End quiet.

(** ** Answering *)

Definition cost (c : Channel) : Z := match c with ByEvent _ _ => 1 | OneShot _ _ => 0 end.
Definition asked (c : Channel) : list RequestId := match c with ByEvent _ q => [q] | OneShot _ _ => [] end.
Definition mine (c : Channel) : Prop := match c with ByEvent s _ => s = sid | OneShot _ _ => True end.

(** [m] answers the request of channel [c], and only that one. *)
Definition answers (c : Channel) {A} (m : M A) : Prop := forall n w,
  0 <= n -> core (n + cost c) w -> wpM true m (fun _ w' => core n w' /\ replied (asked c) w w') w.
Definition quiet {A} (m : M A) : Prop := forall n, keeps true (core n) (replied []) m.

Lemma answers_after c {A B} (m : M A) (k : A -> M B) : quiet m -> (forall a, answers c (k a)) -> answers c (bind m k).
Proof.
  intros Hm Hk n w Hn Hw. apply wpM_bind. eapply wpM_mono; [by apply Hm|]. intros a w1 [Hw1 [T1 C1]].
  eapply wpM_mono; [by apply Hk|]. intros b w2 [Hw2 [T2 C2]]. split; [done|].
  split; [by apply (talked_trans [] _ _ (sess w1))|auto].
Qed.

Lemma answers_before c {A B} (m : M A) (k : A -> M B) : answers c m -> (forall a, quiet (k a)) -> answers c (bind m k).
Proof.
  intros Hm Hk n w Hn Hw. apply wpM_bind. eapply wpM_mono; [by apply Hm|]. intros a w1 [Hw1 [T1 C1]].
  eapply wpM_mono; [by apply Hk|]. intros b w2 [Hw2 [T2 C2]]. split; [done|].
  split; [|auto]. rewrite <- (app_nil_r (asked c)). by apply (talked_trans _ [] _ (sess w1)).
Qed.

Lemma one_shot_answers id l e : answers (OneShot id l) (send_one_shot id l e).
Proof.
  intros n w Hn [Hs Hc]. rewrite Z.add_0_r in Hs. split; [by split|]. split; [apply talked_refl|done].
Qed.

Lemma event_answers s q e {A} (a : A) :
  is_reply e = true -> event_session e = sid -> event_request e = Some q ->
  answers (ByEvent s q) (lift_sess (emit_reply e);; ret a).
Proof.
  intros Hr Hs Hq n w Hn [Hx Hc]. destruct (emit_reply_ok n (sess w) e q Hr Hs Hq Hx Hn) as (x' & E & Hx' & [T C]).
  unfold wpM, bind, lift_sess. rewrite E. cbn. split; [split; [done|]; auto|by split].
Qed.

(** Every payload's event is a reply to its request. *)
Class Replies (T : Type) {P : ReplyPayload T} := {
  payload_reply s q x v : is_reply (into_event (T := T) s q x v) = true;
  payload_session s q x v : event_session (into_event (T := T) s q x v) = s;
  payload_request s q x v : event_request (into_event (T := T) s q x v) = Some q;
}.
#[global] Instance opened_replies : Replies OpenedSession.
Proof. split; by intros s q x [?|?]. Qed.
#[global] Instance execute_replies : Replies ExecuteReply.
Proof. by split. Qed.
#[global] Instance batch_replies : Replies FetchedBatch.
Proof. by split. Qed.
#[global] Instance segment_replies : Replies SegmentReply.
Proof. by split. Qed.
#[global] Instance bytes_replies : Replies (list Z).
Proof. by split. Qed.
#[global] Instance output_replies : Replies ServerOutputSetting.
Proof. by split. Qed.
#[global] Instance unit_replies : Replies unit.
Proof. by split. Qed.

Lemma answer_answers {T} {P : ReplyPayload T} {R : Replies T} (r : ReplyTo T) v :
  mine (channel r) -> answers (channel r) (answer r v).
Proof.
  intros Hm. unfold answer. destruct (channel r) as [id l|s q]; [apply one_shot_answers|]. cbn in Hm. subst s.
  apply event_answers; [apply payload_reply|apply payload_session|apply payload_request].
Qed.

Lemma close_answer_answers (r : CloseReplyTo) v : mine r -> answers r (close_answer r v).
Proof.
  intros Hm. destruct r as [id l|s q]; [apply one_shot_answers|]. cbn in Hm. subst s. by apply event_answers.
Qed.

(** ** Every command answers its request *)

#[local] Notation all := (fun _ : DriverCall => True).
#[local] Hint Extern 0 (keeps _ _ _ _) =>
  lazymatch goal with
  | |- keeps _ _ _ (modify_shared (note_error _)) => apply (prim_note_error (ok := all))
  | |- keeps _ _ _ (modify_shared mark_validated) => apply mute_keeps, mark_validated_mute
  | |- keeps _ _ _ (modify_shared (mark_lost_from _)) => apply mute_keeps, mark_lost_mute
  | |- keeps _ _ _ (modify_shared (mark_ended _)) => apply mute_keeps, mark_ended_mute
  | |- keeps _ _ _ (modify_shared _) => apply mute_keeps; by intros ?
  | |- keeps _ _ _ (modify_sess note_commit_or_rollback) => apply (prim_resolved (ok := all))
  | |- keeps _ _ _ (deliver_server_output _ _ _ _) => apply (prim_deliver (ok := all))
  | |- keeps _ _ _ (close_result _) => apply (prim_close_result (ok := all))
  | |- keeps _ _ _ release_results => apply (prim_release (ok := all))
  | |- keeps _ _ _ (remove_lobs _) => apply (prim_remove_lobs (ok := all))
  | |- keeps _ _ _ (modify_worker _) => apply worker_keeps; done
  | |- keeps _ _ _ (call _ _) => apply (prim_call (ok := all)); exact I
  | |- keeps _ _ _ close_connection => apply close_connection_keeps
  | |- keeps _ _ _ (with_connection _ _) => apply (with_connection_keeps _ _ _ all); exact I
  | |- keeps _ _ _ (note_transaction_state_after _) => apply (note_state_after_keeps _ _ _ all)
  | |- keeps _ _ _ (release_registered _) => apply (release_registered_keeps _ _ _ all)
  | |- keeps _ _ _ (note_err _) => apply (note_err_keeps _ _ _ all)
  | |- keeps _ _ _ (finish_execute _) => apply (finish_execute_keeps _ _ _ all); done
  | |- keeps _ _ _ (drain_server_output _) => apply (drain_keeps _ (fun _ => law) _ _ all); exact I
  | |- keeps _ _ _ (park_batch_lobs _ _) => apply (park_batch_keeps _ _ _ all)
  | |- keeps _ _ _ (compact_parking _ _) => apply (compact_parking_keeps _ _ _ all)
  | |- keeps _ _ _ (ret _) => apply keeps_ret; apply _
  | |- keeps _ _ _ (gets _) => apply keeps_gets; apply _
  | |- keeps _ _ _ (get_shared _) => apply keeps_gets; apply _
  | |- keeps _ _ _ (owned_result _) => unfold owned_result; keeps_auto
  | |- keeps _ _ _ (owned_lob _) => unfold owned_lob; keeps_auto
  | |- keeps _ _ _ unknown_result_error => unfold unknown_result_error; keeps_auto
  | |- keeps _ _ _ discard_connection => unfold discard_connection; keeps_auto
  end : keeps.

Ltac quiet_auto := intros ?; keeps_auto.

Lemma answered_answers {T} {P : ReplyPayload T} {R : Replies T} (r : ReplyTo T) v :
  mine (channel r) -> answers (channel r) (answered r v).
Proof. intros Hm. apply answers_before; [by apply answer_answers|]. intros b. quiet_auto. Qed.

Lemma answer_lost_answers {T} {P : ReplyPayload T} {R : Replies T} (r : ReplyTo T) :
  mine (channel r) -> answers (channel r) (answer_lost r).
Proof. intros Hm. apply answers_after; [quiet_auto|]. intros e. by apply answered_answers. Qed.

Ltac answers_auto :=
  repeat (progress cbv beta zeta || match goal with
  | |- answers _ (match ?x with _ => _ end) => destruct x
  | |- answers _ (answered _ _) => by apply answered_answers
  | |- answers _ (answer_lost _) => by apply answer_lost_answers
  | |- answers _ (bind (answer _ _) _) => apply answers_before; [by apply answer_answers|intros ?; quiet_auto]
  | |- answers _ (bind _ _) => apply answers_after; [quiet_auto|intros ?]
  end).

Lemma execute_answers st r : mine (channel r) -> answers (channel r) (execute st r).
Proof.
  intros Hm. unfold execute, reply_request, channel_request. intros n w Hn Hw.
  apply (wpM_read true (fun w => session (shared (sess w)))). set (s := session (shared (sess w))).
  assert (Hs : s = sid) by apply Hw. clearbody s. subst s. revert n w Hn Hw. change (answers (channel r)
   (match match channel r with OneShot _ _ => None | ByEvent _ q => Some q end with
    | Some q => modify_sess (emit (Executing sid q (statement_deadline st)))
    | None => ret tt
    end;;
    do outcome <- with_connection CallExecute (drv_execute st);
    match outcome with
    | None => answer_lost r
    | Some outcome =>
        do result <- finish_execute outcome;
        drain_server_output match channel r with OneShot _ _ => None | ByEvent _ q => Some q end;;
        match result with
        | Ok (value, registered) =>
            do heard <- answer r (Ok value);
            (if heard then ret tt else release_registered registered);;
            ret Continue
        | Err e => answered r (Err e)
        end
    end)).
  apply answers_after; [|intros _; answers_auto].
  destruct (channel r) as [id l|s q]; [quiet_auto|]. intros n. apply sess_keeps. intros x. apply emit_ok. by split_and!.
Qed.

Lemma fetch_batch_answers res m r : mine (channel r) -> answers (channel r) (fetch_batch res m r).
Proof. intros Hm. unfold fetch_batch. answers_auto. Qed.
Lemma fetch_segment_answers tk m r : mine (channel r) -> answers (channel r) (fetch_segment tk m r).
Proof. intros Hm. unfold fetch_segment. answers_auto. Qed.
Lemma read_lob_answers h m r : mine (channel r) -> answers (channel r) (read_lob_chunk h m r).
Proof. intros Hm. unfold read_lob_chunk. answers_auto. Qed.
Lemma set_output_answers x r : mine (channel r) -> answers (channel r) (set_server_output x r).
Proof. intros Hm. unfold set_server_output. answers_auto. Qed.
Lemma savepoint_answers x r : mine (channel r) -> answers (channel r) (savepoint x r).
Proof. intros Hm. unfold savepoint. answers_auto. Qed.
Lemma rollback_to_answers x r : mine (channel r) -> answers (channel r) (rollback_to_savepoint x r).
Proof. intros Hm. unfold rollback_to_savepoint. answers_auto. Qed.
Lemma ping_answers r : mine (channel r) -> answers (channel r) (ping r).
Proof. intros Hm. unfold ping. answers_auto. Qed.
Lemma resolve_answers d r : mine (channel r) -> answers (channel r) (resolve_transaction d r).
Proof. intros Hm. unfold resolve_transaction. answers_auto. Qed.

Lemma close_connection_down w : wpM true close_connection (fun _ w' => connected (worker w') = false) w.
Proof.
  unfold close_connection. apply wpM_read. destruct (connected (worker w)) eqn:E; cbn [negb]; [|by apply wpM_ret].
  apply wpM_bind. unfold wpM at 1, modify_worker, modify. apply wpM_read. match goal with |- context [if ?b then _ else _] => destruct b end; [by apply wpM_ret|].
  unfold wpM, call. by destruct (drv_close _) as [d [o|p]].
Qed.

(** Marking a session closed that has no connection left. *)
Lemma mark_closed_keeps n w :
  core n w -> connected (worker w) = false ->
  wpM true (modify_shared mark_closed) (fun _ w' => (core n w' /\ replied [] w w') /\ connected (worker w') = false) w.
Proof.
  intros [[H1 H2 H3 H4 H5] Hc] Hd. unfold wpM, modify_shared, modify_sess, modify. split; [|done].
  assert (Hm : forall s, session (mark_closed s) = session s /\ bound (mark_closed s) = bound s /\
    terminal_emitted (mark_closed s) = terminal_emitted s /\ (is_lost s = true -> is_lost (mark_closed s) = true)).
  { intros s. unfold mark_closed. destruct (is_lost s) eqn:E; split_and!; done || congruence. }
  destruct (Hm (shared (sess w))) as (M1 & M2 & M3 & M4).
  split; [split; [split; cbn; try done; congruence|done]|].
  split; [|done]. split; cbn; try done. exists []. by rewrite app_nil_r.
Qed.

Lemma close_answers i (r : CloseReplyTo) : mine r -> answers r (close i r).
Proof.
  intros Hm. unfold close. intros n w Hn Hw. apply wpM_read.
  assert (Hfin : forall v h w1, core (n + cost r) w1 -> replied [] w w1 -> connected (worker w1) = false ->
    wpM true (modify_shared mark_closed;; modify_shared (mark_ended h);; do _ <- close_answer r v; ret Exit)
      (fun _ w' => core n w' /\ replied (asked r) w w') w1).
  { intros v h w1 Hw1 R1 Hd. apply wpM_bind. eapply wpM_mono; [by apply mark_closed_keeps|]. intros _ w2 [[Hw2 R2] _].
    assert (Ha : answers r (modify_shared (mark_ended h);; do _ <- close_answer r v; ret Exit)).
    { apply answers_after; [quiet_auto|]. intros _. apply answers_before; [by apply close_answer_answers|]. intros _. quiet_auto. }
    eapply wpM_mono; [by apply Ha|]. intros _ w3 [Hw3 [T3 C3]]. split; [done|].
    assert (R12 : replied [] w w2) by (by trans w1). destruct R12 as [T C].
    split; [by apply (talked_trans [] _ _ (sess w2))|auto]. }
  destruct (connected (worker w)) eqn:Hup; cbn [negb].
  - assert (Hrest : forall {A} (m : M A), answers r m -> wpM true m (fun _ w' => core n w' /\ replied (asked r) w w') w)
      by (intros A m Ha; by apply Ha).
    apply wpM_read. cbv zeta. destruct (match i with Explicit None => _ | _ => _ end).
    { apply Hrest. apply answers_before; [by apply close_answer_answers|]. intros _. quiet_auto. }
    assert (Hend : forall h, forall w1, core (n + cost r) w1 -> replied [] w w1 ->
      wpM true (release_results;; do outcome <- close_connection; modify_shared mark_closed;; modify_shared (mark_ended h);;
        do _ <- close_answer r (match outcome with Ok _ => Ok tt | Err e => Err (CloseFailed e) end); ret Exit)
        (fun _ w' => core n w' /\ replied (asked r) w w') w1).
    { intros h w1 Hw1 R1. apply wpM_bind. eapply wpM_mono; [by apply (prim_release (ok := all))|]. intros _ w2 [Hw2 R2].
      apply wpM_bind. eapply wpM_mono; [apply (wpM_and _ _ _ _ _ (close_connection_keeps _ w2 Hw2) (close_connection_down w2))|].
      intros o w3 [[Hw3 R3] Hd]. apply Hfin; [done| |done]. trans w2; [by trans w1|done]. }
    apply wpM_bind. eapply (wpM_mono _ _ (fun f w1 => core (n + cost r) w1 /\ replied [] w w1)).
    + match goal with |- wpM _ ?m _ _ => assert (Hq : keeps true (core (n + cost r)) (replied []) m) end; [|by apply Hq].
      destruct i as [[d|]|]; cbn; keeps_auto.
    + intros [e|] w1 [Hw1 R1]; [|by apply Hend].
      assert (Ha : answers r (do _ <- close_answer r (Err e); ret Continue)).
      { apply answers_before; [by apply close_answer_answers|]. intros _. quiet_auto. }
      eapply wpM_mono; [by apply Ha|]. intros _ w2 [Hw2 [T2 C2]]. split; [done|]. destruct R1 as [T C].
      split; [by apply (talked_trans [] _ _ (sess w1))|auto].
  - apply wpM_read. apply wpM_bind. eapply wpM_mono; [by apply (prim_release (ok := all))|]. intros _ w1 [Hw1 R1].
    apply Hfin; [done..|]. destruct R1 as [_ C1]. destruct (connected (worker w1)); [|done]. by rewrite C1 in Hup.
Qed.

Lemma close_result_command_answers x (r : ReplyTo unit) :
  mine (channel r) -> answers (channel r) (run_command (CCloseResult x r)).
Proof. intros Hm. cbn [run_command]. answers_auto. Qed.
Lemma close_lob_command_answers x (r : ReplyTo unit) :
  mine (channel r) -> answers (channel r) (run_command (CCloseLob x r)).
Proof. intros Hm. cbn [run_command]. answers_auto. Qed.

Lemma run_command_answers c : mine (command_channel c) -> answers (command_channel c) (run_command c).
Proof.
  destruct c; cbn [command_channel]; intros Hm;
    [by apply execute_answers|by apply fetch_batch_answers|by apply fetch_segment_answers
    |by apply close_result_command_answers|by apply resolve_answers|by apply resolve_answers|by apply savepoint_answers
    |by apply rollback_to_answers|by apply ping_answers|by apply read_lob_answers|by apply close_lob_command_answers
    |by apply set_output_answers|by apply close_answers].
Qed.

Lemma fail_answers c e : mine (command_channel c) -> answers (command_channel c) (fail c e).
Proof.
  intros Hm. unfold fail. apply answers_before; [|intros ?; quiet_auto].
  destruct c; by apply answer_answers || apply close_answer_answers.
Qed.

Lemma drop_reply_answers {T} {P : ReplyPayload T} {R : Replies T} (r : ReplyTo T) :
  mine (channel r) -> answers (channel r) (drop_reply r).
Proof.
  intros Hm. unfold drop_reply. destruct (channel r) as [id l|s q].
  - intros n w Hn Hw. rewrite Z.add_0_r in Hw. split; [done|]. split; [apply talked_refl|done].
  - cbn in Hm. subst s. apply answers_after; [quiet_auto|]. intros e n w Hn Hw.
    pose proof (event_answers sid q (into_event sid q (subject r) (Err e)) tt (payload_reply _ _ _ _)
      (payload_session _ _ _ _) (payload_request _ _ _ _) n w Hn Hw) as Ha.
    unfold wpM, bind in Ha. unfold wpM. by destruct (lift_sess _ w) as [[[] w']| |].
Qed.

Lemma drop_close_answers (r : CloseReplyTo) : mine r -> answers r (drop_close_reply r).
Proof.
  intros Hm. destruct r as [id l|s q]; cbn [drop_close_reply].
  - intros n w Hn Hw. rewrite Z.add_0_r in Hw. split; [done|]. split; [apply talked_refl|done].
  - cbn in Hm. subst s. apply answers_after; [quiet_auto|]. intros v n w Hn Hw.
    pose proof (event_answers sid q (SessionClosed sid q v) tt eq_refl eq_refl eq_refl n w Hn Hw) as Ha.
    unfold wpM, bind in Ha. unfold wpM. by destruct (lift_sess _ w) as [[[] w']| |].
Qed.

Lemma drop_command_answers c : mine (command_channel c) -> answers (command_channel c) (drop_command c).
Proof. destruct c; cbn [command_channel drop_command]; intros Hm; by apply drop_reply_answers || apply drop_close_answers. Qed.

(** ** A queue of commands *)

Definition costs (cs : list Command) : Z := foldr (fun c n => cost (command_channel c) + n) 0 cs.
Definition asks (cs : list Command) : list RequestId := flat_map (fun c => asked (command_channel c)) cs.
Definition all_mine (cs : list Command) : Prop := Forall (fun c => mine (command_channel c)) cs.

Lemma cost_nonneg c : 0 <= cost c.
Proof. destruct c; cbn; lia. Qed.
Lemma costs_nonneg cs : 0 <= costs cs.
Proof. induction cs as [|c cs IH]; cbn; [lia|]. fold (costs cs). pose proof (cost_nonneg (command_channel c)). lia. Qed.
Lemma costs_app cs ds : costs (cs ++ ds) = costs cs + costs ds.
Proof. induction cs as [|c cs IH]; [done|]. cbn. fold (costs (cs ++ ds)) (costs cs). rewrite IH. lia. Qed.

(** One operation answering [c], then one answering [qs]. *)
Lemma then_replied qs qs' w w1 w2 : replied qs w w1 -> replied qs' w1 w2 -> replied (qs ++ qs') w w2.
Proof. intros [T1 C1] [T2 C2]. split; [by apply (talked_trans _ _ _ (sess w1))|auto]. Qed.

Lemma drop_commands_answers cs n w :
  0 <= n -> all_mine cs -> core (n + costs cs) w ->
  wpM true (drop_commands cs) (fun _ w' => core n w' /\ replied (asks cs) w w') w.
Proof.
  intros Hn Hcs. revert w. induction Hcs as [|c cs Hc Hcs IH]; intros w Hw; cbn [drop_commands].
  - rewrite Z.add_0_r in Hw. split; [done|reflexivity].
  - apply wpM_bind. pose proof (costs_nonneg cs).
    eapply wpM_mono; [apply (drop_command_answers c Hc (n + costs cs)); [lia|]|].
    + cbn in Hw. fold (costs cs) in Hw. by replace (n + costs cs + cost (command_channel c)) with
        (n + (cost (command_channel c) + costs cs)) by lia.
    + intros _ w1 [Hw1 R1]. eapply wpM_mono; [by apply IH|]. intros _ w2 [Hw2 R2]. split; [done|].
      by apply then_replied with w1.
Qed.

(** What follows does not change what a close without a connection returns. *)
Lemma wpM_tail {A B} (m : M A) (k : A -> M B) Q w : (forall a w', wpM false (k a) Q w') -> wpM false (bind m k) Q w.
Proof. intros Hk. apply wpM_bind. unfold wpM. destruct (m w) as [[a w']| |]; [apply Hk|done..]. Qed.

Lemma wpM_total {A} (m : M A) P Q w : wpM true m P w -> wpM false m Q w -> wpM true m (fun a w' => P a w' /\ Q a w') w.
Proof. unfold wpM. by destruct (m w) as [[a w']| |]. Qed.

Lemma close_exits i r w : connected (worker w) = false -> wpM false (close i r) (fun f _ => f = Exit) w.
Proof.
  intros Hd. unfold close. apply wpM_read. rewrite Hd. cbn [negb]. apply wpM_read.
  by repeat (apply wpM_tail; intros ? ?).
Qed.
End replies.
