(* ===== verification/WorkerLoop.v ===== *)
(** * The worker's loop answers everything, and says once that it ended

    A dispatch handles a prefix of the commands it was given, in order, and
    leaves the rest waiting.  When it announces the end of the session nothing
    is left waiting.  The shutdown handles everything that is left. *)

From stdpp Require Import gmap relations.
From S2P Require Import Prelude RustStr Errors Columns Segment Policy ResultStore Events EventQueue EventQueueProps EventClaims EventBound SessionShared SessionWorld Reply Worker WorkerProps WorkerReplies.
Open Scope Z_scope.
Open Scope run_scope.
Open Scope session_scope.

Section loop.
Context {DO : DriverObjects} {DR : Driver} `{Layout} `{law : !LawfulOutput}.
Context (sid : SessionId).
#[local] Notation core := (core sid).
#[local] Notation replied := (replied sid).
#[local] Notation all_mine := (all_mine sid).

(** The replies to [qs] were said, then that the session ended. *)
Definition announced (qs : list RequestId) (w w' : World) : Prop :=
  exists es t, said (sess w') = said (sess w) ++ es ++ [t] /\ reply_requests es = qs /\
    Forall (fun e => is_terminal e = false /\ event_session e = sid) es /\ is_terminal t = true /\ event_session t = sid /\
    terminal_emitted (shared (sess w)) = false /\ terminal_emitted (shared (sess w')) = true.

Lemma replied_announced qs qs' w w1 w2 : replied qs w w1 -> announced qs' w1 w2 -> announced (qs ++ qs') w w2.
Proof.
  intros [[(es & E & Hq & Hf) T _] _] (fs & t & E' & Hq' & Hf' & H1 & H2 & H3 & H4).
  exists (es ++ fs), t. split_and!; try done; [by rewrite E', E, !app_assoc|by rewrite reply_requests_app, Hq, Hq'
    |by apply Forall_app|congruence].
Qed.

Lemma replied_refl w : replied [] w w.
Proof. reflexivity. Qed.

Lemma announced_quiet qs w w1 w2 :
  announced qs w w1 -> said (sess w2) = said (sess w1) ->
  terminal_emitted (shared (sess w2)) = terminal_emitted (shared (sess w1)) -> announced qs w w2.
Proof. intros (es & t & A) E1 E2. exists es, t. by rewrite E1, E2. Qed.

(** What handling commands did: all of [handled] is answered, and the session
    says it ended only with nothing waiting; a worker on its way out leaves that
    to its shutdown. *)
Definition served (flow : Flow) (handled rest : list Command) (w w' : World) : Prop :=
  replied (asks handled) w w' \/ (announced (asks handled) w w' /\ rest = [] /\ flow = Continue).

Lemma served_after qs flow handled rest cs w w1 w2 :
  replied qs w w1 -> served flow handled rest w1 w2 -> asks cs = qs ++ asks handled -> served flow cs rest w w2.
Proof.
  intros H1 [H2|[H2 Hr]] E; [left|right; split; [|done]]; rewrite E; [by apply then_replied with w1|by apply replied_announced with w1].
Qed.

Lemma served_quiet flow handled rest w w1 w2 :
  served flow handled rest w w1 -> replied [] w1 w2 -> said (sess w2) = said (sess w1) -> served flow handled rest w w2.
Proof.
  intros [S|[S Hr]] R E; [left|right; split; [|done]].
  - rewrite <- (app_nil_r (asks handled)). by apply then_replied with w1.
  - apply announced_quiet with w1; [done..|apply R].
Qed.

Lemma wpM_assoc {A B C} (m : M A) (k : A -> M B) (l : B -> M C) Q w :
  wpM true (bind (bind m k) l) Q w -> wpM true (bind m (fun a => bind (k a) l)) Q w.
Proof. unfold wpM, bind. by destruct (m w) as [[a w']| |]. Qed.

Lemma emit_terminal_says b n w :
  core n w -> terminal_emitted (shared (sess w)) = false ->
  wpM true (modify_sess (emit_terminal b)) (fun _ w' => core n w' /\ announced [] w w' /\ connected (worker w') = connected (worker w)) w.
Proof.
  intros [[H1 H2 H3 H4 H5] Hc] Ht. unfold wpM, modify_sess, modify. unfold emit_terminal. rewrite Ht. unfold emit. cbn. rewrite H2.
  set (t := Terminal _ _ _ _). destruct (emit_chan sid n (chan (sess w)) t H3 H4 eq_refl eq_refl) as [C1 C2].
  split; [by split; [split|]|]. split; [|done]. exists [], t. by split_and!.
Qed.

(** ** The queue behind the end *)

Lemma fail_queued_answers cs n w :
  0 <= n -> all_mine cs -> core (n + costs cs) w -> connected (worker w) = false ->
  wpM true (fail_queued cs) (fun out w' => exists handled, cs = handled ++ out.2 /\ core (n + costs out.2) w' /\
    replied (asks handled) w w' /\ match out.1 with None => out.2 = [] | Some f => f = Exit end) w.
Proof.
  intros Hn Hcs. revert w. induction Hcs as [|c cs Hc Hcs IH]; intros w Hw Hd; cbn [fail_queued].
  { exists []. by split_and!. }
  pose proof (costs_nonneg cs).
  assert (Hw' : core (n + costs cs + cost (command_channel c)) w)
    by (cbn in Hw; fold (costs cs) in Hw; by replace (n + costs cs + cost (command_channel c)) with
      (n + (cost (command_channel c) + costs cs)) by lia).
  destruct (is_close c) eqn:E.
  - destruct c as [| | | | | | | | | | | |i r]; try done. apply wpM_bind.
    eapply wpM_mono; [apply wpM_total; [apply (run_command_answers sid (CClose i r) Hc (n + costs cs)); [lia|done]|]|].
    + by apply close_exits.
    + intros f w1 [[Hw1 R1] ->]. exists [CClose i r]. split_and!; try done.
      cbn. rewrite app_nil_r. apply R1.
  - apply wpM_read. apply wpM_bind. eapply wpM_mono; [apply (fail_answers sid c _ Hc (n + costs cs)); [lia|done]|].
    intros _ w1 [Hw1 R1].
    assert (Hd1 : connected (worker w1) = false).
    { destruct R1 as [_ C]. destruct (connected (worker w1)); [|done]. by rewrite C in Hd. }
    eapply wpM_mono; [by apply IH|]. intros [cl rest] w2 (handled & -> & Hw2 & R2 & Hcl). exists (c :: handled).
    split_and!; try done. by apply (then_replied sid (asked (command_channel c)) (asks handled) w w1).
Qed.

Lemma announce_answers flow cs n w :
  0 <= n -> all_mine cs -> core (n + costs cs) w ->
  (lifecycle_is_terminal (lifecycle (state (shared (sess w)))) = true -> connected (worker w) = false) ->
  wpM true (announce_terminal flow cs) (fun out w' => exists handled, cs = handled ++ out.2 /\
    core (n + costs out.2) w' /\ served out.1 handled out.2 w w') w.
Proof.
  intros Hn Hcs Hw Hd. unfold announce_terminal. apply wpM_read.
  assert (Hdone : forall f, exists handled, cs = handled ++ (f, cs).2 /\ core (n + costs (f : Flow, cs).2) w /\ served f handled cs w w).
  { intros f. exists []. split_and!; try done. left. apply replied_refl. }
  destruct flow; [|by apply Hdone]. destruct (terminal_emitted _ || _) eqn:E; [by apply Hdone|]. boolify.
  apply wpM_bind. eapply wpM_mono; [apply fail_queued_answers; [done..|auto]|].
  intros [[f|] rest] w1 (handled & -> & Hw1 & R1 & Hcl); cbn [fst snd] in *.
  - exists handled. split_and!; try done. by left.
  - subst rest. apply wpM_read. apply wpM_bind.
    assert (Ht : terminal_emitted (shared (sess w1)) = false) by (destruct R1 as [[_ T _] _]; congruence).
    eapply wpM_mono; [by apply emit_terminal_says|]. intros _ w2 (Hw2 & A & _). exists handled. split_and!; try done.
    right. split; [|done]. rewrite <- (app_nil_r (asks handled)). by apply replied_announced with w1.
Qed.

(** After a loss the connection is gone; after a close too. *)
Lemma discarded n w :
  core n w -> is_lost (shared (sess w)) = true ->
  wpM true (discard_connection;; release_results) (fun _ w' => core n w' /\ replied [] w w' /\ connected (worker w') = false) w.
Proof.
  intros Hw Hl. apply wpM_bind. unfold discard_connection. apply wpM_bind.
  eapply wpM_mono; [apply (wpM_and _ _ _ _ _ (close_connection_keeps sid n w Hw) (close_connection_down w))|].
  intros o w1 [[Hw1 R1] Hd]. apply wpM_ret.
  eapply wpM_mono; [by apply (prim_release (Primitives := quiet_primitives sid n))|]. intros _ w2 [Hw2 R2]. split; [done|].
  split; [by apply (then_replied sid [] [] w w1)|]. destruct R2 as [_ C]. destruct (connected (worker w2)); [|done]. by rewrite C in Hd.
Qed.

Lemma terminal_cases x : lifecycle_is_terminal x = true <-> x = LLost \/ x = LClosed.
Proof. destruct x; cbn; naive_solver. Qed.

(** [dispatch_inner] once the command was answered. *)
Lemma finish_dispatch flow qs cs n w w1 :
  0 <= n -> all_mine cs -> core (n + costs cs) w1 -> replied qs w w1 ->
  wpM true (do dead <- get_shared is_lost;
            (if dead then discard_connection;; release_results else ret tt);;
            announce_terminal flow cs)
    (fun out w' => exists handled, cs = handled ++ out.2 /\ core (n + costs out.2) w' /\
       (forall c, asked (command_channel c) = qs -> served out.1 (c :: handled) out.2 w w')) w1.
Proof.
  intros Hn Hcs Hw1 R1. apply wpM_read. apply wpM_bind.
  assert (Hend : forall w2, core (n + costs cs) w2 -> replied [] w1 w2 ->
    (lifecycle_is_terminal (lifecycle (state (shared (sess w2)))) = true -> connected (worker w2) = false) ->
    wpM true (announce_terminal flow cs) (fun out w' => exists handled, cs = handled ++ out.2 /\ core (n + costs out.2) w' /\
       (forall c, asked (command_channel c) = qs -> served out.1 (c :: handled) out.2 w w')) w2).
  { intros w2 Hw2 R2 Hd. eapply wpM_mono; [by apply announce_answers|].
    intros [f rest] w3 (handled & E & Hw3 & S). exists handled. split_and!; try done. intros c Hc.
    apply (served_after qs f handled rest (c :: handled) w w2); [|done|cbn; by rewrite Hc].
    rewrite <- (app_nil_r qs). by apply then_replied with w1. }
  destruct (is_lost (shared (sess w1))) eqn:El.
  - eapply wpM_mono; [by apply discarded|]. intros _ w2 (Hw2 & R2 & Hd). by apply Hend.
  - apply wpM_ret. apply Hend; [done|apply replied_refl|]. intros [E|E]%terminal_cases; [|by apply (core_closed _ _ _ Hw1)].
    unfold is_lost in El. rewrite E in El. done.
Qed.

(** [dispatch_inner]: the command and perhaps some of those behind it. *)
Lemma dispatch_inner_answers c cs n w :
  0 <= n -> all_mine (c :: cs) -> core (n + costs (c :: cs)) w ->
  wpM true (dispatch_inner c cs) (fun out w' => exists handled, cs = handled ++ out.2 /\
    core (n + costs out.2) w' /\ served out.1 (c :: handled) out.2 w w') w.
Proof.
  intros Hn Hcs Hw. inversion Hcs as [|? ? Hc Hcs']; subst. pose proof (costs_nonneg cs).
  assert (Hcost : n + costs (c :: cs) = n + costs cs + cost (command_channel c)) by (cbn; fold (costs cs); lia).
  rewrite Hcost in Hw. unfold dispatch_inner. apply wpM_read. apply wpM_bind.
  eapply (wpM_mono true _ (fun _ w1 => core (n + costs cs + cost (command_channel c)) w1 /\ replied [] w w1)).
  { match goal with |- wpM _ ?m _ _ => assert (Hq : keeps true (core (n + costs cs + cost (command_channel c))) (replied []) m) end;
      [|by apply Hq].
    destruct (_ && _); [|apply keeps_ret; apply _]. apply keeps_bind; [apply _| |].
    - apply (with_connection_keeps _ _ _ (fun _ => True)). exact I.
    - intros [[[]|e]|]; [apply mute_keeps, mark_validated_mute|apply mute_keeps, mark_lost_mute|apply keeps_ret; apply _]. }
  intros _ w1 [Hw1 R1]. apply wpM_read. destruct (_ && _ && _) eqn:E.
  - boolify. apply wpM_assoc, wpM_bind. eapply wpM_mono; [by apply discarded|]. intros _ w2 (Hw2 & R2 & Hd).
    apply wpM_read. apply wpM_bind. eapply wpM_mono; [apply (fail_answers sid c _ Hc (n + costs cs)); [lia|done]|].
    intros _ w3 [Hw3 R3]. eapply wpM_mono; [apply (announce_answers Continue cs n w3 Hn Hcs' Hw3)|].
    + intros _. destruct R3 as [_ C]. destruct (connected (worker w3)); [|done]. by rewrite C in Hd.
    + intros [f rest] w4 (handled & -> & Hw4 & S). exists handled. split_and!; try done.
      apply (served_after (asked (command_channel c)) f handled rest (c :: handled) w w3); [|done..].
      apply (then_replied sid [] _ w w2); [by apply (then_replied sid [] [] w w1)|done].
  - apply wpM_bind. eapply wpM_mono; [apply (run_command_answers sid c Hc (n + costs cs)); [lia|done]|].
    intros flow w2 [Hw2 R2]. eapply wpM_mono; [apply (finish_dispatch flow (asked (command_channel c)) cs n w w2); try done|].
    + by apply (then_replied sid [] _ w w1).
    + intros out w3 (handled & E' & Hw3 & S). exists handled. split_and!; try done. by apply S.
Qed.

(** [dispatch]: the command and perhaps some of those behind it. *)
Lemma dispatch_answers c cs n w :
  0 <= n -> all_mine (c :: cs) -> core (n + costs (c :: cs)) w ->
  wpM true (dispatch c cs) (fun out w' => exists handled, cs = handled ++ out.2 /\
    core (n + costs out.2) w' /\ served out.1 (c :: handled) out.2 w w') w.
Proof.
  intros Hn Hcs Hw. inversion Hcs as [|? ? Hc Hcs']; subst. pose proof (costs_nonneg cs).
  assert (Hk : forall f, mute f -> forall m w, core m w -> wpM true (modify_shared f) (fun _ w' => core m w' /\ replied [] w w') w)
    by (intros f Hf m w0 Hw0; by apply mute_keeps).
  unfold dispatch. apply wpM_bind. eapply wpM_mono; [apply Hk; [by intros s|done]|]. intros _ w1 [Hw1 R1].
  apply wpM_bind. eapply wpM_mono; [by apply (dispatch_inner_answers c cs n)|].
  intros out w2 (handled & E & Hw2 & S). apply wpM_bind.
  pose proof (Hk leave_driver_call ltac:(by intros s) _ _ Hw2) as [Hw3 R3]. apply wpM_ret. exists handled. split_and!; try done.
  apply served_quiet with w2; [|done..].
  apply (served_after [] out.1 (c :: handled) out.2 (c :: handled) w w1); done.
Qed.
(** [shutdown]: everything left is answered, and then the session says it ended
    if it has not. *)
Lemma shutdown_answers cs n w :
  0 <= n -> all_mine cs -> core (n + costs cs) w ->
  wpM true (shutdown cs) (fun _ w' => core n w' /\ terminal_emitted (shared (sess w')) = true /\
    connected (worker w') = false /\
    if terminal_emitted (shared (sess w)) then replied (asks cs) w w' else announced (asks cs) w w') w.
Proof.
  intros Hn Hcs Hw. unfold shutdown. apply wpM_bind. eapply wpM_mono; [by apply drop_commands_answers|]. intros _ w1 [Hw1 R1].
  apply wpM_bind. eapply wpM_mono; [by apply (prim_release (Primitives := quiet_primitives sid n))|]. intros _ w2 [Hw2 R2].
  apply wpM_bind. eapply wpM_mono; [apply (wpM_and _ _ _ _ _ (close_connection_keeps sid n w2 Hw2) (close_connection_down w2))|].
  intros o w3 [[Hw3 R3] Hd3]. apply wpM_bind. eapply wpM_mono; [by apply mark_closed_keeps|]. intros _ w4 [[Hw4 R4] Hd4].
  apply wpM_bind. eapply wpM_mono; [apply (mute_keeps sid n _ (mark_ended_mute Unresolved) w4 Hw4)|]. intros _ w5 [Hw5 R5].
  assert (R : replied (asks cs) w w5).
  { rewrite <- (app_nil_r (asks cs)). apply (then_replied sid _ [] w w1); [done|]. trans w2; [done|]. trans w3; [done|]. by trans w4. }
  assert (Hd5 : connected (worker w5) = false) by (destruct R5 as [_ C]; destruct (connected (worker w5)); [|done]; by rewrite C in Hd4).
  apply wpM_read. assert (Ht : terminal_emitted (shared (sess w5)) = terminal_emitted (shared (sess w))) by apply R.
  rewrite <- Ht. destruct (terminal_emitted (shared (sess w5))) eqn:Et.
  - unfold wpM, modify_sess, modify, emit_terminal. rewrite Et. by destruct w5.
  - eapply wpM_mono; [by apply emit_terminal_says|]. intros _ w6 (Hw6 & A & Hd6). split_and!; try done; [by destruct A as (? & ? & ? & ? & ? & ? & ? & ? & ?)|congruence|].
    rewrite <- (app_nil_r (asks cs)). by apply replied_announced with w5.
Qed.
End loop.
