(* ===== verification/SessionProps.v ===== *)
(** * What holds of a session at every step

    [Action] is what the callers, the registry and the worker thread may do,
    [step] lets them do it in any order beside the other sessions of the queue
    and its consumer, and [sys_ok] is what every step preserves.  Every action
    returns: no assertion of the code fails. *)

From stdpp Require Import gmap relations.
From S2P Require Import Prelude RustStr Errors Columns Segment Policy ResultStore Events EventQueue EventQueueProps EventClaims EventBound SessionShared SessionWorld Reply Worker Session WorkerProps WorkerReplies WorkerLoop.
Open Scope Z_scope.
Open Scope run_scope.
Open Scope session_scope.

Section props.
Context {DO : DriverObjects} {DR : Driver} `{Layout} `{law : !LawfulOutput}.
Context (sid : SessionId) (open_request : RequestId).
#[local] Notation core := (core sid).
#[local] Notation replied := (replied sid).
#[local] Notation announced := (announced sid).
#[local] Notation all_mine := (all_mine sid).

(** ** What was said *)

Definition terminals (es : list SessionEvent) : Z := tally (fun e => ind (is_terminal e)) es.
Definition opens (e : SessionEvent) : bool := match e with Opened _ _ _ _ _ | OpenFailed _ _ _ => true | _ => false end.

(** Every request accepted was answered once or is pending; the end was said at
    most once; the open was answered first. *)
Record heard (pending acc : list RequestId) (x : Sess) : Prop := {
  heard_once : reply_requests (said x) ++ pending ≡ₚ acc;
  heard_end : terminals (said x) = ind (terminal_emitted (shared x));
  heard_first : match said x with
                | [] => True
                | e :: _ => opens e = true /\ event_request e = Some open_request
                end;
}.

Lemma terminals_none es : Forall (fun e => is_terminal e = false /\ event_session e = sid) es -> terminals es = 0.
Proof. induction 1 as [|e es [He _] _ IH]; [done|]. unfold terminals in *. cbn [tally]. rewrite He. cbn. lia. Qed.

Lemma terminals_app es fs : terminals (es ++ fs) = terminals es + terminals fs.
Proof. apply tally_app. Qed.

Lemma first_app (es fs : list SessionEvent) :
  es <> [] -> match es with [] => True | e :: _ => opens e = true /\ event_request e = Some open_request end ->
  match es ++ fs with [] => True | e :: _ => opens e = true /\ event_request e = Some open_request end.
Proof. by destruct es. Qed.

Lemma heard_replied qs pending pending' acc w w' :
  heard pending acc (sess w) -> said (sess w) <> [] -> replied qs w w' -> pending ≡ₚ qs ++ pending' ->
  heard pending' acc (sess w') /\ said (sess w') <> [].
Proof.
  intros [H1 H2 H3] Hne [[(es & E & Hq & Hf) T _] _] Hp. split; [|rewrite E; by destruct (said (sess w))]. split.
  - rewrite E, reply_requests_app, Hq, <- app_assoc, <- Hp. done.
  - rewrite E, terminals_app, (terminals_none es Hf), T, H2. lia.
  - rewrite E. by apply first_app.
Qed.

Lemma heard_announced qs pending pending' acc w w' :
  heard pending acc (sess w) -> said (sess w) <> [] -> announced qs w w' -> pending ≡ₚ qs ++ pending' ->
  heard pending' acc (sess w') /\ said (sess w') <> [].
Proof.
  intros [H1 H2 H3] Hne (es & t & E & Hq & Hf & Ht & _ & T1 & T2) Hp. split; [|rewrite E; by destruct (said (sess w))].
  assert (Hr : reply_of t = []) by (unfold reply_of; by destruct t).
  split.
  - rewrite E, !reply_requests_app, Hq. unfold reply_requests at 2. cbn [flat_map]. rewrite Hr, !app_nil_r, <- app_assoc, <- Hp. done.
  - rewrite E, !terminals_app, (terminals_none es Hf), H2, T1, T2. unfold terminals. cbn [tally]. by rewrite Ht.
  - rewrite E. by apply first_app.
Qed.

(** ** The actions *)

Inductive Action :=
| AExecute (q : RequestId) (st : Statement)
| AFetch (q : RequestId) (r : ResultId) (max_rows : Z)
| AFetchSegment (q : RequestId) (f : FetchRequest)
| ACommit (q : RequestId)
| ARollback (q : RequestId)
| ASavepoint (q : RequestId) (n : SavepointName)
| ARollbackToSavepoint (q : RequestId) (n : SavepointName)
| APing (q : RequestId)
| AReadLobChunk (q : RequestId) (h : LobHandle) (max_bytes : Z)
| ACloseResult (q : RequestId) (r : ResultId)
| ACloseLob (q : RequestId) (h : LobHandle)
| ASetServerOutput (q : RequestId) (x : ServerOutputSetting)
| AClose (q : RequestId) (d : option CloseDisposition)
(* a completion-path operation: its command *)
| AWait (c : Command)
| ACloseBegin (id : Z) (d : option CloseDisposition)
| ACloseEnd (id : Z)
| ATakeOutput
| ACancel (outcome : result CancelOutcome DbError)
| AGet
| ALetGo (id : Z) (outcome : result CancelOutcome DbError)
| AAbandon (id : Z) (outcome : result CancelOutcome DbError)
| ARetire (id : Z) (outcome : result CancelOutcome DbError)
| ADropRegistry (id : Z) (outcome : result CancelOutcome DbError)
| AStart
| AWork
| AHangUp.

Definition done_with {A} (m : run (A * System)) : run System := let! (_, s) := m in Ret s.

(** A completion-path operation, by its command. *)
Definition wait_for (c : Command) (s : System) : run System :=
  match c with
  | CExecute st {| channel := OneShot id l |} => execute_waiting id l st s
  | CFetchBatch r n {| channel := OneShot id l |} => fetch_batch_waiting id l r n s
  | CFetchSegment t n {| channel := OneShot id l |} => fetch_segment_waiting id l (mkRequest t n) s
  | CCloseResult r {| channel := OneShot id l |} => close_result_waiting id l r s
  | CCommit {| channel := OneShot id l |} => commit_waiting id l s
  | CRollback {| channel := OneShot id l |} => rollback_waiting id l s
  | CSavepoint n {| channel := OneShot id l |} => savepoint_waiting id l n s
  | CRollbackToSavepoint n {| channel := OneShot id l |} => rollback_to_savepoint_waiting id l n s
  | CPing {| channel := OneShot id l |} => ping_waiting id l s
  | CReadLobChunk h n {| channel := OneShot id l |} => read_lob_chunk_waiting id l h n s
  | CCloseLob h {| channel := OneShot id l |} => close_lob_waiting id l h s
  | CSetServerOutput x {| channel := OneShot id l |} => set_server_output_waiting id l x s
  | _ => Ret s
  end.

Definition perform (a : Action) (s : System) : run System :=
  match a with
  | AExecute q st => done_with (submit_execute q st s)
  | AFetch q r n => done_with (submit_fetch q r n s)
  | AFetchSegment q f => done_with (submit_fetch_segment q f s)
  | ACommit q => done_with (submit_commit q s)
  | ARollback q => done_with (submit_rollback q s)
  | ASavepoint q n => done_with (submit_savepoint q n s)
  | ARollbackToSavepoint q n => done_with (submit_rollback_to_savepoint q n s)
  | APing q => done_with (submit_ping q s)
  | AReadLobChunk q h n => done_with (submit_read_lob_chunk q h n s)
  | ACloseResult q r => done_with (submit_close_result q r s)
  | ACloseLob q h => done_with (submit_close_lob q h s)
  | ASetServerOutput q x => done_with (submit_set_server_output q x s)
  | AClose q d => done_with (submit_close q d s)
  | AWait c => wait_for c s
  | ACloseBegin id d => done_with (close_begin id d s)
  | ACloseEnd id => Ret (close_end id s).2
  | ATakeOutput => Ret (take_server_output s).2
  | ACancel o => Ret (cancel o s).2
  | AGet => Ret (default s (get s))
  | ALetGo id o => let_go id o s
  | AAbandon id o => done_with (abandon id o s)
  | ARetire id o => done_with (retire id o s)
  | ADropRegistry id o => drop_registry id o s
  | AStart => start s
  | AWork => work s
  | AHangUp => hang_up s
  end.

(** When an action may happen: a caller needs a handle, the thread is where the
    action is. *)
Definition allowed (a : Action) (s : System) : bool :=
  match a with
  | AStart => bool_decide (thread s = Connecting)
  | AWork => bool_decide (thread s = Running)
  | AHangUp => bool_decide (thread s = Running) && negb (alive s) && is_nil (waiting s)
  | AGet | AAbandon _ _ | ARetire _ _ | ADropRegistry _ _ => true
  | _ => (0 <? holders s)%nat
  end.

(** What others do to the queue. *)
Definition foreign (a : Act) : Prop :=
  (forall e, a = Said e -> event_session e <> sid) /\ a <> Accepted sid.

Definition with_chan (c : Chan) (s : System) : System :=
  set_world (set_sess {| shared := the_shared s; chan := c; said := said (sess (world s)) |} (world s)) s.

Inductive step (s : System) : System -> Prop :=
| step_own a s' : allowed a s = true -> perform a s = Ret s' -> step s s'
| step_other a c : foreign a -> chan_step (chan (sess (world s))) a c -> step s (with_chan c s).
(** ** The invariant *)

Definition opening (s : System) : list RequestId :=
  match entry s with Some (EOpening r) => asked (channel r) | _ => [] end.
Definition open_cost (s : System) : Z :=
  match entry s with Some (EOpening r) => cost (channel r) | _ => 0 end.
Definition settled (s : System) : Prop := forall r, entry s <> Some (EOpening r).

(** [sys_but n qs]: with [n] slots and the requests [qs] accepted and not yet in
    the channel. *)
Record sys_but (n : Z) (qs : list RequestId) (s : System) : Prop := {
  ok_core : core (n + (open_cost s + costs (waiting s))) (world s);
  ok_heard : heard (qs ++ opening s ++ asks (waiting s)) (accepted s) (sess (world s));
  ok_mine : all_mine (waiting s);
  ok_entry : match entry s with
             | Some (EOpening r) => thread s = Connecting /\ channel r = ByEvent sid open_request /\
                 said (sess (world s)) = [] /\ terminal_emitted (the_shared s) = false /\
                 lifecycle (state (the_shared s)) <> LClosed
             | _ => said (sess (world s)) <> []
             end;
  ok_connecting : thread s = Connecting -> waiting s = [] /\ alive s = false /\ connected (worker (world s)) = false /\
    (settled s -> terminal_emitted (the_shared s) = true);
  ok_exited : thread s = Exited -> waiting s = [] /\ connected (worker (world s)) = false /\
    terminal_emitted (the_shared s) = true;
}.
Definition sys_ok := sys_but 0 [].

Lemma not_connecting_settled n qs s : sys_but n qs s -> thread s <> Connecting -> settled s.
Proof. intros Hs Ht r E. pose proof (ok_entry _ _ _ Hs) as He. rewrite E in He. by destruct He. Qed.

Lemma alive_not_connecting n qs s : sys_but n qs s -> alive s = true -> thread s <> Connecting.
Proof. intros Hs Ha Ht. destruct (ok_connecting _ _ _ Hs Ht) as (_ & E & _). congruence. Qed.

Lemma settled_entry s : settled s -> opening s = [] /\ open_cost s = 0.
Proof. unfold settled, opening, open_cost. destruct (entry s) as [[r| | |]|]; try done. intros Hs. by destruct (Hs r). Qed.

Lemma settled_said n qs s : sys_but n qs s -> settled s -> said (sess (world s)) <> [].
Proof.
  intros Hs Hd. pose proof (ok_entry _ _ _ Hs) as He. destruct (entry s) as [[r| | |]|] eqn:E; try done. by destruct (Hd r).
Qed.

(** A step of the world that answers [qs]. *)
Lemma world_step n n' qs qs' rest s w' :
  sys_but n qs s -> settled s -> replied qs' (world s) w' -> core (n' + costs (waiting s)) w' ->
  qs = qs' ++ rest -> sys_but n' rest (set_world w' s).
Proof.
  intros Hs Hd R Hc E.
  destruct (settled_entry s Hd) as [Eo Ec]. pose proof (settled_said _ _ _ Hs Hd) as Hne.
  destruct (heard_replied qs' _ (rest ++ opening s ++ asks (waiting s)) _ _ _ (ok_heard _ _ _ Hs) Hne R) as [Hh Hne'].
  { by rewrite E, <- app_assoc. }
  destruct R as [[_ T _] C].
  split; try apply Hs; try done.
  - change (open_cost (set_world w' s)) with (open_cost s). rewrite Ec. cbn. by replace (0 + costs (waiting s)) with (costs (waiting s)) by lia.
  - change (entry (set_world w' s)) with (entry s). destruct (entry s) as [[r| | |]|] eqn:Ee; try done. by destruct (Hd r).
  - intros Ht. destruct (ok_connecting _ _ _ Hs Ht) as (A1 & A2 & A3 & A4). split_and!; try done.
    + cbn. destruct (connected (worker w')); [|done]. by rewrite C in A3.
    + intros Hd'. unfold the_shared. cbn. rewrite T. by apply A4.
  - intros Ht. destruct (ok_exited _ _ _ Hs Ht) as (A1 & A2 & A3). split_and!; try done.
    + cbn. destruct (connected (worker w')); [|done]. by rewrite C in A2.
    + unfold the_shared. cbn. by rewrite T.
Qed.
(** An operation of the world that returns. *)
Lemma in_world_returns {A} (m : M A) Q s :
  wpM true m Q (world s) -> exists a w', in_world m s = Ret (a, set_world w' s) /\ Q a w'.
Proof. unfold wpM, in_world. destruct (m (world s)) as [[a w']| |]; [|done..]. intros HQ. by exists a, w'. Qed.

Lemma core_at n qs s : sys_but n qs s -> settled s -> core (n + costs (waiting s)) (world s).
Proof.
  intros Hs Hd. destruct (settled_entry s Hd) as [_ Ec]. pose proof (ok_core _ _ _ Hs) as Hc. rewrite Ec in Hc. apply Hc.
Qed.

Lemma exited_waiting n qs s : sys_but n qs s -> thread s = Exited -> waiting s = [].
Proof. intros Hs Ht. by destruct (ok_exited _ _ _ Hs Ht). Qed.

(** What sending or answering does not touch. *)
Definition same_frame (s s' : System) : Prop :=
  thread s' = thread s /\ terminal_emitted (the_shared s') = terminal_emitted (the_shared s) /\ entry s' = entry s /\
  holders s' = holders s /\ ready s' = ready s /\ joinable s' = joinable s.

(** A step that says the session ended says it last, with nothing pending. *)
Definition ends (s s' : System) : Prop :=
  terminal_emitted (the_shared s) = false -> terminal_emitted (the_shared s') = true ->
  opening s' = [] /\ waiting s' = [] /\
  exists es t, said (sess (world s')) = said (sess (world s)) ++ es ++ [t] /\ is_terminal t = true.

Lemma same_ends s s' : terminal_emitted (the_shared s') = terminal_emitted (the_shared s) -> ends s s'.
Proof. intros E H1 H2. congruence. Qed.

(** A quiet change of the world. *)
Lemma quiet_step f s :
  mute f -> sys_ok s -> settled s -> sys_ok (set_world (set_sess (on_shared f (sess (world s))) (world s)) s).
Proof.
  intros Hf Hs Hd. pose proof (core_at _ _ _ Hs Hd) as Hc. pose proof (mute_keeps sid _ f Hf (world s) Hc) as [Hc' R].
  by apply (world_step 0 0 [] [] []).
Qed.

(** An answer to the request not yet in the channel. *)
Lemma answer_step {A} c (m : M A) s :
  mine sid c -> answers sid c m -> sys_but (cost c) (asked c) s -> settled s ->
  exists a s', in_world m s = Ret (a, s') /\ sys_ok s' /\ same_frame s s'.
Proof.
  intros Hm Ha Hs Hd. pose proof (core_at _ _ _ Hs Hd) as Hc. rewrite Z.add_comm in Hc.
  destruct (in_world_returns m _ s (Ha _ _ (costs_nonneg _) Hc)) as (a & w' & E & Hc' & R).
  exists a, (set_world w' s). split; [done|]. split; [|split_and!; try done; apply R].
  apply (world_step (cost c) 0 (asked c) (asked c) []); try done. by rewrite app_nil_r.
Qed.

Lemma asks_snoc (cs : list Command) c : asks (cs ++ [c]) = asks cs ++ asked (command_channel c).
Proof. unfold asks. rewrite flat_map_app. cbn [flat_map]. by rewrite app_nil_r. Qed.

Lemma send_ok c s :
  mine sid (command_channel c) -> sys_but (cost (command_channel c)) (asked (command_channel c)) s -> thread s <> Connecting ->
  exists b s', send c s = Ret (b, s') /\ sys_ok s' /\ same_frame s s' /\ (b = false -> thread s = Exited).
Proof.
  intros Hm Hs Ht. pose proof (not_connecting_settled _ _ _ Hs Ht) as Hd. unfold send.
  destruct (thread s) eqn:Eth; [done| |].
  - eexists _, _. split; [done|]. split; [|by split_and!]. destruct (settled_entry s Hd) as [Eo Ec].
    destruct Hs as [H1 H2 H3 H4 H5 H6]. split; try done.
    + change (core (0 + (open_cost s + costs (waiting s ++ [c]))) (world s)). rewrite costs_app. cbn.
      by replace (open_cost s + (costs (waiting s) + (cost (command_channel c) + 0))) with
        (cost (command_channel c) + (open_cost s + costs (waiting s))) by lia.
    + destruct H2 as [P1 P2 P3]. split; try done. rewrite <- P1.
      change (reply_requests (said (sess (world s))) ++ opening s ++ asks (waiting s ++ [c]) ≡ₚ
        reply_requests (said (sess (world s))) ++ asked (command_channel c) ++ opening s ++ asks (waiting s)).
      rewrite asks_snoc. apply Permutation_app_head. rewrite app_assoc. apply Permutation_app_comm.
    + apply Forall_app. split; [done|by repeat constructor].
    + cbn. by rewrite Eth.
    + cbn. by rewrite Eth.
  - destruct (answer_step (command_channel c) (drop_command c) s Hm (drop_command_answers sid c Hm) Hs Hd) as ([] & s' & E & Hs' & F).
    rewrite E. exists false, s'. by split_and!.
Qed.
(** ** The handle *)

Lemma reserve_ok lim s x :
  sys_ok s -> settled s -> reserve_request lim (sess (world s)) = Ok x ->
  core (1 + costs (waiting s)) (set_sess x (world s)) /\ shared x = shared (sess (world s)) /\ said x = said (sess (world s)).
Proof.
  intros Hs Hd E. destruct (core_at _ _ _ Hs Hd) as [[H1 H2 H3 H4 H5] Hc]. unfold reserve_request in E. rewrite H1 in E.
  destruct (reserve lim sid (chan (sess (world s)))) as [c|e] eqn:Er; [|done]. injection E as <-.
  pose proof (step_ok _ _ _ H3 (step_accept _ _ _ _ Er)) as Hok.
  destruct (reserve_eq _ _ _ _ Er) as (Ei & _ & _ & Ho). split_and!; try done. split; [|done]. split; cbn; try done.
  - rewrite Ho, H4, Z.eqb_refl. unfold queued. rewrite Ei. cbn. lia.
  - pose proof (costs_nonneg (waiting s)). lia.
Qed.

Lemma admit_ok lim q s s' :
  sys_ok s -> settled s -> take_slot lim q s = Ok s' -> sys_but 1 [q] s' /\ same_frame s s' /\ the_shared s' = the_shared s /\ waiting s' = waiting s.
Proof.
  intros Hs Hd E. unfold take_slot in E. destruct (check_event_route s); [|done].
  destruct (reserve_request lim (sess (world s))) as [x|] eqn:Er; [|done]. injection E as <-.
  destruct (reserve_ok lim s x Hs Hd Er) as (Hc & Esh & Esa). destruct (settled_entry s Hd) as [Eo Ec].
  split; [|unfold same_frame, the_shared; cbn; by rewrite Esh]. destruct Hs as [H1 H2 H3 H4 H5 H6].
  split; try done; unfold the_shared in *; cbn; rewrite ?Esh, ?Esa; try done.
  - change (open_cost (accept q _)) with (open_cost s). rewrite Ec. exact Hc.
  - change (opening (accept q _)) with (opening s). destruct H2 as [P1 P2 P3]. split; cbn; rewrite ?Esh, ?Esa; try done.
    cbn in P1. rewrite <- P1. rewrite <- app_assoc. apply Permutation_app_head. rewrite (Permutation_app_comm _ [q]). done.
Qed.

Lemma holder_not_connecting s : sys_ok s -> (0 <? holders s)%nat = true -> thread s <> Connecting.
Proof. intros Hs Hh. apply (alive_not_connecting _ _ _ Hs). unfold alive. rewrite Hh. apply orb_true_r. Qed.

Lemma submit_event_ok {T} {P : ReplyPayload T} q subj (make : ReplyTo T -> Command) s :
  (forall r, command_channel (make r) = channel r) -> sys_ok s -> (0 <? holders s)%nat = true ->
  exists s', done_with (submit_event q subj make s) = Ret s' /\ sys_ok s' /\ ends s s'.
Proof.
  intros Hmk Hs Hh. pose proof (holder_not_connecting s Hs Hh) as Ht. pose proof (not_connecting_settled _ _ _ Hs Ht) as Hd.
  unfold done_with, submit_event. destruct (take_slot _ q s) as [s1|e] eqn:E; cbn [rbind]; [|exists s; split_and!; try done; by apply same_ends].
  destruct (admit_ok _ _ _ _ Hs Hd E) as (Hs1 & (Et & Ete & _) & Esh & _).
  assert (Esid : session (the_shared s1) = sid) by (rewrite Esh; apply (core_at _ _ _ Hs Hd)). rewrite Esid.
  set (r := mkReplyTo _ _).
  destruct (send_ok (make r) s1) as (b & s2 & E2 & Hs2 & (_ & Ete2 & _) & _); rewrite ?Hmk; try done; [congruence|].
  rewrite E2. cbn. exists s2. split_and!; try done. apply same_ends. congruence.
Qed.

Lemma submit_close_ok q d s :
  sys_ok s -> (0 <? holders s)%nat = true -> exists s', done_with (submit_close q d s) = Ret s' /\ sys_ok s' /\ ends s s'.
Proof.
  intros Hs Hh. pose proof (holder_not_connecting s Hs Hh) as Ht. pose proof (not_connecting_settled _ _ _ Hs Ht) as Hd.
  unfold done_with, submit_close. destruct (take_slot _ q s) as [s1|e] eqn:E; cbn [rbind]; [|exists s; split_and!; try done; by apply same_ends].
  destruct (admit_ok _ _ _ _ Hs Hd E) as (Hs1 & (Et & Ete & _) & Esh & _).
  assert (Esid : session (the_shared s1) = sid) by (rewrite Esh; apply (core_at _ _ _ Hs Hd)). rewrite Esid.
  assert (Ht1 : thread s1 <> Connecting) by congruence.
  destruct (settled_close (the_shared s1)) as [v|].
  - destruct (answer_step (ByEvent sid q) (close_answer (ByEvent sid q) (match v with Ok _ => Ok tt | Err e => Err (CloseFailed e) end)) s1)
      as (b & s2 & E2 & Hs2 & (_ & Ete2 & _)); try done; [by apply close_answer_answers|by eapply not_connecting_settled|].
    rewrite E2. exists s2. split_and!; try done. apply same_ends. congruence.
  - destruct (send_ok (CClose (Explicit d) (ByEvent sid q)) s1) as (b & s2 & E2 & Hs2 & (_ & Ete2 & _) & _); try done.
    rewrite E2. exists s2. split_and!; try done. apply same_ends. congruence.
Qed.

Lemma one_shot_send c id l s :
  command_channel c = OneShot id l -> sys_ok s -> thread s <> Connecting ->
  exists b s', send c s = Ret (b, s') /\ sys_ok s' /\ same_frame s s'.
Proof. intros Ec Hs Ht. destruct (send_ok c s) as (b & s' & E & Hs' & F & _); rewrite ?Ec; try done. by exists b, s'. Qed.

Lemma submit_ok {T} {P : ReplyPayload T} id l subj (make : ReplyTo T -> Command) s :
  (forall r, command_channel (make r) = channel r) -> sys_ok s -> (0 <? holders s)%nat = true ->
  exists s', submit id l subj make s = Ret s' /\ sys_ok s' /\ ends s s'.
Proof.
  intros Hmk Hs Hh. pose proof (holder_not_connecting s Hs Hh) as Ht. unfold submit. set (r := mkReplyTo _ _).
  destruct (one_shot_send (make r) id l s (Hmk r) Hs Ht) as ([] & s1 & E1 & Hs1 & F1); rewrite E1; cbn [rbind];
    [exists s1; split_and!; try done; by apply same_ends, F1|].
  set (m := send_one_shot _ _ _).
  destruct (answer_step (OneShot id l) m s1 I (one_shot_answers sid id l _) Hs1) as (b & s2 & E2 & Hs2 & F2).
  { eapply not_connecting_settled; [done|]. destruct F1 as (-> & _). done. }
  rewrite E2. exists s2. split_and!; try done. apply same_ends. destruct F1 as (_ & E3 & _), F2 as (_ & E4 & _). congruence.
Qed.

Lemma cancel_ok o s : sys_ok s -> settled s -> sys_ok (cancel o s).2 /\ same_frame s (cancel o s).2.
Proof.
  intros Hs Hd. assert (Hm : forall e, sys_ok (set_world (set_sess (on_shared (note_error e) (sess (world s))) (world s)) s))
    by (intros e; apply quiet_step; [apply note_error_mute|done..]).
  assert (Hf : forall e, same_frame s (set_world (set_sess (on_shared (note_error e) (sess (world s))) (world s)) s))
    by (intros e; split_and!; try done; apply note_error_mute).
  unfold cancel. destruct (ready s) as [[[] ? ?]|]; repeat case_match; cbn [snd]; try (split; [apply Hm|apply Hf]); done.
Qed.

Lemma begin_abandon_ok id l o s :
  sys_ok s -> thread s <> Connecting -> exists b s', begin_abandon id l o s = Ret (b, s') /\ sys_ok s' /\ same_frame s s'.
Proof.
  intros Hs Ht. pose proof (not_connecting_settled _ _ _ Hs Ht) as Hd. unfold begin_abandon. set (s1 := set_world _ s).
  assert (Hs1 : sys_ok s1) by (by apply (quiet_step request_abandon)).
  assert (F1 : same_frame s s1) by done. set (s2 := if has_ended (the_shared s1) then s1 else (cancel o s1).2).
  assert (Hs2 : sys_ok s2 /\ same_frame s s2).
  { unfold s2. destruct (has_ended _); [done|]. by apply (cancel_ok o s1). }
  destruct Hs2 as [Hs2 F2]. assert (Ht2 : thread s2 <> Connecting) by (destruct F2 as (-> & _); done).
  destruct (one_shot_send (CClose Abandon (OneShot id l)) id l s2 eq_refl Hs2 Ht2) as (b & s3 & E & Hs3 & F3).
  exists b, s3. split; [done|]. split; [done|]. destruct F2 as (? & ? & ? & ? & ? & ?), F3 as (? & ? & ? & ? & ? & ?). unfold same_frame. split_and!; congruence.
Qed.
Lemma quiet_fields s s' :
  sys_ok s -> settled s -> world s' = world s -> thread s' = thread s -> waiting s' = waiting s -> accepted s' = accepted s ->
  settled s' -> (thread s = Connecting -> alive s' = false) -> sys_ok s'.
Proof.
  intros Hs Hd E1 E2 E3 E4 Hd' Ha. pose proof (settled_said _ _ _ Hs Hd) as Hne.
  destruct (settled_entry _ Hd) as [Eo Ec], (settled_entry _ Hd') as [Eo' Ec']. destruct Hs as [H1 H2 H3 H4 H5 H6].
  split; unfold the_shared in *; rewrite ?E1, ?E2, ?E3, ?E4, ?Eo', ?Ec', ?Eo, ?Ec in *; try done.
  - destruct (entry s') as [[r| | |]|] eqn:Ee; try done. by destruct (Hd' r).
  - intros Ht. destruct (H5 Ht) as (A1 & A2 & A3 & A4). split_and!; auto.
Qed.

Lemma drop_session_ok id o s : sys_ok s -> thread s <> Connecting -> exists s', drop_session id o s = Ret s' /\ sys_ok s' /\ ends s s'.
Proof.
  intros Hs Ht. unfold drop_session. destruct (joinable s); cbn [negb]; [|exists s; split_and!; try done; by apply same_ends].
  destruct (begin_abandon_ok id true o s Hs Ht) as (b & s1 & E & Hs1 & F). rewrite E. cbn [rbind]. eexists. split; [done|].
  assert (Ht1 : thread s1 <> Connecting) by (destruct F as (-> & _); done).
  pose proof (not_connecting_settled _ _ _ Hs1 Ht1) as Hd. split; [by apply (quiet_fields s1)|apply same_ends, F].
Qed.

Lemma released_ok id o s : sys_ok s -> thread s <> Connecting -> exists s', released id o s = Ret s' /\ sys_ok s' /\ ends s s'.
Proof.
  intros Hs Ht. unfold released. destruct (alive s); [exists s; split_and!; try done; by apply same_ends|].
  by apply drop_session_ok.
Qed.

Lemma close_begin_ok id d s :
  sys_ok s -> (0 <? holders s)%nat = true -> exists s', done_with (close_begin id d s) = Ret s' /\ sys_ok s' /\ ends s s'.
Proof.
  intros Hs Hh. pose proof (holder_not_connecting s Hs Hh) as Ht. unfold done_with, close_begin.
  destruct (joinable s); cbn [negb rbind]; [|exists s; split_and!; try done; by apply same_ends].
  destruct (one_shot_send (CClose (Explicit d) (OneShot id true)) id true s eq_refl Hs Ht) as ([] & s1 & E & Hs1 & F);
    rewrite E; cbn [rbind]; eexists; (split; [done|]); (split; [|apply same_ends, F]); [done|].
  assert (Ht1 : thread s1 <> Connecting) by (destruct F as (-> & _); done).
  pose proof (not_connecting_settled _ _ _ Hs1 Ht1) as Hd. by apply (quiet_fields s1).
Qed.

Lemma unjoined_ok s : sys_ok s -> thread s <> Connecting -> sys_ok (set_joinable false s).
Proof. intros Hs Ht. pose proof (not_connecting_settled _ _ _ Hs Ht) as Hd. by apply (quiet_fields s). Qed.

Lemma close_end_ok id s : sys_ok s -> thread s <> Connecting -> sys_ok (close_end id s).2.
Proof.
  intros Hs Ht. unfold close_end. pose proof (unjoined_ok s Hs Ht).
  destruct (close_received id (world s)) as [[[]|e]|]; [done|by destruct (session_is_still_open e)|].
  destruct (thread s) eqn:E; done.
Qed.

Lemma get_ok s : sys_ok s -> sys_ok (default s (get s)).
Proof.
  intros Hs. unfold get. destruct (entry s) as [[r| | |]|] eqn:Ee; try done. cbn.
  assert (Ht : thread s <> Connecting) by (apply (alive_not_connecting _ _ _ Hs); unfold alive, registered; by rewrite Ee).
  pose proof (not_connecting_settled _ _ _ Hs Ht) as Hd. apply (quiet_fields s); try done.
Qed.

Lemma let_go_ok id o s : sys_ok s -> (0 <? holders s)%nat = true -> exists s', let_go id o s = Ret s' /\ sys_ok s' /\ ends s s'.
Proof.
  intros Hs Hh. pose proof (holder_not_connecting s Hs Hh) as Ht. pose proof (not_connecting_settled _ _ _ Hs Ht) as Hd.
  unfold let_go. destruct (holders s) as [|n] eqn:En; [exists s; split_and!; try done; by apply same_ends|].
  apply (released_ok id o (set_holders n s)); [by apply (quiet_fields s)|done].
Qed.
(** ** Opening *)

(** [m] answers the open: the first thing the session says. *)
Definition open_says {A} (m : M A) : Prop := forall w,
  sess_ok sid 1 (sess w) -> said (sess w) = [] ->
  wpM true m (fun _ w' => sess_ok sid 0 (sess w') /\ shared (sess w') = shared (sess w) /\ worker w' = worker w /\
    exists e, said (sess w') = [e] /\ opens e = true /\ event_request e = Some open_request) w.

Lemma emit_open_says e {A} (a : A) :
  opens e = true -> event_session e = sid -> event_request e = Some open_request -> open_says (lift_sess (emit_reply e);; ret a).
Proof.
  intros Ho Hs Hq w Hw Hn. assert (Hr : is_reply e = true) by (by destruct e).
  destruct (emit_reply_ok sid 0 (sess w) e open_request Hr Hs Hq Hw ltac:(lia)) as (x' & E & Hx & _).
  unfold wpM, bind, lift_sess. rewrite E. cbn. split; [done|]. unfold emit_reply in E. rewrite (core_bound _ _ _ Hw) in E.
  destruct (reply_into (chan (sess w)) e) as [[c b]| |]; cbn in E; try done. injection E as <-. cbn. rewrite Hn. split_and!; try done.
  by exists e.
Qed.

Lemma answer_open_says (r : ReplyTo OpenedSession) v : channel r = ByEvent sid open_request -> open_says (answer r v).
Proof. intros E. unfold answer. rewrite E. by destruct v; apply emit_open_says. Qed.

Lemma drop_open_says (r : ReplyTo OpenedSession) : channel r = ByEvent sid open_request -> open_says (drop_reply r).
Proof.
  intros E w Hw Hn. unfold drop_reply. rewrite E. apply wpM_read.
  pose proof (emit_open_says (into_event sid open_request (subject r) (Err (terminal_error (shared (sess w))))) tt eq_refl eq_refl
    eq_refl w Hw Hn) as He.
  unfold wpM, bind in He. unfold wpM. by destruct (lift_sess _ w) as [[[] w']| |].
Qed.

Lemma heard_opened acc w w' e :
  heard [open_request] acc (sess w) -> said (sess w) = [] -> said (sess w') = [e] -> opens e = true ->
  event_request e = Some open_request -> shared (sess w') = shared (sess w) -> heard [] acc (sess w').
Proof.
  intros [H1 H2 H3] En E Ho Hq Es. rewrite En in *.
  assert (Hr : reply_of e = [open_request]) by (unfold reply_of; rewrite Hq; by destruct e).
  split; rewrite E; try done.
  - unfold reply_requests. cbn. rewrite Hr. done.
  - rewrite Es, <- H2. unfold terminals. cbn. by destruct e.
Qed.

(** The parts of a session whose open is pending. *)
Lemma opening_facts s r :
  sys_ok s -> entry s = Some (EOpening r) ->
  thread s = Connecting /\ channel r = ByEvent sid open_request /\ said (sess (world s)) = [] /\
  terminal_emitted (the_shared s) = false /\ lifecycle (state (the_shared s)) <> LClosed /\
  waiting s = [] /\ connected (worker (world s)) = false /\ core 1 (world s) /\ heard [open_request] (accepted s) (sess (world s)).
Proof.
  intros [H1 H2 H3 H4 H5 H6] E. unfold open_cost, opening in *. rewrite E in *. destruct H4 as (Ht & Hc & Hn & Hte & Hl).
  destruct (H5 Ht) as (Hw & _ & Hcon & _). rewrite Hw, Hc in *. by split_and!.
Qed.

(** The open answered with a failure, and the end said right after it. *)
Lemma open_ends {A} f (m : M A) acc w :
  core 1 w -> connected (worker w) = false -> said (sess w) = [] -> terminal_emitted (shared (sess w)) = false ->
  heard [open_request] acc (sess w) -> open_says m ->
  session (f (shared (sess w))) = sid -> bound (f (shared (sess w))) = true -> terminal_emitted (f (shared (sess w))) = false ->
  exists w', (modify_shared f;; do _ <- m; modify_sess (emit_terminal false)) w = Ret (tt, w') /\
    core 0 w' /\ heard [] acc (sess w') /\ said (sess w') <> [] /\ terminal_emitted (shared (sess w')) = true /\
    connected (worker w') = false /\ exists es t, said (sess w') = es ++ [t] /\ is_terminal t = true.
Proof.
  intros [[H1 H2 H3 H4 H5] Hc] Hcon Hn Hte [P1 P2 P3] Hm F1 F2 F3.
  assert (Hwp : wpM true (modify_shared f;; do _ <- m; modify_sess (emit_terminal false))
    (fun _ w' => core 0 w' /\ heard [] acc (sess w') /\ said (sess w') <> [] /\ terminal_emitted (shared (sess w')) = true /\
       connected (worker w') = false /\ exists es t, said (sess w') = es ++ [t] /\ is_terminal t = true) w).
  { apply wpM_bind. unfold wpM at 1, modify_shared, modify_sess at 1, modify. set (w1 := set_sess _ w).
    assert (Hw1 : sess_ok sid 1 (sess w1)) by by split.
    assert (Hh1 : heard [open_request] acc (sess w1)) by (split; [done| |done];
        change (terminals (said (sess w)) = ind (terminal_emitted (f (shared (sess w))))); by rewrite F3, P2, Hte).
    apply wpM_bind. eapply wpM_mono; [by apply Hm|]. intros a w2 (Hw2 & Es & Ew & e & Ee & Ho & Hq).
    pose proof (heard_opened acc w1 w2 e Hh1 Hn Ee Ho Hq Es) as Hh2.
    assert (Hc2 : core 0 w2) by (split; [done|]; by rewrite Ew).
    assert (Ht2 : terminal_emitted (shared (sess w2)) = false) by by rewrite Es.
    eapply wpM_mono; [by apply emit_terminal_says|]. intros _ w3 (Hw3 & A3 & Hd3).
    destruct (heard_announced [] [] [] acc w2 w3 Hh2) as [Hh3 Hn3]; try done; [by rewrite Ee|].
    destruct A3 as (es & t & Esa & _ & _ & Hit & _ & _ & Hte3). rewrite app_assoc in Esa.
    split_and!; try done; [by rewrite Hd3, Ew|by exists (said (sess w2) ++ es), t]. }
  unfold wpM in Hwp. destruct ((modify_shared f;; _) w) as [[[] w']| |]; try done. by exists w'.
Qed.

Lemma cancel_open_ok reply e s :
  sys_ok s -> entry s = Some (EOpening reply) -> e = None \/ e = Some EEnded ->
  exists s', cancel_open reply (set_entry e s) = Ret s' /\ sys_ok s' /\ ends s s'.
Proof.
  intros Hs Ee He. destruct (opening_facts s reply Hs Ee) as (Ht & Hch & Hn & Hte & Hl & Hw & Hcon & Hc & Hh).
  set (f := fun sh => mark_closed (mark_open_cancelled sh)).
  assert (Hf : forall sh, session (f sh) = session sh /\ bound (f sh) = bound sh /\ terminal_emitted (f sh) = terminal_emitted sh)
    by (intros sh; unfold f, mark_closed; by destruct (is_lost _)).
  destruct (Hf (shared (sess (world s)))) as (F1 & F2 & F3).
  destruct (open_ends f (drop_reply reply) (accepted s) (world s)) as (w' & E & Hc' & Hh' & Hn' & Ht' & Hd' & es & t & Ees & Hit); try done.
  { by apply drop_open_says. } { rewrite F1. apply Hc. } { rewrite F2. apply Hc. } { by rewrite F3. }
  unfold cancel_open, in_world. change (world (set_entry e s)) with (world s).
  change ((modify_shared mark_open_cancelled;; modify_shared mark_closed;; drop_reply reply;; modify_sess (emit_terminal false))
    (world s)) with ((modify_shared f;; do _ <- drop_reply reply; modify_sess (emit_terminal false)) (world s)).
  rewrite E. cbn [rbind]. eexists. split; [done|].
  pose proof (ok_connecting _ _ _ Hs Ht) as (_ & Ha & _).
  assert (Hset : settled (set_world w' (set_entry e s))) by (intros r; cbn; destruct He as [-> | ->]; done).
  split; [|intros _ _; split_and!; [by apply settled_entry|done|exists es, t; cbn; by rewrite Hn]].
  split; cbn; rewrite ?Hw; try done.
  - destruct (settled_entry _ Hset) as [_ ->]. apply Hc'.
  - destruct (settled_entry _ Hset) as [-> _]. apply Hh'.
  - by constructor.
  - destruct He as [-> | ->]; done.
  - intros _. split_and!; try done. unfold alive, registered in *. rewrite Ee in Ha. destruct He as [-> | ->]; exact Ha.
Qed.
(** Connecting says nothing. *)
Definition silent (w w' : World) : Prop :=
  said (sess w') = said (sess w) /\ terminal_emitted (shared (sess w')) = terminal_emitted (shared (sess w)) /\
  (lifecycle (state (shared (sess w'))) = LClosed -> lifecycle (state (shared (sess w))) = LClosed) /\
  connected (worker w') = connected (worker w).

#[local] Instance silent_preorder : PreOrder silent.
Proof. split; [by intros w; split_and!|]. intros w1 w2 w3 (A1 & A2 & A3 & A4) (B1 & B2 & B3 & B4). split_and!; [congruence..|auto|congruence]. Qed.

Lemma call_silent n {A} c (op : D -> D * Called A) : keeps true (core n) silent (call c op).
Proof.
  intros w Hw. pose proof (call_keeps sid n c op w Hw) as Hk. revert Hk. unfold wpM, call.
  destruct (op (driver w)) as [d out]. destruct (outside_mute (outside d) (shared (sess w))) as (_ & _ & E3 & _ & E5).
  by destruct out; intros [Hc _]; (split; [done|]; split_and!).
Qed.

Lemma connect_silent n : keeps true (core n) silent connect.
Proof.
  assert (Hseed : forall t, keeps true (core n) silent (modify_shared (seed_driver_transaction_state t))).
  { intros t w Hw. split; [|by split_and!]. by apply (mute_keeps sid n (seed_driver_transaction_state t) ltac:(by intros s)). }
  unfold connect. apply keeps_bind; [apply _|apply call_silent|]. intros [[]|e]; [|apply keeps_ret; apply _].
  apply keeps_bind; [apply _|apply call_silent|]. intros [ws|e]; [|apply keeps_ret; apply _].
  apply keeps_bind; [apply _|apply keeps_gets; apply _|]. intros t. apply keeps_bind; [apply _|apply Hseed|]. intros _.
  apply keeps_bind; [apply _|apply keeps_gets; apply _|]. intros d. apply keeps_ret; apply _.
Qed.

(** A silent step of a session that is connecting. *)
Lemma connecting_silent s w' :
  sys_ok s -> thread s = Connecting -> core (0 + (open_cost s + costs (waiting s))) w' -> silent (world s) w' -> sys_ok (set_world w' s).
Proof.
  intros [H1 H2 H3 H4 H5 H6] Ht Hc (S1 & S2 & S3 & S4). split; try done.
  - destruct H2 as [P1 P2 P3]. split; cbn; rewrite ?S1, ?S2; done.
  - cbn. unfold the_shared. cbn. change (entry (set_world w' s)) with (entry s).
    destruct (entry s) as [[r| | |]|]; try (by rewrite S1). destruct H4 as (A1 & A2 & A3 & A4 & A5).
    split_and!; try done; [by rewrite S1|by rewrite S2|auto].
  - intros _. destruct (H5 Ht) as (A1 & A2 & A3 & A4). split_and!; try done; cbn; [by rewrite S4|].
    intros Hd. unfold the_shared. cbn. rewrite S2. by apply A4.
  - intros E. cbn in E. congruence.
Qed.

Lemma sys_exit s :
  sys_ok s -> settled s -> waiting s = [] -> connected (worker (world s)) = false -> terminal_emitted (the_shared s) = true ->
  sys_ok (set_thread Exited s).
Proof.
  intros Hs Hd Hw Hc Ht. pose proof (settled_said _ _ _ Hs Hd) as Hne. destruct Hs as [H1 H2 H3 H4 H5 H6]. split; try done.
  change (entry (set_thread Exited s)) with (entry s). destruct (entry s) as [[r| | |]|] eqn:Ee; try done. by destruct (Hd r).
Qed.

Lemma start_ok s : sys_ok s -> thread s = Connecting -> exists s', start s = Ret s' /\ sys_ok s' /\ ends s s'.
Proof.
  intros Hs Ht. unfold start.
  destruct (in_world_returns connect _ s (connect_silent _ _ (ok_core _ _ _ Hs))) as (out & w1 & E1 & Hc1 & S1).
  rewrite E1. cbn [rbind]. set (s1 := set_world w1 s).
  assert (Hends : forall s', ends s1 s' -> ends s s').
  { intros s' He. destruct S1 as (Esa & Ete & _). intros A1 A2. destruct He as (B1 & B2 & B3); unfold the_shared in *; cbn; [congruence|done|].
    split_and!; try done. cbn in B3. by rewrite Esa in B3. }
  assert (Hs1 : sys_ok s1) by (by apply connecting_silent). assert (Ht1 : thread s1 = Connecting) by done.
  destruct (ok_connecting _ _ _ Hs1 Ht1) as (Hw1 & Ha1 & Hcon1 & Hset1). clearbody s1.
  assert (Hlate : forall s2, sys_ok s2 -> settled s2 -> thread s2 = Connecting -> exists s',
    (match out with
     | Ok _ => let! (_, s) := in_world (call CallClose drv_close) s2 in Ret (set_thread Exited s)
     | Err _ => Ret (set_thread Exited s2)
     end) = Ret s' /\ sys_ok s' /\ ends s2 s').
  { intros s2 Hs2 Hd2 Ht2. destruct (ok_connecting _ _ _ Hs2 Ht2) as (Hw2 & Ha2 & Hcon2 & Hset2). specialize (Hset2 Hd2). destruct out.
    - destruct (in_world_returns (call CallClose drv_close) _ s2 (call_silent _ _ _ _ (ok_core _ _ _ Hs2))) as (o & w2 & E2 & Hc2 & S2).
      rewrite E2. cbn [rbind]. eexists. split; [done|]. pose proof (connecting_silent s2 w2 Hs2 Ht2 Hc2 S2) as Hs3.
      destruct S2 as (_ & Et & _ & Ec). split; [|by apply same_ends]. apply sys_exit; try done; unfold the_shared in *; cbn; congruence.
    - eexists. split; [done|]. split; [by apply sys_exit|by apply same_ends]. }
  unfold complete_open. destruct (entry s1) as [[r| | |]|] eqn:Ee.
  - destruct (opening_facts s1 r Hs1 Ee) as (_ & Hch & Hn & Hte & Hl & _ & _ & Hc & Hh). destruct out as [rd|e].
    + set (v := Ok _). set (s2 := set_ready rd (set_entry (Some EOpen) s1)).
      assert (Hwp : wpM true (answer r v) _ (world s2)) by (apply (answer_open_says r v Hch); [apply Hc|done]).
      destruct (in_world_returns _ _ s2 Hwp) as (b & w2 & E2 & Hx & Esh & Ew & e & Ese & Ho & Hq). rewrite E2. cbn [rbind].
      eexists. split; [done|]. pose proof (heard_opened _ (world s1) w2 e Hh Hn Ese Ho Hq Esh) as Hh2.
      split; [|apply Hends, same_ends; unfold the_shared; cbn; by rewrite Esh].
      split; cbn; rewrite ?Hw1; try done; [|by constructor|by rewrite Ese].
      split; [done|]. cbn. rewrite Esh. done.
    + assert (Hf : session (mark_lost_from e (shared (sess (world s1)))) = sid /\ bound (mark_lost_from e (shared (sess (world s1)))) = true)
        by (split; apply Hc). destruct Hf as [F1 F2].
      destruct (open_ends (mark_lost_from e) (answer r (Err e)) (accepted s1) (world s1)) as (w2 & E2 & Hc2 & Hh2 & Hn2 & Ht2 & Hd2 & es & t & Ees & Hit);
        try done; [by apply answer_open_says|].
      unfold in_world. change (world (set_entry None s1)) with (world s1). rewrite E2. cbn [rbind]. eexists. split; [done|].
      split; [|apply Hends; intros _ _; split_and!; [done|done|exists es, t; cbn; by rewrite Hn]].
      split; cbn; rewrite ?Hw1; try done. by constructor.
  - exfalso. unfold alive, registered in Ha1. by rewrite Ee in Ha1.
  - exfalso. unfold alive, registered in Ha1. by rewrite Ee in Ha1.
  - cbn [rbind]. destruct (Hlate (set_entry None s1)) as (s' & E & Hs' & He); [|by intros r|done|by exists s'; auto].
    apply (quiet_fields s1); try done; [intros r; congruence|]. intros _. unfold alive, registered in *. by rewrite Ee in Ha1.
  - cbn [rbind]. destruct (Hlate s1) as (s' & E & Hs' & He); [done|intros r; congruence|done|]. exists s'. auto.
Qed.
(** ** The worker thread *)

Lemma served_ok flow s handled rest w1 :
  sys_ok s -> thread s = Running -> waiting s = handled ++ rest -> core (0 + costs rest) w1 ->
  served sid flow handled rest (world s) w1 ->
  sys_ok (set_waiting rest (set_world w1 s)) /\ ends s (set_waiting rest (set_world w1 s)).
Proof.
  intros Hs Ht Ew Hc Sv. assert (Hd : settled s) by (apply (not_connecting_settled _ _ _ Hs); congruence).
  destruct (settled_entry s Hd) as [Eo Ec]. pose proof (settled_said _ _ _ Hs Hd) as Hne.
  assert (Hh : heard (asks rest) (accepted s) (sess w1) /\ said (sess w1) <> []).
  { pose proof (ok_heard _ _ _ Hs) as Hh. rewrite Eo, Ew in Hh. unfold asks in Hh. rewrite flat_map_app in Hh.
    destruct Sv as [R|(A & -> & _)]; [by apply (heard_replied _ _ _ _ _ _ Hh Hne R)|by apply (heard_announced _ _ _ _ _ _ Hh Hne A)]. }
  destruct Hh as [Hh Hne1]. pose proof (ok_mine _ _ _ Hs) as Hm. rewrite Ew in Hm. apply Forall_app in Hm as [_ Hm].
  split; cycle 1.
  { intros A1 A2. destruct Sv as [R|(A & -> & _)]; [|by split_and!; try done; destruct A as (es & t & E & _ & _ & Hit & _); exists es, t].
    destruct R as [[_ T _] _]. unfold the_shared in *. cbn in A2. congruence. }
  split; try done; cbn; rewrite ?Ht; try done.
  - change (open_cost (set_waiting rest (set_world w1 s))) with (open_cost s). by rewrite Ec.
  - change (opening (set_waiting rest (set_world w1 s))) with (opening s). by rewrite Eo.
  - destruct (entry s) as [[r| | |]|] eqn:Ee; try done. by destruct (Hd r).
Qed.

Lemma shutdown_ok s :
  sys_ok s -> thread s = Running -> exists w',
    in_world (shutdown (waiting s)) s = Ret (tt, set_world w' s) /\
    sys_ok (set_thread Exited (set_waiting [] (set_world w' s))) /\ ends s (set_thread Exited (set_waiting [] (set_world w' s))).
Proof.
  intros Hs Ht. assert (Hd : settled s) by (apply (not_connecting_settled _ _ _ Hs); congruence).
  pose proof (shutdown_answers sid (waiting s) 0 (world s) ltac:(lia) (ok_mine _ _ _ Hs) (core_at _ _ _ Hs Hd)) as Hwp.
  destruct (in_world_returns _ _ s Hwp) as ([] & w' & E & Hc & Hte & Hcon & Hr). exists w'. split; [done|].
  assert (Sv : served sid Continue (waiting s) [] (world s) w') by (destruct (terminal_emitted (shared (sess (world s)))); [by left|by right]).
  destruct (served_ok Continue s (waiting s) [] w') as [Hs' He]; try done; [by rewrite app_nil_r|]. split; [by apply sys_exit|done].
Qed.

Lemma work_ok s : sys_ok s -> thread s = Running -> exists s', work s = Ret s' /\ sys_ok s' /\ ends s s'.
Proof.
  intros Hs Ht. assert (Hd : settled s) by (apply (not_connecting_settled _ _ _ Hs); congruence).
  unfold work. destruct (waiting s) as [|c cs] eqn:Ew; [exists s; split_and!; try done; by apply same_ends|].
  pose proof (core_at _ _ _ Hs Hd) as Hc. pose proof (ok_mine _ _ _ Hs) as Hm. rewrite Ew in Hc, Hm.
  destruct (in_world_returns _ _ s (dispatch_answers sid c cs 0 (world s) ltac:(lia) Hm Hc)) as ([flow rest] & w1 & E & handled & Ecs & Hc1 & Sv).
  rewrite E. cbn [rbind fst snd] in *.
  destruct (served_ok flow s (c :: handled) rest w1) as [Hs1 He1]; try done; [cbn; congruence|].
  destruct flow; [by eexists|].
  destruct (shutdown_ok _ Hs1 Ht) as (w2 & E2 & Hs2 & He2). unfold in_world in *. cbn in E2 |- *.
  destruct (shutdown rest w1) as [[[] w3]| |]; cbn in E2; try done. injection E2 as <-. cbn. eexists. split; [done|]. split; [done|].
  destruct Sv as [R|(_ & _ & ?)]; [|done]. intros A1 A2. pose proof R as [[(es & Esa & _) T _] _].
  destruct He2 as (B1 & B2 & fs & t & Ef & Hit); [by unfold the_shared in *; cbn; rewrite T|done|]. split_and!; try done.
  exists (es ++ fs), t. split; [|done]. cbn in Ef |- *. by rewrite Ef, Esa, <- !app_assoc.
Qed.

Lemma hang_up_ok s : sys_ok s -> thread s = Running -> waiting s = [] -> exists s', hang_up s = Ret s' /\ sys_ok s' /\ ends s s'.
Proof.
  intros Hs Ht Ew. unfold hang_up. destruct (shutdown_ok s Hs Ht) as (w' & E & Hs' & He). rewrite Ew in E. rewrite E. cbn [rbind].
  eexists. split; [done|]. replace (set_thread Exited (set_world w' s)) with (set_thread Exited (set_waiting [] (set_world w' s))); [done|].
  destruct s. cbn in *. by subst.
Qed.

(** ** The registry *)

Lemma registered_running s : sys_ok s -> registered s = true -> thread s <> Connecting.
Proof. intros Hs Hr. apply (alive_not_connecting _ _ _ Hs). unfold alive. by rewrite Hr. Qed.

Lemma unregistered_ok s : sys_ok s -> settled s -> sys_ok (set_entry None s).
Proof.
  intros Hs Hd. apply (quiet_fields s); try done. intros Ht. destruct (ok_connecting _ _ _ Hs Ht) as (_ & Ha & _).
  unfold alive in *. by apply orb_false_iff in Ha as [_ Ha].
Qed.

Lemma abandon_ok id o s : sys_ok s -> exists s', done_with (abandon id o s) = Ret s' /\ sys_ok s' /\ ends s s'.
Proof.
  intros Hs. pose proof (registered_running s Hs) as Hr. unfold done_with, abandon, registered in *.
  destruct (entry s) as [[r| | |]|] eqn:Ee; cbn [rbind]; try (exists s; split_and!; try done; by apply same_ends).
  - destruct (cancel_open_ok r (Some EEnded) s Hs Ee) as (s1 & E & Hs1); [by right|]. rewrite E. by exists s1.
  - specialize (Hr eq_refl). pose proof (not_connecting_settled _ _ _ Hs Hr) as Hd. unfold abandon_now.
    destruct (begin_abandon_ok id false o (set_entry (Some EEnding) s)) as (b & s1 & E & Hs1 & F); [by apply (quiet_fields s)|done|].
    rewrite E. exists s1. split_and!; try done. by apply same_ends, F.
Qed.

Lemma retire_ok id o s : sys_ok s -> exists s', done_with (retire id o s) = Ret s' /\ sys_ok s' /\ ends s s'.
Proof.
  intros Hs. pose proof (registered_running s Hs) as Hr. pose proof (unregistered_ok s Hs) as Hu.
  assert (Hrel : registered s = true -> exists s', released id o (set_entry None s) = Ret s' /\ sys_ok s' /\ ends s s').
  { intros Hreg. specialize (Hr Hreg). apply (released_ok id o (set_entry None s)); [|done]. by apply Hu, (not_connecting_settled _ _ _ Hs). }
  unfold done_with, retire, registered in *. destruct (entry s) as [[r| | |]|] eqn:Ee; cbn [rbind]; [| | | |exists s; split_and!; try done; by apply same_ends].
  - destruct (cancel_open_ok r None s Hs Ee) as (s1 & E & Hs1); [by left|]. rewrite E. by exists s1.
  - destruct (Hrel eq_refl) as (s1 & E & Hs1). rewrite E. by exists s1.
  - destruct (Hrel eq_refl) as (s1 & E & Hs1). rewrite E. by exists s1.
  - eexists. split; [done|]. split; [|by apply same_ends]. apply Hu. intros r. congruence.
Qed.

Lemma drop_registry_ok id o s : sys_ok s -> exists s', drop_registry id o s = Ret s' /\ sys_ok s' /\ ends s s'.
Proof.
  intros Hs. pose proof (registered_running s Hs) as Hr. pose proof (unregistered_ok s Hs) as Hu.
  assert (Hab : registered s = true -> exists s', (let! (_, s) := begin_abandon id true o (set_entry None s) in Ret (finish_abandon s)) = Ret s' /\ sys_ok s' /\ ends s s').
  { intros Hreg. specialize (Hr Hreg).
    destruct (begin_abandon_ok id true o (set_entry None s)) as (b & s1 & E & Hs1 & F);
      [by apply Hu, (not_connecting_settled _ _ _ Hs)|done|].
    rewrite E. cbn [rbind]. eexists. split; [done|]. split; [|by apply same_ends, F]. apply unjoined_ok; [done|]. by destruct F as (-> & _). }
  unfold drop_registry, registered in *. destruct (entry s) as [[r| | |]|] eqn:Ee; try (by apply Hab).
  - apply cancel_open_ok; auto.
  - eexists. split; [done|]. split; [|by apply same_ends]. apply Hu. intros r. congruence.
  - eexists. split; [done|]. split; [|by apply same_ends]. apply Hu. intros r. congruence.
Qed.

(** ** The others *)

(** What others do leaves this session its slots. *)
Lemma foreign_held c a c' :
  chan_ok c -> foreign a -> chan_step c a c' ->
  outstanding c' sid - tally (replies_of sid) (queued c') = outstanding c sid - tally (replies_of sid) (queued c).
Proof.
  intros Hok [Hs Ha] Hstep.
  assert (Hpush : forall e pu, event_session e <> sid -> closed (inner c) = false -> push_case c e (slot_for e) (c', pu) ->
    tally (replies_of sid) (queued c') = tally (replies_of sid) (queued c)).
  { intros e pu Hne Hc Hp. rewrite (said_push_replies sid c e c' pu Hc Hp), (other_reply sid e Hne). lia. }
  destruct Hstep as [limit s' c' Hr|e Hr Hd|e c' w Hr Ho Hp|e c' Hp|c' Hp].
  - destruct (reserve_eq _ _ _ _ Hr) as (Ei & _ & _ & Ho). rewrite Ho. unfold queued. rewrite Ei.
    destruct (Z.eqb_spec s' sid) as [->|]; [done|cbn; lia].
  - specialize (Hs e eq_refl). rewrite sink_push_eq in *.
    assert (Esl : None = slot_for e) by (unfold slot_for; by rewrite Hr). rewrite Esl in *. rewrite push_outstanding.
    destruct (closed (inner c)) eqn:Hc; [unfold push; by rewrite Hc|].
    assert (Hcase : push_case c e (slot_for e) (push c e (slot_for e))) by (apply push_cases; [done|]; by rewrite <- Esl).
    rewrite (surjective_pairing (push c e (slot_for e))) in Hcase. by rewrite (Hpush e _ Hs eq_refl Hcase).
  - specialize (Hs e eq_refl). destruct (reply_returns c e Hok Hr Ho) as (c1 & w1 & E1 & _ & Hi & Ho1).
    rewrite E1 in Hp. injection Hp as <- _. specialize (Ho1 sid). rewrite (other_reply sid e Hs) in Ho1.
    destruct (closed (inner c)) eqn:Hc; [destruct Hi as [Ei _]; unfold queued in *; rewrite Ei; lia|].
    rewrite (Hpush e (taken_in c) Hs eq_refl); [lia|]. subst c1. apply push_solicited; [done|]. by destruct e.
  - destruct (queue (inner c)) as [|q rest] eqn:Hq; [unfold pop in Hp; by rewrite Hq in Hp|].
    destruct (pop_front c q rest Hok Hq) as (c1 & E1 & P). rewrite E1 in Hp. injection Hp as <- <-.
    assert (Hes : queued c = event q :: queued c1) by (unfold queued; by rewrite Hq, (popped_queue _ _ _ _ P)).
    rewrite (popped_outstanding _ _ _ _ P sid), Hes. cbn [tally]. lia.
  - destruct (drop_returns c Hok) as (c1 & E1 & _ & Hc1 & Hq & _ & Ho). rewrite E1 in Hp. injection Hp as <-.
    rewrite Ho, Hq. cbn [tally]. lia.
Qed.

Lemma foreign_ok s a c : sys_ok s -> foreign a -> chan_step (chan (sess (world s))) a c -> sys_ok (with_chan c s).
Proof.
  intros [H1 [P1 P2 P3] H3 H4 H5 H6] Ha Hst. destruct H1 as [[A1 A2 A3 A4 A5] A6].
  pose proof (step_ok _ _ _ A3 Hst). pose proof (foreign_held _ _ _ A3 Ha Hst). split; try done.
  split; [split; try done|done].
  change (outstanding c sid = tally (replies_of sid) (queued c) + (0 + (open_cost s + costs (waiting s)))). lia.
Qed.

(** ** Every action *)

Lemma wait_for_ok c s : sys_ok s -> (0 <? holders s)%nat = true -> exists s', wait_for c s = Ret s' /\ sys_ok s' /\ ends s s'.
Proof.
  intros Hs Hh. destruct c as [? [[]]|? ? [[]]|? ? [[]]|? [[]]|[[]]|[[]]|? [[]]|? [[]]|[[]]|? ? [[]]|? [[]]|? [[]]|? ?];
    cbn [wait_for]; first [by apply submit_ok|exists s; split_and!; try done; by apply same_ends].
Qed.

(** Every action that may happen returns, and keeps the invariant. *)
Lemma perform_ok a s : sys_ok s -> allowed a s = true -> exists s', perform a s = Ret s' /\ sys_ok s' /\ ends s s'.
Proof.
  intros Hs Ha. destruct a; cbn [perform allowed] in *;
    try (by apply submit_event_ok); try (by apply wait_for_ok).
  - by apply submit_close_ok.
  - by apply close_begin_ok.
  - eexists. split; [done|]. split; [apply close_end_ok; [done|]; by apply holder_not_connecting|]. apply same_ends.
    unfold close_end. by repeat case_match.
  - eexists. split; [done|]. split; [|by apply same_ends]. apply (quiet_step (set_collected no_output)); [by intros sh|done|].
    by apply (not_connecting_settled _ _ _ Hs), holder_not_connecting.
  - eexists. split; [done|]. destruct (cancel_ok outcome s) as [Hs' F]; [done| |split; [done|apply same_ends, F]].
    by apply (not_connecting_settled _ _ _ Hs), holder_not_connecting.
  - eexists. split; [done|]. split; [by apply get_ok|]. apply same_ends. unfold get. by repeat case_match.
  - by apply let_go_ok.
  - by apply abandon_ok.
  - by apply retire_ok.
  - by apply drop_registry_ok.
  - apply bool_decide_eq_true in Ha. by apply start_ok.
  - apply bool_decide_eq_true in Ha. by apply work_ok.
  - apply andb_true_iff in Ha as [[Ha%bool_decide_eq_true _]%andb_true_iff Hw]. apply hang_up_ok; [done..|]. by destruct (waiting s).
Qed.

Lemma sys_step_ok s s' : sys_ok s -> step s s' -> sys_ok s' /\ ends s s'.
Proof.
  intros Hs [a s1 Ha E|a c Ha Hst]; [|split; [by apply foreign_ok with a|by apply same_ends]].
  destruct (perform_ok a s Hs Ha) as (s2 & E2 & Hs2). congruence.
Qed.

(** A session just opened on a queue where it has nothing outstanding. *)
Lemma session_open_ok l spawned c d :
  chan_ok c -> outstanding c sid = 0 -> tally (replies_of sid) (queued c) = 0 -> 0 < max_outstanding_requests l ->
  exists s, open sid open_request l spawned c d = Ret s /\ sys_ok s.
Proof.
  intros Hc Ho Hq Hl. unfold open. cbn [bind_events bound shared shared_new terminal_emitted].
  set (x := on_shared _ _). unfold reserve_request. change (session (shared x)) with sid. change (chan x) with c.
  destruct (reserve (max_outstanding_requests l) sid c) as [c1|e] eqn:Er; cycle 1.
  { unfold reserve, reserve_slot in Er. destruct (_ <=? _) eqn:E; [|done]. boolify. lia. }
  destruct (reserve_eq _ _ _ _ Er) as (Ei & _ & _ & Ho1). pose proof (step_ok _ _ _ Hc (step_accept _ _ _ _ Er)) as Hok1.
  specialize (Ho1 sid). rewrite Z.eqb_refl in Ho1. cbn in Ho1.
  assert (Hq1 : queued c1 = queued c) by (unfold queued; by rewrite Ei).
  set (w := mkWorld _ _ _ _ _).
  assert (Hw : core 1 w) by (split; [split; cbn; try done; rewrite ?Hq1; lia|done]).
  assert (Hh : heard [open_request] [open_request] (sess w)) by by split.
  destruct spawned as [[]|e].
  - eexists. split; [done|]. split; cbn; try done; [by constructor|].
    intros _. split_and!; try done. intros Hd. by destruct (Hd _ eq_refl).
  - set (r := mkReplyTo _ _). set (s0 := mkSystem _ _ _ _ _ _ _ _ _).
    destruct (open_ends (mark_lost_from e) (answer r (Err e)) [open_request] w) as (w2 & E2 & Hc2 & Hh2 & Hn2 & Ht2 & Hd2 & _);
      try done; [by apply answer_open_says|].
    unfold in_world. change (world s0) with w. rewrite E2. cbn [rbind]. eexists. split; [done|].
    split; cbn; try done. by constructor.
Qed.
End props.
