(* ===== verification/SessionClaims.v ===== *)
(** * What a session promises its callers

    The claims about a session opened through the registry, in every state it
    can reach, whatever its callers, its driver, the other sessions and the
    consumer of the queue do. *)

From stdpp Require Import gmap relations.
From S2P Require Import Prelude RustStr Errors Columns Segment Policy ResultStore Events EventQueue EventQueueProps EventClaims EventBound SessionShared SessionWorld Reply Worker Session WorkerProps WorkerReplies WorkerLoop SessionProps SampleDriver.
Open Scope Z_scope.
Open Scope run_scope.
Open Scope session_scope.

Section claims.
Context {DO : DriverObjects} {DR : Driver} `{Layout} `{law : !LawfulOutput}.

(** The states of session [sid], opened by request [q] on a queue where it has
    nothing outstanding. *)
Inductive reachable (sid : SessionId) (q : RequestId) : System -> Prop :=
| reach_open l spawned c d s :
    chan_ok c -> outstanding c sid = 0 -> 0 < max_outstanding_requests l -> open sid q l spawned c d = Ret s -> reachable sid q s
| reach_step s s' : reachable sid q s -> step sid s s' -> reachable sid q s'.

Lemma reachable_ok sid q s : reachable sid q s -> sys_ok sid q s.
Proof.
  induction 1 as [l spawned c d s Hc Ho Hl E|s s' _ IH Hst]; [|by apply (sys_step_ok sid q s)].
  pose proof (ok_outstanding _ Hc sid) as Hr. pose proof (tally_nonneg (replies_of sid) (queued c) (replies_of_nonneg sid)).
  destruct (session_open_ok sid q l spawned c d) as (s' & E' & Hs); [done..|lia|done|]. congruence.
Qed.

(** Accepted and not yet answered: the open, then the commands waiting. *)
Definition pending (s : System) : list RequestId := opening s ++ asks (waiting s).
Definition events (s : System) : list SessionEvent := said (sess (world s)).

(** C1: every request is answered exactly once.  In every state a session can
    reach, the requests its events reply to and those still pending are, each
    as often, the requests it accepted.  Once its thread has exited nothing is
    pending: every request ever accepted has its one reply. *)
Theorem requests_answered_once sid q s :
  reachable sid q s ->
  reply_requests (events s) ++ pending s ≡ₚ accepted s /\ (thread s = Exited -> reply_requests (events s) ≡ₚ accepted s).
Proof.
  intros Hs%reachable_ok. pose proof (heard_once _ _ _ _ (ok_heard _ _ _ _ _ Hs)) as Hh. split; [done|]. intros Ht.
  assert (Hd : settled s) by (apply (not_connecting_settled sid q _ _ _ Hs); congruence).
  destruct (settled_entry s Hd) as [Eo _]. rewrite Eo, (exited_waiting _ _ _ _ _ Hs Ht), !app_nil_r in Hh. done.
Qed.


(** C21: no action of a session fails.  In every state a session can reach,
    whatever the driver answers, every call of its handle, of the registry and
    of its thread returns: no assertion of the code fails, no slot is released
    twice, and the loop that reads server output ends. *)
Theorem actions_return sid q s a :
  reachable sid q s -> allowed a s = true -> exists s', perform a s = Ret s' /\ reachable sid q s'.
Proof.
  intros Hr Ha. destruct (perform_ok sid q a s (reachable_ok _ _ _ Hr) Ha) as (s' & E & _). exists s'. split; [done|].
  eapply reach_step; [done|]. by apply step_own with a.
Qed.

(** The open is answered first.  A session that has said nothing is still
    connecting and its open pending; otherwise its first event is the reply to
    its open. *)
Theorem open_answered_first sid q s :
  reachable sid q s ->
  match events s with
  | [] => thread s = Connecting /\ pending s = [q]
  | e :: _ => opens e = true /\ event_request e = Some q
  end.
Proof.
  intros Hs%reachable_ok. pose proof (heard_first _ _ _ _ (ok_heard _ _ _ _ _ Hs)) as Hf.
  destruct (events s) as [|e es] eqn:E; unfold events in E; rewrite E in Hf; [|done].
  pose proof (ok_entry _ _ _ _ _ Hs) as He. unfold pending, opening. destruct (entry s) as [[r| | |]|] eqn:Ee; try done.
  destruct (opening_facts _ _ _ _ Hs Ee) as (Ht & Hch & _ & _ & _ & Hw & _). by rewrite Hch, Hw.
Qed.
(** The worker, left alone. *)
Fixpoint work_for (n : nat) (s : System) : run System :=
  match n with O => Ret s | S n => let! s := work s in work_for n s end.

Lemma work_shorter sid q s s' :
  sys_ok sid q s -> thread s = Running -> work s = Ret s' -> waiting s <> [] -> (length (waiting s') < length (waiting s))%nat.
Proof.
  intros Hs Ht E Hne. assert (Hd : settled s) by (apply (not_connecting_settled sid q _ _ _ Hs); congruence).
  unfold work in E. destruct (waiting s) as [|c cs] eqn:Ew; [done|].
  pose proof (core_at _ _ _ _ _ Hs Hd) as Hc. pose proof (ok_mine _ _ _ _ _ Hs) as Hm. rewrite Ew in Hc, Hm.
  destruct (in_world_returns _ _ s (dispatch_answers sid c cs 0 (world s) ltac:(lia) Hm Hc)) as ([flow rest] & w1 & E1 & handled & Ecs & _).
  rewrite E1 in E. cbn [rbind snd] in *. destruct flow.
  - injection E as <-. cbn. subst cs. rewrite length_app. lia.
  - destruct (in_world _ _) as [[? s2]| |]; cbn in E; try done. injection E as <-. cbn. lia.
Qed.

(** C22: the worker answers what waits.  Left alone, a running worker needs no
    more turns than there are commands waiting: after that many, nothing waits
    and every request accepted has its reply. *)
Theorem worker_catches_up sid q s :
  reachable sid q s -> thread s = Running ->
  exists n s', (n <= length (waiting s))%nat /\ work_for n s = Ret s' /\ waiting s' = [] /\
    reply_requests (events s') ≡ₚ accepted s /\ accepted s' = accepted s.
Proof.
  remember (length (waiting s)) as m eqn:Em. revert s Em. induction (lt_wf m) as [m _ IH]. intros s -> Hr Ht.
  pose proof (reachable_ok _ _ _ Hr) as Hs.
  assert (Hdone : forall s, sys_ok sid q s -> thread s <> Connecting -> waiting s = [] -> reply_requests (events s) ≡ₚ accepted s).
  { intros s0 Hs0 Ht0 Hw0. pose proof (heard_once _ _ _ _ (ok_heard _ _ _ _ _ Hs0)) as Hh.
    destruct (settled_entry s0 (not_connecting_settled _ _ _ _ _ Hs0 Ht0)) as [Eo _]. by rewrite Eo, Hw0, !app_nil_r in Hh. }
  destruct (decide (waiting s = [])) as [Hw|Hw].
  { exists 0%nat, s. split_and!; try done; [lia|]. by apply Hdone; [|congruence|]. }
  destruct (work_ok sid q s Hs Ht) as (s1 & E & Hs1 & _). pose proof (work_shorter sid q s s1 Hs Ht E Hw) as Hlt.
  assert (Hr1 : reachable sid q s1) by (eapply reach_step; [done|]; apply step_own with AWork; [by apply bool_decide_eq_true|done]).
  assert (Ea : accepted s1 = accepted s /\ thread s1 <> Connecting).
  { revert E. unfold work, in_world. destruct (waiting s) as [|c cs]; [intros [= <-]; by split; [|congruence]|].
    destruct (dispatch c cs (world s)) as [[[[] rest] w1]| |]; cbn; try done; [intros [= <-]; cbn; by split; [|congruence]|].
    destruct (shutdown rest w1) as [[[] w2]| |]; cbn; try done. by intros [= <-]. }
  destruct Ea as [Ea Hc]. destruct (thread s1) eqn:Ht1; [done| |].
  - destruct (IH _ Hlt s1 eq_refl Hr1 Ht1) as (n & s2 & Hn & E2 & Hw2 & Hp & Ea2). exists (S n), s2.
    split_and!; try done; [lia|cbn; by rewrite E|by rewrite <- Ea|congruence].
  - pose proof (exited_waiting _ _ _ _ _ Hs1 Ht1) as Hw1. exists 1%nat, s1.
    split_and!; try done; [destruct (waiting s); [done|cbn; lia]|cbn; by rewrite E|]. rewrite <- Ea. apply Hdone; congruence.
Qed.

Lemma terminal_no_reply (t : SessionEvent) : is_terminal t = true -> reply_requests [t] = [].
Proof. by destruct t. Qed.

(** The worker answers in the order it was asked.  One turn of a running
    worker takes a prefix of the commands waiting, the first of them included,
    and says the replies to exactly these, in that order; if the thread exits
    in it, the prefix is everything. *)
Theorem worker_answers_in_order sid q s :
  reachable sid q s -> thread s = Running -> waiting s <> [] ->
  exists s' taken es, work s = Ret s' /\ waiting s = taken ++ waiting s' /\ taken <> [] /\
    events s' = events s ++ es /\ reply_requests es = asks taken.
Proof.
  intros Hs%reachable_ok Ht Hne. assert (Hd : settled s) by (apply (not_connecting_settled sid q _ _ _ Hs); congruence).
  unfold work. destruct (waiting s) as [|c cs] eqn:Ew; [done|].
  pose proof (core_at _ _ _ _ _ Hs Hd) as Hc. pose proof (ok_mine _ _ _ _ _ Hs) as Hm. rewrite Ew in Hc, Hm.
  destruct (in_world_returns _ _ s (dispatch_answers sid c cs 0 (world s) ltac:(lia) Hm Hc)) as ([flow rest] & w1 & E & handled & Ecs & Hc1 & Sv).
  rewrite E. cbn [rbind fst snd] in *.
  assert (Hsaid : exists es, said (sess w1) = said (sess (world s)) ++ es /\ reply_requests es = asks (c :: handled)).
  { destruct Sv as [[[(es & E1 & E2 & _) _ _] _]|((es & t & E1 & E2 & _ & Hit & _) & _)]; [by exists es|].
    exists (es ++ [t]). split; [done|]. by rewrite reply_requests_app, E2, (terminal_no_reply t Hit), app_nil_r. }
  destruct Hsaid as (es & Es & Er). destruct flow.
  - eexists _, (c :: handled), es. split; [done|]. split_and!; try done. cbn. congruence.
  - assert (Hm1 : all_mine sid rest) by (inversion Hm as [|? ? _ Hm']; subst; by apply Forall_app in Hm' as [_ ?]).
    pose proof (shutdown_answers sid rest 0 w1 ltac:(lia) Hm1 Hc1) as Hwp.
    destruct (in_world_returns _ _ (set_world w1 s) Hwp) as ([] & w2 & E2 & _ & _ & _ & Hr). rewrite E2. cbn [rbind].
    assert (Hsaid : exists fs, said (sess w2) = said (sess w1) ++ fs /\ reply_requests fs = asks rest).
    { destruct (terminal_emitted _); [destruct Hr as [[(fs & E3 & E4 & _) _ _] _]; by exists fs|].
      destruct Hr as (fs & t & E3 & E4 & _ & Hit & _). exists (fs ++ [t]). split; [done|].
      by rewrite reply_requests_app, E4, (terminal_no_reply t Hit), app_nil_r. }
    destruct Hsaid as (fs & Ef & Efr). eexists _, (c :: cs), (es ++ fs). split; [done|]. split_and!; try done.
    + cbn. by rewrite app_nil_r.
    + unfold events. cbn. by rewrite Ef, Es, app_assoc.
    + rewrite reply_requests_app, Er, Efr, Ecs. unfold asks. by rewrite <- flat_map_app.
Qed.

(** A connection nobody waits for any more is closed, not adopted.  When
    the thread of a session that was abandoned while connecting gets its
    connection, it closes it, exits, and says nothing more. *)
Theorem late_connection_closed s r w :
  thread s = Connecting -> settled s -> registered s = false -> connect (world s) = Ret (Ok r, w) ->
  exists s', start s = Ret s' /\ thread s' = Exited /\ events s' = said (sess w) /\
    calls (world s') = calls w ++ [CallClose] /\ ready s' = ready s /\ registered s' = false.
Proof.
  intros Ht Hd Hr E. unfold start, in_world. rewrite E. cbn [rbind]. set (s1 := set_world w s).
  assert (Hlate : forall s2, world s2 = w -> ready s2 = ready s -> registered s2 = false -> exists s',
    (let! (_, s0) := let! (a, w0) := call CallClose drv_close (world s2) in Ret (a, set_world w0 s2) in Ret (set_thread Exited s0)) = Ret s' /\
    thread s' = Exited /\ events s' = said (sess w) /\ calls (world s') = calls w ++ [CallClose] /\ ready s' = ready s /\
    registered s' = false).
  { intros s2 Ew Erd Erg. rewrite Ew. unfold call. destruct (drv_close (driver w)) as [d [o|p]]; cbn; eexists; by split_and!. }
  unfold complete_open, registered in *. change (entry s1) with (entry s).
  destruct (entry s) as [[r'| | |]|] eqn:Ee; try done; cbn [rbind]; [by destruct (Hd r')|by apply Hlate|].
  apply Hlate; try done. unfold registered. cbn. by rewrite Ee.
Qed.
End claims.

(** ** On the sample driver *)

Fixpoint run_actions (acts : list Action) (s : System) : option System :=
  match acts with
  | [] => Some s
  | a :: rest =>
      if allowed a s then match perform a s with Ret s' => run_actions rest s' | _ => None end else None
  end.

Lemma run_reachable sid q acts s s' : reachable sid q s -> run_actions acts s = Some s' -> reachable sid q s'.
Proof.
  revert s. induction acts as [|a acts IH]; intros s Hs E; cbn in E; [by injection E as <-|].
  destruct (allowed a s) eqn:Ha; [|done]. destruct (perform a s) as [s1| |] eqn:Ep; try done.
  apply (IH s1); [|done]. eapply reach_step; [done|]. by apply step_own with a.
Qed.

Definition opened_by (spawned : result unit DbError) : System :=
  match open (DR := sample_driver) 7 1 sample_limits spawned (event_channel 16) false with
  | Ret s => s
  | _ => mkSystem sample_world Exited [] None 0 false None sample_limits []
  end.
Definition sample_system : System := opened_by (Ok tt).
Definition after (acts : list Action) : System := default sample_system (run_actions acts sample_system).

Lemma sample_opened : reachable 7 1 sample_system.
Proof.
  apply (reach_open (DR := sample_driver) 7 1 sample_limits (Ok tt) (event_channel 16) false); [by apply event_channel_ok|done|done|by vm_compute].
Qed.

(** The session opens, a caller gets it, runs an update and closes it, first
    without saying what becomes of the transaction. *)
Definition used : list (Action (DR := sample_driver)) := [AStart; AGet; AExecute 2 an_update; AClose 3 None; AClose 4 (Some CommitFirst); AWork].
Lemma sample_used : reachable 7 1 (after used).
Proof. apply (run_reachable 7 1 used sample_system); [apply sample_opened|by vm_compute]. Qed.
Lemma sample_closed : reachable 7 1 (after (used ++ [AWork; AWork])).
Proof. apply (run_reachable 7 1 (used ++ [AWork; AWork]) sample_system); [apply sample_opened|by vm_compute]. Qed.

Lemma requests_answered_once_witness :
  thread (after (used ++ [AWork; AWork])) = Exited /\ reply_requests (events (after (used ++ [AWork; AWork]))) ≡ₚ [1; 2; 3; 4].
Proof. split; [by vm_compute|]. apply (requests_answered_once 7 1 _ sample_closed). by vm_compute. Defined.

Lemma sample_last_step : step 7 (after (used ++ [AWork])) (after (used ++ [AWork; AWork])).
Proof. apply step_own with AWork; by vm_compute. Qed.
Lemma sample_almost : reachable 7 1 (after (used ++ [AWork])).
Proof. apply (run_reachable 7 1 (used ++ [AWork]) sample_system); [apply sample_opened|by vm_compute]. Qed.


Lemma actions_return_witness : exists s', perform AWork (after used) = Ret s' /\ reachable 7 1 s'.
Proof. apply (actions_return 7 1 _ AWork sample_used). by vm_compute. Defined.

Lemma open_answered_first_witness :
  match events (after used) with [] => False | e :: _ => opens e = true /\ event_request e = Some 1 end.
Proof. exact (open_answered_first 7 1 _ sample_used). Defined.

Lemma worker_catches_up_witness :
  exists n s', (n <= 2)%nat /\ work_for n (after used) = Ret s' /\ waiting s' = [] /\
    reply_requests (events s') ≡ₚ [1; 2; 3; 4] /\ accepted s' = [1; 2; 3; 4].
Proof. apply (worker_catches_up 7 1 _ sample_used). by vm_compute. Defined.

Lemma worker_answers_in_order_witness :
  exists s' taken es, work (after used) = Ret s' /\ waiting (after used) = taken ++ waiting s' /\ taken <> [] /\
    events s' = events (after used) ++ es /\ reply_requests es = asks taken.
Proof. apply (worker_answers_in_order 7 1 _ sample_used); by vm_compute. Defined.

(** A session abandoned while it connects. *)
Definition given_up : System := after [AAbandon 9 (Ok Requested)].
Definition late : result Ready DbError * World :=
  match connect (world given_up) with Ret x => x | _ => (Err (internal (Text [])), sample_world) end.

Lemma late_connection_closed_witness :
  exists s', start given_up = Ret s' /\ thread s' = Exited /\ events s' = said (sess late.2) /\
    calls (world s') = [CallConnect; CallWarnings; CallClose] /\ ready s' = None /\ registered s' = false.
Proof.
  apply (late_connection_closed given_up (mkReady Native 5 []) late.2); [by vm_compute|intros r; by vm_compute|by vm_compute|by vm_compute].
Defined.
