(* ===== verification/CloseClaims.v ===== *)
(** * Closing a session, and the bounds of what it reads

    What each answer of a close means; how much a chunk of a large object and
    the log of collected output can hold. *)

From stdpp Require Import gmap relations.
From S2P Require Import Prelude RustStr Errors Columns Segment Policy ResultStore Events EventQueue EventQueueProps SessionShared SessionWorld Reply Worker Session WorkerProps SampleDriver WorkerClaims WorkerReplies.
Open Scope Z_scope.
Open Scope run_scope.
Open Scope session_scope.

Section close.
Context {DO : DriverObjects} {DR : Driver} `{Layout}.

(** The answer a close was given. *)
Definition told (r : CloseReplyTo) (v : result unit CloseError) (w w' : World) : Prop :=
  match r with
  | OneShot id true => completions w' = completions w ++ [(id, SessionClosed 0 0 v)]
  | OneShot _ false => completions w' = completions w
  | ByEvent s q => exists es, said (sess w') = said (sess w) ++ es ++ [SessionClosed s q v]
  end.

(** What the steps of a close before its answer leave alone. *)
Definition unanswered (w w' : World) : Prop :=
  (exists es, said (sess w') = said (sess w) ++ es) /\ completions w' = completions w /\
  bound (shared (sess w')) = bound (shared (sess w)) /\ ended (shared (sess w')) = ended (shared (sess w)) /\
  (connected (worker w) = false -> connected (worker w') = false).

#[local] Instance unanswered_preorder : PreOrder unanswered.
Proof.
  split; [intros w; split_and!; try done; exists []; by rewrite app_nil_r|].
  intros w1 w2 w3 ((es & E1) & A2 & A3 & A4 & A5) ((fs & F1) & B2 & B3 & B4 & B5). split_and!; [|congruence..|auto].
  exists (es ++ fs). by rewrite F1, E1, app_assoc.
Qed.

#[local] Notation K := (keeps false anything unanswered).

Lemma note_error_frame e s : bound (note_error e s) = bound s /\ ended (note_error e s) = ended s.
Proof. unfold note_error. destruct (is_lost s); [done|]. by destruct (session_state e); try destruct (lifecycle (state s)). Qed.

Lemma outside_frame os s : bound (fold_left meanwhile os s) = bound s /\ ended (fold_left meanwhile os s) = ended s.
Proof.
  revert s. induction os as [|o os IH]; intros s; [done|]. cbn [fold_left]. destruct (IH (meanwhile s o)) as [-> ->].
  destruct o; [done|apply note_error_frame].
Qed.

Lemma modify_shared_unanswered f : (forall s, bound (f s) = bound s /\ ended (f s) = ended s) -> K (modify_shared f).
Proof.
  intros Hf w _. destruct (Hf (shared (sess w))) as [F1 F2]. split; [done|]. split_and!; try done. exists []. by rewrite app_nil_r.
Qed.

Lemma call_unanswered {A} c (op : D -> D * Called A) : K (call c op).
Proof.
  intros w _. unfold wpM, call. destruct (op (driver w)) as [d out]. destruct (outside_frame (outside d) (shared (sess w))) as [E1 E2].
  destruct out; (split; [done|]; split_and!; try done; exists []; by rewrite app_nil_r).
Qed.

Lemma modify_worker_unanswered f : (forall k, connected k = false -> connected (f k) = false) -> K (modify_worker f).
Proof. intros Hf w _. split; [done|]. split_and!; try done; [|apply Hf]. exists []. by rewrite app_nil_r. Qed.

Lemma resolved_unanswered : K (modify_sess note_commit_or_rollback).
Proof.
  intros w _. split; [done|]. unfold modify_sess, modify, note_commit_or_rollback, with_transaction_watch, emit. cbn.
  destruct (Bool.eqb _ _); [split_and!; try done; exists []; by rewrite app_nil_r|]. cbn.
  destruct (bound _) eqn:Eb; cbn; split_and!; try done; [by eexists|exists []; by rewrite app_nil_r].
Qed.

#[local] Hint Extern 0 (keeps _ _ _ _) =>
  lazymatch goal with
  | |- keeps _ _ _ (call _ _) => apply call_unanswered
  | |- keeps _ _ _ (modify_worker _) => apply modify_worker_unanswered; done
  | |- keeps _ _ _ (modify_shared (note_error _)) => apply modify_shared_unanswered, note_error_frame
  | |- keeps _ _ _ (modify_shared mark_transaction_resolved_at_end) => apply modify_shared_unanswered; done
  | |- keeps _ _ _ (modify_sess note_commit_or_rollback) => apply resolved_unanswered
  | |- keeps _ _ _ (ret _) => apply keeps_ret; apply _
  | |- keeps _ _ _ (gets _) => apply keeps_gets; apply _
  | |- keeps _ _ _ (get_shared _) => apply keeps_gets; apply _
  end : keeps.

Lemma close_cursor_unanswered c : K (close_cursor c).
Proof. unfold close_cursor. keeps_auto. Qed.
#[local] Hint Resolve close_cursor_unanswered : keeps.
Lemma close_cursors_unanswered cs : K (close_cursors cs).
Proof. induction cs as [|c cs IH]; cbn [close_cursors]; keeps_auto. Qed.
#[local] Hint Resolve close_cursors_unanswered : keeps.
Lemma release_unanswered : K release_results.
Proof. unfold release_results. keeps_auto. Qed.
Lemma close_connection_unanswered : K close_connection.
Proof. unfold close_connection. keeps_auto. Qed.

Lemma mark_closed_unanswered : K (modify_shared mark_closed).
Proof. apply modify_shared_unanswered. intros s. unfold mark_closed. by destruct (is_lost s). Qed.

(** The answer itself. *)
Lemma close_answer_told r v w0 w :
  unanswered w0 w -> bound (shared (sess w)) = true ->
  wpM false (close_answer r v) (fun _ w' => told r v w0 w' /\ worker w' = worker w /\ driver w' = driver w /\
    calls w' = calls w /\ shared (sess w') = shared (sess w)) w.
Proof.
  intros ((es & E1) & E2 & _) Hb. destruct r as [id []|s q]; cbn.
  - unfold wpM, send_one_shot, bind, modify. cbn. by rewrite E2.
  - unfold wpM, send_one_shot, bind, modify. cbn. by rewrite E2.
  - unfold wpM, bind, lift_sess, emit_reply. rewrite Hb. destruct (reply_into _ _) as [[c b]| |]; cbn; try done.
    split_and!; try done. exists es. by rewrite E1, <- app_assoc.
Qed.
Lemma note_error_active e s : has_possibly_active_transaction (note_error e s) = has_possibly_active_transaction s.
Proof. unfold note_error. destruct (is_lost s); [done|]. by destruct (session_state e); try destruct (lifecycle (state s)). Qed.

Lemma outside_active os s : has_possibly_active_transaction (fold_left meanwhile os s) = has_possibly_active_transaction s.
Proof.
  revert s. induction os as [|o os IH]; intros s; [done|]. cbn [fold_left]. rewrite IH. destruct o; [done|apply note_error_active].
Qed.

(** What the driver said to the commit or rollback of a close. *)
Definition disposed (d : CloseDisposition) (w : World) (r : result unit DbError) : Prop :=
  match (dispose d).2 (driver w) with (_, Returned x) => r = x | (_, Panicked p) => r = Err (panic_to_error p) end.

(** A call of the commit or rollback of a close. *)
Lemma dispose_call d w :
  connected (worker w) = true ->
  wpM false (with_connection (dispose d).1 (dispose d).2) (fun o w' => exists r, o = Some r /\ disposed d w r /\
    unanswered w w' /\ connected (worker w') = true /\ cursors (worker w') = cursors (worker w) /\
    lobs (worker w') = lobs (worker w) /\ calls w' = calls w ++ [(dispose d).1] /\
    has_possibly_active_transaction (shared (sess w')) = has_possibly_active_transaction (shared (sess w))) w.
Proof.
  intros Hup. unfold with_connection. apply wpM_read. rewrite Hup. apply wpM_bind.
  pose proof (call_unanswered (dispose d).1 (dispose d).2 w I) as Hu. revert Hu. unfold disposed, wpM, call.
  destruct ((dispose d).2 (driver w)) as [d' out]. pose proof (outside_active (outside d') (shared (sess w))) as Ha.
  destruct out as [r|p]; cbn; intros [_ Hu]; eexists; by split_and!.
Qed.

(** What each answer of a close means, [f] being what the worker does next. *)
Definition close_meaning (i : CloseIntent) (w w' : World) (f : Flow) (v : result unit CloseError) : Prop :=
  match v with
  | Err DecisionRequired =>
      (* nothing happened *)
      f = Continue /\ i = Explicit None /\ has_possibly_active_transaction (shared (sess w)) = true /\
      worker w' = worker w /\ driver w' = driver w /\ calls w' = calls w /\ shared (sess w') = shared (sess w)
  | Err (CommitFailed e) | Err (RollbackFailed e) =>
      (* the driver refused: connection, handles and transaction are as before *)
      f = Continue /\ (exists d, i = Explicit (Some d) /\ disposed d w (Err e) /\ calls w' = calls w ++ [(dispose d).1]) /\
      connected (worker w') = true /\ cursors (worker w') = cursors (worker w) /\ lobs (worker w') = lobs (worker w) /\
      has_possibly_active_transaction (shared (sess w')) = has_possibly_active_transaction (shared (sess w))
  | Err (CloseFailed _) => f = Exit /\ connected (worker w') = false
  | Ok _ =>
      (* the connection was there, and nothing unresolved went with it unasked *)
      f = Exit /\ connected (worker w) = true /\ connected (worker w') = false /\
      match i with
      | Explicit (Some d) => disposed d w (Ok tt)
      | Explicit None => has_possibly_active_transaction (shared (sess w)) = false
      | Abandon => True
      end /\
      (ended (shared (sess w)) = NOT_ENDED ->
       ended_as (shared (sess w')) = Some (match i with Explicit _ => Cleanly | Abandon => Unresolved end))
  end.

Lemma wpM_partial {A} (m : M A) Q w : wpM true m Q w -> wpM false m Q w.
Proof. unfold wpM. by destruct (m w) as [[a w']| |]. Qed.

Lemma mark_ended_as h s : ended s = NOT_ENDED -> ended_as (mark_ended h s) = Some h.
Proof. intros E. unfold mark_ended. rewrite E, Z.eqb_refl. unfold ended_as. cbn. by destruct h. Qed.

(** The last steps of a close whose connection is gone. *)
Lemma close_tail r v h w w1 :
  unanswered w w1 -> bound (shared (sess w)) = true -> connected (worker w1) = false ->
  wpM false (modify_shared mark_closed;; modify_shared (mark_ended h);; do _ <- close_answer r v; ret Exit)
    (fun f w' => told r v w w' /\ f = Exit /\ connected (worker w') = false /\
       (ended (shared (sess w)) = NOT_ENDED -> ended_as (shared (sess w')) = Some h)) w1.
Proof.
  intros U1 Hb Hd. apply wpM_bind. pose proof (mark_closed_unanswered w1 I) as [_ U2].
  unfold wpM at 1, modify_shared at 1, modify_sess, modify. unfold modify_shared, modify_sess, modify in U2.
  set (w2 := set_sess (on_shared mark_closed (sess w1)) w1) in *. apply wpM_bind. unfold wpM at 1, modify_shared, modify_sess, modify.
  set (w3 := set_sess (on_shared (mark_ended h) (sess w2)) w2).
  assert (U : unanswered w w2) by (by trans w1). destruct U as ((es & Us) & Uc & Ub & Ue & _).
  assert (Hb3 : bound (shared (sess w3)) = true) by (unfold w3; cbn; unfold mark_ended; destruct (_ =? _); cbn in *; congruence).
  apply wpM_bind. eapply wpM_mono; [apply (close_answer_told r v w3 w3 (reflexivity w3) Hb3)|].
  intros _ w' (Ht & E1 & _ & _ & E2). apply wpM_ret. split_and!; try done.
  - unfold told in *. change (completions w3) with (completions w2) in Ht. change (said (sess w3)) with (said (sess w2)) in Ht.
    rewrite Uc in Ht. destruct r as [id []|s q]; try done. destruct Ht as (fs & Ht). exists (es ++ fs). by rewrite Ht, Us, <- !app_assoc.
  - rewrite E1. exact Hd.
  - intros Hne. rewrite E2. apply mark_ended_as. by rewrite Ue.
Qed.

(** The end of a close: everything is released, and then the answer. *)
Lemma close_ends i r w w1 :
  unanswered w w1 -> bound (shared (sess w)) = true -> connected (worker w) = true ->
  match i with
  | Explicit (Some d) => disposed d w (Ok tt)
  | Explicit None => has_possibly_active_transaction (shared (sess w)) = false
  | Abandon => True
  end ->
  wpM false (release_results;; do outcome <- close_connection; modify_shared mark_closed;;
      modify_shared (mark_ended (match i with Explicit _ => Cleanly | Abandon => Unresolved end));;
      do _ <- close_answer r (match outcome with Ok _ => Ok tt | Err e => Err (CloseFailed e) end); ret Exit)
    (fun f w' => exists v, told r v w w' /\ close_meaning i w w' f v) w1.
Proof.
  intros U1 Hb Hup Hi. apply wpM_bind. eapply wpM_mono; [by apply release_unanswered|]. intros _ w2 [_ U2].
  apply wpM_bind. eapply wpM_mono; [apply (wpM_and _ _ _ _ _ (close_connection_unanswered w2 I) (wpM_partial _ _ _ (close_connection_down w2)))|].
  intros o w3 [[_ U3] Hd]. eapply wpM_mono; [apply (close_tail r _ _ w); [|done..]|].
  - trans w1; [done|]. by trans w2.
  - intros f w' (Ht & -> & Hd' & He). eexists. split; [exact Ht|]. destruct o as [[]|e]; by cbn [close_meaning]; split_and!.
Qed.

(** C4: what the answer to a close means.  An undecided close of a session that
    may hold a transaction changes nothing.  A commit or rollback the driver
    refused leaves the session with its connection, its results and its
    transaction.  A close answers [Ok] only if the connection was still there,
    the driver did what was asked, or nothing was asked and no transaction was
    possibly open; it then has no connection, and an explicit close is recorded
    as a clean end. *)
Theorem close_answer_means i r w f w' :
  bound (shared (sess w)) = true -> close i r w = Ret (f, w') -> exists v, told r v w w' /\ close_meaning i w w' f v.
Proof.
  intros Hb E. enough (Hwp : wpM false (close i r) (fun f w' => exists v, told r v w w' /\ close_meaning i w w' f v) w)
    by (unfold wpM in Hwp; by rewrite E in Hwp).
  clear E f w'. unfold close. apply wpM_read. destruct (connected (worker w)) eqn:Hup; cbn [negb].
  - apply wpM_read. cbv zeta.
    destruct (match i with Explicit None => has_possibly_active_transaction (shared (sess w)) | _ => false end) eqn:Hun.
    + apply wpM_bind. eapply wpM_mono; [by apply (close_answer_told _ _ w w)|]. intros _ w' (Ht & E1 & E2 & E3 & E4).
      apply wpM_ret. eexists. split; [exact Ht|]. destruct i as [[d|]|]; done.
    + apply wpM_bind. destruct i as [[d|]|].
      * apply wpM_bind. eapply wpM_mono; [by apply dispose_call|].
        intros o w1 (r1 & -> & Hd & U & H1 & H2 & H3 & H4 & H5). destruct r1 as [[]|e].
        -- apply wpM_bind. eapply wpM_mono; [by apply resolved_unanswered|]. intros _ w2 [_ U2]. apply wpM_bind.
           eapply wpM_mono; [apply (modify_shared_unanswered mark_transaction_resolved_at_end ltac:(done) w2 I)|]. intros _ w3 [_ U3].
           apply wpM_ret. apply (close_ends (Explicit (Some d))); try done. trans w1; [done|]. by trans w2.
        -- apply wpM_bind. pose proof (modify_shared_unanswered _ (note_error_frame e) w1 I) as [_ U1].
           unfold wpM at 1, modify_shared, modify_sess, modify. unfold modify_shared, modify_sess, modify in U1.
           set (w2 := set_sess (on_shared (note_error e) (sess w1)) w1) in *. apply wpM_ret. apply wpM_bind.
           assert (U2 : unanswered w w2) by (by trans w1).
           assert (Hb2 : bound (shared (sess w2)) = true) by (destruct U2 as (_ & _ & Ub & _ & _); congruence).
           eapply wpM_mono; [by apply (close_answer_told _ _ w w2)|]. intros _ w' (Ht & E1 & E2 & E3 & E4). apply wpM_ret.
           eexists. split; [exact Ht|]. assert (Ha : has_possibly_active_transaction (shared (sess w')) = has_possibly_active_transaction (shared (sess w)))
             by (rewrite E4; change (shared (sess w2)) with (note_error e (shared (sess w1))); by rewrite note_error_active, H5).
           destruct d; cbn [close_meaning]; rewrite E1, E3; split_and!; try done; eexists; by split_and!.
      * apply wpM_ret. by apply (close_ends (Explicit None)).
      * apply wpM_ret. by apply (close_ends Abandon).
  - apply wpM_read. apply wpM_bind. eapply wpM_mono; [by apply release_unanswered|]. intros _ w1 [_ U1].
    assert (Hd : connected (worker w1) = false) by (by apply U1).
    eapply wpM_mono; [by apply (close_tail r _ _ w)|]. intros f w' (Ht & -> & Hd' & _). eexists. split; [exact Ht|]. done.
Qed.
End close.

(** ** On the sample driver *)

Definition close_run := close (Explicit None) (OneShot 4 true) sample_world.

Lemma close_answer_means_witness :
  exists v, told (OneShot 4 true) v sample_world (world_of close_run) /\
    close_meaning (Explicit None) sample_world (world_of close_run) Exit v.
Proof. apply (close_answer_means (Explicit None) (OneShot 4 true) sample_world Exit); by vm_compute. Defined.

(** A PL/SQL block that runs, and so opens a transaction, but returns one cursor
    more than the session may hold: the caller is told of the limit, and the
    session does not learn of the transaction, so an undecided close succeeds
    and takes the open transaction with it. *)
Definition after_block : World := world_of (dispatch (sample_execute two_cursors) [] sample_world).

Lemma refused_out_value_forgets_transaction :
  transaction_state_of (driver after_block) = Active /\
  has_possibly_active_transaction (shared (sess after_block)) = false /\
  completions (world_of (close (Explicit None) (OneShot 4 true) after_block)) =
    completions after_block ++ [(4, SessionClosed 0 0 (Ok tt))] /\
  driver (world_of (close (Explicit None) (OneShot 4 true) after_block)) = true.
Proof. by vm_compute. Qed.

(** A session another thread's failed cancel has declared lost still runs the
    next command on its connection, and answers that it succeeded. *)
Definition lost_world : World :=
  set_sess (on_shared (note_error (with_session_state (internal (Text (lit "cancel"))) Lost)) (sess sample_world)) sample_world.

Lemma lost_session_runs_one_more :
  is_lost (shared (sess lost_world)) = true /\
  CallExecute ∈ calls (world_of (dispatch (sample_execute an_update) [] lost_world)) /\
  match completions (world_of (dispatch (sample_execute an_update) [] lost_world)) with
  | [(_, Executed _ _ (Ok _))] => True
  | _ => False
  end.
Proof. split_and!; [by vm_compute|by vm_compute; left|by vm_compute]. Qed.

(** ** What a session keeps for a caller that waits

    The server output of requests answered through a completion is collected in
    a log with two limits, and a chunk of a large object is read into a buffer
    with one. *)


(** ** Collected output *)

Definition text_bytes (lines : list str) : Z := foldr (fun l n => Z.of_nat (blen l) + n) 0 lines.

Lemma text_bytes_snoc lines l : text_bytes (lines ++ [l]) = text_bytes lines + Z.of_nat (blen l).
Proof. unfold text_bytes. induction lines as [|x lines IH]; cbn; [lia|]. rewrite IH. lia. Qed.

(** Whether the log takes one more line. *)
Definition fits (kept : list str) (line : str) : Prop :=
  Z.of_nat (length kept) < MAX_RETAINED_LINES /\ text_bytes kept + Z.of_nat (blen line) <= MAX_RETAINED_BYTES.

(** A log after the lines [ls]: the first [k] of them. *)
Record log_holds (ls : list str) (k : nat) (c : CollectedOutput) : Prop := {
  log_k : (k <= length ls)%nat;
  log_kept : log_lines (log c) = take k ls;
  log_bytes : bytes c = text_bytes (take k ls);
  log_lost : log_dropped (log c) = Z.min (Z.of_nat (length ls - k)) u32_max;
  log_lines_bound : Z.of_nat k <= MAX_RETAINED_LINES;
  log_bytes_bound : bytes c <= MAX_RETAINED_BYTES;
  log_refusing : refusing c = bool_decide (k < length ls)%nat;
  log_first_refused : forall l, ls !! k = Some l -> ~ fits (take k ls) l;
}.

Lemma text_bytes_nonneg lines : 0 <= text_bytes lines.
Proof. unfold text_bytes. induction lines as [|x lines IH]; cbn; lia. Qed.

Lemma push_holds ls k c l : log_holds ls k c -> exists k', log_holds (ls ++ [l]) k' (collected_push c l).
Proof.
  intros [H1 H2 H3 H4 H5 H6 H7 H8].
  assert (Htk : forall n, (n <= length ls)%nat -> take n (ls ++ [l]) = take n ls) by (intros n Hn; by apply take_app_le).
  assert (Hdrop : (k < length ls \/ ~ fits (take k ls) l)%nat -> log_holds (ls ++ [l]) k (collected_drop c true)).
  { intros Hcase. split; cbn; rewrite ?(Htk k H1), ?length_app; cbn [length]; try done; try lia.
    - rewrite H4. unfold sat_add32, u32_max in *. lia.
    - symmetry. apply bool_decide_eq_true. lia.
    - intros x Hx. destruct (decide (k < length ls)%nat) as [Hk|Hk].
      + apply H8. by rewrite lookup_app_l in Hx.
      + destruct Hcase as [?|Hn]; [done|]. rewrite lookup_app_r in Hx by lia. replace (k - length ls)%nat with 0%nat in Hx by lia.
        by injection Hx as <-. }
  unfold collected_push. rewrite H7. case_bool_decide as Hk; [exists k; auto|].
  assert (Ek : k = length ls) by lia. rewrite H2, H3. rewrite length_take, Nat.min_l by lia.
  destruct (_ && _) eqn:E.
  - boolify. exists (S k). split; cbn; rewrite ?length_app; cbn [length]; try lia.
    + rewrite !take_ge by (rewrite ?length_app; cbn; lia). done.
    + rewrite !take_ge by (rewrite ?length_app; cbn; lia). by rewrite text_bytes_snoc.
    + unfold sat_add, usize_max, MAX_RETAINED_BYTES in *. lia.
    + symmetry. apply bool_decide_eq_false. lia.
    + intros x Hx%lookup_lt_Some. rewrite length_app in Hx. cbn in Hx. lia.
  - exists k. apply Hdrop. right. intros [F1 F2]. apply andb_false_iff in E as [E|E]; boolify.
    + rewrite length_take, Nat.min_l in F1 by lia. lia.
    + pose proof (text_bytes_nonneg (take k ls)). unfold sat_add, usize_max, MAX_RETAINED_BYTES in *. lia.
Qed.

(** The log of collected output keeps a bounded prefix.  However many lines
    a session prints, the log holds the first of them, at most ten thousand
    lines and one mebibyte of text; it stops at the first line that does not
    fit, and counts every line it does not hold. *)
Theorem collected_output_bounded (ls : list str) :
  exists k, log_holds ls k (fold_left collected_push ls no_output).
Proof.
  induction ls as [|l ls [k IH]] using rev_ind.
  - exists 0%nat. by split.
  - rewrite fold_left_app. cbn [fold_left]. by apply push_holds with k.
Qed.

(** ** Large objects *)

Section lobs.
Context {DO : DriverObjects} {DR : Driver} `{Layout}.

(** A chunk of a large object is no longer than asked and no longer than the
    limit, whatever count the driver reports having written. *)
Theorem lob_chunk_bounded lob max_bytes id h w f w' :
  0 <= max_bytes -> 0 <= max_lob_chunk_bytes (limits (worker w)) ->
  read_lob_chunk lob max_bytes (mkReplyTo (T := list Z) (OneShot id true) h) w = Ret (f, w') ->
  exists v, completions w' = completions w ++ [(id, LobChunk 0 0 h v)] /\
    forall bytes, v = Ok bytes -> Z.of_nat (length bytes) <= Z.min max_bytes (max_lob_chunk_bytes (limits (worker w))).
Proof.
  intros Hm Hl E. set (Q := fun (f : Flow) w' => exists v, completions w' = completions w ++ [(id, LobChunk 0 0 h v)] /\
    forall bytes, v = Ok bytes -> Z.of_nat (length bytes) <= Z.min max_bytes (max_lob_chunk_bytes (limits (worker w)))).
  enough (Hwp : wpM false (read_lob_chunk lob max_bytes (mkReplyTo (T := list Z) (OneShot id true) h)) Q w)
    by (unfold wpM in Hwp; by rewrite E in Hwp).
  clear E f w'.
  assert (Hans : forall v w1, completions w1 = completions w ->
    (forall bytes, v = Ok bytes -> Z.of_nat (length bytes) <= Z.min max_bytes (max_lob_chunk_bytes (limits (worker w)))) ->
    wpM false (answered (mkReplyTo (T := list Z) (OneShot id true) h) v) Q w1).
  { intros v w1 Ec Hv. exists v. cbn. by rewrite Ec. }
  unfold read_lob_chunk, owned_lob. apply wpM_bind. unfold get_shared. apply wpM_read. apply wpM_ret.
  destruct (lob_session lob =? _); [|by apply Hans].
  apply wpM_read. set (cap := Z.min _ _). apply wpM_read. destruct (lobs (worker w) !! serial lob) as [p|]; [|by apply Hans].
  apply wpM_bind. unfold wpM at 1, call. destruct (locator_read _ _ _) as [d [[[written read]|e]|x]].
  - apply Hans; [done|]. intros bytes [= <-]. unfold fill. rewrite !length_take. lia.
  - unfold wpM, bind, modify_shared, modify_sess, modify_worker, modify. cbn. eexists. split; [done|]. done.
  - unfold wpM, bind, modify_shared, modify_sess, modify_worker, modify. cbn. eexists. split; [done|]. done.
Qed.
End lobs.

Definition lob_world : World :=
  set_worker (set_parked {[0 := mkParked None 5]} (worker sample_world)) sample_world.
Definition lob_read := read_lob_chunk (mkLob 7 0) 10 (mkReplyTo (T := list Z) (OneShot 3 true) (mkLob 7 0)) lob_world.

Lemma lob_chunk_bounded_witness :
  exists v, completions (world_of lob_read) = [] ++ [(3, LobChunk 0 0 (mkLob 7 0) v)] /\
    forall bytes, v = Ok bytes -> Z.of_nat (length bytes) <= 2.
Proof. apply (lob_chunk_bounded (mkLob 7 0) 10 3 (mkLob 7 0) lob_world Continue); [lia|by vm_compute|by vm_compute]. Defined.
