(* ===== verification/Token.v ===== *)
(** * Tokens and the state carried between lines

    crates/sql-text/src/token.rs: the token kinds, the token, and [LexState]
    with its encoding in one non-negative [i32], the only thing the editor's
    highlighter keeps per line. *)

From S2P Require Import Prelude.
From S2P Require Import RustStr.
Open Scope Z_scope.

Inductive TokenKind :=
| Whitespace | Keyword | Identifier | QuotedIdentifier | StringLit | NumberLit
| Comment | Operator | BindVariable | SubstitutionVariable | Directive | ErrorToken.

#[export] Instance token_kind_eq_dec : EqDecision TokenKind.
Proof. solve_decision. Defined.

Definition kind_eqb (a b : TokenKind) : bool := bool_decide (a = b).

Record Token := mkToken { kind : TokenKind; start : nat; tend : nat }.

(** [Token::len]. *)
Definition token_len (t : Token) : nat := tend t - start t.

(** [QString] holds the closing delimiter. *)
Inductive Mode := Normal | BlockComment | SingleQuoted | DoubleQuoted | QString (closing : char).

#[export] Instance mode_eq_dec : EqDecision Mode.
Proof. solve_decision. Defined.

(** [LexState] wraps a [Mode]. *)
Abbreviation LexState := Mode (only parsing).
Definition INITIAL : LexState := Normal.
Definition is_initial (s : LexState) : bool := match s with Normal => true | _ => false end.

Definition TAG_MASK : Z := 0x7.
Definition TAG_BLOCK_COMMENT : Z := 1.
Definition TAG_SINGLE_QUOTED : Z := 2.
Definition TAG_DOUBLE_QUOTED : Z := 3.
Definition TAG_QSTRING : Z := 4.
Definition DELIMITER_SHIFT : Z := 8.

(** [i32] left shift keeps the low 32 bits, in two's complement. *)
Definition to_i32 (x : Z) : Z := (x + 2 ^ 31) mod 2 ^ 32 - 2 ^ 31.

Definition encode (m : Mode) : Z :=
  match m with
  | Normal => 0
  | BlockComment => TAG_BLOCK_COMMENT
  | SingleQuoted => TAG_SINGLE_QUOTED
  | DoubleQuoted => TAG_DOUBLE_QUOTED
  | QString closing => Z.lor TAG_QSTRING (to_i32 (Z.shiftl closing DELIMITER_SHIFT))
  end.

(** [char::from_u32]. *)
Definition from_u32 (x : Z) : option char := if is_scalar x then Some x else None.

Definition decode (raw : Z) : Mode :=
  if raw <? 0 then Normal
  else
    let tag := Z.land raw TAG_MASK in
    if tag =? TAG_BLOCK_COMMENT then BlockComment
    else if tag =? TAG_SINGLE_QUOTED then SingleQuoted
    else if tag =? TAG_DOUBLE_QUOTED then DoubleQuoted
    else if tag =? TAG_QSTRING then
      match from_u32 (Z.shiftr raw DELIMITER_SHIFT) with
      | Some c => QString c
      | None => Normal
      end
    else Normal.

Definition to_raw (s : LexState) : Z := encode s.
Definition from_raw (raw : Z) : LexState := decode raw.

(** ** Lemmas *)

(** A mode whose delimiter is a [char]: every value of the Rust type. *)
Definition mode_ok (m : Mode) : Prop :=
  match m with QString c => is_scalar c = true | _ => True end.

Lemma is_scalar_bounds c : is_scalar c = true -> 0 <= c < 0x110000.
Proof.
  unfold is_scalar. rewrite orb_true_iff, !andb_true_iff, Z.leb_le, !Z.ltb_lt. lia.
Qed.

(** The tag and the shifted delimiter do not overlap. *)
Lemma encode_qstring c :
  is_scalar c = true -> encode (QString c) = 4 + c * 256.
Proof.
  intros H%is_scalar_bounds. unfold encode, to_i32, TAG_QSTRING, DELIMITER_SHIFT.
  rewrite Z.shiftl_mul_pow2 by lia.
  rewrite Z.mod_small by lia.
  replace (c * 2 ^ 8 + 2 ^ 31 - 2 ^ 31) with (Z.shiftl c 8)
    by (rewrite Z.shiftl_mul_pow2; lia).
  assert (Hl : Z.land 4 (Z.shiftl c 8) = 0).
  { apply Z.bits_inj'; intros n Hn; rewrite Z.land_spec, Z.bits_0.
    destruct (Z.lt_ge_cases n 8).
    - rewrite Z.shiftl_spec_low by lia. apply andb_false_r.
    - rewrite (Z.bits_above_log2 4) by (simpl; lia). done. }
  rewrite <- Z.lxor_lor, <- Z.add_nocarry_lxor, Z.shiftl_mul_pow2 by (done || lia). lia.
Qed.

Lemma encode_range m : mode_ok m -> 0 <= encode m < 2 ^ 31.
Proof.
  destruct m as [| | | |c]; [intros _; cbv; done..|].
  intros H. rewrite encode_qstring by done. apply is_scalar_bounds in H. lia.
Qed.

Lemma decode_encode m : mode_ok m -> decode (encode m) = m.
Proof.
  destruct m as [| | | |c]; try done.
  intros H. pose proof (is_scalar_bounds c H) as Hc. rewrite encode_qstring by done.
  unfold decode. rewrite (proj2 (Z.ltb_ge _ _)) by lia.
  assert (Z.land (4 + c * 256) TAG_MASK = 4) as ->.
  { unfold TAG_MASK. change 7 with (Z.ones 3). rewrite Z.land_ones by lia.
    replace (4 + c * 256) with (4 + (c * 32) * 2 ^ 3) by lia.
    rewrite Z.mod_add by lia. done. }
  cbn. unfold DELIMITER_SHIFT. rewrite Z.shiftr_div_pow2 by lia.
  replace (4 + c * 256) with (4 + c * 2 ^ 8) by lia.
  rewrite Z.div_add by lia. change (4 / 2 ^ 8) with 0. rewrite Z.add_0_l.
  unfold from_u32. by rewrite H.
Qed.

Lemma decode_ok raw : mode_ok (decode raw).
Proof.
  unfold decode, from_u32. repeat case_match; simplify_eq; simpl; done.
Qed.
