(* ===== verification/Dialect.v ===== *)
(** * Dialect descriptors

    crates/sql-text/src/dialect.rs: the data a driver hands to the lexer and
    the splitter, and crates/drivers/oracle-thin/src/sql_dialect.rs: Oracle's
    own descriptor, the one value of it the product uses. *)

From S2P Require Import Prelude.
From S2P Require Import RustStr.

Abbreviation Phrase := (list (list Z)) (only parsing).

Inductive KeywordSlot :=
| Required (options : list Phrase)
| Optional (options : list Phrase).

Inductive BlockKind := Structured | OpaqueSource | ParenDelimited.

Record BlockStarter := mkStarter {
  slots : list KeywordSlot;
  block_kind : BlockKind;
  opens_body : bool;
}.

Record QuotingRules := mkQuoting {
  alternative_quote_prefixes : list str;
  national_string_prefixes : list str;
}.

Record CommentRules := mkComments {
  line_comment : option str;
  block_comment : option (str * str);
  line_comment_words : list str;
}.

Record SqlDialect := mkDialect {
  statement_terminators : list char;
  slash_terminates_block : bool;
  slash_terminates_plain : bool;
  block_may_end_without_slash : bool;
  block_starters : list BlockStarter;
  label_delimiters : option (str * str);
  block_body_opener : str;
  block_nesting_openers : list str;
  block_end_keyword : str;
  subprogram_header_keywords : list str;
  body_intro_keywords : list str;
  body_intro_exceptions : list Phrase;
  call_spec_phrases : list Phrase;
  body_less_markers : list str;
  sectioned_body_marker : option Phrase;
  section_header_starters : list str;
  directive_prefix : option char;
  quoting : QuotingRules;
  comments : CommentRules;
  bind_variables : bool;
  substitution_variables : bool;
  keywords : list str;
}.

(** [words.iter().any(|w| w.eq_ignore_ascii_case(word))]. *)
Definition any_ignore_case (words : list str) (word : str) : bool :=
  existsb (fun w => eq_ignore_ascii_case w word) words.

(** [SqlDialect::is_keyword]. *)
Definition is_keyword (d : SqlDialect) (word : str) : bool := any_ignore_case (keywords d) word.

(** ** Oracle *)

(** ['$']. *)
Definition DOLLAR : char := 36.

Definition words (l : list string) : list str := map lit l.

Local Open Scope string_scope.

Definition OR_REPLACE : Phrase := words ["OR"; "REPLACE"].
Definition EDITIONABLE : Phrase := words ["EDITIONABLE"].
Definition NONEDITIONABLE : Phrase := words ["NONEDITIONABLE"].
Definition PACKAGE_BODY : Phrase := words ["PACKAGE"; "BODY"].
Definition TYPE_BODY : Phrase := words ["TYPE"; "BODY"].
Definition AND_RESOLVE : Phrase := words ["AND"; "RESOLVE"].
Definition AND_COMPILE : Phrase := words ["AND"; "COMPILE"].
Definition NOFORCE : Phrase := words ["NOFORCE"].
Definition JAVA_SOURCE : Phrase := words ["JAVA"; "SOURCE"].

Definition CREATE_SUBPROGRAM_STARTER : BlockStarter :=
  mkStarter
    [Required [words ["CREATE"]]; Optional [OR_REPLACE];
     Optional [EDITIONABLE; NONEDITIONABLE];
     Required [words ["PROCEDURE"]; words ["FUNCTION"]; words ["TRIGGER"]]]
    Structured false.

Definition CREATE_COMPOUND_STARTER : BlockStarter :=
  mkStarter
    [Required [words ["CREATE"]]; Optional [OR_REPLACE];
     Optional [EDITIONABLE; NONEDITIONABLE];
     Required [words ["PACKAGE"]; PACKAGE_BODY; TYPE_BODY]]
    Structured false.

Definition CREATE_TYPE_SPEC_STARTER : BlockStarter :=
  mkStarter
    [Required [words ["CREATE"]]; Optional [OR_REPLACE];
     Optional [EDITIONABLE; NONEDITIONABLE]; Required [words ["TYPE"]]]
    ParenDelimited false.

Definition CREATE_JAVA_SOURCE_STARTER : BlockStarter :=
  mkStarter
    [Required [words ["CREATE"]]; Optional [OR_REPLACE];
     Optional [AND_RESOLVE; AND_COMPILE]; Optional [NOFORCE]; Required [JAVA_SOURCE]]
    OpaqueSource false.

Definition DECLARE_STARTER : BlockStarter :=
  mkStarter [Required [words ["DECLARE"]]] Structured false.

Definition BEGIN_STARTER : BlockStarter :=
  mkStarter [Required [words ["BEGIN"]]] Structured true.

Definition BLOCK_STARTERS : list BlockStarter :=
  [DECLARE_STARTER; BEGIN_STARTER; CREATE_JAVA_SOURCE_STARTER; CREATE_SUBPROGRAM_STARTER;
   CREATE_COMPOUND_STARTER; CREATE_TYPE_SPEC_STARTER].

Definition KEYWORDS : list str := words [
  "SELECT"; "INSERT"; "UPDATE"; "DELETE"; "MERGE"; "FROM"; "WHERE"; "INTO"; "VALUES"; "SET";
  "GROUP"; "BY"; "HAVING"; "ORDER"; "UNION"; "INTERSECT"; "MINUS"; "ALL"; "DISTINCT"; "AS";
  "JOIN"; "INNER"; "OUTER"; "LEFT"; "RIGHT"; "FULL"; "CROSS"; "ON"; "USING"; "WITH"; "CONNECT";
  "START"; "PRIOR"; "RETURNING"; "FOR"; "UPDATE"; "LOCK"; "AND"; "OR"; "NOT"; "IS"; "IN";
  "LIKE"; "BETWEEN"; "EXISTS"; "NULL"; "ANY"; "SOME"; "COMMIT"; "ROLLBACK"; "SAVEPOINT";
  "WORK"; "TO"; "CREATE"; "ALTER"; "DROP"; "TRUNCATE"; "COMMENT"; "RENAME"; "GRANT"; "REVOKE";
  "ANALYZE"; "AUDIT"; "NOAUDIT"; "FLASHBACK"; "PURGE"; "ASSOCIATE"; "DISASSOCIATE"; "TABLE";
  "VIEW"; "INDEX"; "SEQUENCE"; "SYNONYM"; "TRIGGER"; "PROCEDURE"; "FUNCTION"; "PACKAGE";
  "BODY"; "TYPE"; "TABLESPACE"; "MATERIALIZED"; "CONSTRAINT"; "PRIMARY"; "KEY"; "FOREIGN";
  "REFERENCES"; "CHECK"; "DEFAULT"; "UNIQUE"; "REPLACE"; "EDITIONABLE"; "NONEDITIONABLE"; "OR";
  "REFERENCING"; "NEW"; "OLD"; "EACH"; "ROW"; "COMPOUND"; "INSTEAD"; "OF"; "BEFORE"; "AFTER";
  "CALL"; "RESOLVE"; "COMPILE"; "NOFORCE"; "MEMBER"; "STATIC"; "CONSTRUCTOR"; "UNDER";
  "DECLARE"; "BEGIN"; "END"; "IF"; "THEN"; "ELSE"; "ELSIF"; "LOOP"; "WHILE"; "EXIT";
  "CONTINUE"; "RETURN"; "EXCEPTION"; "WHEN"; "CASE"; "RAISE"; "GOTO"; "CURSOR"; "FETCH";
  "OPEN"; "CLOSE"; "BULK"; "COLLECT"; "LIMIT"; "PRAGMA"; "AUTONOMOUS_TRANSACTION"; "EXECUTE";
  "IMMEDIATE"; "USING"; "OUT"; "IN"; "NOCOPY"; "IS"; "AS"; "CONSTANT"; "OTHERS";
  "RAISE_APPLICATION_ERROR"; "RESULT_CACHE"; "DETERMINISTIC"; "PIPELINED"; "AUTHID"; "DEFINER";
  "CURRENT_USER"; "LANGUAGE"; "JAVA"; "LIBRARY"; "EXTERNAL"; "ROWTYPE"; "SUBTYPE"; "REF";
  "SELF"; "RESULT"; "NUMBER"; "VARCHAR2"; "CHAR"; "NCHAR"; "NVARCHAR2"; "DATE"; "TIMESTAMP";
  "INTERVAL"; "CLOB"; "NCLOB"; "BLOB"; "RAW"; "LONG"; "ROWID"; "UROWID"; "BOOLEAN";
  "PLS_INTEGER"; "BINARY_INTEGER"; "VARRAY"; "OBJECT"; "RECORD"; "JSON"; "XMLTYPE"; "SESSION";
  "SYSTEM"; "ROLE"; "TRANSACTION"; "CONSTRAINTS"; "PARTITION"; "SUBPARTITION"; "STORAGE"].

Definition sql_dialect : SqlDialect := {|
  statement_terminators := lit ";";
  slash_terminates_block := true;
  slash_terminates_plain := true;
  block_may_end_without_slash := true;
  block_starters := BLOCK_STARTERS;
  label_delimiters := Some (lit "<<", lit ">>");
  block_body_opener := lit "BEGIN";
  block_nesting_openers := words ["CASE"; "IF"; "LOOP"];
  block_end_keyword := lit "END";
  subprogram_header_keywords := words ["PROCEDURE"; "FUNCTION"];
  body_intro_keywords := words ["IS"; "AS"];
  body_intro_exceptions := [words ["SELF"; "AS"]];
  call_spec_phrases :=
    [words ["LANGUAGE"; "JAVA"]; words ["LANGUAGE"; "C"]; words ["LANGUAGE"; "JAVASCRIPT"];
     words ["EXTERNAL"; "LIBRARY"]; words ["EXTERNAL"; "NAME"]];
  body_less_markers := words ["CALL"];
  sectioned_body_marker := Some (words ["COMPOUND"; "TRIGGER"]);
  section_header_starters := words ["BEFORE"; "AFTER"; "INSTEAD"];
  directive_prefix := Some DOLLAR;
  quoting := {|
    alternative_quote_prefixes := words ["Q"; "NQ"];
    national_string_prefixes := words ["N"] |};
  comments := {|
    line_comment := Some (lit "--");
    block_comment := Some (lit "/*", lit "*/");
    line_comment_words := [] |};
  bind_variables := true;
  substitution_variables := true;
  keywords := KEYWORDS |}.
