(* ===== verification/Lexer.v ===== *)
(** * The lexer

    crates/sql-text/src/lexer.rs.  A cursor is the text and a byte offset; each
    function threads it and panics where the source would: slicing off a
    character boundary, [expect], and the debug assertions, which are on.
    A loop runs with one step of fuel per character of the text and one more to
    stop.  Positions are natural numbers: an offset into a [str] fits [usize]. *)

From S2P Require Import Prelude.
From S2P Require Import RustStr.
From S2P Require Import Token.
From S2P Require Import Dialect.
Open Scope Z_scope.
Open Scope run_scope.

Definition BOM : char := 0xFEFF.

(** ** Cursor *)

Record Cursor := mkCursor { text : str; pos : nat }.

Definition cursor_new (t : str) : Cursor := mkCursor t 0.

(** [cursor.pos += n]. *)
Definition advance (c : Cursor) (n : nat) : Cursor := mkCursor (text c) (pos c + n).

Definition rest (c : Cursor) : run str := slice_from (text c) (pos c).

Definition peek (c : Cursor) : run (option char) := let! r := rest c in Ret (head r).

Definition peek2 (c : Cursor) : run (option char) := let! r := rest c in Ret (head (tail r)).

Definition bump (c : Cursor) : run (option char * Cursor) :=
  let! o := peek c in
  match o with
  | None => Ret (None, c)
  | Some ch => Ret (Some ch, advance c (len_utf8 ch))
  end.

Definition at_end (c : Cursor) : bool := (blen (text c) <=? pos c)%nat.

Definition loop_fuel (c : Cursor) : nat := S (length (text c)).

(** [while matches!(cursor.peek(), Some(c) if p(c)) { cursor.bump(); }]. *)
Fixpoint bump_while_loop (fuel : nat) (p : char -> bool) (c : Cursor) : run Cursor :=
  match fuel with
  | O => OutOfFuel
  | S fuel' =>
      let! o := peek c in
      match o with
      | Some ch => if p ch then let! (_, c') := bump c in bump_while_loop fuel' p c' else Ret c
      | None => Ret c
      end
  end.
Definition bump_while (p : char -> bool) (c : Cursor) : run Cursor :=
  bump_while_loop (loop_fuel c) p c.

(** ** Character classes and word lengths *)

Definition is_lexer_whitespace (ch : char) : bool := is_whitespace ch || (ch =? BOM).

(** The scanners' [c != '\n']. *)
Definition not_newline (ch : char) : bool := negb (ch =? NEWLINE).

Definition is_char (x : char) (o : option char) : bool :=
  match o with Some ch => ch =? x | None => false end.

Definition is_digit (o : option char) : bool :=
  match o with Some ch => is_ascii_digit ch | None => false end.

Definition unwrap_or {A} (o : option A) (a : A) : A :=
  match o with Some x => x | None => a end.

Section Scanners.
Context `{Unicode}.

Definition identifier_char (c : char) : bool :=
  is_alphanumeric c || (c =? 95) || (c =? 36) || (c =? 35).

Definition leading_identifier_len (s : str) : nat :=
  match s with
  | first :: _ =>
      if is_alphabetic first then
        unwrap_or (find_byte (fun c => negb (identifier_char c)) s) (blen s)
      else 0
  | [] => 0
  end.

(** ** Bodies of literals and comments *)

Fixpoint scan_simple_quoted_loop (fuel : nat) (c : Cursor) (quote : char) : run (bool * Cursor) :=
  match fuel with
  | O => OutOfFuel
  | S fuel' =>
      let! o := peek c in
      match o with
      | None => Ret (false, c)
      | Some ch =>
          let! (_, c1) := bump c in
          if ch =? quote then
            let! o1 := peek c1 in
            if is_char quote o1 then
              let! (_, c2) := bump c1 in scan_simple_quoted_loop fuel' c2 quote
            else Ret (true, c1)
          else scan_simple_quoted_loop fuel' c1 quote
      end
  end.
Definition scan_simple_quoted (c : Cursor) (quote : char) : run (bool * Cursor) :=
  scan_simple_quoted_loop (loop_fuel c) c quote.

Fixpoint scan_block_comment_loop (fuel : nat) (c : Cursor) (close : str) : run (bool * Cursor) :=
  match fuel with
  | O => OutOfFuel
  | S fuel' =>
      let! r := rest c in
      if starts_with r close then Ret (true, advance c (blen close))
      else
        let! (o, c1) := bump c in
        match o with
        | None => Ret (false, c1)
        | Some _ => scan_block_comment_loop fuel' c1 close
        end
  end.
Definition scan_block_comment (c : Cursor) (close : str) : run (bool * Cursor) :=
  scan_block_comment_loop (loop_fuel c) c close.

Fixpoint scan_q_string_loop (fuel : nat) (c : Cursor) (closing : char) : run (bool * Cursor) :=
  match fuel with
  | O => OutOfFuel
  | S fuel' =>
      let! o := peek c in
      match o with
      | None => Ret (false, c)
      | Some ch =>
          let! (_, c1) := bump c in
          if ch =? closing then
            let! o1 := peek c1 in
            if is_char QUOTE o1 then let! (_, c2) := bump c1 in Ret (true, c2)
            else scan_q_string_loop fuel' c1 closing
          else scan_q_string_loop fuel' c1 closing
      end
  end.
Definition scan_q_string (c : Cursor) (closing : char) : run (bool * Cursor) :=
  scan_q_string_loop (loop_fuel c) c closing.

Definition closing_delimiter (open : char) : char :=
  if open =? 91 then 93 else if open =? 123 then 125 else if open =? 60 then 62
  else if open =? 40 then 41 else open.

(** ** Variables and operators *)

(** [&rest[1..]] and the like. *)
Definition bind_variable_len (s : str) : run (option nat) :=
  if negb (starts_with s (lit ":")) then Panic
  else
  let! r := slice_from s 1 in
  match r with
  | [] => Ret None
  | first :: _ =>
      if first =? DQUOTE then
        let! after_quote := slice_from r 1 in
        match find_byte (fun c => c =? DQUOTE) after_quote with
        | Some e => Ret (Some (1 + 1 + e + 1)%nat)
        | None => Ret None
        end
      else if is_ascii_digit first then
        Ret (Some (1 + unwrap_or (find_byte (fun c => negb (is_ascii_digit c)) r) (blen r))%nat)
      else if is_alphabetic first then
        let len := leading_identifier_len r in
        Ret (if (0 <? len)%nat then Some (1 + len)%nat else None)
      else Ret None
  end.

Definition substitution_variable_len (s : str) : run (option nat) :=
  if negb (starts_with s (lit "&")) then Panic
  else
  let! t := slice_from s 1 in
  let prefix_len := if starts_with t (lit "&") then 2%nat else 1%nat in
  let! r := slice_from s prefix_len in
  let name_len :=
    match r with
    | c :: _ =>
        if is_ascii_digit c then
          unwrap_or (find_byte (fun c => negb (is_ascii_digit c)) r) (blen r)
        else if is_alphabetic c then leading_identifier_len r
        else 0%nat
    | [] => 0%nat
    end in
  if (name_len =? 0)%nat then Ret None
  else
    let len := (prefix_len + name_len)%nat in
    let! u := slice_from s len in
    Ret (Some (if starts_with u (lit ".") then (len + 1)%nat else len)).

Definition TWO_CHAR_OPERATORS : list str :=
  map lit [":="; "<="; ">="; "<>"; "!="; "^="; "||"; "**"; "=>"; "<<"; ">>"]%string.

Fixpoint advance_by_chars (c : Cursor) (count : nat) : run Cursor :=
  match count with
  | O => Ret c
  | S n => let! (_, c') := bump c in advance_by_chars c' n
  end.

(** ** Numbers *)

Definition maybe_exponent (c : Cursor) : run Cursor :=
  let! o := peek c in
  if is_char 101 o || is_char 69 o then
    let! (_, look) := bump c in
    let! s := peek look in
    let! look :=
      if is_char 43 s || is_char 45 s then let! (_, l) := bump look in Ret l else Ret look in
    let! d := peek look in
    if is_digit d then bump_while is_ascii_digit look else Ret c
  else Ret c.

Definition scan_number (c : Cursor) : run Cursor :=
  let! o := peek c in
  if is_char 46 o then
    let! (_, c1) := bump c in
    let! c2 := bump_while is_ascii_digit c1 in
    maybe_exponent c2
  else
    let! c1 := bump_while is_ascii_digit c in
    let! o1 := peek c1 in
    let! o2 := peek2 c1 in
    if is_char 46 o1 && is_digit o2 then
      let! (_, c2) := bump c1 in
      let! c3 := bump_while is_ascii_digit c2 in
      maybe_exponent c3
    else maybe_exponent c1.

(** ** One token *)

(** The token's kind, the next mode, the cursor past the token, and
    [at_line_start]. *)
Definition Scanned : Type := TokenKind * Mode * Cursor * bool.

Definition quoted_token (k : TokenKind) (open : Mode) (r : run (bool * Cursor)) : run Scanned :=
  let! (closed, c) := r in
  Ret (k, (if closed then Normal else open), c, false).

(** The branches of [next_token_normal] in the order the source tries them.  A
    branch that does not apply yields [None] and the next is tried. *)

Definition lex_whitespace (c : Cursor) (ch : char) (als : bool) : run (option Scanned) :=
  if is_lexer_whitespace ch then
    let! c' := bump_while is_lexer_whitespace c in
    Ret (Some (Whitespace, Normal, c', als))
  else Ret None.

Definition lex_line_comment (c : Cursor) (d : SqlDialect) : run (option Scanned) :=
  match line_comment (comments d) with
  | Some prefix =>
      let! r := rest c in
      if starts_with r prefix then
        let! c' := bump_while not_newline (advance c (blen prefix)) in
        Ret (Some (Comment, Normal, c', false))
      else Ret None
  | None => Ret None
  end.

Definition lex_block_comment (c : Cursor) (d : SqlDialect) : run (option Scanned) :=
  match block_comment (comments d) with
  | Some (open, close) =>
      let! r := rest c in
      if starts_with r open then
        let! s := quoted_token Comment BlockComment
                    (scan_block_comment (advance c (blen open)) close) in
        Ret (Some s)
      else Ret None
  | None => Ret None
  end.

Definition lex_comment_word (c : Cursor) (d : SqlDialect) (ch : char) (als : bool)
    : run (option Scanned) :=
  if negb (bool_decide (line_comment_words (comments d) = [])) && als && is_alphabetic ch then
    let! r := rest c in
    let len := leading_identifier_len r in
    let! word := slice_to r len in
    if any_ignore_case (line_comment_words (comments d)) word then
      let! c' := bump_while not_newline (advance c len) in
      Ret (Some (Comment, Normal, c', false))
    else Ret None
  else Ret None.

Definition lex_directive (c : Cursor) (d : SqlDialect) (ch : char) : run (option Scanned) :=
  match directive_prefix d with
  | Some prefix =>
      if ch =? prefix then
        let! r := rest c in
        let! r1 := slice_from r (len_utf8 prefix) in
        let len := if starts_with r1 [prefix] then (len_utf8 prefix + len_utf8 prefix)%nat
                   else len_utf8 prefix in
        let! r2 := slice_from r len in
        let ident_len := leading_identifier_len r2 in
        if (0 <? ident_len)%nat then
          Ret (Some (Directive, Normal, advance c (len + ident_len), false))
        else Ret None
      else Ret None
  | None => Ret None
  end.

Definition lex_quoted (c : Cursor) (ch : char) : run (option Scanned) :=
  if ch =? DQUOTE then
    let! (_, c1) := bump c in
    let! s := quoted_token QuotedIdentifier DoubleQuoted (scan_simple_quoted c1 DQUOTE) in
    Ret (Some s)
  else if ch =? QUOTE then
    let! (_, c1) := bump c in
    let! s := quoted_token StringLit SingleQuoted (scan_simple_quoted c1 QUOTE) in
    Ret (Some s)
  else Ret None.

(** [q'X…]: [c] stands before the prefix word, [len] bytes long. *)
Definition lex_q_literal (c : Cursor) (len : nat) : run Scanned :=
  let! (_, c1) := bump (advance c len) in
  let! (o, c2) := bump c1 in
  match o with
  | Some delimiter =>
      let closing := closing_delimiter delimiter in
      quoted_token StringLit (QString closing) (scan_q_string c2 closing)
  | None => Ret (ErrorToken, Normal, c2, false)
  end.

Definition lex_word (c : Cursor) (d : SqlDialect) (ch : char) : run (option Scanned) :=
  if is_alphabetic ch then
    let! r := rest c in
    let len := leading_identifier_len r in
    let! word := slice_to r len in
    let! after := slice_from r len in
    if starts_with after [QUOTE] && any_ignore_case (alternative_quote_prefixes (quoting d)) word
    then let! s := lex_q_literal c len in Ret (Some s)
    else if starts_with after [QUOTE] && any_ignore_case (national_string_prefixes (quoting d)) word
    then
      let! (_, c1) := bump (advance c len) in
      let! s := quoted_token StringLit SingleQuoted (scan_simple_quoted c1 QUOTE) in
      Ret (Some s)
    else
      Ret (Some ((if is_keyword d word then Keyword else Identifier), Normal, advance c len, false))
  else Ret None.

Definition lex_range (c : Cursor) : run (option Scanned) :=
  let! r := rest c in
  Ret (if starts_with r (lit "..") then Some (Operator, Normal, advance c 2, false) else None).

Definition lex_number (c : Cursor) (ch : char) : run (option Scanned) :=
  let! o2 := peek2 c in
  if is_ascii_digit ch || ((ch =? 46) && is_digit o2) then
    let! c' := scan_number c in Ret (Some (NumberLit, Normal, c', false))
  else Ret None.

Definition lex_bind (c : Cursor) (d : SqlDialect) (ch : char) : run (option Scanned) :=
  if (ch =? 58) && bind_variables d then
    let! r := rest c in
    let! len := bind_variable_len r in
    Ret (match len with Some n => Some (BindVariable, Normal, advance c n, false) | None => None end)
  else Ret None.

Definition lex_substitution (c : Cursor) (d : SqlDialect) (ch : char) : run (option Scanned) :=
  if (ch =? 38) && substitution_variables d then
    let! r := rest c in
    let! len := substitution_variable_len r in
    Ret (match len with
         | Some n => Some (SubstitutionVariable, Normal, advance c n, false)
         | None => None
         end)
  else Ret None.

Definition lex_operator (c : Cursor) : run (option Scanned) :=
  let! r := rest c in
  match List.find (fun op => starts_with r op) TWO_CHAR_OPERATORS with
  | Some op =>
      let! c' := advance_by_chars c (length op) in Ret (Some (Operator, Normal, c', false))
  | None => let! (_, c') := bump c in Ret (Some (Operator, Normal, c', false))
  end.

(** Early returns: the first branch that yields a token. *)
Fixpoint first_of (branches : list (run (option Scanned))) : run Scanned :=
  match branches with
  | [] => Panic
  | b :: rest => let! o := b in match o with Some s => Ret s | None => first_of rest end
  end.

Definition next_token_normal (c : Cursor) (d : SqlDialect) (als : bool) : run Scanned :=
  let! o := peek c in
  let! ch := of_option o in
  first_of
    [lex_whitespace c ch als; lex_line_comment c d; lex_block_comment c d;
     lex_comment_word c d ch als; lex_directive c d ch; lex_quoted c ch; lex_word c d ch;
     lex_range c; lex_number c ch; lex_bind c d ch; lex_substitution c d ch; lex_operator c].

Definition block_close (d : SqlDialect) : str :=
  match block_comment (comments d) with Some (_, close) => close | None => lit "*/" end.

Definition next_token (c : Cursor) (d : SqlDialect) (mode : Mode) (als : bool) : run Scanned :=
  match mode with
  | BlockComment => quoted_token Comment BlockComment (scan_block_comment c (block_close d))
  | SingleQuoted => quoted_token StringLit SingleQuoted (scan_simple_quoted c QUOTE)
  | DoubleQuoted => quoted_token QuotedIdentifier DoubleQuoted (scan_simple_quoted c DQUOTE)
  | QString closing => quoted_token StringLit (QString closing) (scan_q_string c closing)
  | Normal => next_token_normal c d als
  end.

(** ** Blocks and documents *)

Fixpoint block_loop (fuel : nat) (d : SqlDialect) (c : Cursor) (mode : Mode) (als : bool)
    : run (list Token * LexState) :=
  match fuel with
  | O => OutOfFuel
  | S fuel' =>
      if at_end c then Ret ([], mode)
      else
        let! (k, next_mode, c', als') := next_token c d mode als in
        if negb (pos c <? pos c')%nat then Panic
        else
          let! (ts, final) := block_loop fuel' d c' next_mode als' in
          Ret (mkToken k (pos c) (pos c') :: ts, final)
  end.

Definition tokenize_block (t : str) (state : LexState) (d : SqlDialect)
    : run (list Token * LexState) :=
  block_loop (S (length t)) d (cursor_new t) state (is_initial state).

(** [text.split('\n')]. *)
Fixpoint split_lines (t : str) : list str :=
  match t with
  | [] => [[]]
  | c :: t' =>
      if c =? NEWLINE then [] :: split_lines t'
      else match split_lines t' with
           | l :: ls => (c :: l) :: ls
           | [] => [[c]]
           end
  end.

(** [token.start += pos; token.end += pos]. *)
Definition shift_token (p : nat) (t : Token) : Token :=
  mkToken (kind t) (p + start t) (p + tend t).

Fixpoint lines_loop (d : SqlDialect) (state : LexState) (p : nat) (lines : list str)
    : run (list Token * LexState) :=
  match lines with
  | [] => Ret ([], state)
  | line :: lines' =>
      let! (line_tokens, next_state) := tokenize_block line state d in
      let p' := (p + blen line)%nat in
      let here := map (shift_token p) line_tokens in
      match lines' with
      | [] => Ret (here, next_state)
      | _ :: _ =>
          let! (ts, final) := lines_loop d next_state (p' + 1) lines' in
          Ret (here ++ mkToken Whitespace p' (p' + 1) :: ts, final)
      end
  end.

(** [last.kind = TokenKind::Error]. *)
Fixpoint mark_last (ts : list Token) : list Token :=
  match ts with
  | [] => []
  | [t] => [mkToken ErrorToken (start t) (tend t)]
  | t :: ts' => t :: mark_last ts'
  end.

Definition tokenize (t : str) (d : SqlDialect) : run (list Token) :=
  let! (ts, state) := lines_loop d INITIAL 0 (split_lines t) in
  Ret (if negb (is_initial state) then mark_last ts else ts).

End Scanners.

(** ** Examples *)

Definition kinds (r : run (list Token)) : list TokenKind :=
  match r with Ret ts => map kind ts | _ => [] end.

Example lex_assignment :
  tokenize (lit "x:=1.5e3;") sql_dialect =
  Ret [mkToken Identifier 0 1; mkToken Operator 1 3; mkToken NumberLit 3 8; mkToken Operator 8 9].
Proof. vm_compute. reflexivity. Qed.

Example lex_q_literal_spans_lines :
  kinds (tokenize (lit "q'[a]b" ++ [NEWLINE] ++ lit "c]' -- x") sql_dialect) =
  [StringLit; Whitespace; StringLit; Whitespace; Comment].
Proof. vm_compute. reflexivity. Qed.
