(* ===== verification/LexerProps.v ===== *)
(** * Facts about the scanners

    Every scanner takes the cursor between [a] and [b] to the cursor some
    characters further into [b], without a panic and within its fuel; how many
    characters is a function on [b] alone. *)

From S2P Require Import Prelude.
From S2P Require Import RustStr.
From S2P Require Import Token.
From S2P Require Import Dialect.
From S2P Require Import Lexer.
Open Scope Z_scope.
Open Scope run_scope.

(** The cursor of the text [a ++ b] that stands between the two. *)
Definition cur (a b : str) : Cursor := mkCursor (a ++ b) (blen a).

(** The same cursor, [n] characters further. *)
Definition skip (a b : str) (n : nat) : Cursor := cur (a ++ take n b) (drop n b).

(** ** Moving *)

Lemma skip_0 a b : skip a b 0 = cur a b.
Proof. unfold skip. by rewrite take_0, drop_0, app_nil_r. Qed.

Lemma skip_skip a b n m : skip (a ++ take n b) (drop n b) m = skip a b (n + m).
Proof.
  unfold skip. rewrite drop_drop, <- (assoc_L (++)). f_equal.
  by rewrite take_take_drop.
Qed.

Lemma skip_cur a b n : (n <= length b)%nat ->
  skip a b n = mkCursor (a ++ b) (blen a + blen (take n b)).
Proof.
  intros Hn. unfold skip, cur. by rewrite blen_app, <- (assoc_L (++)), take_drop.
Qed.

Lemma advance_take a b n : advance (cur a b) (blen (take n b)) = skip a b n.
Proof.
  unfold advance, skip, cur. simpl. by rewrite blen_app, <- (assoc_L (++)), take_drop.
Qed.

Lemma advance_app a x b : advance (cur a (x ++ b)) (blen x) = skip a (x ++ b) (length x).
Proof. rewrite <- advance_take. by rewrite take_app_length. Qed.

Lemma rest_cur a b : rest (cur a b) = Ret b.
Proof. apply slice_from_app. Qed.

Lemma peek_cur a b : peek (cur a b) = Ret (head b).
Proof. unfold peek. by rewrite rest_cur. Qed.

Lemma peek2_cur a b : peek2 (cur a b) = Ret (head (tail b)).
Proof. unfold peek2. by rewrite rest_cur. Qed.

Lemma bump_nil a : bump (cur a []) = Ret (None, cur a []).
Proof. unfold bump. by rewrite peek_cur. Qed.

Lemma bump_cons a x b : bump (cur a (x :: b)) = Ret (Some x, skip a (x :: b) 1).
Proof.
  unfold bump. rewrite peek_cur. simpl. f_equal. f_equal.
  rewrite <- advance_take. simpl. by rewrite Nat.add_0_r.
Qed.

Lemma skip_cons a x b n : skip a (x :: b) (S n) = skip (a ++ [x]) b n.
Proof. unfold skip. simpl. by rewrite <- (assoc_L (++)). Qed.

Lemma skip_1 a x b : skip a (x :: b) 1 = cur (a ++ [x]) b.
Proof. by rewrite skip_cons, skip_0. Qed.

Lemma slice_to_take b n : slice_to b (blen (take n b)) = Ret (take n b).
Proof. rewrite <- (take_drop n b) at 1. apply slice_to_app. Qed.

Lemma slice_from_take b n : slice_from b (blen (take n b)) = Ret (drop n b).
Proof. rewrite <- (take_drop n b) at 1. apply slice_from_app. Qed.

Lemma loop_fuel_cur a b : (length b < loop_fuel (cur a b))%nat.
Proof. unfold loop_fuel, cur. simpl. rewrite length_app. lia. Qed.

(** Induction on the fuel of a scanner's loop that starts at [cur a b]. *)
Ltac cursor_loop a b :=
  pose proof (loop_fuel_cur a b) as Hf; revert Hf;
  generalize (loop_fuel (cur a b)) as fuel; intros fuel;
  revert a b; induction fuel as [|fuel IH]; intros a b Hf; [lia|].

(** What the cursor reads, by rewriting. *)
Create HintDb cursor.
#[export] Hint Rewrite rest_cur peek_cur peek2_cur bump_nil : cursor.
Ltac cursor_read := autorewrite with cursor; cbn [rbind].

(** ** How far each scanner goes *)

Fixpoint quoted_end (quote : char) (b : str) : nat * bool :=
  match b with
  | [] => (0%nat, false)
  | c :: b1 =>
      if c =? quote then
        match b1 with
        | d :: b2 =>
            if d =? quote then let '(n, closed) := quoted_end quote b2 in (S (S n), closed)
            else (1%nat, true)
        | [] => (1%nat, true)
        end
      else let '(n, closed) := quoted_end quote b1 in (S n, closed)
  end.

Fixpoint comment_end (close b : str) : nat * bool :=
  if starts_with b close then (length close, true)
  else match b with
  | [] => (0%nat, false)
  | _ :: b1 => let '(n, closed) := comment_end close b1 in (S n, closed)
  end.

Fixpoint q_end (closing : char) (b : str) : nat * bool :=
  match b with
  | [] => (0%nat, false)
  | c :: b1 =>
      if (c =? closing) && is_char QUOTE (head b1) then (2%nat, true)
      else let '(n, closed) := q_end closing b1 in (S n, closed)
  end.

Definition ending (a b : str) (e : nat * bool) : run (bool * Cursor) :=
  Ret (e.2, skip a b e.1).

Lemma bump_while_cur p a b : bump_while p (cur a b) = Ret (skip a b (count_while p b)).
Proof.
  unfold bump_while. cursor_loop a b.
  cbn [bump_while_loop]. rewrite peek_cur. destruct b as [|x b]; cbn [head rbind count_while].
  - by rewrite skip_0.
  - destruct (p x); [|by rewrite skip_0].
    rewrite bump_cons. cbn [rbind]. rewrite skip_1, IH by (simpl in *; lia).
    by rewrite skip_cons.
Qed.

Lemma scan_simple_quoted_cur a b q :
  scan_simple_quoted (cur a b) q = ending a b (quoted_end q b).
Proof.
  unfold scan_simple_quoted, ending. cursor_loop a b.
  cbn [scan_simple_quoted_loop]. rewrite peek_cur.
  destruct b as [|x b]; cbn [head rbind quoted_end].
  - by rewrite skip_0.
  - rewrite bump_cons. cbn [rbind]. rewrite skip_1.
    destruct (x =? q).
    + rewrite peek_cur. destruct b as [|y b]; cbn [head rbind is_char].
      { by rewrite skip_1. }
      destruct (y =? q); [|by rewrite skip_1].
      rewrite bump_cons. cbn [rbind]. rewrite skip_1, IH by (simpl in *; lia).
      destruct (quoted_end q b) as [n cl]. cbn. by rewrite !skip_cons.
    + rewrite IH by (simpl in *; lia). destruct (quoted_end q b) as [n cl]. cbn.
      by rewrite skip_cons.
Qed.

Lemma scan_block_comment_cur a b close :
  scan_block_comment (cur a b) close = ending a b (comment_end close b).
Proof.
  unfold scan_block_comment, ending. cursor_loop a b.
  cbn [scan_block_comment_loop]. cursor_read.
  destruct (starts_with b close) eqn:E.
  - apply starts_with_true in E as [b' ->]. rewrite advance_app.
    destruct (close ++ b') eqn:Ec; simpl; rewrite <- Ec, starts_with_app; done.
  - destruct b as [|x b]; cbn [comment_end]; rewrite E.
    + rewrite bump_nil. cbn. by rewrite skip_0.
    + rewrite bump_cons. cbn [rbind]. rewrite skip_1, IH by (simpl in *; lia).
      destruct (comment_end close b) as [n cl]. cbn. by rewrite skip_cons.
Qed.

Lemma scan_q_string_cur a b closing :
  scan_q_string (cur a b) closing = ending a b (q_end closing b).
Proof.
  unfold scan_q_string, ending. cursor_loop a b.
  cbn [scan_q_string_loop]. rewrite peek_cur.
  destruct b as [|x b]; cbn [head rbind q_end].
  - by rewrite skip_0.
  - rewrite bump_cons. cbn [rbind]. rewrite skip_1.
    destruct (x =? closing); cbn [andb].
    + rewrite peek_cur. cbn [rbind].
      destruct b as [|y b]; cbn [head is_char].
      { rewrite IH by (simpl in *; lia). cbn. by rewrite skip_cons. }
      destruct (y =? QUOTE).
      * rewrite bump_cons. cbn [rbind fst snd]. by rewrite !skip_cons.
      * rewrite IH by (simpl in *; lia). destruct (q_end closing (y :: b)) as [n cl].
        cbn [fst snd]. by rewrite skip_cons.
    + rewrite IH by (simpl in *; lia). destruct (q_end closing b) as [n cl].
      cbn. by rewrite skip_cons.
Qed.

(** What the three literal scanners share: they stay inside the text, move when
    there is text, and reach its end when nothing closed them. *)
Record good_end (b : str) (e : nat * bool) : Prop := {
  end_le : (e.1 <= length b)%nat;
  end_pos : b <> [] -> (0 < e.1)%nat;
  end_open : e.2 = false -> e.1 = length b;
}.

Lemma quoted_end_good q b : good_end b (quoted_end q b).
Proof.
  enough (H : forall k b, (length b < k)%nat -> good_end b (quoted_end q b)) by eauto.
  clear b. induction k as [|k IH]; intros b Hk; [lia|].
  destruct b as [|c b]; [split; simpl; done || lia|]. cbn [quoted_end]. simpl in Hk.
  destruct (c =? q).
  - destruct b as [|d b]; [split; simpl; done || lia|].
    destruct (d =? q); [|split; simpl; done || lia].
    destruct (IH b) as [H1 H2 H3]; [simpl in Hk; lia|].
    destruct (quoted_end q b) as [n cl]. split; simpl in *; [lia..|]. intros ->. by rewrite H3.
  - destruct (IH b) as [H1 H2 H3]; [lia|].
    destruct (quoted_end q b) as [n cl]. split; simpl in *; [lia..|]. intros ->. by rewrite H3.
Qed.

Lemma q_end_good q b : good_end b (q_end q b).
Proof.
  induction b as [|c b [H1 H2 H3]]; [split; simpl; done || lia|].
  cbn [q_end]. destruct ((c =? q) && is_char QUOTE (head b)) eqn:E.
  - apply andb_true_iff in E as [_ E]. destruct b; [done|]. split; simpl; done || lia.
  - destruct (q_end q b) as [n cl]. split; simpl in *; [lia..|]. intros ->. by rewrite H3.
Qed.

Lemma comment_end_good close b : close <> [] -> good_end b (comment_end close b).
Proof.
  intros Hc. induction b as [|c b [H1 H2 H3]]; cbn [comment_end].
  - destruct close; [done|]. split; simpl; done || lia.
  - destruct (starts_with (c :: b) close) eqn:E.
    + apply starts_with_true in E as [b' Hb]. rewrite Hb.
      split; simpl; [rewrite length_app; lia| |done].
      destruct close; simpl; [done|lia].
    + destruct (comment_end close b) as [n cl]. split; simpl in *; [lia..|].
      intros ->. by rewrite H3.
Qed.

Lemma find_byte_count p s :
  unwrap_or (find_byte (fun c => negb (p c)) s) (blen s) = blen (take (count_while p s) s).
Proof.
  induction s as [|c s IH]; simpl; [done|]. destruct (p c); simpl; [|done].
  rewrite <- IH. destruct (find_byte _ s); done.
Qed.

Section WithUnicode.
Context `{Unicode}.

(** The number of characters of the identifier at the start of [s]. *)
Definition identifier_count (s : str) : nat :=
  match s with
  | first :: _ => if is_alphabetic first then count_while identifier_char s else 0
  | [] => 0
  end.

Lemma leading_identifier_len_count s :
  leading_identifier_len s = blen (take (identifier_count s) s).
Proof.
  unfold leading_identifier_len, identifier_count. destruct s as [|c s]; [done|].
  destruct (is_alphabetic c); [|done]. apply find_byte_count.
Qed.

Lemma identifier_count_le s : (identifier_count s <= length s)%nat.
Proof.
  unfold identifier_count. destruct s as [|c s]; [done|].
  destruct (is_alphabetic c); [apply count_while_le|lia].
Qed.

Lemma identifier_count_pos c s :
  is_alphabetic c = true -> (0 < identifier_count (c :: s))%nat.
Proof.
  intros Hc. unfold identifier_count. rewrite Hc. cbn [count_while].
  unfold identifier_char. rewrite (alphabetic_alphanumeric _ Hc). simpl. lia.
Qed.

(** The outcome of one scan from [cur a b]: [n] characters further, at least
    one, still inside the text. *)
Definition moves (a b : str) (c : Cursor) : Prop :=
  exists n, c = skip a b n /\ (0 < n <= length b)%nat.

Lemma moves_skip a b n : (0 < n <= length b)%nat -> moves a b (skip a b n).
Proof. by exists n. Qed.

Lemma moves_app a x b : x <> [] -> moves a (x ++ b) (advance (cur a (x ++ b)) (blen x)).
Proof.
  intros Hx. rewrite advance_app. apply moves_skip. rewrite length_app.
  destruct x; [done|]. simpl. lia.
Qed.

Lemma moves_further a b n c :
  (0 < n <= length b)%nat ->
  (exists m, c = skip (a ++ take n b) (drop n b) m /\ (m <= length (drop n b))%nat) ->
  moves a b c.
Proof.
  intros Hn (m & -> & Hm). rewrite skip_skip. apply moves_skip.
  rewrite length_drop in Hm. lia.
Qed.

(** ** Numbers *)

Lemma maybe_exponent_cur a b :
  exists m, maybe_exponent (cur a b) = Ret (skip a b m) /\ (m <= length b)%nat.
Proof.
  assert (H0 : exists m, Ret (cur a b) = Ret (skip a b m) /\ (m <= length b)%nat)
    by (exists 0%nat; rewrite skip_0; split; [done|lia]).
  unfold maybe_exponent. rewrite peek_cur. cbn [rbind].
  destruct b as [|e b]; cbn [head]; [done|].
  destruct (is_char 101 (Some e) || is_char 69 (Some e)); [|done].
  rewrite bump_cons. cbn [rbind]. rewrite skip_1, peek_cur. cbn [rbind].
  assert (Hd : forall x b', e :: b = x ++ b' ->
    exists m, (let! d := peek (cur (a ++ x) b') in
               if is_digit d then bump_while is_ascii_digit (cur (a ++ x) b') else Ret (cur a (e :: b)))
              = Ret (skip a (e :: b) m) /\ (m <= length (e :: b))%nat).
  { intros x b' Hx. rewrite peek_cur. cbn [rbind]. destruct (is_digit (head b')); [|done].
    rewrite bump_while_cur. exists (length x + count_while is_ascii_digit b')%nat.
    rewrite Hx, length_app. split; [|pose proof (count_while_le is_ascii_digit b'); lia].
    f_equal. rewrite <- skip_skip. by rewrite take_app_length, drop_app_length. }
  destruct (is_char 43 (head b) || is_char 45 (head b)) eqn:E; cbn [rbind].
  - destruct b as [|s b]; [done|]. rewrite bump_cons. cbn [rbind]. rewrite skip_1.
    rewrite <- (assoc_L (++)). by apply (Hd [e; s] b).
  - by apply (Hd [e] b).
Qed.

Lemma scan_number_cur a c b :
  is_ascii_digit c || ((c =? 46) && is_digit (head b)) = true ->
  exists c', scan_number (cur a (c :: b)) = Ret c' /\ moves a (c :: b) c'.
Proof.
  intros Hc. unfold scan_number. rewrite peek_cur. cbn [head rbind is_char].
  assert (Hfin : forall n, (0 < n <= length (c :: b))%nat ->
    exists c', maybe_exponent (skip a (c :: b) n) = Ret c' /\ moves a (c :: b) c').
  { intros n Hn. unfold skip at 1.
    destruct (maybe_exponent_cur (a ++ take n (c :: b)) (drop n (c :: b))) as (m & -> & Hm).
    eexists. split; [done|]. eapply moves_further; eauto. }
  assert (Hdig : forall n, (0 < n <= length (c :: b))%nat ->
    exists c', (let! c1 := bump_while is_ascii_digit (skip a (c :: b) n) in maybe_exponent c1)
               = Ret c' /\ moves a (c :: b) c').
  { intros n Hn. unfold skip at 1. rewrite bump_while_cur. cbn [rbind]. rewrite skip_skip.
    apply Hfin. pose proof (count_while_le is_ascii_digit (drop n (c :: b))) as Hl.
    rewrite length_drop in Hl. lia. }
  destruct (c =? 46) eqn:E.
  - rewrite bump_cons. cbn [rbind]. apply Hdig. simpl. lia.
  - assert (Hd : is_ascii_digit c = true) by (destruct (is_ascii_digit c); done).
    rewrite bump_while_cur. cbn [rbind]. set (n := count_while is_ascii_digit (c :: b)).
    assert (Hn : (0 < n <= length (c :: b))%nat).
    { unfold n. split; [simpl; rewrite Hd; lia|apply count_while_le]. }
    unfold skip at 1 2. rewrite peek_cur, peek2_cur. cbn [rbind].
    destruct (drop n (c :: b)) as [|x r] eqn:Er; [by apply Hfin|]. cbn [head tail].
    destruct (is_char 46 (Some x) && is_digit (head r)); [|by apply Hfin].
    unfold skip. rewrite Er, bump_cons. cbn [rbind].
    rewrite <- Er, skip_skip. apply Hdig. apply (f_equal length) in Er.
    rewrite length_drop in Er. simpl in *. lia.
Qed.

(** ** Variables *)

(** A length in bytes that is that of a non-empty prefix of [s]. *)
Definition prefix_len (s : str) (o : option nat) : Prop :=
  forall n, o = Some n -> exists m, n = blen (take m s) /\ (0 < m <= length s)%nat.

Lemma prefix_len_none s : prefix_len s None.
Proof. done. Qed.

Lemma prefix_len_app x s : x <> [] -> prefix_len (x ++ s) (Some (blen x)).
Proof.
  intros Hx n [= <-]. exists (length x). rewrite take_app_length, length_app.
  destruct x; [done|]. simpl. split; [done|lia].
Qed.

Lemma slice_from_cons c s : slice_from (c :: s) (len_utf8 c) = Ret s.
Proof.
  pose proof (slice_from_app [c] s) as E. simpl in E. by rewrite Nat.add_0_r in E.
Qed.

Lemma prefix_len_take x s m : x <> [] ->
  prefix_len (x ++ s) (Some (blen x + blen (take m s))%nat).
Proof.
  intros Hx. rewrite <- (take_drop m s) at 1.
  rewrite (assoc_L (++)), <- blen_app. apply prefix_len_app. by destruct x.
Qed.

Lemma bind_variable_len_spec b :
  exists o, bind_variable_len (58 :: b) = Ret o /\ prefix_len (58 :: b) o.
Proof.
  unfold bind_variable_len. rewrite (slice_from_cons 58 b : slice_from (58 :: b) 1 = Ret b).
  cbn [starts_with lit chr negb andb Z.eqb rbind]. change (chr _ =? 58) with true.
  cbn [starts_with andb negb].
  destruct b as [|c b]; [eexists; split; [done|apply prefix_len_none]|].
  destruct (c =? DQUOTE) eqn:Eq.
  { boolify. subst c.
    rewrite (slice_from_cons DQUOTE b : slice_from (DQUOTE :: b) 1 = Ret b). cbn [rbind].
    destruct (find_byte _ b) as [e|] eqn:Ef; [|eexists; split; [done|apply prefix_len_none]].
    apply find_byte_Some in Ef as (x & d & r & -> & <- & Hd & _). boolify. subst d.
    eexists. split; [done|].
    replace (58 :: DQUOTE :: x ++ DQUOTE :: r) with (((58 :: DQUOTE :: x) ++ [DQUOTE]) ++ r)
      by (simpl; by rewrite <- (assoc_L (++))).
    replace (1 + 1 + blen x + 1)%nat with (blen ((58 :: DQUOTE :: x) ++ [DQUOTE])).
    { apply prefix_len_app. done. }
    rewrite blen_app. cbn [blen]. change (len_utf8 58) with 1%nat.
    change (len_utf8 DQUOTE) with 1%nat. lia. }
  assert (Hw : forall m, prefix_len (58 :: c :: b) (Some (1 + blen (take m (c :: b)))%nat))
    by (intros m; apply (prefix_len_take [58]); done).
  destruct (is_ascii_digit c).
  { rewrite find_byte_count. eexists. split; [done|apply Hw]. }
  destruct (is_alphabetic c); [|eexists; split; [done|apply prefix_len_none]].
  rewrite leading_identifier_len_count. eexists. split; [done|].
  case_if as El; [apply Hw|apply prefix_len_none].
Qed.

Lemma substitution_variable_len_spec b :
  exists o, substitution_variable_len (38 :: b) = Ret o /\ prefix_len (38 :: b) o.
Proof.
  unfold substitution_variable_len.
  rewrite (slice_from_cons 38 b : slice_from (38 :: b) 1 = Ret b).
  change (starts_with (38 :: b) (lit "&")) with true. cbn [negb rbind].
  set (pl := if starts_with b (lit "&") then 2%nat else 1%nat).
  assert (Hp : exists x r, 38 :: b = x ++ r /\ x <> [] /\ blen x = pl).
  { unfold pl. destruct (starts_with b (lit "&")) eqn:E.
    - apply starts_with_true in E as [r ->]. by exists (lit "&&"), r.
    - by exists [38], b. }
  destruct Hp as (x & r & -> & Hx & <-). rewrite slice_from_app. cbn [rbind].
  set (nl := match r with [] => 0%nat | _ => _ end).
  assert (Hn : exists m, nl = blen (take m r)).
  { unfold nl. destruct r as [|c r]; [by exists 0%nat|].
    destruct (is_ascii_digit c); [eexists; apply find_byte_count|].
    destruct (is_alphabetic c); [eexists; apply leading_identifier_len_count|by exists 0%nat]. }
  destruct Hn as [m ->]. case_if as E0; [eexists; split; [done|apply prefix_len_none]|].
  assert (Hs : slice_from (x ++ r) (blen x + blen (take m r)) = Ret (drop m r)).
  { rewrite <- blen_app. rewrite <- (take_drop m r) at 1. rewrite (assoc_L (++)).
    apply slice_from_app. }
  rewrite Hs. cbn [rbind]. eexists. split; [done|].
  destruct (starts_with (drop m r) (lit ".")) eqn:Ed; [|by apply prefix_len_take].
  apply starts_with_true in Ed as [u Hu].
  assert (Hr : x ++ r = (x ++ take m r ++ lit ".") ++ u)
    by (rewrite <- (take_drop m r) at 1; by rewrite Hu, <- !(assoc_L (++))).
  rewrite Hr. replace (blen x + blen (take m r) + 1)%nat with (blen (x ++ take m r ++ lit "."))
    by (rewrite !blen_app, Nat.add_assoc; done).
  apply prefix_len_app. by destruct x.
Qed.

(** ** One token *)

(** What one call of [next_token] in mode [m] before the text [b] guarantees:
    [n] characters, a kind and the mode [m'] that follows. *)
Record token_spec (m : Mode) (b : str) (k : TokenKind) (m' : Mode) (n : nat) : Prop := {
  ts_count : (0 < n <= length b)%nat;
  ts_open : m' <> Normal -> n = length b;
  ts_operator : k = Operator -> m' = Normal;
  ts_space : forall c, m = Normal -> head b = Some c -> is_lexer_whitespace c = true ->
    k = Whitespace /\ m' = Normal /\ n = count_while is_lexer_whitespace b;
  ts_scalar : mode_ok m -> Forall (fun c => is_scalar c = true) b -> mode_ok m';
  ts_error : k = ErrorToken -> n = length b /\ m' = Normal /\ last b = Some QUOTE;
}.

Definition scans (m : Mode) (a b : str) (s : Scanned) : Prop :=
  exists k m' n als, s = (k, m', skip a b n, als) /\ token_spec m b k m' n.

(** A branch of [next_token_normal]: it declines, or it scans one token. *)
Definition branch (a b : str) (r : run (option Scanned)) : Prop :=
  r = Ret None \/ exists s, r = Ret (Some s) /\ scans Normal a b s.

Lemma branch_none a b : branch a b (Ret None).
Proof. by left. Qed.

Lemma branch_some a b s : scans Normal a b s -> branch a b (Ret (Some s)).
Proof. intros Hs. right. eauto. Qed.

Lemma first_of_branches a b l r :
  Forall (branch a b) l ->
  (exists s, r = Ret (Some s) /\ scans Normal a b s) ->
  exists s, first_of (l ++ [r]) = Ret s /\ scans Normal a b s.
Proof.
  intros Hl (s & -> & Hs). induction Hl as [|x l [->|(s' & -> & Hs')] _ IH]; simpl; eauto.
Qed.

Lemma closing_delimiter_scalar c : is_scalar c = true -> is_scalar (closing_delimiter c) = true.
Proof. unfold closing_delimiter. intros. repeat case_match; done. Qed.

(** A mode that can be left open, its delimiter taken from the text. *)
Definition opens (b : str) (m : Mode) : Prop :=
  Forall (fun c => is_scalar c = true) b -> mode_ok m.

Section NotSpace.
Context (a : str) (c : char) (b : str).
Hypothesis Hc : is_lexer_whitespace c = false.
#[local] Abbreviation text := (c :: b).

(** A token that leaves nothing open. *)
Lemma scans_closed k c' als :
  k <> ErrorToken -> moves a text c' -> scans Normal a text (k, Normal, c', als).
Proof.
  intros Hk (n & -> & Hn). exists k, Normal, n, als. split; [done|].
  split; try done. simpl. congruence.
Qed.

(** A literal or comment whose body is scanned after [n0] characters. *)
Lemma scans_quoted k open n0 e :
  k <> ErrorToken -> k <> Operator -> opens text open ->
  (n0 <= length text)%nat -> good_end (drop n0 text) e -> (0 < n0 + e.1)%nat ->
  exists s, quoted_token k open (ending (a ++ take n0 text) (drop n0 text) e) = Ret s /\
            scans Normal a text s.
Proof.
  intros Hk Ho Hopen Hn0 [H1 H2 H3] Hpos. unfold quoted_token, ending. cbn [rbind].
  rewrite length_drop in H1. rewrite length_drop in H3.
  eexists. split; [done|]. eexists k, _, (n0 + e.1)%nat, false.
  rewrite skip_skip. split; [done|]. destruct e as [n [|]]; cbn [fst snd] in *.
  - split; try done; [lia|]. simpl. congruence.
  - specialize (H3 eq_refl). split; try done; try lia; simpl; congruence.
Qed.

Lemma lex_line_comment_branch d : branch a text (lex_line_comment (cur a text) d).
Proof.
  unfold lex_line_comment. destruct (line_comment (comments d)) as [p|]; [|apply branch_none].
  cursor_read. destruct (starts_with text p) eqn:E; [|apply branch_none].
  apply starts_with_true in E as [r Hr]. rewrite Hr, advance_app. unfold skip.
  rewrite bump_while_cur. cbn [rbind]. rewrite skip_skip, <- Hr. apply branch_some.
  apply scans_closed; [done|]. apply moves_skip.
  rewrite Hr, drop_app_length, length_app.
  pose proof (count_while_le not_newline r). split; [|lia].
  destruct p as [|x p]; [|simpl; lia]. simpl in *. subst r. simpl.
  destruct (not_newline c) eqn:En; [simpl; lia|].
  unfold not_newline in En. apply negb_false_iff, Z.eqb_eq in En. by subst c.
Qed.

Lemma lex_block_comment_branch d :
  block_close d <> [] -> branch a text (lex_block_comment (cur a text) d).
Proof.
  intros Hd. unfold lex_block_comment, block_close in *.
  destruct (block_comment (comments d)) as [[open close]|]; [|apply branch_none].
  cursor_read. destruct (starts_with text open) eqn:E; [|apply branch_none].
  apply starts_with_true in E as [r Hr].
  replace (advance (cur a text) (blen open))
    with (cur (a ++ take (length open) text) (drop (length open) text))
    by (rewrite Hr; symmetry; apply advance_app).
  rewrite scan_block_comment_cur.
  destruct (comment_end_good close (drop (length open) text)) as [G1 G2 G3]; [done|].
  destruct (scans_quoted Comment BlockComment (length open)
              (comment_end close (drop (length open) text))) as (s & -> & Hs); try done.
  - rewrite Hr, length_app. lia.
  - destruct open; [|simpl; lia]. simpl in *. apply G2. done.
  - by apply branch_some.
Qed.

Lemma lex_comment_word_branch d als : branch a text (lex_comment_word (cur a text) d c als).
Proof.
  unfold lex_comment_word. case_if as E; [|apply branch_none].
  cursor_read.
  rewrite leading_identifier_len_count, slice_to_take, advance_take. cbn [rbind].
  case_match; [|apply branch_none]. unfold skip. rewrite bump_while_cur. cbn [rbind].
  apply branch_some, scans_closed; [done|]. rewrite skip_skip. apply moves_skip.
  pose proof (identifier_count_pos c b ltac:(done)).
  pose proof (identifier_count_le text).
  pose proof (count_while_le not_newline (drop (identifier_count text) text)) as Hl.
  rewrite length_drop in Hl. lia.
Qed.

Lemma lex_directive_branch d : branch a text (lex_directive (cur a text) d c).
Proof.
  unfold lex_directive. destruct (directive_prefix d) as [p|]; [|apply branch_none].
  destruct (c =? p) eqn:E; [|apply branch_none]. boolify. subst p.
  cursor_read. rewrite slice_from_cons. cbn [rbind].
  set (len := if starts_with b [c] then _ else _).
  assert (Hl : exists m, len = blen (take m text) /\ (m <= length text)%nat).
  { unfold len. destruct b as [|x r]; [exists 1%nat; simpl; split; lia|].
    destruct (starts_with (x :: r) [c]) eqn:Ex.
    - simpl in Ex. boolify. subst x. exists 2%nat. simpl. split; lia.
    - exists 1%nat. simpl. split; lia. }
  destruct Hl as (m & -> & Hm). rewrite slice_from_take. cbn [rbind].
  rewrite leading_identifier_len_count. case_if as El; [|apply branch_none].
  apply branch_some, scans_closed; [done|].
  rewrite <- blen_app, take_take_drop, advance_take. apply moves_skip.
  pose proof (identifier_count_le (drop m text)) as Hi. rewrite length_drop in Hi.
  destruct (identifier_count (drop m text)); [rewrite take_0 in El; simpl in El|]; lia.
Qed.

Lemma lex_quoted_branch : branch a text (lex_quoted (cur a text) c).
Proof.
  unfold lex_quoted. destruct (c =? DQUOTE).
  { rewrite bump_cons. cbn [rbind]. unfold skip. rewrite scan_simple_quoted_cur.
    destruct (scans_quoted QuotedIdentifier DoubleQuoted 1 (quoted_end DQUOTE (drop 1 text)))
      as (s & -> & Hs); try done; [simpl; lia|apply quoted_end_good|lia|].
    by apply branch_some. }
  destruct (c =? QUOTE); [|apply branch_none].
  rewrite bump_cons. cbn [rbind]. unfold skip. rewrite scan_simple_quoted_cur.
  destruct (scans_quoted StringLit SingleQuoted 1 (quoted_end QUOTE (drop 1 text)))
    as (s & -> & Hs); try done; [simpl; lia|apply quoted_end_good|lia|].
  by apply branch_some.
Qed.

(** The literal [q'X…] whose prefix word is the first [n] characters. *)
Lemma lex_q_literal_spec n r :
  drop n text = QUOTE :: r -> (0 < n)%nat ->
  exists s, lex_q_literal (cur a text) (blen (take n text)) = Ret s /\ scans Normal a text s.
Proof.
  intros Hr Hn. unfold lex_q_literal. rewrite advance_take. unfold skip.
  rewrite Hr, bump_cons. cbn [rbind]. rewrite <- Hr, skip_skip.
  assert (Hlen : (n + 1 + length r = length text)%nat).
  { apply (f_equal length) in Hr. rewrite length_drop in Hr. simpl in *. lia. }
  assert (Hd : drop (n + 1) text = r).
  { rewrite <- drop_drop, Hr. done. }
  unfold skip. rewrite Hd. destruct r as [|x r].
  - rewrite bump_nil. cbn [rbind]. eexists. split; [done|].
    eexists ErrorToken, Normal, (n + 1)%nat, false.
    split; [unfold skip; by rewrite Hd|]. simpl length in Hlen.
    split; try done; [simpl; lia|simpl; congruence|]. intros _. split; [simpl; lia|].
    split; [done|]. rewrite <- (take_drop n text), Hr. apply last_app_Some. by left.
  - rewrite bump_cons. cbn [rbind]. rewrite <- Hd, skip_skip. unfold skip.
    rewrite scan_q_string_cur.
    apply scans_quoted; try done; [|simpl in *; lia|apply q_end_good|lia].
    intros Hf. simpl. apply closing_delimiter_scalar.
    apply (Forall_drop _ (n + 1)) in Hf. rewrite Hd in Hf. by apply Forall_cons_1 in Hf as [? _].
Qed.

Lemma lex_word_branch d : branch a text (lex_word (cur a text) d c).
Proof.
  unfold lex_word. destruct (is_alphabetic c) eqn:Ea; [|apply branch_none].
  pose proof (identifier_count_pos c b Ea) as Hpos.
  pose proof (identifier_count_le text) as Hle.
  cursor_read.
  rewrite leading_identifier_len_count, slice_to_take, slice_from_take. cbn [rbind].
  set (n := identifier_count text) in *.
  case_if as E1.
  { match goal with Hq : starts_with _ _ = true |- _ =>
      apply starts_with_true in Hq as [r Er] end. simpl in Er.
    destruct (lex_q_literal_spec n r Er Hpos) as (s & -> & Hs). by apply branch_some. }
  case_if as E2.
  { match goal with Hq : starts_with _ _ = true |- _ =>
      apply starts_with_true in Hq as [r Er] end. simpl in Er. rewrite advance_take. unfold skip.
    rewrite Er, bump_cons. cbn [rbind]. rewrite <- Er, skip_skip. unfold skip.
    rewrite scan_simple_quoted_cur.
    destruct (scans_quoted StringLit SingleQuoted (n + 1) (quoted_end QUOTE (drop (n + 1) text)))
      as (s & -> & Hs); try done; [|apply quoted_end_good|lia|by apply branch_some].
    apply (f_equal length) in Er. rewrite length_drop in Er. simpl in *. lia. }
  apply branch_some, scans_closed; [by destruct (is_keyword d _)|].
  rewrite advance_take. by apply moves_skip.
Qed.

Lemma lex_range_branch : branch a text (lex_range (cur a text)).
Proof.
  unfold lex_range. cursor_read.
  destruct (starts_with text (lit "..")) eqn:E; [|apply branch_none].
  apply starts_with_true in E as [r Hr]. rewrite Hr. apply branch_some. rewrite <- Hr.
  apply scans_closed; [done|]. rewrite Hr. by apply (moves_app a (lit "..")).
Qed.

Lemma lex_number_branch : branch a text (lex_number (cur a text) c).
Proof.
  unfold lex_number. rewrite peek2_cur. cbn [rbind tail].
  destruct (is_ascii_digit c || _) eqn:E; [|apply branch_none].
  destruct (scan_number_cur a c b E) as (c' & -> & Hm). cbn [rbind].
  apply branch_some. by apply scans_closed.
Qed.

(** A variable token is as long as the measured name. *)
Lemma branch_prefix k o :
  k <> ErrorToken -> prefix_len text o ->
  branch a text (Ret (match o with
                      | Some n => Some (k, Normal, advance (cur a text) n, false)
                      | None => None
                      end)).
Proof.
  intros Hk Ho. destruct o as [n|]; [|apply branch_none].
  destruct (Ho n eq_refl) as (m & -> & Hm). apply branch_some, scans_closed; [done|].
  rewrite advance_take. by apply moves_skip.
Qed.

Lemma lex_bind_branch d : branch a text (lex_bind (cur a text) d c).
Proof.
  unfold lex_bind. case_if as E; [|apply branch_none].
  cursor_read.
  destruct (bind_variable_len_spec b) as (o & Er & Ho).
  match goal with Hq : c = _ |- _ => rewrite <- Hq in Er, Ho end.
  rewrite Er. cbn [rbind]. by apply branch_prefix.
Qed.

Lemma lex_substitution_branch d : branch a text (lex_substitution (cur a text) d c).
Proof.
  unfold lex_substitution. case_if as E; [|apply branch_none].
  cursor_read.
  destruct (substitution_variable_len_spec b) as (o & Er & Ho).
  match goal with Hq : c = _ |- _ => rewrite <- Hq in Er, Ho end.
  rewrite Er. cbn [rbind].
  by apply branch_prefix.
Qed.

Lemma advance_by_chars_cur n a' b' :
  (n <= length b')%nat -> advance_by_chars (cur a' b') n = Ret (skip a' b' n).
Proof.
  revert a' b'. induction n as [|n IH]; intros a' b' Hn; cbn [advance_by_chars].
  - by rewrite skip_0.
  - destruct b' as [|x b']; simpl in Hn; [lia|]. rewrite bump_cons. cbn [rbind].
    rewrite skip_1, IH by lia. by rewrite skip_cons.
Qed.

Lemma lex_operator_scans :
  exists s, lex_operator (cur a text) = Ret (Some s) /\ scans Normal a text s.
Proof.
  unfold lex_operator. cursor_read.
  destruct (List.find _ _) as [op|] eqn:E.
  - apply find_some in E as [Hin Hop].
    apply starts_with_true in Hop as [r Hr].
    assert (Hl : length op = 2%nat).
    { unfold TWO_CHAR_OPERATORS in Hin. simpl in Hin.
      repeat (destruct Hin as [<-|Hin]; [done|]). done. }
    assert (Hle : (length op <= length text)%nat) by (rewrite Hr, length_app; lia).
    rewrite advance_by_chars_cur by done. cbn [rbind]. eexists. split; [done|].
    apply scans_closed; [done|]. apply moves_skip. lia.
  - rewrite bump_cons. cbn [rbind]. eexists. split; [done|].
    apply scans_closed; [done|]. apply moves_skip. simpl. lia.
Qed.
End NotSpace.

Lemma next_token_normal_spec d a b als :
  block_close d <> [] -> b <> [] ->
  exists s, next_token_normal (cur a b) d als = Ret s /\ scans Normal a b s.
Proof.
  intros Hd Hb. destruct b as [|c b]; [done|]. unfold next_token_normal.
  rewrite peek_cur. cbn [head rbind of_option].
  destruct (is_lexer_whitespace c) eqn:Ec.
  - unfold lex_whitespace. rewrite Ec, bump_while_cur. cbn [first_of rbind].
    eexists. split; [done|]. eexists Whitespace, Normal, _, als. split; [done|].
    split; try done. split; [|apply count_while_le]. simpl. rewrite Ec. lia.
  - apply (first_of_branches a (c :: b)
      [lex_whitespace _ c als; lex_line_comment _ d; lex_block_comment _ d;
       lex_comment_word _ d c als; lex_directive _ d c; lex_quoted _ c; lex_word _ d c;
       lex_range _; lex_number _ c; lex_bind _ d c; lex_substitution _ d c]).
    + repeat apply Forall_cons_2; try apply Forall_nil_2.
      * unfold lex_whitespace. rewrite Ec. apply branch_none.
      * by apply lex_line_comment_branch.
      * by apply lex_block_comment_branch.
      * by apply lex_comment_word_branch.
      * by apply lex_directive_branch.
      * by apply lex_quoted_branch.
      * by apply lex_word_branch.
      * by apply lex_range_branch.
      * by apply lex_number_branch.
      * by apply lex_bind_branch.
      * by apply lex_substitution_branch.
    + by apply lex_operator_scans.
Qed.

(** Resuming an open literal or comment. *)
Lemma resume_spec k m a b e :
  k <> ErrorToken -> k <> Operator -> m <> Normal -> b <> [] -> good_end b e ->
  exists s, quoted_token k m (ending a b e) = Ret s /\ scans m a b s.
Proof.
  intros Hk Ho Hm Hb [H1 H2 H3]. unfold quoted_token, ending. cbn [rbind].
  eexists. split; [done|]. eexists k, _, e.1, false. split; [done|].
  destruct e as [n [|]]; cbn [fst snd] in *; split; try done; auto.
Qed.

Lemma next_token_spec d a b m als :
  block_close d <> [] -> b <> [] ->
  exists s, next_token (cur a b) d m als = Ret s /\ scans m a b s.
Proof.
  intros Hd Hb. destruct m as [| | | |q]; cbn [next_token].
  - by apply next_token_normal_spec.
  - rewrite scan_block_comment_cur. apply resume_spec; try done. by apply comment_end_good.
  - rewrite scan_simple_quoted_cur. apply resume_spec; try done. apply quoted_end_good.
  - rewrite scan_simple_quoted_cur. apply resume_spec; try done. apply quoted_end_good.
  - rewrite scan_q_string_cur. apply resume_spec; try done. apply q_end_good.
Qed.
End WithUnicode.
