(* ===== verification/TokenStream.v ===== *)
(** * Token streams

    What the lexer promises to the statement splitter, as the class
    [TokenStream], and the proof that [tokenize] delivers it: the tokens tile
    the text, and white space that fills the rest of a line after an operator
    is lexed as white space. *)

From S2P Require Import Prelude.
From S2P Require Import RustStr.
From S2P Require Import Token.
From S2P Require Import Dialect.
From S2P Require Import Lexer.
From S2P Require Import LexerProps.
Open Scope Z_scope.
Open Scope run_scope.

(** ** The promise *)

(** The tokens cover the text [b], which starts at byte [p], one non-empty
    piece after the other. *)
Inductive tiles : nat -> str -> list Token -> Prop :=
| tiles_nil p : tiles p [] []
| tiles_cons p k x b ts :
    x <> [] -> tiles (p + blen x) b ts ->
    tiles p (x ++ b) (mkToken k p (p + blen x) :: ts).

(** The rest of a text after the current line: nothing, or a line break first. *)
Definition next_line (b : str) : Prop := b = [] \/ exists b', b = NEWLINE :: b'.

(** The bytes of the line break itself. *)
Definition break_len (b : str) : nat := match b with [] => 0 | _ => 1 end.

Definition blank (w : str) : Prop :=
  Forall (fun c => is_whitespace c = true) w /\ NEWLINE ∉ w.

Class TokenStream (t : str) (ts : list Token) : Prop := {
  stream_tiles : tiles 0 t ts;
  stream_blank : forall i tok a w b j tok',
    ts !! i = Some tok -> kind tok = Operator ->
    t = a ++ w ++ b -> blen a = tend tok -> blank w -> next_line b ->
    (i < j)%nat -> ts !! j = Some tok' ->
    (start tok' < blen a + blen w + break_len b)%nat -> kind tok' = Whitespace;
}.

(** ** Facts about tiles *)

Lemma tiles_bounds p b ts i tok :
  tiles p b ts -> ts !! i = Some tok ->
  (p <= start tok /\ start tok < tend tok /\ tend tok <= p + blen b)%nat.
Proof.
  intros Ht. revert i. induction Ht as [|p k x b ts Hx Ht IH]; intros i Hi; [done|].
  assert (0 < blen x)%nat by (destruct x as [|c x]; [done|]; simpl; pose proof (len_utf8_pos c); lia).
  rewrite blen_app. destruct i as [|i]; simpl in Hi; [by simplify_eq/=; lia|].
  apply IH in Hi. lia.
Qed.

(** Each token marks a piece of the text, at character boundaries. *)
Lemma tiles_piece p b ts i tok :
  tiles p b ts -> ts !! i = Some tok ->
  exists a x b', b = a ++ x ++ b' /\ start tok = (p + blen a)%nat /\
                 tend tok = (p + blen a + blen x)%nat /\ x <> [].
Proof.
  intros Ht. revert i. induction Ht as [|p k x b ts Hx Ht IH]; intros i Hi; [done|].
  destruct i as [|i]; simpl in Hi.
  - simplify_eq/=. exists [], x, b. simpl. repeat split; [lia..|done].
  - destruct (IH i Hi) as (a & y & b' & -> & Hs & He & Hy).
    exists (x ++ a), y, b'. rewrite blen_app, <- (assoc_L (++)).
    repeat split; [lia..|done].
Qed.

Lemma tiles_ordered p b ts i j tok tok' :
  tiles p b ts -> ts !! i = Some tok -> ts !! j = Some tok' -> (i < j)%nat ->
  (tend tok <= start tok')%nat.
Proof.
  intros Ht. revert i j. induction Ht as [|p k x b ts Hx Ht IH]; intros i j Hi Hj Hij; [done|].
  destruct j as [|j]; [lia|]. simpl in Hj. destruct i as [|i]; simpl in Hi.
  - simplify_eq/=. pose proof (tiles_bounds _ _ _ _ _ Ht Hj). lia.
  - apply (IH i j); done || lia.
Qed.

(** Consecutive tokens touch. *)
Lemma tiles_adjacent p b ts i tok tok' :
  tiles p b ts -> ts !! i = Some tok -> ts !! S i = Some tok' -> tend tok = start tok'.
Proof.
  intros Ht. revert i. induction Ht as [|p k x b ts Hx Ht IH]; intros i Hi Hj; [done|].
  destruct i as [|i]; simpl in *; [|by apply (IH i)].
  simplify_eq/=. inversion Ht; subst; simpl in *; by simplify_eq.
Qed.

Lemma tiles_nil_inv p b : tiles p b [] -> b = [].
Proof. by inversion 1. Qed.

Lemma tiles_last p b ts tok :
  tiles p b ts -> last ts = Some tok -> tend tok = (p + blen b)%nat.
Proof.
  intros Ht. induction Ht as [|p k x b ts Hx Ht IH]; [done|]. rewrite blen_app.
  destruct ts as [|t' ts].
  - apply tiles_nil_inv in Ht as ->. simpl. intros [= <-]. simpl. lia.
  - cbn [last]. intros E. rewrite IH by done. lia.
Qed.

Lemma tiles_length p b ts : tiles p b ts -> (length ts <= blen b)%nat.
Proof.
  induction 1 as [|p k x b ts Hx Ht IH]; [done|]. rewrite blen_app.
  destruct x as [|c x]; [done|]. simpl. pose proof (len_utf8_pos c). lia.
Qed.

(** Rewriting the kinds keeps the tiling. *)
Lemma tiles_mark_last p b ts : tiles p b ts -> tiles p b (mark_last ts).
Proof.
  induction 1 as [|p k x b ts Hx Ht IH]; [constructor|].
  destruct ts as [|t ts]; [|by constructor].
  apply tiles_nil_inv in Ht as ->. simpl. constructor; [done|]. constructor.
Qed.

Lemma mark_last_lookup ts i tok :
  mark_last ts !! i = Some tok ->
  exists tok0, ts !! i = Some tok0 /\ start tok = start tok0 /\ tend tok = tend tok0 /\
    (kind tok = kind tok0 \/ (kind tok = ErrorToken /\ S i = length ts)).
Proof.
  revert i. induction ts as [|t ts IH]; intros i; [done|].
  destruct ts as [|t' ts]; cbn [mark_last].
  - destruct i; [|done]. intros [= <-]. exists t. simpl. auto 10.
  - destruct i as [|i]; [intros [= <-]; exists t; auto|].
    intros Hi. destruct (IH i Hi) as (tok0 & ? & ? & ? & [?|[? ?]]); exists tok0; simpl in *; auto 10.
Qed.

(** ** The lexer's stream *)

Section WithUnicode.
Context `{Unicode}.

(** The tokens of [b] from byte [p] in mode [m], ending in mode [m']: a line
    break is a token of its own, everything else comes from [next_token] with
    the rest of the line before it. *)
Inductive stream : Mode -> nat -> str -> list Token -> Mode -> Prop :=
| stream_nil m p : stream m p [] [] m
| stream_newline m p b ts m' :
    stream m (p + 1) b ts m' ->
    stream m p (NEWLINE :: b) (mkToken Whitespace p (p + 1) :: ts) m'
| stream_token m p line b k m1 n ts m' :
    token_spec m line k m1 n -> (NEWLINE ∉ line) -> next_line b ->
    stream m1 (p + blen (take n line)) (drop n line ++ b) ts m' ->
    stream m p (line ++ b) (mkToken k p (p + blen (take n line)) :: ts) m'.

Lemma stream_is_tiled m p b ts m' : stream m p b ts m' -> tiles p b ts.
Proof.
  induction 1 as [|m p b ts m' _ IH|m p line b k m1 n ts m' Hs Hn Hb _ IH].
  - constructor.
  - apply (tiles_cons p Whitespace [NEWLINE]); done.
  - rewrite <- (take_drop n line) at 1. rewrite <- (assoc_L (++)). constructor; [|done].
    destruct (ts_count _ _ _ _ _ Hs). destruct line, n; simpl in *; done || lia.
Qed.

Lemma stream_mode_ok m p b ts m' :
  stream m p b ts m' -> mode_ok m -> Forall (fun c => is_scalar c = true) b -> mode_ok m'.
Proof.
  induction 1 as [|m p b ts m' _ IH|m p line b k m1 n ts m' Hs Hn Hb _ IH]; intros Hm Hf; [done|..].
  - apply IH; [done|]. by apply Forall_cons in Hf as [_ ?].
  - apply Forall_app in Hf as [Hl Hb']. apply IH.
    + by apply (ts_scalar _ _ _ _ _ Hs).
    + apply Forall_app. split; [|done]. by apply Forall_drop.
Qed.

Lemma block_loop_stream d : block_close d <> [] ->
  forall fuel a b m als, (length b < fuel)%nat -> (NEWLINE ∉ b) ->
  exists ts m1, block_loop fuel d (cur a b) m als = Ret (ts, m1) /\
    forall p rest ts' m', next_line rest -> stream m1 (p + blen (a ++ b)) rest ts' m' ->
      stream m (p + blen a) (b ++ rest) (map (shift_token p) ts ++ ts') m'.
Proof.
  intros Hd. induction fuel as [|fuel IH]; intros a b m als Hf Hn; [lia|].
  cbn [block_loop]. unfold at_end. cbn [text cur pos].
  destruct (decide (b = [])) as [->|Hb].
  { rewrite app_nil_r, Nat.leb_refl. eexists [], m. split; [done|]. done. }
  rewrite (proj2 (Nat.leb_gt _ _)).
  2:{ rewrite blen_app. destruct b as [|c b]; [done|]. simpl.
      pose proof (len_utf8_pos c). lia. }
  destruct (next_token_spec d a b m als Hd Hb)
    as (s & -> & k & m1 & n & als' & -> & Hs). cbn [rbind].
  pose proof (ts_count _ _ _ _ _ Hs) as Hc.
  rewrite skip_cur by lia. cbn [pos]. rewrite (proj2 (Nat.ltb_lt _ _)).
  2:{ destruct b as [|c b], n; simpl in *; try lia. pose proof (len_utf8_pos c). lia. }
  cbn [negb]. rewrite <- skip_cur by lia. unfold skip.
  destruct (IH (a ++ take n b) (drop n b) m1 als') as (ts & m2 & -> & Hstream).
  { rewrite length_drop. lia. }
  { intros Hin. apply Hn. rewrite <- (take_drop n b). apply elem_of_app. by right. }
  cbn [rbind]. eexists _, m2. split; [done|]. intros p rest ts' m' Hr Ht.
  cbn [map app]. unfold shift_token at 1. cbn [kind start tend].
  rewrite Nat.add_assoc. apply stream_token with m1; [done..|].
  rewrite <- Nat.add_assoc, <- blen_app. apply Hstream; [done|].
  by rewrite <- (assoc_L (++)), take_drop.
Qed.

Lemma split_lines_cons t :
  exists l ls, split_lines t = l :: ls /\ (NEWLINE ∉ l) /\
    ((ls = [] /\ t = l) \/ exists t', t = l ++ NEWLINE :: t' /\ ls = split_lines t').
Proof.
  induction t as [|c t IH]; [exists [], []; cbn; split; [done|]; split; [apply not_elem_of_nil|by left]|].
  cbn [split_lines]. destruct (c =? NEWLINE) eqn:E; boolify.
  - subst c. exists [], (split_lines t). split; [done|]. split; [apply not_elem_of_nil|]. right. eauto.
  - destruct IH as (l & ls & -> & Hn & Hl). exists (c :: l), ls. split; [done|].
    split; [by apply not_elem_of_cons|]. destruct Hl as [[-> ->]|(t' & -> & ->)]; [by left|right; eauto].
Qed.

Lemma lines_loop_stream d : block_close d <> [] ->
  forall t m p, exists ts m', lines_loop d m p (split_lines t) = Ret (ts, m') /\ stream m p t ts m'.
Proof.
  intros Hd t. remember (length t) as n eqn:Hn. revert t Hn.
  induction (lt_wf n) as [n _ IH]. intros t -> m p.
  destruct (split_lines_cons t) as (l & ls & -> & Hl & Ht). cbn [lines_loop]. unfold tokenize_block.
  destruct (block_loop_stream d Hd (S (length l)) [] l m (is_initial m))
    as (ts & m1 & Hb & Hs); [lia|done|].
  change (cursor_new l) with (cur [] l). rewrite Hb. cbn [rbind]. destruct Ht as [[-> ->]|(t' & -> & ->)].
  - eexists _, m1. split; [done|]. rewrite <- (app_nil_r (map _ ts)), <- (app_nil_r l) at 1.
    replace p with (p + blen [])%nat at 1 by (simpl; lia).
    apply Hs; [by left|constructor].
  - destruct (split_lines_cons t') as (l' & ls' & Hl' & _ & _). rewrite Hl'.
    rewrite <- Hl'.
    destruct (IH (length t')) with (t := t') (m := m1) (p := (p + blen l + 1)%nat)
      as (ts' & m' & -> & Ht'); [rewrite length_app; simpl; lia|done|].
    cbn [rbind]. eexists _, m'. split; [done|].
    replace p with (p + blen [])%nat at 1 by (simpl; lia).
    apply Hs; [right; eauto|]. simpl. by constructor.
Qed.

(** ** White space to the end of a line *)

Lemma line_unique l l' (b b' : str) :
  l ++ b = l' ++ b' -> (NEWLINE ∉ l) -> NEWLINE ∉ l' -> next_line b -> next_line b' ->
  l = l' /\ b = b'.
Proof.
  revert l'. induction l as [|c l IH]; intros [|c' l'] E Hl Hl' Hb Hb'; simpl in *; [done|..].
  - destruct Hb as [->|[? ->]]; simplify_eq. destruct Hl'. by left.
  - destruct Hb' as [->|[? ->]]; simplify_eq. destruct Hl. by left.
  - simplify_eq. apply not_elem_of_cons in Hl as [_ Hl], Hl' as [_ Hl'].
    by destruct (IH l') as [-> ->].
Qed.

(** What is left after the rest of a blank line, its line break included. *)
Definition after_line (p : nat) (b : str) (ts : list Token) (m' : Mode) : Prop :=
  (b = [] /\ ts = [] /\ m' = Normal) \/
  (exists b', b = NEWLINE :: b' /\ stream Normal (p + 1) b' ts m').

Lemma stream_break p b ts m' :
  stream Normal p b ts m' -> next_line b ->
  exists ts1 ts2, ts = ts1 ++ ts2 /\ Forall (fun t => kind t = Whitespace) ts1 /\
    after_line p b ts2 m'.
Proof.
  intros Hs [->|[b' ->]]; inversion Hs as [|? ? ? ts0 ? Hs0|? ? line b0 ? ? n ? ? Hspec Hnl]; subst.
  - exists [], []. split; [done|]. split; [constructor|]. by left.
  - pose proof (ts_count _ _ _ _ _ Hspec). destruct line; simpl in *; [lia|done].
  - exists [mkToken Whitespace p (p + 1)], ts0. split; [done|]. split; [by constructor|].
    right. eauto.
  - pose proof (ts_count _ _ _ _ _ Hspec). destruct line as [|c line]; simpl in *; [lia|].
    simplify_eq. destruct Hnl. by left.
Qed.

Lemma count_while_all {A} (q : A -> bool) l :
  Forall (fun x => q x = true) l -> count_while q l = length l.
Proof. induction 1 as [|x l Hx _ IH]; simpl; [done|]. by rewrite Hx, IH. Qed.

Lemma stream_blank_line p w b ts m' :
  stream Normal p (w ++ b) ts m' -> blank w -> next_line b ->
  exists ts1 ts2, ts = ts1 ++ ts2 /\ Forall (fun t => kind t = Whitespace) ts1 /\
    after_line (p + blen w) b ts2 m'.
Proof.
  intros Hs [Hw Hn] Hb. destruct w as [|c w].
  { simpl in *. rewrite Nat.add_0_r. by apply stream_break. }
  inversion Hs as [|? ? ? ts0 ? Hs0|? ? line b0 k m1 n ts0 ? Hspec Hnl Hnb Hs0 E]; subst.
  - destruct Hn. by left.
  - destruct (line_unique line (c :: w) b0 b) as [-> ->]; try done.
    assert (Hlw : Forall (fun x => is_lexer_whitespace x = true) (c :: w)).
    { eapply Forall_impl; [exact Hw|]. intros x Hx. unfold is_lexer_whitespace. by rewrite Hx. }
    destruct (ts_space _ _ _ _ _ Hspec c) as (-> & -> & Hcount); [done|done|by inversion Hlw|].
    rewrite count_while_all in Hcount by done. subst n.
    rewrite drop_all, firstn_all in Hs0. rewrite firstn_all.
    apply stream_break in Hs0 as (ts1 & ts2 & -> & H1 & H2); [|done].
    eexists (_ :: ts1), ts2. split; [done|]. split; [by constructor|done].
Qed.

(** The tokens after an operator, as a stream of their own. *)
Lemma stream_split m p t ts m' i tok :
  stream m p t ts m' -> ts !! i = Some tok -> kind tok = Operator ->
  exists a b, t = a ++ b /\ tend tok = (p + blen a)%nat /\
    stream Normal (p + blen a) b (drop (S i) ts) m'.
Proof.
  intros Hs. revert i.
  induction Hs as [|m p b ts m' Hs IH|m p line b k m1 n ts m' Hspec Hn Hb Hs IH];
    intros i Hi Hk; [done|..].
  - destruct i as [|i]; simpl in Hi; [by simplify_eq|].
    destruct (IH i Hi Hk) as (a & b' & -> & He & Hs'). exists (NEWLINE :: a), b'.
    change (blen (NEWLINE :: a)) with (1 + blen a)%nat. split; [done|].
    rewrite Nat.add_assoc. by split.
  - destruct i as [|i]; simpl in Hi.
    + simplify_eq/=. exists (take n line), (drop n line ++ b).
      rewrite (assoc_L (++)), take_drop. split; [done|]. split; [done|].
      rewrite drop_0. by rewrite (ts_operator _ _ _ _ _ Hspec eq_refl) in Hs.
    + destruct (IH i Hi Hk) as (a & b' & E & He & Hs'). exists (take n line ++ a), b'.
      rewrite <- (assoc_L (++)), <- E, (assoc_L (++)), take_drop, blen_app, Nat.add_assoc.
      by repeat split.
Qed.

Lemma app_same_prefix (a a' b b' : str) :
  a ++ b = a' ++ b' -> blen a = blen a' -> a = a' /\ b = b'.
Proof.
  intros E Hl. pose proof (split_at_app a b) as H1. rewrite E, Hl, split_at_app in H1.
  by simplify_eq.
Qed.

(** Every stream keeps the promise on blank line ends, and a token of the blank
    part is the last one only when nothing is left open. *)
Lemma stream_keeps_blank p t ts m' i tok a w b j tok' :
  stream Normal p t ts m' ->
  ts !! i = Some tok -> kind tok = Operator ->
  t = a ++ w ++ b -> (p + blen a)%nat = tend tok -> blank w -> next_line b ->
  (i < j)%nat -> ts !! j = Some tok' ->
  (start tok' < p + blen a + blen w + break_len b)%nat ->
  kind tok' = Whitespace /\ (S j = length ts -> m' = Normal).
Proof.
  intros Hs Hi Hk -> Ha Hw Hb Hij Hj Hlt.
  destruct (stream_split _ _ _ _ _ _ _ Hs Hi Hk) as (a' & b' & E & He & Hs').
  apply app_same_prefix in E as [<- <-]; [|lia].
  apply stream_blank_line in Hs' as (ts1 & ts2 & Hdrop & H1 & H2); [|done..].
  assert (Hj' : (ts1 ++ ts2) !! (j - S i)%nat = Some tok').
  { rewrite <- Hdrop, lookup_drop. by replace (S i + (j - S i))%nat with j by lia. }
  assert (Hlen : (length ts = S i + (length ts1 + length ts2))%nat).
  { rewrite <- length_app, <- Hdrop, length_drop. apply lookup_lt_Some in Hj. lia. }
  apply lookup_app_Some in Hj' as [Hj'|[Hge Hj']].
  - split; [by apply (Forall_lookup_1 _ _ _ _ H1 Hj')|]. intros Hlast.
    apply lookup_lt_Some in Hj'.
    destruct H2 as [(_ & _ & ->)|(b' & -> & H2)]; [done|].
    destruct ts2; [|simpl in *; lia]. by inversion H2.
  - destruct H2 as [(-> & -> & ->)|(b' & -> & H2)]; [done|].
    apply stream_is_tiled in H2. pose proof (tiles_bounds _ _ _ _ _ H2 Hj'). simpl in *. lia.
Qed.

(** ** [tokenize] delivers a token stream *)

Lemma tokenize_ret t d :
  block_close d <> [] ->
  exists ts m', tokenize t d = Ret (if negb (is_initial m') then mark_last ts else ts) /\
    lines_loop d INITIAL 0 (split_lines t) = Ret (ts, m') /\ stream Normal 0 t ts m'.
Proof.
  intros Hd. destruct (lines_loop_stream d Hd t INITIAL 0) as (ts & m' & E & Hs).
  exists ts, m'. unfold tokenize. by rewrite E.
Qed.

Lemma tokenize_stream t d :
  block_close d <> [] -> exists ts, tokenize t d = Ret ts /\ TokenStream t ts.
Proof.
  intros Hd. destruct (tokenize_ret t d Hd) as (ts & m' & E & _ & Hs).
  eexists. split; [exact E|]. destruct (is_initial m') eqn:Em; cbn [negb].
  - split; [by apply stream_is_tiled in Hs|].
    intros i tok a w b j tok' Hi Hk Ht Ha Hw Hb Hij Hj Hlt.
    by destruct (stream_keeps_blank 0 t ts m' i tok a w b j tok').
  - split; [by apply tiles_mark_last; apply stream_is_tiled in Hs|].
    intros i tok a w b j tok' Hi Hk Ht Ha Hw Hb Hij Hj Hlt.
    apply mark_last_lookup in Hi as (tok0 & Hi & Hs0 & He0 & Hk0).
    apply mark_last_lookup in Hj as (tok1 & Hj & Hs1 & He1 & Hk1).
    assert (kind tok0 = Operator) by (destruct Hk0 as [<-|[? _]]; congruence).
    destruct (stream_keeps_blank 0 t ts m' i tok0 a w b j tok1) as [Hws Hlast];
      try done; [simpl; congruence|simpl; congruence|].
    destruct Hk1 as [->|[_ Hl]]; [done|]. by rewrite (Hlast Hl) in Em.
Qed.
End WithUnicode.
