(* ===== verification/LexerClaims.v ===== *)
(** * What the lexer guarantees

    Totality and coverage of [tokenize], agreement of line-by-line highlighting
    through the [i32] state with the whole-document view, literals as one token,
    and where [TokenKind::Error] can come from. *)

From S2P Require Import Prelude.
From S2P Require Import RustStr.
From S2P Require Import Token.
From S2P Require Import Dialect.
From S2P Require Import Lexer.
From S2P Require Import LexerProps.
From S2P Require Import TokenStream.
Open Scope Z_scope.
Open Scope run_scope.

(** Every [str] is a sequence of scalar values. *)
Definition is_str (t : str) : Prop := Forall (fun c => is_scalar c = true) t.

(** ** The state in an [i32] *)

(** A lexer state survives the one [i32] the editor keeps per line: the
    encoding is non-negative, fits, and decodes to the same state; a negative
    value (the editor's own -1) decodes to the initial state, and whatever is
    decoded is a well-formed state. *)
Theorem lex_state_roundtrip s raw :
  mode_ok s ->
  from_raw (to_raw s) = s /\ 0 <= to_raw s < 2 ^ 31 /\
  (raw < 0 -> from_raw raw = INITIAL) /\ mode_ok (from_raw raw).
Proof.
  intros Hs. split; [by apply decode_encode|]. split; [by apply encode_range|].
  split; [|apply decode_ok]. intros Hr. unfold from_raw, decode.
  by rewrite (proj2 (Z.ltb_lt _ _)).
Qed.

Lemma lex_state_roundtrip_witness :
  from_raw (to_raw (QString 93)) = QString 93 /\ 0 <= to_raw (QString 93) < 2 ^ 31 /\
  (-1 < 0 -> from_raw (-1) = INITIAL) /\ mode_ok (from_raw (-1)).
Proof. apply (lex_state_roundtrip (QString 93) (-1)). reflexivity. Defined.

(** A positive value no state encodes to need not decode to the initial state:
    only the low three bits choose the tag. *)
Lemma foreign_state_can_resume_a_comment :
  from_raw 9 = BlockComment /\ forall s, mode_ok s -> to_raw s <> 9.
Proof.
  split; [reflexivity|]. intros [| | | |c] Hs; try done.
  unfold to_raw. rewrite encode_qstring by done. lia.
Qed.

(** ** Coverage *)

(** The text of each token, in order. *)
Definition token_texts (t : str) (ts : list Token) : list (run str) :=
  map (fun tok => slice t (start tok) (tend tok)) ts.

Lemma tiles_texts a b ts :
  tiles (blen a) b ts ->
  exists xs, token_texts (a ++ b) ts = map Ret xs /\ concat xs = b /\ Forall (fun x => x <> []) xs.
Proof.
  intros Ht. remember (blen a) as p eqn:Hp. revert a Hp.
  induction Ht as [p|p k x b ts Hx Ht IH]; intros a ->; [by exists []|].
  destruct (IH (a ++ x)) as (xs & Hxs & <- & Hne); [by rewrite blen_app|].
  exists (x :: xs). cbn [token_texts map start tend concat]. rewrite slice_app.
  rewrite <- (assoc_L (++)) in Hxs. unfold token_texts in Hxs. rewrite Hxs.
  split; [done|]. split; [done|]. by constructor.
Qed.

Section WithUnicode.
Context `{Unicode}.

(** C37: For every text and every dialect whose block comments can end,
    [tokenize] returns: it neither panics nor loops.  Its tokens cover the text:
    cut at their byte ranges, the text falls into non-empty pieces at character
    boundaries whose concatenation is the text again. *)
Theorem tokenize_covers_text t d :
  block_close d <> [] ->
  exists ts xs, tokenize t d = Ret ts /\ token_texts t ts = map Ret xs /\
    concat xs = t /\ Forall (fun x => x <> []) xs /\ tiles 0 t ts.
Proof.
  intros Hd. destruct (tokenize_stream t d Hd) as (ts & E & [Ht _]).
  destruct (tiles_texts [] t ts Ht) as (xs & ? & ? & ?). by exists ts, xs.
Qed.

(** ** Line by line *)

(** The editor's highlighter: one line at a time, with only the encoded state
    kept between lines. *)
Fixpoint highlight (d : SqlDialect) (raw : Z) (lines : list str) : run (list (list Token) * Z) :=
  match lines with
  | [] => Ret ([], raw)
  | line :: lines' =>
      let! (ts, state) := tokenize_block line (from_raw raw) d in
      let! (tss, final) := highlight d (to_raw state) lines' in
      Ret (ts :: tss, final)
  end.

(** The tokens of the lines as tokens of the document. *)
Fixpoint join_lines (p : nat) (lines : list str) (tss : list (list Token)) : list Token :=
  match lines, tss with
  | line :: lines', ts :: tss' =>
      map (shift_token p) ts ++
      match lines' with
      | [] => []
      | _ :: _ =>
          let p' := (p + blen line)%nat in
          mkToken Whitespace p' (p' + 1) :: join_lines (p' + 1) lines' tss'
      end
  | _, _ => []
  end.

Lemma tokenize_block_ok line m d :
  block_close d <> [] -> (NEWLINE ∉ line) -> is_str line -> mode_ok m ->
  exists ts m', tokenize_block line m d = Ret (ts, m') /\ mode_ok m'.
Proof.
  intros Hd Hn Hl Hm. unfold tokenize_block.
  destruct (block_loop_stream d Hd (S (length line)) [] line m (is_initial m))
    as (ts & m' & E & Hs); [lia|done|].
  change (cursor_new line) with (cur [] line). exists ts, m'. split; [done|].
  specialize (Hs 0%nat [] [] m' (or_introl eq_refl) (stream_nil _ _)).
  apply stream_mode_ok in Hs; [done|done|]. by rewrite app_nil_r.
Qed.

Lemma highlight_lines d lines m p :
  block_close d <> [] -> Forall (fun l => (NEWLINE ∉ l) /\ is_str l) lines -> mode_ok m ->
  exists tss m', highlight d (to_raw m) lines = Ret (tss, to_raw m') /\
    lines_loop d m p lines = Ret (join_lines p lines tss, m') /\ mode_ok m'.
Proof.
  intros Hd Hl. revert m p. induction Hl as [|line lines [Hn Hs] _ IH]; intros m p Hm.
  { exists [], m. done. }
  destruct (tokenize_block_ok line m d) as (ts & m1 & E & Hm1); [done..|].
  destruct (IH m1 (p + blen line + 1)%nat Hm1) as (tss & m' & Eh & El & Hm').
  exists (ts :: tss), m'. cbn [highlight lines_loop join_lines].
  unfold from_raw, to_raw at 1. rewrite decode_encode, E by done. cbn [rbind].
  rewrite Eh. cbn [rbind]. split; [done|]. split; [|done].
  destruct lines as [|line' lines].
  - cbn in El. rewrite app_nil_r. by simplify_eq/=.
  - by rewrite El.
Qed.

Lemma split_lines_ok t : is_str t -> Forall (fun l => (NEWLINE ∉ l) /\ is_str l) (split_lines t).
Proof.
  remember (length t) as n eqn:Hn. revert t Hn. induction (lt_wf n) as [n _ IH].
  intros t -> Ht. destruct (split_lines_cons t) as (l & ls & -> & Hl & [[-> ->]|(t' & -> & ->)]).
  - by repeat constructor.
  - apply Forall_app in Ht as [Hl' Ht']. apply Forall_cons in Ht' as [_ Ht'].
    constructor; [done|]. apply (IH (length t')); [rewrite length_app; simpl; lia|done..].
Qed.

(** C38: Highlighting a document line by line, starting from the editor's -1 and
    keeping nothing between lines but the encoded state, gives exactly the
    tokens of the whole document, up to the last token, which [tokenize] turns
    into an error when the final state is still open. *)
Theorem highlighting_by_line_agrees t d :
  block_close d <> [] -> is_str t ->
  exists tss raw, highlight d (-1) (split_lines t) = Ret (tss, raw) /\
    tokenize t d =
    Ret (if is_initial (from_raw raw) then join_lines 0 (split_lines t) tss
         else mark_last (join_lines 0 (split_lines t) tss)).
Proof.
  intros Hd Ht.
  destruct (highlight_lines d (split_lines t) INITIAL 0 Hd (split_lines_ok t Ht) I)
    as (tss & m' & Eh & El & Hm').
  exists tss, (to_raw m'). split.
  - destruct (split_lines_cons t) as (l & ls & E & _). by rewrite E in *.
  - unfold tokenize. rewrite El. cbn [rbind]. unfold from_raw, to_raw.
    rewrite decode_encode by done. by destruct (is_initial m').
Qed.
End WithUnicode.

Lemma tokenize_covers_text_witness :
  block_close sql_dialect <> [] /\
  exists ts xs, tokenize (lit "a;'b") sql_dialect = Ret ts /\
    token_texts (lit "a;'b") ts = map Ret xs /\
    concat xs = lit "a;'b" /\ Forall (fun x => x <> []) xs /\ tiles 0 (lit "a;'b") ts.
Proof. split; [discriminate|]. apply (tokenize_covers_text (lit "a;'b") sql_dialect). discriminate. Defined.

Lemma highlighting_by_line_agrees_witness :
  let t := lit "q'[a" ++ [NEWLINE] ++ lit "b" in
  block_close sql_dialect <> [] /\ is_str t /\
  exists tss raw, highlight sql_dialect (-1) (split_lines t) = Ret (tss, raw) /\
    tokenize t sql_dialect =
    Ret (if is_initial (from_raw raw) then join_lines 0 (split_lines t) tss
         else mark_last (join_lines 0 (split_lines t) tss)).
Proof.
  intros t. assert (H1 : block_close sql_dialect <> []) by discriminate.
  assert (H2 : is_str t) by (repeat constructor).
  split; [exact H1|split; [exact H2|]]. exact (highlighting_by_line_agrees t sql_dialect H1 H2).
Defined.

(** ** Literals *)

(** A literal: its quote doubled inside. *)
Definition escape (q : char) (s : str) : str :=
  concat (map (fun c => if c =? q then [q; q] else [c]) s).
Definition quote_literal (q : char) (s : str) : str := q :: escape q s ++ [q].

(** The alternative-quoted literal. *)
Definition q_literal (open : char) (s : str) : str :=
  lit "q'" ++ open :: s ++ [closing_delimiter open; QUOTE].

(** The closing sequence does not occur before the end. *)
Definition q_safe (open : char) (s : str) : Prop :=
  forall x y, s ++ [closing_delimiter open] <> x ++ closing_delimiter open :: QUOTE :: y.

Lemma quoted_end_escape q s :
  quoted_end q (escape q s ++ [q]) = (length (escape q s ++ [q]), true).
Proof.
  induction s as [|c s IH]; cbn [escape map concat app quoted_end length].
  - by rewrite Z.eqb_refl.
  - fold (escape q s). destruct (c =? q) eqn:E; cbn [app quoted_end length].
    + rewrite Z.eqb_refl, IH. done.
    + rewrite E, IH. done.
Qed.

Lemma q_end_safe cl s :
  (forall x y, s ++ [cl] <> x ++ cl :: QUOTE :: y) ->
  q_end cl (s ++ [cl; QUOTE]) = (length (s ++ [cl; QUOTE]), true).
Proof.
  induction s as [|c s IH]; intros Hs; cbn [app q_end length].
  - by rewrite Z.eqb_refl.
  - rewrite IH.
    + destruct (c =? cl) eqn:E; [|done]. boolify. subst c. cbn [andb].
      destruct s as [|d s]; cbn [app head is_char].
      * destruct (cl =? QUOTE) eqn:E; [|done]. boolify. subst cl.
        by destruct (Hs [] []).
      * destruct (d =? QUOTE) eqn:E; [|done]. boolify. subst d.
        by destruct (Hs [] (s ++ [cl])).
    + intros x y E. apply (Hs (c :: x) y). simpl. by rewrite E.
Qed.

Section Literals.
Context `{Unicode}.

(** One token that takes the whole block. *)
Lemma block_one_token d m t k m' als :
  t <> [] -> next_token (cur [] t) d m (is_initial m) = Ret (k, m', skip [] t (length t), als) ->
  tokenize_block t m d = Ret ([mkToken k 0 (blen t)], m').
Proof.
  intros Ht E. unfold tokenize_block. change (cursor_new t) with (cur [] t).
  cbn [block_loop]. unfold at_end at 1. cbn [text pos cur app blen].
  assert (Hp : (0 < blen t)%nat)
    by (destruct t as [|c t]; [done|]; simpl; pose proof (len_utf8_pos c); lia).
  rewrite (proj2 (Nat.leb_gt _ _)) by done.
  change (mkCursor t 0) with (cur [] t). rewrite E. cbn [rbind].
  rewrite skip_cur by done. rewrite firstn_all. cbn [pos blen app Nat.add].
  rewrite (proj2 (Nat.ltb_lt _ _)) by done. cbn [negb].
  destruct t as [|c t]; [done|]. cbn [length block_loop].
  unfold at_end. cbn [text pos]. rewrite Nat.leb_refl. done.
Qed.

Lemma oracle_quoted_token a q b als :
  q = QUOTE \/ q = DQUOTE ->
  next_token (cur a (q :: b)) sql_dialect Normal als =
  quoted_token (if q =? QUOTE then StringLit else QuotedIdentifier)
    (if q =? QUOTE then SingleQuoted else DoubleQuoted)
    (ending (a ++ [q]) b (quoted_end q b)).
Proof.
  intros Hq. cbn [next_token]. unfold next_token_normal.
  rewrite peek_cur. cbn [head rbind of_option first_of].
  assert (E1 : lex_whitespace (cur a (q :: b)) q als = Ret None)
    by (by destruct Hq as [-> | ->]).
  assert (E2 : lex_line_comment (cur a (q :: b)) sql_dialect = Ret None)
    by (unfold lex_line_comment; cbn [comments sql_dialect line_comment]; rewrite rest_cur;
        by destruct Hq as [-> | ->]).
  assert (E3 : lex_block_comment (cur a (q :: b)) sql_dialect = Ret None)
    by (unfold lex_block_comment; cbn [comments sql_dialect block_comment]; rewrite rest_cur;
        by destruct Hq as [-> | ->]).
  assert (E5 : lex_directive (cur a (q :: b)) sql_dialect q = Ret None)
    by (by destruct Hq as [-> | ->]).
  change (lex_comment_word (cur a (q :: b)) sql_dialect q als) with (@Ret (option Scanned) None).
  rewrite E1, E2, E3, E5. cbn [rbind].
  unfold lex_quoted. rewrite bump_cons, skip_1. cbn [rbind]. rewrite !scan_simple_quoted_cur.
  unfold quoted_token, ending. by destruct Hq as [-> | ->].
Qed.

Lemma oracle_q_word a b als :
  next_token (cur a (113 :: QUOTE :: b)) sql_dialect Normal als =
  lex_q_literal (cur a (113 :: QUOTE :: b)) 1.
Proof.
  cbn [next_token]. unfold next_token_normal. rewrite peek_cur.
  cbn [head rbind of_option first_of].
  change (lex_whitespace _ 113 als) with (@Ret (option Scanned) None). cbn [rbind].
  unfold lex_line_comment, lex_block_comment. cbn [comments sql_dialect line_comment block_comment].
  rewrite rest_cur. cbn [rbind starts_with lit]. change (chr _ =? 113) with false.
  cbn [andb rbind]. change (chr _ =? 113) with false. cbn [andb rbind].
  change (lex_comment_word (cur a (113 :: QUOTE :: b)) sql_dialect 113 als)
    with (@Ret (option Scanned) None). cbn [rbind].
  change (lex_directive _ sql_dialect 113) with (@Ret (option Scanned) None).
  change (lex_quoted (cur a (113 :: QUOTE :: b)) 113) with (@Ret (option Scanned) None). cbn [rbind].
  unfold lex_word. rewrite (is_alphabetic_ascii 113) by lia.
  change (is_ascii_alphabetic 113) with true. cbn iota. rewrite rest_cur. cbn [rbind].
  assert (Hc : identifier_count (113 :: QUOTE :: b) = 1%nat).
  { unfold identifier_count. rewrite (is_alphabetic_ascii 113) by lia.
    change (is_ascii_alphabetic 113) with true. cbn [count_while]. unfold identifier_char.
    rewrite (is_alphanumeric_ascii 113), (is_alphanumeric_ascii QUOTE) by (unfold QUOTE; lia).
    done. }
  rewrite leading_identifier_len_count, Hc, slice_to_take, slice_from_take. cbn [rbind].
  assert (Ea : starts_with (drop 1 (113 :: QUOTE :: b)) [QUOTE] &&
    any_ignore_case (alternative_quote_prefixes (quoting sql_dialect))
      (take 1 (113 :: QUOTE :: b)) = true) by reflexivity.
  rewrite Ea. cbn iota.
  change (blen (take 1 (113 :: QUOTE :: b))) with 1%nat.
  by destruct (lex_q_literal _ _).
Qed.

(** With Oracle's dialect a literal is one token, whatever it contains: a
    string and a quoted identifier with their quotes doubled inside, and an
    alternative-quoted literal with any delimiter whose closing sequence does
    not occur early.  Nothing is left open, so a [;] or a [/] inside can never
    end a statement. *)
Theorem literals_are_one_token s open :
  tokenize_block (quote_literal QUOTE s) INITIAL sql_dialect =
    Ret ([mkToken StringLit 0 (blen (quote_literal QUOTE s))], INITIAL) /\
  tokenize_block (quote_literal DQUOTE s) INITIAL sql_dialect =
    Ret ([mkToken QuotedIdentifier 0 (blen (quote_literal DQUOTE s))], INITIAL) /\
  (q_safe open s ->
   tokenize_block (q_literal open s) INITIAL sql_dialect =
     Ret ([mkToken StringLit 0 (blen (q_literal open s))], INITIAL)).
Proof.
  split; [|split]; [| |intros Hq]; eapply block_one_token with (als := false); try done.
  - unfold INITIAL, quote_literal. rewrite oracle_quoted_token, quoted_end_escape by auto.
    unfold quoted_token, ending. cbn [fst snd rbind]. by rewrite <- skip_cons.
  - unfold INITIAL, quote_literal. rewrite oracle_quoted_token, quoted_end_escape by auto.
    unfold quoted_token, ending. cbn [fst snd rbind]. by rewrite <- skip_cons.
  - unfold INITIAL.
    change (q_literal open s) with (113 :: QUOTE :: open :: s ++ [closing_delimiter open; QUOTE]).
    rewrite oracle_q_word. unfold lex_q_literal.
    change (advance (cur [] (113 :: QUOTE :: open :: s ++ [closing_delimiter open; QUOTE])) 1)
      with (cur [113] (QUOTE :: open :: s ++ [closing_delimiter open; QUOTE])).
    rewrite bump_cons. cbn [rbind]. rewrite skip_1, bump_cons. cbn [rbind].
    rewrite skip_1, scan_q_string_cur, q_end_safe by done.
    unfold quoted_token, ending. cbn [fst snd rbind app length]. by rewrite !skip_cons.
Qed.
End Literals.

Lemma literals_are_one_token_witness :
  q_safe 91 (lit "a]b;") /\
  tokenize_block (q_literal 91 (lit "a]b;")) INITIAL sql_dialect =
    Ret ([mkToken StringLit 0 (blen (q_literal 91 (lit "a]b;")))], INITIAL).
Proof.
  assert (H : q_safe 91 (lit "a]b;")).
  { intros x y. do 6 (destruct x as [|? x]; [discriminate|]). discriminate. }
  split; [exact H|]. exact (proj2 (proj2 (literals_are_one_token (lit "a]b;") 91)) H).
Defined.

(** ** Errors *)

Section Errors.
Context `{Unicode}.

Lemma lookup_map {A B} (f : A -> B) l i x : l !! i = Some x -> map f l !! i = Some (f x).
Proof.
  revert i. induction l as [|y l IH]; intros [|i]; simpl; try done; [by intros [= ->]|apply IH].
Qed.

Lemma stream_nil_inv m p ts m' : stream m p [] ts m' -> ts = [] /\ m = m'.
Proof.
  intros Hs. remember (@nil Z) as b eqn:Eb.
  destruct Hs as [| |m p line b k m1 n ts m' Hspec _ _ _]; [done..|].
  apply app_eq_nil in Eb as [-> _]. pose proof (ts_count _ _ _ _ _ Hspec). simpl in *. lia.
Qed.

Lemma stream_error m p b ts m' i tok :
  stream m p b ts m' -> (NEWLINE ∉ b) -> ts !! i = Some tok -> kind tok = ErrorToken ->
  S i = length ts /\ m' = Normal /\ last b = Some QUOTE.
Proof.
  intros Hs. revert i. induction Hs as [|m p b ts m' _ IH|m p line b k m1 n ts m' Hspec Hn Hb Hs IH];
    intros i Hnl Hi Hk; [done| |].
  - destruct Hnl. by left.
  - assert (b = []) as ->.
    { destruct Hb as [->|[b' ->]]; [done|]. destruct Hnl. apply elem_of_app. right. by left. }
    rewrite app_nil_r in *. destruct i as [|i]; simpl in Hi.
    + simplify_eq/=. destruct (ts_error _ _ _ _ _ Hspec eq_refl) as (-> & -> & Hl).
      rewrite drop_all in Hs. by apply stream_nil_inv in Hs as [-> <-].
    + destruct (IH i) as (? & ? & Hl); [|done|done|].
      { intros Hin. apply Hn. rewrite <- (take_drop n line). apply elem_of_app. by right. }
      split; [simpl; lia|]. split; [done|].
      rewrite <- (take_drop n line). apply last_app_Some. by left.
Qed.

(** A block on its own yields [TokenKind::Error] only for an alternative
    quote with nothing after it: the error is the block's last token, the block
    ends in a quote, and nothing is carried to the next block.  Every other
    unfinished literal or comment keeps its kind and leaves the state open. *)
Theorem block_errors_are_cut_quotes t m d ts m' i tok :
  block_close d <> [] -> (NEWLINE ∉ t) ->
  tokenize_block t m d = Ret (ts, m') -> ts !! i = Some tok -> kind tok = ErrorToken ->
  S i = length ts /\ m' = INITIAL /\ last t = Some QUOTE.
Proof.
  intros Hd Hn E Hi Hk. unfold tokenize_block in E.
  destruct (block_loop_stream d Hd (S (length t)) [] t m (is_initial m))
    as (ts1 & m1 & E1 & Hs); [lia|done|].
  change (cursor_new t) with (cur [] t) in E. rewrite E1 in E. simplify_eq.
  specialize (Hs 0%nat [] [] m' (or_introl eq_refl) (stream_nil _ _)).
  rewrite !app_nil_r in Hs.
  destruct (stream_error _ _ _ _ _ i (shift_token 0 tok) Hs) as (Hl & ? & ?); [done| |done|].
  - by apply lookup_map.
  - by rewrite length_map in Hl.
Qed.
End Errors.

Definition cut_quote_tokens : list Token :=
  [mkToken Identifier 0 1; mkToken Whitespace 1 2; mkToken ErrorToken 2 4].

Lemma block_errors_are_cut_quotes_witness :
  tokenize_block (lit "x q'") INITIAL sql_dialect = Ret (cut_quote_tokens, INITIAL) /\
  3%nat = length cut_quote_tokens /\ INITIAL = INITIAL /\ last (lit "x q'") = Some QUOTE.
Proof.
  assert (E : tokenize_block (lit "x q'") INITIAL sql_dialect = Ret (cut_quote_tokens, INITIAL))
    by (vm_compute; reflexivity).
  split; [exact E|].
  apply (block_errors_are_cut_quotes (lit "x q'") INITIAL sql_dialect cut_quote_tokens INITIAL 2%nat
           (mkToken ErrorToken 2 4)); [discriminate| |exact E|reflexivity|reflexivity].
  apply (bool_decide_unpack _). vm_compute. exact I.
Defined.
