(* ===== verification/Splitter.v ===== *)
(** * The statement splitter

    crates/sql-text/src/splitter.rs: a script as statements, and the statement
    at an offset.  Token indices and byte offsets are natural numbers; the
    depths, the count of owed bodies, lines and columns are machine integers
    whose overflow panics, as it does with overflow checks on.  A loop over the
    tokens has one step of fuel per token and one more to stop. *)

From S2P Require Import Prelude.
From S2P Require Import RustStr.
From S2P Require Import Token.
From S2P Require Import Dialect.
From S2P Require Import Lexer.
Open Scope Z_scope.
Open Scope run_scope.

Definition MAX_LEADING_WORDS : nat := 12.

Inductive StatementKind := Plain | Block.

Inductive EndedBy := Terminator | SlashLine | InferredBlockEnd | EndOfInput.

Record StatementSpan := mkSpan {
  content_start : nat;
  content_end : nat;
  full_end : nat;
  start_line : Z;
  start_column : Z;
  span_kind : StatementKind;
  ended_by : EndedBy;
  terminated : bool;
}.

(** [StatementSpan::content] and [StatementSpan::full]. *)
Definition content (s : StatementSpan) (t : str) : run str :=
  slice t (content_start s) (content_end s).
Definition full (s : StatementSpan) (t : str) : run str :=
  slice t (content_start s) (full_end s).

(** Arithmetic with overflow checks. *)
Definition check_i32 (x : Z) : run Z := if (- 2 ^ 31 <=? x) && (x <? 2 ^ 31) then Ret x else Panic.
Definition check_u32 (x : Z) : run Z := if (0 <=? x) && (x <? 2 ^ 32) then Ret x else Panic.

(** ** Offsets *)

(** [index -= 1] until a boundary; [0] is one. *)
Fixpoint floor_char_boundary (t : str) (index : nat) : nat :=
  match index with
  | O => O
  | S index' => if is_char_boundary t index then index else floor_char_boundary t index'
  end.

(** One past the line that contains [from], its line break included. *)
Definition trailing_line_end (t : str) (from : nat) : run nat :=
  let! r := slice_from t from in
  Ret (match find_byte (fun c => c =? NEWLINE) r with
       | Some p => (from + p + 1)%nat
       | None => blen t
       end).

Record PositionCursor := mkPosition { ppos : nat; line : Z; column : Z }.

Definition position_new : PositionCursor := mkPosition 0 1 1.

Fixpoint advance_chars (s : str) (l c : Z) : run (Z * Z) :=
  match s with
  | [] => Ret (l, c)
  | ch :: s' =>
      if ch =? NEWLINE then let! l' := check_u32 (l + 1) in advance_chars s' l' 1
      else let! c' := check_u32 (c + 1) in advance_chars s' l c'
  end.

(** The slice panics when the cursor would move back, whatever the build. *)
Definition advance_to (p : PositionCursor) (t : str) (target : nat) : run PositionCursor :=
  if (target <? ppos p)%nat then Panic
  else
    let! s := slice t (ppos p) target in
    let! (l, c) := advance_chars s (line p) (column p) in
    Ret (mkPosition target l c).

(** ** Tokens *)

Definition is_word (k : TokenKind) : bool :=
  match k with Keyword | Identifier => true | _ => false end.

Definition is_trivial (k : TokenKind) : bool :=
  match k with Whitespace | Comment => true | _ => false end.

Definition is_trivial_or_directive (k : TokenKind) : bool :=
  match k with Whitespace | Comment | Directive => true | _ => false end.

Section Scans.
Context (ts : list Token) (t : str) (d : SqlDialect).

Definition loop_bound : nat := S (length ts).

Definition token_text (tok : Token) : run str := slice t (start tok) (tend tok).

(** [while tokens.get(i).is_some_and(|t| p(t.kind)) { i += 1; }]. *)
Definition skip_kinds (p : TokenKind -> bool) (i : nat) : nat :=
  i + count_while (fun tok => p (kind tok)) (drop i ts).

Definition skip_trivial (i : nat) : nat := skip_kinds is_trivial i.

Definition kind_is (p : TokenKind -> bool) (i : nat) : bool :=
  match ts !! i with Some tok => p (kind tok) | None => false end.

(** [token.kind == TokenKind::Operator && &text[..] == s]. *)
Definition is_operator (tok : Token) (s : str) : run bool :=
  if kind_eqb (kind tok) Operator then let! x := token_text tok in Ret (str_eqb x s)
  else Ret false.

Definition is_terminator (tok : Token) : run bool :=
  if kind_eqb (kind tok) Operator then
    let! x := token_text tok in
    Ret (match x with
         | c :: _ => (token_len tok =? len_utf8 c)%nat && existsb (Z.eqb c) (statement_terminators d)
         | [] => false
         end)
  else Ret false.

Definition is_lone_slash_line (tok : Token) : run bool :=
  let! x := token_text tok in
  if negb (str_eqb x (lit "/")) then Ret false
  else
    let! before := slice_to t (start tok) in
    let line_start := match rfind_byte (fun c => c =? NEWLINE) before with
                      | Some p => (p + 1)%nat | None => 0%nat end in
    let! s := slice t line_start (start tok) in
    if negb (str_eqb (trim s) []) then Ret false
    else
      let! after := slice_from t (tend tok) in
      let line_end := match find_byte (fun c => c =? NEWLINE) after with
                      | Some p => (tend tok + p)%nat | None => blen t end in
      let! s' := slice t (tend tok) line_end in
      Ret (str_eqb (trim s') []).

(** [enabled && token.kind == Operator && is_lone_slash_line(text, token)]. *)
Definition ends_at_slash (enabled : bool) (tok : Token) : run bool :=
  if enabled && kind_eqb (kind tok) Operator then is_lone_slash_line tok else Ret false.

(** ** The leading words *)

Fixpoint skip_labels_loop (fuel : nat) (open close : str) (i : nat) : run nat :=
  match fuel with
  | O => OutOfFuel
  | S fuel' =>
      let probe := skip_trivial i in
      match ts !! probe with
      | None => Ret i
      | Some open_token =>
          let! o := is_operator open_token open in
          if negb o then Ret i
          else
            let j := skip_trivial (probe + 1) in
            let j := if kind_is is_word j then skip_trivial (j + 1) else j in
            match ts !! j with
            | None => Ret i
            | Some close_token =>
                let! c := is_operator close_token close in
                if negb c then Ret i else skip_labels_loop fuel' open close (j + 1)
            end
      end
  end.

Definition skip_labels (i : nat) : run nat :=
  match label_delimiters d with
  | None => Ret i
  | Some (open, close) => skip_labels_loop loop_bound open close i
  end.

(** [room] words may still be pushed. *)
Fixpoint collect_words_loop (fuel room : nat) (i : nat) : run (list (str * nat)) :=
  match fuel with
  | O => OutOfFuel
  | S fuel' =>
      match room, ts !! i with
      | O, _ | _, None => Ret []
      | S room', Some tok =>
          if is_word (kind tok) then
            let! w := token_text tok in
            let! ws := collect_words_loop fuel' room' (i + 1) in
            Ret ((w, (i + 1)%nat) :: ws)
          else if is_trivial_or_directive (kind tok) then collect_words_loop fuel' room (i + 1)
          else Ret []
      end
  end.

Definition collect_leading_words (i : nat) : run (list (str * nat)) :=
  collect_words_loop loop_bound MAX_LEADING_WORDS i.

(** The words of a phrase against the words of the statement, as far as both
    go. *)
Fixpoint words_agree (p : list str) (ws : list (str * nat)) : bool :=
  match p, ws with
  | x :: p', (w, _) :: ws' => eq_ignore_ascii_case x w && words_agree p' ws'
  | _, _ => true
  end.

Fixpoint match_phrase (options : list (list str)) (ws : list (str * nat)) : option nat :=
  match options with
  | [] => None
  | p :: options' =>
      if (length p <=? length ws)%nat && words_agree p ws then Some (length p)
      else match_phrase options' ws
  end.

(** [&words[idx..]]. *)
Definition words_from (ws : list (str * nat)) (idx : nat) : run (list (str * nat)) :=
  if (length ws <? idx)%nat then Panic else Ret (drop idx ws).

Fixpoint match_slots (l : list KeywordSlot) (ws : list (str * nat)) (idx : nat) : run (option nat) :=
  match l with
  | [] => Ret (Some idx)
  | Required options :: l' =>
      let! r := words_from ws idx in
      match match_phrase options r with
      | Some n => match_slots l' ws (idx + n)
      | None => Ret None
      end
  | Optional options :: l' =>
      let! r := words_from ws idx in
      match match_phrase options r with
      | Some n => match_slots l' ws (idx + n)
      | None => match_slots l' ws idx
      end
  end.

Definition matches_block_starter (s : BlockStarter) (ws : list (str * nat)) (start_index : nat)
    : run (option nat) :=
  let! o := match_slots (slots s) ws 0 in
  match o with
  | None => Ret None
  | Some O => Ret (Some start_index)
  | Some (S idx') => let! w := of_option (ws !! idx') in Ret (Some w.2)
  end.

Fixpoint find_starter (l : list BlockStarter) (ws : list (str * nat)) (start_index : nat)
    : run (option (BlockStarter * nat)) :=
  match l with
  | [] => Ret None
  | s :: l' =>
      let! o := matches_block_starter s ws start_index in
      match o with
      | Some resume => Ret (Some (s, resume))
      | None => find_starter l' ws start_index
      end
  end.

(** ** Phrases around a token *)

(** [first]: no trivia is skipped before the first word. *)
Fixpoint peek_phrase (first : bool) (i : nat) (phrase : list str) : run bool :=
  match phrase with
  | [] => Ret true
  | expected :: phrase' =>
      let i := if first then i else skip_trivial i in
      match ts !! i with
      | None => Ret false
      | Some tok =>
          if negb (is_word (kind tok)) then Ret false
          else
            let! w := token_text tok in
            if eq_ignore_ascii_case expected w then peek_phrase false (i + 1) phrase'
            else Ret false
      end
  end.

Definition peek_phrase_matches (i : nat) (phrase : list str) : run bool := peek_phrase true i phrase.

(** [idx.checked_sub(1)]. *)
Definition before (idx : nat) : option nat := match idx with O => None | S i => Some i end.

(** The nearest token at or before [idx] that is not trivia. *)
Fixpoint back_to_word (idx : nat) : option (nat * Token) :=
  match ts !! idx with
  | None => None
  | Some tok =>
      if is_trivial (kind tok) then
        match idx with O => None | S idx' => back_to_word idx' end
      else Some (idx, tok)
  end.

(** [phrase] is in reverse order. *)
Fixpoint ends_with_words (cursor : option nat) (phrase : list str) : run bool :=
  match phrase with
  | [] => Ret true
  | expected :: phrase' =>
      match cursor with
      | None => Ret false
      | Some idx =>
          match back_to_word idx with
          | None => Ret false
          | Some (at_, tok) =>
              if negb (is_word (kind tok)) then Ret false
              else
                let! w := token_text tok in
                if eq_ignore_ascii_case expected w then ends_with_words (before at_) phrase'
                else Ret false
          end
      end
  end.

Definition ends_with_phrase (end_ : nat) (phrase : list str) : run bool :=
  ends_with_words (Some end_) (rev phrase).

(** [iter().any(f)]. *)
Fixpoint any_phrase (f : list str -> run bool) (l : list (list str)) : run bool :=
  match l with
  | [] => Ret false
  | p :: l' => let! b := f p in if b then Ret true else any_phrase f l'
  end.

(** ** Ends of statements *)

Record ScanOutcome := mkOutcome {
  out_content_end : nat;
  out_full_end : nat;
  out_terminated : bool;
  out_ended_by : EndedBy;
  next_i : nat;
  out_kind : StatementKind;
}.

Definition ran_to_eof (k : StatementKind) : ScanOutcome :=
  let e := match last ts with Some tok => tend tok | None => blen t end in
  mkOutcome e e false EndOfInput (length ts) k.

Definition end_at_slash_line (tok : Token) (k : StatementKind) (next content_start : nat)
    : run ScanOutcome :=
  let! before := slice_to t (start tok) in
  let e := Nat.max (blen (trim_end before)) content_start in
  let! f := trailing_line_end t (tend tok) in
  Ret (mkOutcome e f true SlashLine next k).

Definition finish_with_maybe_slash (content_end semi_end next : nat) (k : StatementKind)
    : run ScanOutcome :=
  let inferred :=
    mkOutcome content_end semi_end (block_may_end_without_slash d) InferredBlockEnd next k in
  if slash_terminates_block d then
    let at_ := skip_kinds is_trivial_or_directive next in
    match ts !! at_ with
    | None => Ret inferred
    | Some tok =>
        let! slash := ends_at_slash true tok in
        if slash then
          let! f := trailing_line_end t (tend tok) in
          Ret (mkOutcome content_end f true SlashLine (at_ + 1) k)
        else Ret inferred
    end
  else Ret inferred.

(** ** Scans *)

Fixpoint scan_plain_loop (fuel i content_start : nat) : run ScanOutcome :=
  match fuel with
  | O => OutOfFuel
  | S fuel' =>
      match ts !! i with
      | None => Ret (ran_to_eof Plain)
      | Some tok =>
          let! slash := ends_at_slash (slash_terminates_plain d) tok in
          if slash then end_at_slash_line tok Plain (i + 1) content_start
          else
            let! term := is_terminator tok in
            if term then Ret (mkOutcome (start tok) (tend tok) true Terminator (i + 1) Plain)
            else scan_plain_loop fuel' (i + 1) content_start
      end
  end.
Definition scan_plain (i content_start : nat) : run ScanOutcome :=
  scan_plain_loop loop_bound i content_start.

Fixpoint scan_opaque_loop (fuel i content_start : nat) : run ScanOutcome :=
  match fuel with
  | O => OutOfFuel
  | S fuel' =>
      match ts !! i with
      | None => Ret (ran_to_eof Block)
      | Some tok =>
          let! slash := ends_at_slash true tok in
          if slash then end_at_slash_line tok Block (i + 1) content_start
          else scan_opaque_loop fuel' (i + 1) content_start
      end
  end.
Definition scan_opaque_source (i content_start : nat) : run ScanOutcome :=
  scan_opaque_loop loop_bound i content_start.

(** The parenthesis an operator token is: [1], [-1], or [0] for none. *)
Definition paren_step (tok : Token) : run Z :=
  if kind_eqb (kind tok) Operator then
    let! x := token_text tok in
    Ret (if str_eqb x (lit "(") then 1 else if str_eqb x (lit ")") then -1 else 0)
  else Ret 0.

Fixpoint scan_paren_loop (fuel i : nat) (paren_depth : Z) (content_start : nat)
    : run ScanOutcome :=
  match fuel with
  | O => OutOfFuel
  | S fuel' =>
      match ts !! i with
      | None => Ret (ran_to_eof Block)
      | Some tok =>
          let! slash := ends_at_slash (slash_terminates_block d) tok in
          if slash then end_at_slash_line tok Block (i + 1) content_start
          else
            let! s := paren_step tok in
            if negb (s =? 0) then
              let! p := check_i32 (paren_depth + s) in
              scan_paren_loop fuel' (i + 1) p content_start
            else
              let! term := if paren_depth <=? 0 then is_terminator tok else Ret false in
              if term then finish_with_maybe_slash (start tok) (tend tok) (i + 1) Block
              else scan_paren_loop fuel' (i + 1) paren_depth content_start
      end
  end.
Definition scan_paren_delimited (i content_start : nat) : run ScanOutcome :=
  scan_paren_loop loop_bound i 0 content_start.

(** The call specification's own terminator: one past it, or the end. *)
Fixpoint to_terminator_loop (fuel j : nat) : run nat :=
  match fuel with
  | O => OutOfFuel
  | S fuel' =>
      match ts !! j with
      | None => Ret (length ts)
      | Some tok =>
          let! term := is_terminator tok in
          if term then Ret (j + 1)%nat else to_terminator_loop fuel' (j + 1)
      end
  end.

(** A word that introduces a body here, unless it only completes an excepted
    phrase. *)
Definition introduces_body (i : nat) (word : str) : run bool :=
  if any_ignore_case (body_intro_keywords d) word then
    let! e := any_phrase (ends_with_phrase i) (body_intro_exceptions d) in Ret (negb e)
  else Ret false.

Fixpoint scan_header_loop (fuel i : nat) (paren_depth : Z) : run (nat * bool) :=
  match fuel with
  | O => OutOfFuel
  | S fuel' =>
      match ts !! i with
      | None => Ret (length ts, false)
      | Some tok =>
          if kind_eqb (kind tok) Operator then
            let! s := paren_step tok in
            if negb (s =? 0) then
              let! p := check_i32 (paren_depth + s) in scan_header_loop fuel' (i + 1) p
            else
              let! term := if paren_depth <=? 0 then is_terminator tok else Ret false in
              if term then Ret ((i + 1)%nat, false) else scan_header_loop fuel' (i + 1) paren_depth
          else if (paren_depth <=? 0) && is_word (kind tok) then
            let! word := token_text tok in
            let! intro := introduces_body i word in
            if intro then
              let after := skip_trivial (i + 1) in
              let! call := any_phrase (peek_phrase_matches after) (call_spec_phrases d) in
              if call then let! j := to_terminator_loop loop_bound after in Ret (j, false)
              else Ret ((i + 1)%nat, true)
            else scan_header_loop fuel' (i + 1) paren_depth
          else scan_header_loop fuel' (i + 1) paren_depth
      end
  end.
Definition scan_header (i : nat) : run (nat * bool) := scan_header_loop loop_bound i 0.

Fixpoint scan_to_terminator_loop (fuel i content_start : nat) : run ScanOutcome :=
  match fuel with
  | O => OutOfFuel
  | S fuel' =>
      match ts !! i with
      | None => Ret (ran_to_eof Block)
      | Some tok =>
          let! slash := ends_at_slash (slash_terminates_block d) tok in
          if slash then end_at_slash_line tok Block (i + 1) content_start
          else
            let! term := is_terminator tok in
            if term then finish_with_maybe_slash (start tok) (tend tok) (i + 1) Block
            else scan_to_terminator_loop fuel' (i + 1) content_start
      end
  end.
Definition scan_to_terminator (i content_start : nat) : run ScanOutcome :=
  scan_to_terminator_loop loop_bound i content_start.

Fixpoint skip_end_qualifier_loop (fuel i : nat) : run nat :=
  match fuel with
  | O => OutOfFuel
  | S fuel' =>
      let i := skip_trivial i in
      match ts !! i with
      | None => Ret i
      | Some tok =>
          let! term := is_terminator tok in
          if term then Ret (i + 1)%nat
          else if negb (is_word (kind tok)) then Ret i
          else skip_end_qualifier_loop fuel' (i + 1)
      end
  end.
Definition skip_end_qualifier (i : nat) : run nat := skip_end_qualifier_loop loop_bound i.

(** [while tokens.get(j) is a word { j = skip_trivial(j + 1) }]. *)
Fixpoint skip_words_loop (fuel j : nat) : run nat :=
  match fuel with
  | O => OutOfFuel
  | S fuel' =>
      if kind_is is_word j then skip_words_loop fuel' (skip_trivial (j + 1)) else Ret j
  end.

Definition finish_structured (end_index : nat) : run ScanOutcome :=
  let! j := skip_words_loop loop_bound (skip_trivial (end_index + 1)) in
  match ts !! j with
  | None => Ret (ran_to_eof Block)
  | Some terminator =>
      let! term := is_terminator terminator in
      if negb term then Ret (ran_to_eof Block)
      else finish_with_maybe_slash (start terminator) (tend terminator) (j + 1) Block
  end.

(** ** Block structure *)

Record Structure := mkStructure {
  depth : Z;
  pending_bodies : Z;
  absorbed_body : bool;
  is_compound : bool;
  paren_depth : Z;
}.

Definition set_paren (s : Structure) (p : Z) : Structure :=
  mkStructure (depth s) (pending_bodies s) (absorbed_body s) (is_compound s) p.
Definition set_depth (s : Structure) (n : Z) : Structure :=
  mkStructure n (pending_bodies s) (absorbed_body s) (is_compound s) (paren_depth s).
Definition set_pending (s : Structure) (n : Z) : Structure :=
  mkStructure (depth s) n (absorbed_body s) (is_compound s) (paren_depth s).
Definition set_absorbed (s : Structure) : Structure :=
  mkStructure (depth s) (pending_bodies s) true (is_compound s) (paren_depth s).
Definition set_compound (s : Structure) : Structure :=
  mkStructure (depth s) (pending_bodies s) (absorbed_body s) true (paren_depth s).

(** [!is_compound && let Some(marker) = … && peek_phrase_matches(…)]. *)
Definition note_compound (s : Structure) (i : nat) : run Structure :=
  if is_compound s then Ret s
  else match sectioned_body_marker d with
  | Some marker =>
      let! m := peek_phrase_matches i marker in Ret (if m then set_compound s else s)
  | None => Ret s
  end.

(** Still before the frame's own body. *)
Definition awaiting_body (s : Structure) : bool :=
  (depth s =? 0) && (pending_bodies s =? 0) && negb (absorbed_body s).

(** The outer statement's own call specification: where it starts. *)
Definition own_call_spec (s : Structure) (i : nat) (word : str) : run (option nat) :=
  if awaiting_body s then
    let! intro := introduces_body i word in
    if intro then
      let after := skip_trivial (i + 1) in
      let! call := any_phrase (peek_phrase_matches after) (call_spec_phrases d) in
      Ret (if call then Some after else None)
    else Ret None
  else Ret None.

Definition is_header_word (s : Structure) (word : str) : bool :=
  any_ignore_case (subprogram_header_keywords d) word ||
  (is_compound s && any_ignore_case (section_header_starters d) word).

(** What an opening word does to the structure. *)
Definition open_word (s : Structure) (word : str) : run Structure :=
  if eq_ignore_ascii_case word (block_body_opener d) then
    if (0 <? pending_bodies s) && (depth s =? 0) then
      let! p := check_u32 (pending_bodies s - 1) in
      let! n := check_i32 (depth s + 1) in
      Ret (set_depth (set_pending s p) n)
    else if (depth s =? 0) && negb (absorbed_body s) then Ret (set_absorbed s)
    else let! n := check_i32 (depth s + 1) in Ret (set_depth s n)
  else if any_ignore_case (block_nesting_openers d) word then
    let! n := check_i32 (depth s + 1) in Ret (set_depth s n)
  else Ret s.

(** One token of the scan: the statement ends, or the scan goes on. *)
Inductive Step := Done (o : ScanOutcome) | Continue (i : nat) (s : Structure).

(** A word at parenthesis depth zero. *)
Definition structured_word (s : Structure) (i : nat) (word : str) (content_start : nat) : run Step :=
  let! s := note_compound s i in
  if awaiting_body s && any_ignore_case (body_less_markers d) word then
    let! o := scan_to_terminator (i + 1) content_start in Ret (Done o)
  else
    let! call := own_call_spec s i word in
    match call with
    | Some after => let! o := scan_to_terminator after content_start in Ret (Done o)
    | None =>
        if is_header_word s word then
          let! (resume, owes_body) := scan_header (i + 1) in
          if owes_body then
            let! p := check_u32 (pending_bodies s + 1) in Ret (Continue resume (set_pending s p))
          else Ret (Continue resume s)
        else if eq_ignore_ascii_case word (block_end_keyword d) then
          if depth s =? 0 then let! o := finish_structured i in Ret (Done o)
          else
            let! n := check_i32 (depth s - 1) in
            let! j := skip_end_qualifier (i + 1) in
            Ret (Continue j (set_depth s n))
        else let! s' := open_word s word in Ret (Continue (i + 1) s')
    end.

Definition structured_step (s : Structure) (i : nat) (tok : Token) (content_start : nat) : run Step :=
  let! slash := ends_at_slash (slash_terminates_block d) tok in
  if slash then
    let! o := end_at_slash_line tok Block (i + 1) content_start in Ret (Done o)
  else if kind_eqb (kind tok) Operator then
    let! p := paren_step tok in
    let! p := check_i32 (paren_depth s + p) in
    Ret (Continue (i + 1) (set_paren s p))
  else if negb (is_word (kind tok)) || (0 <? paren_depth s) then Ret (Continue (i + 1) s)
  else let! word := token_text tok in structured_word s i word content_start.

Fixpoint scan_structured_loop (fuel i : nat) (s : Structure) (content_start : nat)
    : run ScanOutcome :=
  match fuel with
  | O => OutOfFuel
  | S fuel' =>
      match ts !! i with
      | None => Ret (ran_to_eof Block)
      | Some tok =>
          let! step := structured_step s i tok content_start in
          match step with
          | Done o => Ret o
          | Continue i' s' => scan_structured_loop fuel' i' s' content_start
          end
      end
  end.
Definition scan_structured (i : nat) (starter : BlockStarter) (content_start : nat) : run ScanOutcome :=
  scan_structured_loop loop_bound i (mkStructure 0 0 (opens_body starter) false 0) content_start.

(** ** Statements *)

(** One statement from its first token. *)
Definition scan_statement (i content_start : nat) : run ScanOutcome :=
  let! label_skipped := skip_labels i in
  let! leading_words := collect_leading_words label_skipped in
  let! matched := find_starter (block_starters d) leading_words label_skipped in
  match matched with
  | Some (starter, resume) =>
      match block_kind starter with
      | Structured => scan_structured resume starter content_start
      | OpaqueSource => scan_opaque_source resume content_start
      | ParenDelimited => scan_paren_delimited resume content_start
      end
  | None => scan_plain i content_start
  end.

Definition slash_enabled : bool := slash_terminates_block d || slash_terminates_plain d.

Fixpoint split_loop (fuel i : nat) (cursor : PositionCursor) : run (list StatementSpan) :=
  match fuel with
  | O => OutOfFuel
  | S fuel' =>
      if negb (i <? length ts)%nat then Ret []
      else
        let i := skip_trivial i in
        match ts !! i with
        | None => Ret []
        | Some first =>
            let! slash := ends_at_slash slash_enabled first in
            if slash then split_loop fuel' (i + 1) cursor
            else
              let content_start := start first in
              let! cursor := advance_to cursor t content_start in
              let! o := scan_statement i content_start in
              let! cursor' := advance_to cursor t (out_full_end o) in
              let! spans := split_loop fuel' (next_i o) cursor' in
              Ret (mkSpan content_start (out_content_end o) (out_full_end o) (line cursor)
                     (column cursor) (out_kind o) (out_ended_by o) (out_terminated o) :: spans)
        end
  end.
End Scans.

Section Api.
Context `{Unicode}.

Definition split_statements (t : str) (d : SqlDialect) : run (list StatementSpan) :=
  let! ts := tokenize t d in split_loop ts t d (loop_bound ts) 0 position_new.

(** [max_by_key(|span| span.full_end)]: the last of the largest. *)
Fixpoint max_by_full_end (l : list StatementSpan) : option StatementSpan :=
  match l with
  | [] => None
  | s :: l' =>
      match max_by_full_end l' with
      | Some s' => if (full_end s <=? full_end s')%nat then Some s' else Some s
      | None => Some s
      end
  end.

Definition statement_at (t : str) (offset : nat) (d : SqlDialect) : run (option StatementSpan) :=
  let offset := floor_char_boundary t (Nat.min offset (blen t)) in
  let! spans := split_statements t d in
  match List.find (fun s => (content_start s <=? offset)%nat && (offset <=? full_end s)%nat) spans with
  | Some hit => Ret (Some hit)
  | None =>
      match max_by_full_end (List.filter (fun s => (full_end s <=? offset)%nat) spans) with
      | None => Ret None
      | Some preceding =>
          let! gap := slice t (full_end preceding) offset in
          Ret (if existsb (fun c => c =? NEWLINE) gap then None else Some preceding)
      end
  end.
End Api.
