(* ===== verification/SplitterProps.v ===== *)
(** * Facts about the splitter's scans

    Proved against the lexer's promise [TokenStream] alone: every scan returns,
    and what it returns is a well-formed end of the statement that starts at a
    given token. *)

From S2P Require Import Prelude.
From S2P Require Import RustStr.
From S2P Require Import Token.
From S2P Require Import Dialect.
From S2P Require Import Lexer.
From S2P Require Import TokenStream.
From S2P Require Import Splitter.
Open Scope Z_scope.
Open Scope run_scope.

(** ** Character boundaries *)

Definition boundary (t : str) (n : nat) : Prop := exists a b, t = a ++ b /\ blen a = n.

Lemma boundary_0 t : boundary t 0.
Proof. by exists [], t. Qed.

Lemma boundary_end t : boundary t (blen t).
Proof. exists t, []. by rewrite app_nil_r. Qed.

Create HintDb boundary.
#[export] Hint Resolve boundary_0 boundary_end : boundary.

Lemma boundary_le t n : boundary t n -> (n <= blen t)%nat.
Proof. intros (a & b & -> & <-). rewrite blen_app. lia. Qed.

Lemma boundary_slice t n m :
  boundary t n -> boundary t m -> (n <= m)%nat ->
  exists a x b, t = a ++ x ++ b /\ blen a = n /\ (blen a + blen x)%nat = m /\ slice t n m = Ret x.
Proof.
  intros (a & b & -> & <-) (a' & b' & E & <-) Hle.
  apply app_eq_inv in E as [(x & -> & ->)|(x & -> & ->)].
  - rewrite blen_app in Hle. assert (x = []) as -> by (apply blen_nil_inv; lia).
    exists a', [], b. rewrite !app_nil_r. simpl. rewrite Nat.add_0_r.
    split; [done|]. split; [done|]. split; [done|].
    pose proof (slice_app a' [] b) as Hs. simpl in Hs. by rewrite Nat.add_0_r in Hs.
  - exists a, x, b'. rewrite blen_app. split; [done|]. split; [done|]. split; [done|].
    apply slice_app.
Qed.

Lemma slice_to_boundary t n :
  boundary t n -> exists a b, t = a ++ b /\ blen a = n /\ slice_to t n = Ret a.
Proof. intros (a & b & -> & <-). exists a, b. by rewrite slice_to_app. Qed.

Lemma str_eqb_eq a b : str_eqb a b = true -> a = b.
Proof. apply bool_decide_eq_true. Qed.

Lemma wp_if {A} (b : bool) (m n : run A) Q :
  (b = true -> wp m Q) -> (b = false -> wp n Q) -> wp (if b then m else n) Q.
Proof. destruct b; auto. Qed.

(** Induction on the fuel of a loop over the tokens that starts at [i]. *)
Ltac token_loop ts i :=
  assert (length ts - i < loop_bound ts)%nat as Hf by (unfold loop_bound; lia);
  revert i Hf; generalize (loop_bound ts) as fuel; intros fuel;
  induction fuel as [|fuel IH]; intros i Hf; [lia|].

(** Run the first command of a sequence by its specification. *)
Tactic Notation "wp_by" uconstr(L) := eapply wp_bind; [eapply L; try done|cbv beta].

Lemma check_i32_ok z : - 2 ^ 31 <= z < 2 ^ 31 -> check_i32 z = Ret z.
Proof.
  intros Hz. unfold check_i32.
  by rewrite (proj2 (Z.leb_le _ _)), (proj2 (Z.ltb_lt _ _)) by lia.
Qed.

Lemma check_u32_ok z : 0 <= z < 2 ^ 32 -> check_u32 z = Ret z.
Proof.
  intros Hz. unfold check_u32.
  by rewrite (proj2 (Z.leb_le _ _)), (proj2 (Z.ltb_lt _ _)) by lia.
Qed.

Lemma skip_kinds_le ts p i : (i <= skip_kinds ts p i)%nat.
Proof. unfold skip_kinds. lia. Qed.

Lemma skip_kinds_bound ts p i : (i <= length ts)%nat -> (skip_kinds ts p i <= length ts)%nat.
Proof.
  intros Hi. unfold skip_kinds.
  pose proof (count_while_le (fun tok => p (kind tok)) (drop i ts)) as Hc.
  rewrite length_drop in Hc. lia.
Qed.

Section Scans.
Context (t : str) (ts : list Token) (d : SqlDialect) `{Hts : !TokenStream t ts}.

(** ** Reading tokens *)

Lemma token_piece i tok : ts !! i = Some tok ->
  exists a x b, t = a ++ x ++ b /\ start tok = blen a /\ tend tok = (blen a + blen x)%nat /\
    x <> [] /\ token_text t tok = Ret x.
Proof.
  intros Hi. destruct (tiles_piece _ _ _ _ _ stream_tiles Hi) as (a & x & b & E & Hs & He & Hx).
  exists a, x, b. simpl in *. split; [done|]. split; [done|]. split; [done|]. split; [done|].
  unfold token_text. rewrite Hs, He, E. apply slice_app.
Qed.

Lemma token_text_ok i tok : ts !! i = Some tok -> wp (token_text t tok) (fun _ => True).
Proof. intros Hi. by destruct (token_piece i tok Hi) as (?&?&?&?&?&?&?& ->). Qed.

Lemma token_bounds i tok : ts !! i = Some tok ->
  (start tok < tend tok <= blen t)%nat /\ boundary t (start tok) /\ boundary t (tend tok).
Proof.
  intros Hi. pose proof (tiles_bounds _ _ _ _ _ stream_tiles Hi) as Hb.
  destruct (token_piece i tok Hi) as (a & x & b & -> & Hs & He & _).
  split; [simpl in *; lia|]. split.
  - by exists a, (x ++ b).
  - exists (a ++ x), b. by rewrite blen_app, <- (assoc_L (++)).
Qed.

Lemma tokens_before i j tok tok' :
  ts !! i = Some tok -> ts !! j = Some tok' -> (i <= j)%nat -> (start tok <= start tok')%nat.
Proof.
  intros Hi Hj Hij. destruct (decide (i = j)) as [->|]; [by simplify_eq|].
  pose proof (tiles_ordered _ _ _ _ _ _ _ stream_tiles Hi Hj ltac:(lia)).
  pose proof (tiles_bounds _ _ _ _ _ stream_tiles Hi). lia.
Qed.

Lemma is_operator_ok i tok s : ts !! i = Some tok -> wp (is_operator t tok s) (fun _ => True).
Proof.
  intros Hi. unfold is_operator. case_match; [|done].
  by wp_by (token_text_ok i tok).
Qed.

Lemma is_terminator_ok i tok :
  ts !! i = Some tok ->
  wp (is_terminator t d tok) (fun b => b = true -> kind tok = Operator).
Proof.
  intros Hi. unfold is_terminator. case_match eqn:E; [|done].
  wp_by (token_text_ok i tok). intros ? _. simpl. intros _. by apply bool_decide_eq_true in E.
Qed.

Lemma paren_step_ok i tok :
  ts !! i = Some tok -> wp (paren_step t tok) (fun z => -1 <= z <= 1).
Proof.
  intros Hi. unfold paren_step. case_match; [|simpl; lia].
  wp_by (token_text_ok i tok). intros ? _. simpl. repeat case_match; lia.
Qed.

(** A [/] alone on its line: the rest of the line is blank. *)
Definition slash_line (tok : Token) : Prop :=
  exists a w b, t = a ++ w ++ b /\ blen a = tend tok /\ blank w /\ next_line b.

Lemma line_rest a b :
  t = a ++ b ->
  exists w r, b = w ++ r /\ (NEWLINE ∉ w) /\ next_line r /\
    match find_byte (fun c => c =? NEWLINE) b with
    | Some p => (blen a + p)%nat | None => blen t end = (blen a + blen w)%nat /\
    match find_byte (fun c => c =? NEWLINE) b with
    | Some p => (blen a + p + 1)%nat | None => blen t end = (blen a + blen w + break_len r)%nat.
Proof.
  intros Ht. assert (Hf : forall x : str, Forall (fun c => (c =? NEWLINE) = false) x -> NEWLINE ∉ x).
  { intros x Hx Hin. rewrite Forall_forall in Hx. apply Hx in Hin. done. }
  destruct (find_byte _ b) as [p|] eqn:E.
  - apply find_byte_Some in E as (w & c & r & -> & <- & Hc & Hw). boolify. subst c.
    exists w, (NEWLINE :: r). split; [done|]. split; [by apply Hf|]. split; [right; eauto|done].
  - apply find_byte_None in E. exists b, []. rewrite app_nil_r, Ht, blen_app. simpl.
    split; [done|]. split; [by apply Hf|]. split; [by left|lia].
Qed.

Lemma is_lone_slash_line_ok i tok :
  ts !! i = Some tok -> wp (is_lone_slash_line t tok) (fun b => b = true -> slash_line tok).
Proof.
  intros Hi. destruct (token_piece i tok Hi) as (a & x & b & E & Hs & He & Hx & Htext).
  unfold is_lone_slash_line. rewrite Htext. cbn [rbind].
  apply wp_if; intros _; [done|]. rewrite Hs, He, E, slice_to_app. cbn [rbind].
  rewrite <- E.
  set (ls := match rfind_byte _ a with Some p => _ | None => _ end).
  assert (Hls : boundary t ls /\ (ls <= blen a)%nat).
  { unfold ls. destruct (rfind_byte _ a) as [p|] eqn:Er; [|split; [apply boundary_0|lia]].
    apply rfind_byte_Some in Er as (u & c & v & -> & <- & Hc & _). boolify. subst c.
    rewrite blen_app. cbn [blen]. change (len_utf8 NEWLINE) with 1%nat. split; [|lia].
    exists (u ++ [NEWLINE]), (v ++ x ++ b). rewrite blen_app. split; [|done].
    rewrite E, <- !(assoc_L (++)). done. }
  destruct (boundary_slice t ls (blen a)) as (_ & y & _ & _ & _ & _ & ->);
    [apply Hls|by exists a, (x ++ b)|apply Hls|]. cbn [rbind].
  apply wp_if; intros _; [done|].
  assert (E' : t = (a ++ x) ++ b) by (by rewrite <- (assoc_L (++))).
  replace (slice_from t (blen a + blen x)) with (@Ret str b)
    by (rewrite E', <- blen_app, slice_from_app; done). cbn [rbind].
  destruct (line_rest (a ++ x) b E') as (w & r & -> & Hnl & Hr & Hend & _).
  rewrite blen_app in Hend. rewrite Hend.
  assert (Hsl : slice t (blen a + blen x) (blen a + blen x + blen w) = Ret w)
    by (rewrite E', <- blen_app; apply slice_app).
  rewrite Hsl. cbn [rbind wp]. intros Hw%str_eqb_eq%trim_nil.
  exists (a ++ x), w, r. rewrite blen_app. by repeat split.
Qed.

Lemma ends_at_slash_ok i tok en :
  ts !! i = Some tok ->
  wp (ends_at_slash t en tok)
     (fun b => b = true -> kind tok = Operator /\ slash_line tok).
Proof.
  intros Hi. unfold ends_at_slash. apply wp_if; intros E; [|done]. boolify.
  eapply wp_mono; [by apply (is_lone_slash_line_ok i)|]. intros b Hb Hbt.
  split; [by eapply bool_decide_eq_true_1|auto].
Qed.

Lemma trailing_line_end_ok tok :
  slash_line tok ->
  exists a w b, t = a ++ w ++ b /\ blen a = tend tok /\ blank w /\ next_line b /\
    trailing_line_end t (tend tok) = Ret (blen a + blen w + break_len b)%nat.
Proof.
  intros (a & w & b & E & Ha & Hw & Hb). exists a, w, b. split; [done|]. split; [done|].
  split; [done|]. split; [done|]. unfold trailing_line_end. rewrite <- Ha, E, slice_from_app.
  cbn [rbind]. rewrite <- E. destruct (line_rest a (w ++ b) E) as (w' & b' & E2 & Hw' & Hb' & _ & ->).
  destruct (line_unique w w' b b') as [-> ->]; try done. by destruct Hw.
Qed.

Lemma slash_boundary a w b :
  t = a ++ w ++ b -> next_line b -> boundary t (blen a + blen w + break_len b).
Proof.
  intros E [->|[b' ->]].
  - exists (a ++ w), []. rewrite blen_app. simpl. rewrite E, <- (assoc_L (++)). split; [done|lia].
  - exists (a ++ w ++ [NEWLINE]), b'. rewrite !blen_app, E, <- !(assoc_L (++)). split; [done|].
    change (blen [NEWLINE]) with 1%nat. simpl. lia.
Qed.

(** ** The end of a statement *)

(** [o] ends the statement of kind [k] that starts with token [i0] at byte [cs]. *)
Record outcome_ok (i0 cs : nat) (k : StatementKind) (o : ScanOutcome) : Prop := {
  ok_kind : out_kind o = k;
  ok_next : (i0 < next_i o <= length ts)%nat;
  ok_order : (cs <= out_content_end o <= out_full_end o)%nat;
  ok_content : boundary t (out_content_end o);
  ok_full : boundary t (out_full_end o);
  ok_before : forall j tok, ts !! j = Some tok -> (j < next_i o)%nat ->
    (tend tok <= out_full_end o)%nat;
  ok_after : forall j tok, ts !! j = Some tok -> (next_i o <= j)%nat -> kind tok <> Whitespace ->
    (out_full_end o <= start tok)%nat;
  ok_flag : out_terminated o =
    match out_ended_by o with
    | EndOfInput => false
    | InferredBlockEnd => block_may_end_without_slash d
    | _ => true
    end;
}.

Section Statement.
Context (i0 cs : nat) (first : Token).
Hypothesis (Hfirst : ts !! i0 = Some first) (Hcs : cs = start first).

Lemma before_current i tok : ts !! i = Some tok -> (i0 <= i)%nat -> (cs <= start tok)%nat.
Proof. intros Hi Hle. rewrite Hcs. by apply (tokens_before i0 i). Qed.

Lemma ran_to_eof_ok k : outcome_ok i0 cs k (ran_to_eof ts t k).
Proof.
  pose proof (lookup_lt_Some _ _ _ Hfirst) as Hlt.
  assert (Hl : match last ts with Some tok => tend tok | None => blen t end = blen t).
  { destruct (last ts) as [tok|] eqn:E; [|done]. by rewrite (tiles_last _ _ _ _ stream_tiles E). }
  unfold ran_to_eof. rewrite Hl. cbv zeta. destruct (token_bounds _ _ Hfirst) as [? _].
  split; cbn [next_i out_content_end out_full_end out_terminated out_ended_by]; try done; try lia.
  - auto with boundary.
  - auto with boundary.
  - intros j tok Hj _. destruct (token_bounds _ _ Hj) as [? _]. lia.
  - intros j tok Hj Hle. apply lookup_lt_Some in Hj. lia.
Qed.

(** A statement that a [/] line at token [i] closes. *)
Lemma slash_outcome_ok i tok ce f k :
  ts !! i = Some tok -> kind tok = Operator -> slash_line tok -> (i0 <= i)%nat ->
  trailing_line_end t (tend tok) = Ret f ->
  (cs <= ce <= tend tok)%nat -> boundary t ce ->
  outcome_ok i0 cs k (mkOutcome ce f true SlashLine (i + 1) k).
Proof.
  intros Hi Hk Hs Hle Hf Hce Hb.
  destruct (trailing_line_end_ok tok Hs) as (a & w & b & E & Ha & Hw & Hnb & Hf').
  rewrite Hf in Hf'. injection Hf' as ->.
  pose proof (lookup_lt_Some _ _ _ Hi).
  split; cbn [next_i out_content_end out_full_end out_terminated out_ended_by]; try done; try lia.
  - by apply slash_boundary.
  - intros j tok' Hj Hlt. destruct (decide (j = i)) as [->|]; [simplify_eq; lia|].
    pose proof (tiles_ordered _ _ _ _ _ _ _ stream_tiles Hj Hi ltac:(lia)).
    destruct (token_bounds _ _ Hi) as [? _]. lia.
  - intros j tok' Hj Hge Hns.
    destruct (decide (blen a + blen w + break_len b <= start tok')%nat) as [|Hlt]; [done|].
    destruct Hns. apply (stream_blank i tok a w b j tok'); try done; lia.
Qed.

Lemma end_at_slash_line_ok i tok k :
  ts !! i = Some tok -> kind tok = Operator -> slash_line tok -> (i0 <= i)%nat ->
  wp (end_at_slash_line t tok k (i + 1) cs) (outcome_ok i0 cs k).
Proof.
  intros Hi Hk Hs Hle. unfold end_at_slash_line.
  destruct (token_bounds _ _ Hi) as (Hb & Hbs & _).
  destruct (slice_to_boundary _ _ Hbs) as (a & b & E & Ha & ->). cbn [rbind].
  destruct (trailing_line_end_ok tok Hs) as (? & ? & ? & _ & _ & _ & _ & Hf).
  rewrite Hf. cbn [rbind]. apply wp_ret.
  pose proof (trim_end_le a). pose proof (before_current i tok Hi Hle).
  apply slash_outcome_ok with tok; try done; [lia|].
  apply Nat.max_case_strong; intros _.
  - destruct (trim_end_spec a) as (w & Hw & _). exists (trim_end a), (w ++ b).
    by rewrite (assoc_L (++)), <- Hw.
  - rewrite Hcs. by apply (token_bounds i0).
Qed.

(** A statement that the terminator at token [i] closes. *)
Lemma terminator_outcome_ok i tok ended term k :
  ts !! i = Some tok -> (i0 <= i)%nat ->
  term = match ended with
         | EndOfInput => false | InferredBlockEnd => block_may_end_without_slash d | _ => true end ->
  outcome_ok i0 cs k (mkOutcome (start tok) (tend tok) term ended (i + 1) k).
Proof.
  intros Hi Hle Hterm. destruct (token_bounds _ _ Hi) as (Hb & Hbs & Hbe).
  pose proof (lookup_lt_Some _ _ _ Hi). pose proof (before_current i tok Hi Hle).
  split; cbn [next_i out_content_end out_full_end out_terminated out_ended_by]; try done; try lia.
  - intros j tok' Hj Hlt. destruct (decide (j = i)) as [->|]; [simplify_eq; lia|].
    pose proof (tiles_ordered _ _ _ _ _ _ _ stream_tiles Hj Hi ltac:(lia)). lia.
  - intros j tok' Hj Hge _. apply (tiles_ordered _ _ _ _ _ _ _ stream_tiles Hi Hj). lia.
Qed.

Lemma finish_with_maybe_slash_ok i tok k :
  ts !! i = Some tok -> (i0 <= i)%nat ->
  wp (finish_with_maybe_slash ts t d (start tok) (tend tok) (i + 1) k) (outcome_ok i0 cs k).
Proof.
  intros Hi Hle. unfold finish_with_maybe_slash.
  pose proof (terminator_outcome_ok i tok InferredBlockEnd _ k Hi Hle eq_refl) as Hinf.
  apply wp_if; intros _; [|exact Hinf].
  destruct (ts !! skip_kinds ts is_trivial_or_directive (i + 1)) as [tok'|] eqn:Hj; [|exact Hinf].
  pose proof (skip_kinds_le ts is_trivial_or_directive (i + 1)) as Hskip.
  wp_by ends_at_slash_ok. intros b Hb.
  destruct b; [|exact Hinf]. destruct (Hb eq_refl) as [Hk Hs].
  destruct (trailing_line_end_ok tok' Hs) as (? & ? & ? & _ & _ & _ & _ & Hf).
  rewrite Hf. cbn [rbind]. apply wp_ret.
  apply slash_outcome_ok with tok'; try done; [lia| |by apply (token_bounds i)].
  pose proof (before_current i tok Hi Hle).
  pose proof (tokens_before i _ tok tok' Hi Hj ltac:(lia)).
  destruct (token_bounds _ _ Hj) as [? _]. lia.
Qed.

(** ** The simple scans *)

Lemma scan_plain_ok i : (i0 <= i)%nat -> wp (scan_plain ts t d i cs) (outcome_ok i0 cs Plain).
Proof.
  unfold scan_plain. token_loop ts i. intros Hle. cbn [scan_plain_loop].
  destruct (ts !! i) as [tok|] eqn:Hi; [|apply ran_to_eof_ok].
  wp_by ends_at_slash_ok. intros [|] Hs.
  { destruct (Hs eq_refl). by apply end_at_slash_line_ok. }
  wp_by is_terminator_ok. intros [|] _.
  { by apply wp_ret, terminator_outcome_ok. }
  apply lookup_lt_Some in Hi. apply IH; lia.
Qed.

Lemma scan_opaque_source_ok i : (i0 <= i)%nat -> wp (scan_opaque_source ts t i cs) (outcome_ok i0 cs Block).
Proof.
  unfold scan_opaque_source.
  token_loop ts i. intros Hle. cbn [scan_opaque_loop].
  destruct (ts !! i) as [tok|] eqn:Hi; [|apply ran_to_eof_ok].
  wp_by ends_at_slash_ok. intros [|] Hs.
  { destruct (Hs eq_refl). by apply end_at_slash_line_ok. }
  apply lookup_lt_Some in Hi. apply IH; lia.
Qed.

Lemma scan_to_terminator_ok i :
  (i0 <= i)%nat -> wp (scan_to_terminator ts t d i cs) (outcome_ok i0 cs Block).
Proof.
  unfold scan_to_terminator.
  token_loop ts i. intros Hle. cbn [scan_to_terminator_loop].
  destruct (ts !! i) as [tok|] eqn:Hi; [|apply ran_to_eof_ok].
  wp_by ends_at_slash_ok. intros [|] Hs.
  { destruct (Hs eq_refl). by apply end_at_slash_line_ok. }
  wp_by is_terminator_ok. intros [|] _.
  { by apply finish_with_maybe_slash_ok. }
  apply lookup_lt_Some in Hi. apply IH; lia.
Qed.

(** The text is short enough for the depths to fit [i32]. *)
Hypothesis Hshort : Z.of_nat (blen t) < 2 ^ 31.

Lemma index_fits i tok : ts !! i = Some tok -> Z.of_nat i + 1 < 2 ^ 31.
Proof.
  intros Hi%lookup_lt_Some. pose proof (tiles_length _ _ _ stream_tiles). lia.
Qed.

Lemma terminator_if_ok i tok (b : bool) :
  ts !! i = Some tok -> wp (if b then is_terminator t d tok else Ret false) (fun _ => True).
Proof.
  intros Hi. apply wp_if; intros _; [|done].
  eapply wp_mono; [by eapply is_terminator_ok|done].
Qed.

Lemma scan_paren_delimited_ok i :
  (i0 <= i)%nat -> wp (scan_paren_delimited ts t d i cs) (outcome_ok i0 cs Block).
Proof.
  intros Hi0. unfold scan_paren_delimited.
  assert (length ts - i < loop_bound ts)%nat as Hf by (unfold loop_bound; lia).
  assert (Hp : - Z.of_nat i <= 0 <= Z.of_nat i) by lia.
  revert i Hf Hi0 Hp. generalize (loop_bound ts) as fuel, 0 as p. intros fuel.
  induction fuel as [|fuel IH]; intros p i Hf Hle Hp; [lia|]. cbn [scan_paren_loop].
  destruct (ts !! i) as [tok|] eqn:Hi; [|apply ran_to_eof_ok].
  pose proof (index_fits i tok Hi) as Hfit. pose proof (lookup_lt_Some _ _ _ Hi) as Hlt.
  wp_by ends_at_slash_ok. intros [|] Hs.
  { destruct (Hs eq_refl). by apply end_at_slash_line_ok. }
  wp_by paren_step_ok. intros z Hz. apply wp_if; intros _.
  { rewrite check_i32_ok by lia. cbn [rbind]. apply IH; lia. }
  wp_by terminator_if_ok. intros [|] _.
  { by apply finish_with_maybe_slash_ok. }
  apply IH; lia.
Qed.

(** ** Phrases *)

Lemma peek_phrase_ok phrase : forall b i, wp (peek_phrase ts t b i phrase) (fun _ => True).
Proof.
  induction phrase as [|x phrase IH]; intros b i; [done|]. cbn [peek_phrase].
  set (j := if b then i else skip_trivial ts i).
  destruct (ts !! j) as [tok|] eqn:Hj; [|done]. apply wp_if; intros _; [done|].
  wp_by token_text_ok. intros w _. apply wp_if; intros _; [apply IH|done].
Qed.

Lemma back_to_word_some idx j tok : back_to_word ts idx = Some (j, tok) -> ts !! j = Some tok.
Proof.
  induction idx as [|idx IH]; cbn [back_to_word]; repeat case_match; naive_solver.
Qed.

Lemma ends_with_words_ok phrase : forall c, wp (ends_with_words ts t c phrase) (fun _ => True).
Proof.
  induction phrase as [|x phrase IH]; intros c; [done|]. cbn [ends_with_words].
  destruct c as [idx|]; [|done].
  destruct (back_to_word ts idx) as [[j tok]|] eqn:E; [|done].
  apply back_to_word_some in E. apply wp_if; intros _; [done|].
  wp_by token_text_ok. intros w _. apply wp_if; intros _; [apply IH|done].
Qed.

Lemma any_phrase_ok f l : (forall p, wp (f p) (fun _ => True)) -> wp (any_phrase f l) (fun _ => True).
Proof.
  intros Hf. induction l as [|p l IH]; [done|]. cbn [any_phrase].
  wp_by Hf. intros [|] _; [done|exact IH].
Qed.

Lemma call_spec_ok i : wp (any_phrase (peek_phrase_matches ts t i) (call_spec_phrases d)) (fun _ => True).
Proof. apply any_phrase_ok. intros p. apply peek_phrase_ok. Qed.

Lemma introduces_body_ok i w : wp (introduces_body ts t d i w) (fun _ => True).
Proof.
  unfold introduces_body. apply wp_if; intros _; [|done].
  wp_by any_phrase_ok; [|done]. intros p. apply ends_with_words_ok.
Qed.

(** ** Headers and qualifiers *)

Lemma to_terminator_ok j :
  (j <= length ts)%nat -> wp (to_terminator_loop ts t d (loop_bound ts) j) (fun n => j <= n)%nat.
Proof.
  token_loop ts j. intros Hle. cbn [to_terminator_loop].
  destruct (ts !! j) as [tok|] eqn:Hj; [|simpl; lia].
  wp_by is_terminator_ok. intros [|] _; [simpl; lia|]. apply lookup_lt_Some in Hj.
  eapply wp_mono; [apply IH; lia|simpl; lia].
Qed.

Lemma scan_header_ok i :
  (i <= length ts)%nat -> wp (scan_header ts t d i) (fun r => i <= r.1)%nat.
Proof.
  intros Hi0. unfold scan_header.
  assert (length ts - i < loop_bound ts)%nat as Hf by (unfold loop_bound; lia).
  assert (Hp : - Z.of_nat i <= 0 <= Z.of_nat i) by lia.
  revert i Hf Hi0 Hp. generalize (loop_bound ts) as fuel, 0 as p. intros fuel.
  induction fuel as [|fuel IH]; intros p i Hf Hle Hp; [lia|]. cbn [scan_header_loop].
  destruct (ts !! i) as [tok|] eqn:Hi; [|simpl; lia].
  pose proof (index_fits i tok Hi) as Hfit. pose proof (lookup_lt_Some _ _ _ Hi) as Hlt.
  assert (Hgo : forall q, - Z.of_nat (i + 1) <= q <= Z.of_nat (i + 1) ->
    wp (scan_header_loop ts t d fuel (i + 1) q) (fun r => i <= r.1)%nat).
  { intros q Hq. eapply wp_mono; [apply IH; lia|simpl; lia]. }
  apply wp_if; intros _.
  - wp_by paren_step_ok. intros z Hz. apply wp_if; intros _.
    { rewrite check_i32_ok by lia. apply Hgo. lia. }
    wp_by terminator_if_ok. intros [|] _; [simpl; lia|apply Hgo; lia].
  - apply wp_if; intros _; [|apply Hgo; lia].
    wp_by token_text_ok. intros w _. wp_by introduces_body_ok.
    intros [|] _; [|apply Hgo; lia]. wp_by call_spec_ok. intros [|] _; [|simpl; lia].
    pose proof (skip_kinds_le ts is_trivial (i + 1)).
    wp_by to_terminator_ok; [apply skip_kinds_bound; lia|].
    intros j Hj. simpl. unfold skip_trivial in *. lia.
Qed.

Lemma skip_end_qualifier_ok i :
  (i <= length ts)%nat -> wp (skip_end_qualifier ts t d i) (fun n => i <= n)%nat.
Proof.
  unfold skip_end_qualifier.
  token_loop ts i. intros Hle. cbn [skip_end_qualifier_loop].
  pose proof (skip_kinds_le ts is_trivial i) as Hsk. fold (skip_trivial ts i) in Hsk.
  destruct (ts !! skip_trivial ts i) as [tok|] eqn:Hi; [|simpl; lia].
  wp_by is_terminator_ok. intros [|] _; [simpl; lia|]. apply wp_if; intros _; [simpl; lia|].
  apply lookup_lt_Some in Hi. eapply wp_mono; [apply IH; lia|simpl; lia].
Qed.

Lemma skip_words_ok j :
  (j <= length ts)%nat -> wp (skip_words_loop ts (loop_bound ts) j) (fun n => j <= n)%nat.
Proof.
  token_loop ts j. intros Hle. cbn [skip_words_loop].
  apply wp_if; intros E; [|simpl; lia]. unfold kind_is in E.
  destruct (ts !! j) as [tok|] eqn:Hj; [|done]. apply lookup_lt_Some in Hj.
  pose proof (skip_kinds_le ts is_trivial (j + 1)). unfold skip_trivial.
  eapply wp_mono; [apply IH; [lia|apply skip_kinds_bound; lia]|simpl; lia].
Qed.

Lemma finish_structured_ok i tok :
  ts !! i = Some tok -> (i0 <= i)%nat -> wp (finish_structured ts t d i) (outcome_ok i0 cs Block).
Proof.
  intros Hi Hle. unfold finish_structured. pose proof (lookup_lt_Some _ _ _ Hi).
  pose proof (skip_kinds_le ts is_trivial (i + 1)).
  wp_by skip_words_ok; [apply skip_kinds_bound; lia|]. intros j Hj. unfold skip_trivial in Hj.
  destruct (ts !! j) as [tok'|] eqn:Hj'; [|apply ran_to_eof_ok].
  wp_by is_terminator_ok. intros [|] _; cbn [negb]; [|apply ran_to_eof_ok].
  apply finish_with_maybe_slash_ok; [done|lia].
Qed.

(** ** Block structure *)

(** The counters before token [i]: they cannot be larger than the tokens read. *)
Record structure_ok (i : nat) (s : Structure) : Prop := {
  sd_depth : 0 <= depth s <= Z.of_nat i;
  sd_pending : 0 <= pending_bodies s <= Z.of_nat i;
  sd_paren : - Z.of_nat i <= paren_depth s <= Z.of_nat i;
}.

Lemma structure_mono i j s : structure_ok i s -> (i <= j)%nat -> structure_ok j s.
Proof. intros [? ? ?] Hij. split; lia. Qed.

Definition step_ok (i : nat) (r : Step) : Prop :=
  match r with
  | Done o => outcome_ok i0 cs Block o
  | Continue j s => (i < j)%nat /\ structure_ok j s
  end.

Lemma done_ok i (m : run ScanOutcome) :
  wp m (outcome_ok i0 cs Block) -> wp (let! o := m in Ret (Done o)) (step_ok i).
Proof. intros Hm. eapply wp_bind; [exact Hm|]. done. Qed.

Lemma note_compound_ok i s :
  structure_ok i s -> wp (note_compound ts t d s i) (structure_ok i).
Proof.
  intros Hs. unfold note_compound. apply wp_if; intros _; [done|].
  destruct (sectioned_body_marker d) as [m|]; [|done].
  wp_by peek_phrase_ok. intros b _. destruct Hs. by destruct b.
Qed.

Lemma own_call_spec_ok s i w :
  wp (own_call_spec ts t d s i w) (fun o => forall j, o = Some j -> (i < j)%nat).
Proof.
  unfold own_call_spec. apply wp_if; intros _; [|done]. wp_by introduces_body_ok.
  intros [|] _; [|done]. wp_by call_spec_ok. intros [|] _; [|done].
  simpl. intros j [= <-]. unfold skip_trivial.
  pose proof (skip_kinds_le ts is_trivial (i + 1)). lia.
Qed.

Lemma open_word_ok i s w tok :
  ts !! i = Some tok -> structure_ok i s -> wp (open_word d s w) (structure_ok (i + 1)).
Proof.
  intros Hi [Hd Hp Hq]. pose proof (index_fits i tok Hi). unfold open_word.
  repeat (apply wp_if; intros ?); boolify;
    rewrite ?check_u32_ok, ?check_i32_ok by lia; cbn [rbind wp]; split; cbn; lia.
Qed.

Lemma structured_word_ok i s w tok :
  ts !! i = Some tok -> (i0 <= i)%nat -> structure_ok i s ->
  wp (structured_word ts t d s i w cs) (step_ok i).
Proof.
  intros Hi Hle Hs0. pose proof (index_fits i tok Hi). pose proof (lookup_lt_Some _ _ _ Hi).
  unfold structured_word. wp_by note_compound_ok. intros s' Hs.
  apply wp_if; intros _; [apply done_ok, scan_to_terminator_ok; lia|].
  wp_by own_call_spec_ok. intros [j|] Hj.
  { specialize (Hj j eq_refl). apply done_ok, scan_to_terminator_ok. lia. }
  clear Hj. destruct Hs as [Hd Hp Hq]. apply wp_if; intros _.
  { wp_by scan_header_ok; [lia|]. intros [j owes] Hj. simpl in Hj. apply wp_if; intros _.
    - rewrite check_u32_ok by lia. cbn [rbind wp step_ok].
      split; [lia|]. split; cbn; lia.
    - cbn [wp step_ok]. split; [lia|]. split; lia. }
  apply wp_if; intros _.
  { apply wp_if; intros Hz; boolify; [by eapply done_ok, finish_structured_ok|].
    rewrite check_i32_ok by lia. cbn [rbind]. wp_by skip_end_qualifier_ok; [lia|].
    intros j Hj. cbn [wp step_ok]. split; [lia|]. split; cbn; lia. }
  wp_by open_word_ok. intros s2 Hs2. cbn [wp step_ok]. split; [lia|done].
Qed.

Lemma structured_step_ok i s tok :
  ts !! i = Some tok -> (i0 <= i)%nat -> structure_ok i s ->
  wp (structured_step ts t d s i tok cs) (step_ok i).
Proof.
  intros Hi Hle Hs. pose proof (index_fits i tok Hi). unfold structured_step.
  wp_by ends_at_slash_ok. intros [|] Hsl.
  { destruct (Hsl eq_refl). by apply done_ok, end_at_slash_line_ok. }
  apply wp_if; intros _.
  { wp_by paren_step_ok. intros z Hz. destruct Hs as [Hd Hp Hq].
    rewrite check_i32_ok by lia. cbn [rbind wp step_ok]. split; [lia|]. split; cbn; lia. }
  apply wp_if; intros _.
  { cbn [wp step_ok]. split; [lia|]. by apply (structure_mono i); [|lia]. }
  wp_by token_text_ok. intros w _. by apply structured_word_ok with tok.
Qed.

Lemma scan_structured_ok i starter :
  (i0 <= i)%nat -> wp (scan_structured ts t d i starter cs) (outcome_ok i0 cs Block).
Proof.
  intros Hle. unfold scan_structured.
  assert (length ts - i < loop_bound ts)%nat as Hf by (unfold loop_bound; lia).
  assert (Hs : structure_ok i (mkStructure 0 0 (opens_body starter) false 0)) by (split; cbn; lia).
  revert i Hle Hf Hs. generalize (loop_bound ts) as fuel.
  generalize (mkStructure 0 0 (opens_body starter) false 0) as s. intros s fuel. revert s.
  induction fuel as [|fuel IH]; intros s i Hle Hf Hs; [lia|]. cbn [scan_structured_loop].
  destruct (ts !! i) as [tok|] eqn:Hi; [|apply ran_to_eof_ok].
  pose proof (lookup_lt_Some _ _ _ Hi).
  wp_by structured_step_ok. intros [o|j s'] Hstep; [exact Hstep|].
  destruct Hstep as [Hj Hs']. apply IH; [lia|lia|done].
Qed.

(** ** Leading words *)

Lemma skip_labels_ok i : wp (skip_labels ts t d i) (fun n => i <= n)%nat.
Proof.
  unfold skip_labels. destruct (label_delimiters d) as [[open close]|]; [|simpl; lia].
  token_loop ts i. cbn [skip_labels_loop].
  destruct (ts !! skip_trivial ts i) as [tok|] eqn:Hp; [|simpl; lia].
  pose proof (skip_kinds_le ts is_trivial i). pose proof (lookup_lt_Some _ _ _ Hp).
  wp_by is_operator_ok. intros [|] _; cbn [negb]; [|simpl; lia].
  set (j0 := skip_trivial ts (skip_trivial ts i + 1)).
  set (j := if kind_is ts is_word j0 then skip_trivial ts (j0 + 1) else j0).
  assert (Hj : (i < j)%nat).
  { unfold j, j0, skip_trivial in *.
    pose proof (skip_kinds_le ts is_trivial (skip_kinds ts is_trivial i + 1)).
    case_match; [|lia].
    pose proof (skip_kinds_le ts is_trivial (skip_kinds ts is_trivial (skip_kinds ts is_trivial i + 1) + 1)).
    lia. }
  destruct (ts !! j) as [tok'|] eqn:Hc; [|simpl; lia].
  wp_by is_operator_ok. intros [|] _; cbn [negb]; [|simpl; lia].
  unfold skip_trivial in *. eapply wp_mono; [apply IH; lia|simpl; lia].
Qed.

Lemma collect_words_ok i :
  wp (collect_leading_words ts t i) (Forall (fun w => i < w.2)%nat).
Proof.
  unfold collect_leading_words.
  assert (length ts - i < loop_bound ts)%nat as Hf by (unfold loop_bound; lia).
  revert i Hf. generalize (loop_bound ts) as fuel, MAX_LEADING_WORDS as room. intros fuel.
  induction fuel as [|fuel IH]; intros room i Hf; [lia|]. cbn [collect_words_loop].
  destruct room as [|room]; [constructor|].
  destruct (ts !! i) as [tok|] eqn:Hi; [|constructor]. pose proof (lookup_lt_Some _ _ _ Hi).
  assert (Hnext : forall r, wp (collect_words_loop ts t fuel r (i + 1)) (Forall (fun w => i < w.2)%nat)).
  { intros r. eapply wp_mono; [apply IH; lia|]. intros ws Hws.
    eapply Forall_impl; [exact Hws|]. simpl. lia. }
  apply wp_if; intros _.
  - wp_by token_text_ok. intros w _. wp_by Hnext. intros ws Hws.
    cbn [wp]. constructor; [simpl; lia|done].
  - apply wp_if; intros _; [apply Hnext|constructor].
Qed.

Lemma match_phrase_le options ws n : match_phrase options ws = Some n -> (n <= length ws)%nat.
Proof.
  induction options as [|p options IH]; cbn [match_phrase]; [done|].
  destruct (_ && _) eqn:E; [|done]. intros [= <-]. boolify. lia.
Qed.

Lemma match_slots_ok l ws : forall idx, (idx <= length ws)%nat ->
  wp (match_slots l ws idx) (fun o => forall n, o = Some n -> n <= length ws)%nat.
Proof.
  induction l as [|[options|options] l IH]; intros idx Hidx; cbn [match_slots].
  - simpl. naive_solver lia.
  - unfold words_from. rewrite (proj2 (Nat.ltb_ge _ _)) by lia. cbn [rbind].
    destruct (match_phrase options (drop idx ws)) as [n|] eqn:E; [|done].
    apply match_phrase_le in E. rewrite length_drop in E. apply IH. lia.
  - unfold words_from. rewrite (proj2 (Nat.ltb_ge _ _)) by lia. cbn [rbind].
    destruct (match_phrase options (drop idx ws)) as [n|] eqn:E; [|by apply IH].
    apply match_phrase_le in E. rewrite length_drop in E. apply IH. lia.
Qed.

Lemma find_starter_ok l ws i :
  Forall (fun w => i < w.2)%nat ws ->
  wp (find_starter l ws i) (fun o => forall s j, o = Some (s, j) -> (i <= j)%nat).
Proof.
  intros Hws. induction l as [|s l IH]; cbn [find_starter]; [done|].
  assert (Hm : wp (matches_block_starter s ws i) (fun o => forall j, o = Some j -> (i <= j)%nat)).
  { unfold matches_block_starter. wp_by match_slots_ok; [lia|]. intros [[|n]|] Hn; [| |done].
    - simpl. naive_solver lia.
    - specialize (Hn _ eq_refl). destruct (lookup_lt_is_Some_2 ws n) as [w Hw]; [lia|].
      rewrite Hw. simpl. intros j [= <-].
      pose proof (Forall_lookup_1 _ _ _ _ Hws Hw). simpl in *. lia. }
  wp_by Hm. intros [j|] Hj; [|exact IH]. simpl. naive_solver.
Qed.

(** The plain scan from the first token, or a block. *)
Definition statement_outcome (o : ScanOutcome) : Prop :=
  (outcome_ok i0 cs Plain o /\ scan_plain ts t d i0 cs = Ret o) \/ outcome_ok i0 cs Block o.

Lemma scan_statement_ok : wp (scan_statement ts t d i0 cs) statement_outcome.
Proof.
  unfold scan_statement. wp_by skip_labels_ok. intros i Hi.
  wp_by collect_words_ok. intros ws Hws. wp_by find_starter_ok. intros [[s j]|] Hj.
  - specialize (Hj s j eq_refl).
    apply wp_mono with (outcome_ok i0 cs Block); [|by right]. destruct (block_kind s).
    + apply scan_structured_ok. lia.
    + apply scan_opaque_source_ok. lia.
    + apply scan_paren_delimited_ok. lia.
  - destruct (wp_elim _ _ (scan_plain_ok i0 (Nat.le_refl i0))) as (o & E & Ho).
    rewrite E. left. done.
Qed.
End Statement.
End Scans.
