(* ===== verification/SplitterClaims.v ===== *)
(** * What the splitter guarantees

    The run of [split_statements] as a derivation ([split_spec]), and from it:
    it never panics and its spans are in order; no text of a statement is lost;
    a plain statement ends at its first terminator; lines and columns are those
    of the text; and [statement_at] finds the statement under any offset. *)

From S2P Require Import Prelude.
From S2P Require Import RustStr.
From S2P Require Import Token.
From S2P Require Import Dialect.
From S2P Require Import Lexer.
From S2P Require Import LexerProps.
From S2P Require Import TokenStream.
From S2P Require Import Splitter.
From S2P Require Import SplitterProps.
Open Scope Z_scope.
Open Scope run_scope.

(** ** Lines and columns *)

(** The line and the column, in characters from 1, of the place after [a]. *)
Definition line_of (a : str) : Z :=
  1 + Z.of_nat (length (List.filter (fun c => c =? NEWLINE) a)).
Definition column_of (a : str) : Z := 1 + Z.of_nat (count_while not_newline (rev a)).

Definition position_ok (t : str) (p : PositionCursor) : Prop :=
  exists a b, t = a ++ b /\ blen a = ppos p /\ line p = line_of a /\ column p = column_of a.

Lemma length_le_blen s : (length s <= blen s)%nat.
Proof. induction s as [|c s IH]; simpl; [lia|]. pose proof (len_utf8_pos c). lia. Qed.

Lemma advance_chars_ok s : forall a,
  Z.of_nat (length (a ++ s)) < 2 ^ 31 ->
  advance_chars s (line_of a) (column_of a) = Ret (line_of (a ++ s), column_of (a ++ s)).
Proof.
  induction s as [|c s IH]; intros a Hl; cbn [advance_chars]; [by rewrite app_nil_r|].
  pose proof (filter_length_le (fun c => c =? NEWLINE) a) as Hf.
  pose proof (count_while_le not_newline (rev a)) as Hc. rewrite length_rev in Hc.
  rewrite length_app in Hl. simpl in Hl.
  assert (Hstep : line_of (a ++ [c]) = (if c =? NEWLINE then line_of a + 1 else line_of a) /\
                  column_of (a ++ [c]) = (if c =? NEWLINE then 1 else column_of a + 1)).
  { unfold line_of, column_of. rewrite List.filter_app, rev_app_distr, length_app.
    cbn [List.filter rev app count_while not_newline].
    unfold not_newline at 1. destruct (c =? NEWLINE); simpl; split; lia. }
  destruct Hstep as [Hl1 Hc1].
  replace (a ++ c :: s) with ((a ++ [c]) ++ s) by (by rewrite <- (assoc_L (++))).
  rewrite <- IH by (rewrite <- (assoc_L (++)), length_app; simpl; lia).
  rewrite Hl1, Hc1. unfold line_of, column_of in *.
  destruct (c =? NEWLINE); rewrite check_u32_ok by lia; done.
Qed.

Lemma advance_to_ok t p n :
  Z.of_nat (blen t) < 2 ^ 31 -> position_ok t p -> boundary t n -> (ppos p <= n)%nat ->
  wp (advance_to p t n) (fun q => position_ok t q /\ ppos q = n).
Proof.
  intros Ht (a & b & E & Ha & Hl & Hc) Hn Hle. unfold advance_to.
  rewrite (proj2 (Nat.ltb_ge _ _)) by done.
  destruct (boundary_slice t (ppos p) n) as (a' & x & b' & E' & Ha' & Hx & ->); [by exists a, b|done..|].
  cbn [rbind]. rewrite E in E'.
  apply app_same_prefix in E' as [<- Eb]; [|lia]. rewrite Hl, Hc, advance_chars_ok.
  - cbn [rbind wp]. split; [|done]. exists (a ++ x), b'. cbn. rewrite blen_app, <- (assoc_L (++)).
    split; [by rewrite E, Eb|]. split; [lia|done].
  - pose proof (length_le_blen (a ++ x)). rewrite E, Eb, !blen_app in Ht.
    rewrite blen_app in *. lia.
Qed.

(** ** The run of the splitter *)

Section Splitting.
Context (t : str) (ts : list Token) (d : SqlDialect) `{Hts : !TokenStream t ts}.

(** Only trivia between two tokens. *)
Definition trivial_between (i j : nat) : Prop :=
  forall n tok, (i <= n < j)%nat -> ts !! n = Some tok -> is_trivial (kind tok) = true.

Definition span_of (first : Token) (p : PositionCursor) (o : ScanOutcome) : StatementSpan :=
  mkSpan (start first) (out_content_end o) (out_full_end o) (line p) (column p)
    (out_kind o) (out_ended_by o) (out_terminated o).

(** The spans found from token [i] on, when the text before byte [p] is spent. *)
Inductive split_spec : nat -> nat -> list StatementSpan -> Prop :=
| split_end i p :
    trivial_between i (length ts) -> split_spec i p []
| split_slash i j p tok spans :
    (i <= j)%nat -> trivial_between i j -> ts !! j = Some tok ->
    ends_at_slash t (slash_enabled d) tok = Ret true ->
    split_spec (j + 1) p spans -> split_spec i p spans
| split_statement i j p first c o spans :
    (i <= j)%nat -> trivial_between i j -> ts !! j = Some first ->
    is_trivial (kind first) = false -> (p <= start first)%nat ->
    position_ok t c -> ppos c = start first ->
    statement_outcome t ts d j (start first) o ->
    split_spec (next_i o) (out_full_end o) spans ->
    split_spec i p (span_of first c o :: spans).

Lemma count_while_lookup {A} (q : A -> bool) l n x :
  (n < count_while q l)%nat -> l !! n = Some x -> q x = true.
Proof.
  revert n. induction l as [|y l IH]; intros n Hn Hx; simpl in *; [lia|].
  destruct (q y) eqn:E; [|lia]. destruct n as [|n]; simpl in *; [by simplify_eq|].
  apply (IH n); [lia|done].
Qed.

Lemma skip_trivial_between i : trivial_between i (skip_trivial ts i).
Proof.
  intros n tok Hn Htok. unfold skip_trivial, skip_kinds in Hn.
  apply (count_while_lookup (fun tok => is_trivial (kind tok)) (drop i ts) (n - i)%nat tok); [lia|].
  rewrite lookup_drop. by replace (i + (n - i))%nat with n by lia.
Qed.

Lemma skip_trivial_stops i tok :
  ts !! skip_trivial ts i = Some tok -> is_trivial (kind tok) = false.
Proof.
  intros Hi. apply (count_while_drop (fun tok => is_trivial (kind tok)) (drop i ts)).
  by rewrite head_lookup, drop_drop, lookup_drop, Nat.add_0_r.
Qed.

Lemma split_loop_spec : Z.of_nat (blen t) < 2 ^ 31 ->
  forall fuel i c, (length ts - i < fuel)%nat -> position_ok t c ->
  (forall j tok, (i <= j)%nat -> ts !! j = Some tok -> kind tok <> Whitespace ->
                 (ppos c <= start tok)%nat) ->
  wp (split_loop ts t d fuel i c) (split_spec i (ppos c)).
Proof.
  intros Hshort. induction fuel as [|fuel IH]; intros i c Hf Hc Hahead; [lia|].
  cbn [split_loop]. destruct (i <? length ts)%nat eqn:Hi; cbn [negb]; boolify.
  2:{ apply split_end. intros n tok Hn Htok. lia. }
  pose proof (skip_kinds_le ts is_trivial i) as Hskip. fold (skip_trivial ts i) in Hskip.
  destruct (ts !! skip_trivial ts i) as [first|] eqn:Hj.
  2:{ apply split_end. apply lookup_ge_None in Hj. intros n tok Hn.
      apply (skip_trivial_between i n). lia. }
  pose proof (lookup_lt_Some _ _ _ Hj) as Hlt. pose proof (skip_trivial_stops i first Hj) as Hnt.
  destruct (wp_elim _ _ (ends_at_slash_ok t ts (skip_trivial ts i) first (slash_enabled d) Hj))
    as (slash & Eslash & _). rewrite Eslash. cbn [rbind]. destruct slash.
  { eapply wp_mono; [apply IH; [lia|done|]|].
    - intros j tok Hge. apply Hahead. lia.
    - intros spans Hsp. by eapply split_slash; [exact Hskip|apply skip_trivial_between|..]. }
  assert (Hns : kind first <> Whitespace) by (intros E; by rewrite E in Hnt).
  pose proof (Hahead _ _ Hskip Hj Hns) as Hpos.
  destruct (token_bounds t ts _ _ Hj) as (_ & Hbs & _).
  wp_by advance_to_ok. intros c1 [Hc1 Ep1].
  wp_by (scan_statement_ok t ts d (skip_trivial ts i) (start first) first). intros o Ho.
  assert (Hok : exists k, outcome_ok t ts d (skip_trivial ts i) (start first) k o)
    by (destruct Ho as [[? _]|?]; eauto).
  destruct Hok as (k & Hok). pose proof (ok_order _ _ _ _ _ _ _ Hok). pose proof (ok_next _ _ _ _ _ _ _ Hok).
  wp_by advance_to_ok; [by eapply ok_full|lia|]. intros c2 [Hc2 Ep2].
  wp_by IH; [lia|rewrite Ep2; intros j tok Hge Htok Hk; by eapply ok_after|].
  intros spans Hspans. cbn [wp]. rewrite Ep2 in Hspans.
  fold (span_of first c1 o).
  eapply split_statement; [exact Hskip|apply skip_trivial_between|done..].
Qed.

(** Where a span comes from. *)
Definition span_source (s : StatementSpan) : Prop :=
  exists j first c o, ts !! j = Some first /\ s = span_of first c o /\
    position_ok t c /\ ppos c = start first /\ statement_outcome t ts d j (start first) o.

Lemma split_spec_source i p spans : split_spec i p spans -> Forall span_source spans.
Proof.
  induction 1 as [| |i j p first c o spans Hij Htr Hj Hnt Hp Hc Hpc Ho _ IH]; [by constructor|done|].
  constructor; [|done]. by exists j, first, c, o.
Qed.

Lemma statement_outcome_ok j cs o :
  statement_outcome t ts d j cs o -> outcome_ok t ts d j cs (out_kind o) o.
Proof. intros [[Ho _]|Ho]; by rewrite (ok_kind _ _ _ _ _ _ _ Ho). Qed.

(** ** Order *)

Fixpoint spans_ordered (p : nat) (l : list StatementSpan) : Prop :=
  match l with
  | [] => True
  | s :: l' =>
      (p <= content_start s /\ content_start s <= content_end s /\
       content_end s <= full_end s /\ full_end s <= blen t)%nat /\ spans_ordered (full_end s) l'
  end.

Lemma split_spec_ordered i p spans : split_spec i p spans -> spans_ordered p spans.
Proof.
  induction 1 as [| |i j p first c o spans Hij Htr Hj Hnt Hp Hc Hpc Ho _ IH]; [done|done|].
  apply statement_outcome_ok in Ho. cbn. pose proof (ok_order _ _ _ _ _ _ _ Ho).
  pose proof (boundary_le _ _ (ok_full _ _ _ _ _ _ _ Ho)). split; [lia|done].
Qed.

Definition span_ok (s : StatementSpan) : Prop :=
  (exists x, content s t = Ret x) /\ (exists y, full s t = Ret y) /\
  terminated s = match ended_by s with
                 | EndOfInput => false
                 | InferredBlockEnd => block_may_end_without_slash d
                 | _ => true
                 end.

Lemma span_source_ok s : span_source s -> span_ok s.
Proof.
  intros (j & first & c & o & Hj & -> & Hc & Hpc & Ho).
  apply statement_outcome_ok in Ho. pose proof (ok_order _ _ _ _ _ _ _ Ho) as Hord.
  destruct (token_bounds t ts _ _ Hj) as (_ & Hbs & _).
  pose proof (ok_content _ _ _ _ _ _ _ Ho) as Hbc. pose proof (ok_full _ _ _ _ _ _ _ Ho) as Hbf.
  unfold span_ok, content, full. cbn. split; [|split].
  - destruct (boundary_slice _ _ _ Hbs Hbc) as (_ & x & _ & _ & _ & _ & ->); [lia|eauto].
  - destruct (boundary_slice _ _ _ Hbs Hbf) as (_ & x & _ & _ & _ & _ & ->); [lia|eauto].
  - apply (ok_flag _ _ _ _ _ _ _ Ho).
Qed.

(** ** Coverage *)

Definition covers (s : StatementSpan) (tok : Token) : Prop :=
  (content_start s <= start tok /\ tend tok <= full_end s)%nat.

Lemma split_spec_covers i p spans n tok :
  split_spec i p spans -> (i <= n)%nat -> ts !! n = Some tok -> is_trivial (kind tok) = false ->
  (exists s, s ∈ spans /\ covers s tok) \/ ends_at_slash t (slash_enabled d) tok = Ret true.
Proof.
  intros Hs Hn Htok Hnt. revert Hn.
  induction Hs as [i p Hend|i j p tok' spans Hij Htr Hj Hsl _ IH
                  |i j p first c o spans Hij Htr Hj Hf Hp Hc Hpc Ho _ IH]; intros Hn.
  - rewrite (Hend n tok) in Hnt; [done| |done]. apply lookup_lt_Some in Htok. lia.
  - destruct (decide (n < j)%nat).
    { rewrite (Htr n tok) in Hnt; [done|lia|done]. }
    destruct (decide (n = j)) as [->|]; [simplify_eq; by right|]. apply IH. lia.
  - destruct (decide (n < j)%nat).
    { rewrite (Htr n tok) in Hnt; [done|lia|done]. }
    destruct (decide (next_i o <= n)%nat).
    { destruct IH as [(s & ? & ?)|?]; [done| |by right]. left. exists s. split; [by right|done]. }
    left. exists (span_of first c o). split; [by left|]. split; cbn.
    + apply (tokens_before t ts j n); done || lia.
    + apply statement_outcome_ok in Ho. apply (ok_before _ _ _ _ _ _ _ Ho n tok Htok). lia.
Qed.

(** ** Plain statements *)

Definition ends_plain (tok : Token) : run bool :=
  let! slash := ends_at_slash t (slash_terminates_plain d) tok in
  if slash then Ret true else is_terminator t d tok.

(** The scan stops at the first token that ends a plain statement. *)
Lemma scan_plain_stops fuel i cs o :
  scan_plain_loop ts t d fuel i cs = Ret o ->
  exists stop, (i <= stop)%nat /\
    (forall j tok, (i <= j < stop)%nat -> ts !! j = Some tok -> ends_plain tok = Ret false) /\
    ((ts !! stop = None /\ o = ran_to_eof ts t Plain) \/
     exists tok, ts !! stop = Some tok /\
       ((is_terminator t d tok = Ret true /\
         o = mkOutcome (start tok) (tend tok) true Terminator (stop + 1) Plain) \/
        end_at_slash_line t tok Plain (stop + 1) cs = Ret o)).
Proof.
  revert i. induction fuel as [|fuel IH]; intros i; [done|]. cbn [scan_plain_loop].
  destruct (ts !! i) as [tok|] eqn:Hi.
  2:{ intros [= <-]. exists i. split; [lia|]. split; [lia|]. by left. }
  destruct (ends_at_slash t (slash_terminates_plain d) tok) as [slash| |] eqn:Es; [|done..].
  cbn [rbind]. destruct slash.
  { intros E. exists i. split; [lia|]. split; [lia|]. right. eauto. }
  destruct (is_terminator t d tok) as [term| |] eqn:Et; [|done..]. cbn [rbind]. destruct term.
  { intros [= <-]. exists i. split; [lia|]. split; [lia|]. right. eauto. }
  intros E. destruct (IH _ E) as (stop & Hge & Hbefore & Hstop). exists stop. split; [lia|].
  split; [|done]. intros j tok' Hj Htok'. destruct (decide (j = i)) as [->|].
  - assert (tok' = tok) as -> by congruence. unfold ends_plain. by rewrite Es.
  - apply (Hbefore j); [lia|done].
Qed.

Definition plain_ok (s : StatementSpan) : Prop :=
  span_kind s = Plain ->
  (forall i tok, ts !! i = Some tok -> (content_start s <= start tok)%nat ->
                 (tend tok <= content_end s)%nat -> ends_plain tok = Ret false) /\
  (ended_by s = Terminator ->
   exists i tok, ts !! i = Some tok /\ is_terminator t d tok = Ret true /\
     start tok = content_end s /\ tend tok = full_end s).

Lemma end_at_slash_line_content tok k next cs o :
  end_at_slash_line t tok k next cs = Ret o -> (cs <= start tok)%nat -> boundary t (start tok) ->
  (out_content_end o <= start tok)%nat /\ out_ended_by o = SlashLine.
Proof.
  intros E Hcs Hb. unfold end_at_slash_line in E.
  destruct (slice_to_boundary _ _ Hb) as (a & b & _ & Ha & Hs). rewrite Hs in E. cbn [rbind] in E.
  destruct (trailing_line_end t (tend tok)) as [f| |]; [|done..]. cbn [rbind] in E.
  injection E as <-. cbn. pose proof (trim_end_le a). split; [lia|done].
Qed.

Lemma span_source_plain s : span_source s -> plain_ok s.
Proof.
  intros (j & first & c & o & Hj & -> & Hc & Hpc & Ho) Hk. cbn in Hk.
  destruct Ho as [[Ho Hscan]|Ho]; [|by rewrite (ok_kind _ _ _ _ _ _ _ Ho) in Hk].
  apply scan_plain_stops in Hscan as (stop & Hge & Hbefore & Hstop). cbn [span_of content_start
    content_end full_end ended_by].
  assert (Hfrom : forall i tok, ts !! i = Some tok -> (start first <= start tok)%nat -> (j <= i)%nat).
  { intros i tok Hi Hle. destruct (decide (j <= i)%nat); [done|].
    pose proof (tiles_ordered _ _ _ _ _ _ _ stream_tiles Hi Hj ltac:(lia)).
    destruct (token_bounds t ts _ _ Hi) as [? _]. lia. }
  assert (Hcut : forall tok, ts !! stop = Some tok -> (out_content_end o <= start tok)%nat ->
    forall i tok', ts !! i = Some tok' -> (tend tok' <= out_content_end o)%nat -> (i < stop)%nat).
  { intros tok Hs Hce i tok' Hi He. destruct (decide (i < stop)%nat); [done|].
    pose proof (tokens_before t ts stop i tok tok' Hs Hi ltac:(lia)).
    destruct (token_bounds t ts _ _ Hi) as [? _]. lia. }
  destruct Hstop as [[Hnone ->]|(tok & Hs & [[Hterm ->]|Hslash])].
  - split; [|done]. intros i tok Hi Hle _. apply (Hbefore i); [|done].
    apply lookup_ge_None in Hnone. pose proof (lookup_lt_Some _ _ _ Hi).
    specialize (Hfrom i tok Hi Hle). lia.
  - split.
    + intros i tok' Hi Hle He. apply (Hbefore i); [|done].
      specialize (Hfrom i tok' Hi Hle). specialize (Hcut tok Hs ltac:(done) i tok' Hi He). lia.
    + intros _. exists stop, tok. done.
  - destruct (end_at_slash_line_content _ _ _ _ _ Hslash) as [Hce Hend].
    { by apply (tokens_before t ts j stop). }
    { by apply (token_bounds t ts stop). }
    split; [|by rewrite Hend]. intros i tok' Hi Hle He. apply (Hbefore i); [|done].
    specialize (Hfrom i tok' Hi Hle). specialize (Hcut tok Hs Hce i tok' Hi He). lia.
Qed.
End Splitting.

(** ** Offsets *)

Lemma is_char_boundary_spec t n : is_char_boundary t n = true <-> boundary t n.
Proof.
  unfold is_char_boundary. split.
  - destruct (split_at t n) as [[a b]|] eqn:E; [|done]. intros _.
    apply split_at_Some in E as [-> <-]. by exists a, b.
  - intros (a & b & -> & <-). by rewrite split_at_app.
Qed.

Lemma floor_char_boundary_spec t n :
  boundary t (floor_char_boundary t n) /\ (floor_char_boundary t n <= n)%nat /\
  forall m, boundary t m -> (m <= n)%nat -> (m <= floor_char_boundary t n)%nat.
Proof.
  induction n as [|n (IH1 & IH2 & IH3)]; cbn [floor_char_boundary].
  - split; [apply boundary_0|]. split; [done|]. lia.
  - destruct (is_char_boundary t (S n)) eqn:E.
    + apply is_char_boundary_spec in E. split; [done|]. split; [lia|]. lia.
    + split; [done|]. split; [lia|]. intros m Hm Hle. apply IH3; [done|].
      destruct (decide (m = S n)) as [->|]; [|lia].
      apply is_char_boundary_spec in Hm. congruence.
Qed.

(** A later slice to the same place is the end of an earlier one. *)
Lemma slice_suffix t n k m x y :
  boundary t n -> boundary t k -> boundary t m -> (n <= k <= m)%nat ->
  slice t n m = Ret x -> slice t k m = Ret y -> exists z, x = z ++ y.
Proof.
  intros Hn Hk Hm Hle Hx Hy.
  destruct (boundary_slice t n k) as (a & z & b & E & Ha & Hz & _); [done..|lia|].
  destruct (boundary_slice t k m) as (a' & y' & b' & E' & Ha' & Hy' & Hs); [done..|lia|].
  rewrite Hs in Hy. injection Hy as <-. rewrite (assoc_L (++)) in E. rewrite E in E'.
  apply app_same_prefix in E' as [<- ->]; [|rewrite blen_app; lia].
  exists z. rewrite E, <- (assoc_L (++)) in Hx.
  replace m with (blen a + blen (z ++ y'))%nat in Hx by (rewrite blen_app; lia).
  rewrite <- Ha, (assoc_L (++) z) in Hx. rewrite slice_app in Hx. congruence.
Qed.

Lemma max_by_full_end_spec l :
  match max_by_full_end l with
  | Some s => s ∈ l /\ forall s', s' ∈ l -> (full_end s' <= full_end s)%nat
  | None => l = []
  end.
Proof.
  induction l as [|s l IH]; cbn [max_by_full_end]; [done|].
  destruct (max_by_full_end l) as [s0|].
  - destruct IH as [Hin Hmax]. case_if as E; (split; [|intros s' [->|Hs']%elem_of_cons]).
    + by right.
    + lia.
    + auto.
    + by left.
    + lia.
    + specialize (Hmax s' Hs'). lia.
  - subst l. split; [by left|]. intros s' [->|?%elem_of_nil]%elem_of_cons; [lia|done].
Qed.

Section Theorems.
Context `{Unicode}.

Lemma split_run t d :
  block_close d <> [] -> Z.of_nat (blen t) < 2 ^ 31 ->
  exists ts spans, tokenize t d = Ret ts /\ TokenStream t ts /\
    split_statements t d = Ret spans /\ split_spec t ts d 0 0 spans.
Proof.
  intros Hd Ht. destruct (tokenize_stream t d Hd) as (ts & E & Hts). exists ts.
  assert (Hp : position_ok t position_new) by (by exists [], t).
  destruct (wp_elim _ _ (split_loop_spec t ts d Ht (loop_bound ts) 0 position_new
    ltac:(unfold loop_bound; lia) Hp ltac:(simpl; lia))) as (spans & Es & Hs).
  exists spans. unfold split_statements. by rewrite E.
Qed.

(** C35: [split_statements] never panics and always returns, on every text below
    2 GiB: not in a slice off a character boundary, not in the position cursor,
    which must never move back, and not in a depth that overflows.  The spans
    are in order and disjoint, each span's content and full text can be sliced,
    and [terminated] is what the reason for the end says. *)
Theorem split_is_safe t d :
  block_close d <> [] -> Z.of_nat (blen t) < 2 ^ 31 ->
  exists spans, split_statements t d = Ret spans /\
    spans_ordered t 0 spans /\ Forall (span_ok t d) spans.
Proof.
  intros Hd Ht. destruct (split_run t d Hd Ht) as (ts & spans & _ & Hts & E & Hs).
  exists spans. split; [done|]. split; [by eapply split_spec_ordered|].
  apply Forall_impl with (span_source t ts d); [by eapply split_spec_source|].
  intros s. by apply span_source_ok.
Qed.

(** C36: No text of a statement is lost: a token that is neither white space nor
    a comment lies in a span, or is a [/] alone on its line that closes nothing. *)
Theorem split_loses_nothing t d :
  block_close d <> [] -> Z.of_nat (blen t) < 2 ^ 31 ->
  exists ts spans, tokenize t d = Ret ts /\ split_statements t d = Ret spans /\
    forall i tok, ts !! i = Some tok -> is_trivial (kind tok) = false ->
      (exists s, s ∈ spans /\ covers s tok) \/
      ends_at_slash t (slash_enabled d) tok = Ret true.
Proof.
  intros Hd Ht. destruct (split_run t d Hd Ht) as (ts & spans & Et & Hts & E & Hs).
  exists ts, spans. split; [done|]. split; [done|]. intros i tok Hi Hnt.
  by apply (split_spec_covers t ts d 0 0 spans i); [|lia|..].
Qed.

(** A plain statement ends where the client would end it: no token inside
    its content is a terminator or an authoritative [/] line, and when a
    terminator ended it, that token is exactly the rest of the full span. *)
Theorem plain_ends_at_first_terminator t d :
  block_close d <> [] -> Z.of_nat (blen t) < 2 ^ 31 ->
  exists ts spans, tokenize t d = Ret ts /\ split_statements t d = Ret spans /\
    Forall (plain_ok t ts d) spans.
Proof.
  intros Hd Ht. destruct (split_run t d Hd Ht) as (ts & spans & Et & Hts & E & Hs).
  exists ts, spans. split; [done|]. split; [done|].
  apply Forall_impl with (span_source t ts d); [by eapply split_spec_source|].
  intros s. by apply span_source_plain.
Qed.

(** Every span's line and column are those of its first character: one plus
    the line breaks before it, and one plus the characters since the last. *)
Theorem span_positions_exact t d :
  block_close d <> [] -> Z.of_nat (blen t) < 2 ^ 31 ->
  exists spans, split_statements t d = Ret spans /\
    Forall (fun s => exists a b, t = a ++ b /\ blen a = content_start s /\
      start_line s = line_of a /\ start_column s = column_of a) spans.
Proof.
  intros Hd Ht. destruct (split_run t d Hd Ht) as (ts & spans & Et & Hts & E & Hs).
  exists spans. split; [done|]. apply Forall_impl with (span_source t ts d); [by eapply split_spec_source|].
  intros s (j & first & c & o & _ & -> & (a & b & Ea & Ha & Hl & Hc) & Hpc & _).
  exists a, b. cbn. by rewrite Ha.
Qed.

(** The statement an editor runs at byte [off]. *)
Definition found (t : str) (spans : list StatementSpan) (off : nat) (r : option StatementSpan) : Prop :=
  let under s := (content_start s <= off <= full_end s)%nat in
  match r with
  | Some s =>
      s ∈ spans /\
      (under s \/
       (full_end s <= off)%nat /\ Forall (fun s' => ~ under s') spans /\
       (forall s', s' ∈ spans -> (full_end s' <= off)%nat -> (full_end s' <= full_end s)%nat) /\
       exists gap, slice t (full_end s) off = Ret gap /\ NEWLINE ∉ gap)
  | None =>
      Forall (fun s => ~ under s) spans /\
      forall s, s ∈ spans -> (full_end s <= off)%nat ->
        exists gap, slice t (full_end s) off = Ret gap /\ NEWLINE ∈ gap
  end.

Lemma existsb_newline (gap : str) : existsb (fun c => c =? NEWLINE) gap = true <-> NEWLINE ∈ gap.
Proof.
  rewrite existsb_exists. split.
  - intros (c & Hc & E). boolify. subst c. by apply list_elem_of_In.
  - intros Hin. exists NEWLINE. split; [by apply list_elem_of_In|done].
Qed.

Lemma elem_of_filter_list (q : StatementSpan -> bool) l s :
  s ∈ List.filter q l <-> s ∈ l /\ q s = true.
Proof. by rewrite !list_elem_of_In, List.filter_In. Qed.

Lemma find_none_under spans off :
  List.find (fun s => (content_start s <=? off)%nat && (off <=? full_end s)%nat) spans = None ->
  Forall (fun s => ~ (content_start s <= off <= full_end s)%nat) spans.
Proof.
  intros Hf. apply Forall_forall. intros s Hin [H1 H2]. apply list_elem_of_In in Hin.
  pose proof (find_none _ _ Hf s Hin) as Hn. simpl in Hn.
  by rewrite (proj2 (Nat.leb_le _ _) H1), (proj2 (Nat.leb_le _ _) H2) in Hn.
Qed.

(** The search of [statement_at] over spans whose ends are boundaries. *)
Lemma statement_search t spans off :
  boundary t off -> Forall (fun s => boundary t (full_end s)) spans ->
  exists r,
    match List.find (fun s => (content_start s <=? off)%nat && (off <=? full_end s)%nat) spans with
    | Some hit => Ret (Some hit)
    | None =>
        match max_by_full_end (List.filter (fun s => (full_end s <=? off)%nat) spans) with
        | None => Ret None
        | Some preceding =>
            let! gap := slice t (full_end preceding) off in
            Ret (if existsb (fun c => c =? NEWLINE) gap then None else Some preceding)
        end
    end = Ret r /\ found t spans off r.
Proof.
  intros Hoff Hb. destruct (List.find _ spans) as [s|] eqn:Ef.
  { apply find_some in Ef as [Hin Hu]. boolify. exists (Some s). split; [done|].
    split; [by apply list_elem_of_In|]. by left. }
  apply find_none_under in Ef.
  pose proof (max_by_full_end_spec (List.filter (fun s => (full_end s <=? off)%nat) spans)) as Hm.
  assert (Hbnd : forall s, s ∈ spans -> boundary t (full_end s)) by (by apply Forall_forall).
  destruct (max_by_full_end _) as [s0|].
  2:{ exists None. split; [done|]. split; [done|]. intros s Hin Hle. exfalso.
      assert (Hin' : s ∈ List.filter (fun s => (full_end s <=? off)%nat) spans)
        by (apply elem_of_filter_list; split; [done|by apply Nat.leb_le]).
      rewrite Hm in Hin'. by apply elem_of_nil in Hin'. }
  destruct Hm as [[Hin0 Hle0]%elem_of_filter_list Hmax]. boolify.
  assert (Hmax' : forall s', s' ∈ spans -> (full_end s' <= off)%nat -> (full_end s' <= full_end s0)%nat).
  { intros s' Hin' Hle'. apply Hmax, elem_of_filter_list. split; [done|by apply Nat.leb_le]. }
  destruct (boundary_slice t (full_end s0) off) as (_ & gap & _ & _ & _ & _ & Eg); [auto..|].
  rewrite Eg. cbn [rbind]. eexists. split; [done|].
  destruct (existsb _ gap) eqn:En.
  - apply existsb_newline in En. split; [done|]. intros s Hin Hle.
    destruct (boundary_slice t (full_end s) off) as (_ & gap' & _ & _ & _ & _ & Eg'); [auto..|].
    exists gap'. split; [done|].
    destruct (slice_suffix t (full_end s) (full_end s0) off gap' gap) as [z ->]; auto.
    apply elem_of_app. by right.
  - split; [done|]. right. split; [done|]. split; [done|]. split; [done|].
    exists gap. split; [done|]. intros Hin. apply existsb_newline in Hin. congruence.
Qed.

(** [statement_at] never panics, whatever the offset.  It rounds the offset
    down to the nearest character boundary of the text, and answers with the
    span there, both ends included; else with the span that ends last before
    it, provided no line break lies in between; else with nothing, and then
    every earlier span is separated by a line break. *)
Theorem statement_at_finds t offset d :
  block_close d <> [] -> Z.of_nat (blen t) < 2 ^ 31 ->
  exists spans off r, split_statements t d = Ret spans /\ statement_at t offset d = Ret r /\
    boundary t off /\ (off <= offset)%nat /\
    (forall n, boundary t n -> (n <= offset)%nat -> (n <= off)%nat) /\
    found t spans off r.
Proof.
  intros Hd Ht. destruct (split_run t d Hd Ht) as (ts & spans & Et & Hts & E & Hs).
  set (off := floor_char_boundary t (Nat.min offset (blen t))).
  destruct (floor_char_boundary_spec t (Nat.min offset (blen t))) as (Hb & Hle & Hmax).
  fold off in Hb, Hle, Hmax.
  assert (Hends : Forall (fun s => boundary t (full_end s)) spans).
  { apply Forall_impl with (span_source t ts d); [by eapply split_spec_source|].
    intros s (j & first & c & o & _ & -> & _ & _ & Ho).
    apply statement_outcome_ok in Ho. apply (ok_full _ _ _ _ _ _ _ Ho). }
  destruct (statement_search t spans off Hb Hends) as (r & Er & Hr).
  exists spans, off, r. split; [done|]. split.
  { unfold statement_at. fold off. rewrite E. exact Er. }
  split; [done|]. split; [lia|]. split; [|done].
  intros n Hn Hno. apply Hmax; [done|]. apply boundary_le in Hn. lia.
Qed.
End Theorems.

(** ** Examples *)

Definition nl : string := String (Ascii.ascii_of_nat 10) EmptyString.
Definition span_texts (t : str) (d : SqlDialect) : list (run str) :=
  match split_statements t d with Ret l => map (fun s => full s t) l | _ => [] end.

Example split_nested_blocks :
  span_texts (lit "BEGIN BEGIN NULL; END; BEGIN NULL; END; END; SELECT ';' FROM t") sql_dialect =
  map (fun s => Ret (lit s))
    ["BEGIN BEGIN NULL; END; BEGIN NULL; END; END;"; "SELECT ';' FROM t"]%string.
Proof. vm_compute. reflexivity. Qed.

Example split_package :
  span_texts (lit ("CREATE PACKAGE BODY p AS PROCEDURE a IS BEGIN NULL; END; " ++
                   "FUNCTION f(x INT DEFAULT CAST(1 AS INT)) RETURN INT IS BEGIN RETURN 1; END; END;"
                   ++ nl ++ "/" ++ nl ++ "COMMIT;")) sql_dialect =
  map (fun s => Ret (lit s))
    ["CREATE PACKAGE BODY p AS PROCEDURE a IS BEGIN NULL; END; " ++
     "FUNCTION f(x INT DEFAULT CAST(1 AS INT)) RETURN INT IS BEGIN RETURN 1; END; END;"
     ++ nl ++ "/" ++ nl; "COMMIT;"]%string.
Proof. vm_compute. reflexivity. Qed.

(** ** Witnesses *)

Definition sample_script : str :=
  lit ("SELECT ';' FROM t;" ++ nl ++ "/" ++ nl ++ "BEGIN NULL; END;" ++ nl ++ "/" ++ nl ++ "COMMIT").

Lemma sample_close : block_close sql_dialect <> [].
Proof. discriminate. Defined.

Lemma sample_short : Z.of_nat (blen sample_script) < 2 ^ 31.
Proof. reflexivity. Defined.

Lemma split_is_safe_witness :
  block_close sql_dialect <> [] /\ Z.of_nat (blen sample_script) < 2 ^ 31 /\
  exists spans, split_statements sample_script sql_dialect = Ret spans /\
    spans_ordered sample_script 0 spans /\ Forall (span_ok sample_script sql_dialect) spans.
Proof.
  split; [exact sample_close|split; [exact sample_short|]].
  exact (split_is_safe sample_script sql_dialect sample_close sample_short).
Defined.

Lemma split_loses_nothing_witness :
  exists ts spans, tokenize sample_script sql_dialect = Ret ts /\
    split_statements sample_script sql_dialect = Ret spans /\
    forall i tok, ts !! i = Some tok -> is_trivial (kind tok) = false ->
      (exists s, s ∈ spans /\ covers s tok) \/
      ends_at_slash sample_script (slash_enabled sql_dialect) tok = Ret true.
Proof. exact (split_loses_nothing sample_script sql_dialect sample_close sample_short). Defined.

Lemma plain_ends_at_first_terminator_witness :
  exists ts spans, tokenize sample_script sql_dialect = Ret ts /\
    split_statements sample_script sql_dialect = Ret spans /\
    Forall (plain_ok sample_script ts sql_dialect) spans.
Proof.
  exact (plain_ends_at_first_terminator sample_script sql_dialect sample_close sample_short).
Defined.

Lemma span_positions_exact_witness :
  exists spans, split_statements sample_script sql_dialect = Ret spans /\
    Forall (fun s => exists a b, sample_script = a ++ b /\ blen a = content_start s /\
      start_line s = line_of a /\ start_column s = column_of a) spans.
Proof. exact (span_positions_exact sample_script sql_dialect sample_close sample_short). Defined.

Lemma statement_at_finds_witness :
  exists spans off r, split_statements sample_script sql_dialect = Ret spans /\
    statement_at sample_script 25 sql_dialect = Ret r /\
    boundary sample_script off /\ (off <= 25)%nat /\
    (forall n, boundary sample_script n -> (n <= 25)%nat -> (n <= off)%nat) /\
    found sample_script spans off r.
Proof. exact (statement_at_finds sample_script 25 sql_dialect sample_close sample_short). Defined.

(** ** Where a [/] line is not authoritative *)

(** After the outermost [END] without its terminator the scan runs to the end
    of the input, past the [/] line and into the next statement. *)
Lemma slash_after_end_is_swallowed :
  span_texts (lit ("BEGIN NULL; END" ++ nl ++ "/" ++ nl ++ "DROP TABLE t;")) sql_dialect =
  [Ret (lit ("BEGIN NULL; END" ++ nl ++ "/" ++ nl ++ "DROP TABLE t;"))].
Proof. vm_compute. reflexivity. Qed.

(** Inside a member's header no [/] line is looked for. *)
Lemma slash_in_header_is_swallowed :
  span_texts (lit ("CREATE PACKAGE p AS PROCEDURE q" ++ nl ++ "/" ++ nl ++ "DROP TABLE t;")) sql_dialect =
  [Ret (lit ("CREATE PACKAGE p AS PROCEDURE q" ++ nl ++ "/" ++ nl ++ "DROP TABLE t;"))].
Proof. vm_compute. reflexivity. Qed.
