(* ===== verification/Settings.v ===== *)
(** * Settings (workspace/src/settings)

    The typed settings: the kinds of value, the registry of descriptors with the
    check every write passes, the layer of values one level sets, and the
    resolution [worksheet ?? profile ?? application ?? built-in].

    A [u32] and a [NonZeroU32] are [Z]; [value_typed] says a value is one its
    Rust type can hold.  A layer's map is a [gmap]; its iteration follows the
    declaration order of [SettingId], which is the order of the source's
    [BTreeMap].  The typed handle [Setting T] carries its type as a phantom and
    the class [SettingType] is the trait. *)

From S2P Require Import Prelude RustStr.
From stdpp Require Import gmap.
Open Scope Z_scope.
Open Scope run_scope.

Definition u32_max : Z := 2 ^ 32 - 1.
Definition is_u32 (z : Z) : bool := (0 <=? z) && (z <=? u32_max).

(** [NonZeroU32::new(z)]. *)
Definition NonZeroU32_new (z : Z) : option Z := if z =? 0 then None else Some z.
Definition is_nonzero_u32 (z : Z) : bool := (1 <=? z) && (z <=? u32_max).

(** ** Values (value.rs) *)

Inductive TimeLimit := Seconds (s : Z) | NoLimit.
Inductive ByteLimit := Bytes (b : Z) | BytesUnlimited.
Inductive EntryLimit := EntryCount (n : Z) | EntriesUnlimited.

Definition seconds (s : Z) : option TimeLimit :=
  match NonZeroU32_new s with Some s => Some (Seconds s) | None => None end.

(** The limit in seconds, [Duration::from_secs] of it. *)
Definition as_duration (l : TimeLimit) : option Z :=
  match l with Seconds s => Some s | NoLimit => None end.

Definition bytes (b : Z) : option ByteLimit :=
  match NonZeroU32_new b with Some b => Some (Bytes b) | None => None end.

Definition count (n : Z) : option EntryLimit :=
  match NonZeroU32_new n with Some n => Some (EntryCount n) | None => None end.

Inductive ValueKind := KBool | KTimeLimit | KCount | KByteLimit | KEntryLimit.

Definition kind_code (k : ValueKind) : Z :=
  match k with KBool => 1 | KTimeLimit => 2 | KCount => 3 | KByteLimit => 4 | KEntryLimit => 5 end.

Definition same_as (a b : ValueKind) : bool := kind_code a =? kind_code b.

Inductive SettingValue :=
| VBool (b : bool)
| VTimeLimit (l : TimeLimit)
| VCount (n : Z)
| VByteLimit (l : ByteLimit)
| VEntryLimit (l : EntryLimit).

Definition value_kind (v : SettingValue) : ValueKind :=
  match v with
  | VBool _ => KBool
  | VTimeLimit _ => KTimeLimit
  | VCount _ => KCount
  | VByteLimit _ => KByteLimit
  | VEntryLimit _ => KEntryLimit
  end.

(** What the Rust types rule out: a number past [u32], a zero limit. *)
Definition value_typed (v : SettingValue) : bool :=
  match v with
  | VCount n => is_u32 n
  | VTimeLimit (Seconds n) | VByteLimit (Bytes n) | VEntryLimit (EntryCount n) => is_nonzero_u32 n
  | _ => true
  end.

Class SettingType (T : Type) := {
  KIND : ValueKind;
  into_value : T -> SettingValue;
  from_value : SettingValue -> option T;
}.
#[global] Arguments KIND T {_}.

#[global] Instance bool_setting : SettingType bool := {
  KIND := KBool;
  into_value := VBool;
  from_value := fun v => match v with VBool b => Some b | _ => None end;
}.

#[global] Instance time_limit_setting : SettingType TimeLimit := {
  KIND := KTimeLimit;
  into_value := VTimeLimit;
  from_value := fun v => match v with VTimeLimit l => Some l | _ => None end;
}.

#[global] Instance u32_setting : SettingType Z := {
  KIND := KCount;
  into_value := VCount;
  from_value := fun v => match v with VCount n => Some n | _ => None end;
}.

#[global] Instance byte_limit_setting : SettingType ByteLimit := {
  KIND := KByteLimit;
  into_value := VByteLimit;
  from_value := fun v => match v with VByteLimit l => Some l | _ => None end;
}.

#[global] Instance entry_limit_setting : SettingType EntryLimit := {
  KIND := KEntryLimit;
  into_value := VEntryLimit;
  from_value := fun v => match v with VEntryLimit l => Some l | _ => None end;
}.

(** The law of the trait: a value is wrapped at its kind and unwrapped only
    from it. *)
Class LawfulSetting (T : Type) `{SettingType T} := {
  into_value_kind : forall x : T, value_kind (into_value x) = KIND T;
  from_into_value : forall x : T, from_value (into_value x) = Some x;
  from_value_kind : forall v, value_kind v = KIND T -> exists x : T, v = into_value x;
}.

#[global] Instance bool_lawful : LawfulSetting bool.
Proof. split; try done. intros []; by eauto. Qed.
#[global] Instance time_limit_lawful : LawfulSetting TimeLimit.
Proof. split; try done. intros []; by eauto. Qed.
#[global] Instance u32_lawful : LawfulSetting Z.
Proof. split; try done. intros []; by eauto. Qed.
#[global] Instance byte_limit_lawful : LawfulSetting ByteLimit.
Proof. split; try done. intros []; by eauto. Qed.
#[global] Instance entry_limit_lawful : LawfulSetting EntryLimit.
Proof. split; try done. intros []; by eauto. Qed.

(** ** Levels (registry.rs) *)

Inductive Level := BuiltIn | Application | ProfileLevel | WorksheetLevel.

(** The derived order: increasing precedence. *)
Definition level_rank (l : Level) : Z :=
  match l with BuiltIn => 0 | Application => 1 | ProfileLevel => 2 | WorksheetLevel => 3 end.

(** A [LevelSet] is its byte. *)
Definition LevelSet := Z.
Definition APPLICATION_BIT : Z := 1.
Definition PROFILE_BIT : Z := 2.
Definition WORKSHEET_BIT : Z := 4.
Definition APPLICATION : LevelSet := APPLICATION_BIT.
Definition APPLICATION_PROFILE : LevelSet := Z.lor APPLICATION_BIT PROFILE_BIT.
Definition ALL_LEVELS : LevelSet := Z.lor (Z.lor APPLICATION_BIT PROFILE_BIT) WORKSHEET_BIT.

Definition contains (s : LevelSet) (l : Level) : bool :=
  match l with
  | BuiltIn => false
  | Application => negb (Z.land s APPLICATION_BIT =? 0)
  | ProfileLevel => negb (Z.land s PROFILE_BIT =? 0)
  | WorksheetLevel => negb (Z.land s WORKSHEET_BIT =? 0)
  end.

Definition levels_iter (s : LevelSet) : list Level :=
  filter (fun l => contains s l = true) [Application; ProfileLevel; WorksheetLevel].

(** ** Descriptors *)

Inductive SettingGroup := GConnection | GExecution | GResults | GServerOutput | GHistory.
Inductive TakesEffect := NextConnection | NextStatement.
Inductive NoLimitConsequence :=
| StatementEndsOnlyByDisconnecting | ConnectWaitsForever | ServerBuffersWithoutLimit
| HistoryFileGrowsWithoutLimit | WholeResultIsFetched | ResultMemoryUnbounded.
Inductive Unlimited := NotAllowed | Allowed (cost : NoLimitConsequence).

Record Bounds := mkBounds { min : Z; max : Z }.

Inductive SettingId :=
| ConnectTimeout | RewriteTriggerDdl | StatementTimeLimit | FetchRows | FetchesInFlight
| ServerOutputEnabled | ServerOutputBufferId | HistoryMaxEntriesPerProfile
| ResultsMaxRows | ResultsMaxBytes | ResultsCloseCursorAtLimit | ResultsRoundTripBytes.

#[global] Instance SettingId_eq_dec : EqDecision SettingId.
Proof. solve_decision. Defined.
#[global] Instance ValueKind_eq_dec : EqDecision ValueKind.
Proof. solve_decision. Defined.
#[global] Instance Level_eq_dec : EqDecision Level.
Proof. solve_decision. Defined.
#[global] Instance TimeLimit_eq_dec : EqDecision TimeLimit.
Proof. solve_decision. Defined.
#[global] Instance ByteLimit_eq_dec : EqDecision ByteLimit.
Proof. solve_decision. Defined.
#[global] Instance EntryLimit_eq_dec : EqDecision EntryLimit.
Proof. solve_decision. Defined.
#[global] Instance SettingValue_eq_dec : EqDecision SettingValue.
Proof. solve_decision. Defined.

(** [SettingId::ALL], in registry order. *)
Definition ALL : list SettingId :=
  [ConnectTimeout; RewriteTriggerDdl; StatementTimeLimit; FetchRows; FetchesInFlight;
   ServerOutputEnabled; ServerOutputBufferId; HistoryMaxEntriesPerProfile;
   ResultsMaxRows; ResultsMaxBytes; ResultsCloseCursorAtLimit; ResultsRoundTripBytes].

(** The index a setting's descriptor is found at. *)
Definition descriptor_index (id : SettingId) : nat :=
  match id with
  | ConnectTimeout => 0 | RewriteTriggerDdl => 1 | StatementTimeLimit => 2 | FetchRows => 3
  | FetchesInFlight => 4 | ServerOutputEnabled => 5 | ServerOutputBufferId => 6
  | HistoryMaxEntriesPerProfile => 7 | ResultsMaxRows => 8 | ResultsMaxBytes => 9
  | ResultsCloseCursorAtLimit => 10 | ResultsRoundTripBytes => 11
  end.

#[global] Program Instance SettingId_countable : Countable SettingId :=
  inj_countable descriptor_index (fun n => ALL !! n) _.
Next Obligation. by intros []. Qed.

Inductive SettingError :=
| LevelNotAllowed (setting : SettingId) (level : Level)
| KindMismatch (setting : SettingId) (expected found : ValueKind)
| OutOfBounds (setting : SettingId) (value : Z) (bounds : Bounds)
| UnlimitedNotAllowed (setting : SettingId).

Record SettingDescriptor := mkDescriptor {
  descriptor_id : SettingId;
  descriptor_key : str;
  group : SettingGroup;
  descriptor_kind : ValueKind;
  default : SettingValue;
  levels : LevelSet;
  bounds : option Bounds;
  unlimited : Unlimited;
  takes_effect : TakesEffect;
}.

(** The number a check bounds, or the answer for a value that has none. *)
Definition check_value (d : SettingDescriptor) (v : SettingValue) : result unit SettingError :=
  if bool_decide (value_kind v <> descriptor_kind d) then
    Err (KindMismatch (descriptor_id d) (descriptor_kind d) (value_kind v))
  else
    let number n :=
      match bounds d with
      | Some b => if (n <? min b) || (max b <? n) then Err (OutOfBounds (descriptor_id d) n b) else Ok tt
      | None => Ok tt
      end in
    match v with
    | VBool _ => Ok tt
    | VCount n => number n
    | VTimeLimit (Seconds n) => number n
    | VByteLimit (Bytes n) => number n
    | VEntryLimit (EntryCount n) => number n
    | VTimeLimit NoLimit | VByteLimit BytesUnlimited | VEntryLimit EntriesUnlimited =>
        match unlimited d with
        | Allowed _ => Ok tt
        | NotAllowed => Err (UnlimitedNotAllowed (descriptor_id d))
        end
    end.

Definition check (d : SettingDescriptor) (l : Level) (v : SettingValue) : result unit SettingError :=
  if negb (contains (levels d) l) then Err (LevelNotAllowed (descriptor_id d) l)
  else check_value d v.

(** ** The registry

    [MOBILE] is whether the build targets a mobile system, which lowers two
    defaults. *)
Class Target := { MOBILE : bool }.

Definition KIB : Z := 1024.
Definition MIB : Z := 1024 * 1024.

Section Registry.
Context `{!Target}.

Definition DESCRIPTORS : list SettingDescriptor :=
  [ {| descriptor_id := ConnectTimeout;
       descriptor_key := lit "connection.connect_timeout"; group := GConnection;
       descriptor_kind := KTimeLimit; default := VTimeLimit (Seconds 15);
       levels := APPLICATION_PROFILE; bounds := Some (mkBounds 1 3600);
       unlimited := Allowed ConnectWaitsForever; takes_effect := NextConnection |};
    {| descriptor_id := RewriteTriggerDdl;
       descriptor_key := lit "connection.rewrite_trigger_ddl"; group := GConnection;
       descriptor_kind := KBool; default := VBool true;
       levels := APPLICATION_PROFILE; bounds := None;
       unlimited := NotAllowed; takes_effect := NextConnection |};
    {| descriptor_id := StatementTimeLimit;
       descriptor_key := lit "execution.statement_time_limit"; group := GExecution;
       descriptor_kind := KTimeLimit; default := VTimeLimit (Seconds 600);
       levels := ALL_LEVELS; bounds := Some (mkBounds 1 86400);
       unlimited := Allowed StatementEndsOnlyByDisconnecting; takes_effect := NextStatement |};
    {| descriptor_id := FetchRows;
       descriptor_key := lit "results.fetch_rows"; group := GResults;
       descriptor_kind := KCount; default := VCount 1000;
       levels := ALL_LEVELS; bounds := Some (mkBounds 1 100000);
       unlimited := NotAllowed; takes_effect := NextStatement |};
    {| descriptor_id := FetchesInFlight;
       descriptor_key := lit "results.fetches_in_flight"; group := GResults;
       descriptor_kind := KCount; default := VCount 2;
       levels := APPLICATION; bounds := Some (mkBounds 1 8);
       unlimited := NotAllowed; takes_effect := NextStatement |};
    {| descriptor_id := ServerOutputEnabled;
       descriptor_key := lit "server_output.enabled"; group := GServerOutput;
       descriptor_kind := KBool; default := VBool false;
       levels := ALL_LEVELS; bounds := None;
       unlimited := NotAllowed; takes_effect := NextStatement |};
    {| descriptor_id := ServerOutputBufferId;
       descriptor_key := lit "server_output.buffer"; group := GServerOutput;
       descriptor_kind := KByteLimit; default := VByteLimit (Bytes 1000000);
       levels := ALL_LEVELS; bounds := Some (mkBounds 2000 (Z.shiftl 1 30));
       unlimited := Allowed ServerBuffersWithoutLimit; takes_effect := NextStatement |};
    {| descriptor_id := HistoryMaxEntriesPerProfile;
       descriptor_key := lit "history.max_entries_per_profile"; group := GHistory;
       descriptor_kind := KEntryLimit; default := VEntryLimit (EntryCount 1000);
       levels := APPLICATION; bounds := Some (mkBounds 1 1000000);
       unlimited := Allowed HistoryFileGrowsWithoutLimit; takes_effect := NextStatement |};
    {| descriptor_id := ResultsMaxRows;
       descriptor_key := lit "results.max_rows"; group := GResults;
       descriptor_kind := KEntryLimit;
       default := VEntryLimit (EntryCount (if MOBILE then 100000 else 1000000));
       levels := ALL_LEVELS; bounds := Some (mkBounds 1 2147483647);
       unlimited := Allowed WholeResultIsFetched; takes_effect := NextStatement |};
    {| descriptor_id := ResultsMaxBytes;
       descriptor_key := lit "results.max_bytes"; group := GResults;
       descriptor_kind := KByteLimit;
       default := VByteLimit (Bytes (if MOBILE then 64 * MIB else 512 * MIB));
       levels := ALL_LEVELS; bounds := Some (mkBounds (16 * MIB) u32_max);
       unlimited := Allowed ResultMemoryUnbounded; takes_effect := NextStatement |};
    {| descriptor_id := ResultsCloseCursorAtLimit;
       descriptor_key := lit "results.close_cursor_at_limit"; group := GResults;
       descriptor_kind := KBool; default := VBool false;
       levels := ALL_LEVELS; bounds := None;
       unlimited := NotAllowed; takes_effect := NextStatement |};
    {| descriptor_id := ResultsRoundTripBytes;
       descriptor_key := lit "results.round_trip_bytes"; group := GResults;
       descriptor_kind := KByteLimit; default := VByteLimit (Bytes (192 * KIB));
       levels := ALL_LEVELS; bounds := Some (mkBounds (16 * KIB) (4 * MIB));
       unlimited := NotAllowed; takes_effect := NextStatement |} ].

(** [id.descriptor()]: an index that is always within the table. *)
Definition descriptor (id : SettingId) : SettingDescriptor :=
  nth (descriptor_index id) DESCRIPTORS
    (mkDescriptor id [] GConnection KBool (VBool false) 0 None NotAllowed NextStatement).

Definition storage_key (id : SettingId) : str := descriptor_key (descriptor id).

Definition from_storage_key (key : str) : option SettingId :=
  find (fun id => str_eqb (storage_key id) key) ALL.

(** ** Typed handles *)

Record Setting (T : Type) := mkSetting { setting_id : SettingId }.
#[global] Arguments mkSetting {T} _.
#[global] Arguments setting_id {T} _.

(** The handle's constructor, whose assertion the compiler evaluates. *)
Definition setting_new {T} `{SettingType T} (id : SettingId) : run (Setting T) :=
  if same_as (KIND T) (descriptor_kind (descriptor id)) then Ret (mkSetting id) else Panic.

Definition default_value {T} `{SettingType T} (s : Setting T) : run T :=
  of_option (from_value (default (descriptor (setting_id s)))).

Definition CONNECT_TIMEOUT : Setting TimeLimit := mkSetting ConnectTimeout.
Definition REWRITE_TRIGGER_DDL : Setting bool := mkSetting RewriteTriggerDdl.
Definition STATEMENT_TIME_LIMIT : Setting TimeLimit := mkSetting StatementTimeLimit.
Definition FETCH_ROWS : Setting Z := mkSetting FetchRows.
Definition FETCHES_IN_FLIGHT : Setting Z := mkSetting FetchesInFlight.
Definition SERVER_OUTPUT_ENABLED : Setting bool := mkSetting ServerOutputEnabled.
Definition SERVER_OUTPUT_BUFFER : Setting ByteLimit := mkSetting ServerOutputBufferId.
Definition HISTORY_MAX_ENTRIES_PER_PROFILE : Setting EntryLimit := mkSetting HistoryMaxEntriesPerProfile.
Definition RESULTS_MAX_ROWS : Setting EntryLimit := mkSetting ResultsMaxRows.
Definition RESULTS_MAX_BYTES : Setting ByteLimit := mkSetting ResultsMaxBytes.
Definition RESULTS_CLOSE_CURSOR_AT_LIMIT : Setting bool := mkSetting ResultsCloseCursorAtLimit.
Definition RESULTS_ROUND_TRIP_BYTES : Setting ByteLimit := mkSetting ResultsRoundTripBytes.

(** ** Layers (layer.rs)

    The level of a layer is a type parameter in the source and an argument of
    the operations that read it here. *)

Definition SettingsLayer := gmap SettingId SettingValue.

Definition layer_new : SettingsLayer := ∅.

Definition get_value (layer : SettingsLayer) (id : SettingId) : option SettingValue := layer !! id.

Definition get {T} `{SettingType T} (layer : SettingsLayer) (s : Setting T) : option T :=
  match layer !! setting_id s with Some v => from_value v | None => None end.

Definition set_value (level : Level) (layer : SettingsLayer) (id : SettingId) (v : SettingValue)
  : result (option SettingValue * SettingsLayer) SettingError :=
  match check (descriptor id) level v with
  | Err e => Err e
  | Ok _ => Ok (layer !! id, <[id := v]> layer)
  end.

Definition set {T} `{SettingType T} (level : Level) (layer : SettingsLayer) (s : Setting T) (x : T)
  : result (option T * SettingsLayer) SettingError :=
  match set_value level layer (setting_id s) (into_value x) with
  | Err e => Err e
  | Ok (previous, layer') =>
      Ok (match previous with Some v => from_value v | None => None end, layer')
  end.

Definition clear (layer : SettingsLayer) (id : SettingId) : option SettingValue * SettingsLayer :=
  (layer !! id, delete id layer).

Definition layer_is_empty (layer : SettingsLayer) : bool := bool_decide (layer = ∅).
Definition layer_len (layer : SettingsLayer) : nat := size layer.

Definition layer_iter (layer : SettingsLayer) : list (SettingId * SettingValue) :=
  omap (fun id => match layer !! id with Some v => Some (id, v) | None => None end) ALL.

(** ** Resolution (resolve.rs) *)

Record Resolved (T : Type) := mkResolved { value : T; source : Level }.
#[global] Arguments mkResolved {T} _ _.
#[global] Arguments value {T} _.
#[global] Arguments source {T} _.

Record ResolveContext := mkContext {
  application : option SettingsLayer;
  profile_layer : option SettingsLayer;
  worksheet_layer : option SettingsLayer;
}.

Definition context_new : ResolveContext := mkContext None None None.
Definition with_application (c : ResolveContext) (l : SettingsLayer) : ResolveContext :=
  mkContext (Some l) (profile_layer c) (worksheet_layer c).
Definition with_profile (c : ResolveContext) (l : SettingsLayer) : ResolveContext :=
  mkContext (application c) (Some l) (worksheet_layer c).
Definition with_worksheet (c : ResolveContext) (l : SettingsLayer) : ResolveContext :=
  mkContext (application c) (profile_layer c) (Some l).

Definition layer_value (level : Level) (layer : option SettingsLayer) (id : SettingId)
  : option (Level * SettingValue) :=
  match layer with
  | Some layer => match get_value layer id with Some v => Some (level, v) | None => None end
  | None => None
  end.

(** The loop over the candidates that are there. *)
Fixpoint first_accepted (d : SettingDescriptor) (candidates : list (option (Level * SettingValue)))
  : Resolved SettingValue :=
  match candidates with
  | [] => mkResolved (default d) BuiltIn
  | None :: rest => first_accepted d rest
  | Some (level, v) :: rest =>
      if contains (levels d) level && result_is_ok (check_value d v) then mkResolved v level
      else first_accepted d rest
  end.

Definition resolve_value (c : ResolveContext) (id : SettingId) : Resolved SettingValue :=
  first_accepted (descriptor id)
    [layer_value WorksheetLevel (worksheet_layer c) id;
     layer_value ProfileLevel (profile_layer c) id;
     layer_value Application (application c) id].

Definition resolve {T} `{SettingType T} (c : ResolveContext) (s : Setting T) : run (Resolved T) :=
  let r := resolve_value c (setting_id s) in
  match from_value (value r) with
  | Some x => Ret (mkResolved x (source r))
  | None => let! x := default_value s in Ret (mkResolved x BuiltIn)
  end.

End Registry.
