(* ===== verification/SettingsClaims.v ===== *)
(** * What the settings guarantee

    The registry is consistent, a layer holds only values its level accepts,
    and the effective value of a setting is the documented one, typed, within
    its bounds and attributed to the level it came from. *)

From stdpp Require Import gmap.
From S2P Require Import Prelude RustStr Settings.
Open Scope Z_scope.

(** A decidable statement about every setting is checked one by one. *)
Lemma SettingId_forallb (P : SettingId -> bool) : forallb P ALL = true -> forall id, P id = true.
Proof.
  intros H id. rewrite forallb_forall in H. apply H. destruct id; simpl; tauto.
Qed.

(** ** The registry *)

Definition descriptor_sound {target : Target} (id : SettingId) : bool :=
  let d := descriptor id in
  bool_decide (descriptor_id d = id)
  && bool_decide (value_kind (default d) = descriptor_kind d)
  && value_typed (default d)
  && result_is_ok (check_value d (default d))
  && negb (bool_decide (levels_iter (levels d) = []))
  && bool_decide (from_storage_key (storage_key id) = Some id)
  && match bounds d with
     | Some b => negb (bool_decide (descriptor_kind d = KBool)) && (1 <=? min b) && (min b <=? max b) && (max b <=? u32_max)
     | None => bool_decide (descriptor_kind d = KBool)
     end.

Lemma descriptor_soundness {target : Target} id : descriptor_sound id = true.
Proof.
  apply (SettingId_forallb descriptor_sound).
  destruct target as [[]]; vm_compute; reflexivity.
Qed.

Section Claims.
Context {target : Target}.

Lemma descriptor_facts id :
  let d := descriptor id in
  descriptor_id d = id /\ from_storage_key (storage_key id) = Some id /\
  value_kind (default d) = descriptor_kind d /\ check_value d (default d) = Ok tt /\
  levels_iter (levels d) <> [] /\
  match bounds d with
  | Some b => descriptor_kind d <> KBool /\ 1 <= min b <= max b /\ max b <= u32_max
  | None => descriptor_kind d = KBool
  end.
Proof.
  cbv zeta. pose proof (descriptor_soundness id) as H. unfold descriptor_sound in H. cbv zeta in H.
  boolify. rewrite ?bool_decide_eq_true, ?bool_decide_eq_false in *.
  split_and!; [done..|by destruct (check_value _ _) as [[]|]|done|].
  destruct (bounds _); boolify; rewrite ?bool_decide_eq_true, ?bool_decide_eq_false in *; [|done].
  split_and!; done || lia.
Qed.

Lemma default_checked id : check_value (descriptor id) (default (descriptor id)) = Ok tt.
Proof. apply descriptor_facts. Qed.

Lemma from_storage_key_of id : from_storage_key (storage_key id) = Some id.
Proof. apply descriptor_facts. Qed.

Lemma from_storage_key_Some key id : from_storage_key key = Some id -> storage_key id = key.
Proof.
  unfold from_storage_key. intros H. apply find_some in H as [_ H].
  unfold str_eqb in H. by apply bool_decide_eq_true in H.
Qed.

Lemma check_value_kind d v : check_value d v = Ok tt -> value_kind v = descriptor_kind d.
Proof. unfold check_value. by case_bool_decide as H. Qed.

Lemma contains_builtin s : contains s BuiltIn = false.
Proof. done. Qed.

(** ** Layers *)

(** Every value of a layer passes its descriptor's check at the layer's level. *)
Definition layer_ok (level : Level) (layer : SettingsLayer) : Prop :=
  map_Forall (fun id v => check (descriptor id) level v = Ok tt) layer.

Lemma layer_new_ok level : layer_ok level layer_new.
Proof. apply map_Forall_empty. Qed.

Lemma set_value_ok level layer id v old layer' :
  layer_ok level layer -> set_value level layer id v = Ok (old, layer') ->
  layer_ok level layer' /\ old = layer !! id /\ layer' = <[id := v]> layer.
Proof.
  unfold set_value. intros Hl. destruct (check _ _ _) as [[]|] eqn:E; [|done].
  intros [= <- <-]. split_and!; [|done..]. by apply map_Forall_insert_2.
Qed.

Lemma clear_ok level layer id : layer_ok level layer -> layer_ok level (clear layer id).2.
Proof. apply map_Forall_delete. Qed.

(** One edit of a layer, as its users can make it. *)
Inductive edit (level : Level) : SettingsLayer -> SettingsLayer -> Prop :=
| edit_set layer id v old layer' :
    set_value level layer id v = Ok (old, layer') -> edit level layer layer'
| edit_clear layer id : edit level layer (clear layer id).2.

Lemma edits_ok level layer : rtc (edit level) layer_new layer -> layer_ok level layer.
Proof.
  revert layer. apply rtc_ind_r; [apply layer_new_ok|].
  intros a b _ [l id v old l' E|l id] Ha; [by eapply set_value_ok|by apply clear_ok].
Qed.

(** ** Resolution *)

Definition rule (c : ResolveContext) (id : SettingId) : Resolved SettingValue :=
  match worksheet_layer c ≫= (.!! id), profile_layer c ≫= (.!! id), application c ≫= (.!! id) with
  | Some v, _, _ => mkResolved v WorksheetLevel
  | None, Some v, _ => mkResolved v ProfileLevel
  | None, None, Some v => mkResolved v Application
  | None, None, None => mkResolved (default (descriptor id)) BuiltIn
  end.

Definition context_ok (c : ResolveContext) : Prop :=
  (forall l, application c = Some l -> layer_ok Application l) /\
  (forall l, profile_layer c = Some l -> layer_ok ProfileLevel l) /\
  (forall l, worksheet_layer c = Some l -> layer_ok WorksheetLevel l).

Lemma layer_value_lookup level layer id :
  layer_value level layer id =
  match layer ≫= (.!! id) with Some v => Some (level, v) | None => None end.
Proof. destruct layer as [l|]; simpl; [|done]. unfold get_value. by destruct (l !! id). Qed.

Lemma layer_value_accepted level layer id v :
  (forall l, layer = Some l -> layer_ok level l) -> layer ≫= (.!! id) = Some v ->
  contains (levels (descriptor id)) level && result_is_ok (check_value (descriptor id) v) = true.
Proof.
  intros Hl Hv. apply bind_Some in Hv as (l & -> & Hv).
  specialize (Hl l eq_refl id v Hv). simpl in Hl. unfold check in Hl.
  destruct (contains _ _); [|done]. simpl in *. by rewrite Hl.
Qed.

Lemma resolve_value_rule c id : context_ok c -> resolve_value c id = rule c id.
Proof.
  intros (Ha & Hp & Hw). unfold resolve_value, rule. rewrite !layer_value_lookup.
  destruct (worksheet_layer c ≫= _) as [v|] eqn:E1; cbn [first_accepted].
  { by rewrite (layer_value_accepted _ _ _ _ Hw E1). }
  destruct (profile_layer c ≫= _) as [v|] eqn:E2; cbn [first_accepted].
  { by rewrite (layer_value_accepted _ _ _ _ Hp E2). }
  destruct (application c ≫= _) as [v|] eqn:E3; cbn [first_accepted]; [|done].
  by rewrite (layer_value_accepted _ _ _ _ Ha E3).
Qed.

(** What the loop returns, for any candidates. *)
Lemma first_accepted_spec d candidates :
  check_value d (default d) = Ok tt ->
  let r := first_accepted d candidates in
  check_value d (value r) = Ok tt /\
  (source r = BuiltIn \/ contains (levels d) (source r) = true).
Proof.
  intros Hd. induction candidates as [|[[level v]|] rest IH]; simpl in *; [by eauto| |done].
  destruct (contains (levels d) level) eqn:Ec; simpl; [|done].
  destruct (check_value d v) as [[]|] eqn:Ev; simpl; [|done]. by eauto.
Qed.

Lemma resolve_value_checked c id : check_value (descriptor id) (value (resolve_value c id)) = Ok tt.
Proof. by apply first_accepted_spec, default_checked. Qed.

Lemma resolve_typed {T} `{LawfulSetting T} c (s : Setting T) :
  KIND T = descriptor_kind (descriptor (setting_id s)) ->
  exists x, resolve c s = Ret (mkResolved x (source (resolve_value c (setting_id s)))) /\
            into_value x = value (resolve_value c (setting_id s)).
Proof.
  intros Hk. unfold resolve.
  pose proof (check_value_kind _ _ (resolve_value_checked c (setting_id s))) as Hv.
  destruct (from_value_kind (value (resolve_value c (setting_id s)))) as [x Hx]; [congruence|].
  exists x. by rewrite Hx, from_into_value.
Qed.

(** C28: The effective value of a setting is the value set at the highest level
    that sets it: the worksheet's, else the profile's, else the application's,
    else the built-in default, attributed to that level.  This holds for all
    layers made by setting and clearing values, whatever was set and refused on
    the way, and typed reads return it without reaching an unreachable branch. *)
Theorem settings_resolve_by_precedence {T} `{LawfulSetting T} c (s : Setting T)
  (application_edits : forall l, application c = Some l -> rtc (edit Application) layer_new l)
  (profile_edits : forall l, profile_layer c = Some l -> rtc (edit ProfileLevel) layer_new l)
  (worksheet_edits : forall l, worksheet_layer c = Some l -> rtc (edit WorksheetLevel) layer_new l)
  (handle : setting_new (setting_id s) = Ret s) :
  let r := rule c (setting_id s) in
  resolve_value c (setting_id s) = r /\
  check_value (descriptor (setting_id s)) (value r) = Ok tt /\
  exists x, resolve c s = Ret (mkResolved x (source r)) /\ into_value x = value r.
Proof.
  assert (context_ok c) as Hc by (split_and!; intros; eapply edits_ok; eauto).
  cbv zeta. rewrite <- (resolve_value_rule c (setting_id s) Hc).
  split_and!; [done|apply resolve_value_checked|]. apply resolve_typed.
  unfold setting_new, same_as in handle. destruct (_ =? _) eqn:E; [|done]. boolify.
  by destruct (KIND T), (descriptor_kind _).
Qed.

(** Whatever a context's layers hold (a value of another kind, out of
    bounds, at a level the setting does not allow), the effective value passes
    the setting's check and comes from a level the setting allows, and no higher
    level holds a value that does both. *)
Theorem resolution_ignores_bad_values c id :
  let d := descriptor id in let r := resolve_value c id in
  check_value d (value r) = Ok tt /\
  (source r = BuiltIn \/ contains (levels d) (source r) = true) /\
  forall level layer v,
    (level, layer) ∈ [(WorksheetLevel, worksheet_layer c); (ProfileLevel, profile_layer c);
                      (Application, application c)] ->
    layer ≫= (.!! id) = Some v -> level_rank (source r) < level_rank level ->
    contains (levels d) level = false \/ check_value d v <> Ok tt.
Proof.
  cbv zeta. split; [apply resolve_value_checked|]. split; [by apply first_accepted_spec, default_checked|].
  intros level layer v Hin Hv Hr.
  destruct (contains (levels (descriptor id)) level) eqn:Ec; [|by left]. right. intros Ek. revert Hr.
  unfold resolve_value. rewrite !layer_value_lookup.
  rewrite !elem_of_cons, elem_of_nil in Hin.
  destruct (worksheet_layer c ≫= _) as [w|] eqn:Ew, (profile_layer c ≫= _) as [p|] eqn:Ep,
    (application c ≫= _) as [a|] eqn:Ea;
    destruct Hin as [[= -> ->]|[[= -> ->]|[[= -> ->]|[]]]]; simplify_eq; cbn [first_accepted];
    rewrite ?Ec, ?Ek; cbn [result_is_ok andb]; repeat case_match; cbn [source level_rank]; lia.
Qed.

(** The registry is consistent: every descriptor is found under its own
    setting and under its storage key, its default is of its kind and accepted
    by its own check, it can be set at some level, and its bounds are those of a
    non-zero [u32] exactly when it holds a number. *)
Theorem registry_consistent id :
  let d := descriptor id in
  descriptor_id d = id /\ from_storage_key (storage_key id) = Some id /\
  value_kind (default d) = descriptor_kind d /\ check_value d (default d) = Ok tt /\
  (exists level, contains (levels d) level = true) /\
  match bounds d with
  | Some b => descriptor_kind d <> KBool /\ 1 <= min b <= max b /\ max b <= u32_max
  | None => descriptor_kind d = KBool
  end.
Proof.
  cbv zeta. destruct (descriptor_facts id) as (? & ? & ? & ? & Hl & ?).
  split_and!; [done..| |done].
  destruct (levels_iter _) as [|l ls] eqn:E; [done|]. exists l.
  assert (l ∈ levels_iter (levels (descriptor id))) as Hin by (rewrite E; left).
  by apply list_elem_of_filter in Hin as [? _].
Qed.

End Claims.

(** ** Witnesses *)

#[local] Instance sample_target : Target := {| MOBILE := false |}.

(** A page size of the application, another of the worksheet. *)
Definition sample_layer (n : Z) : SettingsLayer := <[FetchRows := VCount n]> layer_new.
Definition sample_context : ResolveContext := mkContext (Some (sample_layer 100)) None (Some (sample_layer 200)).

Lemma settings_resolve_by_precedence_witness :
  resolve sample_context FETCH_ROWS = Ret (mkResolved 200 WorksheetLevel).
Proof.
  destruct (settings_resolve_by_precedence sample_context FETCH_ROWS) as (_ & _ & x & -> & Hx).
  - intros l [= <-]. apply rtc_once, (edit_set Application layer_new FetchRows (VCount 100) None). evaluate.
  - intros l [=].
  - intros l [= <-]. apply rtc_once, (edit_set WorksheetLevel layer_new FetchRows (VCount 200) None). evaluate.
  - evaluate.
  - vm_compute in Hx. injection Hx as ->. evaluate.
Defined.

(** A value of another kind in the worksheet's layer is passed over. *)
Lemma resolution_ignores_bad_values_witness :
  check_value (descriptor FetchRows) (VBool true) <> Ok tt /\
  resolve_value (mkContext (Some (sample_layer 100)) None (Some (<[FetchRows := VBool true]> layer_new))) FetchRows
  = mkResolved (VCount 100) Application.
Proof.
  split; [|evaluate].
  destruct (resolution_ignores_bad_values
    (mkContext (Some (sample_layer 100)) None (Some (<[FetchRows := VBool true]> layer_new))) FetchRows) as (_ & _ & H).
  destruct (H WorksheetLevel (Some (<[FetchRows := VBool true]> layer_new)) (VBool true)) as [E|E].
  - left.
  - evaluate.
  - vm_compute; reflexivity.
  - vm_compute in E. discriminate.
  - exact E.
Defined.
