(* ===== verification/RustText.v ===== *)
(** * More of [&str]: searching, splitting and case

    The string methods the workspace and the Oracle driver use.  A [find]
    followed by slices at what it found is a split of the text, so the searches
    here return the parts: [break_char] for [find] of a character class,
    [break_str] for [find] and [split_once] of a text, [rbreak_char] for
    [rfind].  [break_char_find] and [break_str_slices] relate them to the byte
    offsets.  [char::to_lowercase] and [char::to_uppercase] are Unicode tables:
    what the sources rely on is the class [CaseMap]. *)

From S2P Require Import Prelude RustStr.
Open Scope Z_scope.
Open Scope run_scope.

(** ** Definitions *)

(** The text before the first character satisfying [p], and the rest from it. *)
Fixpoint break_char (p : char -> bool) (s : str) : str * str :=
  match s with
  | [] => ([], [])
  | c :: s' => if p c then ([], s) else let (a, b) := break_char p s' in (c :: a, b)
  end.

(** [s.strip_prefix(p)], [s.strip_suffix(p)]. *)
Fixpoint strip_prefix (s p : str) {struct p} : option str :=
  match p, s with
  | [], _ => Some s
  | c :: p', d :: s' => if c =? d then strip_prefix s' p' else None
  | _ :: _, [] => None
  end.
Definition strip_suffix (s p : str) : option str :=
  match strip_prefix (rev s) (rev p) with Some r => Some (rev r) | None => None end.

(** The text before the first occurrence of [p], and the text after it. *)
Fixpoint break_str (p s : str) {struct s} : option (str * str) :=
  match strip_prefix s p with
  | Some rest => Some ([], rest)
  | None =>
      match s with
      | [] => None
      | c :: s' => match break_str p s' with Some (a, b) => Some (c :: a, b) | None => None end
      end
  end.

(** [s.contains(p)]. *)
Definition str_contains (s p : str) : bool :=
  match break_str p s with Some _ => true | None => false end.

(** The text before the last character satisfying [p], and the text after it. *)
Fixpoint rbreak_char (p : char -> bool) (s : str) : option (str * str) :=
  match s with
  | [] => None
  | c :: s' =>
      match rbreak_char p s' with
      | Some (a, b) => Some (c :: a, b)
      | None => if p c then Some ([], s') else None
      end
  end.

(** [s.trim_start_matches(c)]. *)
Fixpoint trim_start_char (c : char) (s : str) : str :=
  match s with [] => [] | d :: s' => if c =? d then trim_start_char c s' else s end.

(** [char::is_control]: general category Cc. *)
Definition is_control (c : char) : bool :=
  ((0 <=? c) && (c <=? 31)) || ((127 <=? c) && (c <=? 159)).

Definition is_ascii_alphanumeric (c : char) : bool := is_ascii_alphabetic c || is_ascii_digit c.

Definition to_ascii_uppercase (c : char) : char := if (97 <=? c) && (c <=? 122) then c - 32 else c.

(** The full case mappings, known on ASCII. *)
Class CaseMap := {
  to_lowercase : char -> str;
  to_uppercase : char -> str;
  to_lowercase_ascii : forall c, 0 <= c < 128 -> to_lowercase c = [to_ascii_lowercase c];
  to_uppercase_ascii : forall c, 0 <= c < 128 -> to_uppercase c = [to_ascii_uppercase c];
}.

#[export] Instance ascii_case : CaseMap := {
  to_lowercase := fun c => [to_ascii_lowercase c];
  to_uppercase := fun c => [to_ascii_uppercase c];
  to_lowercase_ascii := fun _ _ => eq_refl;
  to_uppercase_ascii := fun _ _ => eq_refl;
}.

Definition str_uppercase `{CaseMap} (s : str) : str := flat_map to_uppercase s.

(** ** Lemmas *)

(** [p] occurs in [s]. *)
Definition occurs (p s : str) : Prop := exists a b, s = a ++ p ++ b.

Lemma break_char_spec p s a b :
  break_char p s = (a, b) ->
  s = a ++ b /\ Forall (fun c => p c = false) a /\ (forall c, head b = Some c -> p c = true).
Proof.
  revert a b. induction s as [|c s IH]; intros a b; simpl; [by intros [= <- <-]|].
  destruct (p c) eqn:E.
  - intros [= <- <-]. split_and!; [done|done|]. by intros ? [= <-].
  - destruct (break_char p s) as [a' b']. intros [= <- <-].
    destruct (IH a' b' eq_refl) as (-> & ? & ?). split_and!; [done|by constructor|done].
Qed.

Lemma break_char_app p a c b :
  Forall (fun c => p c = false) a -> p c = true -> break_char p (a ++ c :: b) = (a, c :: b).
Proof. induction 1 as [|d a Hd _ IH]; intros Hc; simpl; [by rewrite Hc|]. by rewrite Hd, IH. Qed.

Lemma break_char_all p a : Forall (fun c => p c = false) a -> break_char p a = (a, []).
Proof. induction 1 as [|d a Hd _ IH]; simpl; [done|]. by rewrite Hd, IH. Qed.

(** [find] and the slices at what it finds are [break_char]. *)
Lemma break_char_find p s n :
  find_byte p s = Some n ->
  slice_to s n = Ret (break_char p s).1 /\ slice_from s n = Ret (break_char p s).2.
Proof.
  intros H. apply find_byte_Some in H as (a & c & b & -> & <- & Hc & Ha).
  by rewrite slice_to_app, slice_from_app, break_char_app.
Qed.

Lemma strip_prefix_Some s p r : strip_prefix s p = Some r <-> s = p ++ r.
Proof.
  revert s. induction p as [|c p IH]; intros s; simpl; [naive_solver|].
  destruct s as [|d s]; [naive_solver|]. destruct (c =? d) eqn:E; boolify; [|naive_solver].
  rewrite IH. naive_solver.
Qed.

Lemma strip_suffix_Some s p r : strip_suffix s p = Some r <-> s = r ++ p.
Proof.
  unfold strip_suffix. destruct (strip_prefix (rev s) (rev p)) as [q|] eqn:E.
  - apply strip_prefix_Some in E. apply (f_equal (@rev Z)) in E.
    rewrite rev_app_distr, !rev_involutive in E. subst s. split; [by intros [= ->]|].
    intros H. f_equal. by apply app_inv_tail in H.
  - split; [done|]. intros ->. rewrite rev_app_distr in E.
    assert (strip_prefix (rev p ++ rev r) (rev p) = Some (rev r)) as H by (by apply strip_prefix_Some).
    congruence.
Qed.

Lemma break_str_Some p s a b :
  break_str p s = Some (a, b) ->
  s = a ++ p ++ b /\ forall a' b', s = a' ++ p ++ b' -> (length a <= length a')%nat.
Proof.
  revert a. induction s as [|c s IH]; intros a; simpl.
  - destruct (strip_prefix [] p) as [r|] eqn:E; [|done]. intros [= <- <-].
    apply strip_prefix_Some in E. split; [done|]. simpl. lia.
  - destruct (strip_prefix (c :: s) p) as [r|] eqn:E.
    { intros [= <- <-]. apply strip_prefix_Some in E. split; [done|]. simpl. lia. }
    destruct (break_str p s) as [[a' b']|]; [|done]. intros [= <- <-].
    destruct (IH a' eq_refl) as [-> Hmin]. split; [done|].
    intros [|d a''] b'' Hs; simpl in *.
    { apply (proj2 (strip_prefix_Some _ _ _)) in Hs. simpl in *. congruence. }
    simplify_eq. match goal with H : _ = _ |- _ => specialize (Hmin _ _ H) end. lia.
Qed.

Lemma break_str_None p s : break_str p s = None -> ~ occurs p s.
Proof.
  induction s as [|c s IH]; simpl; intros H (a & b & Hs).
  - destruct (strip_prefix [] p) as [r|] eqn:E; [done|].
    destruct a; [|done]. simpl in Hs. apply (proj2 (strip_prefix_Some _ _ _)) in Hs. simpl in *. congruence.
  - destruct (strip_prefix (c :: s) p) as [r|] eqn:E; [done|].
    destruct (break_str p s) as [[a' b']|]; [done|].
    destruct a as [|d a]; simpl in Hs.
    { apply strip_prefix_Some in Hs. congruence. }
    simplify_eq. apply IH; [done|]. by exists a, b.
Qed.

Lemma break_str_slices p s a b :
  break_str p s = Some (a, b) -> slice_to s (blen a) = Ret a /\ slice_from s (blen a + blen p) = Ret b.
Proof.
  intros H. apply break_str_Some in H as [-> _]. rewrite slice_to_app. split; [done|].
  rewrite app_assoc, <- blen_app. apply slice_from_app.
Qed.

Lemma str_contains_true s p : str_contains s p = true <-> occurs p s.
Proof.
  unfold str_contains. destruct (break_str p s) as [[a b]|] eqn:E.
  - apply break_str_Some in E as [E _]. split; [|done]. intros _. by exists a, b.
  - split; [done|]. by intros ?%(break_str_None p s).
Qed.

Lemma str_contains_false s p : str_contains s p = false <-> ~ occurs p s.
Proof. rewrite <- str_contains_true. by destruct (str_contains s p). Qed.

Lemma rbreak_char_Some p s a b :
  rbreak_char p s = Some (a, b) ->
  exists c, s = a ++ c :: b /\ p c = true /\ Forall (fun c => p c = false) b.
Proof.
  assert (HN : forall t, rbreak_char p t = None -> Forall (fun c => p c = false) t).
  { induction t as [|c t IH]; simpl; [constructor|].
    destruct (rbreak_char p t) as [[]|]; [done|]. destruct (p c) eqn:E; [done|]. constructor; auto. }
  revert a. induction s as [|c s IH]; intros a; simpl; [done|].
  destruct (rbreak_char p s) as [[a' b']|] eqn:E.
  - intros [= <- <-]. destruct (IH a' eq_refl) as (d & -> & ? & ?). by exists d.
  - destruct (p c) eqn:Ec; [|done]. intros [= <- <-]. exists c. auto.
Qed.

Lemma rbreak_char_None p s : rbreak_char p s = None -> Forall (fun c => p c = false) s.
Proof.
  induction s as [|c s IH]; simpl; [constructor|].
  destruct (rbreak_char p s) as [[]|]; [done|]. destruct (p c) eqn:E; [done|]. constructor; auto.
Qed.

Lemma occurs_app_l p a b : occurs p a -> occurs p (a ++ b).
Proof. intros (x & y & ->). exists x, (y ++ b). by rewrite <- !app_assoc. Qed.

Lemma occurs_app_r p a b : occurs p b -> occurs p (a ++ b).
Proof. intros (x & y & ->). exists (a ++ x), y. by rewrite <- app_assoc. Qed.

Lemma occurs_prefix p q s : occurs (p ++ q) s -> occurs p s.
Proof. intros (a & b & ->). exists a, (q ++ b). by rewrite <- app_assoc. Qed.

Lemma trim_start_no_ws c s : head (trim_start s) = Some c -> is_whitespace c = false.
Proof.
  induction s as [|d s IH]; simpl; [done|]. destruct (is_whitespace d) eqn:E; [done|].
  simpl. congruence.
Qed.
