(* ===== verification/Ids.v ===== *)
(** * Identifiers (workspace/src/ids.rs, time.rs)

    Profiles and worksheets are named by UUIDs.  The [uuid] crate is the class
    [Uuid], with what its documentation promises: the hyphenated form has 36
    characters of hexadecimal digits and hyphens, in lower case, and reads back
    in either case.  A millisecond count of the wall clock is a [Z]. *)

From S2P Require Import Prelude RustStr.
Open Scope Z_scope.

(** [to_ascii_lowercase] of a whole text, and SQLite's [NOCASE] comparison. *)
Definition lower (s : str) : str := map to_ascii_lowercase s.
Definition nocase (a b : str) : bool := str_eqb (lower a) (lower b).

Class Uuid := {
  uuid : Type;
  uuid_eq_dec :: EqDecision uuid;
  uuid_nil : uuid;
  hyphenated : uuid -> str;
  try_parse : str -> option uuid;
  uuid_from_bytes : list Z -> uuid;
  uuid_as_bytes : uuid -> list Z;
  hyphenated_length : forall u, length (hyphenated u) = 36%nat;
  hyphenated_ascii : forall u, Forall (fun c => 0 < c < 128) (hyphenated u);
  hyphenated_lower : forall u, lower (hyphenated u) = hyphenated u;
  try_parse_hyphenated : forall u, try_parse (hyphenated u) = Some u;
  try_parse_nocase : forall a b, lower a = lower b -> try_parse a = try_parse b;
  from_as_bytes : forall u, uuid_from_bytes (uuid_as_bytes u) = u;
}.

Inductive IdError := IdMalformed | IdNil.

Section Ids.
Context {U : Uuid}.

Definition is_nil (u : uuid) : bool := bool_decide (u = uuid_nil).

Definition parse_uuid (text : str) : result uuid IdError :=
  if negb (blen text =? 36)%nat then Err IdMalformed
  else match try_parse text with
  | None => Err IdMalformed
  | Some u => if is_nil u then Err IdNil else Ok u
  end.

(** A [ProfileId], a [WorksheetId] and a [CredentialKey] wrap a UUID that is
    not nil. *)
Definition ProfileId := uuid.
Definition WorksheetId := uuid.
Definition id_parse (text : str) : result uuid IdError := parse_uuid text.

Definition id_from_bytes (bytes : list Z) : result uuid IdError :=
  let u := uuid_from_bytes bytes in if is_nil u then Err IdNil else Ok u.

Definition id_as_bytes (u : uuid) : list Z := uuid_as_bytes u.
Definition id_to_string (u : uuid) : str := hyphenated u.

Definition CredentialKey := ProfileId.
Definition for_profile (p : ProfileId) : CredentialKey := p.

(** ** Lemmas *)

Lemma ascii_blen (s : str) : Forall (fun c => 0 < c < 128) s -> blen s = length s.
Proof.
  induction 1 as [|c s Hc _ IH]; [done|]. cbn [blen length]. rewrite IH.
  #[local] Transparent len_utf8. unfold len_utf8. rewrite (proj2 (Z.ltb_lt c 0x80)) by lia. done.
Qed.

Lemma parse_hyphenated u : u <> uuid_nil -> id_parse (id_to_string u) = Ok u.
Proof.
  intros Hu. unfold id_parse, id_to_string, parse_uuid.
  rewrite ascii_blen by apply hyphenated_ascii. rewrite hyphenated_length. simpl.
  rewrite try_parse_hyphenated. unfold is_nil. by rewrite bool_decide_eq_false_2.
Qed.

Lemma id_parse_Ok text u : id_parse text = Ok u -> try_parse text = Some u /\ u <> uuid_nil.
Proof.
  unfold id_parse, parse_uuid. destruct (negb _); [done|]. destruct (try_parse text) as [v|]; [|done].
  unfold is_nil. case_bool_decide; [done|]. naive_solver.
Qed.

Lemma nocase_refl a : nocase a a = true.
Proof. by apply bool_decide_eq_true. Qed.

Lemma nocase_sym a b : nocase a b = nocase b a.
Proof. unfold nocase, str_eqb. apply bool_decide_ext. split; congruence. Qed.

Lemma nocase_true a b : nocase a b = true <-> lower a = lower b.
Proof. apply bool_decide_eq_true. Qed.

Lemma lower_lower a : lower (lower a) = lower a.
Proof.
  unfold lower. rewrite map_map. apply map_ext. intros c. unfold to_ascii_lowercase.
  destruct ((65 <=? c) && (c <=? 90)) eqn:E; [|by rewrite E]. boolify.
  rewrite (proj2 (Z.leb_gt (c + 32) 90)) by lia. by rewrite andb_false_r.
Qed.

Lemma blen_lower a : blen (lower a) = blen a.
Proof.
  induction a as [|c a IH]; [done|]. cbn [lower map blen]. fold (lower a). rewrite IH. f_equal.
  unfold to_ascii_lowercase. destruct ((65 <=? c) && (c <=? 90)) eqn:E; [|done]. boolify.
  unfold len_utf8. by rewrite !(proj2 (Z.ltb_lt _ 0x80)) by lia.
Qed.

Lemma id_parse_nocase a b : lower a = lower b -> id_parse a = id_parse b.
Proof.
  intros H. unfold id_parse, parse_uuid. rewrite (try_parse_nocase a b H), <- (blen_lower a), H. by rewrite blen_lower.
Qed.

(** Two identifiers have the same text, whatever its case, only when they are
    the same. *)
Lemma nocase_hyphenated u v : nocase (hyphenated u) (hyphenated v) = true <-> u = v.
Proof.
  rewrite nocase_true. split; [|by intros ->]. intros H. apply try_parse_nocase in H.
  rewrite !try_parse_hyphenated in H. by simplify_eq.
Qed.

Lemma hyphenated_inj u v : hyphenated u = hyphenated v -> u = v.
Proof. intros H. apply nocase_hyphenated. rewrite H. apply nocase_refl. Qed.

End Ids.

(** ** A small instance, to run the definitions *)

Inductive SampleId := Nil | IdA | IdB | IdC.
#[global] Instance SampleId_eq_dec : EqDecision SampleId.
Proof. solve_decision. Defined.

Definition sample_text (u : SampleId) : str :=
  lit match u with
  | Nil => "00000000-0000-0000-0000-000000000000"
  | IdA => "0a000000-0000-4000-8000-00000000000a"
  | IdB => "0b000000-0000-4000-8000-00000000000b"
  | IdC => "0c000000-0000-4000-8000-00000000000c"
  end%string.

Definition sample_bytes (u : SampleId) : list Z :=
  match u with Nil => [0] | IdA => [1] | IdB => [2] | IdC => [3] end.
Definition sample_of_bytes (b : list Z) : SampleId :=
  match b with [1] => IdA | [2] => IdB | [3] => IdC | _ => Nil end.

#[global] Program Instance sample_uuid : Uuid := {
  uuid := SampleId;
  uuid_nil := Nil;
  hyphenated := sample_text;
  try_parse := fun s => find (fun u => nocase (sample_text u) s) [Nil; IdA; IdB; IdC];
  uuid_from_bytes := sample_of_bytes;
  uuid_as_bytes := sample_bytes;
}.
Next Obligation. by intros []. Qed.
Next Obligation. intros []; repeat constructor; done. Qed.
Next Obligation. by intros []. Qed.
Next Obligation. by intros []. Qed.
Next Obligation. intros a b H. simpl. unfold nocase. by rewrite H. Qed.
Next Obligation. by intros []. Qed.
