(* ===== verification/Profile.v ===== *)
(** * Connection profiles (workspace/src/profile.rs)

    What the user saved about a database, the validation every profile passes,
    and the guard against credential-looking text in an endpoint.  A path is a
    Unicode text or raw bytes that are none. *)

From S2P Require Import Prelude RustStr RustText Ids.
Open Scope Z_scope.

Definition MAX_FIELD_BYTES : nat := Z.to_nat (16 * 1024).
Definition MAX_NAME_CHARS : nat := 200.

Inductive DatabaseType := Oracle.

Inductive Environment :=
| Development | Test | Uat | Staging | Production
| Custom (label : str).

Definition production_by_default (e : Environment) : bool :=
  match e with Production => true | _ => false end.

Definition production_flag_is_settable (e : Environment) : bool :=
  match e with Custom _ => true | _ => false end.

Inductive ServiceTarget := ServiceName (s : str) | Sid (s : str).

Inductive ProfileEndpoint :=
| HostPort (host : str) (port : Z) (target : ServiceTarget)
| ConnectString (text : str).

Inductive PasswordStorage := CredentialStore | PromptEachTime.

Inductive Authentication :=
| Password (username : str) (storage : PasswordStorage)
| External.

Inductive Transport := Plain | Tls.

(** [SessionRole] of the driver contract. *)
Inductive SessionRole := NormalRole | SysDba | SysOper.

Inductive PathBuf := PathText (s : str) | PathRaw (raw : list Z).
Definition to_str (p : PathBuf) : option str :=
  match p with PathText s => Some s | PathRaw _ => None end.

Record TlsOptions := mkTls {
  transport : Transport;
  ca_directory : option PathBuf;
  allow_unenforced_certificate_pin : bool;
}.

Definition tls_default : TlsOptions := mkTls Plain None false.

Record ProfileDetails := mkDetails {
  name : str;
  database : DatabaseType;
  environment : Environment;
  treat_as_production : bool;
  endpoint : ProfileEndpoint;
  authentication : Authentication;
  role : SessionRole;
  tls : TlsOptions;
}.

Definition details_new (n : str) (d : DatabaseType) (e : Environment) (p : ProfileEndpoint)
  (a : Authentication) : ProfileDetails :=
  mkDetails n d e (production_by_default e) p a NormalRole tls_default.

Inductive CredentialPattern := WalletPassword | QueryParameter | PasswordKeyword | UserPasswordPrefix.

Inductive ProfileField :=
| Name | EnvironmentLabel | Host | FServiceName | FSid | FConnectString | Username | CaDirectory.

Inductive ProfileError :=
| Empty (field : ProfileField)
| TooLong (field : ProfileField)
| ControlCharacter (field : ProfileField)
| PortZero
| PathNotUnicode
| CredentialInEndpoint (field : ProfileField) (pattern : CredentialPattern)
| ProductionFlagMismatch.

(** ** The credential guard *)

Section Guard.
Context {CM : CaseMap}.

(** The text without white space, in lower case. *)
Definition squeezed (text : str) : str :=
  flat_map to_lowercase (filter (fun c => is_whitespace c = false) text).

Definition SLASH : char := 47.
Definition AT : char := 64.
Definition prefix_free (c : char) : bool := (c =? AT) || (c =? 40) || (c =? 41).

(** The [user/password@] prefix: [split_once('/')], then [find('@')]. *)
Definition user_password_prefix (s : str) : bool :=
  match break_str [SLASH] s with
  | None => false
  | Some (prefix, rest) =>
      let prefix_ok := negb (bool_decide (prefix = [])) && negb (existsb prefix_free prefix) in
      match break_str [AT] rest with
      | Some (before, _) => prefix_ok && negb (bool_decide (before = []))
      | None => false
      end
  end.

Definition credential_find (text : str) : option CredentialPattern :=
  let s := squeezed text in
  if str_contains s (lit "wallet_password=") then Some WalletPassword
  else if str_contains s (lit "?password=") || str_contains s (lit "&password=") then Some QueryParameter
  else if str_contains s (lit "password=") then Some PasswordKeyword
  else if user_password_prefix s then Some UserPasswordPrefix
  else None.

(** ** Validation *)

Definition allows_line_breaks (field : ProfileField) : bool :=
  match field with FConnectString => true | _ => false end.

Definition is_line_break (c : char) : bool := (c =? 10) || (c =? 13) || (c =? 9).

Definition check_text (field : ProfileField) (text : str) : result unit ProfileError :=
  if bool_decide (trim text = []) then Err (Empty field)
  else if (MAX_FIELD_BYTES <? blen text)%nat then Err (TooLong field)
  else if existsb (fun c => is_control c && negb (allows_line_breaks field && is_line_break c)) text
    then Err (ControlCharacter field)
  else Ok tt.

Definition check_endpoint_text (field : ProfileField) (text : str) : result unit ProfileError :=
  result_bind (check_text field text) (fun _ =>
  match credential_find text with
  | Some pattern => Err (CredentialInEndpoint field pattern)
  | None => Ok tt
  end).

Definition check_environment (d : ProfileDetails) : result unit ProfileError :=
  result_bind (match environment d with
               | Custom label => check_text EnvironmentLabel label
               | _ => Ok tt
               end) (fun _ =>
  if negb (production_flag_is_settable (environment d))
     && negb (Bool.eqb (treat_as_production d) (production_by_default (environment d)))
  then Err ProductionFlagMismatch else Ok tt).

Definition check_endpoint (e : ProfileEndpoint) : result unit ProfileError :=
  match e with
  | HostPort host port target =>
      result_bind (check_endpoint_text Host host) (fun _ =>
      if port =? 0 then Err PortZero
      else match target with
      | ServiceName s => check_endpoint_text FServiceName s
      | Sid s => check_endpoint_text FSid s
      end)
  | ConnectString text => check_endpoint_text FConnectString text
  end.

Definition validate (d : ProfileDetails) : result unit ProfileError :=
  result_bind (check_text Name (name d)) (fun _ =>
  if (MAX_NAME_CHARS <? length (name d))%nat then Err (TooLong Name)
  else result_bind (check_environment d) (fun _ =>
  result_bind (check_endpoint (endpoint d)) (fun _ =>
  result_bind (match authentication d with
               | Password username _ => check_text Username username
               | External => Ok tt
               end) (fun _ =>
  match ca_directory (tls d) with
  | Some directory =>
      match to_str directory with
      | None => Err PathNotUnicode
      | Some text => check_text CaDirectory text
      end
  | None => Ok tt
  end)))).

(** ** Profiles

    The clock and the identifier generator are arguments. *)
Context {U : Uuid}.

Record Profile := mkProfile {
  profile_id : ProfileId;
  details : ProfileDetails;
  created_at : Z;
  modified_at : Z;
}.

Definition create (now : Z) (fresh : ProfileId) (d : ProfileDetails) : result Profile ProfileError :=
  result_bind (validate d) (fun _ => Ok (mkProfile fresh d now now)).

Definition from_stored (id : ProfileId) (d : ProfileDetails) (created modified : Z)
  : result Profile ProfileError :=
  result_bind (validate d) (fun _ => Ok (mkProfile id d created modified)).

(** The outcome and the profile afterwards. *)
Definition update (now : Z) (p : Profile) (d : ProfileDetails) : result unit ProfileError * Profile :=
  match validate d with
  | Err e => (Err e, p)
  | Ok _ => (Ok tt, mkProfile (profile_id p) d (created_at p) now)
  end.

Definition credential_key (p : Profile) : CredentialKey := for_profile (profile_id p).

(** A profile as the crate can build it: validated, under an identifier that is
    not nil, with a port of 16 bits. *)
Definition port_typed (e : ProfileEndpoint) : bool :=
  match e with HostPort _ port _ => (0 <=? port) && (port <? 65536) | ConnectString _ => true end.

Definition profile_ok (p : Profile) : Prop :=
  validate (details p) = Ok tt /\ profile_id p <> uuid_nil /\ port_typed (endpoint (details p)) = true.

End Guard.
