(* ===== verification/Codec.v ===== *)
(** * Row encodings (workspace/src/store/codec.rs)

    Model values to SQLite columns and back: the words of the enumerations,
    setting values, history outcomes and profiles.  A column of 64 bits is a
    [Z]; an error text is the constructor of the message the source formats. *)

From S2P Require Import Prelude RustStr RustText Settings Ids Profile.
Open Scope Z_scope.

(** ** Words *)

Definition level_word (l : Level) : str :=
  lit match l with
  | BuiltIn => "built_in"
  | Application => "application"
  | ProfileLevel => "profile"
  | WorksheetLevel => "worksheet"
  end%string.

Definition kind_word (k : ValueKind) : str :=
  lit match k with
  | KBool => "bool"
  | KTimeLimit => "time_limit"
  | KCount => "count"
  | KByteLimit => "byte_limit"
  | KEntryLimit => "entry_limit"
  end%string.

(** The arms of a [match] on a text, tried in order. *)
Fixpoint match_word {A} (arms : list (string * A)) (word : str) : option A :=
  match arms with
  | [] => None
  | (w, a) :: rest => if str_eqb word (lit w) then Some a else match_word rest word
  end.

Definition kind_from_word : str -> option ValueKind :=
  match_word [("bool", KBool); ("time_limit", KTimeLimit); ("count", KCount);
              ("byte_limit", KByteLimit); ("entry_limit", KEntryLimit)]%string.

(** ** Setting values *)

Definition value_int (v : SettingValue) : option Z :=
  match v with
  | VBool on => Some (if on then 1 else 0)
  | VCount n => Some n
  | VTimeLimit (Seconds n) => Some n
  | VByteLimit (Bytes n) => Some n
  | VEntryLimit (EntryCount n) => Some n
  | VTimeLimit NoLimit | VByteLimit BytesUnlimited | VEntryLimit EntriesUnlimited => None
  end.

Definition encode_value (v : SettingValue) : str * option Z := (kind_word (value_kind v), value_int v).

Inductive DecodeValueError := UnknownKindWord (word : str) | MalformedValue.

(** [u32::try_from(i)] and [NonZeroU32] of it. *)
Definition u32_try_from (i : Z) : option Z := if is_u32 i then Some i else None.
Definition non_zero (i : Z) : option Z :=
  match u32_try_from i with Some n => NonZeroU32_new n | None => None end.

Definition or_malformed {A} (f : A -> SettingValue) (o : option A) : result SettingValue DecodeValueError :=
  match o with Some x => Ok (f x) | None => Err MalformedValue end.

Definition decode_value (word : str) (int : option Z) (text : option str)
  : result SettingValue DecodeValueError :=
  match kind_from_word word with
  | None => Err (UnknownKindWord word)
  | Some kind =>
      match text with
      | Some _ => Err MalformedValue
      | None =>
          match kind, int with
          | KBool, Some 0 => Ok (VBool false)
          | KBool, Some 1 => Ok (VBool true)
          | KCount, Some n => or_malformed VCount (u32_try_from n)
          | KTimeLimit, None => Ok (VTimeLimit NoLimit)
          | KTimeLimit, Some n => or_malformed (fun n => VTimeLimit (Seconds n)) (non_zero n)
          | KByteLimit, None => Ok (VByteLimit BytesUnlimited)
          | KByteLimit, Some n => or_malformed (fun n => VByteLimit (Bytes n)) (non_zero n)
          | KEntryLimit, None => Ok (VEntryLimit EntriesUnlimited)
          | KEntryLimit, Some n => or_malformed (fun n => VEntryLimit (EntryCount n)) (non_zero n)
          | _, _ => Err MalformedValue
          end
      end
  end.

(** ** History outcomes *)

Inductive HistoryOutcome :=
| Succeeded
| Failed (native_code : option Z)
| Cancelled
| TimedOut.

Definition i32_max : Z := 2 ^ 31 - 1.
Definition is_i32 (z : Z) : bool := (- 2 ^ 31 <=? z) && (z <=? i32_max).

Definition encode_history_outcome (o : HistoryOutcome) : str * option Z :=
  match o with
  | Succeeded => (lit "succeeded", None)
  | Failed code => (lit "failed", code)
  | Cancelled => (lit "cancelled", None)
  | TimedOut => (lit "timed_out", None)
  end.

(** [i32::try_from(code).unwrap_or(i32::MAX)]. *)
Definition to_i32 (code : Z) : Z := if is_i32 code then code else i32_max.

(** The error carries the word that is not known. *)
Definition decode_history_outcome (word : str) (native_code : option Z) : result HistoryOutcome str :=
  match match_word [("succeeded", Succeeded); ("failed", Failed (option_map to_i32 native_code));
                    ("cancelled", Cancelled); ("timed_out", TimedOut)]%string word with
  | Some o => Ok o
  | None => Err word
  end.

(** ** Profile rows *)

Record ProfileRow := mkProfileRow {
  row_id : str;
  row_name : str;
  row_database_type : str;
  row_environment : str;
  row_environment_label : option str;
  row_treat_as_production : Z;
  row_endpoint_kind : str;
  row_host : option str;
  row_port : option Z;
  row_service_name : option str;
  row_sid : option str;
  row_connect_string : option str;
  row_auth_kind : str;
  row_username : option str;
  row_password_in_credential_store : option Z;
  row_role : str;
  row_transport : str;
  row_ca_directory : option str;
  row_allow_unenforced_certificate_pin : Z;
  row_created_at : Z;
  row_modified_at : Z;
}.

Definition environment_word (e : Environment) : str * option str :=
  match e with
  | Development => (lit "development", None)
  | Test => (lit "test", None)
  | Uat => (lit "uat", None)
  | Staging => (lit "staging", None)
  | Production => (lit "production", None)
  | Custom label => (lit "custom", Some label)
  end.

Definition role_word (r : SessionRole) : str :=
  lit match r with NormalRole => "normal" | SysDba => "sysdba" | SysOper => "sysoper" end%string.

Definition transport_word (t : Transport) : str :=
  lit match t with Plain => "plain" | Tls => "tls" end%string.

Definition of_bool (b : bool) : Z := if b then 1 else 0.

(** The endpoint's columns: kind, host, port, service name, SID, connect string. *)
Definition encode_endpoint (e : ProfileEndpoint)
  : str * option str * option Z * option str * option str * option str :=
  match e with
  | HostPort host port (ServiceName s) => (lit "host_port_service", Some host, Some port, Some s, None, None)
  | HostPort host port (Sid s) => (lit "host_port_sid", Some host, Some port, None, Some s, None)
  | ConnectString text => (lit "connect_string", None, None, None, None, Some text)
  end.

(** The authentication's columns: kind, user name, whether the password is in
    the credential store. *)
Definition encode_authentication (a : Authentication) : str * option str * option Z :=
  match a with
  | Password username storage =>
      (lit "password", Some username,
       Some match storage with CredentialStore => 1 | PromptEachTime => 0 end)
  | External => (lit "external", None, None)
  end.

Inductive DecodeError :=
| BadId (e : IdError)
| UnknownWord (column : string)
| MissingColumn (column : string)
| NotAFlag (column : string)
| PortMissingOrOutOfRange
| InvalidDetails (e : ProfileError).

Definition required {A} (value : option A) (column : string) : result A DecodeError :=
  match value with Some x => Ok x | None => Err (MissingColumn column) end.

Definition flag (value : Z) (column : string) : result bool DecodeError :=
  if value =? 0 then Ok false else if value =? 1 then Ok true else Err (NotAFlag column).

Declare Scope result_scope.
Delimit Scope result_scope with result.
Notation "'let?' x := m 'in' k" := (result_bind m (fun x => k))
  (at level 10, x pattern, m at level 100, k at level 200,
   format "'let?'  x  :=  m  'in' '//' k") : result_scope.
Open Scope result_scope.

Definition decode_environment (row : ProfileRow) : result Environment DecodeError :=
  let label := row_environment_label row in
  match match_word [("development", Ok Development); ("test", Ok Test); ("uat", Ok Uat);
                    ("staging", Ok Staging); ("production", Ok Production);
                    ("custom", let? l := required label "environment_label" in Ok (Custom l))]%string
          (row_environment row) with
  | Some r => r
  | None => Err (UnknownWord "environment")
  end.

Definition is_u16 (z : Z) : bool := (0 <=? z) && (z <? 65536).

Definition host_port (row : ProfileRow) (target : ServiceTarget) : result ProfileEndpoint DecodeError :=
  match row_port row with
  | Some port =>
      if is_u16 port then let? host := required (row_host row) "host" in Ok (HostPort host port target)
      else Err PortMissingOrOutOfRange
  | None => Err PortMissingOrOutOfRange
  end.

Definition decode_endpoint (row : ProfileRow) : result ProfileEndpoint DecodeError :=
  match match_word
          [("host_port_service", let? s := required (row_service_name row) "service_name" in host_port row (ServiceName s));
           ("host_port_sid", let? s := required (row_sid row) "sid" in host_port row (Sid s));
           ("connect_string", let? s := required (row_connect_string row) "connect_string" in Ok (ConnectString s))]%string
          (row_endpoint_kind row) with
  | Some r => r
  | None => Err (UnknownWord "endpoint_kind")
  end.

Definition decode_authentication (row : ProfileRow) : result Authentication DecodeError :=
  match match_word
          [("password",
             let? username := required (row_username row) "username" in
             match row_password_in_credential_store row with
             | Some 1 => Ok (Password username CredentialStore)
             | Some 0 => Ok (Password username PromptEachTime)
             | _ => Err (NotAFlag "password_in_credential_store")
             end);
           ("external", Ok External)]%string (row_auth_kind row) with
  | Some r => r
  | None => Err (UnknownWord "auth_kind")
  end.

Definition decode_word {A} (arms : list (string * A)) (column : string) (word : str) : result A DecodeError :=
  match match_word arms word with Some a => Ok a | None => Err (UnknownWord column) end.

Section Profiles.
Context {CM : CaseMap} {U : Uuid}.

Definition encode_profile (p : Profile) : option ProfileRow :=
  let d := details p in
  let '(environment, label) := environment_word (environment d) in
  let '(endpoint_kind, host, port, service_name, sid, connect_string) := encode_endpoint (endpoint d) in
  let '(auth_kind, username, in_store) := encode_authentication (authentication d) in
  match (match ca_directory (tls d) with
         | Some path => match to_str path with Some s => Some (Some s) | None => None end
         | None => Some None
         end) with
  | None => None
  | Some directory => Some
      {| row_id := id_to_string (profile_id p); row_name := name d;
         row_database_type := match database d with Oracle => lit "oracle" end;
         row_environment := environment; row_environment_label := label;
         row_treat_as_production := of_bool (treat_as_production d);
         row_endpoint_kind := endpoint_kind; row_host := host; row_port := port;
         row_service_name := service_name; row_sid := sid; row_connect_string := connect_string;
         row_auth_kind := auth_kind; row_username := username;
         row_password_in_credential_store := in_store;
         row_role := role_word (role d); row_transport := transport_word (transport (tls d));
         row_ca_directory := directory;
         row_allow_unenforced_certificate_pin := of_bool (allow_unenforced_certificate_pin (tls d));
         row_created_at := created_at p; row_modified_at := modified_at p |}
  end.

Definition decode_profile (row : ProfileRow) : result Profile DecodeError :=
  let? id := match id_parse (row_id row) with Ok u => Ok u | Err e => Err (BadId e) end in
  let? database := decode_word [("oracle", Oracle)]%string "database_type" (row_database_type row) in
  let? environment := decode_environment row in
  let? endpoint := decode_endpoint row in
  let? authentication := decode_authentication row in
  let? role := decode_word [("normal", NormalRole); ("sysdba", SysDba); ("sysoper", SysOper)]%string
                 "role" (row_role row) in
  let? transport := decode_word [("plain", Plain); ("tls", Tls)]%string "transport" (row_transport row) in
  let? production := flag (row_treat_as_production row) "treat_as_production" in
  let? pin := flag (row_allow_unenforced_certificate_pin row) "allow_unenforced_certificate_pin" in
  match from_stored id
          (mkDetails (row_name row) database environment production endpoint authentication role
             (mkTls transport (option_map PathText (row_ca_directory row)) pin))
          (row_created_at row) (row_modified_at row) with
  | Ok p => Ok p
  | Err e => Err (InvalidDetails e)
  end.

End Profiles.
