(* ===== verification/ProfileClaims.v ===== *)
(** * What a saved profile guarantees

    Validation against a description of what it refuses, no password in an
    endpoint, the production indicator, and the row encodings read back. *)

From S2P Require Import Prelude RustStr RustText Settings Ids Profile Codec.
Open Scope Z_scope.
Open Scope result_scope.

(** ** The credential guard *)

Section Guard.
Context {CM : CaseMap}.

(** A logon in front of a connect identifier: [^[^/@()]+/[^@]+@]. *)
Definition logon (s : str) : Prop :=
  exists user secret rest,
    s = user ++ SLASH :: secret ++ AT :: rest /\ user <> [] /\ secret <> [] /\
    Forall (fun c => c <> SLASH /\ prefix_free c = false) user /\ AT ∉ secret.

Lemma break_once c s a b : break_str [c] s = Some (a, b) <-> s = a ++ c :: b /\ c ∉ a.
Proof.
  split.
  - intros H. apply break_str_Some in H as [-> Hmin]. split; [done|].
    intros Hin. apply list_elem_of_split in Hin as (x & y & ->).
    specialize (Hmin x (y ++ [c] ++ b)). rewrite <- !app_assoc in Hmin. specialize (Hmin eq_refl).
    rewrite length_app in Hmin. simpl in Hmin. lia.
  - intros [-> Hn]. induction a as [|d a IH]; simpl; [by rewrite Z.eqb_refl|].
    apply not_elem_of_cons in Hn as [Hd Ha]. destruct (c =? d) eqn:E; boolify; [done|].
    by rewrite IH.
Qed.

Lemma existsb_false {A} (p : A -> bool) l : existsb p l = false <-> Forall (fun x => p x = false) l.
Proof. induction l as [|x l IH]; simpl; [done|]. by rewrite orb_false_iff, IH, Forall_cons. Qed.

Lemma user_password_prefix_logon s : user_password_prefix s = true <-> logon s.
Proof.
  unfold user_password_prefix, logon. split.
  - destruct (break_str [SLASH] s) as [[user rest]|] eqn:E1; [|done].
    destruct (break_str [AT] rest) as [[secret rest']|] eqn:E2; [|done].
    apply break_once in E1 as [-> H1]. apply break_once in E2 as [-> H2]. intros H. boolify.
    rewrite bool_decide_eq_false in *. exists user, secret, rest'. split_and!; try done.
    match goal with H : existsb _ _ = false |- _ => apply existsb_false in H end. rewrite Forall_forall in *. intros c Hc. split; [by intros ->|by auto].
  - intros (user & secret & rest & -> & Hu & Hs & Hf & Hat).
    rewrite (proj2 (break_once SLASH _ user (secret ++ AT :: rest))).
    + rewrite (proj2 (break_once AT _ secret rest)) by done.
      rewrite !bool_decide_eq_false_2 by done. simpl. rewrite andb_true_r, negb_true_iff.
      apply existsb_false. eapply Forall_impl; [done|]. by intros c [_ ?].
    + split; [done|]. intros Hin. rewrite Forall_forall in Hf. by apply Hf in Hin as [? _].
Qed.

Lemma credential_find_None text :
  credential_find text = None <-> ~ occurs (lit "password=") (squeezed text) /\ ~ logon (squeezed text).
Proof.
  unfold credential_find. rewrite <- user_password_prefix_logon, <- str_contains_true.
  pose proof (fun p => str_contains_true (squeezed text) p) as Hc.
  assert (Himp : forall pre, str_contains (squeezed text) (pre ++ lit "password=") = true ->
                             str_contains (squeezed text) (lit "password=") = true).
  { intros pre H. apply Hc in H as (a & b & H). apply Hc. exists (a ++ pre), b. by rewrite H, <- !app_assoc. }
  pose proof (Himp (lit "wallet_")) as H1. pose proof (Himp (lit "?")) as H2. pose proof (Himp (lit "&")) as H3.
  change (lit "wallet_" ++ lit "password=") with (lit "wallet_password=") in H1.
  change (lit "?" ++ lit "password=") with (lit "?password=") in H2.
  change (lit "&" ++ lit "password=") with (lit "&password=") in H3.
  destruct (str_contains _ (lit "wallet_password=")), (str_contains _ (lit "?password=")),
    (str_contains _ (lit "&password=")), (str_contains _ (lit "password=")), (user_password_prefix _);
    simpl; naive_solver.
Qed.

Lemma squeezed_app a b : squeezed (a ++ b) = squeezed a ++ squeezed b.
Proof. unfold squeezed. by rewrite filter_app, flat_map_app. Qed.

Lemma squeezed_ascii s :
  Forall (fun c => 0 <= c < 128) s -> squeezed s = lower (filter (fun c => is_whitespace c = false) s).
Proof.
  unfold squeezed, lower. induction 1 as [|c s Hc _ IH]; [done|]. rewrite !filter_cons.
  destruct (decide _); simpl; [|done]. by rewrite to_lowercase_ascii, IH.
Qed.

(** ** Validation *)

Lemma result_bind_Ok {A B E} (m : result A E) (k : A -> result B E) b :
  result_bind m k = Ok b <-> exists a, m = Ok a /\ k a = Ok b.
Proof. destruct m; simpl; naive_solver. Qed.

Lemma Ok_tt {E} (m : result unit E) : (exists u, m = Ok u) <-> m = Ok tt.
Proof. split; [by intros [[] ?]|by eauto]. Qed.

Definition text_ok (field : ProfileField) (text : str) : Prop :=
  ~ Forall (fun c => is_whitespace c = true) text /\ (blen text <= MAX_FIELD_BYTES)%nat /\
  Forall (fun c => is_control c = true -> allows_line_breaks field = true /\ is_line_break c = true) text.

Lemma check_text_Ok field text u : check_text field text = Ok u <-> text_ok field text.
Proof.
  destruct u. unfold check_text, text_ok. rewrite <- trim_nil.
  case_bool_decide as H1; [naive_solver|]. destruct (MAX_FIELD_BYTES <? _)%nat eqn:E; boolify.
  { split; [done|]. intros (_ & ? & _). lia. }
  destruct (existsb _ text) eqn:Ex.
  - split; [done|]. intros (_ & _ & Hf). rewrite <- not_false_iff_true in Ex. destruct Ex.
    apply existsb_false. eapply Forall_impl; [done|]. intros c Hc. simpl.
    destruct (is_control c) eqn:Ec; [|done]. by destruct (Hc Ec) as [-> ->].
  - split; [|done]. intros _. split_and!; [done|lia|]. apply existsb_false in Ex.
    eapply Forall_impl; [done|]. intros c Hc Hcc. simpl in Hc. rewrite Hcc in Hc. simpl in Hc. by boolify.
Qed.

Lemma check_endpoint_text_Ok field text u :
  check_endpoint_text field text = Ok u <-> text_ok field text /\ credential_find text = None.
Proof.
  unfold check_endpoint_text. rewrite result_bind_Ok. destruct u. setoid_rewrite check_text_Ok.
  destruct (credential_find text); naive_solver.
Qed.

(** The free texts of an endpoint, with the fields they are. *)
Definition endpoint_texts (e : ProfileEndpoint) : list (ProfileField * str) :=
  match e with
  | HostPort host _ (ServiceName s) => [(Host, host); (FServiceName, s)]
  | HostPort host _ (Sid s) => [(Host, host); (FSid, s)]
  | ConnectString text => [(FConnectString, text)]
  end.

(** What a profile must be, in one line per rule. *)
Record details_ok (d : ProfileDetails) : Prop := {
  name_ok : text_ok Name (name d) /\ (length (name d) <= MAX_NAME_CHARS)%nat;
  label_ok : forall label, environment d = Custom label -> text_ok EnvironmentLabel label;
  production_ok : production_flag_is_settable (environment d) = true \/
                  treat_as_production d = production_by_default (environment d);
  texts_ok : forall field text, (field, text) ∈ endpoint_texts (endpoint d) ->
               text_ok field text /\ credential_find text = None;
  port_ok : forall host port target, endpoint d = HostPort host port target -> port <> 0;
  username_ok : forall username storage, authentication d = Password username storage ->
                  text_ok Username username;
  directory_ok : forall path, ca_directory (tls d) = Some path ->
                   exists text, path = PathText text /\ text_ok CaDirectory text;
}.

Lemma check_environment_Ok d u :
  check_environment d = Ok u <->
  (forall label, environment d = Custom label -> text_ok EnvironmentLabel label) /\
  (production_flag_is_settable (environment d) = true \/
   treat_as_production d = production_by_default (environment d)).
Proof.
  destruct u. unfold check_environment. rewrite result_bind_Ok.
  destruct (environment d) as [| | | | |label]; simpl;
    try (destruct (treat_as_production d); naive_solver).
  setoid_rewrite check_text_Ok. naive_solver.
Qed.

Lemma check_endpoint_Ok e u :
  check_endpoint e = Ok u <->
  (forall field text, (field, text) ∈ endpoint_texts e -> text_ok field text /\ credential_find text = None) /\
  (forall host port target, e = HostPort host port target -> port <> 0).
Proof.
  assert (H2 : forall host f s,
    (exists v, check_endpoint_text Host host = Ok v /\ check_endpoint_text f s = Ok u) <->
    (forall field text, (field, text) ∈ [(Host, host); (f, s)] -> text_ok field text /\ credential_find text = None)).
  { intros host f s. setoid_rewrite check_endpoint_text_Ok.
    setoid_rewrite elem_of_cons. setoid_rewrite list_elem_of_singleton.
    split; [naive_solver|]. intros H. exists tt. split; apply H; auto. }
  destruct e as [host port target|text]; simpl.
  - rewrite result_bind_Ok. destruct (port =? 0) eqn:E; boolify.
    { split; [naive_solver|]. intros [_ H]. by destruct (H host port target). }
    destruct target as [s|s]; rewrite H2; naive_solver.
  - rewrite check_endpoint_text_Ok. setoid_rewrite list_elem_of_singleton. naive_solver.
Qed.

Lemma validate_Ok d : validate d = Ok tt <-> details_ok d.
Proof.
  unfold validate. split.
  - intros (? & Hn & H)%result_bind_Ok. apply check_text_Ok in Hn.
    destruct (MAX_NAME_CHARS <? length (name d))%nat eqn:El; [done|]. boolify.
    apply result_bind_Ok in H as (? & He & H). apply check_environment_Ok in He as [Hl Hp].
    apply result_bind_Ok in H as (? & Ht & H). apply check_endpoint_Ok in Ht as [Ht Hport].
    apply result_bind_Ok in H as (? & Hu & Hd). split; try done.
    + intros username storage E. rewrite E in Hu. by apply check_text_Ok in Hu.
    + intros path E. rewrite E in Hd. destruct path as [text|]; simpl in Hd; [|done].
      exists text. split; [done|]. by apply check_text_Ok in Hd.
  - intros [[Hn ?] Hl Hp Ht Hport Hu Hd].
    rewrite (proj2 (check_text_Ok _ _ tt) Hn). simpl. rewrite (proj2 (Nat.ltb_ge _ _)) by done.
    rewrite (proj2 (check_environment_Ok d tt)) by done. simpl.
    rewrite (proj2 (check_endpoint_Ok _ tt)) by done. simpl.
    apply result_bind_Ok. exists tt. split.
    + destruct (authentication d) as [username storage|]; [|done]. by eapply check_text_Ok, Hu.
    + destruct (ca_directory (tls d)) as [path|]; [|done].
      destruct (Hd path eq_refl) as (text & -> & ?). simpl. by apply check_text_Ok.
Qed.

(** A saved profile holds no password where a user could have pasted one.
    If a profile passes validation, no host, service name, SID or connect string
    of it contains [password=], in any letter case and with any white space
    inside, and none starts with a [user/password@] logon. *)
Theorem saved_endpoint_has_no_password d field text
  (valid : validate d = Ok tt) (in_endpoint : (field, text) ∈ endpoint_texts (endpoint d)) :
  (forall before written after,
     text = before ++ written ++ after -> Forall (fun c => 0 <= c < 128) written ->
     lower (filter (fun c => is_whitespace c = false) written) <> lit "password=") /\
  ~ logon (squeezed text).
Proof.
  apply validate_Ok in valid. destruct (texts_ok d valid field text in_endpoint) as [_ H].
  apply credential_find_None in H as [Hp Hl]. split; [|done].
  intros before written after -> Ha Hw. apply Hp. exists (squeezed before), (squeezed after).
  by rewrite !squeezed_app, (squeezed_ascii written), Hw.
Qed.

(** Validation accepts exactly the profiles the documentation describes: every
    text field present, short enough and without control characters (line breaks
    in a connect string apart), a port, a Unicode CA directory, no credential in
    an endpoint, and a production flag that the environment allows: on for
    production, off for the other named environments. *)
Theorem validation_exact d : validate d = Ok tt <-> details_ok d.
Proof. apply validate_Ok. Qed.

End Guard.

(** ** Round trips *)

Lemma decode_value_iff v word int text :
  value_typed v = true ->
  (decode_value word int text = Ok v <-> (word, int) = encode_value v /\ text = None).
Proof.
  intros typed. unfold encode_value. split.
  - unfold decode_value. destruct (kind_from_word word) as [k|] eqn:Ek; [|done].
    destruct text; [done|]. intros H. split; [|done].
    assert (word = kind_word k) as ->.
    { unfold kind_from_word, match_word in Ek.
      repeat (destruct (str_eqb _ _) eqn:E in Ek; [injection Ek as <-; by apply bool_decide_eq_true in E|clear E]).
      done. }
    unfold or_malformed, non_zero, u32_try_from, NonZeroU32_new in H.
    destruct k; repeat case_match; simplify_eq; done.
  - intros [[= -> ->] ->]. unfold value_typed, is_nonzero_u32 in typed.
    destruct v as [[]|[n|]|n|[n|]|[n|]]; try done; boolify;
      unfold decode_value; simpl; unfold or_malformed, non_zero, u32_try_from, NonZeroU32_new;
      try (rewrite typed; done);
      (assert (is_u32 n = true) as -> by (unfold is_u32; rewrite andb_true_iff, !Z.leb_le; lia));
      by rewrite (proj2 (Z.eqb_neq n 0)) by lia.
Qed.

(** A setting value is stored and read back unchanged, and a stored row that
    decodes is the encoding of its value: nothing else decodes to it. *)
Theorem setting_value_roundtrip v word int text
  (typed : value_typed v = true) :
  (decode_value word int text = Ok v <-> (word, int) = encode_value v /\ text = None).
Proof. by apply decode_value_iff. Qed.

Lemma setting_value_roundtrip_witness :
  decode_value (lit "byte_limit") (Some 2000) None = Ok (VByteLimit (Bytes 2000)).
Proof. apply (setting_value_roundtrip (VByteLimit (Bytes 2000))); done. Defined.

Lemma outcome_roundtrip o :
  match o with Failed (Some code) => is_i32 code = true | _ => True end ->
  let '(word, code) := encode_history_outcome o in decode_history_outcome word code = Ok o.
Proof.
  destruct o as [|[code|]| |]; simpl; try done. intros H.
  unfold decode_history_outcome. simpl. unfold to_i32. by rewrite H.
Qed.

Section Rows.
Context {CM : CaseMap} {U : Uuid}.

Lemma decode_encode_environment e row :
  (row_environment row, row_environment_label row) = environment_word e -> decode_environment row = Ok e.
Proof. unfold decode_environment. by destruct e; intros [= -> ->]. Qed.

Lemma decode_encode_endpoint e row :
  port_typed e = true ->
  (row_endpoint_kind row, row_host row, row_port row, row_service_name row, row_sid row,
   row_connect_string row) = encode_endpoint e ->
  decode_endpoint row = Ok e.
Proof.
  unfold decode_endpoint, host_port, is_u16, port_typed. intros Hp.
  destruct e as [h p [s|s]|t]; simpl; intros [= -> Hh Hport Hs Hsid Hc]; simpl;
    rewrite ?Hs, ?Hsid, ?Hc; simpl; rewrite ?Hport, ?Hh, ?Hp; done.
Qed.

Lemma decode_encode_authentication a row :
  (row_auth_kind row, row_username row, row_password_in_credential_store row) = encode_authentication a ->
  decode_authentication row = Ok a.
Proof. unfold decode_authentication. destruct a as [u []|]; simpl; intros [= -> Hu Hp]; simpl; by rewrite ?Hu, ?Hp. Qed.

Lemma flag_of_bool b column : flag (of_bool b) column = Ok b.
Proof. by destruct b. Qed.

(** C29: A profile is stored and read back unchanged: every profile the crate can
    build has a row, and the row decodes to it. *)
Theorem profile_roundtrip p (buildable : profile_ok p) :
  exists row, encode_profile p = Some row /\ decode_profile row = Ok p.
Proof.
  destruct buildable as (Hv & Hid & Hport). destruct p as [id d created modified]; simpl in *.
  unfold encode_profile; cbn [details].
  destruct (environment_word (environment d)) as [env label] eqn:Ee.
  destruct (encode_endpoint (endpoint d)) as [[[[[ek h] po] sn] si] cs] eqn:Een.
  destruct (encode_authentication (authentication d)) as [[ak un] st] eqn:Ea.
  assert (Hdir : exists dir, match ca_directory (tls d) with
      | Some path => match to_str path with Some s => Some (Some s) | None => None end
      | None => Some None end = Some dir /\ option_map PathText dir = ca_directory (tls d)).
  { destruct (ca_directory (tls d)) as [path|] eqn:Ed; [|by exists None].
    apply validate_Ok in Hv. destruct (directory_ok _ Hv path Ed) as (text & -> & _). by exists (Some text). }
  destruct Hdir as (dir & -> & Hdir). eexists. split; [done|].
  unfold decode_profile; cbn [row_id row_database_type row_role row_transport row_treat_as_production
    row_allow_unenforced_certificate_pin row_name row_created_at row_modified_at row_ca_directory profile_id].
  rewrite parse_hyphenated by done. simpl.
  destruct (database d) eqn:Edb. simpl.
  erewrite decode_encode_environment by (simpl; by rewrite Ee). simpl.
  erewrite decode_encode_endpoint by (first [exact Hport|simpl; by rewrite Een]). simpl.
  erewrite decode_encode_authentication by (simpl; by rewrite Ea). simpl.
  rewrite !flag_of_bool, Hdir.
  assert (mkDetails (name d) Oracle (environment d) (treat_as_production d) (endpoint d) (authentication d)
            (role d) (mkTls (transport (tls d)) (ca_directory (tls d)) (allow_unenforced_certificate_pin (tls d))) = d) as Hd.
  { destruct d as [? ? ? ? ? ? ? []]; simpl in *. by subst. }
  destruct (role d), (transport (tls d)); simpl; rewrite Hd; unfold from_stored; rewrite Hv; done.
Qed.

(** Nothing that validation would refuse comes out of a file. *)
Lemma decoded_valid row p : decode_profile row = Ok p -> validate (details p) = Ok tt /\ profile_id p <> uuid_nil.
Proof.
  unfold decode_profile. intros H.
  apply result_bind_Ok in H as (id & Hid & H).
  do 8 (apply result_bind_Ok in H as (? & ? & H)).
  destruct (id_parse (row_id row)) as [u|] eqn:Eu; [|done]. simplify_eq.
  apply id_parse_Ok in Eu as [_ Hn]. unfold from_stored in H.
  destruct (validate _) as [[]|] eqn:Ev; simpl in H; [|done]. simplify_eq. by split.
Qed.

End Rows.

(** ** Witnesses *)

Definition sample_details : ProfileDetails :=
  mkDetails (lit "Ledger") Oracle (Custom (lit "Blue")) true
    (HostPort (lit "db.example") 1521 (Sid (lit "ORCL")))
    (Password (lit "scott") PromptEachTime) NormalRole (mkTls Tls (Some (PathText (lit "/ca"))) false).

Definition sample_profile : @Profile sample_uuid := mkProfile IdA sample_details 5 7.

Lemma saved_endpoint_has_no_password_witness :
  validate sample_details = Ok tt /\ ~ logon (squeezed (lit "ORCL")).
Proof.
  split; [evaluate|].
  apply (saved_endpoint_has_no_password sample_details FSid (lit "ORCL")); [evaluate|].
  right. left.
Defined.

Lemma profile_roundtrip_witness :
  exists row, encode_profile sample_profile = Some row /\ decode_profile row = Ok sample_profile.
Proof. apply (profile_roundtrip sample_profile). split_and!; [evaluate|done|reflexivity]. Defined.
