(* ===== verification/Workspace.v ===== *)
(** * Worksheets, layout and history entries (workspace/src/worksheet.rs,
      layout.rs, history.rs)

    The values the workspace store keeps beside profiles and settings, with the
    validation they pass before they are written. *)

From S2P Require Import Prelude RustStr RustText Ids Codec.
Open Scope Z_scope.

(** ** Worksheets *)

Definition MAX_WORKSHEET_TEXT_BYTES : Z := 1024 * 1024.
Definition MAX_TITLE_CHARS : nat := 200.

Inductive WorksheetError :=
| TitleTooLong (chars max : nat)
| TitleControlCharacter
| TextTooLong (bytes max : Z)
| CaretOutOfBounds (caret : Z) (len : nat).

Record WorksheetState := mkState {
  title : str;
  text : str;
  caret : Z;
  scroll : Z;
}.

Definition state_validate (s : WorksheetState) : result unit WorksheetError :=
  let chars := length (title s) in
  if (MAX_TITLE_CHARS <? chars)%nat then Err (TitleTooLong chars MAX_TITLE_CHARS)
  else if existsb is_control (title s) then Err TitleControlCharacter
  else if MAX_WORKSHEET_TEXT_BYTES <? Z.of_nat (blen (text s))
    then Err (TextTooLong (Z.of_nat (blen (text s))) MAX_WORKSHEET_TEXT_BYTES)
  else if Z.of_nat (blen (text s)) <? caret s then Err (CaretOutOfBounds (caret s) (blen (text s)))
  else Ok tt.

(** ** History *)

Definition MAX_STATEMENT_BYTES : Z := 1024 * 1024.

Inductive HistoryError := StatementEmpty | StatementTooLong (bytes max : Z).

Section Values.
Context {U : Uuid}.

Record Worksheet := mkWorksheet {
  worksheet_id : WorksheetId;
  worksheet_profile : option ProfileId;
  state : WorksheetState;
  tab_order : Z;
  worksheet_created_at : Z;
  worksheet_updated_at : Z;
}.

Definition worksheet_new (now : Z) (id : WorksheetId) (profile : option ProfileId) (s : WorksheetState)
  (tab : Z) : result Worksheet WorksheetError :=
  result_bind (state_validate s) (fun _ => Ok (mkWorksheet id profile s tab now now)).

Definition worksheet_from_stored (id : WorksheetId) (profile : option ProfileId) (s : WorksheetState)
  (tab created updated : Z) : result Worksheet WorksheetError :=
  result_bind (state_validate s) (fun _ => Ok (mkWorksheet id profile s tab created updated)).

(** The outcome and the worksheet afterwards. *)
Definition update_state (now : Z) (w : Worksheet) (s : WorksheetState) : result unit WorksheetError * Worksheet :=
  match state_validate s with
  | Err e => (Err e, w)
  | Ok _ => (Ok tt, mkWorksheet (worksheet_id w) (worksheet_profile w) s (tab_order w) (worksheet_created_at w) now)
  end.

Definition set_tab_order (now : Z) (w : Worksheet) (tab : Z) : Worksheet :=
  mkWorksheet (worksheet_id w) (worksheet_profile w) (state w) tab (worksheet_created_at w) now.

Definition set_profile (now : Z) (w : Worksheet) (profile : option ProfileId) : Worksheet :=
  mkWorksheet (worksheet_id w) profile (state w) (tab_order w) (worksheet_created_at w) now.

(** ** Layout *)

Record PaneSizes := mkPanes { object_browser_width : option Z; result_pane_height : option Z }.

Record WindowGeometry := mkGeometry {
  window_x : option Z;
  window_y : option Z;
  window_width : option Z;
  window_height : option Z;
  maximized : bool;
}.

Record Layout := mkLayout {
  active_worksheet : option WorksheetId;
  active_profile : option ProfileId;
  panes : PaneSizes;
  window : WindowGeometry;
}.

Definition layout_default : Layout :=
  mkLayout None None (mkPanes None None) (mkGeometry None None None None false).

(** ** History entries *)

(** A [HistoryId] is its row number. *)
Definition HistoryId := Z.

Record HistoryEntry := mkEntry {
  entry_profile : ProfileId;
  executed_at : Z;
  statement : str;
  outcome : HistoryOutcome;
  elapsed_ms : Z;
  row_count : option Z;
}.

Definition entry_validate (e : HistoryEntry) : result unit HistoryError :=
  if bool_decide (trim (statement e) = []) then Err StatementEmpty
  else if MAX_STATEMENT_BYTES <? Z.of_nat (blen (statement e))
    then Err (StatementTooLong (Z.of_nat (blen (statement e))) MAX_STATEMENT_BYTES)
  else Ok tt.

(** A record is an entry under its identifier. *)
Record HistoryRecord := mkRecord {
  record_id : HistoryId;
  record_profile : ProfileId;
  record_executed_at : Z;
  record_statement : str;
  record_outcome : HistoryOutcome;
  record_elapsed_ms : Z;
  record_row_count : option Z;
}.

Record HistoryPage := mkPage { limit : Z; before : option HistoryId }.
Definition first_page (limit : Z) : HistoryPage := mkPage limit None.
Definition page_after (limit : Z) (id : HistoryId) : HistoryPage := mkPage limit (Some id).

End Values.
