(* ===== verification/Tables.v ===== *)
(** * The workspace's database (workspace/src/store/error.rs, schema.rs)

    The tables of the store file and the SQL the source sends, as relational
    operations on lists of rows: a [WHERE] is a filter, [COLLATE NOCASE] is
    [nocase], [ON CONFLICT], [ON DELETE CASCADE] and [ON DELETE SET NULL] are
    written out, and a statement that breaks a [CHECK], a primary key or a
    foreign key fails with a constraint error.

    SQLite itself can fail at any call: [faults] is the script of those
    failures, one entry per call, and every theorem holds for every script.  An
    [IMMEDIATE] transaction serialises writers, so it is one step on the file;
    when it fails or is dropped, the file is as before. *)

From stdpp Require Import sorting.
From S2P Require Import Prelude RustStr RustText Settings Ids Profile Codec Workspace.
Open Scope Z_scope.

(** ** Errors (error.rs) *)

Inductive ErrorCode :=
| DatabaseBusy | DatabaseLocked | NotADatabase | DatabaseCorrupt | ReadOnlyCode | UnknownCode
| CannotOpenCode | PermissionDenied | ConstraintViolation | OtherCode.

Inductive RusqliteError :=
| SqliteFailure (code : ErrorCode) (extended : Z) (display : str) (message : option str)
| SqlInputError (msg : str)
| OtherRusqlite (display : str).

Section Errors.
Context {U : Uuid}.

Inductive StoreError :=
| NewerSchema (found supported : Z)
| NotAReldexStore
| IncompleteHeader
| SchemaMismatch (detail : str)
| ReadOnly
| Corrupt (detail : str)
| Busy
| CannotOpen (path detail : str)
| NoDataDirectory
| InvalidProfile (e : ProfileError)
| InvalidSetting (e : SettingError)
| ProfileNotFound (id : ProfileId)
| ProfileExists (id : ProfileId)
| InvalidHistory (e : HistoryError)
| InvalidWorksheet (e : WorksheetError)
| WorksheetNotFound (id : WorksheetId)
| InvalidOutcome (word : str)
| InvalidProfileRow (e : DecodeError)
| InvalidLayoutId (column : string) (e : IdError)
| Sqlite (code : Z) (detail : str).

Definition is_schema_mismatch_message (detail : str) : bool :=
  str_contains detail (lit "no such table")
  || str_contains detail (lit "no such column")
  || str_contains detail (lit "has no column named")
  || (str_contains detail (lit "columns but") && str_contains detail (lit "values")).

Definition failure_detail (display : str) (message : option str) : str :=
  match message with Some m => m | None => display end.

Definition from_rusqlite (e : RusqliteError) : StoreError :=
  match e with
  | SqliteFailure code extended display message =>
      let detail := failure_detail display message in
      match code with
      | DatabaseBusy | DatabaseLocked => Busy
      | NotADatabase | DatabaseCorrupt => Corrupt detail
      | ReadOnlyCode => ReadOnly
      | UnknownCode => if is_schema_mismatch_message detail then SchemaMismatch detail else Sqlite extended detail
      | _ => Sqlite extended detail
      end
  | SqlInputError msg => if is_schema_mismatch_message msg then SchemaMismatch msg else Sqlite (-1) msg
  | OtherRusqlite display => Sqlite (-1) display
  end.

Definition opening (path : str) (e : RusqliteError) : StoreError :=
  match e with
  | SqliteFailure CannotOpenCode _ display message | SqliteFailure PermissionDenied _ display message =>
      CannotOpen path (failure_detail display message)
  | _ => from_rusqlite e
  end.

End Errors.

(** ** Rows *)

Record SettingRow := mkSettingRow {
  s_scope : str;
  s_scope_id : str;
  s_key : str;
  s_kind : str;
  s_int : option Z;
  s_text : option str;
  s_updated_at : Z;
}.

Record HistoryRow := mkHistoryRow {
  h_id : Z;
  h_profile : str;
  h_executed_at : Z;
  h_statement : str;
  h_outcome : str;
  h_native_code : option Z;
  h_elapsed_ms : Z;
  h_row_count : option Z;
}.

Record MetaRow := mkMeta { m_profile : str; m_count : Z }.

Record WorksheetRow := mkWorksheetRow {
  w_id : str;
  w_profile : option str;
  w_title : str;
  w_text : str;
  w_caret : Z;
  w_scroll : Z;
  w_tab_order : Z;
  w_created_at : Z;
  w_updated_at : Z;
}.

Record WorksheetSettingRow := mkWsRow {
  ws_worksheet : str;
  ws_key : str;
  ws_kind : str;
  ws_int : option Z;
  ws_text : option str;
  ws_updated_at : Z;
}.

Record LayoutRow := mkLayoutRow {
  l_worksheet : option str;
  l_profile : option str;
  l_object_browser_width : option Z;
  l_result_pane_height : option Z;
  l_x : option Z;
  l_y : option Z;
  l_width : option Z;
  l_height : option Z;
  l_maximized : Z;
  l_updated_at : Z;
}.

(** The tables of schema 4, each in the order its rows were inserted.
    [history_seq] is SQLite's counter behind [AUTOINCREMENT]. *)
Record Tables := mkTables {
  profiles : list ProfileRow;
  settings : list SettingRow;
  histories : list HistoryRow;
  history_seq : Z;
  metas : list MetaRow;
  worksheets : list WorksheetRow;
  worksheet_settings : list WorksheetSettingRow;
  layouts : list LayoutRow;
}.

Definition no_tables : Tables := mkTables [] [] [] 0 [] [] [] [].

Definition set_profiles (t : Tables) x : Tables :=
  mkTables x (settings t) (histories t) (history_seq t) (metas t) (worksheets t) (worksheet_settings t) (layouts t).
Definition set_settings (t : Tables) x : Tables :=
  mkTables (profiles t) x (histories t) (history_seq t) (metas t) (worksheets t) (worksheet_settings t) (layouts t).
Definition set_histories (t : Tables) x : Tables :=
  mkTables (profiles t) (settings t) x (history_seq t) (metas t) (worksheets t) (worksheet_settings t) (layouts t).
Definition set_seq (t : Tables) x : Tables :=
  mkTables (profiles t) (settings t) (histories t) x (metas t) (worksheets t) (worksheet_settings t) (layouts t).
Definition set_metas (t : Tables) x : Tables :=
  mkTables (profiles t) (settings t) (histories t) (history_seq t) x (worksheets t) (worksheet_settings t) (layouts t).
Definition set_worksheets (t : Tables) x : Tables :=
  mkTables (profiles t) (settings t) (histories t) (history_seq t) (metas t) x (worksheet_settings t) (layouts t).
Definition set_worksheet_settings (t : Tables) x : Tables :=
  mkTables (profiles t) (settings t) (histories t) (history_seq t) (metas t) (worksheets t) x (layouts t).
Definition set_layouts (t : Tables) x : Tables :=
  mkTables (profiles t) (settings t) (histories t) (history_seq t) (metas t) (worksheets t) (worksheet_settings t) x.

(** ** SQL *)

(** [SELECT 1 FROM profile WHERE id = ?1] and the like. *)
Definition has_profile (t : Tables) (key : str) : bool := existsb (fun r => nocase (row_id r) key) (profiles t).
Definition has_worksheet (t : Tables) (key : str) : bool := existsb (fun r => nocase (w_id r) key) (worksheets t).

(** [DELETE FROM ... WHERE]: the rows that stay; the count is of the others. *)
Definition delete_where {A} (p : A -> bool) (l : list A) : list A := filter (fun r => p r = false) l.
Definition count_where {A} (p : A -> bool) (l : list A) : nat := length (filter (fun r => p r = true) l).

(** [UPDATE ... WHERE]. *)
Definition update_where {A} (p : A -> bool) (f : A -> A) (l : list A) : list A :=
  map (fun r => if p r then f r else r) l.

(** [INSERT ... ON CONFLICT (key) DO UPDATE]: [same] holds between rows with
    the same key, [f] is the update of the stored row. *)
Definition upsert {A} (same : A -> bool) (f : A -> A) (r : A) (l : list A) : list A :=
  if existsb same l then update_where same f l else l ++ [r].

(** [ORDER BY a, b] with [BINARY] comparison of the first key's code points. *)
Fixpoint text_leb (a b : str) : bool :=
  match a, b with
  | [], _ => true
  | _ :: _, [] => false
  | c :: a', d :: b' => if c =? d then text_leb a' b' else c <? d
  end.
Definition key_le (a b : str * str) : Prop :=
  (if str_eqb a.1 b.1 then text_leb a.2 b.2 else text_leb a.1 b.1) = true.
#[global] Instance key_le_dec a b : Decision (key_le a b).
Proof. unfold key_le. apply _. Defined.

Definition order_by {A} (key : A -> str * str) : list A -> list A :=
  merge_sort (fun x y => key_le (key x) (key y)).

(** The foreign keys that name a profile: history and its counters go with it,
    worksheets and the layout forget it. *)
Definition forget (key : str) (o : option str) : option str :=
  match o with Some k => if nocase k key then None else o | None => None end.

Definition delete_profile_rows (t : Tables) (key : str) : Tables :=
  mkTables (delete_where (fun r => nocase (row_id r) key) (profiles t))
    (settings t)
    (delete_where (fun r => nocase (h_profile r) key) (histories t))
    (history_seq t)
    (delete_where (fun r => nocase (m_profile r) key) (metas t))
    (map (fun r => mkWorksheetRow (w_id r) (forget key (w_profile r)) (w_title r) (w_text r) (w_caret r)
                     (w_scroll r) (w_tab_order r) (w_created_at r) (w_updated_at r)) (worksheets t))
    (worksheet_settings t)
    (map (fun r => mkLayoutRow (l_worksheet r) (forget key (l_profile r)) (l_object_browser_width r)
                     (l_result_pane_height r) (l_x r) (l_y r) (l_width r) (l_height r) (l_maximized r)
                     (l_updated_at r)) (layouts t)).

(** And the ones that name a worksheet. *)
Definition delete_worksheet_rows (t : Tables) (key : str) : Tables :=
  mkTables (profiles t) (settings t) (histories t) (history_seq t) (metas t)
    (delete_where (fun r => nocase (w_id r) key) (worksheets t))
    (delete_where (fun r => nocase (ws_worksheet r) key) (worksheet_settings t))
    (map (fun r => mkLayoutRow (forget key (l_worksheet r)) (l_profile r) (l_object_browser_width r)
                     (l_result_pane_height r) (l_x r) (l_y r) (l_width r) (l_height r) (l_maximized r)
                     (l_updated_at r)) (layouts t)).

(** The [CHECK]s and keys of the schema, as a statement's failure. *)
Definition constraint_failed (what : string) : RusqliteError :=
  SqliteFailure ConstraintViolation 19 (lit what) None.

Definition refers (exists_in : str -> bool) (o : option str) : bool :=
  match o with Some k => exists_in k | None => true end.

Definition profile_row_ok (r : ProfileRow) : bool :=
  (length (row_id r) =? 36)%nat && (0 <? length (row_name r))%nat
  && ((row_treat_as_production r =? 0) || (row_treat_as_production r =? 1))
  && match row_port r with Some p => (1 <=? p) && (p <=? 65535) | None => true end
  && match row_password_in_credential_store r with Some p => (p =? 0) || (p =? 1) | None => true end
  && ((row_allow_unenforced_certificate_pin r =? 0) || (row_allow_unenforced_certificate_pin r =? 1)).

Definition setting_row_ok (r : SettingRow) : bool :=
  existsb (str_eqb (s_scope r)) [lit "application"; lit "profile"; lit "worksheet"]
  && Bool.eqb (str_eqb (s_scope r) (lit "application")) (bool_decide (s_scope_id r = []))
  && match s_int r, s_text r with Some _, Some _ => false | _, _ => true end.

Definition history_row_ok (t : Tables) (r : HistoryRow) : bool :=
  has_profile t (h_profile r)
  && existsb (str_eqb (h_outcome r)) [lit "succeeded"; lit "failed"; lit "cancelled"; lit "timed_out"]
  && (str_eqb (h_outcome r) (lit "failed") || match h_native_code r with None => true | Some _ => false end).

Definition worksheet_row_ok (t : Tables) (r : WorksheetRow) : bool :=
  (length (w_id r) =? 36)%nat && refers (has_profile t) (w_profile r).

Definition layout_row_ok (t : Tables) (r : LayoutRow) : bool :=
  refers (has_worksheet t) (l_worksheet r) && refers (has_profile t) (l_profile r)
  && ((l_maximized r =? 0) || (l_maximized r =? 1)).

(** ** The connection *)

Record Conn := mkConn { tables : Tables; faults : list (option RusqliteError) }.

Section Monad.
Context {U : Uuid}.

(** An operation on the store: its answer and the connection afterwards. *)
Definition Db (A : Type) := Conn -> result A StoreError * Conn.

Definition db_ret {A} (a : A) : Db A := fun c => (Ok a, c).
Definition db_fail {A} (e : StoreError) : Db A := fun c => (Err e, c).
Definition db_bind {A B} (m : Db A) (k : A -> Db B) : Db B := fun c =>
  match m c with
  | (Ok a, c') => k a c'
  | (Err e, c') => (Err e, c')
  end.

(** [?] on a value the store's code computed itself. *)
Definition db_lift {A} (r : result A StoreError) : Db A := fun c => (r, c).

(** One call into SQLite. *)
Definition sqlite : Db unit := fun c =>
  match faults c with
  | [] => (Ok tt, c)
  | None :: rest => (Ok tt, mkConn (tables c) rest)
  | Some e :: rest => (Err (from_rusqlite e), mkConn (tables c) rest)
  end.

(** A query, and a statement that changes the tables. *)
Definition query {A} (f : Tables -> A) : Db A :=
  db_bind sqlite (fun _ c => (Ok (f (tables c)), c)).

Definition execute {A} (f : Tables -> result (A * Tables) RusqliteError) : Db A :=
  db_bind sqlite (fun _ c =>
    match f (tables c) with
    | Ok (a, t) => (Ok a, mkConn t (faults c))
    | Err e => (Err (from_rusqlite e), c)
    end).

(** [transaction_with_behavior(Immediate)], the body, [commit]; a transaction
    dropped before its commit, or whose commit fails, is rolled back. *)
Definition transaction {A} (body : Db A) : Db A := fun c =>
  match sqlite c with
  | (Err e, c1) => (Err e, c1)
  | (Ok _, c1) =>
      match db_bind body (fun a => db_bind sqlite (fun _ => db_ret a)) c1 with
      | (Ok a, c2) => (Ok a, c2)
      | (Err e, c2) => (Err e, mkConn (tables c) (faults c2))
      end
  end.

End Monad.

Declare Scope db_scope.
Delimit Scope db_scope with db.
Notation "'do' x <- m ; k" := (db_bind m (fun x => k))
  (at level 200, x pattern, m at level 100, k at level 200, right associativity) : db_scope.
Notation "m ';;' k" := (db_bind m (fun _ => k))
  (at level 100, k at level 200, right associativity) : db_scope.
