(* ===== verification/Store.v ===== *)
(** * The workspace store (workspace/src/store: mod.rs, history.rs, worksheet.rs)

    Every operation of [Store] on profiles, settings, history, worksheets and the
    layout, statement by statement, over the tables and the failing connection
    of Tables.  The clock is the argument [now]. *)

From stdpp Require Import sorting.
From S2P Require Import Prelude RustStr RustText Settings Ids Profile Codec Workspace Tables.
Open Scope Z_scope.
Open Scope db_scope.

Section Store.
Context {CM : CaseMap} {U : Uuid} {T : Target}.

Inductive Scope := ScopeApplication | ScopeProfile (p : ProfileId) | ScopeWorksheet (w : WorksheetId).

Definition scope_level (s : Scope) : Level :=
  match s with
  | ScopeApplication => Application
  | ScopeProfile _ => ProfileLevel
  | ScopeWorksheet _ => WorksheetLevel
  end.

Definition id_text (s : Scope) : str :=
  match s with
  | ScopeApplication => []
  | ScopeProfile id => id_to_string id
  | ScopeWorksheet id => id_to_string id
  end.

Inductive StoreTable := TProfile | TSetting | TWorksheet.

Inductive RejectReason :=
| UnknownSetting
| UnknownKind (word : str)
| Malformed
| Refused (e : SettingError)
| UndecodableProfile (e : DecodeError)
| UndecodableWorksheet (column : string) (e : IdError)
| UndecodableState (e : WorksheetError).

Record RejectedRow := mkRejected { table : StoreTable; key : str; reason : RejectReason }.

Record Loaded (A : Type) := mkLoaded { loaded : A; rejected : list RejectedRow }.
#[global] Arguments mkLoaded {A} _ _.
#[global] Arguments loaded {A} _.
#[global] Arguments rejected {A} _.

(** ** Profiles *)

Definition encoded (p : Profile) : result ProfileRow StoreError :=
  match validate (details p) with
  | Err e => Err (InvalidProfile e)
  | Ok _ => match encode_profile p with
            | Some row => Ok row
            | None => Err (InvalidProfile PathNotUnicode)
            end
  end.

(** [INSERT INTO profile ... ON CONFLICT (id) DO NOTHING]: rows inserted. *)
Definition insert_profile_row (row : ProfileRow) (t : Tables) : result (nat * Tables) RusqliteError :=
  if negb (profile_row_ok row) then Err (constraint_failed "CHECK")
  else if has_profile t (row_id row) then Ok (0%nat, t)
  else Ok (1%nat, set_profiles t (profiles t ++ [row])).

Definition insert_profile (p : Profile) : Db unit :=
  do row <- db_lift (encoded p);
  transaction (
    do inserted <- execute (insert_profile_row row);
    if (inserted =? 0)%nat then db_fail (ProfileExists (profile_id p)) else db_ret tt).

(** [UPDATE profile SET ... WHERE id = ?1]: everything but the identifier as
    stored and the creation time. *)
Definition with_details (row old : ProfileRow) : ProfileRow :=
  mkProfileRow (row_id old) (row_name row) (row_database_type row) (row_environment row)
    (row_environment_label row) (row_treat_as_production row) (row_endpoint_kind row) (row_host row)
    (row_port row) (row_service_name row) (row_sid row) (row_connect_string row) (row_auth_kind row)
    (row_username row) (row_password_in_credential_store row) (row_role row) (row_transport row)
    (row_ca_directory row) (row_allow_unenforced_certificate_pin row) (row_created_at old)
    (row_modified_at row).

Definition update_profile_row (row : ProfileRow) (t : Tables) : result (nat * Tables) RusqliteError :=
  let here r := nocase (row_id r) (row_id row) in
  if existsb here (profiles t) && negb (profile_row_ok row) then Err (constraint_failed "CHECK")
  else Ok (count_where here (profiles t), set_profiles t (update_where here (with_details row) (profiles t))).

Definition update_profile (p : Profile) : Db unit :=
  do row <- db_lift (encoded p);
  transaction (
    do updated <- execute (update_profile_row row);
    if (updated =? 0)%nat then db_fail (ProfileNotFound (profile_id p)) else db_ret tt).

Definition delete_profile (id : ProfileId) : Db bool :=
  let key := id_to_string id in
  transaction (
    execute (fun t => Ok (tt, set_settings t (delete_where
      (fun r => str_eqb (s_scope r) (lit "profile") && nocase (s_scope_id r) key) (settings t))));;
    do deleted <- execute (fun t =>
      Ok (count_where (fun r => nocase (row_id r) key) (profiles t), delete_profile_rows t key));
    db_ret (0 <? deleted)%nat).

Definition profile (id : ProfileId) : Db (option Profile) :=
  do row <- query (fun t => find (fun r => nocase (row_id r) (id_to_string id)) (profiles t));
  match row with
  | None => db_ret None
  | Some row =>
      match decode_profile row with
      | Ok p => db_ret (Some p)
      | Err e => db_fail (InvalidProfileRow e)
      end
  end.

(** One row of the loop: decoded, or reported. *)
Definition load_profile (acc : Loaded (list Profile)) (row : ProfileRow) : Loaded (list Profile) :=
  match decode_profile row with
  | Ok p => mkLoaded (loaded acc ++ [p]) (rejected acc)
  | Err e => mkLoaded (loaded acc) (rejected acc ++ [mkRejected TProfile (row_id row) (UndecodableProfile e)])
  end.

Definition all_profiles : Db (Loaded (list Profile)) :=
  do rows <- query (fun t => order_by (fun r => (row_name r, lower (row_id r))) (profiles t));
  db_ret (fold_left load_profile rows (mkLoaded [] [])).

(** ** Settings *)

Definition StoredValue : Type := str * str * option Z * option str.

(** The rows of one scope, in key order. *)
Definition layer_rows (s : Scope) (t : Tables) : list StoredValue :=
  match s with
  | ScopeWorksheet id =>
      map (fun r => (ws_key r, ws_kind r, ws_int r, ws_text r))
        (order_by (fun r => (ws_key r, [])) (filter (fun r => nocase (ws_worksheet r) (id_to_string id) = true) (worksheet_settings t)))
  | _ =>
      map (fun r => (s_key r, s_kind r, s_int r, s_text r))
        (order_by (fun r => (s_key r, []))
          (filter (fun r => str_eqb (s_scope r) (level_word (scope_level s)) && nocase (s_scope_id r) (id_text s) = true)
             (settings t)))
  end.

(** One row of the loop: set, or reported. *)
Definition load_value (level : Level) (acc : Loaded SettingsLayer) (row : StoredValue) : Loaded SettingsLayer :=
  let '(key, kind, int, text) := row in
  let reject why := mkLoaded (loaded acc) (rejected acc ++ [mkRejected TSetting key why]) in
  match from_storage_key key with
  | None => reject UnknownSetting
  | Some id =>
      match decode_value kind int text with
      | Err (UnknownKindWord w) => reject (UnknownKind w)
      | Err MalformedValue => reject Malformed
      | Ok v =>
          match set_value level (loaded acc) id v with
          | Ok (_, layer) => mkLoaded layer (rejected acc)
          | Err e => reject (Refused e)
          end
      end
  end.

Definition load_rows (level : Level) (rows : list StoredValue) : Loaded SettingsLayer :=
  fold_left (load_value level) rows (mkLoaded layer_new []).

Definition load_layer (s : Scope) : Db (Loaded SettingsLayer) :=
  do rows <- query (layer_rows s);
  db_ret (load_rows (scope_level s) rows).

Definition application_settings : Db (Loaded SettingsLayer) := load_layer ScopeApplication.
Definition profile_settings (id : ProfileId) : Db (Loaded SettingsLayer) := load_layer (ScopeProfile id).
Definition get_worksheet_settings (id : WorksheetId) : Db (Loaded SettingsLayer) := load_layer (ScopeWorksheet id).

Definition same_setting (scope scope_id key : str) (r : SettingRow) : bool :=
  str_eqb (s_scope r) scope && nocase (s_scope_id r) scope_id && str_eqb (s_key r) key.

Definition same_worksheet_setting (worksheet key : str) (r : WorksheetSettingRow) : bool :=
  nocase (ws_worksheet r) worksheet && str_eqb (ws_key r) key.

Definition put_setting_row (row : SettingRow) (t : Tables) : result (unit * Tables) RusqliteError :=
  if negb (setting_row_ok row) then Err (constraint_failed "CHECK")
  else Ok (tt, set_settings t
    (upsert (same_setting (s_scope row) (s_scope_id row) (s_key row))
       (fun old => mkSettingRow (s_scope old) (s_scope_id old) (s_key old) (s_kind row) (s_int row) None (s_updated_at row))
       row (settings t))).

Definition put_worksheet_setting_row (row : WorksheetSettingRow) (t : Tables) : result (unit * Tables) RusqliteError :=
  if negb (has_worksheet t (ws_worksheet row)) then Err (constraint_failed "FOREIGN KEY")
  else Ok (tt, set_worksheet_settings t
    (upsert (same_worksheet_setting (ws_worksheet row) (ws_key row))
       (fun old => mkWsRow (ws_worksheet old) (ws_key old) (ws_kind row) (ws_int row) None (ws_updated_at row))
       row (worksheet_settings t))).

Definition put_setting_value (now : Z) (s : Scope) (id : SettingId) (v : SettingValue) : Db unit :=
  match check (descriptor id) (scope_level s) v with
  | Err e => db_fail (InvalidSetting e)
  | Ok _ =>
      let '(kind, int) := encode_value v in
      transaction (
        match s with
        | ScopeProfile p =>
            do found <- query (fun t => has_profile t (id_to_string p));
            if negb found then db_fail (ProfileNotFound p) else db_ret tt
        | _ => db_ret tt
        end;;
        match s with
        | ScopeWorksheet w =>
            do found <- query (fun t => has_worksheet t (id_to_string w));
            if negb found then db_fail (WorksheetNotFound w)
            else execute (put_worksheet_setting_row (mkWsRow (id_to_string w) (storage_key id) kind int None now))
        | _ => execute (put_setting_row (mkSettingRow (level_word (scope_level s)) (id_text s) (storage_key id) kind int None now))
        end)
  end.

Definition put_setting {A} `{SettingType A} (now : Z) (s : Scope) (setting : Setting A) (x : A) : Db unit :=
  put_setting_value now s (setting_id setting) (into_value x).

Definition clear_setting (s : Scope) (id : SettingId) : Db bool :=
  transaction (
    do deleted <- execute (fun t =>
      match s with
      | ScopeWorksheet w =>
          let here := same_worksheet_setting (id_to_string w) (storage_key id) in
          Ok (count_where here (worksheet_settings t), set_worksheet_settings t (delete_where here (worksheet_settings t)))
      | _ =>
          let here := same_setting (level_word (scope_level s)) (id_text s) (storage_key id) in
          Ok (count_where here (settings t), set_settings t (delete_where here (settings t)))
      end);
    db_ret (0 <? deleted)%nat).

Definition clear_worksheet_settings (id : WorksheetId) : Db nat :=
  transaction (execute (fun t =>
    let here r := nocase (ws_worksheet r) (id_to_string id) in
    Ok (count_where here (worksheet_settings t), set_worksheet_settings t (delete_where here (worksheet_settings t))))).

(** ** History *)

Definition to_i64 (n : Z) : Z := if n <=? i64_max then n else i64_max.

(** [AUTOINCREMENT]: past every row number ever given. *)
Definition next_history_id (t : Tables) : Z := fold_left Z.max (map h_id (histories t)) (history_seq t) + 1.

Definition insert_history_row (row : Z -> HistoryRow) (t : Tables) : result (HistoryId * Tables) RusqliteError :=
  let id := next_history_id t in
  if negb (history_row_ok t (row id)) then Err (constraint_failed "CHECK or FOREIGN KEY")
  else Ok (id, set_seq (set_histories t (histories t ++ [row id])) id).

(** The counter's upsert, with its [RETURNING count]. *)
Definition count_history (key : str) (t : Tables) : result (Z * Tables) RusqliteError :=
  if negb (has_profile t key) then Err (constraint_failed "FOREIGN KEY")
  else
    let here r := nocase (m_profile r) key in
    let ms := upsert here (fun m => mkMeta (m_profile m) (m_count m + 1)) (mkMeta key 1) (metas t) in
    Ok (match find here ms with Some m => m_count m | None => 0 end, set_metas t ms).

Definition current_max_entries : Db (option Z) :=
  do stored <- query (fun t => option_map s_int
    (find (same_setting (lit "application") [] (storage_key HistoryMaxEntriesPerProfile)) (settings t)));
  db_ret match stored with
         | None =>
             match default_value HISTORY_MAX_ENTRIES_PER_PROFILE with
             | Ret (EntryCount n) => Some n
             | _ => None
             end
         | Some None => None
         | Some (Some n) => Some (if is_u32 n then n else u32_max)
         end.

(** The [SELECT id ... ORDER BY id ASC LIMIT k] of the rows to trim. *)
Definition oldest (key : str) (k : Z) (l : list HistoryRow) : list Z :=
  take (Z.to_nat k) (merge_sort Z.le (map h_id (filter (fun r => nocase (h_profile r) key = true) l))).

Definition trim_history (key : str) (excess : Z) (t : Tables) : result (unit * Tables) RusqliteError :=
  let ids := oldest key excess (histories t) in
  Ok (tt, set_histories t (delete_where (fun r => bool_decide (h_id r ∈ ids)) (histories t))).

Definition uncount_history (key : str) (excess : Z) (t : Tables) : result (unit * Tables) RusqliteError :=
  Ok (tt, set_metas t (update_where (fun m => nocase (m_profile m) key)
    (fun m => mkMeta (m_profile m) (m_count m - excess)) (metas t))).

Definition record_history (e : HistoryEntry) : Db HistoryId :=
  match entry_validate e with
  | Err err => db_fail (InvalidHistory err)
  | Ok _ =>
      let '(word, native_code) := encode_history_outcome (outcome e) in
      let key := id_to_string (entry_profile e) in
      transaction (
        do found <- query (fun t => has_profile t key);
        if negb found then db_fail (ProfileNotFound (entry_profile e))
        else
          do id <- execute (insert_history_row (fun id =>
                 mkHistoryRow id key (executed_at e) (statement e) word native_code
                   (to_i64 (elapsed_ms e)) (option_map to_i64 (row_count e))));
          do count <- execute (count_history key);
          do limit <- current_max_entries;
          match limit with
          | Some limit =>
              if limit <? count then
                execute (trim_history key (count - limit));;
                execute (uncount_history key (count - limit))
              else db_ret tt
          | None => db_ret tt
          end;;
          db_ret id)
  end.

(** [u64::try_from(n).unwrap_or(0)]. *)
Definition to_u64 (n : Z) : Z := if 0 <=? n then n else 0.

Definition newer (a b : HistoryRow) : Prop := (h_id b <= h_id a)%Z.
#[global] Instance newer_dec a b : Decision (newer a b).
Proof. unfold newer. apply _. Defined.

Definition history_rows (key : str) (page : HistoryPage) (l : list HistoryRow) : list HistoryRow :=
  take (Z.to_nat (limit page))
    (merge_sort newer
      (filter (fun r => nocase (h_profile r) key
                 && match before page with Some b => h_id r <? b | None => true end = true) l)).

Fixpoint decode_history (p : ProfileId) (rows : list HistoryRow) : result (list HistoryRecord) StoreError :=
  match rows with
  | [] => Ok []
  | r :: rest =>
      match decode_history_outcome (h_outcome r) (h_native_code r) with
      | Err word => Err (InvalidOutcome word)
      | Ok o =>
          match decode_history p rest with
          | Err e => Err e
          | Ok records =>
              Ok (mkRecord (h_id r) p (h_executed_at r) (h_statement r) o (to_u64 (h_elapsed_ms r))
                    (option_map to_u64 (h_row_count r)) :: records)
          end
      end
  end.

Definition history (p : ProfileId) (page : HistoryPage) : Db (list HistoryRecord) :=
  do rows <- query (fun t => history_rows (id_to_string p) page (histories t));
  db_lift (decode_history p rows).

Definition clear_history (p : ProfileId) : Db nat :=
  let key := id_to_string p in
  transaction (
    do deleted <- execute (fun t =>
      Ok (count_where (fun r => nocase (h_profile r) key) (histories t),
          set_histories t (delete_where (fun r => nocase (h_profile r) key) (histories t))));
    execute (fun t => Ok (tt, set_metas t (delete_where (fun r => nocase (m_profile r) key) (metas t))));;
    db_ret deleted).

(** ** Worksheets *)

Definition worksheet_row (w : Worksheet) : WorksheetRow :=
  mkWorksheetRow (id_to_string (worksheet_id w)) (option_map id_to_string (worksheet_profile w))
    (title (state w)) (text (state w)) (caret (state w)) (scroll (state w)) (tab_order w)
    (worksheet_created_at w) (worksheet_updated_at w).

Definition save_worksheet_row (row : WorksheetRow) (t : Tables) : result (unit * Tables) RusqliteError :=
  if negb (worksheet_row_ok t row) then Err (constraint_failed "CHECK or FOREIGN KEY")
  else Ok (tt, set_worksheets t
    (upsert (fun r => nocase (w_id r) (w_id row))
       (fun old => mkWorksheetRow (w_id old) (w_profile row) (w_title row) (w_text row) (w_caret row)
                     (w_scroll row) (w_tab_order row) (w_created_at old) (w_updated_at row))
       row (worksheets t))).

Definition save_worksheet (w : Worksheet) : Db unit :=
  match state_validate (state w) with
  | Err e => db_fail (InvalidWorksheet e)
  | Ok _ =>
      transaction (
        match worksheet_profile w with
        | Some p =>
            do found <- query (fun t => has_profile t (id_to_string p));
            if negb found then db_fail (ProfileNotFound p) else db_ret tt
        | None => db_ret tt
        end;;
        execute (save_worksheet_row (worksheet_row w)))
  end.

Definition decode_worksheet (r : WorksheetRow) : result Worksheet RejectReason :=
  match id_parse (w_id r) with
  | Err e => Err (UndecodableWorksheet "id" e)
  | Ok id =>
      let build p :=
        match worksheet_from_stored id p (mkState (w_title r) (w_text r) (w_caret r) (w_scroll r))
                (w_tab_order r) (w_created_at r) (w_updated_at r) with
        | Ok w => Ok w
        | Err e => Err (UndecodableState e)
        end in
      match w_profile r with
      | None => build None
      | Some text => match id_parse text with
                     | Ok p => build (Some p)
                     | Err e => Err (UndecodableWorksheet "profile_id" e)
                     end
      end
  end.

Definition out_of_range : RusqliteError := OtherRusqlite (lit "integer out of range").

(** The loop: a column that is not a [u32] ends it with an error. *)
Fixpoint load_worksheet_rows (acc : Loaded (list Worksheet)) (rows : list WorksheetRow)
  : result (Loaded (list Worksheet)) StoreError :=
  match rows with
  | [] => Ok acc
  | r :: rest =>
      if negb (is_u32 (w_caret r) && is_u32 (w_scroll r) && is_u32 (w_tab_order r))
      then Err (from_rusqlite out_of_range)
      else load_worksheet_rows
             match decode_worksheet r with
             | Ok w => mkLoaded (loaded acc ++ [w]) (rejected acc)
             | Err why => mkLoaded (loaded acc) (rejected acc ++ [mkRejected TWorksheet (w_id r) why])
             end rest
  end.

Definition load_worksheets : Db (Loaded (list Worksheet)) :=
  do rows <- query (fun t => order_by (fun r => ([w_tab_order r], lower (w_id r))) (worksheets t));
  db_lift (load_worksheet_rows (mkLoaded [] []) rows).

Definition delete_worksheet (id : WorksheetId) : Db bool :=
  let key := id_to_string id in
  transaction (
    do deleted <- execute (fun t =>
      Ok (count_where (fun r => nocase (w_id r) key) (worksheets t), delete_worksheet_rows t key));
    db_ret (0 <? deleted)%nat).

(** ** Layout *)

Definition layout_row (now : Z) (l : Layout) : LayoutRow :=
  mkLayoutRow (option_map id_to_string (active_worksheet l)) (option_map id_to_string (active_profile l))
    (object_browser_width (panes l)) (result_pane_height (panes l)) (window_x (window l))
    (window_y (window l)) (window_width (window l)) (window_height (window l))
    (of_bool (maximized (window l))) now.

(** There is one row, under the key 1. *)
Definition save_layout_row (row : LayoutRow) (t : Tables) : result (unit * Tables) RusqliteError :=
  if negb (layout_row_ok t row) then Err (constraint_failed "CHECK or FOREIGN KEY")
  else Ok (tt, set_layouts t (upsert (fun _ => true) (fun _ => row) row (layouts t))).

Definition save_layout (now : Z) (l : Layout) : Db unit :=
  transaction (
    match active_worksheet l with
    | Some w =>
        do found <- query (fun t => has_worksheet t (id_to_string w));
        if negb found then db_fail (WorksheetNotFound w) else db_ret tt
    | None => db_ret tt
    end;;
    match active_profile l with
    | Some p =>
        do found <- query (fun t => has_profile t (id_to_string p));
        if negb found then db_fail (ProfileNotFound p) else db_ret tt
    | None => db_ret tt
    end;;
    execute (save_layout_row (layout_row now l))).

Definition parse_optional (column : string) (o : option str) : result (option uuid) StoreError :=
  match o with
  | None => Ok None
  | Some text => match id_parse text with Ok u => Ok (Some u) | Err e => Err (InvalidLayoutId column e) end
  end.

Definition optional_in (p : Z -> bool) (o : option Z) : bool :=
  match o with Some z => p z | None => true end.

Definition decode_layout (r : LayoutRow) : result Layout StoreError :=
  if negb (optional_in is_u32 (l_object_browser_width r) && optional_in is_u32 (l_result_pane_height r)
           && optional_in is_i32 (l_x r) && optional_in is_i32 (l_y r)
           && optional_in is_u32 (l_width r) && optional_in is_u32 (l_height r))
  then Err (from_rusqlite out_of_range)
  else match parse_optional "active_worksheet_id" (l_worksheet r) with
  | Err e => Err e
  | Ok w =>
      match parse_optional "active_profile_id" (l_profile r) with
      | Err e => Err e
      | Ok p =>
          Ok (mkLayout w p (mkPanes (l_object_browser_width r) (l_result_pane_height r))
                (mkGeometry (l_x r) (l_y r) (l_width r) (l_height r) (negb (l_maximized r =? 0))))
      end
  end.

Definition load_layout : Db (option Layout) :=
  do row <- query (fun t => head (layouts t));
  match row with
  | None => db_ret None
  | Some r => do l <- db_lift (decode_layout r); db_ret (Some l)
  end.

End Store.
