(* ===== verification/StoreProps.v ===== *)
(** * The invariant of the store file

    [db_ok] is what SQLite's keys and checks promise of the tables, plus the one
    promise the code keeps itself: the history counters are exact.  A program
    logic for [Db] ([triple]) then shows that every operation keeps it, whatever
    SQLite fails at, and what an operation can answer. *)

From stdpp Require Import sorting.
From S2P Require Import Prelude RustStr RustText Settings Ids Profile Codec Workspace Tables Store SettingsClaims ProfileClaims.
Open Scope Z_scope.
Open Scope db_scope.

(** ** Lists as tables *)

Lemma delete_where_sublist {A} (p : A -> bool) l : delete_where p l `sublist_of` l.
Proof. apply sublist_filter. Qed.

Lemma elem_of_delete_where {A} (p : A -> bool) l x : x ∈ delete_where p l <-> x ∈ l /\ p x = false.
Proof. unfold delete_where. rewrite list_elem_of_filter. tauto. Qed.

Lemma NoDup_delete_where {A B} (f : A -> B) p l : NoDup (map f l) -> NoDup (map f (delete_where p l)).
Proof. intros H. eapply sublist_NoDup; [exact H|]. apply (fmap_sublist f), delete_where_sublist. Qed.

Lemma Forall_sublist {A} (P : A -> Prop) l k : Forall P l -> k `sublist_of` l -> Forall P k.
Proof. rewrite !Forall_forall. eauto using elem_of_sublist. Qed.

(** Rows with distinct keys are the same when their keys are. *)
Lemma unique_key {A B} (f : A -> B) (l : list A) x y : NoDup (map f l) -> x ∈ l -> y ∈ l -> f x = f y -> x = y.
Proof.
  intros Hn Hx Hy E. apply list_elem_of_lookup in Hx as [i Hi]. apply list_elem_of_lookup in Hy as [j Hj].
  assert (i = j) as ->; [|congruence].
  eapply NoDup_lookup; [exact Hn|..]; change (map f l) with (f <$> l); rewrite list_lookup_fmap.
  - rewrite Hi. done.
  - rewrite Hj. simpl. by rewrite E.
Qed.

Lemma update_where_map {A B} (f : A -> B) p g (l : list A) :
  (forall x, f (g x) = f x) -> map f (update_where p g l) = map f l.
Proof. intros H. unfold update_where. rewrite map_map. apply map_ext. intros x. by destruct (p x). Qed.

Lemma Forall_update_where {A} (P : A -> Prop) p g (l : list A) :
  Forall P l -> (forall x, P x -> p x = true -> P (g x)) -> Forall P (update_where p g l).
Proof.
  intros Hl Hg. unfold update_where. induction Hl as [|x l Hx Hl IH]; simpl; constructor; [|done].
  destruct (p x) eqn:E; auto.
Qed.

Lemma update_where_none {A} (p : A -> bool) g (l : list A) : existsb p l = false -> update_where p g l = l.
Proof.
  unfold update_where. induction l as [|x l IH]; simpl; [done|]. intros H. boolify.
  match goal with H : p x = false |- _ => rewrite H end. by rewrite IH.
Qed.

Lemma existsb_true {A} (p : A -> bool) l : existsb p l = true <-> exists x, x ∈ l /\ p x = true.
Proof. rewrite existsb_exists. by setoid_rewrite list_elem_of_In. Qed.

Lemma no_member_nil {A} (l : list A) : (forall x, x ∈ l -> False) -> l = [].
Proof. destruct l as [|x l]; [done|]. intros H. destruct (H x). left. Qed.

(** An upsert keeps keys unique and rows well formed. *)
Lemma upsert_unique {A B} (k : A -> B) (same : A -> bool) g r (l : list A) :
  (forall x, same x = true <-> k x = k r) -> (forall x, k (g x) = k x) ->
  NoDup (map k l) -> NoDup (map k (upsert same g r l)).
Proof.
  intros Hs Hg Hl. unfold upsert. destruct (existsb same l) eqn:E.
  - by rewrite update_where_map.
  - apply existsb_false in E. rewrite map_app. apply NoDup_app. split_and!; [done| |apply NoDup_singleton].
    intros y Hy. apply list_elem_of_fmap in Hy as (x & -> & Hx). simpl. rewrite list_elem_of_singleton.
    intros Hk. apply Hs in Hk. rewrite Forall_forall in E. specialize (E x Hx). simpl in E. congruence.
Qed.

Lemma Forall_upsert {A} (P : A -> Prop) same g r (l : list A) :
  Forall P l -> P r -> (forall x, P x -> same x = true -> P (g x)) -> Forall P (upsert same g r l).
Proof.
  intros Hl Hr Hg. unfold upsert. destruct (existsb same l); [by apply Forall_update_where|].
  apply Forall_app. by repeat constructor.
Qed.

(** ** The invariant *)

Definition pkeys (t : Tables) : list str := map (fun r => lower (row_id r)) (profiles t).
Definition wkeys (t : Tables) : list str := map (fun r => lower (w_id r)) (worksheets t).

Lemma has_profile_true t k : has_profile t k = true <-> lower k ∈ pkeys t.
Proof.
  unfold has_profile, pkeys. rewrite existsb_true, list_elem_of_fmap. setoid_rewrite nocase_true.
  naive_solver.
Qed.

Lemma has_worksheet_true t k : has_worksheet t k = true <-> lower k ∈ wkeys t.
Proof.
  unfold has_worksheet, wkeys. rewrite existsb_true, list_elem_of_fmap. setoid_rewrite nocase_true.
  naive_solver.
Qed.

Definition names (keys : list str) (o : option str) : Prop :=
  match o with Some k => lower k ∈ keys | None => True end.

(** The number of history entries of a profile, and what its counter says. *)
Definition entries (key : str) (hs : list HistoryRow) : list HistoryRow :=
  filter (fun r => nocase (h_profile r) key = true) hs.
Definition counted (key : str) (ms : list MetaRow) : Z :=
  match find (fun m => nocase (m_profile m) key) ms with Some m => m_count m | None => 0 end.

Definition outcome_row_ok (r : HistoryRow) : Prop :=
  existsb (str_eqb (h_outcome r)) [lit "succeeded"; lit "failed"; lit "cancelled"; lit "timed_out"]
  && (str_eqb (h_outcome r) (lit "failed") || match h_native_code r with None => true | Some _ => false end) = true.

Record db_ok (t : Tables) : Prop := {
  profiles_unique : NoDup (pkeys t);
  profiles_checked : Forall (fun r => profile_row_ok r = true) (profiles t);
  settings_unique : NoDup (map (fun r => (s_scope r, lower (s_scope_id r), s_key r)) (settings t));
  settings_checked : Forall (fun r => setting_row_ok r = true) (settings t);
  history_ordered : StronglySorted Z.lt (map h_id (histories t));
  history_numbered : Forall (fun r => h_id r <= history_seq t) (histories t);
  history_checked : Forall (fun r => outcome_row_ok r /\ lower (h_profile r) ∈ pkeys t) (histories t);
  metas_unique : NoDup (map (fun m => lower (m_profile m)) (metas t));
  metas_checked : Forall (fun m => lower (m_profile m) ∈ pkeys t) (metas t);
  counters_exact : forall key, counted key (metas t) = Z.of_nat (length (entries key (histories t)));
  worksheets_unique : NoDup (wkeys t);
  worksheets_checked : Forall (fun r => length (w_id r) = 36%nat /\ names (pkeys t) (w_profile r)) (worksheets t);
  overrides_unique : NoDup (map (fun r => (lower (ws_worksheet r), ws_key r)) (worksheet_settings t));
  overrides_checked : Forall (fun r => lower (ws_worksheet r) ∈ wkeys t) (worksheet_settings t);
  one_layout : (length (layouts t) <= 1)%nat;
  layout_checked : Forall (fun r => names (wkeys t) (l_worksheet r) /\ names (pkeys t) (l_profile r) /\
                                    (l_maximized r = 0 \/ l_maximized r = 1)) (layouts t);
}.

Lemma no_tables_ok : db_ok no_tables.
Proof. split; simpl; try constructor; done || lia. Qed.

(** ** A program logic for [Db]

    [F] is what SQLite may fail with: [triple P m Q E] says that from tables
    satisfying [P] the operation answers [Ok] with [Q], or an error that is in
    [E] or one of those failures. *)
Section Logic.
Context {U : Uuid} (F : RusqliteError -> Prop).

Definition script_ok (c : Conn) : Prop := forall f, Some f ∈ faults c -> F f.

Definition answers {A} (Q : A -> Tables -> Prop) (E : StoreError -> Prop) (r : result A StoreError) (c : Conn) : Prop :=
  match r with
  | Ok a => Q a (tables c)
  | Err e => E e \/ exists f, F f /\ e = from_rusqlite f
  end.

Definition triple {A} (P : Tables -> Prop) (m : Db A) (Q : A -> Tables -> Prop) (E : StoreError -> Prop) : Prop :=
  forall c, P (tables c) -> script_ok c -> script_ok (m c).2 /\ answers Q E (m c).1 (m c).2.

Lemma triple_ret {A} (a : A) (P : Tables -> Prop) (Q : A -> Tables -> Prop) E :
  (forall t, P t -> Q a t) -> triple P (db_ret a) Q E.
Proof. intros H c HP Hs. split; [done|]. by apply H. Qed.

Lemma triple_fail {A} e P (Q : A -> Tables -> Prop) (E : StoreError -> Prop) : E e -> triple P (db_fail e) Q E.
Proof. intros HE c _ Hs. split; [done|]. by left. Qed.

Lemma triple_lift {A} (r : result A StoreError) (P : Tables -> Prop) (Q : A -> Tables -> Prop) (E : StoreError -> Prop) :
  (forall t, P t -> match r with Ok a => Q a t | Err e => E e end) -> triple P (db_lift r) Q E.
Proof. intros H c HP Hs. split; [done|]. simpl. specialize (H _ HP). destruct r; simpl; auto. Qed.

Lemma triple_bind {A B} (m : Db A) (k : A -> Db B) P R Q E :
  triple P m R E -> (forall a, triple (R a) (k a) Q E) -> triple P (db_bind m k) Q E.
Proof.
  intros Hm Hk c HP Hs. unfold db_bind. destruct (Hm c HP Hs) as [Hs' Ha].
  destruct (m c) as [[a|e] c']; simpl in *; [|done]. by apply Hk.
Qed.

Lemma triple_weaken {A} (m : Db A) (P P' : Tables -> Prop) (Q Q' : A -> Tables -> Prop) (E E' : StoreError -> Prop) :
  triple P m Q E -> (forall t, P' t -> P t) -> (forall a t, Q a t -> Q' a t) -> (forall e, E e -> E' e) ->
  triple P' m Q' E'.
Proof.
  intros Hm HP HQ HE c Hc Hs. destruct (Hm c (HP _ Hc) Hs) as [Hs' Ha]. split; [done|].
  destruct (m c).1; simpl in *; [by apply HQ|]. destruct Ha; auto.
Qed.

Lemma triple_sqlite P E : triple P sqlite (fun _ t => P t) E.
Proof.
  intros c HP Hs. unfold sqlite, script_ok in *. destruct (faults c) as [|[f|] rest] eqn:Ef; simpl.
  - rewrite Ef. done.
  - split; [intros g Hg; apply Hs; by right|]. right. exists f. split; [|done]. apply Hs. left.
  - split; [intros g Hg; apply Hs; by right|done].
Qed.

Lemma triple_query {A} (f : Tables -> A) P E : triple P (query f) (fun a t => a = f t /\ P t) E.
Proof. eapply triple_bind; [apply triple_sqlite|]. intros [] c HP Hs. done. Qed.

Lemma triple_execute {A} (f : Tables -> result (A * Tables) RusqliteError) (P : Tables -> Prop) (Q : A -> Tables -> Prop) E :
  (forall t, P t -> exists a t', f t = Ok (a, t') /\ Q a t') -> triple P (execute f) Q E.
Proof.
  intros Hf. eapply triple_bind; [apply triple_sqlite|]. intros [] c HP Hs.
  destruct (Hf _ HP) as (a & t' & -> & HQ). done.
Qed.

Lemma triple_transaction {A} (body : Db A) P Q E : triple P body Q E -> triple P (transaction body) Q E.
Proof.
  intros Hb c HP Hs. unfold transaction. destruct (triple_sqlite P E c HP Hs) as [Hs1 H1].
  destruct (sqlite c) as [[[]|e] c1]; simpl in *; [|done].
  assert (triple P (db_bind body (fun a => db_bind sqlite (fun _ => db_ret a))) Q E) as H2.
  { eapply triple_bind; [done|]. intros a. eapply triple_bind; [apply triple_sqlite|].
    intros []. by apply triple_ret. }
  destruct (H2 c1 H1 Hs1) as [Hs2 H3].
  destruct (db_bind body _ c1) as [[a|e] c2]; simpl in *; done.
Qed.

Lemma triple_if {A} (b : bool) (m1 m2 : Db A) P Q E :
  (b = true -> triple P m1 Q E) -> (b = false -> triple P m2 Q E) -> triple P (if b then m1 else m2) Q E.
Proof. destruct b; auto. Qed.

(** A failed transaction leaves the file as it was. *)
Lemma sqlite_tables c : tables (sqlite c).2 = tables c.
Proof. unfold sqlite. by destruct (faults c) as [|[]]. Qed.

Lemma transaction_rollback {A} (body : Db A) c e c' : transaction body c = (Err e, c') -> tables c' = tables c.
Proof.
  unfold transaction. pose proof (sqlite_tables c). destruct (sqlite c) as [[[]|e1] c1]; simpl in *.
  - destruct (db_bind body _ c1) as [[a|e2] c2]; [done|]. by intros [= _ <-].
  - by intros [= _ <-].
Qed.

End Logic.

(** ** One table at a time *)

Lemma names_mono (ks ks' : list str) o : (forall k, k ∈ ks -> k ∈ ks') -> names ks o -> names ks' o.
Proof. destruct o; simpl; auto. Qed.

(** Hypotheses of [db_ok] about rows that only look at the other tables' keys
    survive any change that keeps those keys. *)
Ltac keep_rows H :=
  eapply Forall_impl; [exact H|]; simpl; intros; intuition eauto using names_mono.

Lemma db_ok_set_profiles t ps :
  db_ok t -> NoDup (map (fun r => lower (row_id r)) ps) -> Forall (fun r => profile_row_ok r = true) ps ->
  (forall k, k ∈ pkeys t -> k ∈ map (fun r => lower (row_id r)) ps) -> db_ok (set_profiles t ps).
Proof.
  intros [] Hn Hc Hk. split; unfold pkeys in *; simpl; try done.
  - keep_rows history_checked0.
  - keep_rows metas_checked0.
  - keep_rows worksheets_checked0.
  - keep_rows layout_checked0.
Qed.

Lemma db_ok_set_settings t ss :
  db_ok t -> NoDup (map (fun r => (s_scope r, lower (s_scope_id r), s_key r)) ss) ->
  Forall (fun r => setting_row_ok r = true) ss -> db_ok (set_settings t ss).
Proof. intros [] ? ?. by split. Qed.

Lemma db_ok_set_overrides t ws :
  db_ok t -> NoDup (map (fun r => (lower (ws_worksheet r), ws_key r)) ws) ->
  Forall (fun r => lower (ws_worksheet r) ∈ wkeys t) ws -> db_ok (set_worksheet_settings t ws).
Proof. intros [] ? ?. by split. Qed.

Lemma db_ok_set_worksheets t ws :
  db_ok t -> NoDup (map (fun r => lower (w_id r)) ws) ->
  Forall (fun r => length (w_id r) = 36%nat /\ names (pkeys t) (w_profile r)) ws ->
  (forall k, k ∈ wkeys t -> k ∈ map (fun r => lower (w_id r)) ws) -> db_ok (set_worksheets t ws).
Proof.
  intros [] Hn Hc Hk. split; unfold wkeys in *; simpl; try done.
  - keep_rows overrides_checked0.
  - keep_rows layout_checked0.
Qed.

Lemma db_ok_set_layouts t ls :
  db_ok t -> (length ls <= 1)%nat ->
  Forall (fun r => names (wkeys t) (l_worksheet r) /\ names (pkeys t) (l_profile r) /\
                   (l_maximized r = 0 \/ l_maximized r = 1)) ls -> db_ok (set_layouts t ls).
Proof. intros [] ? ?. by split. Qed.

Lemma db_ok_set_history t hs seq ms :
  db_ok t -> StronglySorted Z.lt (map h_id hs) -> Forall (fun r => h_id r <= seq) hs ->
  Forall (fun r => outcome_row_ok r /\ lower (h_profile r) ∈ pkeys t) hs ->
  NoDup (map (fun m => lower (m_profile m)) ms) -> Forall (fun m => lower (m_profile m) ∈ pkeys t) ms ->
  (forall key, counted key ms = Z.of_nat (length (entries key hs))) ->
  db_ok (set_metas (set_seq (set_histories t hs) seq) ms).
Proof. intros [] ? ? ? ? ?. by split. Qed.

(** ** Counters *)

Lemma nocase_trans a b c : nocase a b = true -> nocase a c = nocase b c.
Proof. rewrite nocase_true. intros H. unfold nocase. by rewrite H. Qed.

Lemma entries_app key a b : entries key (a ++ b) = entries key a ++ entries key b.
Proof. apply filter_app. Qed.

Lemma counted_lower key key' ms : nocase key key' = true -> counted key ms = counted key' ms.
Proof.
  intros H. unfold counted. induction ms as [|m ms IH]; simpl; [done|].
  rewrite (nocase_sym _ key), (nocase_sym _ key'), (nocase_trans key key' (m_profile m) H).
  by destruct (nocase key' (m_profile m)).
Qed.

Lemma entries_lower key key' hs : nocase key key' = true -> entries key hs = entries key' hs.
Proof.
  intros H. unfold entries. induction hs as [|r hs IH]; [done|].
  rewrite !filter_cons, (nocase_sym _ key), (nocase_sym _ key'), (nocase_trans key key' (h_profile r) H).
  destruct (decide _); by rewrite IH.
Qed.

Lemma counted_app key ms m :
  ~ (exists m', m' ∈ ms /\ nocase (m_profile m') key = true) ->
  counted key (ms ++ [m]) = if nocase (m_profile m) key then m_count m else 0.
Proof.
  intros Hn. unfold counted. induction ms as [|m' ms IH]; simpl; [by destruct (nocase _ _)|].
  destruct (nocase (m_profile m') key) eqn:E.
  - destruct Hn. exists m'. split; [left|done].
  - apply IH. intros (x & Hx & Hk). apply Hn. exists x. split; [by right|done].
Qed.

Lemma counted_app_other key ms m : nocase (m_profile m) key = false -> counted key (ms ++ [m]) = counted key ms.
Proof.
  intros Hn. unfold counted. induction ms as [|m' ms IH]; simpl; [by rewrite Hn|].
  by destruct (nocase (m_profile m') key).
Qed.

(** Adding to the counter of one profile. *)
Definition bump (key : str) (d : Z) : list MetaRow -> list MetaRow :=
  update_where (fun m => nocase (m_profile m) key) (fun m => mkMeta (m_profile m) (m_count m + d)).

Lemma counted_bump key d key' ms :
  existsb (fun m => nocase (m_profile m) key) ms = true ->
  counted key' (bump key d ms) = counted key' ms + if nocase key key' then d else 0.
Proof.
  unfold counted, bump, update_where. induction ms as [|m ms IH]; simpl; [done|]. intros H.
  destruct (nocase (m_profile m) key) eqn:E; simpl.
  - rewrite (nocase_trans (m_profile m) key key' E). destruct (nocase key key') eqn:Ek; [done|].
    destruct (existsb (fun m => nocase (m_profile m) key) ms) eqn:Ee; [auto|].
    rewrite Z.add_0_r. apply (update_where_none _ (fun m => mkMeta (m_profile m) (m_count m + d))) in Ee.
    unfold update_where in Ee. by rewrite Ee.
  - destruct (nocase (m_profile m) key') eqn:Ek; [|auto].
    destruct (nocase key key') eqn:Ekk; [|by rewrite Z.add_0_r].
    apply nocase_true in Ek, Ekk.
    assert (nocase (m_profile m) key = true) by (apply nocase_true; congruence). congruence.
Qed.

Lemma counted_delete key key' ms :
  counted key' (delete_where (fun m => nocase (m_profile m) key) ms) =
  if nocase key key' then 0 else counted key' ms.
Proof.
  unfold counted, delete_where. induction ms as [|m ms IH]; simpl; [by destruct (nocase _ _)|].
  rewrite filter_cons. destruct (decide _) as [Hm|Hm]; simpl; rewrite ?IH.
  - destruct (nocase (m_profile m) key') eqn:E; [|done].
    destruct (nocase key key') eqn:Ek; [|done].
    rewrite (nocase_trans _ _ key E), nocase_sym in Hm. congruence.
  - apply not_false_iff_true in Hm. rewrite (nocase_trans _ _ key' Hm). by destruct (nocase key key').
Qed.

Lemma entries_delete key key' hs :
  entries key' (delete_where (fun r => nocase (h_profile r) key) hs) =
  if nocase key key' then [] else entries key' hs.
Proof.
  unfold entries, delete_where. induction hs as [|r hs IH]; [by destruct (nocase _ _)|].
  rewrite !filter_cons. destruct (decide (nocase (h_profile r) key = false)) as [Hr|Hr].
  - rewrite filter_cons, IH. destruct (decide (nocase (h_profile r) key' = true)) as [E|]; [|done].
    destruct (nocase key key') eqn:Ek; [|done]. rewrite (nocase_trans _ _ key E), nocase_sym in Hr. congruence.
  - rewrite IH. apply not_false_iff_true in Hr. rewrite (nocase_trans _ _ key' Hr).
    destruct (nocase key key') eqn:Ek; [done|]. by rewrite decide_False by congruence.
Qed.
