(* ===== verification/StoreOps.v ===== *)
(** * Every operation of the store keeps its invariant

    What each SQL statement does to the tables, the trim of the history against
    the plain description of it, and one [triple] per operation.  Then the
    writing operations as one type, what each may answer, and the files a
    sequence of them can reach, whatever SQLite refuses on the way. *)

From stdpp Require Import sorting relations.
From S2P Require Import Prelude RustStr Settings SettingsClaims RustText Ids Profile Codec ProfileClaims Workspace Tables Store StoreProps.
Open Scope Z_scope.
Open Scope db_scope.

(** ** The trim *)

(** Keep the newest [n] of a list that is oldest first. *)
Definition keep_newest {A} (n : Z) (l : list A) : list A := drop (length l - Z.to_nat n) l.

Lemma sorted_sort l : StronglySorted Z.lt l -> merge_sort Z.le l = l.
Proof.
  intros H. apply (StronglySorted_unique Z.le).
  - apply (StronglySorted_merge_sort Z.le).
  - induction H as [|x l H IH Hx]; constructor; [done|]. eapply Forall_impl; [done|]. simpl. lia.
  - apply merge_sort_Permutation.
Qed.

Lemma StronglySorted_sublist {A} (R : relation A) l k : StronglySorted R l -> k `sublist_of` l -> StronglySorted R k.
Proof.
  intros Hl Hk. induction Hk as [|x k l Hk IH|x k l Hk IH]; [done|..]; inversion Hl; subst; [constructor|]; auto.
  rewrite Forall_forall in *. intros y Hy. eauto using elem_of_sublist.
Qed.

Lemma StronglySorted_lt_NoDup l : StronglySorted Z.lt l -> NoDup l.
Proof.
  induction 1 as [|x l H IH Hx]; constructor; [|done].
  rewrite Forall_forall in Hx. intros Hin. specialize (Hx x Hin). simpl in Hx. lia.
Qed.

Lemma filter_ext_in {A} (P Q : A -> Prop) `{!forall x, Decision (P x), !forall x, Decision (Q x)} (l : list A) :
  (forall x, x ∈ l -> P x <-> Q x) -> filter P l = filter Q l.
Proof.
  induction l as [|x l IH]; intros Hpq; [done|]. rewrite !filter_cons.
  rewrite IH by (intros; apply Hpq; by right). pose proof (Hpq x ltac:(left)).
  destruct (decide (P x)), (decide (Q x)); tauto || done.
Qed.

Lemma filter_all {A} (P : A -> Prop) `{!forall x, Decision (P x)} (l : list A) :
  (forall x, x ∈ l -> P x) -> filter P l = l.
Proof.
  induction l as [|x l IH]; intros Hp; [done|]. rewrite filter_cons, decide_True by (apply Hp; left).
  f_equal. apply IH. intros. apply Hp. by right.
Qed.

(** Deleting the first [k] keys of a list with distinct keys drops [k] rows. *)
Lemma delete_first_keys {A} (f : A -> Z) k (l : list A) :
  NoDup (map f l) -> filter (fun r => bool_decide (f r ∈ take k (map f l)) = false) l = drop k l.
Proof.
  revert k. induction l as [|x l IH]; intros [|k] Hn; cbn [take map drop]; try done.
  - apply filter_all. intros y _. by rewrite bool_decide_eq_false_2 by apply not_elem_of_nil.
  - inversion Hn as [|? ? Hx Hl]; subst. rewrite filter_cons, decide_False.
    2:{ rewrite bool_decide_eq_true_2; [done|left]. }
    rewrite <- (IH k Hl). apply filter_ext_in. intros y Hy. rewrite !bool_decide_eq_false, elem_of_cons.
    split; [tauto|]. intros Ht [E|E]; [|tauto]. destruct Hx. rewrite <- E. by apply list_elem_of_fmap_2.
Qed.

Lemma entries_sublist key hs : entries key hs `sublist_of` hs.
Proof. apply sublist_filter. Qed.

Lemma oldest_take key k hs :
  StronglySorted Z.lt (map h_id hs) -> oldest key k hs = take (Z.to_nat k) (map h_id (entries key hs)).
Proof.
  intros H. unfold oldest. f_equal. apply sorted_sort. eapply StronglySorted_sublist; [done|].
  apply (fmap_sublist h_id), entries_sublist.
Qed.

(** What the trim deletes: the oldest rows of its profile, and nothing else. *)
Lemma trim_entries key k hs key' :
  StronglySorted Z.lt (map h_id hs) ->
  entries key' (delete_where (fun r => bool_decide (h_id r ∈ oldest key k hs)) hs) =
  if nocase key key' then drop (Z.to_nat k) (entries key' hs) else entries key' hs.
Proof.
  intros H. pose proof (StronglySorted_lt_NoDup _ H) as Hn.
  rewrite (oldest_take key k hs H). unfold entries, delete_where. rewrite list_filter_filter.
  destruct (nocase key key') eqn:Ek.
  - fold (entries key hs). fold (entries key' hs). rewrite (entries_lower key key' hs Ek).
    rewrite <- (delete_first_keys h_id).
    + set (ids := take _ _). unfold entries. rewrite list_filter_filter. apply list_filter_iff. intros. tauto.
    + eapply sublist_NoDup; [exact Hn|]. apply (fmap_sublist h_id), entries_sublist.
  - apply filter_ext_in. intros r Hr. rewrite bool_decide_eq_false. split; [tauto|]. intros Hk. split; [done|].
    intros Hin.
    assert (h_id r ∈ map h_id (entries key hs)) as Hin2.
    { eapply elem_of_sublist; [exact Hin|]. apply sublist_take. }
    apply list_elem_of_fmap in Hin2 as (r' & Hid & Hr'). apply list_elem_of_filter in Hr' as [Hp Hr'].
    assert (r' = r) as -> by (by eapply (unique_key h_id)).
    apply nocase_true in Hp, Hk. assert (nocase key key' = true) by (apply nocase_true; congruence). congruence.
Qed.

(** ** The history statements *)

Lemma next_history_id_past t : db_ok t -> Forall (fun r => h_id r < next_history_id t) (histories t).
Proof.
  intros Ht. unfold next_history_id. generalize (history_seq t). intros s.
  assert (H : forall l s, s <= fold_left Z.max l s /\ Forall (fun x => x <= fold_left Z.max l s) l).
  { induction l as [|x l IH]; intros s'; simpl; [split; [lia|constructor]|].
    destruct (IH (Z.max s' x)) as [H1 H2]. split; [lia|]. constructor; [lia|done]. }
  destruct (H (map h_id (histories t)) s) as [_ H2]. rewrite Forall_map in H2.
  eapply Forall_impl; [exact H2|]. simpl. lia.
Qed.

Lemma StronglySorted_snoc l x : StronglySorted Z.lt l -> Forall (fun y => y < x) l -> StronglySorted Z.lt (l ++ [x]).
Proof.
  induction 1 as [|y l H IH Hy]; intros Hx; simpl; [by repeat constructor|].
  inversion Hx; subst. constructor; [auto|]. apply Forall_app. split; [done|]. by repeat constructor.
Qed.

(** The three writes of [record_history], after the profile was found. *)
Definition recorded (key : str) (row : Z -> HistoryRow) (limit : option Z) (t : Tables) : Tables :=
  let id := next_history_id t in
  let hs := histories t ++ [row id] in
  let n := Z.of_nat (length (entries key (histories t))) + 1 in
  let ms := upsert (fun m => nocase (m_profile m) key) (fun m => mkMeta (m_profile m) (m_count m + 1))
              (mkMeta key 1) (metas t) in
  match limit with
  | Some l => if l <? n then
                set_metas (set_seq (set_histories t
                  (delete_where (fun r => bool_decide (h_id r ∈ oldest key (n - l) hs)) hs)) id) (bump key (l - n) ms)
              else set_metas (set_seq (set_histories t hs) id) ms
  | None => set_metas (set_seq (set_histories t hs) id) ms
  end.

Lemma upsert_counted key key' ms :
  NoDup (map (fun m => lower (m_profile m)) ms) ->
  counted key' (upsert (fun m => nocase (m_profile m) key) (fun m => mkMeta (m_profile m) (m_count m + 1)) (mkMeta key 1) ms)
  = counted key' ms + if nocase key key' then 1 else 0.
Proof.
  intros Hn. unfold upsert. destruct (existsb _ ms) eqn:E; [by apply counted_bump|].
  destruct (nocase key key') eqn:Ek.
  - assert (Hno : ~ (exists m', m' ∈ ms /\ nocase (m_profile m') key' = true)).
    { intros (m & Hm & Hk). apply existsb_false in E. rewrite Forall_forall in E. specialize (E m Hm). simpl in E.
      apply nocase_true in Ek, Hk. assert (nocase (m_profile m) key = true) by (apply nocase_true; congruence). congruence. }
    rewrite counted_app by done. simpl. rewrite Ek.
    assert (counted key' ms = 0) as ->; [|done]. unfold counted.
    destruct (find _ ms) as [m|] eqn:Ef; [|done]. apply find_some in Ef as [Hm ?]. destruct Hno. exists m.
    split; [by apply list_elem_of_In|done].
  - rewrite counted_app_other by done. lia.
Qed.

Lemma entries_snoc key key' hs r :
  nocase (h_profile r) key = true -> entries key' (hs ++ [r]) = entries key' hs ++ if nocase key key' then [r] else [].
Proof.
  intros H. rewrite entries_app. f_equal. unfold entries. rewrite filter_cons, filter_nil.
  rewrite (nocase_trans _ _ key' H). by destruct (nocase key key').
Qed.

Lemma recorded_entries key row limit t key' :
  db_ok t -> (forall l, limit = Some l -> 0 <= l) -> nocase (h_profile (row (next_history_id t))) key = true -> h_id (row (next_history_id t)) = next_history_id t ->
  entries key' (histories (recorded key row limit t)) =
  let all := entries key' (histories t) ++ if nocase key key' then [row (next_history_id t)] else [] in
  match limit with
  | Some l => if nocase key key' then keep_newest l all else all
  | None => all
  end.
Proof.
  intros Ht Hl Hp Hid. pose proof (entries_snoc key key' (histories t) _ Hp) as Hs.
  assert (StronglySorted Z.lt (map h_id (histories t ++ [row (next_history_id t)]))) as Hsort.
  { rewrite map_app. simpl. rewrite Hid. apply StronglySorted_snoc; [apply Ht|]. rewrite Forall_map. by apply next_history_id_past. }
  unfold recorded. cbv zeta. destruct limit as [l|]; [|by rewrite <- Hs]. specialize (Hl l eq_refl).
  destruct (nocase key key') eqn:Ek.
  - pose proof (entries_lower key key' (histories t) Ek) as He.
    destruct (l <? _) eqn:El; boolify; simpl.
    + rewrite trim_entries by done. rewrite Ek, Hs. unfold keep_newest. f_equal.
      rewrite length_app. simpl. rewrite He in *. lia.
    + rewrite Hs. unfold keep_newest. rewrite length_app. simpl. rewrite He in El.
      replace (_ - _)%nat with 0%nat by lia. done.
  - destruct (l <? _) eqn:El; boolify; simpl; rewrite ?trim_entries by done; by rewrite ?Ek, Hs.
Qed.

Lemma upsert_exists {A} (same : A -> bool) g r (l : list A) :
  same r = true -> (forall x, same x = true -> same (g x) = true) -> existsb same (upsert same g r l) = true.
Proof.
  intros Hr Hg. unfold upsert. destruct (existsb same l) eqn:E.
  - apply existsb_true in E as (x & Hx & Hs). apply existsb_true. exists (g x). split; [|auto].
    apply list_elem_of_fmap. exists x. by rewrite Hs.
  - rewrite existsb_app. simpl. rewrite Hr. by destruct (existsb same l).
Qed.

Lemma keep_newest_length {A} n (l : list A) : 0 <= n -> length (keep_newest n l) = Nat.min (length l) (Z.to_nat n).
Proof. intros H. unfold keep_newest. rewrite length_drop. lia. Qed.

Lemma recorded_ok key row limit t :
  db_ok t -> (forall l, limit = Some l -> 0 <= l) -> lower key ∈ pkeys t ->
  h_profile (row (next_history_id t)) = key -> h_id (row (next_history_id t)) = next_history_id t ->
  outcome_row_ok (row (next_history_id t)) -> db_ok (recorded key row limit t).
Proof.
  intros Ht Hl Hk Hp Hid Ho.
  assert (Hnk : nocase (h_profile (row (next_history_id t))) key = true) by (rewrite Hp; apply nocase_refl).
  pose proof (fun key' => recorded_entries key row limit t key' Ht Hl Hnk Hid) as He.
  set (id := next_history_id t) in *. set (hs := histories t ++ [row id]) in *.
  set (ms := upsert (fun m => nocase (m_profile m) key) (fun m => mkMeta (m_profile m) (m_count m + 1)) (mkMeta key 1) (metas t)) in *.
  assert (Hsort : StronglySorted Z.lt (map h_id hs)).
  { unfold hs. rewrite map_app. simpl. rewrite Hid. apply StronglySorted_snoc; [apply Ht|]. rewrite Forall_map. by apply next_history_id_past. }
  assert (Hseq : Forall (fun r => h_id r <= id) hs).
  { apply Forall_app. split; [|repeat constructor; lia]. eapply Forall_impl; [by apply next_history_id_past|]. simpl. unfold id. lia. }
  assert (Hrows : Forall (fun r => outcome_row_ok r /\ lower (h_profile r) ∈ pkeys t) hs).
  { apply Forall_app. split; [apply Ht|]. repeat constructor; [done|by rewrite Hp]. }
  assert (Hmu : NoDup (map (fun m => lower (m_profile m)) ms)).
  { apply upsert_unique; [|done|apply Ht]. intros m. apply nocase_true. }
  assert (Hmc : Forall (fun m => lower (m_profile m) ∈ pkeys t) ms).
  { apply Forall_upsert; [apply Ht|done|done]. }
  assert (Hcount : forall key', counted key' ms = Z.of_nat (length (entries key' (histories t))) + if nocase key key' then 1 else 0).
  { intros key'. unfold ms. rewrite upsert_counted by apply Ht. by rewrite (counters_exact t Ht). }
  unfold recorded in He |- *. fold id in He |- *. fold hs in He |- *. fold ms in He |- *.
  destruct limit as [l|].
  - specialize (Hl l eq_refl). destruct (l <? _) eqn:El; boolify; cbv zeta in *; rewrite ?El in *.
    + assert (Hsub : delete_where (fun r => bool_decide (h_id r ∈ oldest key (Z.of_nat (length (entries key (histories t))) + 1 - l) hs)) hs `sublist_of` hs)
        by apply delete_where_sublist.
      apply db_ok_set_history; try done.
      * eapply StronglySorted_sublist; [done|]. by apply (fmap_sublist h_id).
      * by eapply Forall_sublist.
      * by eapply Forall_sublist.
      * unfold bump. by rewrite update_where_map.
      * by apply Forall_update_where.
      * intros key'. specialize (He key'). simpl in He. rewrite He.
        rewrite counted_bump by (apply upsert_exists; [simpl; apply nocase_refl|done]). rewrite Hcount.
        destruct (nocase key key') eqn:Ek; [|rewrite app_nil_r; lia].
        rewrite keep_newest_length, length_app by done. simpl. pose proof (f_equal length (entries_lower key key' (histories t) Ek)). lia.
    + apply db_ok_set_history; try done.
      intros key'. specialize (He key'). simpl in He. rewrite Hcount, He.
      destruct (nocase key key') eqn:Ek; [|rewrite app_nil_r; lia].
      rewrite keep_newest_length, length_app by done. simpl. pose proof (f_equal length (entries_lower key key' (histories t) Ek)). lia.
  - apply db_ok_set_history; try done.
    intros key'. specialize (He key'). simpl in He. rewrite Hcount, He, length_app. destruct (nocase key key'); simpl; lia.
Qed.

(** ** The operations *)

Section Operations.
Context {CM : CaseMap} {U : Uuid} {T : Target} (F : RusqliteError -> Prop).

(** The limit in force, as the transaction reads it. *)
Definition max_entries (t : Tables) : option Z :=
  match find (same_setting (lit "application") [] (storage_key HistoryMaxEntriesPerProfile)) (settings t) with
  | None => Some 1000
  | Some r => match s_int r with None => None | Some n => Some (if is_u32 n then n else u32_max) end
  end.

Lemma max_entries_nonneg t l : max_entries t = Some l -> 0 <= l.
Proof.
  unfold max_entries. destruct (find _ _) as [r|]; [|intros [= <-]; lia].
  destruct (s_int r) as [n|]; [|done]. unfold is_u32, u32_max.
  destruct ((0 <=? n) && (n <=? _)) eqn:E; boolify; intros [= <-]; lia.
Qed.

Lemma max_entries_read P E :
  triple F P current_max_entries (fun l t => l = max_entries t /\ P t) E.
Proof.
  eapply triple_bind; [apply triple_query|]. intros stored.
  apply triple_ret. intros t [-> HP]. split; [|done]. unfold max_entries.
  destruct (find _ (settings t)) as [r|]; simpl; [by destruct (s_int r)|]. done.
Qed.

Definition entry_row (e : HistoryEntry) (id : Z) : HistoryRow :=
  let '(word, native_code) := encode_history_outcome (outcome e) in
  mkHistoryRow id (id_to_string (entry_profile e)) (executed_at e) (statement e) word native_code
    (to_i64 (elapsed_ms e)) (option_map to_i64 (row_count e)).

Lemma entry_row_outcome e id : outcome_row_ok (entry_row e id).
Proof. unfold outcome_row_ok, entry_row. by destruct (outcome e) as [|[]| |]. Qed.

Lemma entry_row_fields e id :
  h_id (entry_row e id) = id /\ h_profile (entry_row e id) = id_to_string (entry_profile e).
Proof. unfold entry_row. by destruct (encode_history_outcome (outcome e)). Qed.

(** [P] of the tables before, kept while a transaction reads. *)
Lemma triple_guard {A} (test : Tables -> bool) (e : StoreError) (m : Db A) P Q (E : StoreError -> Prop) :
  E e -> triple F (fun t => P t /\ test t = true) m Q E ->
  triple F P (do found <- query test; if negb found then db_fail e else m) Q E.
Proof.
  intros He Hm. eapply triple_bind; [apply triple_query|]. intros found. apply triple_if.
  - intros _. by apply triple_fail.
  - intros Hf. apply negb_false_iff in Hf. eapply triple_weaken; [exact Hm| |done..].
    intros t [-> HP]. done.
Qed.

Lemma counted_find key t :
  match find (fun m => nocase (m_profile m) key) t with Some m => m_count m | None => 0 end = counted key t.
Proof. done. Qed.

Lemma record_history_spec e t0 :
  triple F (fun t => t = t0 /\ db_ok t0) (record_history e)
    (fun id t => has_profile t0 (id_to_string (entry_profile e)) = true /\ id = next_history_id t0 /\
                 t = recorded (id_to_string (entry_profile e)) (entry_row e) (max_entries t0) t0 /\ db_ok t)
    (fun err => (exists x, err = InvalidHistory x) \/ err = ProfileNotFound (entry_profile e)).
Proof.
  unfold record_history. destruct (entry_validate e) as [[]|x]; [|apply triple_fail; eauto].
  set (key := id_to_string (entry_profile e)).
  destruct (encode_history_outcome (outcome e)) as [word code] eqn:Eo.
  assert (Hrow : forall id, mkHistoryRow id key (executed_at e) (statement e) word code (to_i64 (elapsed_ms e))
                   (option_map to_i64 (row_count e)) = entry_row e id) by (intros; unfold entry_row; by rewrite Eo).
  apply triple_transaction, triple_guard; [by right|].
  set (id0 := next_history_id t0).
  set (t1 := set_seq (set_histories t0 (histories t0 ++ [entry_row e id0])) id0).
  set (ms := upsert (fun m => nocase (m_profile m) key) (fun m => mkMeta (m_profile m) (m_count m + 1)) (mkMeta key 1) (metas t0)).
  set (n := Z.of_nat (length (entries key (histories t0))) + 1).
  eapply triple_bind with (R := fun id t => id = id0 /\ t = t1 /\ db_ok t0 /\ has_profile t0 key = true).
  { apply triple_execute. intros t [[-> Ht] Hp]. unfold insert_history_row. fold id0. rewrite Hrow.
    assert (history_row_ok t0 (entry_row e id0) = true) as ->.
    { unfold history_row_ok. rewrite (proj2 (entry_row_fields e id0)). fold key. rewrite Hp. apply entry_row_outcome. }
    by exists id0, t1. }
  intros id. eapply triple_bind with (R := fun c t => c = n /\ t = set_metas t1 ms /\ db_ok t0 /\ id = id0 /\ has_profile t0 key = true).
  { apply triple_execute. intros t (-> & -> & Ht & Hp). unfold count_history. change (has_profile t1 key) with (has_profile t0 key).
    rewrite Hp. cbv zeta. change (metas t1) with (metas t0). fold ms. simpl. eexists _, _. split; [done|]. split_and!; try done.
    rewrite counted_find. unfold ms, n. rewrite upsert_counted by apply Ht. rewrite nocase_refl, (counters_exact t0 Ht). done. }
  intros c. eapply triple_bind; [apply max_entries_read|]. intros limit.
  eapply triple_bind with (R := fun _ t => t = recorded key (entry_row e) (max_entries t0) t0 /\ db_ok t0 /\ id = id0 /\ has_profile t0 key = true).
  2:{ intros []. apply triple_ret. intros t (-> & Ht & -> & Hp). split_and!; try done.
      apply recorded_ok; try done; [apply max_entries_nonneg|by apply has_profile_true|apply entry_row_fields|apply entry_row_fields|apply entry_row_outcome]. }
  destruct limit as [l|].
  - destruct (l <? c) eqn:El.
    + eapply triple_bind with (R := fun _ t => t = set_metas (set_histories t1 (delete_where (fun r => bool_decide (h_id r ∈ oldest key (n - l) (histories t1))) (histories t1))) ms
                                   /\ c = n /\ db_ok t0 /\ id = id0 /\ has_profile t0 key = true /\ Some l = max_entries t0).
      { apply triple_execute. intros t (Hl & -> & -> & Ht & -> & Hp). by eexists _, _. }
      intros []. apply triple_execute. intros t (-> & -> & Ht & -> & Hp & Hl). eexists _, _. split; [done|]. split_and!; try done.
      unfold recorded. fold id0. fold ms. rewrite <- Hl. cbv zeta. fold n. rewrite El. simpl. unfold bump.
      unfold set_metas. f_equal. simpl. unfold update_where. apply map_ext. intros m. destruct (nocase _ _); [|done]. f_equal. lia.
    + apply triple_ret. intros t (Hl & -> & -> & Ht & -> & Hp). split_and!; try done.
      unfold recorded. fold id0. fold ms. change (max_entries (set_metas t1 ms)) with (max_entries t0) in Hl. rewrite <- Hl. cbv zeta. fold n. by rewrite El.
  - apply triple_ret. intros t (Hl & -> & -> & Ht & -> & Hp). split_and!; try done.
    unfold recorded. fold id0. fold ms. change (max_entries (set_metas t1 ms)) with (max_entries t0) in Hl. by rewrite <- Hl.
Qed.

(** Rows this code writes pass the schema's checks. *)
Lemma text_ok_nonempty field s : text_ok field s -> (0 < length s)%nat.
Proof. intros [H _]. destruct s; simpl; [|lia]. destruct H. constructor. Qed.

Lemma encoded_checked p row :
  encoded p = Ok row -> port_typed (endpoint (details p)) = true ->
  profile_row_ok row = true /\ row_id row = id_to_string (profile_id p).
Proof.
  unfold encoded. destruct (validate (details p)) as [[]|] eqn:Ev; [|done].
  apply validate_Ok in Ev. unfold encode_profile. intros H Hport.
  destruct (environment_word _) as [w label].
  destruct (encode_endpoint _) as [[[[[ek h] po] sn] si] cs] eqn:Ee.
  destruct (encode_authentication _) as [[ak un] st] eqn:Ea.
  destruct (match ca_directory _ with Some _ => _ | None => _ end) as [dir|]; [|done].
  injection H as <-. split; [|done]. unfold profile_row_ok. cbn [row_id row_name row_treat_as_production
    row_port row_password_in_credential_store row_allow_unenforced_certificate_pin].
  unfold id_to_string. rewrite hyphenated_length. rewrite (proj2 (Nat.ltb_lt 0 _)) by (eapply text_ok_nonempty, Ev).
  assert (match po with Some p => (1 <=? p) && (p <=? 65535) | None => true end = true) as ->.
  { unfold port_typed in Hport. destruct (endpoint (details p)) as [host port [s|s]|s] eqn:Een; simpl in Ee; simplify_eq; try done;
      pose proof (port_ok _ Ev _ _ _ Een); boolify; apply andb_true_iff; rewrite !Z.leb_le; lia. }
  assert (match st with Some p => (p =? 0) || (p =? 1) | None => true end = true) as ->.
  { destruct (authentication (details p)) as [u []|]; simpl in Ea; by simplify_eq. }
  by destruct (treat_as_production (details p)), (allow_unenforced_certificate_pin (tls (details p))).
Qed.

Definition invalid_or (P : StoreError -> Prop) (e : StoreError) : Prop := (exists x, e = InvalidProfile x) \/ P e.

Lemma insert_profile_spec p t0 :
  port_typed (endpoint (details p)) = true ->
  triple F (fun t => t = t0 /\ db_ok t0) (insert_profile p)
    (fun _ t => exists row, encoded p = Ok row /\ has_profile t0 (row_id row) = false /\
                            t = set_profiles t0 (profiles t0 ++ [row]) /\ db_ok t)
    (invalid_or (fun e => e = ProfileExists (profile_id p))).
Proof.
  intros Hport. unfold insert_profile. destruct (encoded p) as [row|e] eqn:Ee.
  2:{ eapply triple_bind with (R := fun _ _ => False); [apply triple_lift; intros t _|intros []; by intros ? ?].
      unfold encoded in Ee. left. destruct (validate _); [destruct (encode_profile p)|]; naive_solver. }
  eapply triple_bind with (R := fun r t => r = row /\ t = t0 /\ db_ok t0); [by apply triple_lift; intros t [-> ?]|].
  intros r. apply triple_transaction. destruct (encoded_checked p row Ee Hport) as [Hc Hid].
  eapply triple_bind with (R := fun n t => n = 0%nat \/ n = 1%nat /\ has_profile t0 (row_id row) = false /\
                                          t = set_profiles t0 (profiles t0 ++ [row]) /\ db_ok t0).
  { apply triple_execute. intros t (-> & -> & Ht). unfold insert_profile_row. rewrite Hc. simpl.
    destruct (has_profile t0 (row_id row)) eqn:Eh; eexists _, _; (split; [done|]); [by left|by right]. }
  intros n. apply triple_if; [intros _; apply triple_fail; by right|]. intros Hn. boolify.
  apply triple_ret. intros t [->|(-> & Hh & -> & Ht)]; [done|]. exists row. split_and!; try done.
  apply db_ok_set_profiles; [done|..].
  - rewrite map_app. simpl. apply NoDup_app. split_and!; [apply Ht| |apply NoDup_singleton].
    intros k Hk. rewrite list_elem_of_singleton. intros ->. apply (has_profile_true t0) in Hk. congruence.
  - apply Forall_app. split; [apply Ht|]. by repeat constructor.
  - intros k Hk. rewrite map_app, elem_of_app. by left.
Qed.

Lemma update_profile_spec p t0 :
  port_typed (endpoint (details p)) = true ->
  triple F (fun t => t = t0 /\ db_ok t0) (update_profile p)
    (fun _ t => exists row, encoded p = Ok row /\ has_profile t0 (row_id row) = true /\
       t = set_profiles t0 (update_where (fun r => nocase (row_id r) (row_id row)) (with_details row) (profiles t0)) /\ db_ok t)
    (invalid_or (fun e => e = ProfileNotFound (profile_id p))).
Proof.
  intros Hport. unfold update_profile. destruct (encoded p) as [row|e] eqn:Ee.
  2:{ eapply triple_bind with (R := fun _ _ => False); [apply triple_lift; intros t _|intros []; by intros ? ?].
      unfold encoded in Ee. left. destruct (validate _); [destruct (encode_profile p)|]; naive_solver. }
  eapply triple_bind with (R := fun r t => r = row /\ t = t0 /\ db_ok t0); [by apply triple_lift; intros t [-> ?]|].
  intros r. apply triple_transaction. destruct (encoded_checked p row Ee Hport) as [Hc Hid].
  set (here := fun x => nocase (row_id x) (row_id row)).
  eapply triple_bind with (R := fun n t => n = count_where here (profiles t0) /\
     t = set_profiles t0 (update_where here (with_details row) (profiles t0)) /\ db_ok t0).
  { apply triple_execute. intros t (-> & -> & Ht). unfold update_profile_row. rewrite Hc, andb_false_r.
    by eexists _, _. }
  intros n. apply triple_if; [intros _; apply triple_fail; by right|]. intros Hn. boolify.
  apply triple_ret. intros t (-> & -> & Ht). exists row.
  assert (has_profile t0 (row_id row) = true).
  { unfold count_where in Hn. destruct (filter _ (profiles t0)) as [|x l] eqn:Ef; [done|].
    assert (x ∈ filter (fun r => here r = true) (profiles t0)) as Hx by (rewrite Ef; left).
    apply list_elem_of_filter in Hx as [Hx1 Hx2]. apply existsb_true. by exists x. }
  split_and!; try done. apply db_ok_set_profiles; [done|..].
  - rewrite update_where_map by done. apply Ht.
  - apply Forall_update_where; [apply Ht|]. intros x Hx Hh. unfold profile_row_ok in Hc, Hx |- *. simpl.
    rewrite !andb_true_iff in *. tauto.
  - intros k Hk. by rewrite update_where_map.
Qed.

(** ** Deletions and their foreign keys *)

Lemma forget_names ks key o :
  names ks o -> names (filter (fun k => k <> lower key) ks) (forget key o).
Proof.
  destruct o as [k|]; simpl; [|done]. intros H. destruct (nocase k key) eqn:E; simpl; [done|].
  apply list_elem_of_filter. split; [|done]. intros Hk. apply nocase_true in Hk. congruence.
Qed.

Lemma keys_delete {A} (f : A -> str) key (l : list A) :
  map (fun r => lower (f r)) (delete_where (fun r => nocase (f r) key) l) =
  filter (fun k => k <> lower key) (map (fun r => lower (f r)) l).
Proof.
  unfold delete_where. induction l as [|r l IH]; [done|]. cbn [map]. rewrite !filter_cons.
  destruct (decide (nocase (f r) key = false)) as [E|E]; cbn [map]; rewrite IH.
  - rewrite decide_True; [done|]. intros Hk. apply nocase_true in Hk. congruence.
  - rewrite decide_False; [done|]. intros Hk. apply Hk. apply nocase_true. by apply not_false_iff_true.
Qed.

Lemma delete_profile_rows_ok t key : db_ok t -> db_ok (delete_profile_rows t key).
Proof.
  intros Ht.
  assert (Hk : pkeys (delete_profile_rows t key) = filter (fun k => k <> lower key) (pkeys t)) by apply keys_delete.
  assert (Hw : wkeys (delete_profile_rows t key) = wkeys t) by (unfold wkeys; simpl; by rewrite map_map).
  assert (Hrow : forall k, lower k ∈ pkeys t -> nocase k key = false -> lower k ∈ filter (fun k => k <> lower key) (pkeys t)).
  { intros k Hin E. apply list_elem_of_filter. split; [|done]. intros Hk'. apply nocase_true in Hk'. congruence. }
  split; rewrite ?Hk, ?Hw; simpl; try solve [apply Ht].
  - apply NoDup_filter, (profiles_unique t Ht).
  - eapply Forall_sublist; [exact (profiles_checked t Ht)|apply delete_where_sublist].
  - eapply StronglySorted_sublist; [exact (history_ordered t Ht)|]. apply (fmap_sublist h_id), delete_where_sublist.
  - eapply Forall_sublist; [exact (history_numbered t Ht)|apply delete_where_sublist].
  - apply Forall_forall. intros r [Hr Hn]%elem_of_delete_where. 
    pose proof (history_checked t Ht) as Hc. rewrite Forall_forall in Hc. destruct (Hc r Hr). auto.
  - apply NoDup_delete_where, Ht.
  - apply Forall_forall. intros r [Hr Hn]%elem_of_delete_where. 
    pose proof (metas_checked t Ht) as Hc. rewrite Forall_forall in Hc. auto.
  - intros key'. rewrite counted_delete, entries_delete. destruct (nocase key key'); [done|]. apply (counters_exact t Ht).
  - apply Forall_map. eapply Forall_impl; [exact (worksheets_checked t Ht)|]. simpl. intros r [? ?]. split; [done|]. by apply forget_names.
  - rewrite length_map. apply Ht.
  - apply Forall_map. eapply Forall_impl; [exact (layout_checked t Ht)|]. simpl. intros r (? & ? & ?). split_and!; try done. by apply forget_names.
Qed.

Lemma delete_worksheet_rows_ok t key : db_ok t -> db_ok (delete_worksheet_rows t key).
Proof.
  intros Ht.
  assert (Hk : wkeys (delete_worksheet_rows t key) = filter (fun k => k <> lower key) (wkeys t)) by apply keys_delete.
  split; rewrite ?Hk; simpl; try solve [apply Ht].
  - apply NoDup_filter, (worksheets_unique t Ht).
  - eapply Forall_sublist; [exact (worksheets_checked t Ht)|apply delete_where_sublist].
  - apply NoDup_delete_where, Ht.
  - apply Forall_forall. intros r [Hr Hn]%elem_of_delete_where. 
    pose proof (overrides_checked t Ht) as Hc. rewrite Forall_forall in Hc.
    apply list_elem_of_filter. split; [|by apply Hc]. intros E. apply nocase_true in E. congruence.
  - rewrite length_map. apply Ht.
  - apply Forall_map. eapply Forall_impl; [exact (layout_checked t Ht)|]. simpl. intros r (? & ? & ?). split_and!; try done. by apply forget_names.
Qed.

Definition no_error (e : StoreError) : Prop := False.

Lemma delete_settings_ok t p : db_ok t -> db_ok (set_settings t (delete_where p (settings t))).
Proof.
  intros Ht. apply db_ok_set_settings; [done|apply NoDup_delete_where, Ht|].
  eapply Forall_sublist; [apply Ht|apply delete_where_sublist].
Qed.

Lemma delete_overrides_ok t p : db_ok t -> db_ok (set_worksheet_settings t (delete_where p (worksheet_settings t))).
Proof.
  intros Ht. apply db_ok_set_overrides; [done|apply NoDup_delete_where, Ht|].
  eapply Forall_sublist; [apply Ht|apply delete_where_sublist].
Qed.

Lemma count_where_pos {A} (p : A -> bool) l : (0 <? count_where p l)%nat = existsb p l.
Proof.
  unfold count_where. induction l as [|x l IH]; [done|]. rewrite filter_cons. simpl. by destruct (p x).
Qed.

(** The profile's own settings, and the rows its foreign keys delete. *)
Definition profile_deleted (key : str) (t : Tables) : Tables :=
  delete_profile_rows (set_settings t (delete_where
    (fun r => str_eqb (s_scope r) (lit "profile") && nocase (s_scope_id r) key) (settings t))) key.

Lemma delete_profile_spec id t0 :
  triple F (fun t => t = t0 /\ db_ok t0) (delete_profile id)
    (fun b t => b = has_profile t0 (id_to_string id) /\ t = profile_deleted (id_to_string id) t0 /\ db_ok t) no_error.
Proof.
  unfold delete_profile. apply triple_transaction.
  eapply triple_bind with (R := fun _ t => t = set_settings t0 _ /\ db_ok t0).
  { apply triple_execute. intros t [-> Ht]. by eexists _, _. }
  intros []. eapply triple_bind with (R := fun n t => n = count_where (fun r => nocase (row_id r) (id_to_string id)) (profiles t0) /\
    t = profile_deleted (id_to_string id) t0 /\ db_ok t0).
  { apply triple_execute. intros t [-> Ht]. by eexists _, _. }
  intros n. apply triple_ret. intros t (-> & -> & Ht). split_and!; [apply count_where_pos|done|]. by apply delete_profile_rows_ok, delete_settings_ok.
Qed.

Lemma delete_worksheet_spec id t0 :
  triple F (fun t => t = t0 /\ db_ok t0) (delete_worksheet id)
    (fun _ t => t = delete_worksheet_rows t0 (id_to_string id) /\ db_ok t) no_error.
Proof.
  unfold delete_worksheet. apply triple_transaction.
  eapply triple_bind with (R := fun _ t => t = delete_worksheet_rows t0 (id_to_string id) /\ db_ok t0).
  { apply triple_execute. intros t [-> Ht]. by eexists _, _. }
  intros n. apply triple_ret. intros t [-> Ht]. split; [done|]. by apply delete_worksheet_rows_ok.
Qed.

Lemma clear_history_spec p t0 :
  triple F (fun t => t = t0 /\ db_ok t0) (clear_history p)
    (fun n t => let key := id_to_string p in
       n = length (entries key (histories t0)) /\
       t = set_metas (set_histories t0 (delete_where (fun r => nocase (h_profile r) key) (histories t0)))
             (delete_where (fun r => nocase (m_profile r) key) (metas t0)) /\ db_ok t) no_error.
Proof.
  unfold clear_history. apply triple_transaction. set (key := id_to_string p).
  eapply triple_bind with (R := fun n t => n = length (entries key (histories t0)) /\
    t = set_histories t0 (delete_where (fun r => nocase (h_profile r) key) (histories t0)) /\ db_ok t0).
  { apply triple_execute. intros t [-> Ht]. by eexists _, _. }
  intros n. eapply triple_bind with (R := fun _ t => n = length (entries key (histories t0)) /\ t = set_metas (set_histories t0 _) _ /\ db_ok t0).
  { apply triple_execute. intros t (-> & -> & Ht). by eexists _, _. }
  intros []. apply triple_ret. intros t (-> & -> & Ht). split_and!; [done..|].
  change (set_metas (set_histories t0 ?h) ?m) with (set_metas (set_seq (set_histories t0 h) (history_seq t0)) m).
  pose proof (delete_where_sublist (fun r => nocase (h_profile r) key) (histories t0)) as Hsub.
  apply db_ok_set_history; [done|..].
  - eapply StronglySorted_sublist; [exact (history_ordered t0 Ht)|]. by apply (fmap_sublist h_id).
  - eapply Forall_sublist; [apply Ht|done].
  - eapply Forall_sublist; [apply Ht|done].
  - apply NoDup_delete_where, Ht.
  - eapply Forall_sublist; [exact (metas_checked t0 Ht)|apply delete_where_sublist].
  - intros key'. rewrite counted_delete, entries_delete. destruct (nocase key key'); [done|]. apply (counters_exact t0 Ht).
Qed.

(** ** Settings *)

Definition new_setting_row (now : Z) (s : Scope) (id : SettingId) (v : SettingValue) : SettingRow :=
  mkSettingRow (level_word (scope_level s)) (id_text s) (storage_key id) (kind_word (value_kind v)) (value_int v) None now.

Definition new_override_row (now : Z) (w : WorksheetId) (id : SettingId) (v : SettingValue) : WorksheetSettingRow :=
  mkWsRow (id_to_string w) (storage_key id) (kind_word (value_kind v)) (value_int v) None now.

Lemma id_text_not_nil u : id_to_string u <> [].
Proof. unfold id_to_string. intros H. pose proof (hyphenated_length u) as Hl. by rewrite H in Hl. Qed.

Lemma new_setting_row_ok now s id v :
  (forall w, s <> ScopeWorksheet w) -> setting_row_ok (new_setting_row now s id v) = true.
Proof.
  intros Hs. unfold setting_row_ok, new_setting_row. simpl. destruct s as [|p|w]; simpl; [by destruct (value_int v)| |by destruct (Hs w)].
  rewrite bool_decide_eq_false_2 by apply id_text_not_nil. by destruct (value_int v).
Qed.

(** What the put leaves in the tables. *)
Definition setting_put (now : Z) (s : Scope) (id : SettingId) (v : SettingValue) (t : Tables) : Tables :=
  match s with
  | ScopeWorksheet w => match put_worksheet_setting_row (new_override_row now w id v) t with Ok (_, t') => t' | Err _ => t end
  | _ => match put_setting_row (new_setting_row now s id v) t with Ok (_, t') => t' | Err _ => t end
  end.

Lemma put_setting_row_ok row t t' : db_ok t -> put_setting_row row t = Ok (tt, t') -> db_ok t'.
Proof.
  intros Ht. unfold put_setting_row. destruct (setting_row_ok row) eqn:Er; [|done]. intros [= <-].
  apply db_ok_set_settings; [done|..].
  - apply upsert_unique; [|done|apply Ht]. intros x. unfold same_setting.
    rewrite !andb_true_iff, nocase_true. unfold str_eqb. rewrite !bool_decide_eq_true.
    split; [intros [[E1 E2] E3]; congruence|]. intros E; injection E as E1 E2 E3. done.
  - apply Forall_upsert; [apply Ht|done|]. intros x Hx _. unfold setting_row_ok in *. simpl.
    rewrite !andb_true_iff in *. destruct Hx as [[? ?] ?]. split_and!; try done. by destruct (s_int row).
Qed.

Lemma put_worksheet_setting_row_ok row t t' : db_ok t -> put_worksheet_setting_row row t = Ok (tt, t') -> db_ok t'.
Proof.
  intros Ht. unfold put_worksheet_setting_row. destruct (has_worksheet t (ws_worksheet row)) eqn:Er; [|done]. intros [= <-].
  apply has_worksheet_true in Er. apply db_ok_set_overrides; [done|..].
  - apply upsert_unique; [|done|apply Ht]. intros x. unfold same_worksheet_setting.
    rewrite andb_true_iff, nocase_true. unfold str_eqb. rewrite bool_decide_eq_true.
    split; [intros [E1 E2]; congruence|]. intros E; injection E as E1 E2. done.
  - apply Forall_upsert; [apply Ht|done|done].
Qed.

Definition scope_exists (s : Scope) (t : Tables) : bool :=
  match s with
  | ScopeApplication => true
  | ScopeProfile p => has_profile t (id_to_string p)
  | ScopeWorksheet w => has_worksheet t (id_to_string w)
  end.

Definition not_found (s : Scope) (e : StoreError) : Prop :=
  match s with
  | ScopeApplication => False
  | ScopeProfile p => e = ProfileNotFound p
  | ScopeWorksheet w => e = WorksheetNotFound w
  end.

Lemma put_setting_value_spec now s id v t0 :
  triple F (fun t => t = t0 /\ db_ok t0) (put_setting_value now s id v)
    (fun _ t => check (descriptor id) (scope_level s) v = Ok tt /\ scope_exists s t0 = true /\
                t = setting_put now s id v t0 /\ db_ok t)
    (fun e => (exists x, check (descriptor id) (scope_level s) v = Err x /\ e = InvalidSetting x) \/ not_found s e).
Proof.
  unfold put_setting_value. destruct (check _ _ v) as [[]|x] eqn:Ec; [|apply triple_fail; eauto].
  cbn [encode_value]. change (encode_value v) with (kind_word (value_kind v), value_int v). cbv iota.
  apply triple_transaction.
  eapply triple_bind with (R := fun _ t => t = t0 /\ db_ok t0 /\ (forall p, s = ScopeProfile p -> has_profile t0 (id_to_string p) = true)).
  { destruct s as [|p|w]; [apply triple_ret; intros t [-> ?]; done| |apply triple_ret; intros t [-> ?]; done].
    apply triple_guard; [by right|]. apply triple_ret. intros t [[-> Ht] Hp]. split_and!; try done. by intros ? [= <-]. }
  assert (Hplain : (forall w, s <> ScopeWorksheet w) -> forall E, triple F
    (fun t => t = t0 /\ db_ok t0 /\ (forall p, s = ScopeProfile p -> has_profile t0 (id_to_string p) = true))
    (execute (put_setting_row (new_setting_row now s id v)))
    (fun _ t => Ok (E := SettingError) tt = Ok tt /\ scope_exists s t0 = true /\ t = setting_put now s id v t0 /\ db_ok t) E).
  { intros Hs E. apply triple_execute. intros t (-> & Ht & Hp).
    assert (put_setting_row (new_setting_row now s id v) t0 = Ok (tt, setting_put now s id v t0)) as Hput.
    { unfold setting_put, put_setting_row. rewrite new_setting_row_ok by done. by destruct s as [| |w]; [..|destruct (Hs w)]. }
    eexists _, _. split; [exact Hput|]. split_and!; [done| |done|by eapply put_setting_row_ok].
    destruct s as [|p|w]; [done|by apply Hp|by destruct (Hs w)]. }
  intros []. destruct s as [|p|w]; [by apply Hplain|by apply Hplain|].
  apply triple_guard; [by right|]. apply triple_execute. intros t [(-> & Ht & _) Hw].
  assert (put_worksheet_setting_row (new_override_row now w id v) t0 = Ok (tt, setting_put now (ScopeWorksheet w) id v t0)) as Hput.
  { unfold setting_put, put_worksheet_setting_row. simpl. by rewrite Hw. }
  eexists _, _. split; [exact Hput|]. split_and!; try done. by eapply put_worksheet_setting_row_ok.
Qed.

Lemma clear_setting_spec s id t0 :
  triple F (fun t => t = t0 /\ db_ok t0) (clear_setting s id) (fun _ t => db_ok t) no_error.
Proof.
  unfold clear_setting. apply triple_transaction.
  eapply triple_bind with (R := fun _ t => db_ok t); [|intros n; by apply triple_ret].
  apply triple_execute. intros t [-> Ht].
  destruct s; eexists _, _; (split; [done|]); apply delete_settings_ok || apply delete_overrides_ok; done.
Qed.

Lemma clear_worksheet_settings_spec id t0 :
  triple F (fun t => t = t0 /\ db_ok t0) (clear_worksheet_settings id) (fun _ t => db_ok t) no_error.
Proof.
  unfold clear_worksheet_settings. apply triple_transaction, triple_execute. intros t [-> Ht].
  eexists _, _. split; [done|]. by apply delete_overrides_ok.
Qed.

(** ** Worksheets and the layout *)

Definition worksheet_saved (w : Worksheet) (t : Tables) : Tables :=
  match save_worksheet_row (worksheet_row w) t with Ok (_, t') => t' | Err _ => t end.

Lemma refers_true (p : str -> bool) (ks : list str) o :
  (forall k, p k = true <-> lower k ∈ ks) -> refers p o = true <-> names ks o.
Proof. intros H. destruct o; simpl; [apply H|done]. Qed.

Lemma save_worksheet_row_ok row t t' : db_ok t -> save_worksheet_row row t = Ok (tt, t') -> db_ok t'.
Proof.
  intros Ht. unfold save_worksheet_row. destruct (worksheet_row_ok t row) eqn:Er; [|done]. intros [= <-].
  unfold worksheet_row_ok in Er. apply andb_true_iff in Er as [El Er]. boolify.
  apply (refers_true (has_profile t) (pkeys t)) in Er; [|apply has_profile_true].
  assert (Hkeys : forall x, nocase (w_id x) (w_id row) = true <-> lower (w_id x) = lower (w_id row)) by (intros; apply nocase_true).
  apply db_ok_set_worksheets; [done|..].
  - by apply upsert_unique; [|done|apply Ht].
  - apply Forall_upsert; [apply Ht|done|]. intros x [? _] _. done.
  - intros k Hk. unfold upsert. destruct (existsb _ _); [by rewrite update_where_map|]. rewrite map_app, elem_of_app. by left.
Qed.

Lemma save_worksheet_spec w t0 :
  triple F (fun t => t = t0 /\ db_ok t0) (save_worksheet w)
    (fun _ t => state_validate (state w) = Ok tt /\ save_worksheet_row (worksheet_row w) t0 = Ok (tt, t) /\ db_ok t)
    (fun e => (exists x, e = InvalidWorksheet x) \/ exists p, worksheet_profile w = Some p /\ e = ProfileNotFound p).
Proof.
  unfold save_worksheet. destruct (state_validate (state w)) as [[]|x] eqn:Ev; [|apply triple_fail; eauto].
  apply triple_transaction.
  eapply triple_bind with (R := fun _ t => t = t0 /\ db_ok t0 /\ names (pkeys t0) (w_profile (worksheet_row w))).
  { simpl. destruct (worksheet_profile w) as [p|]; simpl; [|apply triple_ret; intros t [-> ?]; done].
    apply triple_guard; [eauto|]. apply triple_ret. intros t [[-> Ht] Hp]. split_and!; try done. by apply has_profile_true. }
  intros []. apply triple_execute. intros t (-> & Ht & Hp).
  assert (save_worksheet_row (worksheet_row w) t0 = Ok (tt, worksheet_saved w t0)) as Hs.
  { unfold worksheet_saved, save_worksheet_row, worksheet_row_ok.
    rewrite (proj2 (refers_true (has_profile t0) (pkeys t0) _ (has_profile_true t0)) Hp).
    simpl. unfold id_to_string. by rewrite hyphenated_length. }
  eexists _, _. split; [exact Hs|]. split_and!; try done. by eapply save_worksheet_row_ok.
Qed.

Lemma save_layout_row_ok row t t' : db_ok t -> save_layout_row row t = Ok (tt, t') -> db_ok t'.
Proof.
  intros Ht. unfold save_layout_row. destruct (layout_row_ok t row) eqn:Er; [|done]. intros [= <-].
  unfold layout_row_ok in Er. rewrite !andb_true_iff, orb_true_iff, !Z.eqb_eq in Er. destruct Er as [[Hw Hp] Hm].
  apply (refers_true (has_worksheet t) (wkeys t)) in Hw; [|apply has_worksheet_true].
  apply (refers_true (has_profile t) (pkeys t)) in Hp; [|apply has_profile_true].
  apply db_ok_set_layouts; [done| |by apply Forall_upsert; [apply Ht|..]].
  unfold upsert. pose proof (one_layout t Ht). destruct (layouts t) as [|r [|r' l]]; simpl in *; lia.
Qed.

Lemma save_layout_spec now l t0 :
  triple F (fun t => t = t0 /\ db_ok t0) (save_layout now l)
    (fun _ t => save_layout_row (layout_row now l) t0 = Ok (tt, t) /\ db_ok t)
    (fun e => (exists w, active_worksheet l = Some w /\ e = WorksheetNotFound w) \/
              exists p, active_profile l = Some p /\ e = ProfileNotFound p).
Proof.
  unfold save_layout. apply triple_transaction.
  eapply triple_bind with (R := fun _ t => t = t0 /\ db_ok t0 /\ refers (has_worksheet t0) (option_map id_to_string (active_worksheet l)) = true).
  { destruct (active_worksheet l) as [w|]; simpl; [|apply triple_ret; intros t [-> ?]; done].
    apply triple_guard; [eauto|]. apply triple_ret. by intros t [[-> Ht] Hp]. }
  intros []. eapply triple_bind with (R := fun _ t => t = t0 /\ db_ok t0 /\ refers (has_worksheet t0) (option_map id_to_string (active_worksheet l)) = true
     /\ refers (has_profile t0) (option_map id_to_string (active_profile l)) = true).
  { destruct (active_profile l) as [p|]; simpl; [|apply triple_ret; intros t (-> & ? & ?); done].
    apply triple_guard; [eauto|]. apply triple_ret. by intros t [(-> & Ht & ?) Hp]. }
  intros []. apply triple_execute. intros t (-> & Ht & Hw & Hp).
  assert (exists t', save_layout_row (layout_row now l) t0 = Ok (tt, t')) as [t' Hs].
  { unfold save_layout_row, layout_row_ok. simpl. rewrite Hw, Hp. destruct (maximized (window l)); simpl; eauto. }
  exists tt, t'. split; [done|]. split; [done|]. by eapply save_layout_row_ok.
Qed.

End Operations.

(** ** Runs of the store *)


Section Runs.
Context {CM : CaseMap} {U : Uuid} {T : Target}.

Inductive Op :=
| OpInsertProfile (p : Profile)
| OpUpdateProfile (p : Profile)
| OpDeleteProfile (id : ProfileId)
| OpPutSetting (now : Z) (s : Scope) (id : SettingId) (v : SettingValue)
| OpClearSetting (s : Scope) (id : SettingId)
| OpClearWorksheetSettings (w : WorksheetId)
| OpRecordHistory (e : HistoryEntry)
| OpClearHistory (p : ProfileId)
| OpSaveWorksheet (w : Worksheet)
| OpDeleteWorksheet (w : WorksheetId)
| OpSaveLayout (now : Z) (l : Layout).

Definition discard {A} (m : Db A) : Db unit := do _ <- m; db_ret tt.

Definition run_op (op : Op) : Db unit :=
  match op with
  | OpInsertProfile p => insert_profile p
  | OpUpdateProfile p => update_profile p
  | OpDeleteProfile id => discard (delete_profile id)
  | OpPutSetting now s id v => put_setting_value now s id v
  | OpClearSetting s id => discard (clear_setting s id)
  | OpClearWorksheetSettings w => discard (clear_worksheet_settings w)
  | OpRecordHistory e => discard (record_history e)
  | OpClearHistory p => discard (clear_history p)
  | OpSaveWorksheet w => save_worksheet w
  | OpDeleteWorksheet w => discard (delete_worksheet w)
  | OpSaveLayout now l => save_layout now l
  end.

(** A profile's port has 16 bits. *)
Definition op_typed (op : Op) : bool :=
  match op with
  | OpInsertProfile p | OpUpdateProfile p => port_typed (endpoint (details p))
  | _ => true
  end.

(** What an operation may answer of its own. *)
Definition op_error (op : Op) (e : StoreError) : Prop :=
  match op with
  | OpInsertProfile p => (exists x, e = InvalidProfile x) \/ e = ProfileExists (profile_id p)
  | OpUpdateProfile p => (exists x, e = InvalidProfile x) \/ e = ProfileNotFound (profile_id p)
  | OpPutSetting _ s id v => (exists x, check (descriptor id) (scope_level s) v = Err x /\ e = InvalidSetting x) \/ not_found s e
  | OpRecordHistory h => (exists x, e = InvalidHistory x) \/ e = ProfileNotFound (entry_profile h)
  | OpSaveWorksheet w => (exists x, e = InvalidWorksheet x) \/ exists p, worksheet_profile w = Some p /\ e = ProfileNotFound p
  | OpSaveLayout _ l => (exists w, active_worksheet l = Some w /\ e = WorksheetNotFound w) \/
                        exists p, active_profile l = Some p /\ e = ProfileNotFound p
  | OpDeleteProfile _ | OpClearSetting _ _ | OpClearWorksheetSettings _ | OpClearHistory _ | OpDeleteWorksheet _ => False
  end.

Lemma triple_discard {A} F (m : Db A) P (Q : A -> Tables -> Prop) E (R : Tables -> Prop) :
  triple F P m Q E -> (forall a t, Q a t -> R t) -> triple F P (discard m) (fun _ t => R t) E.
Proof. intros Hm HQ. eapply triple_bind; [exact Hm|]. intros a. apply triple_ret, HQ. Qed.

Lemma run_op_spec F op t0 :
  op_typed op = true -> triple F (fun t => t = t0 /\ db_ok t0) (run_op op) (fun _ t => db_ok t) (op_error op).
Proof.
  assert (Hdone : forall A (m : Db A) Q E, triple F (fun t => t = t0 /\ db_ok t0) m Q E ->
    (forall a t, Q a t -> db_ok t) -> triple F (fun t => t = t0 /\ db_ok t0) m (fun _ t => db_ok t) E).
  { intros A m Q E Hm HQ. by eapply triple_weaken; [exact Hm|..]. }
  intros Ht. destruct op; simpl in *.
  - eapply Hdone; [by apply insert_profile_spec|]. naive_solver.
  - eapply Hdone; [by apply update_profile_spec|]. naive_solver.
  - eapply triple_discard; [apply delete_profile_spec|]. naive_solver.
  - eapply Hdone; [apply put_setting_value_spec|]. naive_solver.
  - eapply triple_discard; [apply clear_setting_spec|]. naive_solver.
  - eapply triple_discard; [apply clear_worksheet_settings_spec|]. naive_solver.
  - eapply triple_discard; [apply record_history_spec|]. naive_solver.
  - eapply triple_discard; [apply clear_history_spec|]. naive_solver.
  - eapply Hdone; [apply save_worksheet_spec|]. naive_solver.
  - eapply triple_discard; [apply delete_worksheet_spec|]. naive_solver.
  - eapply Hdone; [apply save_layout_spec|]. naive_solver.
Qed.

(** ** A failed operation changes nothing *)

Definition atomic {A} (m : Db A) : Prop := forall c e c', m c = (Err e, c') -> tables c' = tables c.

Lemma atomic_transaction {A} (body : Db A) : atomic (transaction body).
Proof. intros c e c'. apply transaction_rollback. Qed.

Lemma atomic_fail {A} e : atomic (db_fail (A := A) e).
Proof. by intros c e' c' [= _ <-]. Qed.

Lemma atomic_discard {A} (m : Db A) : atomic m -> atomic (discard m).
Proof.
  intros Hm c e c'. unfold discard, db_bind. destruct (m c) as [[a|e1] c1] eqn:E; [done|].
  intros [= _ <-]. by eapply Hm.
Qed.

Lemma atomic_lift {A B} (r : result A StoreError) (k : A -> Db B) : (forall a, atomic (k a)) -> atomic (db_bind (db_lift r) k).
Proof. intros Hk c e c'. unfold db_bind, db_lift. destruct r; [apply Hk|by intros [= _ <-]]. Qed.

#[local] Hint Resolve atomic_transaction atomic_fail atomic_discard atomic_lift : store.

Lemma run_op_atomic op : atomic (run_op op).
Proof.
  destruct op; simpl; unfold insert_profile, update_profile, delete_profile, put_setting_value, clear_setting,
    clear_worksheet_settings, record_history, clear_history, save_worksheet, delete_worksheet, save_layout;
    repeat case_match; eauto with store.
Qed.

(** One operation on the file, with any failures of SQLite. *)
Definition store_step (t t' : Tables) : Prop :=
  exists op script, op_typed op = true /\ tables (run_op op (mkConn t script)).2 = t'.

Lemma store_step_ok t t' : db_ok t -> store_step t t' -> db_ok t'.
Proof.
  intros Ht (op & script & Hop & <-).
  destruct (run_op_spec (fun _ => True) op t Hop (mkConn t script) (conj eq_refl Ht)) as [_ H]; [done|].
  destruct (run_op op _) as [[[]|e] c'] eqn:E; simpl in *; [done|].
  by rewrite (run_op_atomic op _ _ _ E).
Qed.

Lemma store_steps_ok t t' : db_ok t -> rtc store_step t t' -> db_ok t'.
Proof. intros Ht. induction 1; eauto using store_step_ok. Qed.

(** The file after a list of operations that SQLite does not refuse. *)
Definition run_ops (ops : list Op) (t : Tables) : Tables :=
  fold_left (fun t op => tables (run_op op (mkConn t [])).2) ops t.

Lemma run_ops_steps ops t : forallb op_typed ops = true -> rtc store_step t (run_ops ops t).
Proof.
  revert t. induction ops as [|op ops IH]; intros t H; [apply rtc_refl|]. simpl in H. apply andb_true_iff in H as [H1 H2].
  eapply rtc_l; [|by apply IH]. by exists op, [].
Qed.

Lemma run_ops_ok ops : forallb op_typed ops = true -> db_ok (run_ops ops no_tables).
Proof. intros H. eapply store_steps_ok; [apply no_tables_ok|by apply run_ops_steps]. Qed.

End Runs.
