(* ===== verification/HistoryClaims.v ===== *)
(** * What the query history guarantees

    The counted trim keeps the newest entries, and paging backward through a
    profile's history shows every entry once, newest first. *)

From stdpp Require Import sorting.
From S2P Require Import Prelude RustStr RustText Settings Ids Profile Codec Workspace Tables Store SettingsClaims ProfileClaims StoreProps StoreOps.
Open Scope Z_scope.
Open Scope db_scope.

Section History.
Context {CM : CaseMap} {U : Uuid} {T : Target}.

(** C25: Recording a statement keeps exactly the newest entries.  After a
    successful [record_history] the profile's history is the newest [limit] of
    the entries it had with the new one after them (all of them when there is no
    limit), the history of every other profile is as it was, and the counter
    the trim relies on is again exact: the trim that deletes only the counted
    excess is the plain "keep the newest". *)
Theorem record_history_keeps_newest e c id c'
  (file : db_ok (tables c)) (recorded_ok : record_history e c = (Ok id, c')) :
  let key := id_to_string (entry_profile e) in
  let all := entries key (histories (tables c)) ++ [entry_row e id] in
  entries key (histories (tables c')) =
    match max_entries (tables c) with Some limit => keep_newest limit all | None => all end /\
  (forall other, nocase key other = false ->
     entries other (histories (tables c')) = entries other (histories (tables c))) /\
  (forall key', counted key' (metas (tables c')) = Z.of_nat (length (entries key' (histories (tables c'))))).
Proof.
  cbv zeta. destruct (record_history_spec (fun _ => True) e (tables c) c (conj eq_refl file)) as [_ H]; [done|].
  rewrite recorded_ok in H. simpl in H. destruct H as (Hp & -> & Ht & Hok).
  assert (Hrow : h_id (entry_row e (next_history_id (tables c))) = next_history_id (tables c) /\
                 nocase (h_profile (entry_row e (next_history_id (tables c)))) (id_to_string (entry_profile e)) = true).
  { destruct (entry_row_fields e (next_history_id (tables c))) as [-> ->]. split; [done|apply nocase_refl]. }
  destruct Hrow as [Hid Hkey]. rewrite Ht. split_and!.
  - rewrite recorded_entries by (done || apply max_entries_nonneg). cbv zeta. by rewrite nocase_refl.
  - intros other Ho. rewrite recorded_entries by (done || apply max_entries_nonneg). cbv zeta.
    rewrite Ho, app_nil_r. by destruct (max_entries _).
  - rewrite <- Ht. apply counters_exact, Hok.
Qed.

(** ** Paging *)

Lemma history_rows_eq key page hs :
  StronglySorted Z.lt (map h_id hs) ->
  history_rows key page hs =
  take (Z.to_nat (limit page))
    (filter (fun r => match before page with Some b => h_id r <? b | None => true end = true) (reverse (entries key hs))).
Proof.
  intros Hs. unfold history_rows. f_equal. set (keep := fun r => match before page with Some b => h_id r <? b | None => true end).
  set (l := filter _ hs).
  assert (Hl : l = filter (fun r => keep r = true) (entries key hs)).
  { unfold entries, l. rewrite list_filter_filter. apply list_filter_iff. intros r. rewrite andb_true_iff. unfold keep. tauto. }
  assert (Hsub : l `sublist_of` hs) by apply sublist_filter.
  assert (Hsl : StronglySorted Z.lt (map h_id l)).
  { eapply StronglySorted_sublist; [exact Hs|]. by apply (fmap_sublist h_id). }
  transitivity (reverse l).
  - apply (StronglySorted_unique_strong newer).
    + intros x y Hx Hy H1 H2. unfold newer in *.
      apply (unique_key h_id l); [by apply StronglySorted_lt_NoDup| | |lia].
      * by apply (elem_of_Permutation_proper x _ _ (merge_sort_Permutation newer l)) in Hx.
      * by apply elem_of_reverse.
    + apply StronglySorted_merge_sort; [intros ???; unfold newer; lia|intros ??; unfold newer; lia].
    + clear Hsub. revert Hsl. generalize l. clear. induction l as [|r l IH] using rev_ind; [constructor|].
      rewrite map_app. intros H. rewrite reverse_snoc.
      assert (StronglySorted Z.lt (map h_id l) /\ Forall (fun x => x < h_id r) (map h_id l)) as [H1 H2].
      { clear IH. induction l as [|x l IH]; simpl in *; [by repeat constructor|]. inversion H as [|? ? H1 H2]; subst.
        destruct (IH H1) as [? ?]. rewrite Forall_app in H2. destruct H2 as [? H2]. inversion H2; subst.
        split; constructor; done. }
      constructor; [by apply IH|]. rewrite Forall_reverse. rewrite Forall_map in H2. eapply Forall_impl; [exact H2|].
      unfold newer. simpl. lia.
    + rewrite merge_sort_Permutation. symmetry. apply reverse_Permutation.
  - rewrite Hl. clear. induction (entries key hs) as [|r l IH]; [done|].
    rewrite filter_cons, !reverse_cons, filter_app, <- IH.
    rewrite filter_cons, filter_nil. destruct (decide _); [by rewrite reverse_cons|by rewrite app_nil_r].
Qed.

Definition record_of (p : ProfileId) (r : HistoryRow) : HistoryRecord :=
  mkRecord (h_id r) p (h_executed_at r) (h_statement r)
    (match decode_history_outcome (h_outcome r) (h_native_code r) with Ok o => o | Err _ => Succeeded end)
    (to_u64 (h_elapsed_ms r)) (option_map to_u64 (h_row_count r)).

Lemma decode_history_total p rows :
  Forall outcome_row_ok rows -> decode_history p rows = Ok (map (record_of p) rows).
Proof.
  induction 1 as [|r rows Hr _ IH]; [done|]. simpl. unfold record_of at 1.
  unfold outcome_row_ok in Hr. apply andb_true_iff in Hr as [Hr _].
  assert (exists o, decode_history_outcome (h_outcome r) (h_native_code r) = Ok o) as [o Ho].
  { apply existsb_true in Hr as (w & Hw & E). apply bool_decide_eq_true in E. rewrite E.
    rewrite !elem_of_cons, elem_of_nil in Hw. destruct Hw as [->|[->|[->|[->|[]]]]]; by eexists. }
  by rewrite Ho, IH.
Qed.

(** Reading a profile's history page by page; the store may have changed
    between two reads, so each sees tables of its own. *)
Fixpoint read_pages (p : ProfileId) (limit : Z) (before : option HistoryId) (ts : list Tables)
  : option (list HistoryRecord) :=
  match ts with
  | [] => Some []
  | t :: ts' =>
      match (history p (mkPage limit before) (mkConn t [])).1 with
      | Err _ => None
      | Ok [] => Some []
      | Ok (r :: rs) =>
          match read_pages p limit (option_map record_id (last (r :: rs))) ts' with
          | Some rest => Some ((r :: rs) ++ rest)
          | None => None
          end
      end
  end.

Definition past (before : option HistoryId) (i : Z) : Prop := match before with Some b => i < b | None => True end.

(** The entries of a profile before a cursor, newest first. *)
Definition older (key : str) (before : option HistoryId) (t : Tables) : list HistoryRow :=
  filter (fun r => match before with Some b => h_id r <? b | None => true end = true) (reverse (entries key (histories t))).

Lemma history_page p limit before t :
  db_ok t ->
  (history p (mkPage limit before) (mkConn t [])).1 = Ok (map (record_of p) (take (Z.to_nat limit) (older (id_to_string p) before t))).
Proof.
  intros Ht. unfold history, query, db_bind, sqlite, db_lift. simpl.
  rewrite history_rows_eq by apply Ht. apply decode_history_total.
  eapply Forall_sublist; [|apply sublist_take].
  eapply Forall_sublist; [|apply sublist_filter]. rewrite Forall_reverse.
  eapply Forall_sublist; [|apply entries_sublist]. eapply Forall_impl; [apply (history_checked t Ht)|]. by intros r [? _].
Qed.

Lemma older_sorted key before t : db_ok t -> StronglySorted (fun a b => h_id b < h_id a) (older key before t).
Proof.
  intros Ht. unfold older. eapply StronglySorted_sublist; [|apply sublist_filter].
  assert (Hs : StronglySorted Z.lt (map h_id (entries key (histories t)))).
  { eapply StronglySorted_sublist; [apply (history_ordered t Ht)|]. apply (fmap_sublist h_id), entries_sublist. }
  revert Hs. generalize (entries key (histories t)). clear. induction l as [|r l IH]; [constructor|].
  simpl. intros H. inversion H as [|? ? H1 H2]; subst. rewrite reverse_cons.
  rewrite Forall_map in H2. specialize (IH H1). apply Forall_reverse in H2. revert IH H2. generalize (reverse l). clear.
  induction l as [|x l IH]; simpl; intros Hs Hf; [by repeat constructor|].
  inversion Hs; inversion Hf; subst. constructor; [by apply IH|]. apply Forall_app. split; [done|]. by repeat constructor.
Qed.

Lemma older_past key before t : Forall (fun r => past before (h_id r)) (older key before t).
Proof.
  unfold older. apply Forall_forall. intros r Hr. apply list_elem_of_filter in Hr as [Hr _].
  destruct before; simpl; [by boolify|done].
Qed.

Lemma decreasing_app (l k : list HistoryRow) :
  StronglySorted (fun a b => h_id b < h_id a) (l ++ k) ->
  forall a b, a ∈ l -> b ∈ k -> h_id b < h_id a.
Proof.
  induction l as [|x l IH]; simpl; intros H a b Ha Hb; [by apply not_elem_of_nil in Ha|].
  inversion H as [|? ? H1 H2]; subst. apply elem_of_cons in Ha as [->|Ha]; [|by apply IH].
  rewrite Forall_forall in H2. apply H2, elem_of_app. by right.
Qed.

(** The rows behind the last one of a page. *)
Lemma older_next key n before t r :
  db_ok t -> last (take n (older key before t)) = Some r ->
  older key (Some (h_id r)) t = drop n (older key before t).
Proof.
  intros Ht Hr. pose proof (older_sorted key before t Ht) as Hs.
  assert (Hp : past before (h_id r)).
  { pose proof (older_past key before t) as Ha. rewrite Forall_forall in Ha. apply Ha.
    apply last_Some in Hr as [l' Hl']. eapply (elem_of_sublist (take n _)); [|apply sublist_take].
    rewrite Hl', elem_of_app, list_elem_of_singleton. by right. }
  transitivity (filter (fun x => (h_id x <? h_id r) = true) (older key before t)).
  { unfold older. rewrite list_filter_filter. apply list_filter_iff. intros x.
    destruct before as [b|]; simpl in *; rewrite ?Z.ltb_lt; lia || tauto. }
  set (o := older key before t) in *. rewrite <- (take_drop n o) in Hs.
  rewrite <- (take_drop n o) at 1. rewrite filter_app.
  apply last_Some in Hr as [l' Hl'].
  rewrite (filter_all _ (drop n o)).
  2:{ intros x Hx. rewrite Z.ltb_lt. eapply decreasing_app; [exact Hs| |done]. rewrite Hl', elem_of_app, list_elem_of_singleton. by right. }
  enough (filter (fun x => (h_id x <? h_id r) = true) (take n o) = []) as ->; [done|].
  apply no_member_nil. intros x Hx. apply list_elem_of_filter in Hx as [Hlt Hx]. rewrite Z.ltb_lt in Hlt.
  assert (Ht2 : StronglySorted (fun a b => h_id b < h_id a) (take n o)) by (eapply StronglySorted_sublist; [exact Hs|by apply sublist_inserts_r]).
  rewrite Hl' in Hx, Ht2. apply elem_of_app in Hx as [Hx|Hx].
  - pose proof (decreasing_app _ _ Ht2 x r Hx ltac:(by apply list_elem_of_singleton)). lia.
  - apply list_elem_of_singleton in Hx as ->. lia.
Qed.

Lemma last_record p l : option_map record_id (last (map (record_of p) l)) = option_map h_id (last l).
Proof. change (map (record_of p) l) with (record_of p <$> l). rewrite fmap_last. by destruct (last l). Qed.

Lemma read_pages_cons p limit before t ts :
  1 <= limit -> db_ok t ->
  let page := take (Z.to_nat limit) (older (id_to_string p) before t) in
  read_pages p limit before (t :: ts) =
  if bool_decide (page = []) then Some []
  else option_map (app (map (record_of p) page)) (read_pages p limit (option_map h_id (last page)) ts).
Proof.
  intros Hl Ht page. cbn [read_pages]. rewrite history_page by done. fold page. rewrite <- (last_record p page).
  destruct page as [|r page]; [done|]. simpl.
  destruct (read_pages _ _ _ ts); simpl; done.
Qed.

Lemma read_pages_decreasing p limit ts :
  1 <= limit -> Forall db_ok ts -> forall before, exists records, read_pages p limit before ts = Some records /\
    StronglySorted (fun a b => record_id b < record_id a) records /\ Forall (fun r => past before (record_id r)) records.
Proof.
  intros Hl. induction 1 as [|t ts Ht _ IH]; intros before; [exists []; by repeat constructor|].
  rewrite read_pages_cons by done. cbv zeta. set (page := take _ _).
  destruct (bool_decide (page = [])) eqn:Ep; [exists []; by repeat constructor|]. apply bool_decide_eq_false in Ep.
  destruct (last page) as [r|] eqn:Er; [|by apply last_None in Er].
  destruct (IH (option_map h_id (Some r))) as (rest & -> & Hsort & Hpast). simpl in Hpast |- *.
  eexists. split; [done|].
  assert (Hs : StronglySorted (fun a b => h_id b < h_id a) page) by (eapply StronglySorted_sublist; [by apply older_sorted|apply sublist_take]).
  assert (Hp : Forall (fun r => past before (h_id r)) page) by (eapply Forall_sublist; [apply older_past|apply sublist_take]).
  apply last_Some in Er as [l' Er].
  assert (Hlow : Forall (fun x => h_id r <= h_id x) page).
  { rewrite Er in Hs |- *. apply Forall_forall. intros x Hx. apply elem_of_app in Hx as [Hx|Hx].
    - pose proof (decreasing_app _ _ Hs x r Hx ltac:(by apply list_elem_of_singleton)). lia.
    - apply list_elem_of_singleton in Hx as ->. lia. }
  assert (Hr : past before (h_id r)).
  { rewrite Er, Forall_app, Forall_singleton in Hp. apply Hp. }
  split.
  - clear Er Hp Ep. revert Hs Hlow. generalize page. clear page.
    induction page as [|x page IHp]; simpl; intros Hs Hlow; [done|].
    inversion Hs as [|? ? Hs1 Hs2]; inversion Hlow as [|? ? Hx Hl2]; subst. constructor; [by apply IHp|].
    apply Forall_app. split; [by apply Forall_map|]. eapply Forall_impl; [exact Hpast|]. simpl. lia.
  - apply Forall_app. split; [by apply Forall_map|]. eapply Forall_impl; [exact Hpast|].
    simpl. intros x Hx. destruct before; simpl in *; [lia|done].
Qed.

Lemma read_pages_all p limit t :
  1 <= limit -> db_ok t -> forall n before, (length (older (id_to_string p) before t) < n)%nat ->
  read_pages p limit before (replicate n t) = Some (map (record_of p) (older (id_to_string p) before t)).
Proof.
  intros Hl Ht. induction n as [|n IH]; intros before Hn; [lia|]. cbn [replicate].
  rewrite read_pages_cons by done. cbv zeta. set (o := older (id_to_string p) before t) in *.
  destruct (bool_decide _) eqn:Ep.
  - apply bool_decide_eq_true in Ep. destruct o as [|x o]; [done|].
    destruct (Z.to_nat limit) eqn:E; [lia|done].
  - apply bool_decide_eq_false in Ep. destruct (last (take (Z.to_nat limit) o)) as [r|] eqn:Er; [|by apply last_None in Er].
    pose proof (older_next (id_to_string p) (Z.to_nat limit) before t r Ht Er) as Hnext. fold o in Hnext.
    cbn [option_map]. rewrite IH, Hnext; [cbn [option_map]; by rewrite <- map_app, take_drop|].
    rewrite Hnext, length_drop. destruct o; [by rewrite take_nil in Ep|]. simpl in *. lia.
Qed.

(** Reading the history page by page, each page starting before the last
    entry of the one above, succeeds on any sequence of well-formed files (the
    store may change between two pages) and never shows an entry twice or out
    of order: the numbers strictly decrease.  On a file that does not change,
    enough pages show every entry of the profile, newest first. *)
Theorem history_paging p limit ts (positive : 1 <= limit) (files : Forall db_ok ts) :
  (exists records, read_pages p limit None ts = Some records /\
     StronglySorted (fun a b => record_id b < record_id a) records) /\
  (forall t n, ts = replicate n t -> (length (entries (id_to_string p) (histories t)) < n)%nat ->
     read_pages p limit None ts = Some (map (record_of p) (reverse (entries (id_to_string p) (histories t))))).
Proof.
  split.
  - destruct (read_pages_decreasing p limit ts positive files None) as (records & H1 & H2 & _). eauto.
  - intros t n -> Hn. assert (Ho : older (id_to_string p) None t = reverse (entries (id_to_string p) (histories t))).
    { unfold older. by apply filter_all. }
    rewrite <- Ho. apply read_pages_all; [done| |by rewrite Ho, length_reverse].
    destruct n; [lia|]. by inversion files.
Qed.

End History.

(** ** Witnesses *)

#[local] Instance desktop : Target := {| MOBILE := false |}.

Definition sample_entry (text : string) : @HistoryEntry sample_uuid :=
  mkEntry IdA 10 (lit text) Succeeded 3 (Some 4).

(** A profile that keeps two entries, with two in its history. *)
Definition sample_history_ops : list (@Op sample_uuid) :=
  [OpInsertProfile sample_profile;
   OpPutSetting 6 ScopeApplication HistoryMaxEntriesPerProfile (VEntryLimit (EntryCount 2));
   OpRecordHistory (sample_entry "select 1"); OpRecordHistory (sample_entry "select 2")].
Definition sample_history : Tables := Eval vm_compute in run_ops sample_history_ops no_tables.
Definition sample_recorded : Conn :=
  Eval vm_compute in (record_history (sample_entry "select 3") (mkConn sample_history [])).2.

Lemma sample_history_ok : db_ok sample_history.
Proof. assert (sample_history = run_ops sample_history_ops no_tables) as -> by evaluate. apply run_ops_ok. evaluate. Qed.

Lemma record_history_keeps_newest_witness :
  map h_statement (entries (id_to_string (IdA : @ProfileId sample_uuid)) (histories (tables sample_recorded)))
  = [lit "select 2"; lit "select 3"].
Proof.
  destruct (record_history_keeps_newest (sample_entry "select 3") (mkConn sample_history []) 3 sample_recorded) as [H _].
  - apply sample_history_ok.
  - evaluate.
  - etransitivity; [apply (f_equal (map h_statement) H)|]. evaluate.
Defined.

Lemma history_paging_witness :
  option_map (map record_statement) (read_pages (IdA : @ProfileId sample_uuid) 1 None (replicate 3 sample_history)) = Some [lit "select 2"; lit "select 1"].
Proof.
  assert (files : Forall db_ok (replicate 3 sample_history)) by (apply Forall_replicate, sample_history_ok).
  assert (few : (length (entries (id_to_string (IdA : @ProfileId sample_uuid)) (histories sample_history)) < 3)%nat) by (vm_compute; lia).
  pose proof (proj2 (history_paging (IdA : @ProfileId sample_uuid) 1 (replicate 3 sample_history) ltac:(lia) files) sample_history 3%nat eq_refl few) as H.
  rewrite H. evaluate.
Defined.
