(* ===== verification/WorkspaceClaims.v ===== *)
(** * What the workspace store guarantees

    Every file the operations can reach is well formed, a failed operation
    changes nothing and says why, a settings file of any content loads, and what
    was written is read back. *)

From stdpp Require Import relations gmap sorting.
From S2P Require Import Prelude RustStr RustText Settings Ids Profile Codec Workspace Tables Store SettingsClaims ProfileClaims StoreProps StoreOps.
Open Scope Z_scope.
Open Scope db_scope.

Section Claims.
Context {CM : CaseMap} {U : Uuid} {T : Target}.

(** C6: Every file the store can reach from an empty one is well formed,
    whatever operations run in whatever order and wherever SQLite fails: keys are
    unique, every row passes the schema's checks and names a profile and a
    worksheet that exist, history numbers grow, and each profile's counter is
    the number of its entries. *)
Theorem store_integrity t (reachable : rtc store_step no_tables t) : db_ok t.
Proof. eapply store_steps_ok; [apply no_tables_ok|done]. Qed.

(** C7: An operation that answers an error leaves the file exactly as it was,
    and its error is one the operation documents or the failure of a call into
    SQLite: the store's own statements never break a constraint of its schema. *)
Theorem failed_operation_changes_nothing op c e c'
  (file : db_ok (tables c)) (typed : op_typed op = true) (failed : run_op op c = (Err e, c')) :
  tables c' = tables c /\ (op_error op e \/ exists f, Some f ∈ faults c /\ e = from_rusqlite f).
Proof.
  split; [by eapply run_op_atomic|].
  destruct (run_op_spec (fun f => Some f ∈ faults c) op (tables c) typed c (conj eq_refl file)) as [_ H]; [by intros f|].
  rewrite failed in H. exact H.
Qed.

(** ** Loading settings *)

(** What one stored row is, on its own. *)
Definition read_row (level : Level) (row : StoredValue) : result (SettingId * SettingValue) RejectReason :=
  let '(key, kind, int, text) := row in
  match from_storage_key key with
  | None => Err UnknownSetting
  | Some id =>
      match decode_value kind int text with
      | Err (UnknownKindWord w) => Err (UnknownKind w)
      | Err MalformedValue => Err Malformed
      | Ok v => match check (descriptor id) level v with Ok _ => Ok (id, v) | Err e => Err (Refused e) end
      end
  end.

Definition row_key (row : StoredValue) : str := row.1.1.1.

Lemma load_value_read level acc row :
  load_value level acc row =
  match read_row level row with
  | Ok (id, v) => mkLoaded (<[id := v]> (loaded acc)) (rejected acc)
  | Err why => mkLoaded (loaded acc) (rejected acc ++ [mkRejected TSetting (row_key row) why])
  end.
Proof.
  destruct row as [[[key kind] int] text]. unfold load_value, read_row, row_key, set_value. simpl.
  destruct (from_storage_key key) as [id|]; [|done].
  destruct (decode_value kind int text) as [v|[]]; [|done..]. by destruct (check _ level v).
Qed.

Lemma read_row_Ok level row id v :
  read_row level row = Ok (id, v) -> check (descriptor id) level v = Ok tt /\ storage_key id = row_key row.
Proof.
  destruct row as [[[key kind] int] text]. unfold read_row, row_key. simpl.
  destruct (from_storage_key key) as [id'|] eqn:Ek; [|done].
  destruct (decode_value kind int text) as [v'|[]]; [|done..]. destruct (check _ level v') as [[]|] eqn:Ec; [|done].
  intros [= -> ->]. split; [done|]. by apply from_storage_key_Some.
Qed.

Lemma load_rows_snoc level rows row : load_rows level (rows ++ [row]) = load_value level (load_rows level rows) row.
Proof. unfold load_rows. by rewrite fold_left_app. Qed.

(** The value loaded for a setting is that of its last good row. *)
Definition last_good (level : Level) (id : SettingId) (rows : list StoredValue) : option SettingValue :=
  fold_left (fun acc row => match read_row level row with
                            | Ok (id', v) => if bool_decide (id' = id) then Some v else acc
                            | Err _ => acc end) rows None.

Definition refusals (level : Level) (rows : list StoredValue) : list RejectedRow :=
  omap (fun row => match read_row level row with
                   | Ok _ => None
                   | Err why => Some (mkRejected TSetting (row_key row) why) end) rows.

Lemma load_rows_spec level rows :
  layer_ok level (loaded (load_rows level rows)) /\
  (forall id, loaded (load_rows level rows) !! id = last_good level id rows) /\
  rejected (load_rows level rows) = refusals level rows.
Proof.
  induction rows as [|row rows (IH1 & IH2 & IH3)] using rev_ind; [split_and!; done || apply layer_new_ok|].
  rewrite load_rows_snoc, load_value_read. unfold last_good, refusals in *.
  setoid_rewrite fold_left_app. rewrite omap_app. cbn [fold_left omap list_omap].
  destruct (read_row level row) as [[id v]|why] eqn:Er; simpl; split_and!.
  - apply map_Forall_insert_2; [|done]. by apply (read_row_Ok level row).
  - intros id'. rewrite <- IH2. case_bool_decide as E; [subst id'; apply lookup_insert_eq|by apply lookup_insert_ne].
  - by rewrite app_nil_r, IH3.
  - done.
  - done.
  - by rewrite IH3.
Qed.

(** A settings table of any content loads.  Every row is either taken or
    reported with the reason it was refused (in order, nothing else is
    reported), the value of a setting is that of the row that holds it, and the
    layer that results holds only values its level accepts. *)
Theorem any_settings_rows_load s c c' r (read : load_layer s c = (Ok r, c')) :
  let rows := layer_rows s (tables c) in
  layer_ok (scope_level s) (loaded r) /\
  (forall id, loaded r !! id = last_good (scope_level s) id rows) /\
  rejected r = refusals (scope_level s) rows.
Proof.
  revert read. unfold load_layer, query, db_bind. pose proof (sqlite_tables c) as Ht.
  destruct (sqlite c) as [[[]|e] c1]; [|done]. simpl in *. intros [= <- _]. rewrite Ht. apply load_rows_spec.
Qed.

(** ** A setting is read back *)

(** The layer a scope loads from a file. *)
Definition stored_layer (s : Scope) (t : Tables) : SettingsLayer :=
  loaded (load_rows (scope_level s) (layer_rows s t)).

Lemma last_good_Some level id rows v :
  NoDup (map row_key rows) -> last_good level id rows = Some v <-> exists row, row ∈ rows /\ read_row level row = Ok (id, v).
Proof.
  unfold last_good. induction rows as [|row rows IH] using rev_ind; intros Hn.
  { split; [done|]. by intros (? & ?%not_elem_of_nil & _). }
  rewrite map_app in Hn. apply NoDup_app in Hn as (Hn & Hd & _). specialize (IH Hn).
  rewrite fold_left_app. cbn [fold_left]. setoid_rewrite elem_of_app. setoid_rewrite list_elem_of_singleton.
  destruct (read_row level row) as [[id' v']|why] eqn:Er; [case_bool_decide as E|].
  - subst id'. split; [intros [= ->]; eauto|]. intros (x & [Hx| ->] & Hv); [|congruence]. destruct (Hd (row_key x)).
    + by apply list_elem_of_fmap_2.
    + simpl. rewrite list_elem_of_singleton. apply read_row_Ok in Hv as [_ <-], Er as [_ <-]. done.
  - rewrite IH. split; intros (x & Hx & Hv); [by eauto|]. destruct Hx as [Hx| ->]; [by eauto|congruence].
  - rewrite IH. split; intros (x & Hx & Hv); [by eauto|]. destruct Hx as [Hx| ->]; [by eauto|congruence].
Qed.

(** Membership in an upserted table, through what a scope reads of a row. *)
Lemma upsert_view {A} (here same : A -> bool) (view : A -> StoredValue) f r (l : list A) :
  (forall x, same x = here x && str_eqb (row_key (view x)) (row_key (view r))) -> here r = true ->
  (forall x, same x = true -> here (f x) = true /\ view (f x) = view r) ->
  forall sv, (exists x, x ∈ upsert same f r l /\ here x = true /\ view x = sv) <->
    sv = view r \/ (exists x, x ∈ l /\ here x = true /\ view x = sv) /\ row_key sv <> row_key (view r).
Proof.
  intros Hs Hr Hf sv.
  assert (Hno : forall x, here x = true -> same x = false <-> row_key (view x) <> row_key (view r)).
  { intros x Hx. rewrite Hs, Hx. simpl. unfold str_eqb. by rewrite bool_decide_eq_false. }
  unfold upsert. destruct (existsb same l) eqn:E.
  - apply existsb_true in E as (y & Hy & Hsy). unfold update_where. setoid_rewrite list_elem_of_fmap. split.
    + intros (x & (z & -> & Hz) & Hx & <-). destruct (same z) eqn:Ez; [left; by apply Hf|].
      right. split; [by exists z|]. by apply Hno.
    + intros [->|[(x & Hx & Hh & <-) Hk]].
      * exists (f y). split; [exists y; by rewrite Hsy|]. by apply Hf.
      * exists x. apply Hno in Hk; [|done]. split; [exists x; by rewrite Hk|done].
  - apply existsb_false in E. rewrite Forall_forall in E. setoid_rewrite elem_of_app. setoid_rewrite list_elem_of_singleton. split.
    + intros (x & [Hx| ->] & Hh & <-); [|by left]. right. split; [by exists x|]. apply Hno; [done|]. by apply E.
    + intros [->|[(x & Hx & Hh & <-) Hk]]; [exists r; tauto|exists x; tauto].
Qed.

Lemma upsert_elsewhere {A} (here same : A -> bool) f r (l : list A) :
  (forall x, same x = true -> here x = false /\ here (f x) = false) -> here r = false ->
  filter (fun x => here x = true) (upsert same f r l) = filter (fun x => here x = true) l.
Proof.
  intros Hs Hr. unfold upsert, update_where. destruct (existsb same l).
  - induction l as [|x l IH]; [done|]. cbn [map]. rewrite !filter_cons, IH.
    destruct (same x) eqn:E; [|done]. destruct (Hs x E) as [-> ->]. by rewrite !decide_False.
  - rewrite filter_app, filter_cons, filter_nil, Hr, decide_False by done. by rewrite app_nil_r.
Qed.

Definition setting_view (r : SettingRow) : StoredValue := (s_key r, s_kind r, s_int r, s_text r).
Definition override_view (r : WorksheetSettingRow) : StoredValue := (ws_key r, ws_kind r, ws_int r, ws_text r).
Definition setting_in (s : Scope) (r : SettingRow) : bool :=
  str_eqb (s_scope r) (level_word (scope_level s)) && nocase (s_scope_id r) (id_text s).
Definition override_in (w : WorksheetId) (r : WorksheetSettingRow) : bool := nocase (ws_worksheet r) (id_to_string w).

Lemma worksheet_scope (s : Scope) : (exists w, s = ScopeWorksheet w) \/ ~ (exists w, s = ScopeWorksheet w).
Proof. destruct s as [| |w]; [right..|left]; naive_solver. Qed.

Lemma setting_in_new now s id v : setting_in s (new_setting_row now s id v) = true.
Proof. unfold setting_in, str_eqb, new_setting_row. cbn [s_scope s_scope_id]. by rewrite nocase_refl, (bool_decide_eq_true_2 _ eq_refl). Qed.

Lemma sorted_view {A} (here : A -> bool) (view : A -> StoredValue) key (l : list A) sv :
  sv ∈ map view (order_by key (filter (fun x => here x = true) l)) <-> exists x, x ∈ l /\ here x = true /\ view x = sv.
Proof.
  unfold order_by. rewrite list_elem_of_fmap. setoid_rewrite (elem_of_Permutation_proper _ _ _ (merge_sort_Permutation _ _)).
  setoid_rewrite list_elem_of_filter. naive_solver.
Qed.

Lemma layer_rows_In s t sv :
  sv ∈ layer_rows s t <->
  match s with
  | ScopeWorksheet w => exists x, x ∈ worksheet_settings t /\ override_in w x = true /\ override_view x = sv
  | _ => exists x, x ∈ settings t /\ setting_in s x = true /\ setting_view x = sv
  end.
Proof. destruct s; apply (sorted_view (setting_in _) setting_view) || apply (sorted_view (override_in _) override_view). Qed.

Lemma sorted_keys {A B} (k : A -> B) (g : str -> B) (here : A -> bool) (view : A -> StoredValue) key (l : list A) :
  NoDup (map k l) -> (forall x, here x = true -> k x = g (row_key (view x))) ->
  NoDup (map row_key (map view (order_by key (filter (fun x => here x = true) l)))).
Proof.
  intros Hn Hk. unfold order_by. rewrite map_map. rewrite (merge_sort_Permutation _ _ : Permutation _ _).
  apply (NoDup_fmap_1 g). rewrite <- list_fmap_compose.
  rewrite (list_fmap_ext _ k); [by eapply sublist_NoDup; [exact Hn|apply (fmap_sublist k), sublist_filter]|].
  intros i x Hx. simpl. symmetry. apply Hk. apply list_elem_of_lookup_2, list_elem_of_filter in Hx. tauto.
Qed.

Lemma layer_rows_unique s t : db_ok t -> NoDup (map row_key (layer_rows s t)).
Proof.
  intros Ht. destruct s as [|p|w].
  - apply (sorted_keys (fun r => (s_scope r, lower (s_scope_id r), s_key r)) (fun k => (lit "application", lower [], k))); [apply Ht|].
    intros x [Hx Hi%nocase_true]%andb_true_iff. apply bool_decide_eq_true in Hx. cbn [row_key fst snd]. by rewrite Hx, Hi.
  - apply (sorted_keys (fun r => (s_scope r, lower (s_scope_id r), s_key r)) (fun k => (lit "profile", lower (id_to_string p), k))); [apply Ht|].
    intros x [Hx Hi%nocase_true]%andb_true_iff. apply bool_decide_eq_true in Hx. cbn [row_key fst snd]. by rewrite Hx, Hi.
  - apply (sorted_keys (fun r => (lower (ws_worksheet r), ws_key r)) (fun k => (lower (id_to_string w), k))); [apply Ht|].
    intros x Hi%nocase_true. cbn [row_key fst snd]. by rewrite Hi.
Qed.

Lemma stored_layer_lookup s t id v :
  db_ok t -> stored_layer s t !! id = Some v <-> exists row, row ∈ layer_rows s t /\ read_row (scope_level s) row = Ok (id, v).
Proof.
  intros Ht. unfold stored_layer. rewrite (proj1 (proj2 (load_rows_spec _ _))).
  apply last_good_Some. by apply layer_rows_unique.
Qed.

(** The rows of the scope after a put. *)
Lemma setting_put_rows now s id v t :
  scope_exists s t = true -> forall sv,
  sv ∈ layer_rows s (setting_put now s id v t) <->
  sv = (storage_key id, kind_word (value_kind v), value_int v, None) \/ sv ∈ layer_rows s t /\ row_key sv <> storage_key id.
Proof.
  intros Hs sv. rewrite !layer_rows_In.
  assert (Hplain : (forall w, s <> ScopeWorksheet w) ->
    (exists x, x ∈ settings (setting_put now s id v t) /\ setting_in s x = true /\ setting_view x = sv) <->
    sv = setting_view (new_setting_row now s id v) \/
    (exists x, x ∈ settings t /\ setting_in s x = true /\ setting_view x = sv) /\ row_key sv <> storage_key id).
  { intros Hw.
    assert (settings (setting_put now s id v t) = settings (match put_setting_row (new_setting_row now s id v) t with Ok (_, t') => t' | Err _ => t end)) as ->
      by (destruct s; [done..|by destruct (Hw w)]).
    unfold put_setting_row. rewrite new_setting_row_ok by done. cbn [settings set_settings negb].
    apply (upsert_view (setting_in s)); [done|apply setting_in_new|].
    intros x Hx. unfold same_setting in Hx. apply andb_true_iff in Hx as [Hx Hk]. apply bool_decide_eq_true in Hk.
    split; [exact Hx|]. unfold setting_view. simpl in *. by rewrite Hk. }
  destruct s as [|p|w]; [by apply Hplain|by apply Hplain|].
  simpl in Hs. unfold setting_put, put_worksheet_setting_row. simpl. rewrite Hs. cbn [negb worksheet_settings set_worksheet_settings].
  apply (upsert_view (override_in w) _ override_view _ (new_override_row now w id v)); [done|apply nocase_refl|].
  intros x Hx. unfold same_worksheet_setting in Hx. apply andb_true_iff in Hx as [Hx Hk]. apply bool_decide_eq_true in Hk.
  split; [exact Hx|]. unfold override_view. simpl in *. by rewrite Hk.
Qed.

Lemma setting_put_elsewhere now s id v t s' :
  s' <> s -> layer_rows s' (setting_put now s id v t) = layer_rows s' t.
Proof.
  intros Hs.
  destruct (worksheet_scope s) as [[w ->]|Hw].
  { unfold setting_put, put_worksheet_setting_row. destruct (negb _); [done|]. destruct s' as [| |w']; [done..|]. simpl.
    unfold layer_rows. simpl. f_equal. f_equal. apply (upsert_elsewhere (override_in w')).
    - intros x Hx. unfold same_worksheet_setting in Hx. apply andb_true_iff in Hx as [Hx _].
      enough (override_in w' x = false) by done. unfold override_in. simpl in Hx. rewrite (nocase_trans _ _ _ Hx).
      apply not_true_iff_false. intros E%nocase_hyphenated. congruence.
    - unfold override_in. simpl. apply not_true_iff_false. intros E%nocase_hyphenated. congruence. }
  assert (Hput : setting_put now s id v t = match put_setting_row (new_setting_row now s id v) t with Ok (_, t') => t' | Err _ => t end)
    by (destruct s; [done..|destruct Hw; eauto]).
  rewrite Hput. unfold put_setting_row. destruct (negb _); [done|].
  destruct (worksheet_scope s') as [[w ->]|Hw']; [done|].
  assert (Hout : forall x, str_eqb (s_scope x) (level_word (scope_level s)) && nocase (s_scope_id x) (id_text s) = true -> setting_in s' x = false).
  { intros x [Hx Hi]%andb_true_iff. apply bool_decide_eq_true in Hx. unfold setting_in. rewrite Hx, (nocase_trans _ _ _ Hi).
    destruct s as [|p|w], s' as [|p'|w']; try done; try by destruct Hw; eauto. all: try by destruct Hw'; eauto.
    simpl. apply not_true_iff_false. intros E%nocase_hyphenated. congruence. }
  assert (Hrows : filter (fun x => setting_in s' x = true)
      (upsert (same_setting (level_word (scope_level s)) (id_text s) (storage_key id))
         (fun old => mkSettingRow (s_scope old) (s_scope_id old) (s_key old) (kind_word (value_kind v)) (value_int v) None now)
         (new_setting_row now s id v) (settings t)) = filter (fun x => setting_in s' x = true) (settings t)).
  { apply upsert_elsewhere.
    - intros x [Hx _]%andb_true_iff. split; by apply Hout.
    - apply Hout, (setting_in_new now s id v). }
  destruct s' as [|p|w]; [..|by destruct Hw'; eauto]; unfold layer_rows; f_equal; f_equal; exact Hrows.
Qed.

(** A setting that was stored is read back: after a put that succeeded, the
    scope's layer is the one it had with that value set, and no other scope's
    rows changed.  The value was one the scope's level accepts. *)
Theorem stored_setting_reads_back now s id v c c'
  (file : db_ok (tables c)) (typed : value_typed v = true) (put : put_setting_value now s id v c = (Ok tt, c')) :
  stored_layer s (tables c') = <[id := v]> (stored_layer s (tables c)) /\
  check (descriptor id) (scope_level s) v = Ok tt /\
  forall s', s' <> s -> layer_rows s' (tables c') = layer_rows s' (tables c).
Proof.
  destruct (put_setting_value_spec (fun _ => True) now s id v (tables c) c (conj eq_refl file)) as [_ H]; [done|].
  rewrite put in H. simpl in H. destruct H as (Hc & Hs & -> & Hok).
  split_and!; [|done|intros s'; apply setting_put_elsewhere].
  apply map_eq. intros id'. apply option_eq. intros v'. rewrite stored_layer_lookup by done.
  setoid_rewrite setting_put_rows; [|done].
  assert (Hnew : read_row (scope_level s) (storage_key id, kind_word (value_kind v), value_int v, None) = Ok (id, v)).
  { unfold read_row. rewrite from_storage_key_of. rewrite (proj2 (decode_value_iff v _ _ _ typed)) by done. by rewrite Hc. }
  split.
  - intros (row & [->|[Hrow Hk]] & Hr).
    + rewrite Hnew in Hr. simplify_eq. apply lookup_insert_eq.
    + pose proof (read_row_Ok _ _ _ _ Hr) as [_ Hid]. setoid_rewrite lookup_insert_ne; [|congruence].
      apply stored_layer_lookup; eauto.
  - intros Hl. destruct (decide (id' = id)) as [->|Hne].
    + setoid_rewrite lookup_insert_eq in Hl. simplify_eq. eauto.
    + setoid_rewrite lookup_insert_ne in Hl; [|done]. apply stored_layer_lookup in Hl as (row & Hrow & Hr); [|done].
      exists row. split; [|done]. right. split; [done|]. pose proof (read_row_Ok _ _ _ _ Hr) as [_ <-].
      intros E. apply (f_equal from_storage_key) in E. rewrite !from_storage_key_of in E. congruence.
Qed.

(** ** Deleting a profile *)

Definition forgotten (key : str) (o : option str) : Prop := match o with Some k => nocase k key = false | None => True end.

Lemma forget_forgotten key o : forgotten key (forget key o).
Proof. destruct o as [k|]; simpl; [|done]. by destruct (nocase k key) eqn:E. Qed.

Lemma existsb_delete {A} (p : A -> bool) l : existsb p (delete_where p l) = false.
Proof. apply existsb_false, Forall_forall. by intros x [_ ?]%elem_of_delete_where. Qed.

Lemma filter_delete_where {A} (p q : A -> bool) l :
  filter (fun x => q x = true) (delete_where p l) = filter (fun x => q x && negb (p x) = true) l.
Proof.
  unfold delete_where. rewrite list_filter_filter. apply list_filter_iff. intros x.
  rewrite andb_true_iff, negb_true_iff. tauto.
Qed.

(** C26: Deleting a profile leaves nothing behind under its identifier: no row,
    no settings, no history and no counter, and no worksheet or layout names it;
    the answer says whether there was one.  The worksheets stay with their text,
    and the rows, settings and history of every other profile are as they were. *)
Theorem deleted_profile_leaves_no_trace id b c c'
  (file : db_ok (tables c)) (deleted : delete_profile id c = (Ok b, c')) :
  let t := tables c in let t' := tables c' in let key := id_to_string id in
  b = has_profile t key /\ has_profile t' key = false /\
  layer_rows (ScopeProfile id) t' = [] /\ entries key (histories t') = [] /\ counted key (metas t') = 0 /\
  Forall (fun r => forgotten key (w_profile r)) (worksheets t') /\
  Forall (fun r => forgotten key (l_profile r)) (layouts t') /\
  map (fun r => (w_id r, w_title r, w_text r)) (worksheets t') = map (fun r => (w_id r, w_title r, w_text r)) (worksheets t) /\
  forall other, other <> id ->
    filter (fun r => nocase (row_id r) (id_to_string other) = true) (profiles t') =
    filter (fun r => nocase (row_id r) (id_to_string other) = true) (profiles t) /\
    layer_rows (ScopeProfile other) t' = layer_rows (ScopeProfile other) t /\
    entries (id_to_string other) (histories t') = entries (id_to_string other) (histories t).
Proof.
  destruct (delete_profile_spec (fun _ => True) id (tables c) c (conj eq_refl file)) as [_ H]; [done|].
  rewrite deleted in H. simpl in H. destruct H as (-> & Ht & Hok). cbv zeta. rewrite Ht. unfold profile_deleted. split_and!.
  - done.
  - apply existsb_delete.
  - unfold layer_rows. cbn [scope_level id_text delete_profile_rows settings set_settings]. rewrite filter_delete_where.
    rewrite (no_member_nil (filter _ _)); [done|]. intros r [Hr _]%list_elem_of_filter. revert Hr.
    change (level_word ProfileLevel) with (lit "profile"). by destruct (str_eqb _ _ && nocase _ _).
  - simpl. rewrite entries_delete. by rewrite nocase_refl.
  - simpl. rewrite counted_delete. by rewrite nocase_refl.
  - simpl. apply Forall_map, Forall_forall. intros r _. apply forget_forgotten.
  - simpl. apply Forall_map, Forall_forall. intros r _. apply forget_forgotten.
  - simpl. by rewrite map_map.
  - intros other Hne. assert (Hk : nocase (id_to_string id) (id_to_string other) = false).
    { apply not_true_iff_false. intros E%nocase_hyphenated. congruence. }
    split_and!.
    + simpl. rewrite filter_delete_where. apply list_filter_iff. intros r.
      destruct (nocase (row_id r) (id_to_string other)) eqn:E; [|done].
      rewrite (nocase_trans _ _ _ E), nocase_sym, Hk. done.
    + unfold layer_rows. cbn [scope_level id_text delete_profile_rows settings set_settings].
      rewrite filter_delete_where. f_equal. f_equal. apply list_filter_iff. intros r.
      destruct (nocase (s_scope_id r) (id_to_string other)) eqn:E; [|by rewrite andb_false_r].
      rewrite (nocase_trans _ _ _ E), (nocase_sym (id_to_string other)), Hk, (andb_false_r (str_eqb _ _)). by rewrite andb_true_r.
    + simpl. by rewrite entries_delete, Hk.
Qed.

(** ** Worksheets *)

Definition worksheet_typed (r : WorksheetRow) : Prop :=
  is_u32 (w_caret r) && is_u32 (w_scroll r) && is_u32 (w_tab_order r) = true.

Lemma load_worksheet_rows_spec rows acc :
  Forall worksheet_typed rows -> exists r, load_worksheet_rows acc rows = Ok r /\
  loaded r = loaded acc ++ omap (fun row => match decode_worksheet row with Ok w => Some w | Err _ => None end) rows.
Proof.
  intros H. revert acc. induction H as [|row rows Hr _ IH]; intros acc; simpl; [exists acc; by rewrite app_nil_r|].
  unfold worksheet_typed in Hr. rewrite Hr. simpl.
  destruct (decode_worksheet row) as [w|why]; [|apply (IH (mkLoaded (loaded acc) _))].
  destruct (IH (mkLoaded (loaded acc ++ [w]) (rejected acc))) as (r & -> & Hl). exists r. split; [done|].
  rewrite Hl. simpl. by rewrite <- app_assoc.
Qed.

Lemma decode_worksheet_row w :
  worksheet_id w <> uuid_nil -> (forall p, worksheet_profile w = Some p -> p <> uuid_nil) ->
  state_validate (state w) = Ok tt -> decode_worksheet (worksheet_row w) = Ok w.
Proof.
  intros Hid Hp Hv. destruct w as [id p [ti te ca sc] tab cr up]. unfold decode_worksheet, worksheet_row; cbn in *.
  unfold id_to_string. rewrite parse_hyphenated by done.
  destruct p as [p|]; simpl; rewrite ?parse_hyphenated by auto; unfold worksheet_from_stored; by rewrite Hv.
Qed.

(** Decoding does not see the case an identifier was stored in. *)
Lemma decode_worksheet_same a b :
  a = mkWorksheetRow (w_id a) (w_profile b) (w_title b) (w_text b) (w_caret b) (w_scroll b) (w_tab_order b) (w_created_at b) (w_updated_at b) ->
  nocase (w_id a) (w_id b) = true -> decode_worksheet a = decode_worksheet b.
Proof.
  intros Ha Hk%nocase_true. rewrite Ha. unfold decode_worksheet. cbn [w_id w_profile w_title w_text w_caret w_scroll w_tab_order w_created_at w_updated_at].
  by rewrite (id_parse_nocase _ _ Hk).
Qed.

(** A worksheet that was saved is loaded again: its title, text, caret,
    scroll, profile and tab position are those saved, under its creation time of
    old when it was saved before; saving it changed no other worksheet. *)
Theorem saved_worksheet_reads_back w c c'
  (file : db_ok (tables c)) (rows_typed : Forall worksheet_typed (worksheets (tables c)))
  (row_typed : worksheet_typed (worksheet_row w))
  (id_real : worksheet_id w <> uuid_nil) (profile_real : forall p, worksheet_profile w = Some p -> p <> uuid_nil)
  (saved : save_worksheet w c = (Ok tt, c')) :
  (exists created r,
    (load_worksheets (mkConn (tables c') [])).1 = Ok r /\
    mkWorksheet (worksheet_id w) (worksheet_profile w) (state w) (tab_order w) created (worksheet_updated_at w) ∈ loaded r /\
    (has_worksheet (tables c) (id_to_string (worksheet_id w)) = false -> created = worksheet_created_at w)) /\
  (forall other, other <> worksheet_id w ->
    filter (fun r => nocase (w_id r) (id_to_string other) = true) (worksheets (tables c')) =
    filter (fun r => nocase (w_id r) (id_to_string other) = true) (worksheets (tables c))).
Proof.
  destruct (save_worksheet_spec (fun _ => True) w (tables c) c (conj eq_refl file)) as [_ H]; [done|].
  rewrite saved in H. simpl in H. destruct H as (Hv & Ht & Hok).
  unfold save_worksheet_row in Ht. destruct (worksheet_row_ok (tables c) (worksheet_row w)); [|done]. injection Ht as <-.
  cbn [worksheets set_worksheets]. set (row := worksheet_row w) in *.
  set (again := fun old => mkWorksheetRow (w_id old) (w_profile row) (w_title row) (w_text row) (w_caret row)
                  (w_scroll row) (w_tab_order row) (w_created_at old) (w_updated_at row)).
  set (same := fun r => nocase (w_id r) (w_id row)). split.
  - assert (exists old, old ∈ upsert same again row (worksheets (tables c)) /\ nocase (w_id old) (w_id row) = true /\
              old = again old /\ (has_worksheet (tables c) (w_id row) = false -> w_created_at old = w_created_at row)) as (old & Hin & Hid & Hold & Hc).
    { unfold upsert. destruct (existsb same (worksheets (tables c))) eqn:E.
      - pose proof E as (x & Hx & Hsx)%existsb_true. exists (again x). split_and!; [|done..|].
        2:{ intros Hno. change (existsb same (worksheets (tables c)) = false) in Hno. congruence. }
        apply list_elem_of_fmap. exists x. by rewrite Hsx.
      - exists row. split_and!; [|apply nocase_refl|done..]. apply elem_of_app. right. by apply list_elem_of_singleton. }
    assert (Htyped : Forall worksheet_typed (upsert same again row (worksheets (tables c)))) by (by apply Forall_upsert).
    set (rows := order_by (fun r => ([w_tab_order r], lower (w_id r))) (upsert same again row (worksheets (tables c)))).
    assert (Hperm : rows ≡ₚ upsert same again row (worksheets (tables c))) by apply merge_sort_Permutation.
    rewrite <- Hperm in Htyped, Hin.
    destruct (load_worksheet_rows_spec rows (mkLoaded [] []) Htyped) as (r & Hr & Hl).
    exists (w_created_at old), r. split_and!; [exact Hr| |exact Hc].
    rewrite Hl. simpl. apply list_elem_of_omap. exists old. split; [done|].
    rewrite (decode_worksheet_same old (worksheet_row (mkWorksheet (worksheet_id w) (worksheet_profile w) (state w) (tab_order w) (w_created_at old) (worksheet_updated_at w)))).
    + rewrite decode_worksheet_row; done.
    + rewrite Hold. done.
    + done.
  - intros other Hne. apply (upsert_elsewhere (fun r => nocase (w_id r) (id_to_string other))).
    + intros x Hx. enough (nocase (w_id x) (id_to_string other) = false) by done. rewrite (nocase_trans _ _ _ Hx).
      apply not_true_iff_false. intros E%nocase_hyphenated. congruence.
    + apply not_true_iff_false. intros E%nocase_hyphenated. congruence.
Qed.

End Claims.

(** ** Witnesses *)

#[local] Instance sample_target : Target := {| MOBILE := false |}.

Definition sample_worksheet : @Worksheet sample_uuid :=
  mkWorksheet IdB (Some IdA) (mkState (lit "Tab") (lit "select 1") 3 0) 0 5 6.

Definition sample_ops : list (@Op sample_uuid) :=
  [OpInsertProfile sample_profile; OpSaveWorksheet sample_worksheet;
   OpRecordHistory (mkEntry IdA 10 (lit "select 1") Succeeded 3 None);
   OpPutSetting 6 (ScopeProfile IdA) ConnectTimeout (VTimeLimit (Seconds 30))].

Definition sample_file : Tables := run_ops sample_ops no_tables.

Lemma sample_file_ok : db_ok sample_file.
Proof. apply run_ops_ok. evaluate. Qed.

Lemma store_integrity_witness : db_ok (run_ops sample_ops no_tables).
Proof. apply store_integrity, run_ops_steps. evaluate. Defined.

(** The second write of an insert meets a full disk. *)
Definition disk_full : RusqliteError := SqliteFailure OtherCode 13 (lit "disk full") None.

Definition interrupted : @Op sample_uuid := OpRecordHistory (mkEntry IdA 10 (lit "select 2") Succeeded 3 None).
Definition failing : Conn := mkConn sample_file [None; None; None; Some disk_full].

Lemma failed_operation_changes_nothing_witness :
  (run_op interrupted failing).1 = Err (Sqlite 13 (lit "disk full")) /\ tables (run_op interrupted failing).2 = tables failing.
Proof.
  split; [evaluate|].
  refine (proj1 (failed_operation_changes_nothing interrupted failing (Sqlite 13 (lit "disk full")) (run_op interrupted failing).2
    sample_file_ok eq_refl _)). evaluate.
Defined.

(** A row of an unknown kind beside a good one. *)
Definition odd_rows : Tables :=
  set_settings no_tables
    [mkSettingRow (lit "application") [] (lit "results.fetch_rows") (lit "colour") None None 1;
     mkSettingRow (lit "application") [] (lit "server_output.enabled") (lit "bool") (Some 1) None 1].

Lemma any_settings_rows_load_witness :
  let r := load_rows Application (layer_rows (ScopeApplication (U := sample_uuid)) odd_rows) in
  rejected r = [mkRejected TSetting (lit "results.fetch_rows") (UnknownKind (lit "colour"))] /\
  loaded r !! ServerOutputEnabled = Some (VBool true).
Proof.
  cbv zeta.
  destruct (any_settings_rows_load (U := sample_uuid) ScopeApplication (mkConn odd_rows []) (mkConn odd_rows [])
    (load_rows Application (layer_rows (ScopeApplication (U := sample_uuid)) odd_rows))) as (_ & H1 & H2); [evaluate|].
  cbn [scope_level] in H1, H2. rewrite H1, H2. split; evaluate.
Defined.

Lemma stored_setting_reads_back_witness :
  stored_layer (ScopeProfile (IdA : @ProfileId sample_uuid))
    (tables (put_setting_value 9 (ScopeProfile (IdA : @ProfileId sample_uuid)) ConnectTimeout (VTimeLimit (Seconds 60)) (mkConn sample_file [])).2)
    !! ConnectTimeout = Some (VTimeLimit (Seconds 60)).
Proof.
  destruct (stored_setting_reads_back 9 (ScopeProfile (IdA : @ProfileId sample_uuid)) ConnectTimeout (VTimeLimit (Seconds 60))
    (mkConn sample_file [])
    (put_setting_value 9 (ScopeProfile (IdA : @ProfileId sample_uuid)) ConnectTimeout (VTimeLimit (Seconds 60)) (mkConn sample_file [])).2)
    as [H _]; [apply sample_file_ok|reflexivity|evaluate|].
  rewrite H. apply lookup_insert_eq.
Defined.

Lemma deleted_profile_leaves_no_trace_witness :
  has_profile (tables (delete_profile (IdA : @ProfileId sample_uuid) (mkConn sample_file [])).2) (id_to_string (IdA : @ProfileId sample_uuid)) = false.
Proof.
  apply (deleted_profile_leaves_no_trace (IdA : @ProfileId sample_uuid) true (mkConn sample_file [])); [apply sample_file_ok|].
  evaluate.
Defined.

Lemma sample_rows_typed : Forall worksheet_typed (worksheets (tables (mkConn sample_file []))).
Proof.
  apply Forall_forall. intros r Hr%list_elem_of_In. revert r Hr.
  apply (proj1 (forallb_forall (fun r => is_u32 (w_caret r) && is_u32 (w_scroll r) && is_u32 (w_tab_order r)) _)). evaluate.
Qed.

Lemma saved_worksheet_reads_back_witness :
  exists created r,
    (load_worksheets (mkConn (tables (save_worksheet sample_worksheet (mkConn sample_file [])).2) [])).1 = Ok r /\
    mkWorksheet IdB (Some IdA) (state sample_worksheet) 0 created 6 ∈ loaded r.
Proof.
  destruct (saved_worksheet_reads_back sample_worksheet (mkConn sample_file []) (save_worksheet sample_worksheet (mkConn sample_file [])).2)
    as [(created & r & H1 & H2 & _) _].
  - apply sample_file_ok.
  - apply sample_rows_typed.
  - unfold worksheet_typed. evaluate.
  - discriminate.
  - intros p [= <-]. discriminate.
  - evaluate.
  - exists created, r. split; [exact H1|exact H2].
Defined.

(** ** What the source's comments say otherwise *)

(** One worksheet row whose caret is not a [u32] makes the load fail for all. *)
Lemma out_of_range_row_hides_the_others :
  let bad := mkWorksheetRow (sample_text IdC) None (lit "Bad") [] (-1) 0 1 5 6 in
  let t := set_worksheets sample_file (worksheets sample_file ++ [bad]) in
  (load_worksheets (U := sample_uuid) (mkConn t [])).1 = Err (Sqlite (-1) (lit "integer out of range")).
Proof. cbv zeta. evaluate. Qed.

(** A stored limit of 0, which loading refuses in favour of the default of 1000,
    still trims: the entry just recorded is gone. *)
Lemma refused_limit_still_trims :
  let zero := mkSettingRow (lit "application") [] (storage_key HistoryMaxEntriesPerProfile) (lit "entry_limit") (Some 0) None 1 in
  let t := set_settings sample_file [zero] in
  rejected (load_rows Application (layer_rows (ScopeApplication (U := sample_uuid)) t))
    = [mkRejected TSetting (storage_key HistoryMaxEntriesPerProfile) Malformed] /\
  stored_layer (ScopeApplication (U := sample_uuid)) t !! HistoryMaxEntriesPerProfile = None /\
  histories (tables (record_history (mkEntry (IdA : @ProfileId sample_uuid) 11 (lit "select 2") Succeeded 3 None) (mkConn t [])).2) = [].
Proof. vm_compute. done. Qed.
