(* ===== verification/Schema.v ===== *)
(** * Opening a store file (workspace/src/store/schema.rs, mod.rs)

    The header, the four migrations and the opening sequence, over a file whose
    tables may not be there yet.  Another process may change the file between
    the first look at it and the write lock: [others] is what it did.  SQLite
    can fail at any call, as in Tables. *)

From S2P Require Import Prelude RustStr RustText Settings Ids Profile Codec Workspace Tables.
Open Scope Z_scope.

Definition APPLICATION_ID : Z := 0x524C4458.
Definition SCHEMA_VERSION : Z := 4.

(** The file: its header, its tables (the rows of [history] with SQLite's
    counter), how many objects in it are not this schema's, and whether its
    journal is a write-ahead log. *)
Record File := mkFile {
  application_id : Z;
  user_version : Z;
  f_profile : option (list ProfileRow);
  f_setting : option (list SettingRow);
  f_history : option (list HistoryRow * Z);
  f_worksheet : option (list WorksheetRow);
  f_worksheet_setting : option (list WorksheetSettingRow);
  f_layout : option (list LayoutRow);
  f_meta : option (list MetaRow);
  f_other : nat;
  f_wal : bool;
}.

Definition new_file : File := mkFile 0 0 None None None None None None None 0 false.

Definition present {A} (o : option A) : nat := match o with Some _ => 1 | None => 0 end.

(** Objects in [sqlite_schema], counted by table: the code only asks whether
    there is one. *)
Definition objects (f : File) : nat :=
  present (f_profile f) + present (f_setting f) + present (f_history f) + present (f_worksheet f)
  + present (f_worksheet_setting f) + present (f_layout f) + present (f_meta f) + f_other f.

(** ** The migrations *)

Definition exists_already (name : string) : RusqliteError :=
  SqlInputError (lit "table " ++ lit name ++ lit " already exists").
Definition no_such_table (name : string) : RusqliteError := SqlInputError (lit "no such table: " ++ lit name).

Definition create {A} (name : string) (o : option (list A)) : result unit RusqliteError :=
  match o with None => Ok tt | Some _ => Err (exists_already name) end.

Definition v1 (f : File) : result File RusqliteError :=
  result_bind (create "profile" (f_profile f)) (fun _ =>
  result_bind (create "setting" (f_setting f)) (fun _ =>
  Ok (mkFile (application_id f) (user_version f) (Some []) (Some []) (f_history f) (f_worksheet f)
        (f_worksheet_setting f) (f_layout f) (f_meta f) (f_other f) (f_wal f)))).

Definition v2 (f : File) : result File RusqliteError :=
  match f_history f with
  | Some _ => Err (exists_already "history")
  | None =>
      Ok (mkFile (application_id f) (user_version f) (f_profile f) (f_setting f) (Some ([], 0)) (f_worksheet f)
            (f_worksheet_setting f) (f_layout f) (f_meta f) (f_other f) (f_wal f))
  end.

(** The worksheet rows of [setting] go; three tables come. *)
Definition v3 (f : File) : result File RusqliteError :=
  match f_setting f with
  | None => Err (no_such_table "setting")
  | Some rows =>
      result_bind (create "worksheet" (f_worksheet f)) (fun _ =>
      result_bind (create "worksheet_setting" (f_worksheet_setting f)) (fun _ =>
      result_bind (create "layout" (f_layout f)) (fun _ =>
      Ok (mkFile (application_id f) (user_version f) (f_profile f)
            (Some (delete_where (fun r => str_eqb (s_scope r) (lit "worksheet")) rows))
            (f_history f) (Some []) (Some []) (Some []) (f_meta f) (f_other f) (f_wal f)))))
  end.

(** [SELECT profile_id, count( * ) FROM history GROUP BY profile_id], grouped
    without regard to case, under the text of a group's first row. *)
Definition group_counts (rows : list HistoryRow) : list MetaRow :=
  fold_left (fun ms r => upsert (fun m => nocase (m_profile m) (h_profile r))
                           (fun m => mkMeta (m_profile m) (m_count m + 1)) (mkMeta (h_profile r) 1) ms) rows [].

Definition v4 (f : File) : result File RusqliteError :=
  match f_meta f, f_history f, f_profile f with
  | Some _, _, _ => Err (exists_already "history_meta")
  | None, None, _ => Err (no_such_table "history")
  | None, Some _, None => Err (no_such_table "profile")
  | None, Some (rows, _), Some ps =>
      if forallb (fun m => existsb (fun p => nocase (row_id p) (m_profile m)) ps) (group_counts rows) then
        Ok (mkFile (application_id f) (user_version f) (f_profile f) (f_setting f) (f_history f) (f_worksheet f)
              (f_worksheet_setting f) (f_layout f) (Some (group_counts rows)) (f_other f) (f_wal f))
      else Err (constraint_failed "FOREIGN KEY")
  end.

Record Migration := mkMigration { to : Z; apply : File -> result File RusqliteError }.

Definition MIGRATIONS : list Migration := [mkMigration 1 v1; mkMigration 2 v2; mkMigration 3 v3; mkMigration 4 v4].

(** ** The header *)

Inductive Header := Empty | Reldex (version : Z).
#[global] Instance Header_eq_dec : EqDecision Header.
Proof. solve_decision. Defined.

Record Migrated := mkMigrated { migrated_from : Z; migrated_to : Z }.

(** ** The connection *)

Record FileConn := mkFileConn { file : File; script : list (option RusqliteError) }.

Section Opening.
Context {U : Uuid}.

Definition inspect (f : File) : result Header StoreError :=
  if application_id f =? APPLICATION_ID then
    match u32_try_from (user_version f) with
    | None => Err NotAReldexStore
    | Some version =>
        if SCHEMA_VERSION <? version then Err (NewerSchema version SCHEMA_VERSION)
        else if (version =? 0) && (0 <? objects f)%nat then Err IncompleteHeader
        else Ok (Reldex version)
    end
  else if (application_id f =? 0) && (user_version f =? 0) && (objects f =? 0)%nat then Ok Empty
  else Err NotAReldexStore.

Definition M (A : Type) := FileConn -> result A StoreError * FileConn.

Definition m_ret {A} (a : A) : M A := fun c => (Ok a, c).
Definition m_bind {A B} (m : M A) (k : A -> M B) : M B := fun c =>
  match m c with (Ok a, c') => k a c' | (Err e, c') => (Err e, c') end.

(** One call into SQLite that reads or changes the file. *)
Definition m_call {A} (g : File -> result (A * File) StoreError) : M A := fun c =>
  let run rest := match g (file c) with
                  | Ok (a, f) => (Ok a, mkFileConn f rest)
                  | Err e => (Err e, mkFileConn (file c) rest)
                  end in
  match script c with
  | [] => run []
  | None :: rest => run rest
  | Some e :: rest => (Err (from_rusqlite e), mkFileConn (file c) rest)
  end.

Definition m_inspect : M Header := m_call (fun f => result_bind (inspect f) (fun h => Ok (h, f))).

Definition set_header (f : File) (id version : Z) : File :=
  mkFile id version (f_profile f) (f_setting f) (f_history f) (f_worksheet f) (f_worksheet_setting f)
    (f_layout f) (f_meta f) (f_other f) (f_wal f).
Definition set_wal (f : File) : File :=
  mkFile (application_id f) (user_version f) (f_profile f) (f_setting f) (f_history f) (f_worksheet f)
    (f_worksheet_setting f) (f_layout f) (f_meta f) (f_other f) true.

(** A transaction: rolled back unless it commits. *)
Definition m_transaction {A} (body : M A) : M A := fun c =>
  match m_call (fun f => Ok (tt, f)) c with
  | (Err e, c1) => (Err e, c1)
  | (Ok _, c1) =>
      match m_bind body (fun a => m_bind (m_call (fun f => Ok (tt, f))) (fun _ => m_ret a)) c1 with
      | (Ok a, c2) => (Ok a, c2)
      | (Err e, c2) => (Err e, mkFileConn (file c) (script c2))
      end
  end.

Fixpoint run_steps (steps : list Migration) (from target : Z) : M unit :=
  match steps with
  | [] => m_ret tt
  | step :: rest =>
      if (from <? to step) && (to step <=? target) then
        m_bind (m_call (fun f => match apply step f with Ok f' => Ok (tt, f') | Err e => Err (from_rusqlite e) end))
          (fun _ => run_steps rest from target)
      else run_steps rest from target
  end.

Definition migrate_with (others : File -> File) (steps : list Migration) (target : Z) : M Migrated :=
  m_bind m_inspect (fun h =>
  if bool_decide (h = Reldex target) then m_ret (mkMigrated target target)
  else fun c =>
    m_transaction (
      m_bind m_inspect (fun h =>
      let from := match h with Empty => 0 | Reldex version => version end in
      if target <? from then (fun c => (Err (NewerSchema from target), c))
      else
        m_bind (run_steps steps from target) (fun _ =>
        m_bind (if from <? target then
                  m_bind (m_call (fun f => Ok (tt, set_header f APPLICATION_ID (user_version f)))) (fun _ =>
                  m_call (fun f => Ok (tt, set_header f (application_id f) target)))
                else m_ret tt) (fun _ =>
        m_ret (mkMigrated from target)))))
      (mkFileConn (others (file c)) (script c))).

Definition migrate (others : File -> File) : M Migrated := migrate_with others MIGRATIONS SCHEMA_VERSION.

(** ** Opening (mod.rs) *)

(** [patience] is how many retries fit in the busy timeout. *)
Fixpoint enable_wal (patience : nat) : M unit :=
  m_bind (m_call (fun f => Ok (f_wal f, f))) (fun wal =>
  if wal then m_ret tt
  else fun c =>
    match m_call (fun f => Ok (tt, set_wal f)) c with
    | (Ok _, c') => (Ok tt, c')
    | (Err Busy, c') =>
        match patience with
        | O => (Err Busy, c')
        | S patience' => enable_wal patience' c'
        end
    | (Err e, c') => (Err e, c')
    end).

Definition initialise (others : File -> File) (patience : nat) (on_disk : bool) : M Migrated :=
  m_bind (m_call (fun f => Ok (tt, f))) (fun _ =>          (* busy_timeout *)
  m_bind m_inspect (fun _ =>
  m_bind (if on_disk then enable_wal patience else m_call (fun f => Ok (tt, f))) (fun _ =>
  m_bind (m_call (fun f => Ok (tt, f))) (fun _ =>          (* synchronous *)
  m_bind (m_call (fun f => Ok (tt, f))) (fun _ =>          (* foreign_keys *)
  migrate others))))).

End Opening.
