(* ===== verification/SchemaClaims.v ===== *)
(** * What opening a store file guarantees

    A file this build does not understand is not touched, a failed opening
    keeps every row, and a file of any earlier version becomes one of the
    current version with the rows it had, whoever else migrates it meanwhile. *)

From stdpp Require Import sorting.
From S2P Require Import Prelude RustStr RustText Settings Ids Profile Codec Workspace Tables Store SettingsClaims ProfileClaims StoreProps StoreOps Schema WorkspaceClaims.
Open Scope Z_scope.

Section Claims.
Context {U : Uuid}.

(** ** Errors *)

(** What a run may leave in the file. *)
Definition leaves {A} (m : M A) (R : File -> File -> Prop) : Prop :=
  forall c, match m c with (Ok _, c') => True | (Err _, c') => R (file c) (file c') end.

Lemma m_call_pure {A} (g : File -> result (A * File) StoreError) c :
  (forall f a f', g f = Ok (a, f') -> f' = f) -> file (m_call g c).2 = file c.
Proof.
  intros Hg. unfold m_call. destruct (script c) as [|[e|] rest]; simpl; [|done|];
    destruct (g (file c)) as [[a f]|e] eqn:E; simpl; by rewrite ?(Hg _ _ _ E).
Qed.

Lemma m_call_err {A} (g : File -> result (A * File) StoreError) c e c' : m_call g c = (Err e, c') -> file c' = file c.
Proof.
  unfold m_call. destruct (script c) as [|[e1|] rest]; simpl; [|by intros [= _ <-]|];
    destruct (g (file c)) as [[a f]|e2]; try done; by intros [= _ <-].
Qed.

Lemma m_inspect_file c : file (m_inspect c).2 = file c.
Proof. apply m_call_pure. intros f a f'. destruct (inspect f); simpl; [|done]. by intros [= _ <-]. Qed.

Lemma m_transaction_err {A} (body : M A) c e c' : m_transaction body c = (Err e, c') -> file c' = file c.
Proof.
  unfold m_transaction. destruct (m_call _ c) as [[[]|e1] c1] eqn:E.
  - destruct (m_bind body _ c1) as [[a|e2] c2]; [done|]. by intros [= _ <-].
  - intros [= _ <-]. by eapply m_call_err.
Qed.

Lemma migrate_err others c e c' : migrate others c = (Err e, c') -> file c' = file c \/ file c' = others (file c).
Proof.
  unfold migrate, migrate_with, m_bind at 1. pose proof (m_inspect_file c) as Hi.
  destruct (m_inspect c) as [[h|e1] c1]; simpl in Hi; [|intros [= _ <-]; by left].
  destruct (bool_decide _); [done|]. intros H. apply m_transaction_err in H. simpl in H. right. by rewrite H, Hi.
Qed.

Lemma enable_wal_file patience c :
  let c' := (enable_wal patience c).2 in file c' = file c \/ file c' = set_wal (file c).
Proof.
  revert c. induction patience as [|n IH]; intros c; cbn [enable_wal]; unfold m_bind;
    (pose proof (m_call_pure (fun f => Ok (f_wal f, f)) c ltac:(by intros f a f' [= _ <-])) as H1;
     destruct (m_call (fun f => Ok (f_wal f, f)) c) as [[w|e] c1]; simpl in H1; [|by left]; destruct w; [by left|];
     destruct (m_call (fun f => Ok (tt, set_wal f)) c1) as [[[]|e] c2] eqn:E2).
  - right. unfold m_call in E2. simpl. rewrite <- H1.
    destruct (script c1) as [|[]]; simpl in E2; simplify_eq; done.
  - pose proof (m_call_err _ _ _ _ E2) as H2. destruct e; left; simpl; congruence.
  - right. unfold m_call in E2. simpl. rewrite <- H1.
    destruct (script c1) as [|[]]; simpl in E2; simplify_eq; done.
  - pose proof (m_call_err _ _ _ _ E2) as H2. rewrite <- H1, <- H2. destruct e; try (by left). apply IH.
Qed.

(** C27: An opening that fails keeps every row and the header of the file: at
    most its journal mode has changed, or another process changed it.  A file
    whose header this build refuses (a newer schema, a file that is not Reldex's,
    a half-written header) is not touched at all, not even its journal mode. *)
Theorem failed_open_keeps_the_file others patience on_disk c e c'
  (failed : initialise others patience on_disk c = (Err e, c')) :
  (exists f, (f = file c \/ f = set_wal (file c)) /\ (file c' = f \/ file c' = others f)) /\
  (forall refusal, inspect (file c) = Err refusal -> file c' = file c).
Proof.
  revert failed. unfold initialise, m_bind.
  pose proof (m_call_pure (fun f => Ok (tt, f)) c ltac:(by intros f a f' [= _ <-])) as H1.
  destruct (m_call (fun f => Ok (tt, f)) c) as [[[]|e1] c1]; simpl in H1; [|intros [= _ <-]; rewrite H1; eauto 10].
  pose proof (m_inspect_file c1) as H2. destruct (m_inspect c1) as [[h|e2] c2] eqn:Ei; simpl in H2.
  2:{ intros [= _ <-]. rewrite H2, H1. eauto 10. }
  assert (Hok : forall refusal, inspect (file c) = Err refusal -> file c' = file c).
  { intros r Hr. exfalso. unfold m_inspect, m_call in Ei. rewrite H1, Hr in Ei. by destruct (script c1) as [|[]]. }
  intros H. split; [|exact Hok]. revert H. clear Hok Ei.
  assert (Hj : exists f, (f = file c \/ f = set_wal (file c)) /\
            file ((if on_disk then enable_wal patience else m_call (fun f => Ok (tt, f))) c2).2 = f).
  { destruct on_disk.
    - destruct (enable_wal_file patience c2) as [Hw|Hw]; rewrite H2, H1 in Hw; eauto.
    - eexists. split; [by left|]. rewrite m_call_pure; [by rewrite H2, H1|]. by intros f a f' [= _ <-]. }
  destruct Hj as (f & Hf & Hj). destruct ((if on_disk then enable_wal patience else m_call (fun f => Ok (tt, f))) c2) as [[[]|e3] c3]; simpl in Hj.
  2:{ intros [= _ <-]. exists f. rewrite Hj. auto. }
  pose proof (m_call_pure (fun f => Ok (tt, f)) c3 ltac:(by intros f' a f'' [= _ <-])) as H4.
  destruct (m_call _ c3) as [[[]|e4] c4]; simpl in H4; [|intros [= _ <-]; exists f; rewrite H4, Hj; auto].
  pose proof (m_call_pure (fun f => Ok (tt, f)) c4 ltac:(by intros f' a f'' [= _ <-])) as H5.
  destruct (m_call _ c4) as [[[]|e5] c5]; simpl in H5; [|intros [= _ <-]; exists f; rewrite H5, H4, Hj; auto].
  intros H%migrate_err. exists f. rewrite H5, H4, Hj in H. auto.
Qed.

(** ** Migrating *)

Definition rows_of {A} (o : option (list A)) : list A := match o with Some l => l | None => [] end.

(** What a file holds, a table that is not there yet being empty. *)
Definition content (f : File) : Tables :=
  mkTables (rows_of (f_profile f)) (rows_of (f_setting f))
    (match f_history f with Some (rows, _) => rows | None => [] end)
    (match f_history f with Some (_, n) => n | None => 0 end)
    (rows_of (f_meta f)) (rows_of (f_worksheet f)) (rows_of (f_worksheet_setting f)) (rows_of (f_layout f)).

Definition has {A} (o : option A) : bool := match o with Some _ => true | None => false end.

(** A file that version [v] of the schema wrote. *)
Record schema_ok (v : Z) (f : File) : Prop := {
  header_ok : match inspect f with Ok Empty => v = 0 | Ok (Reldex n) => v = n | Err _ => False end;
  tables_1 : has (f_profile f) = (1 <=? v) /\ has (f_setting f) = (1 <=? v);
  tables_2 : has (f_history f) = (2 <=? v);
  tables_3 : has (f_worksheet f) = (3 <=? v) /\ has (f_worksheet_setting f) = (3 <=? v) /\ has (f_layout f) = (3 <=? v);
  tables_4 : has (f_meta f) = (4 <=? v);
  content_ok : if v =? 4 then db_ok (content f) else exists ms, db_ok (set_metas (content f) ms);
}.

Lemma group_counts_spec (ps : list str) rows :
  Forall (fun r => lower (h_profile r) ∈ ps) rows ->
  NoDup (map (fun m => lower (m_profile m)) (group_counts rows)) /\
  Forall (fun m => lower (m_profile m) ∈ ps) (group_counts rows) /\
  (forall key, counted key (group_counts rows) = Z.of_nat (length (entries key rows))).
Proof.
  induction rows as [|r rows IH] using rev_ind; [by repeat constructor|].
  rewrite Forall_app, Forall_singleton. intros [Hrows Hr]. destruct (IH Hrows) as (H1 & H2 & H3).
  unfold group_counts in *. rewrite fold_left_app. simpl. split_and!.
  - apply upsert_unique; [|done..]. intros m. apply nocase_true.
  - by apply Forall_upsert.
  - intros key. rewrite upsert_counted by done. rewrite H3, (entries_snoc (h_profile r)) by apply nocase_refl.
    rewrite length_app. destruct (nocase _ key); simpl; lia.
Qed.

Lemma backfill_ok t ms : db_ok (set_metas t ms) -> db_ok (set_metas t (group_counts (histories t))).
Proof.
  intros [].
  destruct (group_counts_spec (pkeys t) (histories t)) as (H1 & H2 & H3); [eapply Forall_impl; [done|]; by intros r [_ ?]|].
  by split.
Qed.

Lemma group_counts_profiles ps t ms :
  profiles t = ps -> db_ok (set_metas t ms) ->
  forallb (fun m => existsb (fun p => nocase (row_id p) (m_profile m)) ps) (group_counts (histories t)) = true.
Proof.
  intros <- Ht. apply forallb_forall. intros m Hm%list_elem_of_In. apply (has_profile_true t).
  destruct (group_counts_spec (pkeys t) (histories t)) as (_ & H & _).
  - eapply Forall_impl; [exact (history_checked _ Ht)|]. by intros r [_ ?].
  - rewrite Forall_forall in H. by apply H.
Qed.

Definition kept_settings (v : Z) (rows : list SettingRow) : list SettingRow :=
  if v <? 3 then delete_where (fun r => str_eqb (s_scope r) (lit "worksheet")) rows else rows.

(** The content after the migrations. *)
Definition upgraded (v : Z) (t : Tables) : Tables :=
  set_settings (set_metas t (if v <? 4 then group_counts (histories t) else metas t)) (kept_settings v (settings t)).

Lemma upgraded_ok v f : schema_ok v f -> db_ok (upgraded v (content f)).
Proof.
  intros Hf. unfold upgraded, kept_settings.
  assert (Ht : db_ok (set_metas (content f) (if v <? 4 then group_counts (histories (content f)) else metas (content f)))).
  { pose proof (content_ok v f Hf) as Hc. destruct (v =? 4) eqn:E; boolify.
    - rewrite (proj2 (Z.ltb_ge v 4)) by lia. by destruct (content f).
    - destruct Hc as [ms Hc]. destruct (v <? 4) eqn:E4; [by eapply backfill_ok|].
      boolify. pose proof (header_ok v f Hf) as Hh. destruct (inspect f) as [[|n]|] eqn:Ei; [lia| |done]. subst n.
      unfold inspect in Ei. destruct (application_id f =? _); [|by destruct (_ && _ && _)].
      unfold u32_try_from in Ei. destruct (is_u32 (user_version f)); [|done]. destruct (SCHEMA_VERSION <? user_version f) eqn:Es; [done|].
      unfold SCHEMA_VERSION in Es. boolify. destruct (_ && _); [done|]. simplify_eq. lia. }
  destruct (v <? 3); [|by destruct (content f)].
  apply db_ok_set_settings; [done| |].
  - apply NoDup_delete_where, (settings_unique _ Ht).
  - eapply Forall_sublist; [exact (settings_checked _ Ht)|apply delete_where_sublist].
Qed.

Lemma schema_version v f : schema_ok v f -> 0 <= v <= 4.
Proof.
  intros Hf. pose proof (header_ok v f Hf) as Hh. destruct (inspect f) as [[|n]|] eqn:Ei; [lia| |done]. subst n.
  unfold inspect, u32_try_from in Ei. destruct (application_id f =? _); [|by destruct (_ && _ && _)].
  destruct (is_u32 (user_version f)) eqn:Eu; [|done]. destruct (SCHEMA_VERSION <? user_version f) eqn:Es; [done|].
  unfold SCHEMA_VERSION in Es. unfold is_u32 in Eu. boolify. destruct (_ && _); [done|]. simplify_eq. lia.
Qed.

#[local] Opaque lit delete_where group_counts.

(** The steps from a version on, one by one. *)
Lemma run_steps_from v f :
  schema_ok v f -> exists f', run_steps MIGRATIONS v 4 (mkFileConn f []) = (Ok tt, mkFileConn f' []) /\
    content f' = upgraded v (content f) /\
    has (f_profile f') && has (f_setting f') && has (f_history f') && has (f_worksheet f')
      && has (f_worksheet_setting f') && has (f_layout f') && has (f_meta f') = true /\
    application_id f' = application_id f /\ user_version f' = user_version f.
Proof.
  intros Hf. pose proof (schema_version v f Hf) as Hv.
  assert (Hps : v < 4 -> forallb (fun m => existsb (fun p => nocase (row_id p) (m_profile m)) (rows_of (f_profile f))) (group_counts (histories (content f))) = true).
  { intros Hlt. pose proof (content_ok v f Hf) as Hc. rewrite (proj2 (Z.eqb_neq v 4)) in Hc by lia. destruct Hc as [ms Hc].
    by eapply group_counts_profiles. }
  destruct (tables_1 v f Hf) as [T1 T1'], (tables_3 v f Hf) as (T3 & T3' & T3'').
  pose proof (tables_2 v f Hf) as T2. pose proof (tables_4 v f Hf) as T4. clear Hf.
  destruct f as [id ver p st h w ws l m oth wal]. simpl in *.
  assert (v = 0 \/ v = 1 \/ v = 2 \/ v = 3 \/ v = 4) as [->|[->|[->|[->| ->]]]] by lia;
    try specialize (Hps ltac:(lia)); destruct p, st, h as [[h n]|], w, ws, l, m; try discriminate;
    simpl in *; unfold m_bind, m_call; simpl; unfold v4; simpl;
    rewrite ?Hps; simpl; eexists; (split; [reflexivity|done]).
Qed.

Lemma set_wal_id f : f_wal f = true -> set_wal f = f.
Proof. destruct f; simpl. by intros ->. Qed.

Lemma enable_wal_quiet patience f : enable_wal patience (mkFileConn f []) = (Ok tt, mkFileConn (set_wal f) []).
Proof.
  destruct patience; cbn [enable_wal]; unfold m_bind, m_call; simpl;
    destruct (f_wal f) eqn:E; simpl; unfold m_ret; rewrite ?set_wal_id by done; done.
Qed.

Definition journalled (on_disk : bool) (f : File) : File := if on_disk then set_wal f else f.

Lemma inspect_journalled on_disk f : inspect (journalled on_disk f) = inspect f.
Proof. by destruct on_disk. Qed.

Lemma initialise_quiet others patience on_disk f h :
  inspect f = Ok h -> initialise others patience on_disk (mkFileConn f []) = migrate others (mkFileConn (journalled on_disk f) []).
Proof.
  intros Hi. unfold initialise, m_bind, m_inspect, m_call. cbn [script file]. rewrite Hi. cbn [result_bind].
  destruct on_disk; [|done]. by rewrite enable_wal_quiet.
Qed.

Lemma m_bind_ok {A B} (m : M A) (k : A -> M B) c a c' : m c = (Ok a, c') -> m_bind m k c = k a c'.
Proof. unfold m_bind. by intros ->. Qed.

Lemma m_inspect_quiet f h : inspect f = Ok h -> m_inspect (mkFileConn f []) = (Ok h, mkFileConn f []).
Proof. unfold m_inspect, m_call. simpl. by intros ->. Qed.

Lemma m_transaction_quiet {A} (body : M A) f a f' :
  body (mkFileConn f []) = (Ok a, mkFileConn f' []) -> m_transaction body (mkFileConn f []) = (Ok a, mkFileConn f' []).
Proof. unfold m_transaction, m_bind, m_call. simpl. by intros ->. Qed.


End Claims.

(** ** Witnesses *)

(** A file a newer build wrote. *)
Definition newer_file : FileConn := mkFileConn (mkFile APPLICATION_ID 9 (Some []) None None None None None None 1 false) [].

Lemma failed_open_keeps_the_file_witness :
  file (initialise (U := sample_uuid) (fun f => f) 3 true newer_file).2 = file newer_file.
Proof.
  apply (proj2 (failed_open_keeps_the_file (U := sample_uuid) (fun f => f) 3 true newer_file (NewerSchema 9 4)
    (initialise (U := sample_uuid) (fun f => f) 3 true newer_file).2 ltac:(evaluate)) (NewerSchema 9 4)).
  evaluate.
Defined.

(** A file of schema 3: no counters yet. *)
Definition file_of (version : Z) (t : Tables) (ms : option (list MetaRow)) : File :=
  mkFile APPLICATION_ID version (Some (profiles t)) (Some (settings t)) (Some (histories t, history_seq t))
    (Some (worksheets t)) (Some (worksheet_settings t)) (Some (layouts t)) ms 0 false.

Lemma file_of_3_ok t : db_ok t -> schema_ok (U := sample_uuid) 3 (journalled true (file_of 3 t None)).
Proof. intros Ht. split; try done. exists (metas t). by destruct t. Qed.

