(* ===== verification/Params.v ===== *)
(** * Statements and connection parameters (db-driver-api/src/statement.rs,
      params.rs, the bind values of value/mod.rs)

    What a session executes: a text, its binds, and the options a driver must
    know first.  A float is its bits; a deadline is in nanoseconds.  What it is
    opened with: an endpoint, credentials, a role, the TLS mode, a time limit and
    the driver's own extensions.  A [Secret] is its text; that it redacts itself
    in [Debug] and is wiped when dropped is not modelled.  Durations of a
    connection are in seconds, the unit of every setting. *)

From stdpp Require Import gmap.
From S2P Require Import Prelude RustStr Number Temporal Policy Profile.
Open Scope Z_scope.

Inductive BindValue :=
| BindNull
| BindBoolean (b : bool)
| BindNumber (n : Number)
| BindFloat (bits : Z)
| BindDouble (bits : Z)
| BindText (s : str)
| BindBytes (bytes : list Z)
| BindTimestamp (t : Timestamp)
| BindJson (s : str).

Inductive BindDirection := DirIn | DirOut | DirInOut.

Record OutBindSpec := mkOutSpec { out_sql_type : SqlType; out_max_size_bytes : option Z }.
Definition out_spec_new (t : SqlType) : OutBindSpec := mkOutSpec t None.
Definition with_out_max_size (s : OutBindSpec) (n : Z) : OutBindSpec := mkOutSpec (out_sql_type s) (Some n).

Inductive Bind :=
| BindIn (v : BindValue)
| BindOut (spec : OutBindSpec)
| BindInOut (v : BindValue) (spec : OutBindSpec).

Definition direction (b : Bind) : BindDirection :=
  match b with BindIn _ => DirIn | BindOut _ => DirOut | BindInOut _ _ => DirInOut end.
Definition is_output (b : Bind) : bool := match b with BindIn _ => false | _ => true end.
Definition bind_value (b : Bind) : option BindValue :=
  match b with BindIn v | BindInOut v _ => Some v | BindOut _ => None end.
Definition out_spec (b : Bind) : option OutBindSpec :=
  match b with BindOut s | BindInOut _ s => Some s | BindIn _ => None end.

Record NamedBind := mkNamed { bind_name : str; named_bind : Bind }.

Inductive Binds :=
| NoBinds
| Positional (binds : list Bind)
| Named (binds : list NamedBind).

Definition binds_len (b : Binds) : nat :=
  match b with NoBinds => 0 | Positional l => length l | Named l => length l end.
Definition binds_is_empty (b : Binds) : bool := (binds_len b =? 0)%nat.
Definition has_outputs (b : Binds) : bool :=
  match b with
  | NoBinds => false
  | Positional l => existsb is_output l
  | Named l => existsb (fun n => is_output (named_bind n)) l
  end.

Record Statement := mkStatement {
  st_sql : str;
  st_binds : Binds;
  st_deadline : option Z;
  st_fetch_rows : option Z;
}.

Definition statement_new (sql : str) : Statement := mkStatement sql NoBinds None None.
Definition with_positional_binds (s : Statement) (l : list Bind) : Statement :=
  mkStatement (st_sql s) (Positional l) (st_deadline s) (st_fetch_rows s).
Definition with_named_binds (s : Statement) (l : list NamedBind) : Statement :=
  mkStatement (st_sql s) (Named l) (st_deadline s) (st_fetch_rows s).
Definition with_deadline (s : Statement) (d : Z) : Statement :=
  mkStatement (st_sql s) (st_binds s) (Some d) (st_fetch_rows s).
Definition with_fetch_rows (s : Statement) (n : Z) : Statement :=
  mkStatement (st_sql s) (st_binds s) (st_deadline s) (Some n).

(** ** Connection parameters *)


Definition Secret := str.

Inductive ExtensionValue :=
| ExtText (s : str)
| ExtSecret (s : Secret)
| ExtInteger (i : Z)
| ExtFlag (b : bool).

Definition Extensions := gmap str ExtensionValue.
Definition extensions_new : Extensions := ∅.
Definition ext_set (e : Extensions) (key : str) (v : ExtensionValue) : Extensions := <[key := v]> e.
Definition ext_get (e : Extensions) (key : str) : option ExtensionValue := e !! key.
Definition ext_is_empty (e : Extensions) : bool := bool_decide (e = ∅).

Inductive Endpoint :=
| EndpointHostPort (host : str) (port : Z) (service : str)
| EndpointConnectString (text : str).

Inductive Credentials := UserPassword (username : str) (password : Secret) | ExternalCredentials.

Inductive TlsMode := TlsDisabled | TlsRequired.
#[global] Instance TlsMode_eq_dec : EqDecision TlsMode.
Proof. solve_decision. Defined.

Record ConnectionParams := mkParams {
  p_endpoint : Endpoint;
  p_credentials : Credentials;
  p_role : SessionRole;
  p_tls : TlsMode;
  p_connect_timeout : option Z;
  p_extensions : Extensions;
}.

Definition params_new (e : Endpoint) (c : Credentials) : ConnectionParams :=
  mkParams e c NormalRole TlsDisabled None extensions_new.
Definition with_role (p : ConnectionParams) (r : SessionRole) : ConnectionParams :=
  mkParams (p_endpoint p) (p_credentials p) r (p_tls p) (p_connect_timeout p) (p_extensions p).
Definition with_tls (p : ConnectionParams) (t : TlsMode) : ConnectionParams :=
  mkParams (p_endpoint p) (p_credentials p) (p_role p) t (p_connect_timeout p) (p_extensions p).
Definition with_connect_timeout (p : ConnectionParams) (seconds : Z) : ConnectionParams :=
  mkParams (p_endpoint p) (p_credentials p) (p_role p) (p_tls p) (Some seconds) (p_extensions p).
Definition with_extensions (p : ConnectionParams) (e : Extensions) : ConnectionParams :=
  mkParams (p_endpoint p) (p_credentials p) (p_role p) (p_tls p) (p_connect_timeout p) e.
