(* ===== verification/Descriptor.v ===== *)
(** * Connect strings the Oracle driver builds and reads
      (oracle-thin/src/endpoint.rs, descriptor.rs)

    An Easy Connect string from a host, a port and a service name, and a connect
    descriptor from a host, a port and a SID, both from plain names only.  Then
    the two server-certificate parameters, looked for in the caller's connect
    string and in the descriptor the Oracle library rebuilt, and the guard that
    refuses a certificate pin nobody enforces. *)

From S2P Require Import Prelude RustStr Number Temporal Errors Columns Segment Policy ResultStore Events RustText.
Open Scope Z_scope.

Inductive Building := EasyConnect | SidDescriptor.

Definition explanation (b : Building) : str :=
  lit match b with
  | EasyConnect => "This driver builds an Easy Connect string from the host, port and service name, so they must be plain names; supply a TNS descriptor through a connect-string endpoint"
  | SidDescriptor => "This driver builds a connect descriptor from the host, port and SID, so they must be plain names; supply a full TNS descriptor through a connect-string endpoint"
  end%string.

Definition refuse (what : str) (b : Building) (reason : string) : DbError :=
  error_new Configuration (Text (lit "the " ++ what ++ lit " in this connection's endpoint " ++ lit reason ++
    lit ". " ++ explanation b ++ lit " instead of hiding one in the " ++ what)).

Definition LBRACKET : char := 91.
Definition RBRACKET : char := 93.
Definition DASH : char := 45.
Definition UNDERSCORE : char := 95.

Definition allowed (bracketed : bool) (c : char) : bool :=
  is_ascii_alphanumeric c || (c =? 46) || (c =? DASH) || (c =? UNDERSCORE) || (bracketed && (c =? 58)).

Definition unbracket (value : str) : str * bool :=
  match strip_prefix value [LBRACKET] with
  | Some r => match strip_suffix r [RBRACKET] with Some inner => (inner, true) | None => (value, false) end
  | None => (value, false)
  end.

Definition plain_name (value what : str) (b : Building) : result str DbError :=
  let '(text, bracketed) := unbracket value in
  if bool_decide (text = []) then Err (refuse what b "is empty")
  else if (255 <? blen text)%nat then Err (refuse what b "is longer than 255 characters")
  else if negb (forallb (allowed bracketed) text)
    then Err (refuse what b "contains a character that is not allowed in a plain name")
  else Ok text.

(** A port in decimal. *)
Definition port_text (port : Z) : str := padded 1 port.

Definition easy_connect (host : str) (port : Z) (service : str) (tls : bool) : result str DbError :=
  result_bind (plain_name host (lit "host") EasyConnect) (fun _ =>
  result_bind (plain_name service (lit "service name") EasyConnect) (fun _ =>
  Ok ((if tls then lit "tcps://" else []) ++ host ++ lit ":" ++ port_text port ++ lit "/" ++ service))).

Definition sid_endpoint (host : str) (port : Z) (sid : str) (tls : bool) : result str DbError :=
  result_bind (plain_name host (lit "host") SidDescriptor) (fun host =>
  result_bind (plain_name sid (lit "SID") SidDescriptor) (fun sid =>
  Ok (lit "(DESCRIPTION=(ADDRESS=(PROTOCOL=" ++ lit (if tls then "TCPS" else "TCP") ++ lit ")(HOST=" ++ host ++
      lit ")(PORT=" ++ port_text port ++ lit "))(CONNECT_DATA=(SID=" ++ sid ++ lit ")))"))).

(** ** Certificate parameters *)


Definition CERT_DN_KEY : str := lit "ssl_server_cert_dn".
Definition DN_MATCH_KEY : str := lit "ssl_server_dn_match".
Definition EXT_ALLOW_UNENFORCED_SERVER_CERT_DN : str := lit "oracle.allow_unenforced_server_cert_dn".

Record ServerCertificateRequest := mkRequest {
  pins_certificate_dn : bool;
  asks_dn_match_on : bool;
  asks_dn_match_off : bool;
}.

Definition request_default : ServerCertificateRequest := mkRequest false false false.

Definition is_empty (r : ServerCertificateRequest) : bool :=
  negb (pins_certificate_dn r) && negb (asks_dn_match_on r) && negb (asks_dn_match_off r).

Definition merged_with (a b : ServerCertificateRequest) : ServerCertificateRequest :=
  mkRequest (pins_certificate_dn a || pins_certificate_dn b)
    (asks_dn_match_on a || asks_dn_match_on b) (asks_dn_match_off a || asks_dn_match_off b).

Definition CERT_DN_TERMINATORS : list char := [40; 41].
Definition DN_MATCH_TERMINATORS : list char := [40; 41; 38; 59].

Definition one_of (l : list char) (c : char) : bool := existsb (Z.eqb c) l.

(** The value at the start of a text, as the Oracle library would store it:
    [s.split(p).next()] is the part before the first match. *)
Definition value_at (text : str) (terminators : list char) : str :=
  let text := trim_start text in
  match strip_prefix text [DQUOTE] with
  | Some inner => (break_char (Z.eqb DQUOTE) inner).1
  | None => trim (break_char (one_of terminators) text).1
  end.

(** Every value of a key: the loop over the occurrences, one per turn. *)
Fixpoint values_loop (fuel : nat) (text key : str) (terminators : list char) : list str :=
  match fuel with
  | O => []
  | S fuel' =>
      match break_str key text with
      | None => []
      | Some (_, rest) =>
          match strip_prefix (trim_start rest) [61] with
          | Some after => value_at after terminators :: values_loop fuel' rest key terminators
          | None => values_loop fuel' rest key terminators
          end
      end
  end.

Definition values_of (text key : str) (terminators : list char) : list str :=
  values_loop (S (length text)) text key terminators.

Definition lowered (text : str) : str := map to_ascii_lowercase text.

Definition is_nonempty (s : str) : bool := match s with [] => false | _ => true end.

(** One [SSL_SERVER_DN_MATCH] value of the caller's text. *)
Definition note_dn_match (found : ServerCertificateRequest) (value : str) : ServerCertificateRequest :=
  if negb (is_nonempty value) then found
  else if existsb (str_eqb (trim value)) [lit "on"; lit "yes"; lit "true"]
    then mkRequest (pins_certificate_dn found) true (asks_dn_match_off found)
  else mkRequest (pins_certificate_dn found) (asks_dn_match_on found) true.

Definition scan_connect_string (text : str) : ServerCertificateRequest :=
  let low := lowered text in
  let pins := existsb is_nonempty (values_of low CERT_DN_KEY CERT_DN_TERMINATORS) in
  fold_left note_dn_match (values_of low DN_MATCH_KEY DN_MATCH_TERMINATORS) (mkRequest pins false false).

Definition scan_upstream_descriptor (text : str) : ServerCertificateRequest :=
  let low := lowered text in
  mkRequest (existsb is_nonempty (values_of low CERT_DN_KEY CERT_DN_TERMINATORS)) false
    (str_contains low (lit "(security=") && negb (str_contains low DN_MATCH_KEY)).

(** ** The guard *)

Definition EM_DASH : char := 0x2014.

Definition refusal : str :=
  lit "this connection's endpoint sets SSL_SERVER_CERT_DN, which asks for the server certificate's whole distinguished name to be pinned "
  ++ [EM_DASH]
  ++ lit " and this driver version cannot enforce it. The Oracle crate it wraps parses the parameter and sends it to the server, but its TLS layer never reads it (upstream gap U-14), so the session would be opened with a weaker guarantee than the profile asked for and nothing would say so. What is verified on every TCPS session, and cannot be turned off: the certificate chain, its validity dates, the serverAuth extended key usage, and the host name from the descriptor's HOST against the certificate's subjectAltName "
  ++ [EM_DASH]
  ++ lit " never the DN. Either remove SSL_SERVER_CERT_DN from the descriptor, or set the connection extension "
  ++ [DQUOTE]
  ++ EXT_ALLOW_UNENFORCED_SERVER_CERT_DN
  ++ [DQUOTE]
  ++ lit " to open the session knowing the pin is not applied".

Definition pin_not_applied : str :=
  lit "this connection's endpoint sets SSL_SERVER_CERT_DN and the extension "
  ++ [DQUOTE]
  ++ EXT_ALLOW_UNENFORCED_SERVER_CERT_DN
  ++ [DQUOTE]
  ++ lit " is set, so the session was opened without the distinguished-name pin the descriptor asked for: the Oracle crate this driver wraps never applies it (upstream gap U-14). The server certificate's chain, validity, serverAuth extended key usage and host name against subjectAltName were verified as they always are".

Definition DN_MATCH_CANNOT_BE_DISABLED : str :=
  lit "this connection's endpoint asks for SSL_SERVER_DN_MATCH to be off, and this driver cannot switch server-identity verification off. The Oracle crate it wraps never reads the parameter (upstream gap U-14), and the TLS verifier underneath has no way to disable the check: the host name from the descriptor's HOST is matched against the certificate's subjectAltName on every TCPS session. A connection that relied on the check being disabled will fail rather than fall back".

Definition DN_MATCH_ALREADY_STRICTER : str :=
  lit "this connection's endpoint sets SSL_SERVER_DN_MATCH, which this driver does not use: the Oracle crate it wraps sends the parameter to the server and its TLS layer never reads it (upstream gap U-14). The server's identity is verified regardless "
  ++ [EM_DASH]
  ++ lit " the host name from the descriptor's HOST is matched against the certificate's subjectAltName on every TCPS session, which is stricter than a distinguished-name match rather than weaker "
  ++ [EM_DASH]
  ++ lit " so the parameter asks for nothing that is not already happening".

Definition informational (text : str) : Warning := mkWarning Informational (Text text) None None.

Definition guard (r : ServerCertificateRequest) (allow_unenforced_pin : bool) : result (list Warning) DbError :=
  if pins_certificate_dn r && negb allow_unenforced_pin then Err (error_new Configuration (Text refusal))
  else Ok ((if pins_certificate_dn r then [informational pin_not_applied] else [])
           ++ (if asks_dn_match_off r then [informational DN_MATCH_CANNOT_BE_DISABLED] else [])
           ++ (if asks_dn_match_on r then [informational DN_MATCH_ALREADY_STRICTER] else [])).
