(* ===== verification/Connect.v ===== *)
(** * From a profile to an open session (workspace/src/connect.rs, the driver
      binding of ffi/src/workspace.rs, oracle-thin/src/conn.rs and
      connect_timeout.rs)

    A profile and its resolved settings become connection parameters, through a
    binding for its database type; the Oracle driver turns those into the
    configuration its library connects with.  The library is the class
    [OracleLibrary]: how it parses a connect string and renders it back. *)

From stdpp Require Import gmap.
From S2P Require Import Prelude RustStr RustText Number Temporal Errors Columns Segment Policy ResultStore Events Settings Ids Profile Params Descriptor.
Open Scope Z_scope.

(** ** The binding *)

Record DriverOptions := mkOptions {
  connect_without_limit : bool;
  rewrite_trigger_ddl : bool;
  option_ca_directory : option PathBuf;
  option_allow_unenforced_certificate_pin : bool;
}.

Class DriverBinding := {
  binding_database_type : DatabaseType;
  binding_sid_endpoint : str -> Z -> str -> Transport -> result Endpoint DbError;
  binding_extensions : DriverOptions -> result Extensions DbError;
}.

Inductive ConnectError :=
| ConnectInvalidProfile (e : ProfileError)
| WrongBinding (profile binding : DatabaseType)
| PasswordRequired
| PasswordNotUsed
| BindingError (e : DbError).

#[global] Instance DatabaseType_eq_dec : EqDecision DatabaseType.
Proof. solve_decision. Defined.

Section Connect.
Context {CM : CaseMap} {U : Uuid} {T : Target}.

(** ** Settings of a connection, a statement and the server's output *)

Record ConnectSettings := mkConnectSettings {
  resolved_connect_timeout : Resolved TimeLimit;
  resolved_rewrite_trigger_ddl : Resolved bool;
}.

Definition connect_settings (c : ResolveContext) : run ConnectSettings :=
  let! timeout := resolve c CONNECT_TIMEOUT in
  let! rewrite := resolve c REWRITE_TRIGGER_DDL in
  Ret (mkConnectSettings timeout rewrite).

Record StatementSettings := mkStatementSettings {
  time_limit : Resolved TimeLimit;
  setting_fetch_rows : Resolved Z;
  fetches_in_flight : Resolved Z;
}.

Definition statement_settings (c : ResolveContext) : run StatementSettings :=
  let! limit := resolve c STATEMENT_TIME_LIMIT in
  let! rows := resolve c FETCH_ROWS in
  let! flight := resolve c FETCHES_IN_FLIGHT in
  Ret (mkStatementSettings limit rows flight).

Definition NANOS : Z := 1000000000.

Definition apply_settings (s : StatementSettings) (st : Statement) : Statement :=
  let st := match as_duration (value (time_limit s)) with
            | Some seconds => with_deadline st (seconds * NANOS)
            | None => st
            end in
  if value (setting_fetch_rows s) =? 0 then st else with_fetch_rows st (value (setting_fetch_rows s)).

Record ServerOutputSettings := mkOutputSettings {
  output_enabled : Resolved bool;
  output_buffer : Resolved ByteLimit;
}.

Definition output_settings (c : ResolveContext) : run ServerOutputSettings :=
  let! enabled := resolve c SERVER_OUTPUT_ENABLED in
  let! buffer := resolve c SERVER_OUTPUT_BUFFER in
  Ret (mkOutputSettings enabled buffer).

(** [ServerOutputBuffer::from]. *)
Definition buffer_from (b : ByteLimit) : ServerOutputBuffer :=
  match b with Bytes n => BufferBytes n | BytesUnlimited => UnlimitedBuffer end.

Definition output_setting (s : ServerOutputSettings) : ServerOutputSetting :=
  if value (output_enabled s) then Enabled (buffer_from (value (output_buffer s))) else Disabled.

(** ** The parameters *)

Definition credentials_for (a : Authentication) (password : option Secret) : result Credentials ConnectError :=
  match a, password with
  | Password username _, Some password => Ok (UserPassword username password)
  | Password _ _, None => Err PasswordRequired
  | External, None => Ok ExternalCredentials
  | External, Some _ => Err PasswordNotUsed
  end.

Definition endpoint_for {B : DriverBinding} (e : ProfileEndpoint) (t : Transport) : result Endpoint ConnectError :=
  match e with
  | HostPort host port (ServiceName service) => Ok (EndpointHostPort host port service)
  | HostPort host port (Sid sid) =>
      match binding_sid_endpoint host port sid t with Ok e => Ok e | Err e => Err (BindingError e) end
  | ConnectString text => Ok (EndpointConnectString text)
  end.

Definition options_for (d : ProfileDetails) (s : ConnectSettings) : DriverOptions :=
  mkOptions (match value (resolved_connect_timeout s) with NoLimit => true | Seconds _ => false end)
    (value (resolved_rewrite_trigger_ddl s)) (ca_directory (tls d)) (allow_unenforced_certificate_pin (tls d)).

Definition tls_mode (t : Transport) : TlsMode := match t with Plain => TlsDisabled | Tls => TlsRequired end.

Definition connection_params {B : DriverBinding} (p : Profile) (s : ConnectSettings) (password : option Secret)
  : result ConnectionParams ConnectError :=
  let d := details p in
  match validate d with
  | Err e => Err (ConnectInvalidProfile e)
  | Ok _ =>
  if negb (bool_decide (binding_database_type = database d))
  then Err (WrongBinding (database d) binding_database_type)
  else
  result_bind (credentials_for (authentication d) password) (fun credentials =>
  result_bind (endpoint_for (endpoint d) (transport (tls d))) (fun endpoint =>
  match binding_extensions (options_for d s) with
  | Err e => Err (BindingError e)
  | Ok extensions =>
      let params := with_extensions (with_tls (with_role (params_new endpoint credentials) (role d))
                      (tls_mode (transport (tls d)))) extensions in
      Ok match as_duration (value (resolved_connect_timeout s)) with
         | Some timeout => with_connect_timeout params timeout
         | None => params
         end
  end))
  end.

End Connect.

(** ** The Oracle driver's binding (ffi/src/workspace.rs) *)

Definition EXT_CONNECT_TIMEOUT_UNBOUNDED : str := lit "oracle.connect_timeout_unbounded".
Definition EXT_REWRITE_TRIGGER_DDL : str := lit "oracle.rewrite_trigger_ddl".
Definition EXT_WALLET_DIR : str := lit "oracle.wallet_dir".
Definition EXT_WALLET_PASSWORD : str := lit "oracle.wallet_password".
Definition EXT_STATEMENT_CACHE_SIZE : str := lit "oracle.statement_cache_size".
Definition EXT_ALLOW_TIMESTAMP_WITH_TIME_ZONE : str := lit "oracle.allow_timestamp_with_time_zone".

Definition oracle_extensions (o : DriverOptions) : result Extensions DbError :=
  let e := ext_set (ext_set (ext_set extensions_new
             EXT_CONNECT_TIMEOUT_UNBOUNDED (ExtFlag (connect_without_limit o)))
             EXT_REWRITE_TRIGGER_DDL (ExtFlag (rewrite_trigger_ddl o)))
             EXT_ALLOW_UNENFORCED_SERVER_CERT_DN (ExtFlag (option_allow_unenforced_certificate_pin o)) in
  match option_ca_directory o with
  | None => Ok e
  | Some directory =>
      match to_str directory with
      | None => Err (error_new Configuration (Text (lit "the profile's CA directory is not valid Unicode")))
      | Some text => Ok (ext_set e EXT_WALLET_DIR (ExtText text))
      end
  end.

Definition OracleDriverBinding : DriverBinding := {|
  binding_database_type := Oracle;
  binding_sid_endpoint := fun host port sid t =>
    match sid_endpoint host port sid (match t with Tls => true | Plain => false end) with
    | Ok text => Ok (EndpointConnectString text)
    | Err e => Err e
    end;
  binding_extensions := oracle_extensions;
|}.
#[export] Existing Instance OracleDriverBinding.

(** ** The time limit of a connect (connect_timeout.rs) *)

Definition DEFAULT_CONNECT_TIMEOUT : Z := 15.
Definition MAX_CONNECT_TIMEOUT : Z := 60 * 60.

Definition flag_set (p : ConnectionParams) (key : str) (b : bool) : bool :=
  match ext_get (p_extensions p) key with Some (ExtFlag b') => Bool.eqb b b' | _ => false end.

Definition connect_limit (p : ConnectionParams) : option Z :=
  if flag_set p EXT_CONNECT_TIMEOUT_UNBOUNDED true then None
  else Some (Z.min (match p_connect_timeout p with Some t => t | None => DEFAULT_CONNECT_TIMEOUT end) MAX_CONNECT_TIMEOUT).

(** ** The configuration (conn.rs) *)

Class OracleLibrary := {
  (** A parsed connect string, and its rendering as a descriptor. *)
  Parsed : Type;
  set_connect_string : str -> result Parsed DbError;
  get_connect_descriptor : Parsed -> str;
}.

Inductive AuthMode := AuthDefault | AuthSysDba | AuthSysOper.

Section Driver.
Context {L : OracleLibrary}.

Record Config := mkConfig {
  parsed : Parsed;
  wallet_location : option str;
  wallet_password : option str;
  config_user : str;
  config_password : str;
  auth_mode : AuthMode;
  stmtcachesize : Z;
}.

Record Prepared := mkPrepared {
  config : Config;
  prepared_warnings : list Warning;
  names_certificate_parameters : bool;
}.

Definition connect_string_for (p : ConnectionParams) : result str DbError :=
  match p_endpoint p with
  | EndpointHostPort host port service =>
      easy_connect host port service (match p_tls p with TlsRequired => true | TlsDisabled => false end)
  | EndpointConnectString text => Ok text
  end.

Definition not_encrypted : DbError := error_new Configuration (Text (lit
  "this connection requires encrypted transport, but its endpoint does not ask for TCPS. A connect-string endpoint must name (PROTOCOL=TCPS) " ++ [EM_DASH] ++ lit
  " and the TLS port, usually 2484 " ++ [EM_DASH] ++ lit
  " itself; this driver will not rewrite a descriptor, and it will not open a plaintext session for a profile that requires TLS")).

Definition asks_for_tcps (descriptor : str) : bool := str_contains (lowered descriptor) (lit "(protocol=tcps)").

Definition wallet_dir (p : ConnectionParams) : result (option str) DbError :=
  match ext_get (p_extensions p) EXT_WALLET_DIR with
  | Some (ExtText directory) => Ok (Some directory)
  | Some _ => Err (error_new Configuration (Text ([DQUOTE] ++ EXT_WALLET_DIR ++ [DQUOTE] ++ lit " must be a text value: the path of a directory")))
  | None => Ok None
  end.

Definition wallet_secret (p : ConnectionParams) : result (option str) DbError :=
  match ext_get (p_extensions p) EXT_WALLET_PASSWORD with
  | Some (ExtSecret password) => Ok (Some password)
  | Some _ => Err (error_new Configuration (Text ([DQUOTE] ++ EXT_WALLET_PASSWORD ++ [DQUOTE] ++ lit " must be a secret value, so that it cannot reach a log through an ordinary debug rendering")))
  | None => Ok None
  end.

Definition auth_mode_for (r : SessionRole) : AuthMode :=
  match r with NormalRole => AuthDefault | SysDba => AuthSysDba | SysOper => AuthSysOper end.

(** [usize::try_from(size).unwrap_or(0)]. *)
Definition cache_size (p : ConnectionParams) : Z :=
  match ext_get (p_extensions p) EXT_STATEMENT_CACHE_SIZE with
  | Some (ExtInteger size) => if 0 <=? size then size else 0
  | _ => 0
  end.

Definition external_unsupported : DbError := error_new UnsupportedKind (Text (lit
  "this driver supports user-name and password authentication only; external, wallet and token authentication are upstream gaps")).

Definition build_config (p : ConnectionParams) : result Prepared DbError :=
  result_bind (connect_string_for p) (fun connect_string =>
  result_bind (set_connect_string connect_string) (fun parsed =>
  let descriptor := get_connect_descriptor parsed in
  if (match p_tls p with TlsRequired => true | TlsDisabled => false end) && negb (asks_for_tcps descriptor)
  then Err not_encrypted
  else
  let request := merged_with (scan_connect_string connect_string) (scan_upstream_descriptor descriptor) in
  result_bind (guard request (flag_set p EXT_ALLOW_UNENFORCED_SERVER_CERT_DN true)) (fun warnings =>
  result_bind (wallet_dir p) (fun dir =>
  result_bind (wallet_secret p) (fun secret =>
  match p_credentials p with
  | ExternalCredentials => Err external_unsupported
  | UserPassword username password =>
      Ok (mkPrepared (mkConfig parsed dir secret username password (auth_mode_for (p_role p)) (cache_size p))
            warnings (negb (is_empty request)))
  end))))).

(** The session keeps the trigger rewrite unless it was switched off. *)
Definition session_rewrites_triggers (p : ConnectionParams) : bool := negb (flag_set p EXT_REWRITE_TRIGGER_DDL false).
Definition session_allows_zones (p : ConnectionParams) : bool := flag_set p EXT_ALLOW_TIMESTAMP_WITH_TIME_ZONE true.

End Driver.
