(* ===== verification/ConnectClaims.v ===== *)
(** * What opening a connection guarantees

    No certificate pin written in a connect string is missed, the strings built
    from plain names say what they were built from, required encryption is
    never dropped, and a profile's settings reach the driver unchanged. *)

From stdpp Require Import gmap.
From S2P Require Import Prelude RustStr RustText Number Temporal Errors Columns Segment Policy ResultStore Events Settings SettingsClaims Ids Profile ProfileClaims Params Descriptor Connect.
Open Scope Z_scope.

(** ** The certificate parameters *)

(** No proper prefix of the text is also a suffix of it. *)
Definition borderless (p : str) : bool :=
  forallb (fun k => negb (bool_decide (take (length p - S k) p = drop (S k) p))) (seq 0 (length p - 1)).

(** Two occurrences of a borderless text do not overlap. *)
Lemma borderless_apart p a b a' b' :
  borderless p = true -> p <> [] -> a ++ p ++ b = a' ++ p ++ b' -> (length a < length a')%nat ->
  (length a + length p <= length a')%nat.
Proof.
  intros Hb Hp Heq Hlt. destruct (decide (length a + length p <= length a')%nat) as [|Hn]; [done|].
  exfalso. set (k := (length a' - length a)%nat).
  assert (exists m, a' = a ++ m /\ length m = k) as (m & -> & Hm).
  { exists (drop (length a) a'). split; [|rewrite length_drop; done].
    rewrite <- (take_drop (length a) a') at 1. f_equal.
    apply (f_equal (take (length a))) in Heq. rewrite !take_app_le in Heq by lia. rewrite take_ge in Heq by lia. done. }
  rewrite <- app_assoc in Heq. apply app_inv_head in Heq. rewrite length_app in Hn, Hlt.
  assert (Hd : drop k p ++ b = p ++ b').
  { apply (f_equal (drop k)) in Heq. rewrite drop_app_le in Heq by lia. rewrite drop_app_length' in Heq by done. done. }
  apply (f_equal (take (length p - k))) in Hd. rewrite !take_app_le in Hd by (rewrite ?length_drop; lia).
  rewrite (take_ge (drop k p)) in Hd by (rewrite length_drop; lia).
  unfold borderless in Hb. rewrite forallb_forall in Hb. specialize (Hb (k - 1)%nat).
  assert (Hk : (0 < k < length p)%nat) by (subst k; destruct p; [done|]; simpl in *; lia).
  rewrite negb_true_iff, bool_decide_eq_false in Hb. replace (S (k - 1)) with k in Hb by lia.
  apply Hb; [apply in_seq; lia|done].
Qed.

(** Every occurrence of the key that is followed by an equals sign is read. *)
Lemma values_loop_In key terminators v :
  borderless key = true -> key <> [] -> forall fuel text, (length text < fuel)%nat ->
  v ∈ values_loop fuel text key terminators <->
  exists a b after, text = a ++ key ++ b /\ trim_start b = 61 :: after /\ v = value_at after terminators.
Proof.
  intros Hb Hk. induction fuel as [|fuel IH]; intros text Hf; [lia|]. cbn [values_loop].
  destruct (break_str key text) as [[a0 rest]|] eqn:E.
  2:{ split; [by intros ?%not_elem_of_nil|]. intros (a & b & after & -> & _). apply break_str_None in E. destruct E. by exists a, b. }
  apply break_str_Some in E as [-> Hmin]. rewrite !length_app in Hf.
  assert (Hrest : forall P : str -> Prop,
    (exists a b after, a0 ++ key ++ rest = a ++ key ++ b /\ trim_start b = 61 :: after /\ P after) <->
    (exists after, trim_start rest = 61 :: after /\ P after) \/
    (exists a b after, rest = a ++ key ++ b /\ trim_start b = 61 :: after /\ P after)).
  { intros P. split.
    - intros (a & b & after & Heq & Ht & HP). specialize (Hmin a b Heq).
      destruct (decide (length a = length a0)) as [Hl|Hl].
      + left. exists after. apply app_inj_1 in Heq as [-> Heq]; [|done]. by apply app_inv_head in Heq as ->.
      + right. assert (length a0 + length key <= length a)%nat as Hap by (eapply borderless_apart; eauto; lia).
        exists (drop (length a0 + length key) a), b, after. split; [|done].
        apply (f_equal (drop (length a0 + length key))) in Heq. rewrite app_assoc in Heq at 1.
        rewrite drop_app_length' in Heq by (by rewrite length_app). rewrite Heq. by rewrite drop_app_le.
    - intros [(after & Ht & HP)|(a & b & after & -> & Ht & HP)]; [by exists a0, rest, after|].
      exists (a0 ++ key ++ a), b, after. by rewrite <- !app_assoc. }
  assert (Hfuel : (length rest < fuel)%nat) by (destruct key; [done|]; simpl in *; lia).
  specialize (IH rest Hfuel). rewrite (Hrest (fun after => v = value_at after terminators)).
  destruct (strip_prefix (trim_start rest) [61]) as [after|] eqn:Es.
  - apply strip_prefix_Some in Es. simpl in Es. rewrite elem_of_cons, IH. split.
    + intros [->|H]; [left; by exists after|by right].
    + intros [(after' & Ha & ->)|H]; [left|by right]. congruence.
  - rewrite IH. split; [by right|]. intros [(after & Ha & _)|H]; [|done].
    assert (strip_prefix (trim_start rest) [61] = Some after) by (by apply strip_prefix_Some). congruence.
Qed.

Lemma values_of_In key terminators text v :
  borderless key = true -> key <> [] -> v ∈ values_of text key terminators <->
  exists a b after, text = a ++ key ++ b /\ trim_start b = 61 :: after /\ v = value_at after terminators.
Proof. intros. apply values_loop_In; [done..|lia]. Qed.

Lemma note_pins values r : pins_certificate_dn (fold_left note_dn_match values r) = pins_certificate_dn r.
Proof.
  revert r. induction values as [|v values IH]; intros r; [done|]. simpl. rewrite IH. unfold note_dn_match.
  destruct (negb (is_nonempty v)); [done|]. by destruct (existsb (str_eqb (trim v)) _).
Qed.

(** A certificate pin is never missed: the scan of a connect string reports
    one exactly when the key occurs in it somewhere, in any case, followed by
    white space, an equals sign and a value that is not empty as the Oracle
    library would store it; and without the caller's consent such a string is
    refused, with it the session opens with a warning. *)
Theorem no_pin_is_missed text allow :
  (pins_certificate_dn (scan_connect_string text) = true <->
   exists a b after, lowered text = a ++ CERT_DN_KEY ++ b /\ trim_start b = 61 :: after /\
                     value_at after CERT_DN_TERMINATORS <> []) /\
  (forall upstream, pins_certificate_dn (scan_connect_string text) = true ->
     match guard (merged_with (scan_connect_string text) upstream) allow with
     | Ok warnings => allow = true /\ informational pin_not_applied ∈ warnings
     | Err e => allow = false /\ kind e = Configuration
     end).
Proof.
  split.
  - unfold scan_connect_string. rewrite note_pins. cbn [pins_certificate_dn]. rewrite existsb_exists. split.
    + intros (v & Hv%list_elem_of_In & Hne). apply values_of_In in Hv as (a & b & after & Hl & Ht & ->); [|done..].
      exists a, b, after. split_and!; [done..|]. by destruct (value_at _ _).
    + intros (a & b & after & Hl & Ht & Hne). exists (value_at after CERT_DN_TERMINATORS). split.
      * apply list_elem_of_In, values_of_In; [done..|]. by exists a, b, after.
      * by destruct (value_at _ _).
  - intros upstream Hp. unfold guard, merged_with. simpl. rewrite Hp. simpl.
    destruct allow; simpl; [|done]. split; [done|left].
Qed.

(** ** Strings built from plain names *)

(** A character a plain name may hold: none that a descriptor is made of. *)
Definition plain (c : char) : bool := allowed true c.

Lemma plain_iff c :
  plain c = true <-> 48 <= c <= 57 \/ 65 <= c <= 90 \/ 97 <= c <= 122 \/ c = 46 \/ c = 45 \/ c = 95 \/ c = 58.
Proof.
  unfold plain, allowed, is_ascii_alphanumeric, is_ascii_alphabetic, is_ascii_digit, DASH, UNDERSCORE.
  rewrite ?orb_true_iff, ?andb_true_iff, ?Z.leb_le, ?Z.eqb_eq. lia.
Qed.

Lemma plain_facts c :
  plain c = true -> c <> 40 /\ c <> 41 /\ c <> 61 /\ is_whitespace c = false /\ plain (to_ascii_lowercase c) = true.
Proof.
  rewrite !plain_iff. intros Hc. split_and!; try lia.
  - unfold is_whitespace. rewrite ?orb_false_iff, ?andb_false_iff, ?Z.leb_gt, ?Z.eqb_neq. lia.
  - unfold to_ascii_lowercase. destruct ((65 <=? c) && (c <=? 90)) eqn:E; boolify; lia.
Qed.

Lemma plain_name_Ok value what b text : plain_name value what b = Ok text -> text <> [] /\ Forall (fun c => plain c = true) text.
Proof.
  unfold plain_name. destruct (unbracket value) as [t br]. case_bool_decide; [done|].
  destruct (255 <? blen t)%nat; [done|]. destruct (forallb _ t) eqn:E; [|done]. intros [= <-]. split; [done|].
  rewrite forallb_forall in E. apply Forall_forall. intros c Hc%list_elem_of_In%E. unfold allowed, plain in *.
  destruct br; [done|]. unfold allowed. rewrite orb_false_r in Hc. by rewrite Hc.
Qed.

Lemma port_plain port : 0 <= port -> port_text port <> [] /\ Forall (fun c => plain c = true) (port_text port).
Proof.
  intros Hp. unfold port_text, padded. cbv zeta.
  pose proof (decimal_not_nil 9 port) as Hn. pose proof (decimal_digits 10 port Hp) as Hd.
  revert Hn Hd. generalize (decimal 10 port). intros ds Hn Hd.
  assert (1 - length ds = 0)%nat as -> by (destruct ds; simpl; [done|lia]). split.
  - destruct ds; done.
  - apply Forall_map. eapply Forall_impl; [exact Hd|]. intros d Hd'. apply plain_iff. simpl in Hd'. unfold ascii. lia.
Qed.

(** A reader of descriptors: [(KEY=value)] and [(KEY=(...)...)]. *)
Inductive Node := Leaf (key value : str) | Branch (key : str) (children : list Node).

Fixpoint parse_nodes (fuel : nat) (s : str) : option (list Node * str) :=
  match fuel with
  | O => None
  | S fuel' =>
      match strip_prefix s [40] with
      | None => Some ([], s)
      | Some r =>
          let '(key, r1) := break_char (Z.eqb 61) r in
          match strip_prefix r1 [61] with
          | None => None
          | Some r2 =>
              let here := if starts_with r2 [40]
                          then match parse_nodes fuel' r2 with Some (children, r3) => Some (Branch key children, r3) | None => None end
                          else let '(v, r3) := break_char (one_of [40; 41]) r2 in Some (Leaf key v, r3) in
              match here with
              | None => None
              | Some (node, r3) =>
                  match strip_prefix r3 [41] with
                  | None => None
                  | Some r4 => match parse_nodes fuel' r4 with Some (ns, r5) => Some (node :: ns, r5) | None => None end
                  end
              end
          end
      end
  end.

Lemma break_value v rest : Forall (fun c => plain c = true) v -> break_char (one_of [40; 41]) (v ++ 41 :: rest) = (v, 41 :: rest).
Proof.
  intros Hv. apply break_char_app; [|done]. eapply Forall_impl; [exact Hv|]. intros c Hc. apply plain_facts in Hc as (? & ? & _).
  unfold one_of. cbn [existsb]. by rewrite !(proj2 (Z.eqb_neq _ _)).
Qed.

Lemma plain_head v rest : v <> [] -> Forall (fun c => plain c = true) v -> starts_with (v ++ rest) [40] = false.
Proof.
  intros Hn Hv. destruct v as [|c v]; [done|]. inversion Hv as [|? ? Hc _]; subst. apply plain_facts in Hc as (Hc & _).
  cbn [app starts_with]. rewrite (proj2 (Z.eqb_neq _ _)); [done|congruence].
Qed.

(** One leaf, and what follows it. *)
Lemma parse_leaf fuel key v rest :
  Forall (fun c => (61 =? c) = false) key -> v <> [] -> Forall (fun c => plain c = true) v ->
  parse_nodes (S fuel) (40 :: key ++ 61 :: v ++ 41 :: rest) =
  match parse_nodes fuel rest with Some (ns, r) => Some (Leaf key v :: ns, r) | None => None end.
Proof.
  intros Hk Hn Hv. cbn [parse_nodes strip_prefix Z.eqb Pos.eqb]. rewrite break_char_app by done.
  cbn [strip_prefix Z.eqb Pos.eqb]. rewrite plain_head by done. rewrite break_value by done. by cbn [strip_prefix Z.eqb Pos.eqb].
Qed.

(** One branch. *)
Lemma parse_branch fuel key inner children rest :
  Forall (fun c => (61 =? c) = false) key ->
  parse_nodes fuel (40 :: inner ++ 41 :: rest) = Some (children, 41 :: rest) ->
  parse_nodes (S fuel) (40 :: key ++ 61 :: 40 :: inner ++ 41 :: rest) =
  match parse_nodes fuel rest with Some (ns, r) => Some (Branch key children :: ns, r) | None => None end.
Proof.
  intros Hk Hc. cbn [parse_nodes strip_prefix Z.eqb Pos.eqb]. rewrite break_char_app by done.
  cbn [strip_prefix starts_with Z.eqb Pos.eqb]. rewrite Hc. by cbn [strip_prefix Z.eqb Pos.eqb].
Qed.

Definition sid_tree (tls : bool) (host port sid : str) : Node :=
  Branch (lit "DESCRIPTION")
    [Branch (lit "ADDRESS") [Leaf (lit "PROTOCOL") (lit (if tls then "TCPS" else "TCP")); Leaf (lit "HOST") host; Leaf (lit "PORT") port];
     Branch (lit "CONNECT_DATA") [Leaf (lit "SID") sid]].

Definition sid_text (tls : bool) (host port sid : str) : str :=
  lit "(DESCRIPTION=(ADDRESS=(PROTOCOL=" ++ lit (if tls then "TCPS" else "TCP") ++ lit ")(HOST=" ++ host ++
  lit ")(PORT=" ++ port ++ lit "))(CONNECT_DATA=(SID=" ++ sid ++ lit ")))".

Definition names_ok (v : str) : Prop := v <> [] /\ Forall (fun c => plain c = true) v.

Lemma protocol_ok (tls : bool) : names_ok (lit (if tls then "TCPS" else "TCP")).
Proof. destruct tls; split; try discriminate; repeat constructor. Qed.

Lemma no_equals key : forallb (fun c => negb (61 =? c)) key = true -> Forall (fun c => (61 =? c) = false) key.
Proof. intros H. apply Forall_forall. intros c Hc%list_elem_of_In. rewrite forallb_forall in H. by apply H, negb_true_iff in Hc. Qed.

Lemma parse_close fuel rest : parse_nodes (S fuel) (41 :: rest) = Some ([], 41 :: rest).
Proof. done. Qed.

Lemma sid_text_parses tls host port sid :
  names_ok host -> names_ok port -> names_ok sid ->
  parse_nodes 8 (sid_text tls host port sid) = Some ([sid_tree tls host port sid], []).
Proof.
  intros [Hh1 Hh2] [Hp1 Hp2] [Hs1 Hs2]. destruct (protocol_ok tls) as [Ht1 Ht2]. unfold sid_tree.
  unfold sid_text. set (protocol := lit (if tls then "TCPS" else "TCP")) in *.
  set (address := lit "PROTOCOL" ++ 61 :: protocol ++ 41 :: 40 :: lit "HOST" ++ 61 :: host ++ 41 :: 40 :: lit "PORT" ++ 61 :: port ++ [41]).
  set (data := lit "SID" ++ 61 :: sid ++ [41]).
  set (inner := lit "ADDRESS" ++ 61 :: 40 :: address ++ 41 :: 40 :: lit "CONNECT_DATA" ++ 61 :: 40 :: data ++ [41]).
  assert (Ha : forall n rest, parse_nodes (S (S (S (S n)))) (40 :: address ++ 41 :: rest) =
    Some ([Leaf (lit "PROTOCOL") protocol; Leaf (lit "HOST") host; Leaf (lit "PORT") port], 41 :: rest)).
  { intros n rest. unfold address. repeat (rewrite <- app_assoc; cbn [app]).
    rewrite !parse_leaf by (done || by apply no_equals). by rewrite parse_close. }
  assert (Hd : forall n rest, parse_nodes (S (S n)) (40 :: data ++ 41 :: rest) = Some ([Leaf (lit "SID") sid], 41 :: rest)).
  { intros n rest. unfold data. repeat (rewrite <- app_assoc; cbn [app]).
    rewrite !parse_leaf by (done || by apply no_equals). by rewrite parse_close. }
  assert (Hi : forall rest, parse_nodes 7 (40 :: inner ++ 41 :: rest) =
    Some ([Branch (lit "ADDRESS") [Leaf (lit "PROTOCOL") protocol; Leaf (lit "HOST") host; Leaf (lit "PORT") port];
           Branch (lit "CONNECT_DATA") [Leaf (lit "SID") sid]], 41 :: rest)).
  { intros rest. unfold inner. repeat (rewrite <- app_assoc; cbn [app]).
    erewrite parse_branch by (apply no_equals; reflexivity) || (apply Ha). 
    erewrite parse_branch by (apply no_equals; reflexivity) || (apply Hd).
    by rewrite parse_close. }
  transitivity (parse_nodes 8 (40 :: lit "DESCRIPTION" ++ 61 :: 40 :: inner ++ 41 :: [])).
  - f_equal. unfold inner, address, data. repeat (rewrite <- app_assoc; cbn [app]). done.
  - erewrite parse_branch; [|by apply no_equals|apply Hi]. done.
Qed.

(** What stands before each equals sign. *)
Lemma split_at_equals s1 s2 x y :
  Forall (fun c => c <> 61) s1 -> s1 ++ 61 :: s2 = x ++ 61 :: y -> x = s1 \/ exists x', x = s1 ++ 61 :: x' /\ s2 = x' ++ 61 :: y.
Proof.
  intros H. revert x. induction H as [|c s1 Hc _ IH]; intros x Heq; simpl in *.
  - destruct x as [|d x]; [by left|]. injection Heq as <- ->. right. by exists x.
  - destruct x as [|d x]; simpl in Heq; [congruence|]. injection Heq as <- Heq.
    destruct (IH x Heq) as [->|(x' & -> & ->)]; [by left|right; by exists x'].
Qed.

Lemma no_equals_left s x y : Forall (fun c => c <> 61) s -> s = x ++ 61 :: y -> False.
Proof. intros H ->. apply Forall_app in H as [_ H]. by inversion H. Qed.

Lemma trim_start_id (b : str) : Forall (fun c => is_whitespace c = false) b -> trim_start b = b.
Proof. destruct b as [|c b]; [done|]. intros H. inversion H as [|? ? Hc _]; subst. simpl. by rewrite Hc. Qed.

(** A text without white space, none of whose equals signs follows the key's
    last character, gives the key no value. *)
Lemma no_values text key terminators z :
  borderless key = true -> last key = Some z -> Forall (fun c => is_whitespace c = false) text ->
  (forall x y, text = x ++ 61 :: y -> last x <> Some z \/ ~ exists a, x = a ++ key) ->
  values_of text key terminators = [].
Proof.
  intros Hb Hz Hw Hno. destruct (values_of text key terminators) as [|v l] eqn:E; [done|]. exfalso.
  assert (v ∈ values_of text key terminators) as Hv by (rewrite E; left).
  apply values_of_In in Hv as (a & b & after & -> & Ht & _); [|done|by intros ->].
  rewrite !Forall_app in Hw. destruct Hw as (_ & _ & Hw). rewrite trim_start_id in Ht by done. subst b.
  rewrite app_assoc in Hno. destruct (Hno (a ++ key) after eq_refl) as [H|H].
  - rewrite last_app, Hz in H. done.
  - apply H. by exists a.
Qed.

Lemma plain_lower v : Forall (fun c => plain c = true) v -> Forall (fun c => plain c = true) (lowered v).
Proof. intros H. apply Forall_map. eapply Forall_impl; [exact H|]. intros c Hc. simpl. by apply plain_facts in Hc as (_ & _ & _ & _ & ?). Qed.

Lemma plain_no_equals v : Forall (fun c => plain c = true) v -> Forall (fun c => c <> 61) v.
Proof. intros H. eapply Forall_impl; [exact H|]. intros c Hc. by apply plain_facts in Hc as (_ & _ & ? & _). Qed.

Lemma plain_no_space v : Forall (fun c => plain c = true) v -> Forall (fun c => is_whitespace c = false) v.
Proof. intros H. eapply Forall_impl; [exact H|]. intros c Hc. by apply plain_facts in Hc as (_ & _ & _ & ? & _). Qed.

Lemma lowered_app a b : lowered (a ++ b) = lowered a ++ lowered b.
Proof. apply map_app. Qed.

(** A text cut at its equals signs. *)
Fixpoint equals_joined (pieces : list str) (rest : str) : str :=
  match pieces with [] => rest | p :: ps => p ++ 61 :: equals_joined ps rest end.

(** What stands before an equals sign ends with one of the pieces. *)
Lemma equals_joined_before pieces rest x y :
  Forall (fun p => p <> [] /\ Forall (fun c => c <> 61) p) pieces -> Forall (fun c => c <> 61) rest ->
  equals_joined pieces rest = x ++ 61 :: y ->
  head pieces = Some x \/ exists p, p ∈ tail pieces /\ last x = last p.
Proof.
  intros Hp Hr. revert x. induction Hp as [|p ps [Hne Hp] Hps IH]; intros x; simpl; [by intros ?%no_equals_left|].
  intros H. apply split_at_equals in H as [->|(x' & -> & H)]; [by left| |done].
  right. destruct (IH x' H) as [Hx|(q & Hq & Hl)].
  - destruct ps as [|q ps]; [done|]. simpl in Hx. injection Hx as ->. exists x'. split; [left|].
    inversion Hps as [|? ? [Hn _] _]; subst. rewrite last_app, last_cons. destruct (last x') eqn:E; [done|apply last_None in E; congruence].
  - exists q. destruct ps as [|p' ps]; [by apply not_elem_of_nil in Hq|]. simpl in Hq. split; [by right|].
    inversion Hps as [|? ? _ Hps']; subst. rewrite Forall_forall in Hps'. destruct (Hps' q Hq) as [Hn _].
    rewrite last_app, last_cons, Hl. destruct (last q) eqn:E; [done|apply last_None in E; congruence].
Qed.

Definition sid_pieces (protocol host port : str) : list str :=
  [lit "(description"; lit "(address"; lit "(protocol"; protocol ++ lit ")(host"; host ++ lit ")(port";
   port ++ lit "))(connect_data"; lit "(sid"].

Lemma sid_text_pieces tls host port sid :
  lowered (sid_text tls host port sid) =
  equals_joined (sid_pieces (lowered (lit (if tls then "TCPS" else "TCP"))) (lowered host) (lowered port)) (lowered sid ++ lit ")))").
Proof. unfold sid_text. rewrite !lowered_app. unfold sid_pieces. cbn [equals_joined]. repeat (rewrite <- app_assoc; cbn [app]). done. Qed.

(** No equals sign of a SID descriptor gives one of the certificate keys a value. *)
Lemma sid_text_no_values tls host port sid key terminators z :
  names_ok host -> names_ok port -> names_ok sid ->
  borderless key = true -> last key = Some z -> z ∉ [115; 108; 116; 97; 100] ->
  (forall a, lit "(description" <> a ++ key) ->
  values_of (lowered (sid_text tls host port sid)) key terminators = [].
Proof.
  intros [_ Hh%plain_lower] [_ Hp%plain_lower] [_ Hs%plain_lower] Hb Hz Hno Hdesc.
  destruct (protocol_ok tls) as [_ Ht%plain_lower].
  rewrite sid_text_pieces. set (protocol := lowered (lit (if tls then _ else _))) in *.
  assert (Hpieces : Forall (fun p => p <> [] /\ Forall (fun c => c <> 61) p) (sid_pieces protocol (lowered host) (lowered port))).
  { unfold sid_pieces. repeat constructor; try discriminate;
      try (intros E%app_eq_nil; by destruct E); try apply Forall_app_2; auto using plain_no_equals; repeat constructor; discriminate. }
  assert (Hrest : Forall (fun c => c <> 61) (lowered sid ++ lit ")))")).
  { apply Forall_app. split; [by apply plain_no_equals|]. repeat constructor; discriminate. }
  apply (no_values _ _ _ z); [done..| |].
  - unfold sid_pieces. cbn [equals_joined]. 
    repeat (apply Forall_app_2 || (apply Forall_cons; split) || apply plain_no_space); try assumption; try reflexivity; repeat constructor.
  - intros x y Hx. apply equals_joined_before in Hx as [Hx|(p & Hin & Hl)]; [| |done..].
    + right. injection Hx as <-. intros [a Ha]. by apply (Hdesc a).
    + left. rewrite Hl. intros E. apply Hno. unfold sid_pieces in Hin. cbn [tail] in Hin.
      rewrite !elem_of_cons, elem_of_nil in Hin.
      destruct Hin as [->|[->|[->|[->|[->|[->|[]]]]]]]; rewrite ?last_app in E; cbn in E; injection E as <-;
        rewrite !elem_of_cons; tauto.
Qed.

Lemma scan_nothing text :
  values_of (lowered text) CERT_DN_KEY CERT_DN_TERMINATORS = [] ->
  values_of (lowered text) DN_MATCH_KEY DN_MATCH_TERMINATORS = [] ->
  is_empty (scan_connect_string text) = true.
Proof. intros H1 H2. unfold scan_connect_string. by rewrite H1, H2. Qed.

(** A text without an equals sign names no parameter. *)
Lemma no_equals_no_values text key terminators :
  borderless key = true -> key <> [] -> Forall (fun c => c <> 61) text -> values_of text key terminators = [].
Proof.
  intros Hb Hk Hno. destruct (values_of text key terminators) as [|v l] eqn:E; [done|]. exfalso.
  assert (v ∈ values_of text key terminators) as Hv by (rewrite E; left).
  apply values_of_In in Hv as (a & b & after & -> & Ht & _); [|done..].
  rewrite !Forall_app in Hno. destruct Hno as (_ & _ & Hno). destruct (trim_start_spec b) as (w & Hw & _).
  rewrite Hw, Ht in Hno. apply Forall_app in Hno as [_ Hno]. by inversion Hno.
Qed.

Definition harmless (c : char) : Prop := c <> 40 /\ c <> 41 /\ c <> 61 /\ is_whitespace c = false.

Lemma plain_harmless v : Forall (fun c => plain c = true) v -> Forall harmless v.
Proof. intros H. eapply Forall_impl; [exact H|]. intros c Hc. apply plain_facts in Hc. unfold harmless. tauto. Qed.

(** A name that was accepted, with the brackets of an IPv6 literal. *)
Lemma plain_name_raw value what b text : plain_name value what b = Ok text -> text = (unbracket value).1 /\ Forall harmless value.
Proof.
  intros H. pose proof (plain_name_Ok _ _ _ _ H) as [_ Hp%plain_harmless]. unfold plain_name in H.
  destruct (unbracket value) as [t br] eqn:E. case_bool_decide; [done|].
  destruct (255 <? blen t)%nat; [done|]. destruct (forallb _ t); [|done]. injection H as ->. split; [done|].
  unfold unbracket in E. destruct (strip_prefix value [LBRACKET]) as [r|] eqn:E1; [|by simplify_eq].
  destruct (strip_suffix r [RBRACKET]) as [inner|] eqn:E2; [|by simplify_eq]. injection E as -> _.
  apply strip_prefix_Some in E1 as ->. apply strip_suffix_Some in E2 as ->.
  repeat apply Forall_app_2; try done; repeat constructor; discriminate.
Qed.

(** A host, a port, a service name and a SID build only what they say.  The
    descriptor made of a SID reads back, as a tree of parameters, as exactly that
    host, port and SID, with [TCPS] exactly when encryption is wanted; an Easy
    Connect string holds no parenthesis, equals sign or white space, so it is no
    descriptor; and neither carries a server-certificate parameter. *)
Theorem plain_names_build_only_themselves host port name tls text (is_port : 0 <= port < 65536) :
  (sid_endpoint host port name tls = Ok text ->
     parse_nodes 8 text = Some ([sid_tree tls (unbracket host).1 (port_text port) (unbracket name).1], []) /\
     is_empty (scan_connect_string text) = true) /\
  (easy_connect host port name tls = Ok text ->
     Forall (fun c => c <> 40 /\ c <> 41 /\ c <> 61 /\ is_whitespace c = false) text /\
     is_empty (scan_connect_string text) = true).
Proof.
  destruct (port_plain port ltac:(lia)) as [Hp1 Hp2]. split; intros H.
  - unfold sid_endpoint in H. destruct (plain_name host _ _) as [h|] eqn:Eh; [|done]. cbn [result_bind] in H.
    destruct (plain_name name _ _) as [s|] eqn:Es; [|done]. injection H as <-.
    pose proof (plain_name_Ok _ _ _ _ Eh) as Hh. pose proof (plain_name_Ok _ _ _ _ Es) as Hs.
    apply plain_name_raw in Eh as [<- _], Es as [<- _]. change (lit "(DESCRIPTION=(ADDRESS=(PROTOCOL=" ++ _) with (sid_text tls h (port_text port) s).
    split; [by apply sid_text_parses|]. apply scan_nothing.
    + apply (sid_text_no_values _ _ _ _ _ _ 110); try done; [intros Hin; rewrite !elem_of_cons, elem_of_nil in Hin; lia|].
      intros a Ha. apply (f_equal length) in Ha. rewrite length_app in Ha. change (12 = length a + 18)%nat in Ha. lia.
    + apply (sid_text_no_values _ _ _ _ _ _ 104); try done; [intros Hin; rewrite !elem_of_cons, elem_of_nil in Hin; lia|].
      intros a Ha. apply (f_equal length) in Ha. rewrite length_app in Ha. change (12 = length a + 19)%nat in Ha. lia.
  - unfold easy_connect in H. destruct (plain_name host _ _) as [h|] eqn:Eh; [|done]. cbn [result_bind] in H.
    destruct (plain_name name _ _) as [s|] eqn:Es; [|done]. injection H as <-.
    apply plain_name_raw in Eh as [_ Hh], Es as [_ Hs]. apply plain_harmless in Hp2.
    set (text := (if tls then lit "tcps://" else []) ++ host ++ lit ":" ++ port_text port ++ lit "/" ++ name).
    assert (Ht : Forall harmless text).
    { unfold text. rewrite !Forall_app. split_and!; try done; [destruct tls|..]; repeat constructor; discriminate. }
    split; [exact Ht|].
    assert (Hno : Forall (fun c => c <> 61) (lowered text)).
    { apply Forall_map. eapply Forall_impl; [exact Ht|]. intros c (_ & _ & Hc & _). simpl. unfold to_ascii_lowercase.
      destruct ((65 <=? c) && (c <=? 90)) eqn:E; boolify; [lia|done]. }
    apply scan_nothing; by apply no_equals_no_values.
Qed.

(** ** From a profile to the driver *)

Section Profile.
Context {CM : CaseMap} {U : Uuid} {T : Target}.

(** What a session is opened with is the profile, and nothing else.  The
    parameters are built exactly when the profile validates, the binding is for
    its database, a password is given exactly when it logs on with one, and the
    binding accepts its SID and options; and then every field is the profile's
    or the settings'.  A password reaches the credentials and no other field. *)
Theorem parameters_are_the_profile {B : DriverBinding} p s password params :
  connection_params p s password = Ok params <->
  validate (details p) = Ok tt /\ binding_database_type = database (details p) /\
  exists credentials target extensions,
    match authentication (details p) with
    | Password username _ => exists secret, password = Some secret /\ credentials = UserPassword username secret
    | External => password = None /\ credentials = ExternalCredentials
    end /\
    match endpoint_for (endpoint (details p)) (transport (tls (details p))) with Ok e => e = target | Err _ => False end /\
    binding_extensions (options_for (details p) s) = Ok extensions /\
    params = mkParams target credentials (role (details p)) (tls_mode (transport (tls (details p))))
               (as_duration (value (resolved_connect_timeout s))) extensions.
Proof.
  unfold connection_params. destruct (validate (details p)) as [[]|e]; [|split; [done|by intros [? _]]].
  case_bool_decide as Hb; cbn [negb]; [|split; [done|by intros (_ & ? & _)]].
  unfold credentials_for.
  destruct (authentication (details p)) as [username st|]; destruct password as [secret|]; cbn [result_bind].
  all: try (split; [done|]; intros (_ & _ & cr & en & ex & H & _); naive_solver).
  all: destruct (endpoint_for _ _) as [e|e]; cbn [result_bind]; [|split; [done|]; intros (_ & _ & cr & en & ex & _ & [] & _)].
  all: destruct (binding_extensions _) as [x|x]; [|split; [done|]; intros (_ & _ & cr & en & ex & _ & _ & ? & _); done].
  all: split.
  all: try (intros [= <-]; split_and!; [done..|]; eexists _, _, x; split_and!; [by eauto|done..|]; by destruct (as_duration _)).
  all: intros (_ & _ & cr & en & ex & Hc & <- & [= <-] & ->); destruct Hc as [? [? ?]] || destruct Hc; simplify_eq; by destruct (as_duration _).
Qed.

Lemma connect_timeout_bounds n : check_value (descriptor ConnectTimeout) (VTimeLimit (Seconds n)) = Ok tt -> 1 <= n <= 3600.
Proof.
  intros H. unfold check_value in H. rewrite bool_decide_eq_false_2 in H by (intros E; by apply E).
  change (bounds (descriptor ConnectTimeout)) with (Some (mkBounds 1 3600)) in H. cbn [min max] in H.
  destruct ((n <? 1) || (3600 <? n)) eqn:E; [done|]. boolify. lia.
Qed.

Lemma flag_get e key b : ext_get e key = Some (ExtFlag b) -> forall p b', p_extensions p = e -> flag_set p key b' = Bool.eqb b' b.
Proof. intros H p b' E. unfold flag_set. by rewrite E, H. Qed.

(** The flags the Oracle binding always sets. *)
Lemma oracle_extensions_flags o e :
  oracle_extensions o = Ok e ->
  ext_get e EXT_CONNECT_TIMEOUT_UNBOUNDED = Some (ExtFlag (connect_without_limit o)) /\
  ext_get e EXT_REWRITE_TRIGGER_DDL = Some (ExtFlag (rewrite_trigger_ddl o)) /\
  ext_get e EXT_ALLOW_UNENFORCED_SERVER_CERT_DN = Some (ExtFlag (option_allow_unenforced_certificate_pin o)) /\
  ext_get e EXT_WALLET_PASSWORD = None /\ ext_get e EXT_STATEMENT_CACHE_SIZE = None /\
  ext_get e EXT_ALLOW_TIMESTAMP_WITH_TIME_ZONE = None.
Proof.
  unfold oracle_extensions, ext_get, ext_set, extensions_new.
  destruct (option_ca_directory o) as [d|]; [destruct (to_str d) as [t|]; [|done]|]; intros [= <-];
    (split_and!; rewrite ?lookup_insert_eq; repeat (rewrite lookup_insert_ne by (vm_compute; discriminate); rewrite ?lookup_insert_eq); done).
Qed.

(** The settings in force reach the Oracle driver unchanged: for every
    profile and every settings layers, the limit the connect runs under is the
    resolved connect timeout, no limit being no limit (the driver's own cap of
    an hour never shortens one, since the registry admits no longer), the
    trigger rewrite is on exactly when the setting says so, and the certificate
    pin's opt-out, the wallet's password and the statement cache are the
    profile's alone. *)
Theorem connect_settings_reach_the_driver c p password s params
  (resolved : connect_settings c = Ret s) (built : connection_params p s password = Ok params) :
  connect_limit params = as_duration (value (resolved_connect_timeout s)) /\
  session_rewrites_triggers params = value (resolved_rewrite_trigger_ddl s) /\
  flag_set params EXT_ALLOW_UNENFORCED_SERVER_CERT_DN true = allow_unenforced_certificate_pin (tls (details p)) /\
  wallet_secret params = Ok None /\ cache_size params = 0 /\ session_allows_zones params = false.
Proof.
  assert (Ht : forall n, value (resolved_connect_timeout s) = Seconds n -> 1 <= n <= 3600).
  { unfold connect_settings in resolved.
    destruct (resolve_typed (H := time_limit_setting) c CONNECT_TIMEOUT eq_refl) as (x & Hx & Hv). rewrite Hx in resolved. cbn [rbind] in resolved.
    destruct (resolve c REWRITE_TRIGGER_DDL) as [r| |]; try done. cbn [rbind] in resolved. injection resolved as <-. simpl.
    intros n ->. apply connect_timeout_bounds. pose proof (resolve_value_checked c ConnectTimeout) as Hc.
    change (setting_id CONNECT_TIMEOUT) with ConnectTimeout in Hv. by rewrite <- Hv in Hc. }
  unfold connection_params in built. destruct (validate _); [|done]. case_bool_decide; [|done]. cbn [negb] in built.
  destruct (credentials_for _ _) as [cr|]; [|done]. destruct (endpoint_for _ _) as [en|]; [|done]. cbn [result_bind] in built.
  destruct (binding_extensions _) as [ex|] eqn:Ee; [|done].
  apply oracle_extensions_flags in Ee as (E1 & E2 & E3 & E4 & E5 & E6). injection built as <-.
  set (params := match as_duration _ with Some t => _ | None => _ end).
  assert (Hex : p_extensions params = ex) by (unfold params; by destruct (as_duration _)).
  split_and!.
  - unfold connect_limit. rewrite (flag_get _ _ _ E1 params true Hex). unfold params, options_for. simpl.
    destruct (value (resolved_connect_timeout s)) as [n|] eqn:Ev; simpl; [|done].
    specialize (Ht n eq_refl). unfold MAX_CONNECT_TIMEOUT. f_equal. lia.
  - unfold session_rewrites_triggers. rewrite (flag_get _ _ _ E2 params false Hex). simpl. by destruct (value (resolved_rewrite_trigger_ddl s)).
  - rewrite (flag_get _ _ _ E3 params true Hex). simpl. by destruct (allow_unenforced_certificate_pin _).
  - unfold wallet_secret. by rewrite Hex, E4.
  - unfold cache_size. by rewrite Hex, E5.
  - unfold session_allows_zones, flag_set. by rewrite Hex, E6.
Qed.

End Profile.


(** ** Witnesses *)

#[local] Instance sample_target : Target := {| MOBILE := false |}.

(** A library that keeps the text it is given. *)
#[local] Instance echo_library : OracleLibrary := {
  Parsed := str;
  set_connect_string := fun text => Ok text;
  get_connect_descriptor := fun text => text;
}.

Definition pinned : str := lit "(DESCRIPTION=(SECURITY=(Ssl_Server_Cert_DN = CN=db))(ADDRESS=(PROTOCOL=TCPS)))".

Lemma no_pin_is_missed_witness :
  pins_certificate_dn (scan_connect_string pinned) = true /\
  match guard (merged_with (scan_connect_string pinned) request_default) false with Ok _ => False | Err e => kind e = Configuration end.
Proof.
  assert (H : pins_certificate_dn (scan_connect_string pinned) = true) by evaluate.
  split; [exact H|]. pose proof (proj2 (no_pin_is_missed pinned false) request_default H) as Hg.
  destruct (guard _ false) as [ws|e]; [by destruct Hg|exact (proj2 Hg)].
Defined.

Lemma plain_names_build_only_themselves_witness :
  exists text, sid_endpoint (lit "db") 1521 (lit "ORCL") true = Ok text /\
    parse_nodes 8 text = Some ([sid_tree true (lit "db") (lit "1521") (lit "ORCL")], []).
Proof.
  eexists. split; [reflexivity|].
  apply (proj1 (plain_names_build_only_themselves (lit "db") 1521 (lit "ORCL") true _ ltac:(lia))). reflexivity.
Defined.

Definition sample_context_settings : ConnectSettings :=
  mkConnectSettings (mkResolved (Seconds 15) BuiltIn) (mkResolved true BuiltIn).

Definition sample_params : result ConnectionParams ConnectError :=
  connection_params (U := sample_uuid) sample_profile sample_context_settings (Some (lit "tiger")).

Lemma connect_settings_reach_the_driver_witness :
  match sample_params with Ok params => connect_limit params = Some 15 /\ session_rewrites_triggers params = true | Err _ => False end.
Proof.
  assert (Hok : result_is_ok sample_params = true) by evaluate.
  destruct sample_params as [params|e] eqn:E; [|discriminate]. clear Hok.
  destruct (connect_settings_reach_the_driver context_new sample_profile (Some (lit "tiger")) sample_context_settings params) as (H1 & H2 & _).
  - reflexivity.
  - exact E.
  - split; [exact H1|exact H2].
Defined.

