(* ===== verification/Classify.v ===== *)
(** * Statement classification (oracle-thin/src/classify.rs)

    What the leading keywords of a statement say about it, the scanner that
    reads them ([Keywords], a text and whether the first word is still to be
    read), and the transcription of the Oracle library's own rule
    ([upstream_would_return_rows]), which works on positions in the text. *)

From S2P Require Import Prelude RustStr RustText ResultStore.
Open Scope Z_scope.

Record Classification := mkClassification {
  kind : StatementKind;
  returns_rows : bool;
  is_plsql : bool;
}.

(** A byte-order mark. *)
Definition BOM : char := 0xfeff.

(** [after.find('\n').map_or("", |end| &after[end + 1..])], and the same for a
    text and for the closing quote. *)
Definition after_char (c : char) (s : str) : str :=
  match (break_char (Z.eqb c) s).2 with [] => [] | _ :: r => r end.
Definition after_str (p s : str) : str := match break_str p s with Some (_, r) => r | None => [] end.

Section Classify.
Context `{Unicode} `{CaseMap}.

Record Keywords := mkKeywords {
  rest : str;
  at_first : bool;
}.

Definition keywords_new (sql : str) : Keywords := mkKeywords sql true.

(** [skip_noise]: the text from the next word, or nothing. *)
Fixpoint skip_noise (fuel : nat) (rest : str) : str :=
  match fuel with
  | O => rest
  | S fuel' =>
      let rest := trim_start (trim_start_char BOM rest) in
      match strip_prefix rest (lit "--") with
      | Some after => skip_noise fuel' (after_char NEWLINE after)
      | None =>
          match strip_prefix rest (lit "/*") with
          | Some after => skip_noise fuel' (after_str (lit "*/") after)
          | None => rest
          end
      end
  end.

Definition noise (rest : str) : str := skip_noise (S (length rest)) rest.

(** [first_word]: the first run of ASCII letters and the text after it. *)
Fixpoint first_word_loop (fuel : nat) (rest : str) : option str * str :=
  match fuel with
  | O => (None, rest)
  | S fuel' =>
      match noise rest with
      | [] => (None, [])
      | head :: tail =>
          if is_ascii_alphabetic head then
            let (word, rest) := break_char (fun c => negb (is_ascii_alphabetic c)) (head :: tail) in
            (Some (str_uppercase word), rest)
          else if (head =? QUOTE) || (head =? DQUOTE) then first_word_loop fuel' (after_char head tail)
          else first_word_loop fuel' tail
      end
  end.

Definition first_word (rest : str) : option str * str := first_word_loop (S (length rest)) rest.

Definition is_identifier_char (c : char) : bool :=
  is_alphanumeric c || (c =? 95) || (c =? 36) || (c =? 35).

(** [Keywords::next]: the word and the iterator after it. *)
Definition next (k : Keywords) : option str * Keywords :=
  if at_first k then
    let (word, rest) := first_word (rest k) in (word, mkKeywords rest false)
  else
    match noise (rest k) with
    | [] => (None, mkKeywords [] false)
    | text =>
        match break_char (fun c => negb (is_identifier_char c)) text with
        | ([], _) => (None, mkKeywords text false)
        | (word, rest) => (Some (str_uppercase word), mkKeywords rest false)
        end
    end.

(** [matches!(word, Some("A" | "B"))]. *)
Definition is_word (word : option str) (names : list str) : bool :=
  match word with Some w => existsb (str_eqb w) names | None => false end.

Definition DDL_WORDS : list str :=
  [lit "CREATE"; lit "DROP"; lit "GRANT"; lit "REVOKE"; lit "TRUNCATE"; lit "COMMENT"; lit "ANALYZE";
   lit "AUDIT"; lit "NOAUDIT"; lit "RENAME"; lit "FLASHBACK"; lit "PURGE"; lit "ASSOCIATE";
   lit "DISASSOCIATE"].

Definition classify (sql : str) : Classification :=
  let (first, words) := next (keywords_new sql) in
  if is_word first [lit "SELECT"; lit "WITH"] then mkClassification Query true false
  else if is_word first [lit "INSERT"; lit "UPDATE"; lit "DELETE"; lit "MERGE"] then
    mkClassification Dml false false
  else if is_word first [lit "BEGIN"; lit "DECLARE"; lit "CALL"] then
    mkClassification PlSqlBlock false true
  else if is_word first [lit "COMMIT"; lit "ROLLBACK"; lit "SAVEPOINT"] then
    mkClassification TransactionControl false false
  else if is_word first [lit "SET"] then
    let second := (next words).1 in
    if is_word second [lit "TRANSACTION"; lit "CONSTRAINT"; lit "CONSTRAINTS"] then
      mkClassification TransactionControl false false
    else if is_word second [lit "ROLE"] then mkClassification SessionControl false false
    else mkClassification OtherStatement false false
  else if is_word first [lit "ALTER"] then
    if is_word (next words).1 [lit "SESSION"; lit "SYSTEM"] then
      mkClassification SessionControl false false
    else mkClassification Ddl false false
  else if is_word first DDL_WORDS then mkClassification Ddl false false
  else mkClassification OtherStatement false false.

(** ** The library's own rule *)

Definition is_query_keyword (keyword : str) : bool :=
  is_word (Some (str_uppercase keyword)) [lit "SELECT"; lit "WITH"].

(** [while position < text.len() && text[position] != c { position += 1 }]. *)
Definition position_of (c : char) (text : str) (position : nat) : nat :=
  position + length (break_char (Z.eqb c) (drop position text)).1.

(** The loop for the end of a block comment, which stops one character short
    of the end of the text. *)
Definition position_of_close (text : str) (position : nat) : nat :=
  match break_str (lit "*/") (drop position text) with
  | Some (a, _) => position + length a
  | None => Nat.max position (length text - 1)
  end.

(** Where the character at [position] leaves the position, before the step. *)
Definition upstream_skip (text : str) (position : nat) (ch last_ch : char) : nat :=
  if ch =? QUOTE then position_of QUOTE text (position + 1)
  else if negb (is_whitespace ch) then
    if (ch =? 45) && (last_ch =? 45) then position_of NEWLINE text position
    else if (ch =? 42) && (last_ch =? 47) then
      Nat.min (position_of_close text (position + 1) + 1) (length text)
    else if ch =? DQUOTE then position_of DQUOTE text (position + 1)
    else position
  else position.

Fixpoint upstream_loop (fuel : nat) (text : str) (position : nat) (keyword_start : option nat)
    (last_was_alpha : bool) (last_ch : char) : bool :=
  match fuel with
  | O => false
  | S fuel' =>
      match text !! position with
      | None =>
          match keyword_start with
          | Some start => last_was_alpha && is_query_keyword (drop start text)
          | None => false
          end
      | Some ch =>
          let is_alpha := is_ascii_alphabetic ch in
          if negb is_alpha && last_was_alpha then
            let start := default position keyword_start in
            is_query_keyword (take (position - start) (drop start text))
          else
            let keyword_start := if is_alpha && negb last_was_alpha then Some position else keyword_start in
            upstream_loop fuel' text (upstream_skip text position ch last_ch + 1) keyword_start is_alpha ch
      end
  end.

Definition upstream_would_return_rows (sql : str) : bool :=
  upstream_loop (S (length sql)) sql 0 None false 32.

End Classify.

(** ** Lemmas *)

Section Lemmas.
Context `{Unicode} `{CaseMap}.

Lemma after_char_length c s : (length (after_char c s) <= length s)%nat.
Proof.
  unfold after_char. destruct (break_char (Z.eqb c) s) as [a b] eqn:E.
  apply break_char_spec in E as (-> & _). rewrite length_app. destruct b; simpl; lia.
Qed.

Lemma after_str_length p s : (length (after_str p s) <= length s)%nat.
Proof.
  unfold after_str. destruct (break_str p s) as [[a b]|] eqn:E; [|simpl; lia].
  apply break_str_Some in E as [-> _]. rewrite !length_app. lia.
Qed.

Lemma trims_length c s : (length (trim_start (trim_start_char c s)) <= length s)%nat.
Proof.
  assert (H1 : forall s, (length (trim_start s) <= length s)%nat).
  { intros t. destruct (trim_start_spec t) as (w & E & _). rewrite E at 2. rewrite length_app. lia. }
  assert (H2 : forall s, (length (trim_start_char c s) <= length s)%nat).
  { intros u. induction u as [|d t IH]; simpl; [lia|]. destruct (c =? d); simpl; lia. }
  specialize (H1 (trim_start_char c s)). specialize (H2 s). lia.
Qed.

(** Skipping noise: what one turn leaves, and the turns never run out. *)
Lemma skip_noise_fuel f1 f2 s :
  (length s < f1)%nat -> (length s < f2)%nat -> skip_noise f1 s = skip_noise f2 s.
Proof.
  revert f2 s. induction f1 as [|f1 IH]; intros [|f2] s H1 H2; try lia. cbn [skip_noise].
  pose proof (trims_length BOM s) as HT. set (t := trim_start (trim_start_char BOM s)) in *.
  destruct (strip_prefix t (lit "--")) as [a|] eqn:E1.
  { apply strip_prefix_Some in E1. rewrite E1 in HT. simpl in HT.
    pose proof (after_char_length NEWLINE a). apply IH; lia. }
  destruct (strip_prefix t (lit "/*")) as [a|] eqn:E2; [|done].
  apply strip_prefix_Some in E2. rewrite E2 in HT. simpl in HT.
  pose proof (after_str_length (lit "*/") a). apply IH; lia.
Qed.

Lemma noise_unfold s :
  noise s = let t := trim_start (trim_start_char BOM s) in
    match strip_prefix t (lit "--") with
    | Some after => noise (after_char NEWLINE after)
    | None =>
        match strip_prefix t (lit "/*") with
        | Some after => noise (after_str (lit "*/") after)
        | None => t
        end
    end.
Proof.
  unfold noise at 1. cbn [skip_noise]. pose proof (trims_length BOM s) as HT.
  set (t := trim_start (trim_start_char BOM s)) in *.
  destruct (strip_prefix t (lit "--")) as [a|] eqn:E1.
  { apply strip_prefix_Some in E1. rewrite E1 in HT. simpl in HT.
    pose proof (after_char_length NEWLINE a). apply skip_noise_fuel; lia. }
  destruct (strip_prefix t (lit "/*")) as [a|] eqn:E2; [|done].
  apply strip_prefix_Some in E2. rewrite E2 in HT. simpl in HT.
  pose proof (after_str_length (lit "*/") a). apply skip_noise_fuel; lia.
Qed.

Lemma noise_length s : (length (noise s) <= length s)%nat.
Proof.
  induction s as [s IH] using (induction_ltof1 _ (@length Z)). unfold ltof in IH.
  rewrite noise_unfold. pose proof (trims_length BOM s) as HT. cbv zeta.
  set (t := trim_start (trim_start_char BOM s)) in *.
  destruct (strip_prefix t (lit "--")) as [a|] eqn:E1.
  { apply strip_prefix_Some in E1. rewrite E1 in HT. simpl in HT.
    pose proof (after_char_length NEWLINE a). specialize (IH (after_char NEWLINE a)). lia. }
  destruct (strip_prefix t (lit "/*")) as [a|] eqn:E2; [|done].
  apply strip_prefix_Some in E2. rewrite E2 in HT. simpl in HT.
  pose proof (after_str_length (lit "*/") a). specialize (IH (after_str (lit "*/") a)). lia.
Qed.

Lemma first_word_fuel f1 f2 s :
  (length s < f1)%nat -> (length s < f2)%nat -> first_word_loop f1 s = first_word_loop f2 s.
Proof.
  revert f2 s. induction f1 as [|f1 IH]; intros [|f2] s H1 H2; try lia. cbn [first_word_loop].
  pose proof (noise_length s). destruct (noise s) as [|c t]; [done|]. simpl in *.
  destruct (is_ascii_alphabetic c); [done|]. pose proof (after_char_length c t).
  destruct ((c =? QUOTE) || (c =? DQUOTE)); apply IH; lia.
Qed.

Lemma first_word_unfold s :
  first_word s =
    match noise s with
    | [] => (None, [])
    | head :: tail =>
        if is_ascii_alphabetic head then
          let (word, rest) := break_char (fun c => negb (is_ascii_alphabetic c)) (head :: tail) in
          (Some (str_uppercase word), rest)
        else if (head =? QUOTE) || (head =? DQUOTE) then first_word (after_char head tail)
        else first_word tail
    end.
Proof.
  unfold first_word at 1. cbn [first_word_loop]. pose proof (noise_length s).
  destruct (noise s) as [|c t]; [done|]. simpl in *.
  destruct (is_ascii_alphabetic c); [done|]. pose proof (after_char_length c t).
  destruct ((c =? QUOTE) || (c =? DQUOTE)); apply first_word_fuel; lia.
Qed.

(** The first word, read one character at a time. *)
Lemma first_word_noise s t : noise s = noise t -> first_word s = first_word t.
Proof. intros E. by rewrite (first_word_unfold s), (first_word_unfold t), E. Qed.

Lemma first_word_bom s : first_word (BOM :: s) = first_word s.
Proof. apply first_word_noise. by rewrite (noise_unfold (BOM :: s)), (noise_unfold s). Qed.

Lemma not_bom c s : c <> BOM -> trim_start_char BOM (c :: s) = c :: s.
Proof. intros Hc. cbn [trim_start_char]. destruct (Z.eqb_spec BOM c); [congruence|done]. Qed.

Lemma first_word_ws c s : is_whitespace c = true -> first_word (c :: s) = first_word s.
Proof.
  intros Hc. assert (c <> BOM) by (by intros ->).
  destruct s as [|d s]; [|destruct (Z.eq_dec d BOM) as [->|Hd]].
  - apply first_word_noise. rewrite noise_unfold, not_bom by done. simpl. by rewrite Hc.
  - rewrite first_word_bom, first_word_unfold, noise_unfold, not_bom by done. simpl. by rewrite Hc.
  - apply first_word_noise. rewrite (noise_unfold (c :: d :: s)), (noise_unfold (d :: s)).
    rewrite !not_bom by done. simpl. by rewrite Hc.
Qed.

(** A character that starts neither noise nor a word. *)
Definition plain_head (s : str) : bool :=
  match s with
  | [] => true
  | c :: _ => negb (is_whitespace c) && negb (c =? BOM) &&
      negb (starts_with s (lit "--")) && negb (starts_with s (lit "/*"))
  end.

Lemma strip_prefix_starts s p : strip_prefix s p = None <-> starts_with s p = false.
Proof.
  destruct (strip_prefix s p) as [r|] eqn:E.
  - apply strip_prefix_Some in E as ->. rewrite starts_with_app. naive_solver.
  - split; [|done]. intros _. apply not_true_is_false. intros (r & Hr)%starts_with_true.
    apply (proj2 (strip_prefix_Some _ _ _)) in Hr. congruence.
Qed.

Lemma noise_plain s : plain_head s = true -> noise s = s.
Proof.
  destruct s as [|c s]; [done|]. unfold plain_head. intros Hp. boolify.
  rewrite noise_unfold, not_bom by congruence. cbn [trim_start].
  match goal with Hw : is_whitespace c = false |- _ => rewrite Hw end. cbv zeta.
  by rewrite !(proj2 (strip_prefix_starts _ _)) by done.
Qed.

Lemma first_word_plain c s :
  plain_head (c :: s) = true ->
  first_word (c :: s) =
    if is_ascii_alphabetic c then
      let (word, rest) := break_char (fun c => negb (is_ascii_alphabetic c)) (c :: s) in
      (Some (str_uppercase word), rest)
    else if (c =? QUOTE) || (c =? DQUOTE) then first_word (after_char c s)
    else first_word s.
Proof. intros Hp. by rewrite first_word_unfold, noise_plain. Qed.

Lemma first_word_line s : first_word (45 :: 45 :: s) = first_word (after_char NEWLINE s).
Proof. apply first_word_noise. by rewrite (noise_unfold (45 :: 45 :: s)). Qed.

Lemma first_word_block s : first_word (47 :: 42 :: s) = first_word (after_str (lit "*/") s).
Proof. apply first_word_noise. by rewrite (noise_unfold (47 :: 42 :: s)). Qed.

(** ** The library's rule, and the scanner's *)

Lemma upstream_alpha w b pre text start p fuel lc :
  text = pre ++ w ++ b -> length pre = start -> p = (start + length w)%nat ->
  (length b < fuel)%nat -> is_ascii_alphabetic lc = true ->
  upstream_loop fuel text p (Some start) true lc =
    is_query_keyword (w ++ (break_char (fun c => negb (is_ascii_alphabetic c)) b).1).
Proof.
  revert w p fuel lc. induction b as [|c b IH]; intros w p [|fuel] lc -> <- -> Hf Hlc; try (simpl in Hf; lia);
    cbn [upstream_loop].
  - rewrite lookup_ge_None_2 by (rewrite !length_app; simpl; lia). cbn [andb break_char fst].
    by rewrite drop_app_length.
  - rewrite app_assoc, lookup_app_r by (rewrite length_app; lia).
    rewrite length_app, Nat.sub_diag. cbn [lookup list_lookup break_char].
    destruct (is_ascii_alphabetic c) eqn:Ec; cbn [negb andb].
    + assert (Hs : upstream_skip ((pre ++ w) ++ c :: b) (length pre + length w) c lc = (length pre + length w)%nat).
      { unfold upstream_skip, is_ascii_alphabetic in *.
        repeat match goal with |- context [(c =? ?k)] => destruct (Z.eqb_spec c k); [subst c; cbn in Ec; discriminate|] end.
        cbn. by destruct (is_whitespace c). }
      rewrite Hs. specialize (IH (w ++ [c]) (length pre + length w + 1)%nat fuel c).
      rewrite <- !app_assoc. simpl. rewrite <- app_assoc in IH. simpl in IH.
      rewrite IH; try done; [|rewrite length_app; simpl; lia|simpl in Hf; lia].
      destruct (break_char _ b) as [x y]. simpl. by rewrite <- app_assoc.
    + simpl. rewrite <- app_assoc, drop_app_length, app_nil_r.
      replace (length pre + length w - length pre)%nat with (length w) by lia. by rewrite take_app_length.
Qed.

Lemma upstream_step pre c s fuel lc :
  is_ascii_alphabetic c = false ->
  upstream_loop (S fuel) (pre ++ c :: s) (length pre) None false lc =
    upstream_loop fuel (pre ++ c :: s) (upstream_skip (pre ++ c :: s) (length pre) c lc + 1) None false c.
Proof.
  intros Hc. cbn [upstream_loop]. rewrite lookup_app_r, Nat.sub_diag by lia.
  cbn [lookup list_lookup]. by rewrite Hc.
Qed.

Lemma upstream_end fuel text p lc :
  (length text <= p)%nat -> upstream_loop fuel text p None false lc = false.
Proof. intros. destruct fuel; [done|]. cbn [upstream_loop]. by rewrite lookup_ge_None_2. Qed.

Lemma position_of_app c pre s :
  position_of c (pre ++ s) (length pre) = (length pre + length (break_char (Z.eqb c) s).1)%nat.
Proof. unfold position_of. by rewrite drop_app_length. Qed.

(** A position after a prefix, and the two characters that depend on the one before. *)
Definition fresh (lc : char) (s : str) : Prop :=
  (lc = 45 -> head s <> Some 45) /\ (lc = 47 -> head s <> Some 42).

Definition dash_after_newline (s : str) : bool := str_contains s [NEWLINE; 45].

Lemma dash_after_newline_suffix a b : dash_after_newline (a ++ b) = false -> dash_after_newline b = false.
Proof.
  unfold dash_after_newline. rewrite !str_contains_false. intros Hn Ho. apply Hn. by apply occurs_app_r.
Qed.

(** After the closing character, or at the end of the text. *)
Lemma upstream_after q pre s fuel lc :
  (forall pre' r, s = pre' ++ q :: r ->
     upstream_loop fuel (pre ++ s) (length (pre ++ pre' ++ [q])) None false lc =
       is_word (first_word r).1 [lit "SELECT"; lit "WITH"]) ->
  upstream_loop fuel (pre ++ s) (position_of q (pre ++ s) (length pre) + 1) None false lc =
    is_word (first_word (after_char q s)).1 [lit "SELECT"; lit "WITH"].
Proof.
  intros HI. rewrite position_of_app. unfold after_char.
  destruct (break_char (Z.eqb q) s) as [a b] eqn:E. apply break_char_spec in E as (-> & _ & Hq).
  cbn [fst snd]. destruct b as [|d r].
  - rewrite upstream_end; [done|]. rewrite !length_app. simpl. lia.
  - specialize (Hq d eq_refl). boolify. subst d. rewrite <- (HI a r eq_refl). f_equal.
    rewrite !length_app. simpl. lia.
Qed.

Lemma alphabetic_plain c s : is_ascii_alphabetic c = true -> plain_head (c :: s) = true.
Proof.
  intros Hc. unfold plain_head. assert (65 <= c <= 122 /\ is_whitespace c = false) as [Hr ->].
  { assert (65 <= c <= 122) by
      (unfold is_ascii_alphabetic in Hc; apply orb_true_iff in Hc as [?|?]; boolify; lia).
    split; [done|]. apply alphabetic_not_whitespace. by rewrite is_alphabetic_ascii by lia. }
  rewrite (proj2 (Z.eqb_neq c BOM)) by (unfold BOM; lia).
  change (lit "--") with [45; 45]. change (lit "/*") with [47; 42]. cbn [starts_with].
  by rewrite (proj2 (Z.eqb_neq 45 c)), (proj2 (Z.eqb_neq 47 c)) by lia.
Qed.

(** What one turn, or the two turns of a comment's opening, do to the position. *)
Lemma upstream_one pre c s lc fuel :
  is_ascii_alphabetic c = false -> c <> QUOTE -> c <> DQUOTE -> fresh lc (c :: s) ->
  upstream_loop (S fuel) (pre ++ c :: s) (length pre) None false lc =
    upstream_loop fuel ((pre ++ [c]) ++ s) (length (pre ++ [c])) None false c.
Proof.
  intros Hc Hn1 Hn2 [H45 H47]. rewrite upstream_step by done.
  replace ((pre ++ [c]) ++ s) with (pre ++ c :: s) by (by rewrite <- app_assoc).
  replace (upstream_skip (pre ++ c :: s) (length pre) c lc) with (length pre); [by rewrite length_app|].
  unfold upstream_skip. rewrite (proj2 (Z.eqb_neq c QUOTE)), (proj2 (Z.eqb_neq c DQUOTE)) by done.
  assert ((c =? 45) && (lc =? 45) = false) as ->
    by (apply not_true_is_false; intros ?; boolify; subst; by apply H45).
  assert ((c =? 42) && (lc =? 47) = false) as ->
    by (apply not_true_is_false; intros ?; boolify; subst; by apply H47).
  by destruct (negb (is_whitespace c)).
Qed.

Lemma upstream_quote pre q s lc fuel :
  q = QUOTE \/ q = DQUOTE ->
  upstream_loop (S fuel) (pre ++ q :: s) (length pre) None false lc =
    upstream_loop fuel ((pre ++ [q]) ++ s)
      (position_of q ((pre ++ [q]) ++ s) (length (pre ++ [q])) + 1) None false q.
Proof.
  intros Hq. rewrite upstream_step by (by destruct Hq as [-> | ->]).
  replace ((pre ++ [q]) ++ s) with (pre ++ q :: s) by (by rewrite <- app_assoc).
  rewrite length_app. by destruct Hq as [-> | ->].
Qed.

Lemma upstream_line pre s lc fuel :
  lc <> 45 ->
  upstream_loop (S (S fuel)) (pre ++ 45 :: 45 :: s) (length pre) None false lc =
    upstream_loop fuel ((pre ++ [45; 45]) ++ s)
      (position_of NEWLINE ((pre ++ [45; 45]) ++ s) (length (pre ++ [45; 45])) + 1) None false 45.
Proof.
  intros Hl. rewrite upstream_one, upstream_step by done.
  change (upstream_skip ?t ?p 45 45) with (position_of NEWLINE t p).
  rewrite position_of_app. rewrite position_of_app. f_equal.
  - by rewrite <- !app_assoc.
  - simpl. destruct (break_char (Z.eqb NEWLINE) s) as [x y]. rewrite !length_app. simpl. lia.
Qed.

Lemma upstream_block pre s lc fuel :
  upstream_loop (S (S fuel)) (pre ++ 47 :: 42 :: s) (length pre) None false lc =
    upstream_loop fuel ((pre ++ [47; 42]) ++ s)
      (Nat.min (position_of_close ((pre ++ [47; 42]) ++ s) (length (pre ++ [47; 42])) + 1)
         (length ((pre ++ [47; 42]) ++ s)) + 1) None false 42.
Proof.
  rewrite upstream_one, upstream_step by (done || by split).
  change (upstream_skip ?t ?p 42 47) with (Nat.min (position_of_close t (p + 1) + 1) (length t)).
  replace ((pre ++ [47]) ++ 42 :: s) with ((pre ++ [47; 42]) ++ s) by (by rewrite <- !app_assoc).
  do 3 f_equal. rewrite !length_app. simpl. do 2 f_equal. lia.
Qed.

Lemma upstream_after_close pre s fuel lc :
  (forall a r, s = a ++ lit "*/" ++ r ->
     upstream_loop fuel (pre ++ s) (length (pre ++ a ++ lit "*/")) None false lc =
       is_word (first_word r).1 [lit "SELECT"; lit "WITH"]) ->
  upstream_loop fuel (pre ++ s)
    (Nat.min (position_of_close (pre ++ s) (length pre) + 1) (length (pre ++ s)) + 1) None false lc =
    is_word (first_word (after_str (lit "*/") s)).1 [lit "SELECT"; lit "WITH"].
Proof.
  intros HI. unfold position_of_close, after_str. rewrite drop_app_length.
  destruct (break_str (lit "*/") s) as [[a r]|] eqn:E.
  - apply break_str_Some in E as [-> _]. rewrite <- (HI a r eq_refl). f_equal.
    rewrite !length_app. simpl. lia.
  - rewrite upstream_end; [done|]. rewrite !length_app. lia.
Qed.

(** A comment's opening, or a character read alone. *)
Lemma opening_or_plain c s :
  (exists t, c :: s = 45 :: 45 :: t) \/ (exists t, c :: s = 47 :: 42 :: t) \/
  (starts_with (c :: s) (lit "--") = false /\ starts_with (c :: s) (lit "/*") = false /\ fresh c s).
Proof.
  unfold fresh. change (lit "--") with [45; 45]. change (lit "/*") with [47; 42]. cbn [starts_with].
  destruct (Z.eqb_spec 45 c) as [<-|]; [|destruct (Z.eqb_spec 47 c) as [<-|]];
    destruct s as [|d t]; cbn [head]; try (right; right; split_and!; naive_solver congruence).
  - destruct (Z.eqb_spec 45 d) as [<-|]; [by left; exists t|]. right; right. split_and!; [done|done|congruence|done].
  - destruct (Z.eqb_spec 42 d) as [<-|]; [by right; left; exists t|].
    right; right. split_and!; [done|done|done|congruence].
Qed.

Lemma upstream_word pre c s fuel lc :
  is_ascii_alphabetic c = true -> (length s + 1 < fuel)%nat ->
  upstream_loop fuel (pre ++ c :: s) (length pre) None false lc =
    is_word (first_word (c :: s)).1 [lit "SELECT"; lit "WITH"].
Proof.
  intros Ec Hf. destruct fuel as [|fuel]; [lia|].
  rewrite first_word_plain, Ec by (by apply alphabetic_plain).
  cbn [upstream_loop]. rewrite lookup_app_r, Nat.sub_diag by lia. cbn [lookup list_lookup].
  rewrite Ec. cbn [negb andb].
  rewrite (upstream_alpha [c] s pre); try done; try lia.
  - simpl. rewrite Ec. simpl. by destruct (break_char _ s) as [x y].
  - unfold upstream_skip. unfold is_ascii_alphabetic in Ec.
    repeat match goal with |- context [(c =? ?k)] => destruct (Z.eqb_spec c k); [subst c; cbn in Ec; discriminate|] end.
    cbn. destruct (is_whitespace c); simpl; lia.
Qed.

(** The two rules read the same first keyword, away from a comment line that a
    dash follows. *)
Lemma upstream_agrees n s : (length s < n)%nat -> forall pre fuel lc,
  (length s < fuel)%nat -> dash_after_newline s = false -> fresh lc s ->
  upstream_loop fuel (pre ++ s) (length pre) None false lc =
    is_word (first_word s).1 [lit "SELECT"; lit "WITH"].
Proof.
  revert s. induction n as [|n IH]; [lia|]. intros [|c s] Hn pre fuel lc Hf Hd Hfr; simpl in Hn, Hf.
  { rewrite upstream_end by (rewrite length_app; simpl; lia). done. }
  assert (IH' : forall pre' a r lc' f, c :: s = a ++ r -> (length r < length (c :: s))%nat ->
    (length r < f)%nat -> fresh lc' r ->
    upstream_loop f (pre' ++ r) (length pre') None false lc' =
      is_word (first_word r).1 [lit "SELECT"; lit "WITH"]).
  { intros pre' a r lc' f E Hr ??. simpl in Hr. apply IH; [lia|lia| |done]. rewrite E in Hd.
    by apply (dash_after_newline_suffix a). }
  destruct (is_ascii_alphabetic c) eqn:Ec.
  { apply upstream_word; [done|lia]. }
  destruct fuel as [|fuel]; [lia|].
  assert (Hq : (c = QUOTE \/ c = DQUOTE) \/ (c <> QUOTE /\ c <> DQUOTE)) by (unfold QUOTE, DQUOTE; lia).
  destruct Hq as [Hq|[Hn1 Hn2]].
  { rewrite upstream_quote by done. rewrite first_word_plain by (by destruct Hq as [-> | ->]). rewrite Ec.
    replace ((c =? QUOTE) || (c =? DQUOTE)) with true by (by destruct Hq as [-> | ->]).
    apply upstream_after. intros a r ->. rewrite length_app in Hf. simpl in Hf.
    replace ((pre ++ [c]) ++ a ++ c :: r) with (((pre ++ [c]) ++ a ++ [c]) ++ r) by (by rewrite <- !app_assoc).
    apply (IH' _ (c :: a ++ [c])); [by simpl; rewrite <- app_assoc|simpl; rewrite length_app; simpl; lia|lia|].
    unfold QUOTE, DQUOTE in Hq. split; intros; lia. }
  destruct (opening_or_plain c s) as [(t & E)|[(t & E)|(Hl & Hb & Hfr')]].
  - injection E as -> ->. destruct fuel as [|fuel]; [simpl in Hf; lia|].
    rewrite upstream_line, first_word_line by (intros El; by apply (proj1 Hfr El)).
    apply upstream_after. intros a r ->. simpl in Hf. rewrite length_app in Hf. simpl in Hf.
    replace ((pre ++ [45; 45]) ++ a ++ NEWLINE :: r) with (((pre ++ [45; 45]) ++ a ++ [NEWLINE]) ++ r)
      by (by rewrite <- !app_assoc).
    apply (IH' _ (45 :: 45 :: a ++ [NEWLINE])); [by simpl; rewrite <- app_assoc|simpl; rewrite length_app; simpl; lia|lia|].
    split; [|done]. intros _ Hr. destruct r as [|d r]; [done|]. simpl in Hr. injection Hr as ->.
    apply str_contains_false in Hd. apply Hd. by exists (45 :: 45 :: a), r.
  - injection E as -> ->. destruct fuel as [|fuel]; [simpl in Hf; lia|].
    rewrite upstream_block, first_word_block. apply upstream_after_close. intros a r ->.
    simpl in Hf. rewrite !length_app in Hf. simpl in Hf.
    replace ((pre ++ [47; 42]) ++ a ++ lit "*/" ++ r) with (((pre ++ [47; 42]) ++ a ++ lit "*/") ++ r)
      by (by rewrite <- !app_assoc).
    apply (IH' _ (47 :: 42 :: a ++ lit "*/")); [by simpl; rewrite <- app_assoc|simpl; rewrite !length_app; simpl; lia|lia|].
    by split.
  - rewrite upstream_one by done. rewrite (IH' _ [c] s c); [|done|simpl; lia|lia|done].
    destruct (is_whitespace c) eqn:Ew; [by rewrite first_word_ws|].
    destruct (Z.eq_dec c BOM) as [->|Hb']; [by rewrite first_word_bom|].
    rewrite first_word_plain, Ec.
    + by rewrite (proj2 (Z.eqb_neq c QUOTE)), (proj2 (Z.eqb_neq c DQUOTE)) by done.
    + unfold plain_head. by rewrite Ew, Hl, Hb, (proj2 (Z.eqb_neq c BOM)) by done.
Qed.

End Lemmas.
