(* ===== verification/Rewrite.v ===== *)
(** * DDL the Oracle library's bind scan misreads (oracle-thin/src/rewrite.rs)

    What is sent in place of a [CREATE TRIGGER]: the statement without the
    punctuation meant for the client, wrapped in [EXECUTE IMMEDIATE] when the
    library would read a bind placeholder into it.  The transcription of that
    scan works on positions in the text. *)

From S2P Require Import Prelude RustStr RustText Temporal Errors ResultStore Events Descriptor Connect Classify.
Open Scope Z_scope.

Definition MAX_WRAPPED_BYTES : nat := Z.to_nat 32767.

(** [ { < ( ! ~ ^ # | + @ $ *)
Definition DELIMITERS : list char := [91; 123; 60; 40; 33; 126; 94; 35; 124; 43; 64; 36].

Definition ELLIPSIS : char := 8230.

Inductive Rewritable := Trigger.

Definition what (k : Rewritable) : str := match k with Trigger => lit "CREATE TRIGGER" end.

Record Rewrite := mkRewrite {
  rewrite_kind : Rewritable;
  rewrite_text : str;
}.

Inductive Plan :=
| AsSubmitted
| Trimmed (text : str)
| Wrapped (rewrite : Rewrite).

(** [Plan::text], [Plan::wrapped]. *)
Definition plan_text (p : Plan) (submitted : str) : str :=
  match p with AsSubmitted => submitted | Trimmed text => text | Wrapped r => rewrite_text r end.
Definition plan_wrapped (p : Plan) : option Rewrite := match p with Wrapped r => Some r | _ => None end.

Definition closing (delimiter : char) : char :=
  if delimiter =? 91 then 93 else if delimiter =? 123 then 125
  else if delimiter =? 60 then 62 else if delimiter =? 40 then 41 else delimiter.

Definition closing_sequence (delimiter : char) : str := [closing delimiter; QUOTE].

(** [body.replace('\'', "''")]. *)
Definition double_quotes (body : str) : str :=
  flat_map (fun c => if c =? QUOTE then [QUOTE; QUOTE] else [c]) body.

Definition literal (body : str) : str :=
  match find (fun d => negb (str_contains body (closing_sequence d))) DELIMITERS with
  | Some d => lit "q'" ++ [d] ++ body ++ [closing d] ++ lit "'"
  | None => lit "'" ++ double_quotes body ++ lit "'"
  end.

Definition wrap (body : str) : str := lit "BEGIN EXECUTE IMMEDIATE " ++ literal body ++ lit "; END;".

Definition strip_sqlplus_terminator (sql : str) : str :=
  let trimmed := trim_end sql in
  match rbreak_char (Z.eqb NEWLINE) trimmed with
  | None => trimmed
  | Some (before, last_line) => if str_eqb (trim last_line) (lit "/") then trim_end before else trimmed
  end.

Section Rewriting.
Context `{Unicode} `{CaseMap}.

Definition detect (sql : str) : option Rewritable :=
  let (first, words) := next (keywords_new sql) in
  if negb (is_word first [lit "CREATE"]) then None
  else
    let (word, words) := next words in
    let after_or :=
      if is_word word [lit "OR"] then
        let (replace, words) := next words in
        if negb (is_word replace [lit "REPLACE"]) then None else Some (next words)
      else Some (word, words) in
    match after_or with
    | None => None
    | Some (word, words) =>
        let word := if is_word word [lit "EDITIONABLE"; lit "NONEDITIONABLE"] then (next words).1 else word in
        if is_word word [lit "TRIGGER"] then Some Trigger else None
    end.

(** The trailing run of identifier characters, and the text before it. *)
Definition split_last_word (text : str) : str * str :=
  let (word, before) := break_char (fun c => negb (is_identifier_char c)) (rev text) in
  (rev before, rev word).

Definition closes_a_plsql_block (text : str) : bool :=
  let text := trim_end text in
  match strip_suffix text [DQUOTE] with
  | Some _ => true
  | None =>
      let (before_last, last) := split_last_word text in
      if eq_ignore_ascii_case last (lit "END") then true
      else match last with
           | [] => false
           | _ => eq_ignore_ascii_case (split_last_word (trim_end before_last)).2 (lit "END")
           end
  end.

Definition strip_statement_terminator (text : str) : str :=
  match strip_suffix text (lit ";") with
  | Some without => if negb (closes_a_plsql_block without) then trim_end without else text
  | None => text
  end.

Definition normalize (sql : str) : str := strip_statement_terminator (strip_sqlplus_terminator sql).

(** ** The library's scan for bind placeholders *)

Definition names_a_bind (text : str) (colon : nat) : bool :=
  match trim_start (drop (colon + 1) text) with
  | [] => false
  | ch :: _ => (ch =? DQUOTE) || is_ascii_digit ch || is_alphabetic ch
  end.

Definition skip_quoted (text : str) (opening : nat) (quote : char) : nat :=
  position_of quote text (opening + 1).

Definition skip_q_string (text : str) (opening : nat) : nat :=
  match text !! (opening + 1)%nat with
  | None => opening + 1
  | Some separator =>
      match break_str [closing separator; QUOTE] (drop (opening + 2) text) with
      | Some (a, _) => opening + 2 + length a + 1
      | None => length text
      end
  end.

Definition skip_to_end_of_line (text : str) (from : nat) : nat :=
  match break_char (Z.eqb NEWLINE) (drop from text) with
  | (line, []) => from + length line
  | (line, _ :: _) => from + length line + 1
  end.

Definition skip_block_comment (text : str) (star : nat) : nat :=
  match break_str (lit "*/") (drop (star + 1) text) with
  | Some (a, _) => star + 1 + length a + 1
  | None => length text
  end.

(** One turn: the position the character leaves, or a placeholder found. *)
Definition scan_step (text : str) (position : nat) (ch last_ch : char) (last_was_string : bool) : option nat :=
  if ch =? QUOTE then
    Some (if to_ascii_lowercase last_ch =? 113 then skip_q_string text position
          else skip_quoted text position QUOTE)
  else if negb (is_whitespace ch) then
    if (ch =? 45) && (last_ch =? 45) then Some (skip_to_end_of_line text position)
    else if (ch =? 42) && (last_ch =? 47) then Some (skip_block_comment text position)
    else if ch =? DQUOTE then Some (skip_quoted text position DQUOTE)
    else if (ch =? 58) && negb last_was_string && names_a_bind text position then None
    else Some position
  else Some position.

Fixpoint scan_loop (fuel : nat) (text : str) (position : nat) (last_was_string : bool) (last_ch : char) : bool :=
  match fuel with
  | O => false
  | S fuel' =>
      match text !! position with
      | None => false
      | Some ch =>
          match scan_step text position ch last_ch last_was_string with
          | None => true
          | Some position' =>
              let last_was_string := if ch =? QUOTE then true
                                     else if negb (is_whitespace ch) then false else last_was_string in
              scan_loop fuel' text (position' + 1) last_was_string ch
          end
      end
  end.

Definition upstream_finds_a_bind_placeholder (sql : str) : bool :=
  scan_loop (S (length sql)) sql 0 false 32.

(** ** The plan *)

Definition too_large (k : Rewritable) (size : nat) : DbError :=
  error_new UnsupportedKind (Text (lit "this " ++ what k ++ lit " statement is " ++ padded 1 (Z.of_nat size) ++
    lit " bytes, and the only way this driver can submit a trigger body containing `:NEW` or `:OLD` is inside `EXECUTE IMMEDIATE q'" ++ [ELLIPSIS] ++ lit "'`, whose PL/SQL string literal can be worth at most 32767 bytes (upstream gap U-18: the Oracle crate reads those as bind placeholders and offers no way to stop it). It is the trigger text itself that has to fit; how long the literal is written out does not matter. Shorten the trigger " ++ [EM_DASH] ++ lit " moving its body into a package procedure the trigger calls is the usual way " ++ [EM_DASH] ++ lit " or create it with another client")).

Definition plan (sql : str) : result Plan DbError :=
  match detect sql with
  | None => Ok AsSubmitted
  | Some kind =>
      let body := normalize sql in
      if negb (upstream_finds_a_bind_placeholder body) then
        Ok (if (blen body =? blen sql)%nat then AsSubmitted else Trimmed body)
      else if (MAX_WRAPPED_BYTES <? blen body)%nat then Err (too_large kind (blen body))
      else Ok (Wrapped (mkRewrite kind (wrap body)))
  end.

End Rewriting.

(** [Rewrite::warning]. *)
Definition rewrite_warning (r : Rewrite) : Warning :=
  informational (lit "this " ++ what (rewrite_kind r) ++
    lit " statement was rewritten before it was sent. The Oracle crate this driver wraps scans every statement for `:name` and treats each hit as a bind placeholder, DDL included, so a trigger body that mentions `:NEW` or `:OLD` is rejected as missing a bind value the caller never wrote (upstream gap U-18). It was therefore submitted inside `BEGIN EXECUTE IMMEDIATE q'" ++ [ELLIPSIS] ++ lit "'; END;`, where a quoted string is invisible to that parser. The trigger the server created is exactly the one written here; what changed is how it was transmitted. Set the connection extension " ++
    [DQUOTE] ++ EXT_REWRITE_TRIGGER_DDL ++ [DQUOTE] ++
    lit " to false to have such a statement refused instead of rewritten. The exact text sent was:" ++
    [NEWLINE] ++ rewrite_text r).

(** ** Lemmas *)

Section Lemmas.
Context `{Unicode} `{CaseMap}.

(** A character the scan steps over whatever came before it. *)
Definition quiet (c : char) : bool := negb (existsb (Z.eqb c) [QUOTE; DQUOTE; 45; 42; 58]).

Lemma scan_step_quiet text p c lc ls : quiet c = true -> scan_step text p c lc ls = Some p.
Proof.
  unfold quiet, scan_step. cbn [existsb]. intros Hc. boolify. subst.
  repeat match goal with Hn : c <> ?k |- _ => rewrite (proj2 (Z.eqb_neq c k) Hn); clear Hn end.
  by destruct (negb (is_whitespace c)).
Qed.

Lemma scan_step_forward text p c lc ls p' :
  (p < length text)%nat -> scan_step text p c lc ls = Some p' -> (p <= p')%nat.
Proof.
  intros Hp. unfold scan_step, skip_quoted, skip_q_string, skip_block_comment, skip_to_end_of_line, position_of.
  repeat case_match; intros [= <-]; lia.
Qed.

(** The position always advances, so one turn per character is enough. *)
Lemma scan_fuel text f1 f2 p ls lc :
  (length text < f1 + p)%nat -> (length text < f2 + p)%nat ->
  scan_loop f1 text p ls lc = scan_loop f2 text p ls lc.
Proof.
  revert f2 p ls lc. induction f1 as [|f1 IH]; intros [|f2] p ls lc H1 H2; cbn [scan_loop]; try done;
    try (by rewrite lookup_ge_None_2 by lia).
  destruct (text !! p) as [c|] eqn:E; [|done]. apply lookup_lt_Some in E.
  destruct (scan_step text p c lc ls) as [p'|] eqn:Es; [|done].
  apply scan_step_forward in Es; [|done]. apply IH; lia.
Qed.

Lemma last_cons_default (c lc : char) w : List.last (c :: w) lc = List.last w c.
Proof.
  revert c lc. induction w as [|d w IH]; intros c lc; [done|].
  change (List.last (d :: w) lc = List.last (d :: w) c). by rewrite !IH.
Qed.

(** The scan of a text whose rest is [w ++ s]. *)
Lemma scan_quiet w pre s : Forall (fun c => quiet c = true) w -> forall ls lc fuel,
  (forall f ls', scan_loop f (pre ++ w ++ s) (length (pre ++ w)) ls' (List.last w lc) = false) ->
  scan_loop fuel (pre ++ w ++ s) (length pre) ls lc = false.
Proof.
  intros Hw. revert pre. induction Hw as [|c w Hc Hw IH]; intros pre ls lc fuel HI.
  { specialize (HI fuel ls). by rewrite app_nil_r in HI. }
  destruct fuel as [|fuel]; [done|]. cbn [scan_loop].
  rewrite lookup_app_r, Nat.sub_diag by lia. cbn [lookup list_lookup app].
  rewrite scan_step_quiet by done. rewrite last_cons_default in HI.
  replace (length pre + 1)%nat with (length (pre ++ [c])) by (rewrite length_app; done).
  replace (pre ++ c :: w ++ s) with ((pre ++ [c]) ++ w ++ s) by (by rewrite <- app_assoc).
  apply IH. intros f ls'. rewrite <- !app_assoc. apply HI.
Qed.

Lemma scan_quiet_end pre w ls lc fuel :
  Forall (fun c => quiet c = true) w -> scan_loop fuel (pre ++ w) (length pre) ls lc = false.
Proof.
  intros Hw. rewrite <- (app_nil_r w). apply scan_quiet; [done|]. intros [|f] ls'; [done|].
  cbn [scan_loop]. by rewrite lookup_ge_None_2 by (rewrite app_nil_r; done).
Qed.

(** The first [e q] in a text that has none before it. *)
Lemma break_str_first e q b s :
  e <> q -> ~ occurs [e; q] b -> break_str [e; q] (b ++ e :: q :: s) = Some (b, s).
Proof.
  intros Hne Hno. destruct (break_str [e; q] (b ++ e :: q :: s)) as [[a r]|] eqn:E.
  2:{ exfalso. eapply break_str_None; [done|]. by exists b, s. }
  apply break_str_Some in E as [E Hmin]. specialize (Hmin b s eq_refl).
  apply app_eq_inv in E as [(k & Hb & Hr)|(k & Ha & Hr)].
  - destruct k as [|x [|y k]]; simpl in Hr; simplify_eq/=.
    + by rewrite app_nil_r.
    + exfalso. apply Hno. by exists a, k.
  - subst a. rewrite length_app in Hmin. destruct k; [|simpl in Hmin; lia].
    simpl in Hr. simplify_eq. by rewrite app_nil_r.
Qed.

Lemma scan_q_string pre d body s ls lc fuel :
  to_ascii_lowercase lc = 113 -> closing d <> QUOTE -> ~ occurs (closing_sequence d) body ->
  (forall f, scan_loop f (pre ++ [QUOTE; d] ++ body ++ [closing d; QUOTE] ++ s)
     (length (pre ++ [QUOTE; d] ++ body ++ [closing d; QUOTE])) true QUOTE = false) ->
  scan_loop fuel (pre ++ [QUOTE; d] ++ body ++ [closing d; QUOTE] ++ s) (length pre) ls lc = false.
Proof.
  intros Hlc Hd Hno HI. destruct fuel as [|fuel]; [done|]. cbn [scan_loop].
  rewrite lookup_app_r, Nat.sub_diag by lia. cbn [lookup list_lookup app].
  unfold scan_step. change (QUOTE =? QUOTE) with true. rewrite Hlc. change (113 =? 113) with true. cbn match.
  replace (skip_q_string (pre ++ QUOTE :: d :: body ++ closing d :: QUOTE :: s) (length pre) + 1)%nat with (length (pre ++ [QUOTE; d] ++ body ++ [closing d; QUOTE])); [apply HI|].
  unfold skip_q_string. rewrite lookup_app_r by lia.
  replace (length pre + 1 - length pre)%nat with 1%nat by lia. cbn [lookup list_lookup].
  replace (drop (length pre + 2) (pre ++ QUOTE :: d :: body ++ closing d :: QUOTE :: s))
    with (body ++ closing d :: QUOTE :: s) by (by rewrite drop_app_add).
  rewrite break_str_first by done. rewrite !length_app. simpl. lia.
Qed.

Lemma double_quotes_app a b : double_quotes (a ++ b) = double_quotes a ++ double_quotes b.
Proof. apply flat_map_app. Qed.

Lemma double_quotes_id a : Forall (fun c => (QUOTE =? c) = false) a -> double_quotes a = a.
Proof. induction 1 as [|c a Hc _ IH]; [done|]. simpl. rewrite Z.eqb_sym, Hc. simpl. by rewrite IH. Qed.

(** The position of the first quote after an opening one. *)
Lemma scan_to_quote pre a s fuel ls lc :
  to_ascii_lowercase lc <> 113 -> Forall (fun c => (QUOTE =? c) = false) a ->
  (forall f, scan_loop f ((pre ++ QUOTE :: a ++ [QUOTE]) ++ s) (length (pre ++ QUOTE :: a ++ [QUOTE])) true QUOTE = false) ->
  scan_loop fuel (pre ++ QUOTE :: a ++ QUOTE :: s) (length pre) ls lc = false.
Proof.
  intros Hlc Ha HI. destruct fuel as [|fuel]; [done|]. cbn [scan_loop].
  rewrite lookup_app_r, Nat.sub_diag by lia. cbn [lookup list_lookup].
  unfold scan_step. change (QUOTE =? QUOTE) with true. rewrite (proj2 (Z.eqb_neq _ _) Hlc). cbn match.
  assert (E : pre ++ QUOTE :: a ++ QUOTE :: s = (pre ++ [QUOTE]) ++ a ++ QUOTE :: s) by (by rewrite <- app_assoc).
  rewrite E. unfold skip_quoted. replace (length pre + 1)%nat with (length (pre ++ [QUOTE])) by (by rewrite length_app).
  rewrite position_of_app, break_char_app by done. cbn [fst].
  replace (length (pre ++ [QUOTE]) + length a + 1)%nat with (length (pre ++ QUOTE :: a ++ [QUOTE]))
    by (rewrite !length_app; simpl; rewrite length_app; simpl; lia).
  rewrite <- E. replace (pre ++ QUOTE :: a ++ QUOTE :: s) with ((pre ++ QUOTE :: a ++ [QUOTE]) ++ s)
    by (rewrite <- app_assoc; simpl; by rewrite <- app_assoc).
  apply HI.
Qed.

Lemma scan_ordinary n body : (length body < n)%nat -> forall pre s fuel ls lc,
  to_ascii_lowercase lc <> 113 ->
  (forall f, scan_loop f (pre ++ QUOTE :: double_quotes body ++ QUOTE :: s)
     (length (pre ++ QUOTE :: double_quotes body ++ [QUOTE])) true QUOTE = false) ->
  scan_loop fuel (pre ++ QUOTE :: double_quotes body ++ QUOTE :: s) (length pre) ls lc = false.
Proof.
  revert body. induction n as [|n IH]; [lia|]. intros body Hn pre s fuel ls lc Hlc HI.
  destruct (break_char (Z.eqb QUOTE) body) as [a b] eqn:E. apply break_char_spec in E as (-> & Ha & Hb).
  rewrite double_quotes_app, (double_quotes_id a) in * by done. rewrite <- !app_assoc in *.
  destruct b as [|c b].
  - simpl in *. apply scan_to_quote; [done..|]. intros f. specialize (HI f).
    by rewrite <- app_assoc; simpl; rewrite <- app_assoc.
  - specialize (Hb c eq_refl). boolify. subst c. simpl in *.
    apply scan_to_quote; [done..|]. intros f. rewrite length_app in Hn. simpl in Hn.
    apply (IH b ltac:(lia)); [done|]. intros f'. specialize (HI f').
    repeat (rewrite <- !app_assoc in *; simpl in * ). done.
Qed.

Lemma Forall_quiet w : forallb quiet w = true -> Forall (fun c => quiet c = true) w.
Proof. induction w as [|c w IH]; simpl; intros Hw; boolify; by constructor; auto. Qed.

Lemma delimiter_closes d : In d DELIMITERS -> closing d <> QUOTE.
Proof. simpl. intros Hd. repeat destruct Hd as [<-|Hd]; done. Qed.

Lemma literal_cases body :
  (exists d, In d DELIMITERS /\ ~ occurs (closing_sequence d) body /\
     literal body = lit "q'" ++ [d] ++ body ++ [closing d] ++ lit "'") \/
  literal body = lit "'" ++ double_quotes body ++ lit "'".
Proof.
  unfold literal. destruct (find _ DELIMITERS) as [d|] eqn:E; [|by right].
  apply find_some in E as [Hd Hno]. left. exists d. apply negb_true_iff, str_contains_false in Hno. done.
Qed.

(** Nothing inside the wrapped statement is visible to the scan. *)
Lemma wrap_is_quiet body : upstream_finds_a_bind_placeholder (wrap body) = false.
Proof.
  unfold upstream_finds_a_bind_placeholder, wrap.
  destruct (literal_cases body) as [(d & Hd & Hno & ->)| ->].
  - set (fuel := S _). clearbody fuel.
    change (lit "BEGIN EXECUTE IMMEDIATE " ++ (lit "q'" ++ [d] ++ body ++ [closing d] ++ lit "'") ++ lit "; END;")
      with ([] ++ lit "BEGIN EXECUTE IMMEDIATE q" ++ ([QUOTE; d] ++ body ++ [closing d] ++ lit "'") ++ lit "; END;").
    apply (scan_quiet _ []); [by apply Forall_quiet|]. intros f ls.
    replace (([QUOTE; d] ++ body ++ [closing d] ++ lit "'") ++ lit "; END;")
      with ([QUOTE; d] ++ body ++ [closing d; QUOTE] ++ lit "; END;") by (by rewrite <- !app_assoc).
    apply scan_q_string; [done|by apply delimiter_closes|done|]. intros f'. rewrite !app_assoc.
    apply scan_quiet_end. by apply Forall_quiet.
  - set (fuel := S _). clearbody fuel.
    change (lit "BEGIN EXECUTE IMMEDIATE " ++ (lit "'" ++ double_quotes body ++ lit "'") ++ lit "; END;")
      with ([] ++ lit "BEGIN EXECUTE IMMEDIATE " ++ (QUOTE :: double_quotes body ++ lit "'") ++ lit "; END;").
    apply (scan_quiet _ []); [by apply Forall_quiet|]. intros f ls.
    replace ((QUOTE :: double_quotes body ++ lit "'") ++ lit "; END;")
      with (QUOTE :: double_quotes body ++ QUOTE :: lit "; END;") by (simpl; by rewrite <- app_assoc).
    eapply scan_ordinary; [apply Nat.lt_succ_diag_r|done|]. intros f'.
    replace (([] ++ lit "BEGIN EXECUTE IMMEDIATE ") ++ QUOTE :: double_quotes body ++ QUOTE :: lit "; END;")
      with ((([] ++ lit "BEGIN EXECUTE IMMEDIATE ") ++ QUOTE :: double_quotes body ++ [QUOTE]) ++ lit "; END;")
      by (simpl; by rewrite <- app_assoc).
    apply scan_quiet_end. by apply Forall_quiet.
Qed.

(** *** What normalizing removes *)

Definition all_ws (w : str) : Prop := Forall (fun c => is_whitespace c = true) w.

Lemma trim_start_slash s :
  trim s = lit "/" -> exists w w', s = w ++ lit "/" ++ w' /\ all_ws w /\ all_ws w'.
Proof.
  unfold trim. destruct (trim_start_spec s) as (w & Hs & Hw). intros Ht.
  destruct (trim_end_spec (trim_start s)) as (w' & Hs' & Hw'). rewrite Ht in Hs'.
  exists w, w'. by rewrite <- Hs'.
Qed.

(** The statement ends as written, but for white space and one [/] line. *)
Lemma strip_sqlplus_terminator_spec sql :
  exists w slash w', sql = strip_sqlplus_terminator sql ++ w ++ slash ++ w' /\
    all_ws w /\ all_ws w' /\ (slash = [] \/ slash = lit "/").
Proof.
  unfold strip_sqlplus_terminator. destruct (trim_end_spec sql) as (w0 & Hs & Hw0).
  destruct (rbreak_char (Z.eqb NEWLINE) (trim_end sql)) as [[before line]|] eqn:E.
  2:{ exists w0, [], []. rewrite !app_nil_r. split_and!; [done|done|by constructor|by left]. }
  destruct (str_eqb (trim line) (lit "/")) eqn:El.
  2:{ exists w0, [], []. rewrite !app_nil_r. split_and!; [done|done|by constructor|by left]. }
  apply bool_decide_eq_true, trim_start_slash in El as (x & y & -> & Hx & Hy).
  apply rbreak_char_Some in E as (c & Et & Hc & _). boolify. subst c.
  destruct (trim_end_spec before) as (z & Hb & Hz). exists (z ++ NEWLINE :: x), (lit "/"), (y ++ w0).
  assert (sql = trim_end before ++ (z ++ NEWLINE :: x) ++ lit "/" ++ y ++ w0) as Hsql.
  { rewrite Hs at 1. rewrite Et. rewrite Hb at 1. repeat (rewrite <- !app_assoc; simpl). done. }
  split; [exact Hsql|]. split; [|split; [by apply Forall_app|by right]].
  apply Forall_app. split; [done|]. by constructor.
Qed.

Lemma strip_statement_terminator_spec t :
  exists w semi, t = strip_statement_terminator t ++ w ++ semi /\ all_ws w /\ (semi = [] \/ semi = lit ";").
Proof.
  unfold strip_statement_terminator. destruct (strip_suffix t (lit ";")) as [r|] eqn:E.
  - apply strip_suffix_Some in E as ->. destruct (closes_a_plsql_block r); simpl.
    + exists [], []. rewrite !app_nil_r. split_and!; [done|by constructor|by left].
    + destruct (trim_end_spec r) as (w & Hr & Hw). exists w, (lit ";"). rewrite Hr at 1.
      rewrite <- app_assoc. split_and!; [done|done|by right].
  - exists [], []. rewrite !app_nil_r. split_and!; [done|by constructor|by left].
Qed.

Lemma normalize_spec sql :
  exists w1 semi w2 slash w3, sql = normalize sql ++ w1 ++ semi ++ w2 ++ slash ++ w3 /\
    all_ws w1 /\ all_ws w2 /\ all_ws w3 /\ (semi = [] \/ semi = lit ";") /\ (slash = [] \/ slash = lit "/").
Proof.
  destruct (strip_sqlplus_terminator_spec sql) as (w & slash & w' & Hs & Hw & Hw' & Hsl).
  destruct (strip_statement_terminator_spec (strip_sqlplus_terminator sql)) as (v & semi & Ht & Hv & Hse).
  exists v, semi, w, slash, w'. unfold normalize. split_and!; try done.
  rewrite Hs at 1. rewrite Ht at 1. by rewrite <- !app_assoc.
Qed.

End Lemmas.
