(* ===== verification/OracleTextClaims.v ===== *)
(** * What the Oracle driver's readings of a statement guarantee

    The classifier against the Oracle library's own rule, and the trigger
    rewrite against the library's bind scan. *)

From S2P Require Import Prelude RustStr RustText Temporal Errors ResultStore Events Descriptor Connect Classify Rewrite.
Open Scope Z_scope.

(** ** What a PL/SQL literal is worth

    The documented rule of the two forms: an alternative-quote literal ends at
    the first closing delimiter a quote follows, and an ordinary one writes each
    quote twice. *)

Fixpoint undouble (s : str) : option str :=
  match s with
  | [] => None
  | c :: s' =>
      if c =? QUOTE then
        match s' with
        | [] => Some []
        | d :: s'' => if d =? QUOTE then option_map (cons QUOTE) (undouble s'') else None
        end
      else option_map (cons c) (undouble s')
  end.

Definition literal_value (l : str) : option str :=
  match strip_prefix l (lit "q'") with
  | Some (d :: r) => match break_str (closing_sequence d) r with Some (a, []) => Some a | _ => None end
  | Some [] => None
  | None => match strip_prefix l (lit "'") with Some r => undouble r | None => None end
  end.

Lemma undouble_double_quotes body : undouble (double_quotes body ++ [QUOTE]) = Some body.
Proof.
  induction body as [|c body IH]; [done|].
  change (double_quotes (c :: body)) with ((if c =? QUOTE then [QUOTE; QUOTE] else [c]) ++ double_quotes body).
  destruct (c =? QUOTE) eqn:E.
  - boolify. subst c. cbn [app undouble]. change (QUOTE =? QUOTE) with true. cbn match. by rewrite IH.
  - cbn [app undouble]. by rewrite E, IH.
Qed.

Lemma literal_value_literal body : literal_value (literal body) = Some body.
Proof.
  unfold literal_value. destruct (literal_cases body) as [(d & Hd & Hno & ->)| ->].
  - rewrite (proj2 (strip_prefix_Some _ (lit "q'") (d :: body ++ [closing d; QUOTE]))) by done.
    unfold closing_sequence. by rewrite (break_str_first (closing d) QUOTE body []) by (done || by apply delimiter_closes).
  - change (strip_prefix (lit "'" ++ double_quotes body ++ lit "'") (lit "q'")) with (@None str).
    rewrite (proj2 (strip_prefix_Some _ (lit "'") (double_quotes body ++ lit "'"))) by done.
    apply undouble_double_quotes.
Qed.

Section claims.
Context `{Unicode} `{CaseMap}.

(** C30: no query loses its rows to the wrong path.  A statement is classified
    as returning rows exactly when the Oracle library will treat it as a query,
    for every text in which no line starts with a dash, and what returns rows is
    reported as a query. *)
Theorem classifier_routes_every_query (sql : str) :
  dash_after_newline sql = false ->
  returns_rows (classify sql) = upstream_would_return_rows sql /\
  (returns_rows (classify sql) = true <-> Classify.kind (classify sql) = Query).
Proof.
  intros Hd. split.
  - unfold upstream_would_return_rows.
    rewrite (upstream_agrees (S (length sql)) sql (Nat.lt_succ_diag_r _) []) by (done || lia || by split).
    unfold classify, next, keywords_new. cbn [at_first rest].
    destruct (first_word sql) as [word r]. cbn [fst].
    destruct (is_word word [lit "SELECT"; lit "WITH"]); [done|].
    repeat (match goal with |- context [if ?b then _ else _] => destruct b; [try done|] end; cbv zeta).
    all: try done. all: repeat case_match; done.
  - unfold classify. destruct (next (keywords_new sql)) as [first words].
    repeat case_match; naive_solver.
Qed.

(** C8: a trigger reaches the server as it was written.  For a recognised
    trigger, what is sent holds nothing the library's scan takes for a bind
    placeholder, and it is the normalised statement: itself, or a block that
    executes a literal worth exactly that, of at most 32767 bytes.  Only a
    statement that would be misread and is larger than that is refused. *)
Theorem trigger_text_is_hidden_from_the_scan (sql : str) (k : Rewritable) :
  detect sql = Some k ->
  match plan sql with
  | Ok p =>
      upstream_finds_a_bind_placeholder (plan_text p sql) = false /\
      match plan_wrapped p with
      | None => plan_text p sql = normalize sql
      | Some r => rewrite_kind r = k /\ (blen (normalize sql) <= MAX_WRAPPED_BYTES)%nat /\
          exists l, rewrite_text r = lit "BEGIN EXECUTE IMMEDIATE " ++ l ++ lit "; END;" /\
            literal_value l = Some (normalize sql)
      end
  | Err e => Errors.kind e = UnsupportedKind /\ upstream_finds_a_bind_placeholder (normalize sql) = true /\
      (MAX_WRAPPED_BYTES < blen (normalize sql))%nat
  end.
Proof.
  intros Hk. unfold plan. rewrite Hk.
  destruct (upstream_finds_a_bind_placeholder (normalize sql)) eqn:Hf; cbn [negb].
  - destruct (MAX_WRAPPED_BYTES <? blen (normalize sql))%nat eqn:Hm; boolify; [done|].
    split; [apply wrap_is_quiet|]. split_and!; [done|lia|]. exists (literal (normalize sql)).
    by rewrite literal_value_literal.
  - assert (E : (blen (normalize sql) =? blen sql)%nat = true -> normalize sql = sql).
    { intros Hb. boolify. destruct (normalize_spec sql) as (w1 & se & w2 & sl & w3 & Hs & _).
      apply (f_equal blen) in Hs as Hl. rewrite blen_app in Hl.
      assert (w1 ++ se ++ w2 ++ sl ++ w3 = []) as E by (apply blen_nil_inv; lia).
      by rewrite E, app_nil_r in Hs. }
    destruct (blen (normalize sql) =? blen sql)%nat; cbn [plan_text plan_wrapped]; [|done].
    rewrite E in Hf by done. by rewrite E.
Qed.

End claims.

(** ** At concrete statements *)

Lemma classifier_routes_every_query_witness :
  exists sql, dash_after_newline sql = false /\ returns_rows (classify sql) = true /\
    returns_rows (classify sql) = upstream_would_return_rows sql.
Proof.
  exists (lit "/* hint */ (select 1 from dual)"). split; [evaluate|]. split; [evaluate|].
  refine (proj1 (classifier_routes_every_query (lit "/* hint */ (select 1 from dual)") _)). evaluate.
Defined.

Definition sample_trigger : str :=
  lit "create or replace trigger t before insert on x for each row begin :new.a := 'it]'; end;".

Lemma trigger_text_is_hidden_from_the_scan_witness :
  detect sample_trigger = Some Trigger /\
  exists r, plan sample_trigger = Ok (Wrapped r) /\
    exists l, rewrite_text r = lit "BEGIN EXECUTE IMMEDIATE " ++ l ++ lit "; END;" /\
      literal_value l = Some (normalize sample_trigger).
Proof.
  assert (Hd : detect sample_trigger = Some Trigger) by evaluate. split; [exact Hd|].
  pose proof (trigger_text_is_hidden_from_the_scan sample_trigger Trigger Hd) as Hp.
  destruct (plan sample_trigger) as [p|e] eqn:E.
  - destruct p as [|t|r].
    + exfalso. destruct Hp as [Hp _].
      assert (upstream_finds_a_bind_placeholder sample_trigger = true) as E' by evaluate.
      change (upstream_finds_a_bind_placeholder sample_trigger = false) in Hp. congruence.
    + exfalso. assert (match plan sample_trigger with Ok (Trimmed _) => false | _ => true end = true) as E' by evaluate.
      rewrite E in E'. done.
    + exists r. split; [done|]. destruct Hp as (_ & _ & _ & Hl). exact Hl.
  - exfalso. assert (match plan sample_trigger with Err _ => false | _ => true end = true) as E' by evaluate.
    rewrite E in E'. done.
Defined.

(** The two rules differ when a dash starts the line after a comment: the
    library's rule, still seeing the comment's last dash, takes it for another
    comment. *)
Lemma classifier_differs_after_a_comment_line :
  let sql := lit "--x" ++ [NEWLINE] ++ lit "-y" ++ [NEWLINE] ++ lit "SELECT 1" in
  returns_rows (classify sql) = false /\ upstream_would_return_rows sql = true.
Proof. split; evaluate. Qed.

(** The two transcriptions of the library's parser leave a line comment at
    different positions: one on the newline, the other after it. *)
Lemma transcriptions_differ_on_line_comments :
  let sql := lit "--" ++ [NEWLINE] ++ lit "SELECT" in
  upstream_skip sql 1 45 45 = 2%nat /\ scan_step sql 1 45 45 false = Some 3%nat.
Proof. split; evaluate. Qed.

(** A comment between a block's [END] and its semicolon hides the [END]: the
    semicolon PL/SQL needs is removed. *)
Lemma comment_before_the_semicolon_loses_it :
  let sql := lit "CREATE TRIGGER t BEFORE INSERT ON x BEGIN NULL; END /* t */;" in
  plan sql = Ok (Trimmed (lit "CREATE TRIGGER t BEFORE INSERT ON x BEGIN NULL; END /* t */")).
Proof. cbv zeta. evaluate. Qed.
