(* ===== verification/ServerOutput.v ===== *)
(** * Server output of the Oracle driver (oracle-thin/src/server_output.rs)

    The PL/SQL block that packs the lines of [DBMS_OUTPUT] on the server, as a
    function of the server's buffer, and the reading of what it packed.  A line
    is what [GET_LINE] returns; its bytes are what the documented
    [UTL_I18N.STRING_TO_RAW(line, 'AL32UTF8')] makes of it, a parameter.  An
    empty [RAW] and NULL are the same value. *)

From S2P Require Import Prelude RustStr Number NumberProps Temporal Errors ResultStore Events.
Open Scope Z_scope.

Definition MIN_BUFFER_BYTES : Z := 2000.
Definition MAX_BUFFER_BYTES : Z := 1000000.
Definition MAX_PACKED_BYTES : Z := 32767.
Definition PREFIX_WIDTH : nat := 5.

(** ** UTF-8 decoding, as [str::from_utf8] and [String::from_utf8_lossy] do it *)

Definition REPLACEMENT : char := 0xfffd.

Definition in_range (lo hi b : Z) : bool := (lo <=? b) && (b <=? hi).
Definition continues (b : Z) : bool := in_range 0x80 0xbf b.

(** The second bytes a first byte allows. *)
Definition second_byte (b0 b1 : Z) : bool :=
  if b0 =? 0xe0 then in_range 0xa0 0xbf b1
  else if b0 =? 0xed then in_range 0x80 0x9f b1
  else if b0 =? 0xf0 then in_range 0x90 0xbf b1
  else if b0 =? 0xf4 then in_range 0x80 0x8f b1
  else continues b1.

Definition low6 (b : Z) : Z := b - 0x80.

(** One character, or one maximal invalid sequence, and the bytes after it. *)
Definition utf8_next (b0 : Z) (r : list Z) : option char * list Z :=
  if b0 <? 0x80 then (Some b0, r)
  else if in_range 0xc2 0xdf b0 then
    match r with
    | b1 :: r1 => if continues b1 then (Some ((b0 - 0xc0) * 64 + low6 b1), r1) else (None, r)
    | [] => (None, r)
    end
  else if in_range 0xe0 0xef b0 then
    match r with
    | b1 :: r1 =>
        if second_byte b0 b1 then
          match r1 with
          | b2 :: r2 =>
              if continues b2 then (Some ((b0 - 0xe0) * 4096 + low6 b1 * 64 + low6 b2), r2) else (None, r1)
          | [] => (None, r1)
          end
        else (None, r)
    | [] => (None, r)
    end
  else if in_range 0xf0 0xf4 b0 then
    match r with
    | b1 :: r1 =>
        if second_byte b0 b1 then
          match r1 with
          | b2 :: r2 =>
              if continues b2 then
                match r2 with
                | b3 :: r3 =>
                    if continues b3 then
                      (Some ((b0 - 0xf0) * 262144 + low6 b1 * 4096 + low6 b2 * 64 + low6 b3), r3)
                    else (None, r2)
                | [] => (None, r2)
                end
              else (None, r1)
          | [] => (None, r1)
          end
        else (None, r)
    | [] => (None, r)
    end
  else (None, r).

(** The text, each invalid sequence replaced, and whether there was one. *)
Fixpoint utf8_decode (fuel : nat) (bytes : list Z) : str * bool :=
  match fuel, bytes with
  | S fuel', b :: r =>
      let (c, rest) := utf8_next b r in
      let (text, bad) := utf8_decode fuel' rest in
      match c with Some c => (c :: text, bad) | None => (REPLACEMENT :: text, true) end
  | _, _ => ([], false)
  end.

Definition decode_line (bytes : list Z) : str * bool := utf8_decode (length bytes) bytes.

(** ** The block the server runs *)

Record Taken (Line : Type) := mkTaken {
  t_packed : list Z;
  t_tail : list Z;
  t_has_tail : bool;
  t_count : Z;
  t_drained : bool;
  t_left : list Line;
}.
Arguments mkTaken {Line}. Arguments t_packed {Line}. Arguments t_tail {Line}.
Arguments t_has_tail {Line}. Arguments t_count {Line}. Arguments t_drained {Line}. Arguments t_left {Line}.

Section Output.
Context {Line : Type} (string_to_raw : Line -> list Z).

(** A line's frame: five digits and its bytes. *)
Definition frame (bytes : list Z) : list Z := padded 5 (Z.of_nat (length bytes)) ++ bytes.

(** [TAKE_BLOCK]: the loop over [GET_LINE], which takes a line out of the
    buffer.  [None] is the value error of a line longer than a [RAW]. *)
Fixpoint TAKE_BLOCK (max budget : Z) (lines : list Line) (buf : list Z) (used count : Z) : option (Taken Line) :=
  if count <? max then
    match lines with
    | [] => Some (mkTaken buf [] false count true [])
    | line :: rest =>
        let bytes := string_to_raw line in
        let len := Z.of_nat (length bytes) in
        if MAX_PACKED_BYTES <? len then None
        else if used + 5 + len <=? budget
          then TAKE_BLOCK max budget rest (buf ++ frame bytes) (used + 5 + len) (count + 1)
        else Some (mkTaken buf bytes true (count + 1) false rest)
    end
  else Some (mkTaken buf [] false count false lines).

(** ** Reading it *)

Definition framing_error (detail : str) : DbError :=
  error_new DataConversion (Text (lit "reldex-driver-oracle-thin: DBMS_OUTPUT lines could not be decoded (" ++
    detail ++ lit "); the lines this read took from the server are lost")).

Definition prefix_value (digits : list Z) : Z := fold_left (fun v d => v * 10 + (d - 48)) digits 0.

Fixpoint unpack (fuel : nat) (rest : list Z) (expected : Z) (lines : list str) (invalid : Z)
    : result (list str * Z) DbError :=
  match fuel, rest with
  | S fuel', _ :: _ =>
      let prefix := take PREFIX_WIDTH rest in
      if negb ((length prefix =? PREFIX_WIDTH)%nat && forallb is_ascii_digit prefix) then
        Err (framing_error (lit "a line's length prefix is missing or malformed"))
      else
        let frame_bytes := Z.to_nat (prefix_value prefix) in
        let body := drop PREFIX_WIDTH rest in
        if (length body <? frame_bytes)%nat then
          Err (framing_error (lit "a line is shorter than its length prefix says"))
        else
          let (line, bad) := decode_line (take frame_bytes body) in
          let invalid := if bad then invalid + 1 else invalid in
          let lines := lines ++ [line] in
          if expected <? Z.of_nat (length lines) then
            Err (framing_error (lit "more lines were decoded than the server sent"))
          else unpack fuel' (drop frame_bytes body) expected lines invalid
  | _, _ => Ok (lines, invalid)
  end.

(** [take], after the server answered. *)
Definition read_taken (t : Taken Line) : result ServerOutputChunk DbError :=
  let packed := t_packed t in
  match unpack (S (length packed)) packed (t_count t) [] 0 with
  | Err e => Err e
  | Ok (lines, invalid) =>
      let '(lines, invalid) :=
        if t_has_tail t then
          let (line, bad) := decode_line (t_tail t) in
          (lines ++ [line], if bad then invalid + 1 else invalid)
        else (lines, invalid) in
      if negb (Z.of_nat (length lines) =? t_count t) then
        Err (framing_error (lit "the server reported " ++ padded 1 (t_count t) ++ lit " lines and " ++
          padded 1 (Z.of_nat (length lines)) ++ lit " were decoded"))
      else Ok (mkChunk lines (t_drained t) invalid)
  end.

(** [take]: one call of the block; [server_error] is what the driver makes of
    the server's refusal, and a refused call has no defined buffer to leave. *)
Definition output_take (server_error : DbError) (max_lines max_bytes : Z) (buffer : list Line)
    : result (ServerOutputChunk * list Line) DbError :=
  let max := Z.min max_lines (2 ^ 31 - 1) in
  let budget := Z.min max_bytes MAX_PACKED_BYTES in
  match TAKE_BLOCK max budget buffer [] 0 0 with
  | None => Err server_error
  | Some t => result_bind (read_taken t) (fun chunk => Ok (chunk, t_left t))
  end.

End Output.

(** ** Settings *)

Definition clamp_buffer (bytes : Z) : Z := Z.max MIN_BUFFER_BYTES (Z.min MAX_BUFFER_BYTES bytes).

Definition effective (requested : ServerOutputSetting) : ServerOutputSetting :=
  match requested with
  | Enabled (BufferBytes bytes) => Enabled (BufferBytes (clamp_buffer bytes))
  | other => other
  end.

(** The call [set] makes, with its bind. *)
Inductive OutputCall := DISABLE | ENABLE (size : option Z).
Definition output_call (setting : ServerOutputSetting) : OutputCall :=
  match setting with
  | Disabled => DISABLE
  | Enabled UnlimitedBuffer => ENABLE None
  | Enabled (BufferBytes bytes) => ENABLE (Some (clamp_buffer bytes))
  end.

(** ** Lemmas *)

Lemma prefix_value_dval ds : prefix_value (map ascii ds) = dval ds.
Proof.
  unfold prefix_value, dval. generalize 0. induction ds as [|d ds IH]; intros v; [done|].
  cbn [map fold_left]. rewrite IH. f_equal. unfold ascii. lia.
Qed.

Lemma fixed_digits w n : forallb is_ascii_digit (map ascii (fixed w n)) = true.
Proof.
  revert n. induction w as [|w IH]; intros n; [done|]. cbn [fixed]. rewrite map_app, forallb_app, IH.
  cbn. pose proof (Z.mod_pos_bound n 10). unfold is_ascii_digit, ascii. lia.
Qed.

Lemma prefix_of_frame bytes rest :
  Z.of_nat (length bytes) < 100000 ->
  take PREFIX_WIDTH (frame bytes ++ rest) = padded 5 (Z.of_nat (length bytes)) /\
  drop PREFIX_WIDTH (frame bytes ++ rest) = bytes ++ rest /\
  length (padded 5 (Z.of_nat (length bytes))) = PREFIX_WIDTH /\
  forallb is_ascii_digit (padded 5 (Z.of_nat (length bytes))) = true /\
  Z.to_nat (prefix_value (padded 5 (Z.of_nat (length bytes)))) = length bytes.
Proof.
  intros Hl. unfold frame. rewrite !padded_fixed by (cbn; lia).
  assert (E : length (map ascii (fixed 5 (Z.of_nat (length bytes)))) = PREFIX_WIDTH)
    by (by rewrite length_map, length_fixed).
  rewrite <- app_assoc, <- E, take_app_length, drop_app_length, E.
  split_and!; try done; [apply fixed_digits|]. rewrite prefix_value_dval, dval_fixed by (cbn; lia). lia.
Qed.

Definition texts (bss : list (list Z)) : list str := map (fun bs => (decode_line bs).1) bss.
Definition invalid_texts (bss : list (list Z)) : Z :=
  Z.of_nat (length (filter (fun bs => (decode_line bs).2 = true) bss)).

Lemma invalid_texts_cons bs bss :
  invalid_texts (bs :: bss) = (if (decode_line bs).2 then 1 else 0) + invalid_texts bss.
Proof.
  unfold invalid_texts. rewrite filter_cons. destruct (decode_line bs) as [t [|]]; simpl; lia.
Qed.

(** Unpacking inverts packing. *)
Lemma unpack_frames bss : forall fuel expected lines invalid,
  (length (concat (map frame bss)) < fuel)%nat ->
  Forall (fun bs => Z.of_nat (length bs) < 100000) bss ->
  Z.of_nat (length lines + length bss) <= expected ->
  unpack fuel (concat (map frame bss)) expected lines invalid =
    Ok (lines ++ texts bss, invalid + invalid_texts bss).
Proof.
  induction bss as [|bs bss IH]; intros fuel expected lines invalid Hf Hb He.
  { destruct fuel; [simpl in Hf; lia|]. simpl. by rewrite app_nil_r, Z.add_0_r. }
  destruct fuel as [|fuel]; [lia|]. apply Forall_cons in Hb as [Hb Hbs]. cbn [map concat] in *.
  destruct (prefix_of_frame bs (concat (map frame bss)) Hb) as (Et & Ed & El & Eg & Ev).
  rewrite length_app in Hf. cbn [length] in He.
  assert (0 < length (frame bs))%nat as Hpos by (unfold frame; rewrite length_app, El; unfold PREFIX_WIDTH; lia).
  cbn [unpack]. destruct (frame bs ++ concat (map frame bss)) as [|z zs] eqn:Ez.
  { apply (f_equal length) in Ez. rewrite length_app in Ez. simpl in Ez. lia. }
  rewrite Et, Ed, El, Eg, Ev, Nat.eqb_refl. cbn [andb negb]. rewrite length_app.
  destruct (length bs + _ <? length bs)%nat eqn:E1; boolify; [lia|].
  rewrite take_app_length, drop_app_length. rewrite invalid_texts_cons. unfold texts at 1. cbn [map].
  destruct (decode_line bs) as [line bad]. cbn [fst snd]. rewrite length_app. cbn [length].
  destruct (expected <? _) eqn:E2; boolify; [lia|].
  rewrite IH; [|lia|done|rewrite length_app; simpl; lia].
  rewrite <- app_assoc. f_equal. f_equal. destruct bad; lia.
Qed.

Section OutputLemmas.
Context {Line : Type} (raw : Line -> list Z).

(** What the block took: the first lines of the buffer, framed, the last one
    perhaps on its own. *)
Record took (max budget : Z) (lines : list Line) (buf : list Z) (used count : Z) (n : nat) (t : Taken Line) : Prop := {
  took_left : t_left t = drop n lines;
  took_count : t_count t = count + Z.of_nat n;
  took_length : (n <= length lines)%nat;
  took_max : count + Z.of_nat n <= Z.max count max;
  took_packed : t_packed t ++ (if t_has_tail t then frame (t_tail t) else []) =
    buf ++ concat (map frame (map raw (take n lines)));
  took_tail : if t_has_tail t then exists m l, n = S m /\ lines !! m = Some l /\ t_tail t = raw l /\ t_drained t = false
    else t_drained t = true /\ n = length lines \/ t_drained t = false /\ max <= count + Z.of_nat n;
  took_budget : used <= budget ->
    used + Z.of_nat (length (concat (map frame (map raw (take (if t_has_tail t then n - 1 else n) lines))))) <= budget;
}.

Lemma frame_length bs : Z.of_nat (length bs) < 100000 -> Z.of_nat (length (frame bs)) = 5 + Z.of_nat (length bs).
Proof.
  intros Hb. destruct (prefix_of_frame bs [] Hb) as (_ & _ & El & _). unfold frame.
  rewrite length_app, El. unfold PREFIX_WIDTH. lia.
Qed.

Lemma take_block_spec max budget lines : forall buf used count,
  Forall (fun l => Z.of_nat (length (raw l)) <= MAX_PACKED_BYTES) lines ->
  exists n t, TAKE_BLOCK raw max budget lines buf used count = Some t /\
    took max budget lines buf used count n t /\ (count < max -> lines <> [] -> (0 < n)%nat).
Proof.
  induction lines as [|l lines IH]; intros buf used count Hl; cbn [TAKE_BLOCK];
    destruct (count <? max) eqn:Hc; boolify.
  - exists 0%nat, (mkTaken buf [] false count true []). split; [done|]. split; [|done].
    split; simpl; try done; try lia.
  - exists 0%nat, (mkTaken buf [] false count false []). split; [done|]. split; [|lia].
    split; simpl; try done; try lia.
  - apply Forall_cons in Hl as [Hl Hls]. unfold MAX_PACKED_BYTES in *.
    assert (Hfl := frame_length (raw l) ltac:(lia)).
    destruct (32767 <? _) eqn:E; boolify; [lia|].
    destruct (used + 5 + Z.of_nat (length (raw l)) <=? budget) eqn:Eb; boolify.
    + destruct (IH (buf ++ frame (raw l)) (used + 5 + Z.of_nat (length (raw l))) (count + 1) Hls)
        as (n & t & Et & Ht & Hn). exists (S n), t. split; [done|]. split; [|lia]. destruct Ht.
      split; cbn [length drop take map concat]; try done; try lia.
      * by rewrite took_packed0, <- app_assoc.
      * destruct (t_has_tail t); [|destruct took_tail0 as [[? ->]|[? ?]]; [by left|right; split; [done|lia]]].
        destruct took_tail0 as (m & l' & -> & ? & ? & ?). by exists (S m), l'.
      * intros _. specialize (took_budget0 ltac:(lia)).
        replace (if t_has_tail t then S n - 1 else S n)%nat with (S (if t_has_tail t then n - 1 else n)).
        { cbn [take map concat]. rewrite length_app. lia. }
        destruct (t_has_tail t); [|done]. destruct took_tail0 as (m & ? & -> & _). lia.
    + exists 1%nat, (mkTaken buf (raw l) true (count + 1) false lines). split; [done|]. split; [|lia].
      split; cbn -[frame]; try done; try lia.
      * by rewrite app_nil_r.
      * by exists 0%nat, l.
  - exists 0%nat, (mkTaken buf [] false count false (l :: lines)). split; [done|]. split; [|lia].
    split; simpl; try done; try lia.
Qed.

End OutputLemmas.

(** What the driver reads is what the block took. *)
Lemma read_taken_spec {Line : Type} (raw : Line -> list Z) max budget lines n t :
  Forall (fun l => Z.of_nat (length (raw l)) <= MAX_PACKED_BYTES) lines ->
  took raw max budget lines [] 0 0 n t ->
  read_taken t = Ok (mkChunk (texts (map raw (take n lines))) (t_drained t) (invalid_texts (map raw (take n lines)))).
Proof.
  intros Hl Ht. destruct Ht as [Hleft Hcount Hlen Hmax Hpacked Htail _]. unfold read_taken.
  assert (Hb : forall k, Forall (fun bs => Z.of_nat (length bs) < 100000) (map raw (take k lines))).
  { intros k. apply Forall_map, Forall_take. eapply Forall_impl; [exact Hl|]. unfold MAX_PACKED_BYTES. simpl. lia. }
  destruct (t_has_tail t).
  - destruct Htail as (m & l & -> & Hm & Ht & Hd). rewrite Hd.
    rewrite (take_S_r _ _ _ Hm), map_app, map_app, concat_app in *. cbn [map concat] in *. rewrite app_nil_r in Hpacked.
    rewrite Ht in *. cbn [app] in Hpacked. apply app_inv_tail in Hpacked.
    rewrite Hpacked, unpack_frames; [|lia|done|rewrite length_map, length_take, Hcount; cbn; lia].
    unfold texts, invalid_texts. rewrite map_app, filter_app, length_app, filter_cons, filter_nil. cbn [map].
    destruct (decode_line (raw l)) as [line bad]. cbn [fst snd app].
    rewrite length_app, !length_map, length_take. cbn [length].
    destruct (negb _) eqn:E; boolify; [lia|]. f_equal. f_equal. destruct bad; simpl; lia.
  - rewrite app_nil_r in Hpacked. simpl in Hpacked.
    rewrite Hpacked, unpack_frames; [|lia|done|rewrite length_map, length_take, Hcount; cbn; lia].
    cbn [app]. unfold texts at 1. rewrite !length_map, length_take.
    destruct (negb _) eqn:E; boolify; [lia|]. done.
Qed.

(** *** UTF-8 *)

Lemma lor_high h k x : 0 <= k -> 0 <= x < 2 ^ k -> Z.lor (h * 2 ^ k) x = h * 2 ^ k + x.
Proof.
  intros Hk Hx. destruct (Z.eq_dec x 0) as [->|Hx0]; [rewrite Z.lor_0_r; lia|].
  assert (Z.land (h * 2 ^ k) x = 0) as E.
  { apply Z.bits_inj'. intros n Hn. rewrite Z.land_spec, Z.bits_0.
    destruct (Z.lt_ge_cases n k); [by rewrite Z.mul_pow2_bits_low|].
    rewrite (Z.bits_above_log2 x); [by rewrite andb_false_r|lia|].
    apply Z.log2_lt_pow2; [lia|].
    apply (Z.lt_le_trans _ (2 ^ k)); [lia|]. apply Z.pow_le_mono_r; lia. }
  by rewrite <- Z.lxor_lor, <- Z.add_nocarry_lxor.
Qed.

Lemma low6_of x : Z.lor 0x80 (Z.land x 0x3F) = 0x80 + x mod 64.
Proof.
  change 0x3F with (Z.ones 6). rewrite Z.land_ones by lia. change 0x80 with (2 * 2 ^ 6).
  apply lor_high; [lia|]. apply Z.mod_pos_bound. lia.
Qed.

Lemma shift_div c k : 0 <= k -> Z.shiftr c k = c / 2 ^ k.
Proof. intros. by apply Z.shiftr_div_pow2. Qed.

Lemma utf8_next_encode c r :
  is_scalar c = true -> exists b bs, encode_utf8 c = b :: bs /\ utf8_next b (bs ++ r) = (Some c, r).
Proof.
  intros Hc. unfold is_scalar in Hc.
  assert (H0 : 0 <= c < 0x110000 /\ ~ (0xD800 <= c <= 0xDFFF)) by (apply orb_true_iff in Hc as [?|?]; boolify; lia).
  clear Hc. unfold encode_utf8. rewrite !shift_div, !low6_of by lia.
  destruct (c <? 0x80) eqn:E1; [|destruct (c <? 0x800) eqn:E2; [|destruct (c <? 0x10000) eqn:E3]]; boolify.
  { exists c, []. split; [done|]. unfold utf8_next. by rewrite (proj2 (Z.ltb_lt _ _)) by lia. }
  all: repeat match goal with |- context [Z.lor ?a ?x] =>
    assert (Z.lor a x = a + x) as ->
      by (first [apply (lor_high 6 5 x) | apply (lor_high 14 4 x) | apply (lor_high 30 3 x)]; Z.div_mod_to_equations; lia) end.
  all: eexists _, _; split; [done|]; cbn [app]; unfold utf8_next, second_byte, continues, low6, in_range.
  all: change (2 ^ 6) with 64; change (2 ^ 12) with 4096; change (2 ^ 18) with 262144.
  all: repeat match goal with |- context [if ?b then _ else _] =>
    lazymatch b with context [if _ then _ else _] => fail | _ => idtac end;
    destruct b eqn:?; try (exfalso; Z.div_mod_to_equations; lia) end.
  all: match goal with |- (Some ?x, _) = _ => replace x with c; [done|] end; Z.div_mod_to_equations; lia.
Qed.

Definition is_text (s : str) : Prop := Forall (fun c => is_scalar c = true) s.

(** A text's bytes decode to the text. *)
Lemma decode_as_bytes s : is_text s -> decode_line (as_bytes s) = (s, false).
Proof.
  intros Hs. unfold decode_line. assert (Hf : (length (as_bytes s) <= length (as_bytes s))%nat) by lia.
  revert Hf. generalize (length (as_bytes s)) at 2 3 as fuel.
  induction Hs as [|c s Hc Hs IH]; intros fuel Hf; [by destruct fuel|].
  cbn [as_bytes] in *. destruct (utf8_next_encode c (as_bytes s) Hc) as (b & bs & Eb & En).
  rewrite Eb in *. cbn [app length] in *. rewrite length_app in Hf.
  destruct fuel as [|fuel]; [lia|]. cbn [utf8_decode]. rewrite En, IH by lia. done.
Qed.

Lemma texts_as_bytes ss : Forall is_text ss -> texts (map as_bytes ss) = ss /\ invalid_texts (map as_bytes ss) = 0.
Proof.
  induction 1 as [|s ss Hs _ [IH1 IH2]]; [done|]. cbn [map]. rewrite invalid_texts_cons, IH2.
  unfold texts in *. cbn [map]. rewrite decode_as_bytes, IH1 by done. done.
Qed.

(** ** What reading server output guarantees *)


(** C31: no line of server output is lost, reordered or split.  One read takes
    the first lines of the server's buffer, in order and within both limits,
    and leaves the rest there; it takes at least one when there is one, says
    the buffer is drained only when it is empty, and delivers every line whose
    bytes are a text as that text, the others counted.  Only the last line of a
    read may pass the byte limit. *)
Theorem output_lines_arrive_once {Line : Type} (raw : Line -> list Z) (e : DbError)
    (max_lines max_bytes : Z) (buffer : list Line) :
  0 < max_lines -> 0 < max_bytes ->
  Forall (fun l => Z.of_nat (length (raw l)) <= MAX_PACKED_BYTES) buffer ->
  exists n chunk, output_take raw e max_lines max_bytes buffer = Ok (chunk, drop n buffer) /\
    (n <= length buffer)%nat /\ Z.of_nat n <= max_lines /\
    chunk_lines chunk = texts (map raw (take n buffer)) /\
    invalid_utf8_lines chunk = invalid_texts (map raw (take n buffer)) /\
    (forall ss, Forall is_text ss -> map raw (take n buffer) = map as_bytes ss ->
       chunk_lines chunk = ss /\ invalid_utf8_lines chunk = 0) /\
    (buffer <> [] -> (0 < n)%nat) /\ (drained chunk = true -> n = length buffer) /\
    (drained chunk = false -> (0 < n)%nat) /\
    Z.of_nat (length (concat (map raw (take (n - 1) buffer)))) <= max_bytes.
Proof.
  intros Hm Hb Hl. unfold output_take.
  destruct (take_block_spec raw (Z.min max_lines (2 ^ 31 - 1)) (Z.min max_bytes MAX_PACKED_BYTES) buffer [] 0 0 Hl)
    as (n & t & Et & Ht & Hn). rewrite Et, (read_taken_spec raw _ _ buffer n t Hl Ht).
  exists n. eexists. destruct Ht as [Hleft Hcount Hlen Hmax _ Htail Hbudget]. cbn [result_bind]. rewrite Hleft.
  split; [done|]. cbn [chunk_lines invalid_utf8_lines drained].
  assert (Hn' : buffer <> [] -> (0 < n)%nat) by (intros; apply Hn; [lia|done]).
  split_and!; try done; try lia.
  - intros ss Hss ->. by apply texts_as_bytes.
  - destruct (t_has_tail t); [|naive_solver lia]. destruct Htail as (m & l & _ & _ & _ & ->). done.
  - intros Hd. destruct buffer; [|by apply Hn']. destruct (t_has_tail t).
    + destruct Htail as (m & l & -> & _). lia.
    + destruct Htail as [[? _]|[_ ?]]; [congruence|]. cbn [length] in Hlen. change (2 ^ 31 - 1) with 2147483647 in *. lia.
  - assert (Hframes : forall k, (length (concat (map raw (take k buffer))) <=
      length (concat (map frame (map raw (take k buffer)))))%nat).
    { intros k. induction (take k buffer) as [|l ls IH]; [done|]. cbn [map concat]. unfold frame at 1.
      rewrite !length_app. lia. }
    assert (Hmono : (length (concat (map frame (map raw (take (n - 1) buffer)))) <=
      length (concat (map frame (map raw (take (if t_has_tail t then n - 1 else n) buffer)))))%nat).
    { destruct (t_has_tail t); [done|].
      replace (take (n - 1) buffer) with (take (n - 1) (take n buffer)) by (rewrite take_take; f_equal; lia).
      rewrite <- (take_drop (n - 1) (take n buffer)) at 2. rewrite !map_app, concat_app, length_app. lia. }
    specialize (Hframes (n - 1)%nat). unfold MAX_PACKED_BYTES in *. specialize (Hbudget ltac:(lia)). lia.
Qed.

(** ** At a concrete buffer *)

Definition sample_lines : list str := [lit "one"; []; [3585; 3586]; [0x1f600]; lit "five"].

Lemma output_lines_arrive_once_witness :
  exists chunk, output_take as_bytes (internal NoLobToPark) 100 30 sample_lines = Ok (chunk, [lit "five"]) /\
    chunk_lines chunk = [lit "one"; []; [3585; 3586]; [0x1f600]] /\ invalid_utf8_lines chunk = 0.
Proof.
  destruct (output_lines_arrive_once as_bytes (internal NoLobToPark) 100 30 sample_lines eq_refl eq_refl)
    as (n & chunk & E & _ & _ & _ & _ & Ht & _).
  { repeat constructor; cbv; discriminate. }
  assert (E' : match output_take as_bytes (internal NoLobToPark) 100 30 sample_lines with
    Ok (c, l) => bool_decide (l = [lit "five"]) && bool_decide (chunk_lines c = [lit "one"; []; [3585; 3586]; [0x1f600]]) && (invalid_utf8_lines c =? 0)
    | Err _ => false end = true) by evaluate.
  rewrite E in E'. apply andb_true_iff in E' as [[E1 E2]%andb_true_iff E3].
  exists chunk. rewrite E. apply bool_decide_eq_true in E1, E2. apply Z.eqb_eq in E3. by rewrite E1.
Defined.
