(* ===== verification/OracleErrors.v ===== *)
(** * What the Oracle driver makes of a failure (oracle-thin/src/error.rs)

    The library's error is foreign: [OracleError] gives its kind, by the names
    the source matches on ([Unlisted] stands for every other), and the text it
    prints.  The wording [rustls] has for a name mismatch is a parameter of the
    definition that looks for it. *)

From S2P Require Import Prelude RustStr Number NumberProps Temporal Errors ResultStore Events RustText ServerOutput.
Open Scope Z_scope.

Inductive OraErrorKind :=
| OraDbError | CallTimeoutExceeded | DeadConnection | UnableToRecover | StreamOperation | NotConnected
| InvalidServiceName | InvalidSid | ListenerRefusedConnection | UnexpectedRefuse | InvalidRedirect
| InvalidConnectString | NoConnectString | NoCredentials | NoConfigDir | InvalidNetworkName
| InvalidDescriptorNode | IfileCycleDetected | TnsAliasNotFound | TlsOperation | PemFileOperation
| WalletUnreadable | WalletPrivateKeyInvalid | WalletPasswordMissingOrInvalid | InvalidBindName
| MissingBindValue | WrongNumPositionalBinds | NameHasEmbeddedQuotes
| ColumnTruncated | UnsupportedConversion | InvalidOracleNumber | InvalidEncodedString
| InvalidEncodedVector | InvalidOsonEncodedBytes | OutOfRange | ValueWasNull | DifferentTypes
| IntegerTooLarge | InvalidColumnIndex | InvalidColumnName
| UnsupportedDbType | NotImplemented | ServerVersionNotSupported | UnsupportedArrowType
| UnsupportedOsonNodeType | UnsupportedOsonVersion | UnsupportedVectorFormat | UnsupportedVectorVersion
| UnsupportedDeepDataSecurityFeature | EndUserSecurityContextRequiresTcps
| ParseError | NoDataFound | Unlisted.

Class OracleError := {
  ora_error : Type;
  ora_kind : ora_error -> OraErrorKind;
  ora_to_string : ora_error -> str;
}.

(** The text of a message this driver's errors carry. *)
Definition message_text (m : Message) : str :=
  match m with
  | Text s => s
  | UsedAfterClose handle => handle ++ lit " was used after its connection was closed"
  | _ => []
  end.

Definition with_retryable (e : DbError) (b : bool) : DbError :=
  {| kind := kind e; session_state := session_state e; retryable := b; message := message e;
     native := native e; position := position e; source := source e |}.

(** [str::lines]: each line without its [\n] or [\r\n], the last one only when
    it is not empty. *)
Fixpoint lines_loop (fuel : nat) (s : str) : list str :=
  match fuel, s with
  | S fuel', _ :: _ =>
      let (line, rest) := break_char (Z.eqb NEWLINE) s in
      let line := match rest with
                  | [] => line
                  | _ => match strip_suffix line [13] with Some l => l | None => line end
                  end in
      line :: match rest with [] => [] | _ :: rest => lines_loop fuel' rest end
  | _, _ => []
  end.
Definition lines (s : str) : list str := lines_loop (length s) s.

Definition first_line (message : str) : str := trim_end (match lines message with l :: _ => l | [] => message end).

(** The leading digits as an integer of at most [max]; none, or too large, is
    no number. *)
Definition leading_number (max : Z) (text : str) : option Z :=
  match (break_char (fun c => negb (is_ascii_digit c)) text).1 with
  | [] => None
  | digits =>
      let n := fold_left (fun v d => v * 10 + (d - 48)) digits 0 in
      if n <=? max then Some n else None
  end.

Definition find_code (message prefix : str) : option Z :=
  match break_str prefix message with
  | None => None
  | Some (_, rest) => leading_number (2 ^ 31 - 1) rest
  end.

Definition first_native_code (message : str) : option Z :=
  match find_code message (lit "ORA-") with
  | Some c => Some c
  | None => match find_code message (lit "PLS-") with
            | Some c => Some c
            | None => find_code message (lit "TNS-")
            end
  end.

Definition take_number (text : str) : option Z := leading_number (2 ^ 32 - 1) text.

Definition option_bind {A B} (m : option A) (k : A -> option B) : option B :=
  match m with Some a => k a | None => None end.

(** The position one line of the message gives. *)
Definition line_position (line : str) : option SqlPosition :=
  let line := trim_start line in
  option_bind (match strip_prefix line (lit "ORA-06550:") with
               | Some rest => Some rest
               | None => strip_prefix line (lit "ORA-06553:")
               end) (fun rest =>
  option_bind (strip_prefix (trim_start rest) (lit "line ")) (fun rest =>
  option_bind (take_number rest) (fun number =>
  option_bind (strip_prefix rest (padded 1 number ++ lit ", column ")) (fun rest =>
  option_bind (take_number rest) (fun column =>
  Some (mkPosition None (Some number) (Some column))))))).

Fixpoint find_map {A B} (f : A -> option B) (l : list A) : option B :=
  match l with [] => None | a :: l' => match f a with Some b => Some b | None => find_map f l' end end.

Definition plsql_position (message : str) : option SqlPosition := find_map line_position (lines message).

Definition one_of_codes (l : list Z) (code : Z) : bool := existsb (Z.eqb code) l.
Definition between (a b code : Z) : bool := (a <=? code) && (code <=? b).

Definition classify_code (code : Z) : ErrorKind :=
  if one_of_codes [1017; 1004; 1005; 1045; 9911; 28000; 28001; 28002; 28003; 28008; 28009; 28040] code then Authentication
  else if one_of_codes [1013] code then Cancelled
  else if one_of_codes [28; 1012; 1089; 2396; 3113; 3114; 3135; 12571; 12537; 12547; 12152] code then NetworkLost
  else if one_of_codes [1031; 1749; 1919; 1924; 1950] code then Permission
  else if one_of_codes [1; 1400; 1407] code || between 2270 2279 code || between 2290 2299 code then Constraint
  else if one_of_codes [60; 1002; 1086; 1555; 1591; 2091; 2092; 8177; 8176] code then Transaction
  else if one_of_codes [18; 20; 1000; 1536; 1631; 1632; 1652; 1653; 1654; 1688; 4030; 4031] code then Resource
  else if one_of_codes [932; 1438; 1722; 1830; 1839; 1841; 1847; 1858; 1861; 1866; 6502; 12899] code then DataConversion
  else if between 900 931 code || between 933 999 code ||
          one_of_codes [1747; 1756; 1789; 1790; 6550; 6553; 24344] code then Syntax
  else if between 12000 12999 code then Connection
  else OtherKind.

Definition from_server_message (message : str) : DbError :=
  let code := first_native_code message in
  let kind := match code with Some c => classify_code c | None => OtherKind end in
  let error := error_new kind (Text (first_line message)) in
  let error := match code with Some c => with_native error (mkNative c message) | None => error end in
  let error := match plsql_position message with Some p => with_position error p | None => error end in
  match kind with NetworkLost => with_session_state error Lost | _ => error end.

Section Map.
Context `{OracleError}.

Definition map (error : ora_error) : DbError :=
  let text := Text (ora_to_string error) in
  match ora_kind error with
  | OraDbError => from_server_message (ora_to_string error)
  | CallTimeoutExceeded => error_new Timeout (Text (lit "the call timeout armed for this statement expired"))
  | DeadConnection => error_new NetworkLost (Text (lit "the database or network closed the connection"))
  | UnableToRecover => error_new NetworkLost (Text (lit "the connection could not be recovered and was closed"))
  | StreamOperation => error_new NetworkLost text
  | NotConnected => connection_closed (lit "connection")
  | InvalidServiceName | InvalidSid | ListenerRefusedConnection | UnexpectedRefuse | InvalidRedirect =>
      error_new Connection text
  | InvalidConnectString | NoConnectString | NoCredentials | NoConfigDir | InvalidNetworkName
  | InvalidDescriptorNode | IfileCycleDetected | TnsAliasNotFound | TlsOperation | PemFileOperation
  | WalletUnreadable | WalletPrivateKeyInvalid | WalletPasswordMissingOrInvalid | InvalidBindName
  | MissingBindValue | WrongNumPositionalBinds | NameHasEmbeddedQuotes => error_new Configuration text
  | ColumnTruncated | UnsupportedConversion | InvalidOracleNumber | InvalidEncodedString
  | InvalidEncodedVector | InvalidOsonEncodedBytes | OutOfRange | ValueWasNull | DifferentTypes
  | IntegerTooLarge | InvalidColumnIndex | InvalidColumnName => error_new DataConversion text
  | UnsupportedDbType | NotImplemented | ServerVersionNotSupported | UnsupportedArrowType
  | UnsupportedOsonNodeType | UnsupportedOsonVersion | UnsupportedVectorFormat | UnsupportedVectorVersion
  | UnsupportedDeepDataSecurityFeature | EndUserSecurityContextRequiresTcps => error_new UnsupportedKind text
  | ParseError => error_new Syntax text
  | NoDataFound => error_new OtherKind text
  | Unlisted => error_new DriverInternal text
  end.

Definition connect_timed_out : DbError :=
  error_new Connection (Text (lit "the database could not be reached: the connection attempt timed out in the network layer. The wait was the operating system's own, not a deadline Reldex asked for " ++ [8212] ++
    lit " this driver's connect limit reports itself in as many words when it is what ended the attempt, and the Oracle crate has no connect timeout of any kind (upstream gap U-15)")).

Definition map_connect (error : ora_error) : DbError :=
  let mapped := map error in
  match kind mapped with
  | Timeout => connect_timed_out
  | NetworkLost =>
      let rebuilt := with_retryable (error_new Connection
        (Text (lit "the database could not be reached: " ++ message_text (message mapped)))) (retryable mapped) in
      match native mapped with Some n => with_native rebuilt n | None => rebuilt end
  | _ => mapped
  end.

End Map.

Definition explain_parsed_placeholders (error : DbError) : DbError :=
  match kind error with
  | Configuration =>
      if negb (str_contains (message_text (message error)) (lit "positional bind values are required but 0 were provided"))
      then error
      else with_session_state (error_new UnsupportedKind (Text (
        lit "this statement declares no bind values, but the Oracle crate's SQL parser treated a `:name` in its text as a bind placeholder and then required a value for it. `:NEW` and `:OLD` in a trigger body are the usual cause: the parser applies the same scan to DDL as to DML and offers no way to turn it off. Submitting the same text inside a PL/SQL block works, because a quoted string is skipped: BEGIN EXECUTE IMMEDIATE q'[<the DDL>]'; END;. Upstream reported: " ++
        message_text (message error)))) Usable
  | _ => error
  end.

Definition ORA_SUCCESS_WITH_COMPILATION_ERROR : Z := 24344.

Definition is_compiled_with_errors (error : DbError) : bool :=
  match native error with Some n => code n =? ORA_SUCCESS_WITH_COMPILATION_ERROR | None => false end.

Definition compiled_with_errors (error : DbError) : Warning :=
  mkWarning CompiledWithErrors (Text (lit "the object was created but did not compile cleanly: " ++
    message_text (message error) ++ lit ". Query USER_ERRORS (or ALL_ERRORS) for the details"))
    (native error) None.

Definition lowercase (s : str) : str := List.map to_ascii_lowercase s.

Definition names_a_certificate_name_failure (name_mismatch_markers : list str) (message : str) : bool :=
  existsb (str_contains (lowercase message)) name_mismatch_markers.

Definition explain_name_verification (name_mismatch_markers : list str) (error : DbError) : DbError :=
  let text := message_text (message error) in
  if negb (names_a_certificate_name_failure name_mismatch_markers text) then error
  else
    let rebuilt := error_new (kind error) (Text (text ++
      lit ". The name this driver verifies is the one in the descriptor's HOST, matched against the certificate's subjectAltName " ++ [8212] ++
      lit " not its distinguished name. SSL_SERVER_CERT_DN and SSL_SERVER_DN_MATCH have no influence on it: the Oracle crate underneath parses them, sends them to the server and never applies them (upstream gap U-14). A certificate that identifies the server only by DN, or a HOST its subjectAltName does not list, cannot be accepted by any descriptor setting")) in
    let rebuilt := with_retryable (with_session_state rebuilt (session_state error)) (retryable error) in
    let rebuilt := match native error with Some n => with_native rebuilt n | None => rebuilt end in
    match position error with Some p => with_position rebuilt p | None => rebuilt end.

(** [map_lob_read]: the error arrives as its text. *)
Definition map_lob_read (text : str) : DbError :=
  match first_native_code text with
  | Some _ => from_server_message text
  | None =>
      if str_contains text (lit "the database or network closed the connection")
         || str_contains text (lit "stream operation failed")
         || str_contains text (lit "unable to recover from error") then
        with_session_state (error_new NetworkLost
          (Text (lit "the connection failed while reading a large object: " ++ text))) Lost
      else if str_contains text (lit "not connected to database") then connection_closed (lit "LOB stream")
      else if str_contains text (lit "the configured call timeout was exceeded") then
        error_new Timeout (Text (lit "the call timeout armed for this connection expired while reading a large object"))
      else if str_contains text (lit "invalid encoded string") || str_contains text (lit "invalid utf-16") then
        error_new DataConversion
          (Text (lit "a large object contained text this driver could not decode: " ++ text))
      else internal (Text (lit "reading a large object failed: " ++ text))
  end.

(** ** What the driver's errors guarantee *)


(** ** Numbers in a message *)

(** A number written in decimal is read back. *)
Lemma leading_number_padded max n t :
  0 <= n <= max -> max < 10 ^ 10 -> (forall c, head t = Some c -> is_ascii_digit c = false) ->
  leading_number max (padded 1 n ++ t) = Some n.
Proof.
  intros Hn Hmax Ht. rewrite padded_1. unfold leading_number.
  assert (Hd : Forall (fun c => negb (is_ascii_digit c) = false) (List.map ascii (decimal 10 n))).
  { apply List.Forall_map. eapply List.Forall_impl; [|apply (decimal_digits 10 n); lia].
    intros d Hd. simpl in Hd. unfold is_ascii_digit, ascii. lia. }
  assert (E : break_char (fun c => negb (is_ascii_digit c)) (List.map ascii (decimal 10 n) ++ t) =
    (List.map ascii (decimal 10 n), t)).
  { destruct t as [|c t]; [rewrite app_nil_r; by apply break_char_all|].
    apply break_char_app; [done|]. by rewrite (Ht c eq_refl). }
  rewrite E. cbn [fst]. pose proof (decimal_not_nil 9 n) as Hne.
  assert (V : prefix_value (List.map ascii (decimal 10 n)) = n) by (rewrite prefix_value_dval; apply decimal_value; lia).
  destruct (decimal 10 n) as [|d ds]; [done|]. unfold prefix_value in V. cbn [List.map] in *. rewrite V.
  destruct (n <=? max) eqn:El; [done|]. boolify. lia.
Qed.

(** ** The header of a compile error *)

Definition header (l c : Z) : str := lit "ORA-06550: line " ++ padded 1 l ++ lit ", column " ++ padded 1 c.

Lemma header_position l c tail :
  0 <= l < 2 ^ 32 -> 0 <= c < 2 ^ 32 ->
  line_position (header l c ++ COLON :: tail) = Some (mkPosition None (Some l) (Some c)).
Proof.
  intros Hl Hc. unfold header. rewrite <- !app_assoc. unfold line_position. cbv zeta.
  change (trim_start (lit "ORA-06550: line " ++ ?x)) with (lit "ORA-06550:" ++ lit " line " ++ x).
  rewrite (proj2 (strip_prefix_Some _ _ _) eq_refl). cbn [option_bind].
  change (trim_start (lit " line " ++ ?x)) with (lit "line " ++ x).
  rewrite (proj2 (strip_prefix_Some _ _ _) eq_refl). cbn [option_bind]. unfold take_number.
  rewrite leading_number_padded; [|lia|done|by intros ? [= <-]]. cbn [option_bind].
  rewrite (app_assoc (padded 1 l)), (proj2 (strip_prefix_Some _ _ _) eq_refl). cbn [option_bind].
  rewrite leading_number_padded; [done|lia|done|by intros ? [= <-]].
Qed.

Lemma padded_no_newline n : 0 <= n -> Forall (fun c => (NEWLINE =? c) = false) (padded 1 n).
Proof.
  intros Hn. rewrite padded_1. apply List.Forall_map. eapply List.Forall_impl; [|by apply (decimal_digits 10 n)].
  intros d Hd. simpl in Hd. apply Z.eqb_neq. unfold NEWLINE, ascii. lia.
Qed.

Lemma header_line l c tail rest :
  0 <= l -> 0 <= c -> Forall (fun c => (NEWLINE =? c) = false) tail ->
  exists tail' more, lines (header l c ++ COLON :: tail ++ NEWLINE :: rest) = (header l c ++ COLON :: tail') :: more.
Proof.
  intros Hl Hc Ht. unfold lines. set (m := header l c ++ COLON :: tail ++ NEWLINE :: rest).
  assert (Hm : break_char (Z.eqb NEWLINE) m = (header l c ++ COLON :: tail, NEWLINE :: rest)).
  { unfold m. change (COLON :: tail ++ NEWLINE :: rest) with ((COLON :: tail) ++ NEWLINE :: rest).
    rewrite app_assoc. apply break_char_app; [|done]. unfold header. rewrite !Forall_app.
    split_and!; try (by apply padded_no_newline); repeat constructor; try done. }
  assert (length m = S (length (drop 1 m))) as -> by done. cbn [lines_loop]. rewrite Hm.
  replace (match m with [] => _ | _ :: _ => _ end) with
    ((match strip_suffix (header l c ++ COLON :: tail) [13] with Some l0 => l0 | None => header l c ++ COLON :: tail end)
      :: lines_loop (length (drop 1 m)) rest) by done.
  destruct (strip_suffix _ [13]) as [r|] eqn:E; [|by exists tail; eexists].
  apply strip_suffix_Some in E. destruct tail as [|x t _] using rev_ind.
  { apply app_inj_tail in E as [_ E]. done. }
  rewrite app_comm_cons, app_assoc in E. apply app_inj_tail in E as [<- _]. by exists t; eexists.
Qed.

(** ** The session after a failure *)

Lemma from_server_message_spec m :
  session_state (from_server_message m) = initial_for (kind (from_server_message m)) /\
  retryable (from_server_message m) = false /\
  position (from_server_message m) = plsql_position m /\
  match first_native_code m with
  | Some c => kind (from_server_message m) = classify_code c /\ native (from_server_message m) = Some (mkNative c m)
  | None => kind (from_server_message m) = OtherKind /\ native (from_server_message m) = None
  end.
Proof.
  unfold from_server_message. destruct (first_native_code m) as [c|], (plsql_position m) as [p|]; cbn;
    try destruct (classify_code c) eqn:E; cbn; rewrite ?E; auto.
Qed.

(** A compile error reaches the user where the server put it.  A message
    that starts with the server's header gives the header's line and column, is
    a syntax error of a usable session, and keeps the server's code and its
    whole text; no other text of a message is ever taken for a position. *)
Theorem compile_error_keeps_its_position :
  (forall l c tail rest, 0 <= l < 2 ^ 32 -> 0 <= c < 2 ^ 32 ->
     Forall (fun c => (NEWLINE =? c) = false) tail ->
     let m := header l c ++ COLON :: tail ++ NEWLINE :: rest in
     let e := from_server_message m in
     position e = Some (mkPosition None (Some l) (Some c)) /\ kind e = Syntax /\
     native e = Some (mkNative 6550 m) /\ session_state e = Usable) /\
  (forall m p, position (from_server_message m) = Some p ->
     exists line code w w' l c rest, In line (lines m) /\ (code = lit "ORA-06550:" \/ code = lit "ORA-06553:") /\
       line = w ++ code ++ w' ++ lit "line " ++ padded 1 l ++ lit ", column " ++ rest /\
       p = mkPosition None (Some l) (Some c) /\ take_number rest = Some c /\
       Forall (fun c => is_whitespace c = true) (w ++ w')).
Proof.
  split.
  - intros l c tail rest Hl Hc Ht m e.
    destruct (from_server_message_spec m) as (Hs & _ & Hp & Hn).
    assert (Hcode : first_native_code m = Some 6550).
    { unfold first_native_code, find_code. unfold m, header. by rewrite <- !app_assoc. }
    rewrite Hcode in Hn. destruct Hn as [Hk Hn]. fold e in Hs, Hp, Hk, Hn.
    destruct (header_line l c tail rest) as (t' & more & El); [lia|lia|done|].
    split_and!; [|done|done|by rewrite Hs, Hk]. rewrite Hp. unfold plsql_position. fold m in El. rewrite El.
    cbn [find_map]. by rewrite header_position.
  - intros m p. destruct (from_server_message_spec m) as (_ & _ & -> & _). unfold plsql_position.
    induction (lines m) as [|line ls IH]; [done|]. cbn [find_map].
    destruct (line_position line) as [q|] eqn:E.
    2:{ intros Hp. destruct (IH Hp) as (l' & code & w & w' & l & c & r & Hin & ?).
        exists l', code, w, w', l, c, r. split; [by right|done]. }
    intros [= <-]. unfold line_position in E. destruct (trim_start_spec line) as (w & Hw & Hws).
    assert (Hcode : exists code rest, (code = lit "ORA-06550:" \/ code = lit "ORA-06553:") /\
      trim_start line = code ++ rest /\ (match strip_prefix (trim_start line) (lit "ORA-06550:") with
        | Some rest => Some rest | None => strip_prefix (trim_start line) (lit "ORA-06553:") end) = Some rest).
    { destruct (strip_prefix (trim_start line) (lit "ORA-06550:")) as [r|] eqn:E1.
      - exists (lit "ORA-06550:"), r. apply strip_prefix_Some in E1. auto.
      - destruct (strip_prefix (trim_start line) (lit "ORA-06553:")) as [r|] eqn:E2; [|done].
        exists (lit "ORA-06553:"), r. apply strip_prefix_Some in E2. auto. }
    destruct Hcode as (code & r & Hcode & Hr & Em). rewrite Em in E. cbn [option_bind] in E.
    destruct (trim_start_spec r) as (w' & Hw' & Hws').
    destruct (strip_prefix (trim_start r) (lit "line ")) as [r2|] eqn:E2; [|done].
    apply strip_prefix_Some in E2. cbn [option_bind] in E.
    destruct (take_number r2) as [l|]; [|done]. cbn [option_bind] in E.
    destruct (strip_prefix r2 _) as [r3|] eqn:E3; [|done]. apply strip_prefix_Some in E3. cbn [option_bind] in E.
    destruct (take_number r3) as [c|] eqn:E4; [|done]. injection E as <-.
    exists line, code, w, w', l, c, r3. split; [by left|]. split_and!; try done.
    + rewrite Hw at 1. rewrite Hr, Hw', E2, E3. by rewrite <- !app_assoc.
    + by apply Forall_app.
Qed.

Section claims.
Context `{OracleError}.

Lemma classify_not_timeout c : classify_code c <> Timeout.
Proof. unfold classify_code. repeat case_match; done. Qed.


End claims.

(** ** At concrete messages *)

Lemma compile_error_keeps_its_position_witness :
  let m := header 3 5 ++ COLON :: [13] ++ NEWLINE :: lit "PLS-00201: identifier 'NOSUCH' must be declared" in
  position (from_server_message m) = Some (mkPosition None (Some 3) (Some 5)) /\
  native (from_server_message m) = Some (mkNative 6550 m).
Proof.
  intros m. assert (H3 : 0 <= 3 < 2 ^ 32) by (split; evaluate || lia). assert (H5 : 0 <= 5 < 2 ^ 32) by lia.
  destruct (proj1 compile_error_keeps_its_position 3 5 [13]
    (lit "PLS-00201: identifier 'NOSUCH' must be declared") H3 H5) as (Hp & _ & Hn & _); [by repeat constructor|].
  by split.
Defined.

(** An application's own error text is not a position. *)
Example application_text_is_no_position :
  position (from_server_message (lit "ORA-20001: line 7, column 2 of the input file is malformed")) = None.
Proof. evaluate. Qed.

(** The code that classifies a message is its first ORA- code, even when a
    PLS- code comes before it. *)
Lemma first_code_prefers_ora :
  first_native_code (lit "PLS-00201: identifier must be declared" ++ [NEWLINE] ++ lit "ORA-06550: line 1, column 7:") = Some 6550.
Proof. evaluate. Qed.

#[export] Instance sample_oracle_error : OracleError := {
  ora_error := OraErrorKind * str;
  ora_kind := fst;
  ora_to_string := snd;
}.

