(* ===== verification/OracleTime.v ===== *)
(** * Dates of the Oracle driver (oracle-thin/src/value.rs, binds.rs)

    A timestamp with a zone travels as UTC fields and an offset: the driver
    shifts the civil fields both ways, in the proleptic Gregorian calendar.  The
    library's timestamp is foreign: [OracleTimestamps] gives its constructors
    and accessors, [LawfulTimestamps] that an accessor returns what was built. *)

From S2P Require Import Prelude RustStr Number NumberProps Temporal Errors ResultStore Events.
Open Scope Z_scope.

Class OracleTimestamps := {
  ots : Type;
  new_timestamp_tz : forall year month day hour minute second nanosecond tz_hour tz_minute : Z, ots;
  new_timestamp : forall year month day hour minute second nanosecond : Z, ots;
  ots_year : ots -> Z; ots_month : ots -> Z; ots_day : ots -> Z;
  ots_hour : ots -> Z; ots_minute : ots -> Z; ots_second : ots -> Z;
  nanoseconds : ots -> Z; tz_hour_offset : ots -> Z; tz_minute_offset : ots -> Z;
}.

Definition i16 (x : Z) : option Z := if (- 2 ^ 15 <=? x) && (x <? 2 ^ 15) then Some x else None.
Definition i32 (x : Z) : option Z := if (- 2 ^ 31 <=? x) && (x <? 2 ^ 31) then Some x else None.
Definition u8 (x : Z) : option Z := if (0 <=? x) && (x <? 2 ^ 8) then Some x else None.
Definition i8 (x : Z) : option Z := if (- 2 ^ 7 <=? x) && (x <? 2 ^ 7) then Some x else None.

(** Days since 1970-01-01, and back; [Z.quot] is Rust's division. *)
Definition days_from_civil (year month day : Z) : Z :=
  let y := year - (if month <=? 2 then 1 else 0) in
  let era := Z.quot (if 0 <=? y then y else y - 399) 400 in
  let yoe := y - era * 400 in
  let doy := Z.quot (153 * (month + (if 2 <? month then -3 else 9)) + 2) 5 + day - 1 in
  let doe := yoe * 365 + Z.quot yoe 4 - Z.quot yoe 100 + doy in
  era * 146097 + doe - 719468.

Definition civil_from_days (days : Z) : Z * Z * Z :=
  let z := days + 719468 in
  let era := Z.quot (if 0 <=? z then z else z - 146096) 146097 in
  let doe := z - era * 146097 in
  let yoe := Z.quot (doe - Z.quot doe 1460 + Z.quot doe 36524 - Z.quot doe 146096) 365 in
  let y := yoe + era * 400 in
  let doy := doe - (365 * yoe + Z.quot yoe 4 - Z.quot yoe 100) in
  let mp := Z.quot (5 * doy + 2) 153 in
  let d := doy - Z.quot (153 * mp + 2) 5 + 1 in
  let m := mp + (if mp <? 10 then 3 else -9) in
  (default 0 (i16 (y + (if m <=? 2 then 1 else 0))), default 1 (u8 m), default 1 (u8 d)).

Definition shift_minutes (year month day hour minute minutes : Z) : Z * Z * Z * Z * Z :=
  let total := days_from_civil year month day * 24 * 60 + hour * 60 + minute + minutes in
  let days := total / (24 * 60) in
  let within := total mod (24 * 60) in
  let '(year, month, day) := civil_from_days (default 0 (i32 days)) in
  (year, month, day, default 0 (u8 (Z.quot within 60)), default 0 (u8 (Z.rem within 60))).

Section Timestamps.
Context `{OracleTimestamps}.

Definition to_timestamp (value : ots) (zoned : bool) : result Timestamp TemporalError :=
  if negb zoned then
    result_bind (from_source (ots_year value) (ots_month value) (ots_day value)
                   (ots_hour value) (ots_minute value) (ots_second value)) (fun t =>
    with_nanosecond t (nanoseconds value))
  else
    let minutes := tz_hour_offset value * 60 + tz_minute_offset value in
    let '(year, month, day, hour, minute) :=
      shift_minutes (ots_year value) (ots_month value) (ots_day value) (ots_hour value) (ots_minute value) minutes in
    result_bind (from_source year month day hour minute (ots_second value)) (fun t =>
    result_bind (with_nanosecond t (nanoseconds value)) (fun t =>
    result_bind (zone_offset minutes) (fun z => Ok (with_zone t z)))).

Definition to_oracle_timestamp (value : Timestamp) : ots :=
  match zone value with
  | Offset minutes =>
      let '(year, month, day, hour, minute) :=
        shift_minutes (year value) (month value) (day value) (hour value) (minute value) (- minutes) in
      new_timestamp_tz year month day hour minute (second value) (nanosecond value)
        (default 0 (i8 (Z.quot minutes 60))) (default 0 (i8 (Z.rem minutes 60)))
  | Unspecified =>
      new_timestamp (year value) (month value) (day value) (hour value) (minute value) (second value) (nanosecond value)
  end.

End Timestamps.

(** ** The proleptic Gregorian calendar *)

Definition gregorian_leap (y : Z) : Prop := y mod 4 = 0 /\ (y mod 100 <> 0 \/ y mod 400 = 0).

Definition gregorian_leap_dec (y : Z) : bool := (y mod 4 =? 0) && (negb (y mod 100 =? 0) || (y mod 400 =? 0)).

Definition gregorian_length (y m : Z) : Z :=
  if m =? 2 then (if gregorian_leap_dec y then 29 else 28)
  else if (m =? 4) || (m =? 6) || (m =? 9) || (m =? 11) then 30 else 31.

(** A date of the calendar the shift computes in. *)
Definition civil (y m d : Z) : Prop :=
  - 2 ^ 15 <= y < 2 ^ 15 /\ 1 <= m <= 12 /\ 1 <= d <= gregorian_length y m.

(** ** Lemmas *)

Lemma year_of_era yoe doy :
  0 <= yoe < 400 -> 0 <= doy <= 365 -> (doy = 365 -> gregorian_leap (yoe + 1)) ->
  let doe := yoe * 365 + yoe / 4 - yoe / 100 + doy in
  0 <= doe < 146097 /\ (doe - doe / 1460 + doe / 36524 - doe / 146096) / 365 = yoe.
Proof.
  intros Hy Hd Hl doe. unfold doe; clear doe. unfold gregorian_leap in Hl.
  assert (Hc : yoe / 100 = 0 \/ yoe / 100 = 1 \/ yoe / 100 = 2 \/ yoe / 100 = 3) by (Z.div_mod_to_equations; lia).
  repeat destruct Hc as [Hc|Hc]; rewrite Hc; Z.div_mod_to_equations; lia.
Qed.

Lemma day_of_era doe :
  0 <= doe < 146097 ->
  let yoe := (doe - doe / 1460 + doe / 36524 - doe / 146096) / 365 in
  let doy := doe - (365 * yoe + yoe / 4 - yoe / 100) in
  0 <= yoe < 400 /\ 0 <= doy <= 365 /\ (doy = 365 -> gregorian_leap (yoe + 1)).
Proof.
  intros Hd yoe doy. unfold doy, yoe; clear doy yoe. unfold gregorian_leap.
  assert (Hc : doe / 36524 = 0 \/ doe / 36524 = 1 \/ doe / 36524 = 2 \/ doe / 36524 = 3 \/ doe / 36524 = 4)
    by (Z.div_mod_to_equations; lia).
  repeat destruct Hc as [Hc|Hc]; rewrite Hc; Z.div_mod_to_equations; lia.
Qed.

(** Day of the year counted from March, and the month and day it names. *)
Definition march_month (m : Z) : Z := m + (if 2 <? m then -3 else 9).
Definition day_of_march_year (m d : Z) : Z := (153 * march_month m + 2) / 5 + d - 1.

Lemma month_cases m : 1 <= m <= 12 -> m = 1 \/ m = 2 \/ m = 3 \/ m = 4 \/ m = 5 \/ m = 6 \/ m = 7 \/ m = 8 \/
  m = 9 \/ m = 10 \/ m = 11 \/ m = 12.
Proof. lia. Qed.

Lemma gregorian_leap_spec y : gregorian_leap_dec y = true <-> gregorian_leap y.
Proof. unfold gregorian_leap_dec, gregorian_leap. lia. Qed.

Lemma month_of_day y m d :
  1 <= m <= 12 -> 1 <= d <= gregorian_length y m ->
  let doy := day_of_march_year m d in
  let mp := (5 * doy + 2) / 153 in
  mp = march_month m /\ doy - (153 * mp + 2) / 5 + 1 = d /\ 0 <= doy <= 365 /\
  (doy = 365 -> m = 2 /\ gregorian_leap y).
Proof.
  intros Hm Hd doy mp.
  assert (Hd' : 1 <= d /\ (d <= 28 \/ m = 2 /\ d = 29 /\ gregorian_leap_dec y = true \/ m <> 2 /\ (d <= 30 \/ d = 31 /\ m <> 4 /\ m <> 6 /\ m <> 9 /\ m <> 11))).
  { unfold gregorian_length in Hd. repeat case_match; lia. }
  assert (H4 : mp = march_month m /\ doy - (153 * mp + 2) / 5 + 1 = d /\ 0 <= doy <= 365 /\ (doy = 365 -> m = 2 /\ d = 29)).
  { unfold mp, doy, day_of_march_year, march_month. clear mp doy Hd.
    destruct (2 <? m) eqn:E2; apply month_cases in Hm;
      repeat destruct Hm as [->|Hm]; try subst m; try discriminate; clear E2; Z.div_mod_to_equations; lia. }
  destruct H4 as (? & ? & ? & H4). split_and!; try done; try lia. intros E. destruct (H4 E) as [-> ->].
  split; [done|]. apply gregorian_leap_spec. lia.
Qed.

Lemma day_of_month doy :
  0 <= doy <= 365 ->
  let mp := (5 * doy + 2) / 153 in
  let d := doy - (153 * mp + 2) / 5 + 1 in
  let m := mp + (if mp <? 10 then 3 else -9) in
  1 <= m <= 12 /\ 1 <= d <= 31 /\ day_of_march_year m d = doy /\ (m <=? 2) = negb (mp <? 10) /\
  (forall y, (doy = 365 -> gregorian_leap y) -> d <= gregorian_length y m).
Proof.
  intros Hd mp d m. assert (Hmp : 0 <= mp <= 11) by (unfold mp; Z.div_mod_to_equations; lia).
  assert (E : mp = (5 * doy + 2) / 153) by done. clearbody mp.
  assert (Hm : m = if mp <? 10 then mp + 3 else mp - 9) by (unfold m; destruct (mp <? 10); lia).
  assert (Hd' : 1 <= d <= 31 /\ (mp = 11 -> d <= 29 /\ (d = 29 -> doy = 365)) /\
    (mp = 1 \/ mp = 3 \/ mp = 6 \/ mp = 8 -> d <= 30)).
  { unfold d. clear m Hm d. assert (Hc := month_cases (mp + 1) ltac:(lia)).
    repeat destruct Hc as [Hc|Hc];
      match type of Hc with _ = ?k => let k' := eval vm_compute in (k - 1) in
        assert (E' : mp = k') by lia; clear Hc Hmp; subst mp; rename E' into Hmp; rewrite Hmp in * end;
      Z.div_mod_to_equations; lia. }
  assert (Hmm : march_month m = mp) by (unfold march_month; rewrite Hm; repeat case_match; lia).
  split; [rewrite Hm; case_match; lia|]. split; [apply Hd'|]. split; [unfold day_of_march_year; rewrite Hmm; unfold d; lia|].
  split; [rewrite Hm; case_match; lia|].
  intros y Hy. assert (Hl : doy = 365 -> gregorian_leap_dec y = true) by (intros; by apply gregorian_leap_spec, Hy).
  unfold gregorian_length. rewrite Hm. clearbody d m. repeat case_match; lia.
Qed.

(** Rust's divisions here are floors. *)
Lemma era_floor y k : 0 < k -> Z.quot (if 0 <=? y then y else y - (k - 1)) k = y / k.
Proof.
  intros Hk. destruct (0 <=? y) eqn:E; boolify; [by rewrite Z.quot_div_nonneg by lia|].
  rewrite <- (Z.opp_involutive (y - (k - 1))), Z.quot_opp_l, Z.quot_div_nonneg by lia.
  apply Z.div_unique with (r := k - 1 - (- (y - (k - 1))) mod k); [|pose proof (Z.div_mod (- (y - (k - 1))) k); lia].
  left. pose proof (Z.mod_pos_bound (- (y - (k - 1))) k). lia.
Qed.

Definition march_year (y m : Z) : Z := y - (if m <=? 2 then 1 else 0).
Definition day_of_era_of (y m d : Z) : Z :=
  let y' := march_year y m in
  y' mod 400 * 365 + y' mod 400 / 4 - y' mod 400 / 100 + day_of_march_year m d.

Lemma days_from_civil_eq y m d :
  1 <= m <= 12 -> days_from_civil y m d = march_year y m / 400 * 146097 + day_of_era_of y m d - 719468.
Proof.
  intros Hm. unfold days_from_civil, day_of_era_of, march_year. set (y' := y - _).
  pose proof (era_floor y' 400 eq_refl) as Hq. change (400 - 1) with 399 in Hq. rewrite Hq. replace (y' - y' / 400 * 400) with (y' mod 400) by (rewrite Z.mod_eq; lia).
  pose proof (Z.mod_pos_bound y' 400). unfold day_of_march_year, march_month.
  rewrite !Z.quot_div_nonneg by (repeat case_match; lia). done.
Qed.

Lemma civil_from_days_eq era doe :
  0 <= doe < 146097 ->
  civil_from_days (era * 146097 + doe - 719468) =
    let yoe := (doe - doe / 1460 + doe / 36524 - doe / 146096) / 365 in
    let doy := doe - (365 * yoe + yoe / 4 - yoe / 100) in
    let mp := (5 * doy + 2) / 153 in
    let m := mp + (if mp <? 10 then 3 else -9) in
    (default 0 (i16 (yoe + era * 400 + (if m <=? 2 then 1 else 0))), default 1 (u8 m),
     default 1 (u8 (doy - (153 * mp + 2) / 5 + 1))).
Proof.
  intros Hd. unfold civil_from_days. replace (era * 146097 + doe - 719468 + 719468) with (era * 146097 + doe) by lia.
  pose proof (era_floor (era * 146097 + doe) 146097 eq_refl) as Hq. change (146097 - 1) with 146096 in Hq. rewrite Hq.
  replace ((era * 146097 + doe) / 146097) with era by (rewrite Z.add_comm, Z.div_add, Z.div_small; lia).
  replace (era * 146097 + doe - era * 146097) with doe by lia.
  destruct (day_of_era doe Hd) as (Hy & Hdoy & _).
  rewrite (Z.quot_div_nonneg doe 1460), (Z.quot_div_nonneg doe 36524), (Z.quot_div_nonneg doe 146096) by lia.
  assert (0 <= doe - doe / 1460 + doe / 36524 - doe / 146096) by (Z.div_mod_to_equations; lia).
  rewrite (Z.quot_div_nonneg _ 365) by lia.
  set (yoe := _ / 365) in *. cbv zeta. rewrite !(Z.quot_div_nonneg yoe) by lia.
  set (doy := doe - (365 * yoe + yoe / 4 - yoe / 100)) in *. rewrite (Z.quot_div_nonneg (5 * doy + 2)) by lia.
  set (mp := (5 * doy + 2) / 153). assert (0 <= mp) by (unfold mp; apply Z.div_pos; lia).
  by rewrite (Z.quot_div_nonneg (153 * mp + 2)) by lia.
Qed.

Lemma leap_era era x : gregorian_leap (era * 400 + x) <-> gregorian_leap x.
Proof.
  assert (Hm : forall k q, k * q = 400 -> 0 < k -> (era * 400 + x) mod k = x mod k).
  { intros k q E Hk. rewrite <- E, Z.add_comm. replace (era * (k * q)) with ((era * q) * k) by lia.
    by rewrite Z.mod_add by lia. }
  unfold gregorian_leap. by rewrite (Hm 4 100), (Hm 100 4), (Hm 400 1) by lia.
Qed.

(** A date is its day number. *)
Lemma civil_of_days y m d : civil y m d -> civil_from_days (days_from_civil y m d) = (y, m, d).
Proof.
  intros (Hy & Hm & Hd). rewrite days_from_civil_eq by done. unfold day_of_era_of.
  set (y' := march_year y m). destruct (month_of_day y m d Hm Hd) as (Hmp & Hdd & Hdoy & Hleap).
  pose proof (Z.mod_pos_bound y' 400 ltac:(lia)) as Hyoe.
  assert (Hl : day_of_march_year m d = 365 -> gregorian_leap (y' mod 400 + 1)).
  { intros E. destruct (Hleap E) as [-> Hl]. apply (leap_era (y' / 400)).
    replace (y' / 400 * 400 + (y' mod 400 + 1)) with y; [done|].
    pose proof (Z.div_mod y' 400). unfold y', march_year in *. simpl in *. lia. }
  destruct (year_of_era (y' mod 400) (day_of_march_year m d) Hyoe Hdoy Hl) as [Hdoe Hyr].
  rewrite civil_from_days_eq by done. cbv zeta. rewrite Hyr.
  set (yoe := y' mod 400) in *.
  replace (yoe * 365 + yoe / 4 - yoe / 100 + day_of_march_year m d - (365 * yoe + yoe / 4 - yoe / 100))
    with (day_of_march_year m d) by lia.
  rewrite Hmp in *. rewrite Hdd.
  assert (Em : march_month m + (if march_month m <? 10 then 3 else -9) = m)
    by (unfold march_month; repeat case_match; lia).
  rewrite Em. pose proof (Z.div_mod y' 400) as Hdm. fold yoe in Hdm.
  replace (yoe + y' / 400 * 400 + (if m <=? 2 then 1 else 0)) with y by (unfold y', march_year in *; lia).
  assert (d <= 31) by (unfold gregorian_length in Hd; repeat case_match; lia).
  unfold i16, u8. repeat case_match; try done; exfalso; lia.
Qed.

(** A day number is its date. *)
Lemma days_of_civil z :
  - 10000000 <= z <= 10000000 ->
  exists y m d, civil_from_days z = (y, m, d) /\ civil y m d /\ days_from_civil y m d = z.
Proof.
  intros Hz. set (era := (z + 719468) / 146097). set (doe := (z + 719468) mod 146097).
  pose proof (Z.mod_pos_bound (z + 719468) 146097 ltac:(lia)) as Hdoe. fold doe in Hdoe.
  pose proof (Z.div_mod (z + 719468) 146097 ltac:(lia)) as Hdm. fold doe era in Hdm.
  assert (Hera : - 100 <= era <= 100) by lia. clearbody era doe.
  assert (z = era * 146097 + doe - 719468) as -> by lia.
  rewrite civil_from_days_eq by done. cbv zeta.
  destruct (day_of_era doe Hdoe) as (Hyoe & Hdoy & Hleap).
  set (yoe := (doe - doe / 1460 + doe / 36524 - doe / 146096) / 365) in *.
  set (doy := doe - (365 * yoe + yoe / 4 - yoe / 100)) in *.
  destruct (day_of_month doy Hdoy) as (Hm & Hd & Eday & Esmall & Hlen).
  set (mp := (5 * doy + 2) / 153) in *. set (d := doy - (153 * mp + 2) / 5 + 1) in *.
  set (m := mp + (if mp <? 10 then 3 else -9)) in *.
  set (y := yoe + era * 400 + (if m <=? 2 then 1 else 0)).
  exists y, m, d. assert (Hy : - 2 ^ 15 <= y < 2 ^ 15) by (unfold y; case_match; lia).
  assert (Hyear : march_year y m = era * 400 + yoe) by (unfold march_year, y; lia).
  split; [|split].
  - unfold i16, u8. repeat case_match; try done; exfalso; lia.
  - split; [done|]. split; [done|]. split; [lia|]. apply Hlen. intros E.
    assert (m = 2) as Em by (unfold m, mp; rewrite E; done). unfold y. rewrite Em. simpl.
    replace (yoe + era * 400 + 1) with (era * 400 + (yoe + 1)) by lia. apply leap_era. by apply Hleap.
  - rewrite days_from_civil_eq by done. unfold day_of_era_of. cbv zeta. rewrite Hyear, Eday.
    replace ((era * 400 + yoe) / 400) with era by (Z.div_mod_to_equations; lia).
    replace ((era * 400 + yoe) mod 400) with yoe by (Z.div_mod_to_equations; lia).
    unfold doy. lia.
Qed.

Definition minutes_of (f : Z * Z * Z * Z * Z) : Z :=
  let '(y, m, d, h, mi) := f in days_from_civil y m d * 1440 + h * 60 + mi.

Definition civil_time (f : Z * Z * Z * Z * Z) : Prop :=
  let '(y, m, d, h, mi) := f in civil y m d /\ 0 <= h < 24 /\ 0 <= mi < 60.

Lemma days_bound y m d : - 20000 <= y <= 20000 -> 1 <= m <= 12 -> 1 <= d <= gregorian_length y m ->
  - 9000000 <= days_from_civil y m d <= 9000000.
Proof.
  intros Hy Hm Hd. rewrite days_from_civil_eq by done. unfold day_of_era_of. cbv zeta.
  destruct (month_of_day y m d Hm Hd) as (_ & _ & Hdoy & _). set (y' := march_year y m).
  assert (- 20001 <= y' <= 20000) by (unfold y', march_year; case_match; lia). clearbody y'.
  set (doy := day_of_march_year m d) in *. clearbody doy.
  assert (- 51 <= y' / 400 <= 50) by (Z.div_mod_to_equations; lia).
  pose proof (Z.mod_pos_bound y' 400 ltac:(lia)). set (yoe := y' mod 400) in *. clearbody yoe.
  assert (0 <= yoe / 4 <= 100 /\ 0 <= yoe / 100 <= 4) by (Z.div_mod_to_equations; lia). lia.
Qed.

(** The shift moves the clock by exactly the minutes asked for. *)
Lemma shift_minutes_spec y m d h mi k :
  civil_time (y, m, d, h, mi) -> - 9990000 <= days_from_civil y m d <= 9990000 -> - 1440 <= k <= 1440 ->
  civil_time (shift_minutes y m d h mi k) /\
  minutes_of (shift_minutes y m d h mi k) = minutes_of (y, m, d, h, mi) + k.
Proof.
  intros ((Hy & Hm & Hd) & Hh & Hmi) Hb Hk. unfold shift_minutes.
  set (D := days_from_civil y m d) in *.
  change (24 * 60) with 1440. replace (D * 24 * 60) with (D * 1440) by lia.
  set (total := D * 1440 + h * 60 + mi + k).
  pose proof (Z.div_mod total 1440 ltac:(lia)) as Hdm. pose proof (Z.mod_pos_bound total 1440 ltac:(lia)) as Hw.
  assert (Hdays : - 10000000 <= total / 1440 <= 10000000) by lia.
  destruct (days_of_civil (total / 1440) Hdays) as (y' & m' & d' & E & Hc & Ed).
  unfold i32. destruct ((- 2 ^ 31 <=? total / 1440) && (total / 1440 <? 2 ^ 31)) eqn:Ei; [|exfalso; lia].
  cbn [default from_option id]. rewrite E. set (w := total mod 1440) in *.
  rewrite Z.quot_div_nonneg, Z.rem_mod_nonneg by lia.
  assert (Hq : 0 <= w / 60 < 24 /\ 0 <= w mod 60 < 60 /\ w = 60 * (w / 60) + w mod 60) by (Z.div_mod_to_equations; lia).
  unfold u8. destruct ((0 <=? w / 60) && (w / 60 <? 2 ^ 8)) eqn:E1; [|exfalso; lia].
  destruct ((0 <=? w mod 60) && (w mod 60 <? 2 ^ 8)) eqn:E2; [|exfalso; lia].
  cbn [default from_option id]. unfold civil_time, minutes_of. rewrite Ed. fold D. split; [split; [done|]; lia|]. lia.
Qed.

Lemma minutes_of_inj f g : civil_time f -> civil_time g -> minutes_of f = minutes_of g -> f = g.
Proof.
  destruct f as [[[[y m] d] h] mi], g as [[[[y' m'] d'] h'] mi']. unfold civil_time, minutes_of.
  intros (Hc & ? & ?) (Hc' & ? & ?) E. assert (days_from_civil y m d = days_from_civil y' m' d') as Ed by lia.
  apply (f_equal civil_from_days) in Ed. rewrite !civil_of_days in Ed by done. injection Ed as -> -> ->.
  f_equal; [f_equal|]; lia.
Qed.

(** From the reform year on, the source's calendar is the Gregorian one. *)
Lemma real_date_civil y m d : 1582 <= y -> real_date y m d <-> civil y m d /\ y <= 9999.
Proof.
  intros Hy. assert (Hleap : is_leap_year y = gregorian_leap_dec y).
  { unfold is_leap_year, gregorian_leap_dec, GREGORIAN_REFORM_YEAR. rewrite (proj2 (Z.ltb_ge y 0)) by lia.
    rewrite !Z.rem_mod_nonneg, (proj2 (Z.ltb_ge y 1582)) by lia. by destruct (y mod 4 =? 0). }
  unfold real_date, civil. assert (Hlen : 1 <= m <= 12 -> month_length y m = gregorian_length y m).
  { intros Hm. unfold month_length, gregorian_length. rewrite Hleap. apply month_cases in Hm.
    by repeat destruct Hm as [->|Hm]; try subst m. }
  split.
  - intros (? & ? & Hm & ?). rewrite Hlen in * by done. lia.
  - intros [(? & Hm & ?) ?]. rewrite Hlen by done. lia.
Qed.

(** What an accessor of the library's timestamp returns. *)
Class LawfulTimestamps `{OracleTimestamps} := {
  fields_tz : forall y m d h mi s n th tm, let t := new_timestamp_tz y m d h mi s n th tm in
    (ots_year t, ots_month t, ots_day t, ots_hour t, ots_minute t) = (y, m, d, h, mi) /\
    ots_second t = s /\ nanoseconds t = n /\ tz_hour_offset t = th /\ tz_minute_offset t = tm;
  fields_plain : forall y m d h mi s n, let t := new_timestamp y m d h mi s n in
    (ots_year t, ots_month t, ots_day t, ots_hour t, ots_minute t) = (y, m, d, h, mi) /\
    ots_second t = s /\ nanoseconds t = n;
}.

(** The nine fields, in order. *)
#[export] Instance sample_timestamps : OracleTimestamps := {
  ots := Z * Z * Z * Z * Z * (Z * Z) * (Z * Z);
  new_timestamp_tz y m d h mi s n th tm := (y, m, d, h, mi, (s, n), (th, tm));
  new_timestamp y m d h mi s n := (y, m, d, h, mi, (s, n), (0, 0));
  ots_year t := t.1.1.1.1.1.1; ots_month t := t.1.1.1.1.1.2; ots_day t := t.1.1.1.1.2;
  ots_hour t := t.1.1.1.2; ots_minute t := t.1.1.2; ots_second t := t.1.2.1;
  nanoseconds t := t.1.2.2; tz_hour_offset t := t.2.1; tz_minute_offset t := t.2.2;
}.
#[export] Instance sample_timestamps_lawful : LawfulTimestamps.
Proof. by split. Qed.
