(* ===== verification/OracleTypes.v ===== *)
(** * Types and binds of the Oracle driver (oracle-thin/src/value.rs, binds.rs)

    How a column of each server type is described and decoded, and what is bound
    for a value of the contract.  The server's types are the constants of the
    Oracle library the source names, compared by identity; its number is foreign
    ([OracleNumbers]: what [FromStr] makes of a text).  The transcriptions of
    the library's parser and encoder are the ones in the source's tests. *)

From S2P Require Import Prelude RustStr Number NumberProps Temporal Errors Columns Segment Policy Params OracleTime.
Open Scope Z_scope.

Inductive DbType :=
| DB_TYPE_NUMBER | DB_TYPE_BINARY_FLOAT | DB_TYPE_BINARY_DOUBLE | DB_TYPE_VARCHAR | DB_TYPE_LONG
| DB_TYPE_CHAR | DB_TYPE_NVARCHAR | DB_TYPE_LONG_NVARCHAR | DB_TYPE_NCHAR | DB_TYPE_RAW | DB_TYPE_LONG_RAW
| DB_TYPE_DATE | DB_TYPE_TIMESTAMP | DB_TYPE_TIMESTAMP_TZ | DB_TYPE_TIMESTAMP_LTZ | DB_TYPE_CLOB
| DB_TYPE_NCLOB | DB_TYPE_BLOB | DB_TYPE_BFILE | DB_TYPE_BOOLEAN | DB_TYPE_CURSOR | DB_TYPE_ROWID
| DB_TYPE_UROWID | DB_TYPE_INTERVAL_DS | DB_TYPE_INTERVAL_YM | DB_TYPE_JSON | DB_TYPE_VECTOR
| DB_TYPE_XMLTYPE | DB_TYPE_OBJECT
| DB_TYPE_OTHER (name : str).

Inductive LobKind := Character | NationalCharacter | Binary.

Inductive ColumnPlan :=
| PlanNumber | PlanFloat | PlanDouble | PlanText | PlanBytes | PlanTimestamp | PlanTimestampWithZone
| PlanBoolean | PlanLob (kind : LobKind) | UnsupportedRowid | UnsupportedIntervalDs
| UnsupportedIntervalYm | UnsupportedTimestampLtz | PlanUnsupported.

Definition plan_for (db_type : DbType) : SqlType * ColumnPlan :=
  match db_type with
  | DB_TYPE_NUMBER => (TNumber, PlanNumber)
  | DB_TYPE_BINARY_FLOAT => (TBinaryFloat, PlanFloat)
  | DB_TYPE_BINARY_DOUBLE => (TBinaryDouble, PlanDouble)
  | DB_TYPE_VARCHAR | DB_TYPE_LONG => (TText false false, PlanText)
  | DB_TYPE_CHAR => (TText false true, PlanText)
  | DB_TYPE_NVARCHAR | DB_TYPE_LONG_NVARCHAR => (TText true false, PlanText)
  | DB_TYPE_NCHAR => (TText true true, PlanText)
  | DB_TYPE_RAW | DB_TYPE_LONG_RAW => (TRaw, PlanBytes)
  | DB_TYPE_DATE => (TDate, PlanTimestamp)
  | DB_TYPE_TIMESTAMP => (TTimestamp, PlanTimestamp)
  | DB_TYPE_TIMESTAMP_TZ => (TTimestampWithTimeZone, PlanTimestampWithZone)
  | DB_TYPE_TIMESTAMP_LTZ => (TUnsupported, UnsupportedTimestampLtz)
  | DB_TYPE_CLOB => (TCharacterLob false, PlanLob Character)
  | DB_TYPE_NCLOB => (TCharacterLob true, PlanLob NationalCharacter)
  | DB_TYPE_BLOB => (TBinaryLob, PlanLob Binary)
  | DB_TYPE_BOOLEAN => (TBoolean, PlanBoolean)
  | DB_TYPE_CURSOR => (TCursor, PlanUnsupported)
  | DB_TYPE_ROWID | DB_TYPE_UROWID => (TUnsupported, UnsupportedRowid)
  | DB_TYPE_INTERVAL_DS => (TUnsupported, UnsupportedIntervalDs)
  | DB_TYPE_INTERVAL_YM => (TUnsupported, UnsupportedIntervalYm)
  | _ => (TUnsupported, PlanUnsupported)
  end.

Definition native_type_name (db_type : DbType) : str :=
  match db_type with
  | DB_TYPE_NUMBER => lit "NUMBER" | DB_TYPE_BINARY_FLOAT => lit "BINARY_FLOAT"
  | DB_TYPE_BINARY_DOUBLE => lit "BINARY_DOUBLE" | DB_TYPE_VARCHAR => lit "VARCHAR2"
  | DB_TYPE_NVARCHAR => lit "NVARCHAR2" | DB_TYPE_CHAR => lit "CHAR" | DB_TYPE_NCHAR => lit "NCHAR"
  | DB_TYPE_LONG => lit "LONG" | DB_TYPE_LONG_NVARCHAR => lit "LONG NVARCHAR" | DB_TYPE_RAW => lit "RAW"
  | DB_TYPE_LONG_RAW => lit "LONG RAW" | DB_TYPE_DATE => lit "DATE" | DB_TYPE_TIMESTAMP => lit "TIMESTAMP"
  | DB_TYPE_TIMESTAMP_TZ => lit "TIMESTAMP WITH TIME ZONE"
  | DB_TYPE_TIMESTAMP_LTZ => lit "TIMESTAMP WITH LOCAL TIME ZONE" | DB_TYPE_CLOB => lit "CLOB"
  | DB_TYPE_NCLOB => lit "NCLOB" | DB_TYPE_BLOB => lit "BLOB" | DB_TYPE_BFILE => lit "BFILE"
  | DB_TYPE_BOOLEAN => lit "BOOLEAN" | DB_TYPE_CURSOR => lit "CURSOR" | DB_TYPE_ROWID => lit "ROWID"
  | DB_TYPE_UROWID => lit "UROWID" | DB_TYPE_INTERVAL_DS => lit "INTERVAL DAY TO SECOND"
  | DB_TYPE_INTERVAL_YM => lit "INTERVAL YEAR TO MONTH" | DB_TYPE_JSON => lit "JSON"
  | DB_TYPE_VECTOR => lit "VECTOR" | DB_TYPE_XMLTYPE => lit "XMLTYPE" | DB_TYPE_OBJECT => lit "OBJECT"
  | DB_TYPE_OTHER name => name
  end.

(** What the server's describe says of a column. *)
Record Described := mkDescribed {
  md_name : str; md_type : DbType; md_nullable : bool;
  md_precision : Z; md_scale : Z; md_max_size : Z;
}.

Definition column_metadata (meta : Described) : ColumnMetadata :=
  let '(sql_type, _) := plan_for (md_type meta) in
  let '(precision, scale) :=
    match sql_type with
    | TNumber => (Some (md_precision meta), Some (md_scale meta))
    | TTimestamp | TTimestampWithTimeZone => (Some 0, Some (md_scale meta))
    | _ => (None, None)
    end in
  mkMetadata (md_name meta) sql_type (Some (md_nullable meta)) precision scale
    (if 0 <? md_max_size meta then Some (md_max_size meta) else None)
    (Some (native_type_name (md_type meta))).

(** [Display for SqlType] (db-driver-api/src/types.rs). *)
Definition sql_type_display (t : SqlType) : str :=
  match t with
  | TBoolean => lit "boolean" | TNumber => lit "number" | TBinaryFloat => lit "binary-float"
  | TBinaryDouble => lit "binary-double"
  | TText false false => lit "text" | TText false true => lit "text-fixed"
  | TText true false => lit "ntext" | TText true true => lit "ntext-fixed"
  | TDate => lit "date" | TTimestamp => lit "timestamp" | TTimestampWithTimeZone => lit "timestamp-tz"
  | TRaw => lit "raw" | TCharacterLob false => lit "clob" | TCharacterLob true => lit "nclob"
  | TBinaryLob => lit "blob" | TJson => lit "json" | TCursor => lit "cursor" | TUnsupported => lit "unsupported"
  end.

(** ** Binds *)

Definition MAX_OUT_BIND_BYTES : Z := 4000.

Class OracleNumbers := {
  onum : Type;
  onum_from_str : str -> result onum str;
}.

Definition MAX_BOUND_NUMBER_DIGITS : nat := 40.

Inductive EncoderDefect := ScaledByTen | ReadsPastItsDigitBuffer.

Definition refusal (d : EncoderDefect) (value : Number) : str :=
  match d with
  | ScaledByTen => lit "this driver version cannot bind " ++ display value ++
      lit ": its decimal exponent is odd and negative, and oracledb 26.0.0-beta.3's NUMBER encoder (upstream defect U-1) then writes the base-100 digit pairs one place out, so the server would silently store a value ten times too large. Write it as a literal in the statement text instead"
  | ReadsPastItsDigitBuffer => lit "this driver version cannot bind " ++ display value ++
      lit ": oracledb 26.0.0-beta.3's NUMBER encoder (upstream defect U-2) would read past the end of its 40-digit buffer while encoding it, and the resulting panic aborts the whole process (U-4). Write it as a literal in the statement text instead"
  end.

Definition encoder_defect (digits : nat) (decimal_point_index : Z) : option EncoderDefect :=
  if (digits =? 0)%nat then None
  else
    let odd := decimal_point_index mod 2 =? 1 in
    let prepends_zero := odd && (0 <? decimal_point_index) in
    if (MAX_BOUND_NUMBER_DIGITS <? digits)%nat || (prepends_zero && (MAX_BOUND_NUMBER_DIGITS <=? digits)%nat)
      then Some ReadsPastItsDigitBuffer
    else if odd && negb prepends_zero then Some ScaledByTen
    else None.

Definition upstream_shape (value : Number) : nat * Z :=
  (Nat.max (digit_count value) (Z.to_nat (exponent value)), exponent value).

Definition out_type_of (t : SqlType) : result DbType DbError :=
  match t with
  | TNumber => Ok DB_TYPE_NUMBER
  | TBinaryFloat => Ok DB_TYPE_BINARY_FLOAT
  | TBinaryDouble => Ok DB_TYPE_BINARY_DOUBLE
  | TBoolean => Ok DB_TYPE_BOOLEAN
  | TText true _ => Ok DB_TYPE_NVARCHAR
  | TText false _ | TJson => Ok DB_TYPE_VARCHAR
  | TDate => Ok DB_TYPE_DATE
  | TTimestamp => Ok DB_TYPE_TIMESTAMP
  | TTimestampWithTimeZone => Ok DB_TYPE_TIMESTAMP_TZ
  | TRaw => Ok DB_TYPE_RAW
  | TCharacterLob false => Ok DB_TYPE_CLOB
  | TCharacterLob true => Ok DB_TYPE_NCLOB
  | TBinaryLob => Ok DB_TYPE_BLOB
  | TCursor => Ok DB_TYPE_CURSOR
  | TUnsupported => Err (error_new UnsupportedKind (Text (lit "an output bind of type " ++
      sql_type_display TUnsupported ++ lit " is not supported")))
  end.

Section Binds.
Context `{OracleTimestamps} `{OracleNumbers}.

Inductive OwnedBind :=
| OwnedNull | OwnedText (s : str) | OwnedBytes (bytes : list Z) | OwnedNumber (n : onum)
| OwnedFloat (bits : Z) | OwnedDouble (bits : Z) | OwnedBoolean (b : bool) | OwnedTimestamp (t : ots)
| OwnedOutput (db_type : DbType).

Definition to_oracle_number (value : Number) : result onum DbError :=
  let (digits, decimal_point_index) := upstream_shape value in
  match encoder_defect digits decimal_point_index with
  | Some defect => Err (error_new UnsupportedKind (Text (refusal defect value)))
  | None =>
      match onum_from_str (display value) with
      | Ok n => Ok n
      | Err e => Err (error_new DataConversion (Text (display value ++
          lit " is not a value this database can hold: " ++ e)))
      end
  end.

Definition from_bind_value (value : BindValue) : result OwnedBind DbError :=
  match value with
  | BindNull => Ok OwnedNull
  | BindBoolean b => Ok (OwnedBoolean b)
  | BindNumber n => result_bind (to_oracle_number n) (fun n => Ok (OwnedNumber n))
  | BindFloat bits => Ok (OwnedFloat bits)
  | BindDouble bits => Ok (OwnedDouble bits)
  | BindText s | BindJson s => Ok (OwnedText s)
  | BindBytes bytes => Ok (OwnedBytes bytes)
  | BindTimestamp t => Ok (OwnedTimestamp (to_oracle_timestamp t))
  end.

Definition out_bind_type (spec : OutBindSpec) : result DbType DbError :=
  match out_max_size_bytes spec with
  | Some requested =>
      if MAX_OUT_BIND_BYTES <? requested then
        Err (error_new UnsupportedKind (Text (lit "an output bind of " ++ padded 1 requested ++
          lit " bytes was requested, but this driver cannot size an output placeholder above 4000 bytes")))
      else out_type_of (out_sql_type spec)
  | None => out_type_of (out_sql_type spec)
  end.

Definition to_owned_bind (bind : Bind) : result OwnedBind DbError :=
  match bind with
  | BindIn value | BindInOut value _ => from_bind_value value
  | BindOut spec => result_bind (out_bind_type spec) (fun t => Ok (OwnedOutput t))
  end.

End Binds.

(** ** The library's parser and encoder, as the source transcribes them *)

Record ParserState := mkParser {
  p_digits : nat; p_zeros : nat; p_point : bool; p_index : Z; p_first : bool;
}.

Definition parser_step (st : ParserState) (ch : char) : option ParserState :=
  if p_first st && ((ch =? MINUS) || (ch =? PLUS)) then
    Some (mkParser (p_digits st) (p_zeros st) (p_point st) (p_index st) false)
  else if (ch =? DOT) && negb (p_point st) then
    if (0 <? p_digits st)%nat then
      let digits := (p_digits st + p_zeros st)%nat in
      Some (mkParser digits 0 true (Z.of_nat digits) false)
    else Some (mkParser (p_digits st) 0 true (p_index st) false)
  else if negb (is_ascii_digit ch) then None
  else if ch =? 48 then Some (mkParser (p_digits st) (p_zeros st + 1) (p_point st) (p_index st) false)
  else if (0 <? p_digits st)%nat then
    if (MAX_BOUND_NUMBER_DIGITS <? p_digits st + p_zeros st + 1)%nat then None
    else Some (mkParser (p_digits st + p_zeros st + 1) 0 (p_point st) (p_index st) false)
  else Some (mkParser 1 0 (p_point st) (if p_point st then - Z.of_nat (p_zeros st) else p_index st) false).

Definition parser_run (st : ParserState) (text : str) : option ParserState :=
  fold_left (fun st ch => match st with Some st => parser_step st ch | None => None end) text (Some st).

Definition from_str_shape (text : str) : option (nat * Z) :=
  match parser_run (mkParser 0 0 false 0 true) text with
  | None => None
  | Some st =>
      if (p_digits st =? 0)%nat && (p_zeros st =? 0)%nat then None
      else if (p_digits st =? 0)%nat then Some (p_digits st, 0)
      else if negb (p_point st) then
        let digits := (p_digits st + p_zeros st)%nat in Some (digits, Z.of_nat digits)
      else Some (p_digits st, p_index st)
  end.

(** The loop over the pairs: the position and the highest index read. *)
Fixpoint probe_pairs (pairs : nat) (first prepend_zero : bool) (position highest : nat) : nat :=
  match pairs with
  | O => highest
  | S pairs' =>
      let highest := Nat.max highest position in
      if first && prepend_zero then probe_pairs pairs' false prepend_zero (position + 1) highest
      else probe_pairs pairs' false prepend_zero (position + 2) (Nat.max highest (position + 1))
  end.

Definition to_buf_probe (num_digits : nat) (decimal_point_index : Z) : option nat * bool :=
  if (num_digits =? 0)%nat then (None, false)
  else
    let prepend_zero := Z.rem decimal_point_index 2 =? 1 in
    let digits := if prepend_zero then (num_digits + 1)%nat else num_digits in
    let digits := if Nat.odd digits then (digits + 1)%nat else digits in
    (Some (probe_pairs (digits / 2) true prepend_zero 0 0), prepend_zero).

(** ** Lemmas *)

Lemma probe_pairs_rest k position highest prepend :
  (highest <= position)%nat ->
  probe_pairs k false prepend position highest =
    match k with O => highest | S k' => (position + 2 * k' + 1)%nat end.
Proof.
  revert position highest. induction k as [|k IH]; intros position highest Hh; [done|].
  cbn [probe_pairs andb]. rewrite IH by lia. destruct k; lia.
Qed.

Lemma probe_pairs_all k prepend :
  (0 < k)%nat -> probe_pairs k true prepend 0 0 = (2 * k - (if prepend then 2 else 1))%nat.
Proof.
  intros Hk. destruct k as [|k]; [lia|]. cbn [probe_pairs]. destruct prepend; cbn [andb];
    rewrite probe_pairs_rest by lia; destruct k; lia.
Qed.

Lemma parity n : n = (2 * (n / 2) + (if Nat.odd n then 1 else 0))%nat.
Proof.
  rewrite (Nat.div_mod n 2) at 1 by lia. f_equal. rewrite <- Nat.bit0_mod, Nat.bit0_odd. by destruct (Nat.odd n).
Qed.

(** The highest index the encoder reads. *)
Lemma to_buf_probe_spec n d :
  (0 < n)%nat ->
  to_buf_probe n d =
    let prepend := Z.rem d 2 =? 1 in
    (Some (if prepend then (if Nat.odd n then n - 1 else n) else (if Nat.odd n then n else n - 1))%nat, prepend).
Proof.
  intros Hn. unfold to_buf_probe. rewrite (proj2 (Nat.eqb_neq n 0)) by lia. cbv zeta.
  set (m := if Z.rem d 2 =? 1 then (n + 1)%nat else n).
  set (k := ((if Nat.odd m then m + 1 else m) / 2)%nat).
  assert (Hk : (2 * k)%nat = if Nat.odd m then (m + 1)%nat else m).
  { pose proof (parity (if Nat.odd m then m + 1 else m)%nat) as Hp. fold k in Hp. revert Hp.
    destruct (Nat.odd m) eqn:E; rewrite ?Nat.add_1_r, ?Nat.odd_succ, <- ?Nat.negb_odd, ?E; cbn [negb]; lia. }
  assert (Hodd : Nat.odd (n + 1) = negb (Nat.odd n)) by (rewrite Nat.add_1_r, Nat.odd_succ; by rewrite Nat.negb_odd).
  rewrite probe_pairs_all by (unfold m in *; repeat case_match; lia). do 2 f_equal. unfold m in Hk.
  destruct (Z.rem d 2 =? 1); [rewrite Hodd in Hk|]; destruct (Nat.odd n); cbn [negb] in Hk; lia.
Qed.

(** The encoder's two ways to fail, for every shape it can be given. *)
Lemma encoder_defect_exact n d :
  let '(highest, prepends) := to_buf_probe n d in
  let out_of_bounds := match highest with Some h => (MAX_BOUND_NUMBER_DIGITS <=? h)%nat | None => false end in
  let mis_encodes := (0 <? n)%nat && negb (bool_decide ((d mod 2 =? 1) = prepends)) in
  encoder_defect n d =
    if out_of_bounds then Some ReadsPastItsDigitBuffer else if mis_encodes then Some ScaledByTen else None.
Proof.
  destruct (Nat.eq_dec n 0%nat) as [->|Hn]; [done|]. rewrite to_buf_probe_spec by lia. cbv zeta.
  assert (Hp : (Z.rem d 2 =? 1) = (d mod 2 =? 1) && (0 <? d)).
  { destruct (Z.le_gt_cases 0 d) as [Hd|Hd].
    - rewrite Z.rem_mod_nonneg by lia. destruct (0 <? d) eqn:E; [by rewrite andb_true_r|].
      assert (d = 0) as -> by (boolify; lia). done.
    - rewrite (proj2 (Z.ltb_ge 0 d)), andb_false_r by lia. apply Z.eqb_neq.
      pose proof (Z.rem_nonpos d 2 ltac:(lia) ltac:(lia)). lia. }
  rewrite Hp. unfold encoder_defect, MAX_BOUND_NUMBER_DIGITS. rewrite (proj2 (Nat.eqb_neq n 0)) by lia.
  rewrite (proj2 (Nat.ltb_lt 0 n)) by lia. cbv zeta.
  assert (Hpar := parity n). destruct (d mod 2 =? 1), (0 <? d), (Nat.odd n); cbn [andb negb orb];
    rewrite ?bool_decide_eq_true_2, ?bool_decide_eq_false_2 by done; cbn [negb];
    repeat case_match; boolify; try done; exfalso; lia.
Qed.

(** *** The parser's walk of a displayed number *)

Lemma parser_run_app st a b :
  parser_run st (a ++ b) = match parser_run st a with Some st' => parser_run st' b | None => None end.
Proof.
  unfold parser_run. rewrite fold_left_app. destruct (fold_left _ a (Some st)); [done|].
  by induction b as [|c b IH].
Qed.

Lemma parser_run_cons st c s :
  parser_run st (c :: s) = match parser_step st c with Some st' => parser_run st' s | None => None end.
Proof. apply (parser_run_app st [c] s). Qed.

Lemma parser_step_digit k z pt ix f d :
  0 <= d <= 9 ->
  parser_step (mkParser k z pt ix f) (ascii d) =
    if d =? 0 then Some (mkParser k (z + 1) pt ix false)
    else if (0 <? k)%nat then
      if (MAX_BOUND_NUMBER_DIGITS <? k + z + 1)%nat then None else Some (mkParser (k + z + 1) 0 pt ix false)
    else Some (mkParser 1 0 pt (if pt then - Z.of_nat z else ix) false).
Proof.
  intros Hd. unfold parser_step, ascii. cbn [p_digits p_zeros p_point p_index p_first].
  replace ((48 + d =? MINUS) || (48 + d =? PLUS)) with false by (unfold MINUS, PLUS; lia).
  replace (48 + d =? DOT) with false by (unfold DOT; lia).
  replace (is_ascii_digit (48 + d)) with true by (unfold is_ascii_digit; lia).
  replace (48 + d =? 48) with (d =? 0) by lia. by rewrite andb_false_r.
Qed.

(** Digits after the first significant one. *)
Lemma parser_run_digits ds : forall k z pt ix,
  Forall nines ds -> (0 < k)%nat -> (k + z + length ds <= MAX_BOUND_NUMBER_DIGITS)%nat ->
  exists k' z', parser_run (mkParser k z pt ix false) (map ascii ds) = Some (mkParser k' z' pt ix false) /\
    (0 < k')%nat /\ (k' + z' = k + z + length ds)%nat /\ (forall d ds', ds = ds' ++ [d] -> d <> 0 -> z' = 0%nat).
Proof.
  induction ds as [|d ds IH]; intros k z pt ix Hd Hk Hl.
  { exists k, z. split_and!; [done|done|simpl; lia|]. by intros ? [|]. }
  apply Forall_cons in Hd as [Hd Hds]. cbn [map length] in *. rewrite parser_run_cons, parser_step_digit by done.
  assert (Hlast : forall k' z', (ds = [] -> z' = 0%nat \/ d = 0) ->
    (forall d0 ds', ds = ds' ++ [d0] -> d0 <> 0 -> z' = 0%nat) ->
    (0 < k')%nat -> forall d0 ds', d :: ds = ds' ++ [d0] -> d0 <> 0 -> z' = 0%nat).
  { intros k' z' H0 H1 _ d0 [|x ds'] E Hne; simplify_eq/=; [|by eapply H1]. destruct (H0 eq_refl); [done|congruence]. }
  destruct (d =? 0) eqn:E0; boolify.
  - destruct (IH k (z + 1)%nat pt ix Hds Hk ltac:(lia)) as (k' & z' & E & Hk' & Hs & Hz).
    exists k', z'. split_and!; [done|done|lia|]. apply (Hlast k'); auto.
  - rewrite (proj2 (Nat.ltb_lt 0 k)) by done.
    destruct (_ <? k + z + 1)%nat eqn:E1; boolify; [lia|].
    destruct (IH (k + z + 1)%nat 0%nat pt ix Hds ltac:(lia) ltac:(lia)) as (k' & z' & E & Hk' & Hs & Hz).
    exists k', z'. split_and!; [done|done|lia|]. apply (Hlast k'); auto.
    intros ->. cbn in E. injection E as <- <-. by left.
Qed.

Lemma parser_run_zeros n k z pt ix f :
  parser_run (mkParser k z pt ix f) (map ascii (replicate n 0)) =
    Some (mkParser k (z + n) pt ix (match n with O => f | _ => false end)).
Proof.
  revert z f. induction n as [|n IH]; intros z f; [by rewrite Nat.add_0_r|].
  cbn [replicate map]. rewrite parser_run_cons, parser_step_digit by lia. cbn [Z.eqb]. rewrite IH.
  replace (z + 1 + n)%nat with (z + S n)%nat by lia. by destruct n.
Qed.

(** A canonical run from its first digit. *)
Lemma parser_run_canonical ds z pt ix f :
  canonical ds -> (length ds <= MAX_BOUND_NUMBER_DIGITS)%nat ->
  parser_run (mkParser 0 z pt ix f) (map ascii ds) =
    Some (mkParser (length ds) 0 pt (if pt then - Z.of_nat z else ix) false).
Proof.
  intros [Hd (d & ds' & E & Hne) (l & r & El & Hl)] Hlen. rewrite E in Hd, Hlen. apply Forall_cons in Hd as [Hd Hds].
  rewrite E. cbn [map]. rewrite parser_run_cons, parser_step_digit by done.
  rewrite (proj2 (Z.eqb_neq d 0)) by done. cbn [Nat.ltb Nat.leb length] in *.
  destruct (parser_run_digits ds' 1 0 pt (if pt then - Z.of_nat z else ix) Hds ltac:(lia) ltac:(lia))
    as (k' & z' & Er & Hk' & Hs & Hz). rewrite Er. f_equal.
  assert (z' = 0%nat) as ->; [|f_equal; lia]. subst ds.
  destruct r as [|x r]; simplify_eq/=; [|by eapply Hz].
  cbn in Er. injection Er as <- <-. done.
Qed.

Lemma first_irrelevant k z pt ix d s :
  0 <= d <= 9 ->
  parser_run (mkParser k z pt ix true) (ascii d :: s) = parser_run (mkParser k z pt ix false) (ascii d :: s).
Proof. intros Hd. by rewrite !parser_run_cons, !parser_step_digit. Qed.

(** The sign is skipped. *)
Lemma parser_run_sign neg d s :
  0 <= d <= 9 ->
  parser_run (mkParser 0 0 false 0 true) ((if neg : bool then [MINUS] else []) ++ ascii d :: s) =
    parser_run (mkParser 0 0 false 0 false) (ascii d :: s).
Proof. intros Hd. destruct neg; [done|]. by apply first_irrelevant. Qed.

Lemma parser_step_dot k z pt ix :
  pt = false ->
  parser_step (mkParser k z pt ix false) DOT =
    Some (if (0 <? k)%nat then mkParser (k + z) 0 true (Z.of_nat (k + z)) false else mkParser k 0 true ix false).
Proof. intros ->. unfold parser_step. cbn. by destruct k. Qed.

(** A canonical run with a point inside. *)
Lemma parser_run_split ds k :
  canonical ds -> (length ds <= 40)%nat -> (0 < k < length ds)%nat ->
  parser_run (mkParser 0 0 false 0 false) (map ascii (take k ds) ++ [DOT] ++ map ascii (drop k ds)) =
    Some (mkParser (length ds) 0 true (Z.of_nat k) false).
Proof.
  intros Hc Hl Hk. pose proof (canonical_digits _ Hc) as Hd.
  destruct (canonical_head _ Hc) as (d0 & ds' & Eds & Hne0). destruct (canonical_last _ Hc) as (dl & dr & El & Hnl).
  assert (Hd0 : 0 <= d0 <= 9 /\ Forall nines ds') by (rewrite Eds in Hd; by apply Forall_cons in Hd).
  assert (Et : take k ds = d0 :: take (k - 1) ds').
  { rewrite Eds; destruct k as [|k']; [lia|]; cbn [take]; by rewrite Nat.sub_succ, Nat.sub_0_r. }
  assert (Hlt : length (take (k - 1) ds') = (k - 1)%nat).
  { assert (length (take k ds) = k) as H by (rewrite length_take; lia). rewrite Et in H. cbn [length] in H. lia. }
  rewrite parser_run_app, Et. cbn [map]. rewrite parser_run_cons, parser_step_digit by apply Hd0.
  rewrite (proj2 (Z.eqb_neq d0 0)) by done. cbn [Nat.ltb Nat.leb].
  destruct (parser_run_digits (take (k - 1) ds') 1 0 false 0 (Forall_take _ _ _ (proj2 Hd0)) ltac:(lia)
    ltac:(rewrite Hlt; unfold MAX_BOUND_NUMBER_DIGITS; lia)) as (k1 & z1 & -> & Hk1 & Hs1 & _).
  cbn [app]. rewrite parser_run_cons, parser_step_dot by done. rewrite (proj2 (Nat.ltb_lt 0 k1)) by done.
  rewrite Hlt in Hs1. replace (k1 + z1)%nat with k by lia.
  destruct (parser_run_digits (drop k ds) k 0 true (Z.of_nat k) (Forall_drop _ _ _ Hd) ltac:(lia)
    ltac:(rewrite length_drop; unfold MAX_BOUND_NUMBER_DIGITS; lia)) as (k2 & z2 & -> & _ & Hs2 & Hz2).
  rewrite length_drop in Hs2. assert (z2 = 0%nat) as ->; [|f_equal; f_equal; lia].
  destruct (drop k ds) as [|x xs] eqn:Ex using rev_ind.
  - apply (f_equal length) in Ex. rewrite length_drop in Ex. simpl in Ex. lia.
  - eapply Hz2; [done|]. rewrite <- (take_drop k ds), Ex, app_assoc in El. by apply app_inj_tail in El as [_ ->].
Qed.

(** The closed form of the shape is the parser's, for every number. *)
Lemma upstream_shape_is_the_parsers n :
  number_ok n -> from_str_shape (display n) = Some (upstream_shape n).
Proof.
  intros [|neg ds e Hc Hl He]; [done|].
  unfold upstream_shape, display, digit_count. rewrite digits_make. cbn [len exponent negative make].
  pose proof (canonical_length _ Hc) as Hpos. unfold MAX_SIGNIFICANT_DIGITS in Hl.
  rewrite (proj2 (Nat.eqb_neq _ _)) by lia. cbv zeta.
  pose proof (canonical_digits _ Hc) as Hd. destruct (canonical_head _ Hc) as (d0 & ds' & Eds & Hne0).
  assert (Hd0 : 0 <= d0 <= 9) by (rewrite Eds in Hd; by apply Forall_cons in Hd as [? _]).
  unfold from_str_shape. destruct (_ <=? e) eqn:E1; boolify; [|destruct (0 <? e) eqn:E2; boolify].
  - assert (Hrun : parser_run (mkParser 0 0 false 0 true) ((if neg then [MINUS] else []) ++ map ascii ds ++ zeros (e - Z.of_nat (length ds)))
      = Some (mkParser (length ds) (Z.to_nat (e - Z.of_nat (length ds))) false 0 false)).
    { rewrite Eds at 1. cbn [map app]. rewrite parser_run_sign by done.
      change (ascii d0 :: map ascii ds' ++ ?x) with (map ascii (d0 :: ds') ++ x). rewrite <- Eds, parser_run_app.
      rewrite (parser_run_canonical ds 0 false 0 false) by done. rewrite zeros_ascii, parser_run_zeros.
      f_equal. f_equal. by destruct (Z.to_nat _). }
    rewrite Hrun. cbn [p_digits p_zeros p_point p_index negb]. rewrite (proj2 (Nat.eqb_neq _ _)) by lia.
    cbn [andb]. f_equal. f_equal; lia.
  - set (k := Z.to_nat e). assert (Hk : (0 < k < length ds)%nat) by lia.
    assert (Et : take k ds = d0 :: take (k - 1) ds').
    { rewrite Eds; destruct k as [|k']; [lia|]; cbn [take]; by rewrite Nat.sub_succ, Nat.sub_0_r. }
    assert (Hrun := parser_run_split ds k Hc Hl Hk). rewrite Et in *. cbn [map app] in *.
    rewrite parser_run_sign, Hrun by done. cbn [p_digits p_zeros p_point p_index negb].
    rewrite (proj2 (Nat.eqb_neq _ _)) by lia. cbn [andb]. f_equal. f_equal; lia.
  - assert (Hrun : parser_run (mkParser 0 0 false 0 true) ((if neg then [MINUS] else []) ++ [48; DOT] ++ zeros (- e) ++ map ascii ds)
      = Some (mkParser (length ds) 0 true e false)).
    { change ([48; DOT] ++ ?x) with (ascii 0 :: DOT :: x). rewrite parser_run_sign by lia.
      rewrite parser_run_cons, parser_step_digit by lia. cbn [Z.eqb]. rewrite parser_run_cons, parser_step_dot by done.
      cbn [Nat.ltb Nat.leb]. rewrite zeros_ascii, parser_run_app, parser_run_zeros, parser_run_canonical by done.
      f_equal. f_equal. lia. }
    rewrite Hrun. cbn [p_digits p_zeros p_point p_index negb]. rewrite (proj2 (Nat.eqb_neq _ _)) by lia.
    cbn [andb]. f_equal. f_equal; lia.
Qed.

(** ** What the driver's values guarantee *)


Definition is_zoned (t : Timestamp) : bool := match zone t with Offset _ => true | Unspecified => false end.

Definition local_fields (t : Timestamp) : Z * Z * Z * Z * Z := (year t, month t, day t, hour t, minute t).

Lemma from_source_ok t :
  timestamp_ok t ->
  result_bind (from_source (year t) (month t) (day t) (hour t) (minute t) (second t)) (fun s =>
    with_nanosecond s (nanosecond t)) =
  Ok (with_zone t Unspecified).
Proof.
  intros [Hd Ht _ Hn _]. destruct (from_source_spec (year t) (month t) (day t) (hour t) (minute t) (second t))
    as [(-> & _)|[_ Hno]]; [destruct Hd; lia| |by destruct Hno].
  cbn [result_bind]. unfold with_nanosecond. destruct (1000000000 <=? nanosecond t) eqn:E; boolify; [lia|done].
Qed.

Lemma local_civil t : timestamp_ok t -> 1582 <= year t -> civil_time (local_fields t).
Proof.
  intros [Hd Ht Hu _ _] Hy. unfold civil_time, local_fields, real_time in *.
  split; [by apply real_date_civil|]. lia.
Qed.

Section claims.
Context `{LT : LawfulTimestamps}.

Notation utc_fields t := (ots_year t, ots_month t, ots_day t, ots_hour t, ots_minute t).


End claims.

Section numbers.
Context `{OracleNumbers}.

(** C34: exactly the numbers the library would mis-send are refused.  The shape
    the driver computes of a number is the one the library's parser finds in
    its text; the number is refused when, and only when, the library's encoder
    would read past its buffer or write its digit pairs one place out, and
    every other number is sent as its exact text. *)
Theorem refused_numbers_are_those_upstream_breaks (n : Number) :
  number_ok n ->
  from_str_shape (display n) = Some (upstream_shape n) /\
  let (digits, index) := upstream_shape n in
  let (highest, prepends) := to_buf_probe digits index in
  let out_of_bounds := exists h, highest = Some h /\ (MAX_BOUND_NUMBER_DIGITS <= h)%nat in
  let mis_encodes := (0 < digits)%nat /\ (index mod 2 =? 1) <> prepends in
  match encoder_defect digits index with
  | Some defect =>
      to_oracle_number n = Err (error_new UnsupportedKind (Text (refusal defect n))) /\ (out_of_bounds \/ mis_encodes)
  | None =>
      ~ out_of_bounds /\ ~ mis_encodes /\
      forall x, onum_from_str (display n) = Ok x -> to_oracle_number n = Ok x
  end.
Proof.
  intros Hn. split; [by apply upstream_shape_is_the_parsers|].
  unfold to_oracle_number. destruct (upstream_shape n) as [digits index].
  pose proof (encoder_defect_exact digits index) as He.
  destruct (to_buf_probe digits index) as [highest prepends]. cbv zeta.
  set (oob := match highest with Some h => _ | None => false end) in He.
  assert (Ho : oob = true <-> exists h, highest = Some h /\ (MAX_BOUND_NUMBER_DIGITS <= h)%nat).
  { unfold oob. destruct highest as [h|]; [|naive_solver]. rewrite Nat.leb_le. naive_solver. }
  assert (Hm : (0 <? digits)%nat && negb (bool_decide ((index mod 2 =? 1) = prepends)) = true <->
    (0 < digits)%nat /\ (index mod 2 =? 1) <> prepends).
  { by rewrite andb_true_iff, Nat.ltb_lt, negb_true_iff, bool_decide_eq_false. }
  rewrite He. destruct oob; [split; [done|left; by apply Ho]|].
  destruct (_ && _); [split; [done|right; by apply Hm]|].
  split_and!; [by rewrite <- Ho|by rewrite <- Hm|]. by intros x ->.
Qed.

End numbers.

(** ** At concrete values *)

Definition sample_instant : Timestamp := mkTimestamp 2026 9 19 2 30 15 125 (Offset 330).


Lemma canonical_3_14 : canonical [3; 1; 4].
Proof. split; [repeat constructor; lia|by exists 3, [1; 4]|by exists 4, [3; 1]]. Qed.

#[export] Instance sample_numbers : OracleNumbers := { onum := str; onum_from_str s := Ok s }.

Lemma refused_numbers_are_those_upstream_breaks_witness :
  exists n, number_ok n /\ to_oracle_number n = Err (error_new UnsupportedKind (Text (refusal ScaledByTen n))).
Proof.
  exists (make false [3; 1; 4] (-1)).
  assert (Hn : number_ok (make false [3; 1; 4] (-1)))
    by (constructor; [exact canonical_3_14|cbn; unfold MAX_SIGNIFICANT_DIGITS; lia|unfold MIN_EXPONENT, MAX_EXPONENT; lia]).
  split; [exact Hn|]. pose proof (refused_numbers_are_those_upstream_breaks _ Hn) as [_ Hr].
  change (upstream_shape (make false [3; 1; 4] (-1))) with (3%nat, -1) in Hr. cbv beta iota zeta in Hr.
  destruct (to_buf_probe 3 (-1)) as [h p]. change (encoder_defect 3 (-1)) with (Some ScaledByTen) in Hr.
  exact (proj1 Hr).
Defined.

(** A Julian leap day with a zone is sent as the day after, even at offset
    zero, though no shift crosses the calendar's gap. *)
Lemma julian_leap_day_is_sent_as_the_next_day :
  let t := mkTimestamp 1500 2 29 12 0 0 0 (Offset 0) in
  from_source 1500 2 29 12 0 0 = Ok (with_zone t Unspecified) /\
  to_timestamp (to_oracle_timestamp t) true = Ok (mkTimestamp 1500 3 1 12 0 0 0 (Offset 0)).
Proof. split; evaluate. Qed.

(** A zone that takes an instant back over the start of the era fails the
    fetch: the shift counts a year zero the calendar does not have. *)
Lemma shift_into_year_zero_fails :
  to_timestamp (new_timestamp_tz 1 1 1 0 30 0 0 (-1) 0) true = Err YearOutOfRange.
Proof. evaluate. Qed.
