(* ===== verification/LobStream.v ===== *)
(** * Streaming large objects (oracle-thin/src/lob.rs)

    A stream serves chunks out of a staging buffer that it refills from the
    Oracle library's reader.  The library is the class [OracleLob]: one read of
    a locator into a buffer of some bytes, and the text of its failure.
    [LawfulLob] is what its documentation says of a read: it delivers the next
    bytes of the object, a character object in whole characters, and a request
    that ended inside a surrogate pair succeeds with one unit less. *)

From S2P Require Import Prelude RustStr Temporal Errors Segment ResultStore Events RustText ServerOutput OracleErrors OracleTypes.
Open Scope Z_scope.

Definition STAGING_BYTES : Z := 64 * 1024.
Definition MIN_STAGING_BYTES : Z := 64.

Definition is_character (k : LobKind) : bool :=
  match k with Character | NationalCharacter => true | Binary => false end.

(** Whether a failed read is the split-character failure, by its text. *)
Definition is_split_character (error : str) : bool :=
  str_contains error (lit "invalid encoded string") || str_contains error (lit "invalid utf-16").

Class OracleLob := {
  Lob : Type;
  (** [Read::read] into a buffer of [limit] bytes: the bytes it wrote, or the
      text of its error. *)
  lob_read : Lob -> Z -> result (list Z) str * Lob;
  get_size : Lob -> option Z;
}.

Section Stream.
Context {L : OracleLob}.

(** The connection's closed flag, which the streams share, is an argument of
    the read. *)
Record OracleLobStream := mkStream {
  lob : Lob;
  lob_kind : LobKind;
  lob_connection : Z;
  size_hint : option Z;
  staging : list Z;
  filled : nat;
  position : nat;
  exhausted : bool;
  failed : bool;
}.

Definition stream_new (l : Lob) (k : LobKind) (connection : Z) : OracleLobStream :=
  mkStream l k connection (match k with Binary => get_size l | _ => None end) [] 0 0 false false.

(** [refill]'s loop: a read of at most [limit] bytes into the staging buffer. *)
Fixpoint refill_loop (fuel : nat) (limit : Z) (s : OracleLobStream) : run (result unit DbError * OracleLobStream) :=
  match fuel with
  | O => OutOfFuel
  | S fuel' =>
      let '(r, l) := lob_read (lob s) limit in
      let s' := mkStream l (lob_kind s) (lob_connection s) (size_hint s) in
      match r with
      | Ok [] => Ret (Ok tt, s' (staging s) 0%nat 0%nat true (failed s))
      | Ok bytes =>
          Ret (Ok tt, s' (bytes ++ drop (length bytes) (staging s)) (length bytes) 0%nat (exhausted s) (failed s))
      | Err error =>
          if is_split_character error && (MIN_STAGING_BYTES <? limit)
            then refill_loop fuel' (limit - 3) (s' (staging s) 0%nat 0%nat (exhausted s) (failed s))
          else Ret (Err (map_lob_read error), s' (staging s) 0%nat 0%nat (exhausted s) true)
      end
  end.

Definition refill (s : OracleLobStream) : run (result unit DbError * OracleLobStream) :=
  let buffer := match staging s with [] => replicate (Z.to_nat STAGING_BYTES) 0 | b => b end in
  refill_loop (S (length buffer)) (Z.of_nat (length buffer))
    (mkStream (lob s) (lob_kind s) (lob_connection s) (size_hint s) buffer 0 0 (exhausted s) (failed s)).

(** [copyable]: back off to a boundary of the UTF-8 text. *)
Fixpoint back_off (available : list Z) (take : nat) : nat :=
  match take with
  | O => O
  | S t => if Z.land (available !!! take) 0xC0 =? 0x80 then back_off available t else take
  end.

Definition copyable (k : LobKind) (available : list Z) (max : nat) : nat :=
  let take := Nat.min (length available) max in
  if negb (is_character k) || (take =? length available)%nat then take else back_off available take.

Definition too_small : DbError :=
  error_new DataConversion (Text (lit "chunk buffer is too small to hold one character")).

Definition after_a_failure : DbError :=
  internal (Text (lit "LOB stream read after a failure; the only legal action was to drop it")).

(** The copy out of the staging buffer: what is written to the caller's buffer. *)
Definition copy_chunk (buf : nat) (s : OracleLobStream) : result (list Z) DbError * OracleLobStream :=
  let available := drop (position s) (take (filled s) (staging s)) in
  let n := copyable (lob_kind s) available buf in
  if (n =? 0)%nat then (Err too_small, s)
  else (Ok (take n available),
        mkStream (lob s) (lob_kind s) (lob_connection s) (size_hint s) (staging s) (filled s)
          (position s + n) (exhausted s) (failed s)).

Definition read_chunk (closed : bool) (buf : nat) (s : OracleLobStream)
  : run (result (list Z) DbError * OracleLobStream) :=
  if closed then Ret (Err (connection_closed (lit "LOB stream")), s)
  else if failed s then Ret (Err after_a_failure, s)
  else if (buf =? 0)%nat then Ret (Ok [], s)
  else if (position s =? filled s)%nat then
    if exhausted s then Ret (Ok [], s)
    else
      let! (r, s) := refill s in
      match r with
      | Err e => Ret (Err e, s)
      | Ok _ => if (filled s =? 0)%nat then Ret (Ok [], s) else Ret (copy_chunk buf s)
      end
  else Ret (copy_chunk buf s).

(** A reader of the stream: chunks of these sizes, until it fails or ends. *)
Fixpoint read_chunks (sizes : list nat) (s : OracleLobStream)
  : run (list (list Z) * option DbError * OracleLobStream) :=
  match sizes with
  | [] => Ret ([], None, s)
  | n :: sizes =>
      let! (r, s) := read_chunk false n s in
      match r with
      | Err e => Ret ([], Some e, s)
      | Ok [] => Ret ([], None, s)
      | Ok chunk => let! (chunks, e, s) := read_chunks sizes s in Ret (chunk :: chunks, e, s)
      end
  end.

End Stream.

(** ** The library's contract *)

(** Whole characters of UTF-8. *)
Definition whole (bytes : list Z) : Prop := exists s, is_text s /\ bytes = as_bytes s.

Class LawfulLob (L : OracleLob) := {
  (** What a locator has still to deliver, and whether it is a character one. *)
  lob_rest : Lob -> list Z;
  lob_is_text : Lob -> Prop;
  lob_read_ok : forall l limit bytes l', 0 < limit -> lob_read l limit = (Ok bytes, l') ->
    lob_rest l = bytes ++ lob_rest l' /\ Z.of_nat (length bytes) <= limit /\ (bytes = [] -> lob_rest l = []) /\
    (lob_is_text l -> whole bytes /\ lob_is_text l');
  lob_read_err : forall l limit e l', lob_read l limit = (Err e, l') ->
    lob_rest l' = lob_rest l /\ (lob_is_text l -> lob_is_text l');
  lob_read_shorter : forall l limit e l', 6 <= limit -> lob_read l limit = (Err e, l') -> is_split_character e = true ->
    forall e' l'', lob_read l' (limit - 3) = (Err e', l'') -> is_split_character e' = false;
}.

(** ** What a stream guarantees *)


(** ** Character boundaries *)

Definition continuation (b : Z) : bool := Z.land b 0xC0 =? 0x80.

Lemma continuation_range b : 0 <= b < 256 -> continuation b = (0x80 <=? b) && (b <? 0xC0).
Proof.
  intros Hb. assert (H : forallb (fun n => Bool.eqb (continuation (Z.of_nat n)) ((0x80 <=? Z.of_nat n) && (Z.of_nat n <? 0xC0))) (seq 0 256) = true) by evaluate.
  rewrite forallb_forall in H. specialize (H (Z.to_nat b)). rewrite Z2Nat.id in H by lia.
  apply Bool.eqb_prop, H. apply in_seq. lia.
Qed.

(** A character's bytes: one that starts it, at most three that continue it. *)
Lemma encode_utf8_shape c :
  is_scalar c = true -> exists b bs, encode_utf8 c = b :: bs /\ continuation b = false /\
    Forall (fun b => continuation b = true) bs /\ (length bs <= 3)%nat.
Proof.
  intros Hc. assert (H0 : 0 <= c < 0x110000).
  { unfold is_scalar in Hc. apply orb_true_iff in Hc as [?|?]; boolify; lia. }
  assert (Hlow : forall x, continuation (Z.lor 0x80 (Z.land x 0x3F)) = true).
  { intros x. rewrite low6_of, continuation_range; pose proof (Z.mod_pos_bound x 64); [|lia].
    apply andb_true_iff. split; [apply Z.leb_le|apply Z.ltb_lt]; lia. }
  unfold encode_utf8.
  destruct (c <? 0x80) eqn:E1; [|destruct (c <? 0x800) eqn:E2; [|destruct (c <? 0x10000) eqn:E3]]; boolify.
  { exists c, []. split_and!; [done| |by constructor|simpl; lia].
    rewrite continuation_range by lia. by rewrite (proj2 (Z.leb_gt _ _)) by lia. }
  all: rewrite !shift_div by lia; eexists _, _; split_and!; [done| |repeat (constructor; [apply Hlow|]); constructor|simpl; lia].
  all: match goal with |- continuation (Z.lor ?a ?x) = _ =>
    assert (Z.lor a x = a + x) as -> by (first [apply (lor_high 6 5 x) | apply (lor_high 14 4 x) | apply (lor_high 30 3 x)]; Z.div_mod_to_equations; lia) end.
  all: rewrite continuation_range by (Z.div_mod_to_equations; lia); apply andb_false_iff; right; apply Z.ltb_ge; Z.div_mod_to_equations; lia.
Qed.

Lemma whole_nil : whole [].
Proof. exists []. split; [constructor|done]. Qed.

Lemma whole_cons c s : is_scalar c = true -> is_text s -> whole (encode_utf8 c ++ as_bytes s).
Proof. intros Hc Hs. exists (c :: s). split; [by constructor|done]. Qed.

Lemma whole_app a b : whole a -> whole b -> whole (a ++ b).
Proof.
  intros (s & Hs & ->) (t & Ht & ->). exists (s ++ t). split; [by apply Forall_app|].
  clear. induction s as [|c s IH]; [done|]. cbn [app as_bytes]. by rewrite <- app_assoc, IH.
Qed.

(** Whole characters split where the next byte starts one. *)
Lemma whole_split bytes n :
  whole bytes -> (n < length bytes)%nat -> continuation (bytes !!! n) = false ->
  whole (take n bytes) /\ whole (drop n bytes).
Proof.
  intros (s & Hs & ->). revert n. induction Hs as [|c s Hc Hs IH]; intros n Hn Hb; [simpl in Hn; lia|].
  cbn [as_bytes] in *. destruct (encode_utf8_shape c Hc) as (b & bs & E & _ & Hbs & _).
  destruct (Nat.lt_ge_cases n (length (encode_utf8 c))) as [Hlt|Hge].
  - destruct n as [|n]; [split; [apply whole_nil|by apply whole_cons]|].
    exfalso. rewrite lookup_total_app_l, E in Hb by done. rewrite E in Hlt. change (continuation (bs !!! n) = false) in Hb.
    rewrite Forall_lookup_total in Hbs. rewrite (Hbs n) in Hb; [done|simpl in Hlt; lia].
  - rewrite length_app in Hn. rewrite lookup_total_app_r in Hb by done.
    destruct (IH (n - length (encode_utf8 c))%nat ltac:(lia) Hb) as [(t & Ht & Ht') H2].
    rewrite take_app_ge, drop_app_ge, Ht' by done. split; [by apply whole_cons|done].
Qed.

(** One of any four bytes in a row starts a character. *)
Lemma whole_boundary bytes n :
  whole bytes -> (n < length bytes)%nat ->
  exists k, (k <= n <= k + 3)%nat /\ continuation (bytes !!! k) = false.
Proof.
  intros (s & Hs & ->). revert n. induction Hs as [|c s Hc Hs IH]; intros n Hn; [simpl in Hn; lia|].
  cbn [as_bytes] in *. destruct (encode_utf8_shape c Hc) as (b & bs & E & Hb & _ & Hl).
  destruct (Nat.lt_ge_cases n (length (encode_utf8 c))) as [Hlt|Hge].
  - exists 0%nat. rewrite E in *. simpl in Hlt. split; [lia|done].
  - rewrite length_app in Hn. destruct (IH (n - length (encode_utf8 c))%nat ltac:(lia)) as (k & Hk & Hb').
    exists (length (encode_utf8 c) + k)%nat. split; [lia|].
    rewrite lookup_total_app_r by lia. by replace (_ + k - _)%nat with k by lia.
Qed.

Lemma back_off_spec available n :
  (back_off available n <= n)%nat /\
  (back_off available n = 0%nat \/ continuation (available !!! back_off available n) = false) /\
  (forall k, (k <= n)%nat -> continuation (available !!! k) = false -> (k <= back_off available n)%nat).
Proof.
  induction n as [|n (IH1 & IH2 & IH3)]; cbn [back_off]; [split_and!; [done|by left|lia]|].
  fold (continuation (available !!! S n)). destruct (continuation (available !!! S n)) eqn:E.
  - split_and!; [lia|done|]. intros k Hk Hc. apply IH3; [|done]. destruct (decide (k = S n)) as [->|]; [congruence|lia].
  - split_and!; [done|by right|lia].
Qed.

Lemma copyable_spec k available buf :
  (is_character k = true -> whole available /\ (4 <= buf)%nat) -> (0 < buf)%nat -> available <> [] ->
  let n := copyable k available buf in
  (0 < n <= length available)%nat /\ (n <= buf)%nat /\
  (is_character k = true -> whole (take n available) /\ whole (drop n available)).
Proof.
  intros Hk Hbuf Ha. unfold copyable. assert (0 < length available)%nat by (destruct available; [done|simpl; lia]).
  destruct (is_character k) eqn:E; cbn [negb orb]; [|split_and!; [lia..|done]].
  destruct (Hk eq_refl) as [Hw H4]. destruct (Nat.eqb_spec (length available `min` buf) (length available)) as [Em|Em].
  - rewrite Em, take_ge, drop_ge by lia. split_and!; [lia..|]. split; [done|apply whole_nil].
  - assert (Hm : (length available `min` buf = buf)%nat) by lia. rewrite Hm in *.
    destruct (back_off_spec available buf) as (B1 & B2 & B3).
    destruct (whole_boundary available buf Hw ltac:(lia)) as (j & Hj & Hc). specialize (B3 j ltac:(lia) Hc).
    split_and!; [lia..|]. intros _. destruct B2 as [B2|B2]; [lia|]. apply whole_split; [done|lia|done].
Qed.

(** ** The stream *)

Section Reading.
Context {L : OracleLob} {LL : LawfulLob L}.

Definition buffered (s : OracleLobStream) : list Z := drop (position s) (take (filled s) (staging s)).

(** What the stream has still to deliver. *)
Definition unread (s : OracleLobStream) : list Z := buffered s ++ lob_rest (lob s).

Record stream_ok (k : LobKind) (s : OracleLobStream) : Prop := {
  so_kind : lob_kind s = k;
  so_failed : failed s = false;
  so_buffer : staging s = [] \/ length (staging s) = Z.to_nat STAGING_BYTES;
  so_position : (position s <= filled s <= length (staging s))%nat;
  so_end : exhausted s = true -> lob_rest (lob s) = [];
  so_text : is_character k = true -> lob_is_text (lob s) /\ whole (buffered s);
}.

(** A failure of the library that is not a split character. *)
Definition library_failure (e : DbError) : Prop :=
  exists l limit text l', lob_read l limit = (Err text, l') /\ is_split_character text = false /\ e = map_lob_read text.

Lemma refill_loop_spec k fuel limit s :
  stream_ok k s -> filled s = 0%nat -> length (staging s) = Z.to_nat STAGING_BYTES ->
  0 < limit <= Z.of_nat fuel -> limit <= STAGING_BYTES ->
  (MIN_STAGING_BYTES < limit \/ exists l e, lob_read l (limit + 3) = (Err e, lob s) /\ is_split_character e = true /\ 3 <= limit) ->
  wp (refill_loop fuel limit s) (fun '(r, s') => unread s' = unread s /\
    match r with
    | Ok _ => stream_ok k s' /\ position s' = 0%nat /\ (filled s' = 0%nat -> unread s' = [])
    | Err e => failed s' = true /\ library_failure e
    end).
Proof.
  revert limit s. induction fuel as [|fuel IH]; intros limit s Hs Hf Hb Hl Hm Hp; [lia|]. cbn [refill_loop].
  assert (Hp0 : position s = 0%nat) by (destruct Hs; lia).
  assert (Hu : buffered s = []) by (unfold buffered; by rewrite Hf, take_0, drop_nil).
  destruct (lob_read (lob s) limit) as [[bytes|error] l] eqn:E.
  - destruct (lob_read_ok _ _ _ _ (proj1 Hl) E) as (Hr & Hn & He & Ht). unfold unread. rewrite Hu.
    destruct bytes as [|b bs]; cbn [wp].
    + unfold buffered. cbn [position filled staging lob]. rewrite take_0, drop_nil, Hr. split; [done|]. split_and!; [|done|intros _; by rewrite <- Hr, He].
      destruct Hs as [S1 S2 S3 S4 S5 S6]. split; cbn; try done; [lia|intros _; by rewrite <- (app_nil_l (lob_rest l)), <- Hr, He|].
      intros Hk. destruct (Ht (proj1 (S6 Hk))). split; [done|]. apply whole_nil.
    + set (bytes := b :: bs) in *. unfold buffered. cbn [position filled staging lob].
      rewrite take_app_length, drop_0, Hr. split; [done|].
      assert (Hlen : (length bytes <= length (staging s))%nat) by (rewrite Hb; lia).
      split_and!; [|done|done]. destruct Hs as [S1 S2 S3 S4 S5 S6].
      split; cbn [lob_kind failed staging position filled exhausted lob]; try done.
      * right. rewrite length_app, length_drop. lia.
      * rewrite length_app. lia.
      * intros Hx. specialize (S5 Hx). rewrite S5 in Hr. done.
      * intros Hk. destruct (Ht (proj1 (S6 Hk))) as [Hw Hl']. split; [done|].
        unfold buffered. cbn [position filled staging]. by rewrite take_app_length, drop_0.
  - destruct (lob_read_err _ _ _ _ E) as [Hr Ht].
    destruct (is_split_character error && (MIN_STAGING_BYTES <? limit)) eqn:Es.
    + apply andb_true_iff in Es as [Es Hlim]. apply Z.ltb_lt in Hlim.
      eapply wp_mono; [apply IH|].
      * destruct Hs as [S1 S2 S3 S4 S5 S6]. split; cbn; try done; [lia|intros Hx; rewrite Hr; auto|].
        intros Hk. split; [apply Ht, S6, Hk|]. apply whole_nil.
      * done.
      * done.
      * unfold MIN_STAGING_BYTES in Hlim. lia.
      * lia.
      * right. exists (lob s), error. cbn [lob]. replace (limit - 3 + 3) with limit by lia. unfold MIN_STAGING_BYTES in Hlim. split_and!; [done|done|lia].
      * intros [r s'] [H1 H2]. split; [|done]. rewrite H1. unfold unread. rewrite Hu. cbn [lob]. rewrite Hr. done.
    + cbn [wp]. split.
      { unfold unread. rewrite Hu. unfold buffered. cbn [position filled staging lob]. by rewrite take_0, drop_nil, Hr. }
      split; [done|]. exists (lob s), limit, error, l. split_and!; [done| |done].
      destruct (is_split_character error) eqn:Esp; [|done]. cbn [andb] in Es. apply Z.ltb_ge in Es.
      destruct Hp as [Hp|(l0 & e0 & E0 & Es0 & H3)]; [lia|].
      rewrite <- Esp. eapply lob_read_shorter; [|exact E0|done|]; [lia|].
      replace (limit + 3 - 3) with limit by lia. exact E.
Qed.

Lemma copy_chunk_spec k buf s :
  stream_ok k s -> (is_character k = true -> (4 <= buf)%nat) -> (0 < buf)%nat -> (position s < filled s)%nat ->
  exists chunk s', copy_chunk buf s = (Ok chunk, s') /\ stream_ok k s' /\ unread s = chunk ++ unread s' /\
    chunk <> [] /\ (length chunk <= buf)%nat /\ (is_character k = true -> whole chunk).
Proof.
  intros [S1 S2 S3 S4 S5 S6] Hbuf Hpos Hp. unfold copy_chunk. fold (buffered s).
  assert (Ha : length (buffered s) = (filled s - position s)%nat).
  { unfold buffered. rewrite length_drop, length_take. lia. }
  destruct (copyable_spec (lob_kind s) (buffered s) buf) as (H1 & H2 & H3).
  { intros Hk. rewrite S1 in Hk. split; [by apply S6|by apply Hbuf]. }
  { done. }
  { intros E. rewrite E in Ha. simpl in Ha. lia. }
  set (n := copyable (lob_kind s) (buffered s) buf) in *.
  destruct (Nat.eqb_spec n 0); [lia|]. 
  set (s' := mkStream (lob s) (lob_kind s) (lob_connection s) (size_hint s) (staging s) (filled s)
    (position s + n) (exhausted s) (failed s)).
  assert (Hb' : buffered s' = drop n (buffered s)) by (unfold buffered; cbn; by rewrite drop_drop).
  exists (take n (buffered s)), s'. split; [reflexivity|].
  split_and!.
  - split; try done; [cbn; lia|]. intros Hk. rewrite Hb'. split; [by apply S6|]. apply H3. by rewrite S1.
  - unfold unread. rewrite Hb'. cbn [lob s']. by rewrite app_assoc, take_drop.
  - intros E. apply (f_equal length) in E. rewrite length_take in E. simpl in E. lia.
  - rewrite length_take. lia.
  - intros Hk. apply H3. by rewrite S1.
Qed.

Lemma read_chunk_spec k buf s :
  stream_ok k s -> (is_character k = true -> (4 <= buf)%nat) -> (0 < buf)%nat ->
  wp (read_chunk false buf s) (fun '(r, s') =>
    match r with
    | Ok chunk => stream_ok k s' /\ unread s = chunk ++ unread s' /\ (length chunk <= buf)%nat /\
        (is_character k = true -> whole chunk) /\ (chunk = [] -> unread s = [])
    | Err e => failed s' = true /\ unread s' = unread s /\ library_failure e
    end).
Proof.
  intros Hs Hbuf Hpos. unfold read_chunk. rewrite (so_failed _ _ Hs), (proj2 (Nat.eqb_neq _ _)) by lia.
  assert (Hcopy : forall s', stream_ok k s' -> unread s' = unread s -> (position s' < filled s')%nat ->
    wp (Ret (copy_chunk buf s')) (fun '(r, s') => match r with
      | Ok chunk => stream_ok k s' /\ unread s = chunk ++ unread s' /\ (length chunk <= buf)%nat /\
          (is_character k = true -> whole chunk) /\ (chunk = [] -> unread s = [])
      | Err e => failed s' = true /\ unread s' = unread s /\ library_failure e end)).
  { intros s' Hs' Hu Hp. destruct (copy_chunk_spec k buf s' Hs' Hbuf Hpos Hp) as (chunk & s'' & E & H1 & H2 & H3 & H4 & H5).
    cbn [wp]. rewrite E, <- Hu. done. }
  destruct (Nat.eqb_spec (position s) (filled s)) as [Ep|Ep].
  2:{ apply Hcopy; [done..|]. pose proof (so_position _ _ Hs). lia. }
  assert (Hb : buffered s = []).
  { unfold buffered. apply drop_ge. rewrite length_take. lia. }
  destruct (exhausted s) eqn:Ex.
  { cbn [wp]. assert (unread s = []) as Hu by (unfold unread; rewrite Hb; by apply (so_end _ _ Hs)).
    split_and!; [done|done|simpl; lia|intros _; apply whole_nil|done]. }
  unfold refill. set (s0 := mkStream _ _ _ _ _ _ _ _ _).
  assert (Hlen : length (staging s0) = Z.to_nat STAGING_BYTES).
  { unfold s0. cbn [staging]. destruct (so_buffer _ _ Hs) as [->|H]; [apply length_replicate|].
    destruct (staging s); [done|exact H]. }
  assert (Hs0 : stream_ok k s0).
  { pose proof Hs as [S1 S2 S3 S4 S5 S6]. split; try done; [by right|unfold s0; cbn; lia|].
    intros Hk. split; [by apply S6|]. unfold buffered, s0. cbn. apply whole_nil. }
  assert (Hu0 : unread s0 = unread s) by (unfold unread; rewrite Hb; unfold buffered, s0; cbn; done).
  change (match staging s with [] => _ | _ => _ end) with (staging s0). rewrite Hlen.
  assert (Hsize : Z.of_nat (Z.to_nat STAGING_BYTES) = STAGING_BYTES) by (by apply Z2Nat.id).
  assert (Hfuel : 0 < Z.of_nat (Z.to_nat STAGING_BYTES) <= Z.of_nat (S (Z.to_nat STAGING_BYTES))).
  { rewrite Nat2Z.inj_succ, Hsize. unfold STAGING_BYTES. lia. }
  assert (Hmost : Z.of_nat (Z.to_nat STAGING_BYTES) <= STAGING_BYTES) by lia.
  assert (Hmin : MIN_STAGING_BYTES < Z.of_nat (Z.to_nat STAGING_BYTES)) by (rewrite Hsize; done).
  eapply wp_bind; [exact (refill_loop_spec k _ _ s0 Hs0 eq_refl Hlen Hfuel Hmost (or_introl Hmin))|].
  intros [[[]|e] s'] [Hu Hr]; cbn [wp].
  - destruct Hr as (Hs' & Hp & H0). destruct (Nat.eqb_spec (filled s') 0) as [E0|E0].
    + cbn [wp]. rewrite <- Hu0, <- Hu, (H0 E0). split_and!; [done|done|simpl; lia|intros _; apply whole_nil|done].
    + apply Hcopy; [done|congruence|lia].
  - destruct Hr as [H1 H2]. rewrite <- Hu0. split; [exact H1|split; [exact Hu|exact H2]].
Qed.
Lemma read_after_failure s n : failed s = true -> read_chunk false n s = Ret (Err after_a_failure, s).
Proof. intros H. unfold read_chunk. by rewrite H. Qed.

Lemma read_chunks_spec k sizes s :
  stream_ok k s -> Forall (fun n => if is_character k then 4 <= n else 1 <= n)%nat sizes ->
  wp (read_chunks sizes s) (fun '(chunks, e, s') =>
    unread s = concat chunks ++ unread s' /\
    Forall2 (fun chunk n => chunk <> [] /\ (length chunk <= n)%nat) chunks (take (length chunks) sizes) /\
    (is_character k = true -> Forall whole chunks) /\
    match e with
    | None => (length chunks < length sizes)%nat -> unread s = concat chunks
    | Some e => failed s' = true /\ library_failure e
    end).
Proof.
  intros Hs Hn. revert s Hs. induction Hn as [|n sizes Hn _ IH]; intros s Hs; cbn [read_chunks].
  { cbn. split_and!; [done|constructor|constructor|lia]. }
  assert (Hbuf : (is_character k = true -> (4 <= n)%nat) /\ (0 < n)%nat) by (destruct (is_character k); split; intros; lia).
  eapply wp_bind; [apply (read_chunk_spec k n s Hs); apply Hbuf|].
  intros [[chunk|e] s'] Hr; cbn [wp].
  2:{ destruct Hr as (H1 & H2 & H3). rewrite H2. split_and!; [done|constructor|constructor|exact H1|exact H3]. }
  destruct Hr as (Hs' & Hu & Hl & Hw & He). destruct chunk as [|b bs].
  { cbn [wp]. rewrite (He eq_refl) in *. split_and!; [exact Hu|constructor|constructor|done]. }
  eapply wp_bind; [apply (IH s' Hs')|]. intros [[chunks e] s''] (H1 & H2 & H3 & H4). cbn [wp concat length take].
  rewrite <- app_assoc, <- H1. split_and!; [exact Hu|by constructor| |].
  - intros Hk. constructor; auto.
  - destruct e; [exact H4|]. intros Hlen. rewrite Hu, H4; [done|]. simpl in Hlen. lia.
Qed.

(** C12: a large object arrives whole, in order and in readable pieces.  Reading
    a fresh stream with buffers of any sizes (at least four bytes for text)
    gives the object's bytes in order, in chunks that fit their buffers and, for
    text, never cut a character; an empty chunk means the end.  The stream fails
    only when the library does for another reason than a surrogate pair cut by
    the request, and after a failure reads nothing more. *)
Theorem lob_chunks_are_the_object l k c sizes
  (kind : is_character k = true -> lob_is_text l)
  (room : Forall (fun n => if is_character k then 4 <= n else 1 <= n)%nat sizes) :
  exists chunks e s, read_chunks sizes (stream_new l k c) = Ret (chunks, e, s) /\
    lob_rest l = concat chunks ++ unread s /\
    Forall2 (fun chunk n => chunk <> [] /\ (length chunk <= n)%nat) chunks (take (length chunks) sizes) /\
    (is_character k = true -> Forall whole chunks) /\
    match e with
    | None => (length chunks < length sizes)%nat -> lob_rest l = concat chunks
    | Some e => library_failure e /\ forall n, read_chunk false n s = Ret (Err after_a_failure, s)
    end.
Proof.
  assert (Hs : stream_ok k (stream_new l k c)).
  { split; cbn; try done; [by left|]. intros Hk. split; [auto|apply whole_nil]. }
  destruct (wp_elim _ _ (read_chunks_spec k sizes _ Hs room)) as ([[chunks e] s] & E & H1 & H2 & H3 & H4).
  exists chunks, e, s. split; [exact E|]. split; [exact H1|]. split; [exact H2|]. split; [exact H3|].
  destruct e; [|exact H4]. destruct H4 as [H4 H5]. split; [exact H5|]. intros n. by apply read_after_failure.
Qed.

End Reading.

(** ** A library to evaluate the stream on

    A character locator is the text it has still to deliver.  A request for
    [limit] bytes is one for a third as many UCS-2 units. *)

Definition units (c : char) : nat := if c <? 0x10000 then 1 else 2.

Fixpoint take_units (n : nat) (s : str) : option (str * str) :=
  match s with
  | [] => Some ([], [])
  | c :: s' =>
      if (n =? 0)%nat then Some ([], s)
      else if (n <? units c)%nat then None
      else match take_units (n - units c) s' with Some (a, b) => Some (c :: a, b) | None => None end
  end.

Definition requested (limit : Z) : nat := Z.to_nat (Z.max 1 (limit / 3)).

#[export] Instance sample_lobs : OracleLob := {|
  Lob := str;
  lob_read := fun s limit =>
    match take_units (requested limit) s with
    | None => (Err (lit "invalid encoded string: invalid utf-16: lone surrogate"), s)
    | Some (a, b) =>
        if Z.of_nat (length (as_bytes a)) <=? limit then (Ok (as_bytes a), b)
        else (Err (lit "the buffer is too small"), s)
    end;
  get_size := fun _ => None;
|}.

Lemma take_units_Some n s a b : take_units n s = Some (a, b) -> s = a ++ b /\ (a = [] -> n = 0%nat \/ s = []).
Proof.
  revert n a. induction s as [|c s IH]; intros n a; cbn [take_units].
  { intros [= <- <-]. split; [done|by right]. }
  destruct (Nat.eqb_spec n 0) as [->|Hn]; [intros [= <- <-]; split; [done|by left]|].
  destruct (n <? units c)%nat; [done|]. destruct (take_units (n - units c) s) as [[a' b']|] eqn:E; [|done].
  intros [= <- <-]. apply IH in E as [-> _]. done.
Qed.

(** The unit that was cut is a high surrogate, and the shorter request ends
    before it. *)
Lemma take_units_shorter n s : take_units n s = None -> take_units (n - 1) s <> None.
Proof.
  revert n. induction s as [|c s IH]; intros n; cbn [take_units]; [done|].
  assert (Hc : (1 <= units c <= 2)%nat) by (unfold units; case_match; lia).
  destruct (Nat.eqb_spec n 0); [done|]. destruct (Nat.ltb_spec n (units c)) as [Hlt|Hge].
  - intros _. replace (n - 1)%nat with 0%nat by lia. done.
  - destruct (take_units (n - units c) s) as [[a b]|] eqn:E; [done|]. intros _. specialize (IH _ E).
    destruct (Nat.eqb_spec (n - 1) 0); [done|]. destruct (Nat.ltb_spec (n - 1) (units c)) as [Hlt|Hge'].
    + replace (n - units c)%nat with 0%nat in * by lia. by destruct s.
    + replace (n - 1 - units c)%nat with (n - units c - 1)%nat by lia.
      by destruct (take_units (n - units c - 1) s) as [[]|].
Qed.

Lemma as_bytes_nil_inv s : as_bytes s = [] -> s = [].
Proof.
  destruct s as [|c s]; [done|]. cbn [as_bytes]. intros H. apply app_nil in H as [H _].
  apply (f_equal length) in H. rewrite length_encode_utf8 in H. pose proof (len_utf8_pos c). simpl in H. lia.
Qed.

#[export] Instance sample_lobs_lawful : LawfulLob sample_lobs.
Proof.
  refine {| lob_rest := (fun s : Lob => as_bytes s) ; lob_is_text := (fun s : Lob => is_text s) |}; cbn [lob_read Lob sample_lobs].
  - intros s limit bytes s' Hl. destruct (take_units (requested limit) s) as [[a b]|] eqn:E; [|done].
    destruct (Z.leb_spec (Z.of_nat (length (as_bytes a))) limit); [|done]. intros [= <- <-].
    apply take_units_Some in E as [-> He]. split_and!.
    + clear. induction a as [|c a IH]; [done|]. cbn [app as_bytes]. by rewrite <- app_assoc, IH.
    + done.
    + intros Ha. apply as_bytes_nil_inv in Ha. destruct (He Ha) as [H0| ->]; [|done].
      unfold requested in H0. lia.
    + intros Hs. apply Forall_app in Hs as [Ha Hb]. split; [by exists a|done].
  - intros s limit e s'. destruct (take_units _ _) as [[a b]|]; [destruct (_ <=? _)|]; intros [= <- <-]; done.
  - intros s limit e s' Hl E Hs e' s''. destruct (take_units (requested limit) s) as [[a b]|] eqn:Eu.
    { destruct (_ <=? _); [done|]. injection E as <- <-. vm_compute in Hs. done. }
    injection E as <- <-. apply take_units_shorter in Eu.
    replace (requested limit - 1)%nat with (requested (limit - 3)) in Eu by (unfold requested; Z.div_mod_to_equations; lia).
    destruct (take_units (requested (limit - 3)) s) as [[a b]|]; [|done]. destruct (_ <=? _); [done|]. by intros [= <- <-].
Defined.

(** Thai and an emoji, in buffers of 4, 5 and 7 bytes: no character is cut. *)
Definition sample_text : str := [0xE17; 0xE14; 0x1F600; 111; 107].

Lemma lob_chunks_are_the_object_witness :
  exists chunks e s, read_chunks [4; 5; 7; 4; 4]%nat (stream_new sample_text Character 1) = Ret (chunks, e, s) /\
    chunks = List.map as_bytes [[0xE17]; [0xE14]; [0x1F600; 111; 107]] /\ as_bytes sample_text = concat chunks.
Proof.
  destruct (lob_chunks_are_the_object (LL := sample_lobs_lawful) sample_text Character 1 [4; 5; 7; 4; 4]%nat) as (chunks & e & s & E & _ & _ & _ & He).
  { intros _. repeat (constructor; [reflexivity|]). constructor. }
  { repeat (constructor; [cbn; lia|]). constructor. }
  assert (Ec : match read_chunks [4; 5; 7; 4; 4]%nat (stream_new (sample_text : @Lob sample_lobs) Character 1) with
    | Ret (c, e, _) => (c, e) | _ => ([], None) end = (List.map as_bytes [[0xE17]; [0xE14]; [0x1F600; 111; 107]], None)) by evaluate.
  rewrite E in Ec. injection Ec as -> ->. eexists _, None, s. split; [exact E|]. split; [done|].
  apply He. vm_compute. lia.
Defined.

(** The contract asks that a read after an error returns an error; one that
    found the buffer too small for a character does not end the stream. *)
Lemma small_buffer_does_not_end_the_stream :
  match read_chunk false 1 (stream_new (sample_text : @Lob sample_lobs) Character 1) with
  | Ret (Err e, s) => e = too_small /\
      match read_chunk false 4 s with Ret (Ok chunk, _) => chunk = as_bytes [0xE17] | _ => False end
  | _ => False
  end.
Proof. vm_compute. done. Qed.
