(* ===== verification/Handoff.v ===== *)
(** * A connect that may be given up (oracle-thin/src/connect_timeout.rs)

    The Oracle library cannot bound a connect, so it runs on a helper thread
    and the caller waits for it in a rendezvous, up to a limit.  Each critical
    section of the rendezvous is one function on its state; the caller, the
    helper thread and the guard of the waiting frame are a step relation over
    it.  The time that has passed is the argument of a turn of the wait. *)

From stdpp Require Import relations.
From S2P Require Import Prelude RustStr RustText Temporal Errors OracleErrors Connect.
Open Scope Z_scope.

(** ** The rendezvous *)

Section Rendezvous.
Context {T : Type}.

Record State := mkState { st_value : option T; abandoned : bool }.

Definition handoff_new : State := mkState None false.

Inductive Expired := expired_limit.

(** [wait]: one turn of its loop.  [None] is another sleep. *)
Definition wait_turn (limit elapsed : Z) (s : State) : option (result T Expired) * State :=
  match st_value s with
  | Some v => (Some (Ok v), mkState None (abandoned s))
  | None =>
      if limit <=? elapsed then (Some (Err expired_limit), mkState None true)
      else (None, s)
  end.

Definition deliver (v : T) (s : State) : result unit T * State :=
  if abandoned s then (Err v, s) else (Ok tt, mkState (Some v) false).

Definition abandon (s : State) : option T * State := (st_value s, mkState None true).

End Rendezvous.
Arguments State : clear implicits.

(** ** Errors *)

(** [{limit:.1?}] of a whole number of seconds. *)
Definition limit_text (limit : Z) : str :=
  if limit =? 0 then lit "0.0ns" else padded 1 limit ++ lit ".0s".

Definition expired (limit : Z) : DbError :=
  with_retryable (error_new Connection (Text (lit "the database could not be reached within this connection's connect limit of "
    ++ limit_text limit ++ lit ", so the attempt was abandoned. It is left to finish or fail on its own " ++ [8212]
    ++ lit " the Oracle crate this driver wraps cannot bound a connect or stop one that has started (upstream gap U-15) " ++ [8212]
    ++ lit " and if a session does open late it is closed rather than used. Raise the limit on the connection profile, or set the connection extension "
    ++ [DQUOTE] ++ EXT_CONNECT_TIMEOUT_UNBOUNDED ++ [DQUOTE] ++ lit " to wait indefinitely"))) true.

(** A panic's payload is a text or something else. *)
Definition panic_error (payload : option str) : DbError :=
  internal (Text (lit "the Oracle crate panicked while opening a connection: "
    ++ match payload with Some text => text | None => lit "a non-string payload" end)).

(** ** The attempt *)

Section Within.
Context {T E : Type} (map_error : E -> DbError) (limit : Z).

(** What the attempt came to, its panics caught. *)
Inductive Attempted := Returned (v : T) | AttemptFailed (e : E) | Panicked (payload : option str).

Definition attempt_result (a : Attempted) : result T DbError :=
  match a with
  | Returned v => Ok v
  | AttemptFailed e => Err (map_error e)
  | Panicked payload => Err (panic_error payload)
  end.

(** What a discarded result closes. *)
Definition discard (r : result T DbError) : list T := match r with Ok v => [v] | Err _ => [] end.

Inductive WorkerAt :=
| Attempting                               (* inside the library *)
| Delivering (r : result T DbError)        (* before [deliver] *)
| Late (r : result T DbError)              (* refused, before [discard] *)
| WorkerDone.

Inductive CallerAt :=
| Waiting
| Leaving (answer : option DbError)        (* before the guard is dropped; [None] unwinds *)
| Left (answer : option (result T DbError)).

Record Within := mkWithin {
  handoff : State (result T DbError);
  worker : WorkerAt;
  caller : CallerAt;
  opened : list T;          (* connections the library opened *)
  closed : list T;          (* connections closed by a discard *)
}.

Definition within_start : Within := mkWithin handoff_new Attempting Waiting [] [].

Definition worker_step (a : Attempted) (w : Within) : Within :=
  match worker w with
  | Attempting =>
      let r := attempt_result a in
      mkWithin (handoff w) (Delivering r) (caller w) (opened w ++ discard r) (closed w)
  | Delivering r =>
      match deliver r (handoff w) with
      | (Ok _, h) => mkWithin h WorkerDone (caller w) (opened w) (closed w)
      | (Err late, h) => mkWithin h (Late late) (caller w) (opened w) (closed w)
      end
  | Late r => mkWithin (handoff w) WorkerDone (caller w) (opened w) (closed w ++ discard r)
  | WorkerDone => w
  end.

(** A turn of the wait: a collected result disarms the guard. *)
Definition wait_step (elapsed : Z) (w : Within) : Within :=
  match caller w with
  | Waiting =>
      match wait_turn limit elapsed (handoff w) with
      | (Some (Ok r), h) => mkWithin h (worker w) (Left (Some r)) (opened w) (closed w)
      | (Some (Err _), h) => mkWithin h (worker w) (Leaving (Some (expired limit))) (opened w) (closed w)
      | (None, h) => mkWithin h (worker w) Waiting (opened w) (closed w)
      end
  | _ => w
  end.

(** The waiting frame unwinds. *)
Definition unwind_step (w : Within) : Within :=
  match caller w with
  | Waiting => mkWithin (handoff w) (worker w) (Leaving None) (opened w) (closed w)
  | _ => w
  end.

(** [AbandonUnlessCollected::drop]. *)
Definition drop_step (w : Within) : Within :=
  match caller w with
  | Leaving answer =>
      let (uncollected, h) := abandon (handoff w) in
      mkWithin h (worker w) (Left (option_map Err answer)) (opened w)
        (closed w ++ match uncollected with Some r => discard r | None => [] end)
  | _ => w
  end.

Inductive within_step : Within -> Within -> Prop :=
| StepWorker a w : within_step w (worker_step a w)
| StepWait elapsed w : within_step w (wait_step elapsed w)
| StepUnwind w : within_step w (unwind_step w)
| StepDrop w : within_step w (drop_step w).

(** ** Who owns the connection *)

Definition held_by_worker (w : Within) : list T :=
  match worker w with Delivering r | Late r => discard r | _ => [] end.
Definition held_by_handoff (w : Within) : list T :=
  match st_value (handoff w) with Some r => discard r | None => [] end.
Definition held_by_caller (w : Within) : list T :=
  match caller w with Left (Some r) => discard r | _ => [] end.

Record within_ok (w : Within) : Prop := {
  wo_owners : held_by_worker w ++ held_by_handoff w ++ held_by_caller w ++ closed w = opened w;
  wo_worker : match worker w with
    | Attempting => opened w = [] /\ st_value (handoff w) = None /\ closed w = []
    | Delivering r => opened w = discard r /\ st_value (handoff w) = None /\ closed w = []
    | Late r => opened w = discard r /\ st_value (handoff w) = None /\ abandoned (handoff w) = true /\ closed w = []
    | WorkerDone => (length (opened w) <= 1)%nat
    end;
  wo_caller : match caller w with
    | Waiting => abandoned (handoff w) = false
    | Leaving (Some e) => e = expired limit /\ abandoned (handoff w) = true /\ st_value (handoff w) = None
    | Leaving None => abandoned (handoff w) = false
    | Left (Some (Ok v)) => opened w = [v] /\ closed w = [] /\ worker w = WorkerDone /\ st_value (handoff w) = None
    | Left (Some (Err e)) => st_value (handoff w) = None /\ (worker w = WorkerDone \/ (e = expired limit /\ abandoned (handoff w) = true))
    | Left None => abandoned (handoff w) = true /\ st_value (handoff w) = None
    end;
}.

Lemma within_start_ok : within_ok within_start.
Proof. by split. Qed.

Lemma discard_short (r : result T DbError) : (length (discard r) <= 1)%nat.
Proof. destruct r; simpl; lia. Qed.

Ltac within_cases w :=
  destruct w as [[v ab] wk cl op cs]; intros [O W C];
  cbv [held_by_worker held_by_handoff held_by_caller] in O;
  cbn [handoff worker caller opened closed st_value abandoned] in *.

Lemma short_comm (a b : list T) : (length (a ++ b) <= 1)%nat -> b ++ a = a ++ b.
Proof. destruct a as [|x [|]], b as [|y]; simpl; rewrite ?app_nil_r; try done; lia. Qed.

(** Every case of a step is an equation between short lists. *)
Ltac owners :=
  repeat (cbn in *; simplify_eq; match goal with
    | H : _ /\ _ |- _ => destruct H
    | H : _ \/ _ |- _ => destruct H
    end);
  cbn in *; rewrite ?app_nil_r in *; subst; rewrite ?app_nil_r in *; split_and?; auto using short_comm.

Lemma worker_step_ok a w : within_ok w -> within_ok (worker_step a w).
Proof.
  within_cases w. unfold worker_step, deliver. cbn [handoff worker caller opened closed st_value abandoned].
  destruct wk as [|r|r|]; [| | |by split].
  - destruct W as (-> & -> & ->). split; cbv [held_by_worker held_by_handoff held_by_caller]; cbn in *; [|done|].
    + destruct cl as [|?|[[]|]]; owners.
    + destruct cl as [|[]|[[]|]]; owners.
  - destruct W as (-> & -> & ->). destruct ab.
    + split; cbv [held_by_worker held_by_handoff held_by_caller]; cbn in *; [done|done|]. destruct cl as [|[]|[[]|]]; owners.
    + pose proof (discard_short r). split; cbv [held_by_worker held_by_handoff held_by_caller]; cbn in *; [|done|].
      * destruct cl as [|?|[[]|]]; owners.
      * destruct cl as [|[]|[[]|]]; owners.
  - destruct W as (-> & -> & -> & ->). pose proof (discard_short r).
    split; cbv [held_by_worker held_by_handoff held_by_caller]; cbn in *; [|done|].
    + rewrite !app_nil_r in *. destruct cl as [|?|[[]|]]; cbn in *; owners.
    + destruct cl as [|[]|[[]|]]; owners.
Qed.

Lemma caller_step_ok w w' :
  w' = unwind_step w \/ w' = drop_step w \/ (exists elapsed, w' = wait_step elapsed w) -> within_ok w -> within_ok w'.
Proof.
  intros Hw. within_cases w.
  destruct Hw as [->|[->|[elapsed ->]]]; unfold unwind_step, drop_step, wait_step, wait_turn, abandon;
    cbn [handoff worker caller opened closed st_value abandoned].
  - destruct cl; by split.
  - destruct cl as [|answer|]; [by split| |by split].
    split; cbv [held_by_worker held_by_handoff held_by_caller]; cbn in *; [| |destruct answer; owners].
    + destruct answer; [destruct C as (-> & -> & ->)|]; cbn; rewrite ?app_nil_r; [done|].
      destruct wk as [|r|r|]; cbn in *; [| | |]; destruct v; owners.
    + destruct wk as [|r|r|]; [| | |done]; destruct v; owners.
  - destruct cl as [|answer|]; [|by split..]. destruct v as [r|]; [|destruct (limit <=? elapsed)].
    + destruct wk as [|r'|r'|]; [owners..|]. split; cbv [held_by_worker held_by_handoff held_by_caller]; cbn in *; [done|done|].
      destruct r as [v|e]; [|by split; [|left]]. cbn in *. subst op. destruct cs; simpl in *; [done|lia].
    + split; cbv [held_by_worker held_by_handoff held_by_caller]; cbn in *; [done| |done]. destruct wk; owners.
    + by split.
Qed.

Lemma within_step_ok w w' : within_step w w' -> within_ok w -> within_ok w'.
Proof. intros []; [apply worker_step_ok|apply caller_step_ok..]; eauto. Qed.

Lemma within_reachable_ok w : rtc within_step within_start w -> within_ok w.
Proof.
  intros H. assert (G : forall a b, rtc within_step a b -> within_ok a -> within_ok b).
  { induction 1; [done|]. eauto using within_step_ok. }
  eapply G; [exact H|apply within_start_ok].
Qed.

(** Steps left to the attempt and to the caller. *)
Definition rank (w : Within) : nat :=
  match worker w with Attempting => 3 | Delivering _ => 2 | Late _ => 1 | WorkerDone => 0 end +
  match caller w with Waiting => 2 | Leaving _ => 1 | Left _ => 0 end.

Lemma within_step_rank w w' : within_step w w' -> w' = w \/ (rank w' < rank w)%nat.
Proof.
  destruct 1 as [a w|elapsed w|w|w]; destruct w as [[v ab] wk cl op cs];
    unfold worker_step, deliver, wait_step, wait_turn, unwind_step, drop_step, abandon, rank; cbn.
  - destruct wk; [| |right; simpl; lia|by left]; right; [simpl; lia|]. destruct ab; simpl; lia.
  - destruct cl; [|by left..]. destruct v as [r|]; [right; simpl; lia|]. destruct (limit <=? elapsed); [right; simpl; lia|by left].
  - destruct cl; [right; simpl; lia|by left..].
  - destruct cl; [by left|right; simpl; lia|by left].
Qed.

Lemma within_ends w : (0 < rank w)%nat -> exists w', within_step w w' /\ (rank w' < rank w)%nat.
Proof.
  destruct w as [[v ab] wk cl op cs]. intros H. destruct wk as [|r|r|].
  - eexists. split; [apply (StepWorker (Panicked None))|]. unfold rank, worker_step; simpl. lia.
  - eexists. split; [apply (StepWorker (Panicked None))|]. unfold rank, worker_step, deliver. cbn. destruct ab; simpl; lia.
  - eexists. split; [apply (StepWorker (Panicked None))|]. unfold rank, worker_step; simpl. lia.
  - destruct cl; [| |unfold rank in H; simpl in H; lia].
    + eexists. split; [apply StepUnwind|]. unfold rank, unwind_step; simpl. lia.
    + eexists. split; [apply StepDrop|]. unfold rank, drop_step; simpl. lia.
Qed.

(** C13: a session that opens too late is never adopted, and is closed exactly
    once.  Whatever the interleaving of the helper thread with a caller that
    collects, gives up or unwinds, a connection has one owner at every moment:
    the thread, the rendezvous, the caller, or it was closed.  When both are
    done the caller has the attempt's own connection, or every connection that
    was opened is closed; the wait is over at its limit, and the whole ends. *)
Theorem late_session_is_closed_once w (reachable : rtc within_step within_start w) :
  held_by_worker w ++ held_by_handoff w ++ held_by_caller w ++ closed w = opened w /\ (length (opened w) <= 1)%nat /\
  (forall answer, worker w = WorkerDone -> caller w = Left answer ->
     match answer with Some (Ok v) => opened w = [v] /\ closed w = [] | _ => closed w = opened w end) /\
  (forall elapsed, caller w = Waiting -> limit <= elapsed -> caller (wait_step elapsed w) <> Waiting) /\
  (forall w', within_step w w' -> w' = w \/ (rank w' < rank w)%nat) /\
  (rank w <> 0%nat -> exists w', within_step w w' /\ (rank w' < rank w)%nat).
Proof.
  apply within_reachable_ok in reachable. split_and!.
  - apply reachable.
  - destruct reachable as [_ W _]. destruct (worker w) as [|r|r|]; [..|done].
    + destruct W as (-> & _). simpl. lia.
    + destruct W as (-> & _). apply discard_short.
    + destruct W as (-> & _). apply discard_short.
  - intros answer Hw Hc. destruct reachable as [O W C].
    unfold held_by_worker, held_by_handoff, held_by_caller in O. rewrite Hw, Hc in *.
    destruct answer as [[v|e]|].
    + naive_solver.
    + destruct C as [C _]. rewrite C in O. exact O.
    + destruct C as [_ C]. rewrite C in O. exact O.
  - intros elapsed Hc Hl. unfold wait_step, wait_turn. rewrite Hc. destruct (st_value (handoff w)); [done|].
    by rewrite (proj2 (Z.leb_le _ _)).
  - intros w'. apply within_step_rank.
  - intros H. apply within_ends. lia.
Qed.

End Within.

(** A caller that gave up after fifteen seconds, and a session that opened
    afterwards. *)
Definition late_run : Within (T := nat) :=
  let w := drop_step (wait_step 15 15 (within_start (T := nat))) in
  let w := worker_step (fun _ : unit => expired 15) (Returned 7%nat) w in
  let w := worker_step (fun _ : unit => expired 15) (Returned 7%nat) w in
  worker_step (fun _ : unit => expired 15) (Returned 7%nat) w.

Lemma late_session_is_closed_once_witness :
  caller late_run = Left (Some (Err (expired 15))) /\ opened late_run = [7%nat] /\ closed late_run = [7%nat].
Proof.
  assert (reachable : rtc (within_step (fun _ : unit => expired 15) 15) within_start late_run).
  { eapply rtc_l; [apply (StepWait _ _ 15)|]. eapply rtc_l; [apply StepDrop|].
    do 3 (eapply rtc_l; [apply (StepWorker _ _ (Returned 7%nat))|]). apply rtc_refl. }
  assert (Ho : opened late_run = [7%nat]) by reflexivity.
  destruct (late_session_is_closed_once _ _ _ reachable) as (_ & _ & H & _).
  split; [reflexivity|]. split; [exact Ho|]. rewrite <- Ho.
  exact (H (Some (Err (expired 15))) eq_refl eq_refl).
Defined.
