(* ===== verification/OracleCursor.v ===== *)
(** * Result sets of the Oracle driver (oracle-thin/src/cursor.rs, value.rs)

    A cursor describes its columns before it decodes a value, refuses the ones
    the library cannot decode safely, and delivers batches: one builder per
    column, one cell per row.  Rows and cursors are the library's: the class
    [OracleRows] gives its typed getters, each an optional value or an error,
    and the rows of a cursor one by one.  A builder's scratch text is rewritten
    for every cell and is left out. *)

From S2P Require Import Prelude RustStr RustText Number Temporal Errors Columns Segment Policy ResultStore Events ServerOutput OracleErrors OracleTime OracleTypes LobStream Connect.
Open Scope Z_scope.
Open Scope run_scope.

(** ** Errors of the contract's values (db-driver-api/src/value/mod.rs) *)

Definition number_error_text (e : NumberError) : str :=
  match e with
  | Empty => lit "empty decimal value"
  | InvalidSyntax => lit "not a valid decimal literal"
  | InvalidDigit => lit "decimal digit outside 0..=9"
  | TooManyDigits => lit "more than 40 significant decimal digits"
  | ExponentOutOfRange => lit "decimal exponent outside the supported range"
  end.

Definition temporal_error_text (e : TemporalError) : str :=
  match e with
  | YearOutOfRange => lit "year outside -4712..=9999 (and non-zero; there is no year 0)"
  | MonthOutOfRange => lit "month outside 1..=12"
  | DayOutOfRange => lit "day outside the valid range for that month"
  | NonexistentCalendarDate => lit "date falls in the ten days skipped by the Gregorian reform (1582-10-05..1582-10-14)"
  | TimeOutOfRange => lit "hour, minute or second out of range"
  | NanosecondOutOfRange => lit "nanosecond outside 0..1_000_000_000"
  | OffsetOutOfRange => lit "UTC offset outside -1439..=1439 minutes"
  end.

Definition from_number_error (e : NumberError) : DbError := error_new DataConversion (Text (number_error_text e)).
Definition from_temporal_error (e : TemporalError) : DbError := error_new DataConversion (Text (temporal_error_text e)).

Definition map_err {A E F} (f : E -> F) (r : result A E) : result A F :=
  match r with Ok a => Ok a | Err e => Err (f e) end.

(** ** The library's rows *)

Class OracleRows `{OracleError} `{OracleTimestamps} `{OracleNumbers} `{OracleLob} := {
  Row : Type;
  onum_display : onum -> str;
  get_number : Row -> nat -> result (option onum) ora_error;
  get_f32 : Row -> nat -> result (option Z) ora_error;
  get_f64 : Row -> nat -> result (option Z) ora_error;
  get_string : Row -> nat -> result (option str) ora_error;
  get_bytes : Row -> nat -> result (option (list Z)) ora_error;
  get_bool : Row -> nat -> result (option bool) ora_error;
  get_timestamp : Row -> nat -> result (option ots) ora_error;
  (** An interval, as its [Display]. *)
  get_interval_ds : Row -> nat -> result (option str) ora_error;
  get_interval_ym : Row -> nat -> result (option str) ora_error;
  (** [Row::take] of a locator. *)
  take_lob_value : Row -> nat -> result (option Lob) ora_error * Row;
  LibCursor : Type;
  cursor_described : LibCursor -> list Described;
  cursor_next : LibCursor -> option (result Row ora_error) * LibCursor;
}.

Section Cursor.
Context `{OracleRows} {A : Alloc}.

(** The locator the driver hands out. *)
Notation Loc := OracleLobStream.

(** ** [ColumnBuilder] *)

Inductive CellBuffer :=
| BNumber (values : vec Number)
| BFloat (values : vec Z)
| BDouble (values : vec Z)
| BText (values : TextColumn)
| BBytes (values : BytesColumn)
| BTimestamp (values : vec Timestamp)
| BBoolean (values : vec bool)
| BLob (values : vec (option Loc))
| BUnsupported (values : TextColumn).

Record ColumnBuilder := mkBuilder {
  builder_plan : ColumnPlan;
  builder_data : CellBuffer;
  null_rows : list nat;
  rows : nat;
}.

Definition builder_new (plan : ColumnPlan) (capacity : nat) : ColumnBuilder :=
  let data := match plan with
    | PlanNumber => BNumber (vec_with_capacity capacity)
    | PlanFloat => BFloat (vec_with_capacity capacity)
    | PlanDouble => BDouble (vec_with_capacity capacity)
    | PlanText => BText (var_with_capacity capacity (capacity * 16))
    | PlanBytes => BBytes (var_with_capacity capacity (capacity * 16))
    | PlanTimestamp | PlanTimestampWithZone => BTimestamp (vec_with_capacity capacity)
    | PlanBoolean => BBoolean (vec_with_capacity capacity)
    | PlanLob _ => BLob (vec_with_capacity capacity)
    | UnsupportedRowid | UnsupportedIntervalDs | UnsupportedIntervalYm | UnsupportedTimestampLtz | PlanUnsupported =>
        BUnsupported (var_with_capacity capacity (capacity * 24))
    end in
  mkBuilder plan data [] 0.

(** A zone-less rendering of a local timestamp; the sign of a year counts in
    its width. *)
Definition render_local_time_zone (v : ots) : str :=
  (if ots_year v <? 0 then lit "-" ++ padded 3 (Z.abs (ots_year v)) else padded 4 (ots_year v)) ++ lit "-" ++ padded 2 (ots_month v) ++ lit "-" ++ padded 2 (ots_day v) ++ lit "T" ++
  padded 2 (ots_hour v) ++ lit ":" ++ padded 2 (ots_minute v) ++ lit ":" ++ padded 2 (ots_second v) ++ lit "." ++
  padded 9 (nanoseconds v).

(** One cell: the buffer with it appended, or with a placeholder for NULL. *)
Definition push_cell {T} (r : result (option T) ora_error) (null : CellBuffer) (value : T -> result CellBuffer DbError)
  : result (CellBuffer * bool) DbError :=
  match r with
  | Err e => Err (map e)
  | Ok None => Ok (null, true)
  | Ok (Some v) => match value v with Ok data => Ok (data, false) | Err e => Err e end
  end.

Definition undecodable : DbError :=
  error_new UnsupportedKind (Text (lit "this driver cannot decode values of this column's type")).

Definition push_data (plan : ColumnPlan) (data : CellBuffer) (row : Row) (index : nat) (connection : Z)
  : result (CellBuffer * bool) DbError * Row :=
  match data, plan with
  | BNumber values, _ => (push_cell (get_number row index) (BNumber (vec_push values ZERO))
      (fun v => match parse (onum_display v) with
                | Ok n => Ok (BNumber (vec_push values n))
                | Err e => Err (from_number_error e)
                end), row)
  | BFloat values, _ => (push_cell (get_f32 row index) (BFloat (vec_push values 0)) (fun v => Ok (BFloat (vec_push values v))), row)
  | BDouble values, _ => (push_cell (get_f64 row index) (BDouble (vec_push values 0)) (fun v => Ok (BDouble (vec_push values v))), row)
  | BText values, _ => (push_cell (get_string row index) (BText (var_push_null text_buffer values)) (fun v => Ok (BText (text_push values v))), row)
  | BBytes values, _ => (push_cell (get_bytes row index) (BBytes (var_push_null bytes_buffer values)) (fun v => Ok (BBytes (bytes_push values v))), row)
  | BBoolean values, _ => (push_cell (get_bool row index) (BBoolean (vec_push values false)) (fun v => Ok (BBoolean (vec_push values v))), row)
  | BTimestamp values, _ =>
      (match get_timestamp row index with
       | Err e => Err (map e)
       | Ok (Some v) =>
           match to_timestamp v (match plan with PlanTimestampWithZone => true | _ => false end) with
           | Ok t => Ok (BTimestamp (vec_push values t), false)
           | Err e => Err (from_temporal_error e)
           end
       | Ok None =>
           match from_source 1970 1 1 0 0 0 with
           | Ok t => Ok (BTimestamp (vec_push values t), true)
           | Err e => Err (from_temporal_error e)
           end
       end, row)
  | BLob values, PlanLob kind =>
      let (r, row) := take_lob_value row index in
      (push_cell r (BLob (vec_push values None)) (fun l => Ok (BLob (vec_push values (Some (stream_new l kind connection))))), row)
  | BLob _, _ => (Err (internal (Text (lit "LOB buffer used for a non-LOB column"))), row)
  | BUnsupported values, _ =>
      let put := fun text => Ok (BUnsupported (text_push values text)) in
      let null := BUnsupported (var_push_null text_buffer values) in
      (match plan with
       | UnsupportedRowid => push_cell (get_string row index) null put
       | UnsupportedIntervalDs => push_cell (get_interval_ds row index) null put
       | UnsupportedIntervalYm => push_cell (get_interval_ym row index) null put
       | UnsupportedTimestampLtz => push_cell (get_timestamp row index) null (fun v => put (render_local_time_zone v))
       | _ => Err undecodable
       end, row)
  end.

(** [ColumnBuilder::push].  A builder whose push failed is dropped. *)
Definition builder_push (b : ColumnBuilder) (row : Row) (index : nat) (connection : Z)
  : result ColumnBuilder DbError * Row :=
  let row_number := rows b in
  let (r, row) := push_data (builder_plan b) (builder_data b) row index connection in
  (match r with
   | Err e => Err e
   | Ok (data, null) =>
       Ok (mkBuilder (builder_plan b) data (if null then null_rows b ++ [row_number] else null_rows b) (row_number + 1))
   end, row).

Definition buffer_data (d : CellBuffer) : ColumnData Loc :=
  match d with
  | BNumber v => CNumber v
  | BFloat v => CFloat v
  | BDouble v => CDouble v
  | BText v => CText v
  | BBytes v => CBytes v
  | BTimestamp v => CTimestamp v
  | BBoolean v => CBoolean v
  | BLob v => CLob v
  | BUnsupported v => CUnsupported v
  end.

(** [for row in self.null_rows { nulls.set_null(row)?; }]. *)
Fixpoint set_nulls (l : list nat) (m : NullMask) : run (result NullMask DbError) :=
  match l with
  | [] => Ret (Ok m)
  | row :: l =>
      let! r := set_null m row in
      match r with Ok m => set_nulls l m | Err e => Ret (Err e) end
  end.

Definition finish (b : ColumnBuilder) : run (result (Column Loc) DbError) :=
  let! nulls := set_nulls (null_rows b) (mask_new (rows b)) in
  match nulls with
  | Err e => Ret (Err e)
  | Ok nulls => Ret (column_new (buffer_data (builder_data b)) nulls)
  end.

(** ** [OracleCursor] *)

Record OracleCursor := mkCursor {
  cursor_set_id : Z;
  cursor_connection_id : Z;
  cursor_columns : list ColumnMetadata;
  plans : list ColumnPlan;
  inner : LibCursor;
  cursor_failed : bool;
  cursor_exhausted : bool;
}.

Definition timestamp_with_time_zone_is_refused (column : str) : DbError :=
  error_new UnsupportedKind (Text (lit "column " ++ [DQUOTE] ++ column ++ [DQUOTE] ++
    lit " is a TIMESTAMP WITH TIME ZONE, which this driver refuses to fetch on oracledb 26.0.0-beta.3: a value whose zone is a named region (for example TIMESTAMP '2026-01-01 00:00:00 Asia/Bangkok') reaches an unimplemented branch in the upstream decoder and takes the whole process down with it, and a region cannot be told from a plain offset before the value is decoded. Cast the column in the statement (TO_CHAR(c, 'YYYY-MM-DD HH24:MI:SS TZR')) to read it, or set the connection extension " ++
    [DQUOTE] ++ EXT_ALLOW_TIMESTAMP_WITH_TIME_ZONE ++ [DQUOTE] ++ lit " to accept the risk")).

Definition undecodable_column_is_refused (column native : str) : DbError :=
  error_new UnsupportedKind (Text (lit "column " ++ [DQUOTE] ++ column ++ [DQUOTE] ++ lit " is of type " ++ native ++
    lit ", which oracledb 26.0.0-beta.3 cannot decode into any value this driver can render, so the whole statement is refused here rather than part-way through fetching it. Convert the column in the statement " ++ [8212] ++
    lit " TO_CLOB, JSON_SERIALIZE, XMLSERIALIZE or the type's own accessor " ++ [8212] ++ lit " to read it as text")).

Definition nested_cursor_is_refused (column : str) : DbError :=
  error_new UnsupportedKind (Text (lit "column " ++ [DQUOTE] ++ column ++ [DQUOTE] ++
    lit " is a nested cursor in the select list, which this driver does not support")).

(** One column of the describe: its metadata and plan, or the refusal. *)
Definition describe_column (allow_timestamp_with_time_zone : bool) (meta : Described)
  : result (ColumnMetadata * ColumnPlan) DbError :=
  let m := column_metadata meta in
  match sql_type m with
  | TCursor => Err (nested_cursor_is_refused (meta_name m))
  | t =>
      if (match t with TTimestampWithTimeZone => true | _ => false end) && negb allow_timestamp_with_time_zone
      then Err (timestamp_with_time_zone_is_refused (meta_name m))
      else
        match (plan_for (md_type meta)).2 with
        | PlanUnsupported => Err (undecodable_column_is_refused (meta_name m) (native_type_name (md_type meta)))
        | plan => Ok (m, plan)
        end
  end.

Fixpoint describe (allow : bool) (metas : list Described) : result (list (ColumnMetadata * ColumnPlan)) DbError :=
  match metas with
  | [] => Ok []
  | meta :: metas => result_bind (describe_column allow meta) (fun c => result_bind (describe allow metas) (fun cs => Ok (c :: cs)))
  end.

(** [OracleCursor::new]; [id] is what [ResultSetId::allocate] gives. *)
Definition cursor_new (c : LibCursor) (id connection : Z) (allow : bool) : result OracleCursor DbError :=
  result_bind (describe allow (cursor_described c)) (fun cs =>
  Ok (mkCursor id connection (List.map fst cs) (List.map snd cs) c false false)).

Definition cursor_guard (closed : bool) (c : OracleCursor) : result unit DbError :=
  if closed then Err (connection_closed (lit "cursor"))
  else if cursor_failed c then Err (internal (Text (lit "cursor used after a failed fetch; the only legal call was close")))
  else Ok tt.

(** The cells of one row, builder by builder. *)
Fixpoint push_row (builders : list ColumnBuilder) (row : Row) (index : nat) (connection : Z)
  : result (list ColumnBuilder) DbError :=
  match builders with
  | [] => Ok []
  | b :: bs =>
      let (r, row) := builder_push b row index connection in
      result_bind r (fun b => result_bind (push_row bs row (S index) connection) (fun bs => Ok (b :: bs)))
  end.

Definition with_state (c : OracleCursor) (l : LibCursor) (failed exhausted : bool) : OracleCursor :=
  mkCursor (cursor_set_id c) (cursor_connection_id c) (cursor_columns c) (plans c) l failed exhausted.

(** The loop over the rows: at most [max] more. *)
Fixpoint fetch_rows (max : nat) (c : OracleCursor) (builders : list ColumnBuilder) (n : nat)
  : result (list ColumnBuilder * nat) DbError * OracleCursor :=
  match max with
  | O => (Ok (builders, n), c)
  | S max =>
      let (next, l) := cursor_next (inner c) in
      match next with
      | None => (Ok (builders, n), with_state c l (cursor_failed c) true)
      | Some (Err e) => (Err (map e), with_state c l true (cursor_exhausted c))
      | Some (Ok row) =>
          match push_row builders row 0 (cursor_connection_id c) with
          | Err e => (Err e, with_state c l true (cursor_exhausted c))
          | Ok builders => fetch_rows max (with_state c l (cursor_failed c) (cursor_exhausted c)) builders (n + 1)
          end
      end
  end.

Fixpoint finish_all (builders : list ColumnBuilder) : run (result (list (Column Loc)) DbError) :=
  match builders with
  | [] => Ret (Ok [])
  | b :: bs =>
      let! r := finish b in
      match r with
      | Err e => Ret (Err e)
      | Ok c => let! cs := finish_all bs in Ret (result_bind cs (fun cs => Ok (c :: cs)))
      end
  end.

Definition fetch_batch (closed : bool) (max_rows : nat) (c : OracleCursor)
  : run (result (RowBatch Loc) DbError * OracleCursor) :=
  match cursor_guard closed c with
  | Err e => Ret (Err e, c)
  | Ok _ =>
      if cursor_exhausted c then Ret (Ok batch_empty, c)
      else
        let capacity := Nat.min max_rows (Z.to_nat 4096) in
        match fetch_rows max_rows c (List.map (fun plan => builder_new plan capacity) (plans c)) 0 with
        | (Err e, c) => Ret (Err e, c)
        | (Ok (builders, n), c) =>
            if (n =? 0)%nat then Ret (Ok batch_empty, c)
            else
              let! columns := finish_all builders in
              Ret (result_bind columns batch_new, c)
        end
  end.

End Cursor.
