(* ===== verification/OracleCursorClaims.v ===== *)
(** * What a result set of the Oracle driver guarantees

    A batch, built column by column, is the rows read one by one: the reference
    definition decodes a row at a time, and the builders hold its columns. *)

From S2P Require Import Prelude RustStr RustText Number Temporal Errors Columns Segment Policy ResultStore Events ServerOutput OracleErrors OracleTime OracleTypes LobStream Connect OracleCursor.
Open Scope Z_scope.
Open Scope run_scope.

(** ** A row at a time *)

Section Reference.
Context `{OracleRows}.

Definition decoded {T} (r : result (option T) ora_error) (value : T -> result (ValueRef OracleLobStream) DbError)
  : result (ValueRef OracleLobStream) DbError :=
  match r with Err e => Err (map e) | Ok None => Ok VNull | Ok (Some v) => value v end.

(** What a column of each plan shows of a cell. *)
Definition decode_cell (plan : ColumnPlan) (row : Row) (index : nat) (connection : Z)
  : result (ValueRef OracleLobStream) DbError * Row :=
  match plan with
  | PlanNumber => (decoded (get_number row index)
      (fun v => match parse (onum_display v) with Ok n => Ok (VNumber n) | Err e => Err (from_number_error e) end), row)
  | PlanFloat => (decoded (get_f32 row index) (fun v => Ok (VFloat v)), row)
  | PlanDouble => (decoded (get_f64 row index) (fun v => Ok (VDouble v)), row)
  | PlanText => (decoded (get_string row index) (fun v => Ok (VText v)), row)
  | PlanBytes => (decoded (get_bytes row index) (fun v => Ok (VBytes v)), row)
  | PlanBoolean => (decoded (get_bool row index) (fun v => Ok (VBoolean v)), row)
  | PlanTimestamp => (decoded (get_timestamp row index)
      (fun v => match to_timestamp v false with Ok t => Ok (VTimestamp t) | Err e => Err (from_temporal_error e) end), row)
  | PlanTimestampWithZone => (decoded (get_timestamp row index)
      (fun v => match to_timestamp v true with Ok t => Ok (VTimestamp t) | Err e => Err (from_temporal_error e) end), row)
  | PlanLob kind =>
      let (r, row) := take_lob_value row index in (decoded r (fun l => Ok (VLob (stream_new l kind connection))), row)
  | UnsupportedRowid => (decoded (get_string row index) (fun v => Ok (VUnsupported v)), row)
  | UnsupportedIntervalDs => (decoded (get_interval_ds row index) (fun v => Ok (VUnsupported v)), row)
  | UnsupportedIntervalYm => (decoded (get_interval_ym row index) (fun v => Ok (VUnsupported v)), row)
  | UnsupportedTimestampLtz =>
      (decoded (get_timestamp row index) (fun v => Ok (VUnsupported (render_local_time_zone v))), row)
  | PlanUnsupported => (Err undecodable, row)
  end.

Fixpoint decode_row (plans : list ColumnPlan) (row : Row) (index : nat) (connection : Z)
  : result (list (ValueRef OracleLobStream)) DbError :=
  match plans with
  | [] => Ok []
  | plan :: plans =>
      let (r, row) := decode_cell plan row index connection in
      result_bind r (fun v => result_bind (decode_row plans row (S index) connection) (fun vs => Ok (v :: vs)))
  end.

(** At most [max] rows of the cursor, decoded; it fails at the first row that
    cannot be read or decoded. *)
Fixpoint draw (max : nat) (c : OracleCursor) : result (list (list (ValueRef OracleLobStream))) DbError * OracleCursor :=
  match max with
  | O => (Ok [], c)
  | S max =>
      let (next, l) := cursor_next (inner c) in
      match next with
      | None => (Ok [], with_state c l (cursor_failed c) true)
      | Some (Err e) => (Err (map e), with_state c l true (cursor_exhausted c))
      | Some (Ok row) =>
          match decode_row (plans c) row 0 (cursor_connection_id c) with
          | Err e => (Err e, with_state c l true (cursor_exhausted c))
          | Ok cells =>
              match draw max (with_state c l (cursor_failed c) (cursor_exhausted c)) with
              | (Ok rows, c) => (Ok (cells :: rows), c)
              | (Err e, c) => (Err e, c)
              end
          end
      end
  end.

End Reference.

(** ** Buffers *)

Definition data_cell {Loc} (d : ColumnData Loc) (row : nat) : option (ValueRef Loc) :=
  match d with
  | CBoolean v => VBoolean <$> elems v !! row
  | CNumber v => VNumber <$> elems v !! row
  | CFloat v => VFloat <$> elems v !! row
  | CDouble v => VDouble <$> elems v !! row
  | CText v => VText <$> text_get v row
  | CJson v => VJson <$> text_get v row
  | CBytes v => VBytes <$> bytes_get v row
  | CTimestamp v => VTimestamp <$> elems v !! row
  | CUnsupported v => VUnsupported <$> text_get v row
  | CLob v =>
      match elems v !! row with
      | Some (Some l) => Some (VLob l)
      | Some None => Some VTaken
      | None => None
      end
  end.

(** One value more, the others unchanged. *)
Record extends {Loc} (d d' : ColumnData Loc) (v : option (ValueRef Loc)) : Prop := {
  ex_len : data_len d' = S (data_len d);
  ex_old : forall i, (i < data_len d)%nat -> data_cell d' i = data_cell d i;
  ex_new : forall x, v = Some x -> data_cell d' (data_len d) = Some x;
  ex_ok : data_ok d';
}.

Section Buffers.
Context {Loc : Type} `{Alloc}.

Lemma reserve_enough cap len extra : (len <= cap)%nat -> (len + extra <= reserve cap len extra)%nat.
Proof.
  intros Hl. unfold reserve. destruct (Nat.ltb_spec (cap - len) extra); [apply grow_enough|lia].
Qed.

Lemma vec_push_ok {A} (v : vec A) x : vec_ok v -> vec_ok (vec_push v x).
Proof.
  unfold vec_ok, vec_push, vec_len. cbn [elems cap]. intros Hv. rewrite length_app.
  apply (reserve_enough (cap v) (length (elems v)) 1 Hv).
Qed.

Lemma vec_push_len {A} (v : vec A) x : vec_len (vec_push v x) = S (vec_len v).
Proof. unfold vec_len, vec_push. cbn. rewrite length_app. simpl. lia. Qed.

Lemma vec_push_old {A} (v : vec A) x i : (i < vec_len v)%nat -> elems (vec_push v x) !! i = elems v !! i.
Proof. intros. unfold vec_push. cbn. by apply lookup_app_l. Qed.

Lemma vec_push_new {A} (v : vec A) x : elems (vec_push v x) !! vec_len v = Some x.
Proof. unfold vec_push, vec_len. cbn. by apply list_lookup_middle. Qed.

Lemma var_push_ok B c x : var_ok B c -> var_ok B (var_push B c x).
Proof.
  intros ([vs Hv] & Hs & Ho). split; [exists (vs ++ [x]); by apply var_push_holds|]. split.
  - cbn [buffer buffer_cap var_push]. rewrite size_app. by apply reserve_enough.
  - cbn [offsets var_push]. apply vec_push_ok. destruct (_ =? _)%nat; [by apply vec_push_ok|done].
Qed.

Lemma var_push_len B c x : var_ok B c -> var_len (var_push B c x) = S (var_len c).
Proof.
  intros ([vs Hv] & _). rewrite (var_len_holds _ _ _ Hv), (var_len_holds _ _ _ (var_push_holds B c vs x Hv)).
  rewrite length_app. simpl. lia.
Qed.

Lemma var_push_old B c x i : var_ok B c -> (i < var_len c)%nat -> var_get B (var_push B c x) i = var_get B c i.
Proof.
  intros ([vs Hv] & _). rewrite (var_len_holds _ _ _ Hv). intros Hi.
  rewrite (var_get_holds _ _ _ _ Hv), (var_get_holds _ _ _ _ (var_push_holds B c vs x Hv)). by apply lookup_app_l.
Qed.

Lemma var_push_new B c x : var_ok B c -> var_get B (var_push B c x) (var_len c) = Some x.
Proof.
  intros ([vs Hv] & _). rewrite (var_len_holds _ _ _ Hv), (var_get_holds _ _ _ _ (var_push_holds B c vs x Hv)).
  by apply list_lookup_middle.
Qed.

Lemma vec_with_capacity_ok {A} n : vec_ok (@vec_with_capacity A n).
Proof. unfold vec_ok, vec_len. simpl. lia. Qed.

Lemma var_with_capacity_ok B n m : var_ok B (var_with_capacity n m).
Proof.
  split; [exists []; split; [done|by left]|]. split; [cbn; rewrite size_nil; lia|].
  cbn. apply vec_push_ok. apply vec_with_capacity_ok.
Qed.

End Buffers.

(** ** Builders *)

Section Builders.
Context `{OracleRows} {A : Alloc}.
Notation Value := (ValueRef OracleLobStream).

(** The buffer a plan fills. *)
Definition fits (plan : ColumnPlan) (d : CellBuffer) : Prop :=
  match plan, d with
  | PlanNumber, BNumber _ | PlanFloat, BFloat _ | PlanDouble, BDouble _ | PlanText, BText _ | PlanBytes, BBytes _
  | PlanTimestamp, BTimestamp _ | PlanTimestampWithZone, BTimestamp _ | PlanBoolean, BBoolean _ | PlanLob _, BLob _
  | UnsupportedRowid, BUnsupported _ | UnsupportedIntervalDs, BUnsupported _ | UnsupportedIntervalYm, BUnsupported _
  | UnsupportedTimestampLtz, BUnsupported _ | PlanUnsupported, BUnsupported _ => True
  | _, _ => False
  end.

(** The builder holds the cells [vs] of its column. *)
Record builder_holds (b : ColumnBuilder) (vs : list Value) : Prop := {
  bh_fits : fits (builder_plan b) (builder_data b);
  bh_rows : rows b = length vs;
  bh_len : data_len (buffer_data (builder_data b)) = length vs;
  bh_ok : data_ok (buffer_data (builder_data b));
  bh_nulls : forall r, In r (null_rows b) <-> vs !! r = Some VNull;
  bh_cells : forall i v, vs !! i = Some v -> v <> VNull -> data_cell (buffer_data (builder_data b)) i = Some v;
}.

Lemma builder_new_holds plan capacity : builder_holds (builder_new plan capacity) [] /\ builder_plan (builder_new plan capacity) = plan.
Proof.
  split; [|done]. split; try done; cbn [builder_new builder_plan builder_data null_rows].
  - by destruct plan.
  - by destruct plan.
  - destruct plan; cbn; first [apply vec_with_capacity_ok | apply var_with_capacity_ok].
Qed.

(** Appending to a vector, to text and to bytes. *)
Ltac extend_vec :=
  split; cbn [data_len buffer_data data_cell data_ok];
  [apply vec_push_len
  |intros; by rewrite vec_push_old
  |intros ? [= <-]; by rewrite vec_push_new
  |by apply vec_push_ok].
Ltac extend_var :=
  split; cbn [data_len buffer_data data_cell data_ok]; unfold text_push, bytes_push, text_get, bytes_get, var_push_null;
  [by apply var_push_len
  |intros; by rewrite var_push_old
  |intros ? [= <-]; by rewrite var_push_new
  |by apply var_push_ok].

(** A push appends what the reference decodes. *)
Lemma push_data_spec plan d row index connection :
  fits plan d -> data_ok (buffer_data d) ->
  (push_data plan d row index connection).2 = (decode_cell plan row index connection).2 /\
  match (push_data plan d row index connection).1 with
  | Err e => (decode_cell plan row index connection).1 = Err e
  | Ok (d', null) => fits plan d' /\
      exists v, (decode_cell plan row index connection).1 = Ok v /\ (null = true <-> v = VNull) /\
        extends (buffer_data d) (buffer_data d') (if null then None else Some v)
  end.
Proof.
  intros Hf Hd. destruct plan; destruct d as [v|v|v|v|v|v|v|v|v]; try done; cbn [push_data decode_cell fst snd buffer_data data_ok] in *;
    try (destruct (take_lob_value row index) as [r row']; cbn [fst snd]);
    unfold push_cell, decoded; (split; [done|]);
    repeat case_match; simplify_eq/=; try done;
    (split; [done|]); eexists; (split; [reflexivity|]); (split; [done|]); first [extend_vec | extend_var].
Qed.

Lemma builder_push_spec b vs row index connection :
  builder_holds b vs ->
  (builder_push b row index connection).2 = (decode_cell (builder_plan b) row index connection).2 /\
  match (builder_push b row index connection).1 with
  | Err e => (decode_cell (builder_plan b) row index connection).1 = Err e
  | Ok b' => builder_plan b' = builder_plan b /\
      exists v, (decode_cell (builder_plan b) row index connection).1 = Ok v /\ builder_holds b' (vs ++ [v])
  end.
Proof.
  intros [Hf Hr Hl Hd Hn Hc]. pose proof (push_data_spec _ _ row index connection Hf Hd) as Hp. unfold builder_push.
  destruct (push_data _ _ _ _ _) as [[[d null]|e] row']; cbn [fst snd] in *; [|done].
  destruct Hp as [Hrow (Hf' & v & Ev & Hnull & [E1 E2 E3 E4])]. split; [done|]. split; [done|].
  exists v. split; [done|]. split; cbn [builder_plan builder_data null_rows rows]; try done.
  - rewrite length_app, Hr. simpl. lia.
  - rewrite E1, Hl, length_app. simpl. lia.
  - intros r. destruct (decide (r < length vs)%nat) as [Hlt|Hge].
    + rewrite lookup_app_l by done. rewrite <- Hn. destruct null; [|done]. rewrite in_app_iff. simpl. rewrite Hr.
      split; [intros [?|[<-|[]]]; [done|lia]|by left].
    + assert (Hout : ~ In r (null_rows b)).
      { rewrite Hn. intros E. apply lookup_lt_Some in E. lia. }
      destruct (decide (r = length vs)) as [->|Hne].
      * rewrite list_lookup_middle by done. destruct null.
        -- rewrite in_app_iff, Hr. simpl. split; [intros _; f_equal; by apply Hnull|intros _; right; by left].
        -- split; [done|]. intros [= ->]. by destruct Hnull as [_ Hnull]; discriminate (Hnull eq_refl).
      * rewrite lookup_ge_None_2 by (rewrite length_app; simpl; lia). split; [|done].
        destruct null; [|done]. rewrite in_app_iff, Hr. simpl. intros [?|[<-|[]]]; done.
  - intros i x Hx Hnn. destruct (decide (i < length vs)%nat) as [Hlt|Hge].
    + rewrite lookup_app_l in Hx by done. rewrite E2 by lia. by apply Hc.
    + apply lookup_snoc_Some in Hx as [[Hlt _]|[-> ->]]; [lia|]. rewrite <- Hl. apply E3. destruct null; [|done].
      destruct Hnn. by apply Hnull.
Qed.

Lemma set_nulls_spec l m :
  mask_ok m -> Forall (fun r => r < mask_len m)%nat l ->
  exists m', set_nulls l m = Ret (Ok m') /\ mask_ok m' /\ mask_len m' = mask_len m /\
    forall r, mask_is_null m' r = true <-> In r l \/ mask_is_null m r = true.
Proof.
  revert m. induction l as [|x l IH]; intros m Hm Hl; cbn [set_nulls].
  { exists m. split_and!; [done..|]. intros r. simpl. naive_solver. }
  apply Forall_cons in Hl as [Hx Hl]. destruct (set_null_spec m x Hm Hx) as (m1 & E & Hm1 & Hl1 & Hn1).
  rewrite E. cbn [rbind]. destruct (IH m1 Hm1) as (m2 & E2 & Hm2 & Hl2 & Hn2).
  { eapply Forall_impl; [exact Hl|]. simpl. intros. lia. }
  exists m2. split_and!; [done..|lia|]. intros r. rewrite Hn2, Hn1, orb_true_iff, Nat.eqb_eq. simpl. naive_solver.
Qed.

(** A finished column shows the cells its builder holds. *)
Lemma finish_spec b vs :
  builder_holds b vs ->
  exists c, finish b = Ret (Ok c) /\ column_ok c /\ column_len c = length vs /\ forall i, column_value c i = vs !! i.
Proof.
  intros [Hf Hr Hl Hd Hn Hc]. unfold finish.
  destruct (set_nulls_spec (null_rows b) (mask_new (rows b))) as (m & E & Hm & Hml & Hmn).
  { apply mask_new_ok. }
  { apply Forall_forall. intros r Hin. apply list_elem_of_In, Hn, lookup_lt_Some in Hin. cbn. lia. }
  rewrite E. cbn [rbind]. unfold column_new. cbn [mask_len mask_new] in Hml.
  rewrite Hml, Hl, Hr, Nat.eqb_refl. cbn [negb]. eexists. split; [reflexivity|].
  split; [split_and!; cbn [data nulls]; [done|done|lia]|]. split; [done|].
  intros i. unfold column_value, column_len. cbn [data nulls].
  destruct (Nat.leb_spec (data_len (buffer_data (builder_data b))) i) as [Hge|Hlt].
  { by rewrite lookup_ge_None_2 by lia. }
  destruct (lookup_lt_is_Some_2 vs i ltac:(lia)) as [v Hv]. rewrite Hv.
  destruct (mask_is_null m i) eqn:Em.
  - apply Hmn in Em as [Hin|Hfalse]; [|by rewrite mask_new_null in Hfalse]. apply Hn in Hin. by rewrite Hv in Hin.
  - change (data_cell (buffer_data (builder_data b)) i = Some v). apply Hc; [done|]. intros ->.
    apply Hn in Hv. assert (mask_is_null m i = true) by (apply Hmn; by left). congruence.
Qed.

End Builders.

(** ** Batches *)

Section Batches.
Context `{OracleRows} {A : Alloc}.
Notation Value := (ValueRef OracleLobStream).

Lemma length_decode_row plans row index connection vs :
  decode_row plans row index connection = Ok vs -> length vs = length plans.
Proof.
  revert row index vs. induction plans as [|p plans IH]; intros row index vs; cbn [decode_row]; [by intros [= <-]|].
  destruct (decode_cell p row index connection) as [[v|e] row']; [|done]. cbn [result_bind].
  destruct (decode_row plans row' (S index) connection) as [ws|] eqn:E; [|done]. cbn [result_bind]. intros [= <-].
  simpl. f_equal. by eapply IH.
Qed.

Lemma draw_shape max c cells c' :
  draw max c = (Ok cells, c') ->
  Forall (fun r => length r = length (plans c)) cells /\ (length cells <= max)%nat /\
  cursor_failed c' = cursor_failed c /\ plans c' = plans c /\
  (cursor_exhausted c = false -> cursor_exhausted c' = false -> length cells = max).
Proof.
  revert c cells c'. induction max as [|max IH]; intros c cells c'; cbn [draw].
  { intros [= <- <-]. split_and!; [constructor|done..]. }
  destruct (cursor_next (inner c)) as [[[row|e]|] l].
  - destruct (decode_row (plans c) row 0 _) as [vs|] eqn:E; [|done].
    destruct (draw max _) as [[rows|] c1] eqn:Ed; [|done]. intros [= <- <-]. apply IH in Ed as (D1 & D2 & D3 & D4 & D5).
    cbn [with_state plans cursor_failed cursor_exhausted] in *. apply length_decode_row in E.
    split_and!; [by constructor|simpl; lia|done|done|]. intros. simpl. f_equal. auto.
  - done.
  - intros [= <- <-]. split_and!; [constructor|simpl; lia|done|done|done].
Qed.

(** Rows appended to columns. *)
Definition add_row (cols : list (list Value)) (row : list Value) : list (list Value) := zip_with (fun c v => c ++ [v]) cols row.
Definition add_rows (cols : list (list Value)) (cells : list (list Value)) : list (list Value) := fold_left add_row cells cols.

Lemma add_rows_spec cells cols n :
  Forall (fun r => length r = length cols) cells -> Forall (fun c => length c = n) cols ->
  length (add_rows cols cells) = length cols /\
  Forall (fun c => length c = n + length cells)%nat (add_rows cols cells) /\
  forall i j, add_rows cols cells !! j ≫= (.!! i) =
    if decide (i < n)%nat then cols !! j ≫= (.!! i) else cells !! (i - n)%nat ≫= (.!! j).
Proof.
  unfold add_rows. revert cols n. induction cells as [|row cells IH]; intros cols n Hr Hc; cbn [fold_left length].
  { split; [done|]. rewrite Nat.add_0_r. split; [done|]. intros i j. case_decide as Hi; [done|].
    destruct (cols !! j) as [c|] eqn:E; [|done]. rewrite Forall_lookup in Hc. apply Hc in E. simpl.
    rewrite lookup_ge_None_2 by lia. done. }
  apply Forall_cons in Hr as [Hrow Hr].
  assert (Hl : length (add_row cols row) = length cols) by (unfold add_row; rewrite length_zip_with; lia).
  assert (Hc' : Forall (fun c => length c = S n) (add_row cols row)).
  { unfold add_row. clear -Hc Hrow. revert row Hrow. induction Hc as [|c cols Hc _ IH]; intros [|v row] Hrow; try done.
    cbn [zip_with]. constructor; [rewrite length_app; simpl; lia|]. apply IH. by injection Hrow. }
  destruct (IH (add_row cols row) (S n)) as (D1 & D2 & D3); [by rewrite Hl|done|].
  split; [congruence|]. split; [by replace (n + S (length cells))%nat with (S n + length cells)%nat by lia|].
  intros i j. rewrite D3. unfold add_row. rewrite lookup_zip_with.
  destruct (cols !! j) as [c|] eqn:Ec, (row !! j) as [v|] eqn:Ev; cbn [mbind option_bind]; simpl.
  - rewrite Forall_lookup in Hc. specialize (Hc _ _ Ec). repeat case_decide; try lia.
    + by rewrite lookup_app_l by lia.
    + replace i with (length c) by lia. rewrite list_lookup_middle by done.
      replace (length c - n)%nat with 0%nat by lia. simpl. done.
    + replace (i - n)%nat with (S (i - S n)) by lia. done.
  - apply lookup_lt_Some in Ec. apply lookup_ge_None in Ev. lia.
  - apply lookup_ge_None in Ec. apply lookup_lt_Some in Ev. lia.
  - apply lookup_ge_None in Ev. repeat case_decide; try lia; try done.
    + replace (i - n)%nat with 0%nat by lia. simpl. symmetry. by apply lookup_ge_None.
    + by replace (i - n)%nat with (S (i - S n)) by lia.
Qed.

Lemma push_row_spec bs cols row index connection :
  Forall2 builder_holds bs cols ->
  match push_row bs row index connection with
  | Err e => decode_row (List.map builder_plan bs) row index connection = Err e
  | Ok bs' => List.map builder_plan bs' = List.map builder_plan bs /\
      exists vs, decode_row (List.map builder_plan bs) row index connection = Ok vs /\ Forall2 builder_holds bs' (add_row cols vs)
  end.
Proof.
  intros Hb. revert row index. induction Hb as [|b cs bs cols Hb _ IH]; intros row index; cbn [push_row List.map decode_row].
  { split; [done|]. exists []. split; [done|constructor]. }
  destruct (builder_push_spec b cs row index connection Hb) as [Hrow Hp].
  destruct (builder_push b row index connection) as [r row1]. destruct (decode_cell (builder_plan b) row index connection) as [d row2].
  cbn [fst snd] in *. subst row2. destruct r as [b'|e]; [|by rewrite Hp]. destruct Hp as (Hplan & v & -> & Hv). cbn [result_bind].
  specialize (IH row1 (S index)). destruct (push_row bs row1 (S index) connection) as [bs'|e]; cbn [result_bind].
  - destruct IH as (Hplans & vs & -> & Hvs). cbn [result_bind List.map]. split; [congruence|].
    exists (v :: vs). split; [done|]. by constructor.
  - by rewrite IH.
Qed.

Lemma fetch_rows_spec max c bs cols n :
  Forall2 builder_holds bs cols -> List.map builder_plan bs = plans c ->
  match draw max c with
  | (Err e, c') => fetch_rows max c bs n = (Err e, c') /\ cursor_failed c' = true
  | (Ok cells, c') => exists bs', fetch_rows max c bs n = (Ok (bs', n + length cells)%nat, c') /\
      Forall2 builder_holds bs' (add_rows cols cells)
  end.
Proof.
  revert c bs cols n. induction max as [|max IH]; intros c bs cols n Hb Hp; cbn [draw fetch_rows].
  { exists bs. by rewrite Nat.add_0_r. }
  destruct (cursor_next (inner c)) as [[[row|e]|] l]; [|done|exists bs; by rewrite Nat.add_0_r].
  pose proof (push_row_spec bs cols row 0 (cursor_connection_id c) Hb) as Hr. rewrite Hp in Hr.
  destruct (push_row bs row 0 _) as [bs'|e]; [|by rewrite Hr]. destruct Hr as (Hp' & vs & -> & Hvs).
  specialize (IH (with_state c l (cursor_failed c) (cursor_exhausted c)) bs' (add_row cols vs) (n + 1)%nat Hvs Hp').
  destruct (draw max _) as [[cells|e] c']; [|done]. destruct IH as (bs'' & -> & Hbs). exists bs''. split; [|done].
  simpl. do 3 f_equal. lia.
Qed.

Lemma finish_all_spec bs cols n :
  Forall2 builder_holds bs cols -> Forall (fun c => length c = n) cols ->
  exists cs, finish_all bs = Ret (Ok cs) /\ Forall (fun c => column_ok c /\ column_len c = n) cs /\ length cs = length cols /\
    forall i j, match cs !! j with Some c => column_value c i | None => None end = cols !! j ≫= (.!! i).
Proof.
  induction 1 as [|b col bs cols Hb _ IH]; intros Hn; cbn [finish_all]; [by exists []|].
  apply Forall_cons in Hn as [Hc Hn]. destruct (finish_spec b col Hb) as (c & -> & Hok & Hlen & Hv). cbn [rbind].
  destruct (IH Hn) as (cs & -> & Hcs & Hl & Hvs). cbn [rbind result_bind]. exists (c :: cs).
  split; [done|]. split; [constructor; [split; [done|lia]|done]|]. split; [simpl; lia|].
  intros i [|j]; simpl; [apply Hv|apply Hvs].
Qed.

Lemma batch_new_columns (cs : list (Column OracleLobStream)) n :
  Forall (fun c => column_ok c /\ column_len c = n) cs ->
  exists b, batch_new cs = Ok b /\ batch_ok b /\ columns b = cs /\ (cs <> [] -> row_count b = n).
Proof.
  intros Hcs. unfold batch_new. set (rows := match cs with [] => 0%nat | c :: _ => column_len c end).
  assert (Hrows : cs <> [] -> rows = n) by (destruct Hcs as [|c cs [_ <-]]; done).
  assert (E : first_bad rows 0 cs = None).
  { apply first_bad_None, Forall_forall. intros c Hin. rewrite Hrows by (by intros ->; apply not_elem_of_nil in Hin).
    rewrite Forall_forall in Hcs. by apply Hcs. }
  rewrite E. eexists. split; [reflexivity|]. split_and!; [|done|done]. unfold batch_ok. cbn [columns row_count].
  destruct cs as [|c0 cs']; [constructor|]. by rewrite Hrows.
Qed.

End Batches.

(** ** The guarantees *)

Section Guarantees.
Context `{OracleRows} {A : Alloc}.

(** A column the library can decode without risking the process. *)
Definition decodable (allow : bool) (meta : Described) : Prop :=
  let t := (plan_for (md_type meta)).1 in
  t <> TCursor /\ (t = TTimestampWithTimeZone -> allow = true) /\ (plan_for (md_type meta)).2 <> PlanUnsupported.

Lemma column_metadata_type meta : sql_type (column_metadata meta) = (plan_for (md_type meta)).1.
Proof.
  unfold column_metadata. destruct (plan_for (md_type meta)) as [t p]. cbn [fst].
  destruct (0 <? md_max_size meta); destruct t; done.
Qed.

Lemma describe_column_spec allow meta :
  match describe_column allow meta with
  | Ok x => decodable allow meta /\ x = (column_metadata meta, (plan_for (md_type meta)).2)
  | Err e => ~ decodable allow meta /\ kind e = UnsupportedKind
  end.
Proof.
  unfold describe_column, decodable. rewrite column_metadata_type.
  destruct (plan_for (md_type meta)) as [t p]; cbn [fst snd].
  destruct t; try (by split; [intros [Hn _]|]); destruct allow; cbn [negb andb];
    try (by split; [intros (_ & Hn & _); discriminate (Hn eq_refl)|]);
    destruct p; (split; [|done]); try (by split_and!); by intros (_ & _ & Hn).
Qed.

(** A result set opens exactly when every column of its description can be
    decoded, and then has one plan and one description per column; otherwise it
    is refused as unsupported before a value is read. *)
Lemma cursor_new_spec c id connection allow :
  match cursor_new c id connection allow with
  | Ok cursor => Forall (decodable allow) (cursor_described c) /\
      cursor = mkCursor id connection (List.map column_metadata (cursor_described c))
        (List.map (fun m => (plan_for (md_type m)).2) (cursor_described c)) c false false
  | Err e => ~ Forall (decodable allow) (cursor_described c) /\ kind e = UnsupportedKind
  end.
Proof.
  unfold cursor_new.
  assert (Hd : match describe allow (cursor_described c) with
    | Ok cs => Forall (decodable allow) (cursor_described c) /\
        cs = List.map (fun m => (column_metadata m, (plan_for (md_type m)).2)) (cursor_described c)
    | Err e => ~ Forall (decodable allow) (cursor_described c) /\ kind e = UnsupportedKind end).
  { induction (cursor_described c) as [|m ms IH]; cbn [describe List.map]; [by split|].
    pose proof (describe_column_spec allow m) as Hm. destruct (describe_column allow m) as [x|e]; cbn [result_bind].
    - destruct Hm as [Hm ->]. destruct (describe allow ms) as [cs|e]; cbn [result_bind].
      + destruct IH as [Hms ->]. split; [by constructor|done].
      + destruct IH as [Hms Hk]. split; [|done]. by intros [_ ?]%Forall_cons.
    - destruct Hm as [Hm Hk]. split; [|done]. by intros [? _]%Forall_cons. }
  destruct (describe _ _) as [cs|e]; cbn [result_bind]; [|done]. destruct Hd as [Hd ->]. split; [done|].
  f_equal; rewrite List.map_map; apply List.map_ext; done.
Qed.

(** C11: a batch is the rows, cell by cell.  A usable cursor fetches at most as
    many rows as asked, in order; the batch is well formed, its length is their
    number and each of its cells is what its row holds there, NULL as NULL.  It
    ends only when the library has no more rows.  When a row cannot be read or
    decoded the fetch gives that row's error and no batch, and the cursor is
    finished: it answers nothing but errors.  After the end it gives empty
    batches, after a close an error, without reading. *)
Theorem fetched_batch_is_the_rows c max
  (usable : cursor_failed c = false) (more : cursor_exhausted c = false) :
  match draw max c with
  | (Ok cells, c') =>
      exists b, fetch_batch false max c = Ret (Ok b, c') /\ batch_ok b /\
        (plans c <> [] -> row_count b = length cells) /\ (length cells <= max)%nat /\
        (forall i j, batch_value b i j = cells !! i ≫= (.!! j)) /\
        cursor_failed c' = false /\ (cursor_exhausted c' = false -> length cells = max) /\
        (cursor_exhausted c' = true -> forall n, fetch_batch false n c' = Ret (Ok batch_empty, c'))
  | (Err e, c') => fetch_batch false max c = Ret (Err e, c') /\
      forall n, exists e', fetch_batch false n c' = Ret (Err e', c')
  end /\
  forall n, fetch_batch true n c = Ret (Err (connection_closed (lit "cursor")), c).
Proof.
  split; [|done]. unfold fetch_batch at 1 3. unfold cursor_guard at 1 2. rewrite usable, more.
  set (bs := List.map _ (plans c)).
  assert (Hbs : Forall2 builder_holds bs (replicate (length (plans c)) []) /\ List.map builder_plan bs = plans c).
  { unfold bs. clear. induction (plans c) as [|p ps [IH1 IH2]]; [by split|].
    destruct (builder_new_holds p (Nat.min max (Z.to_nat 4096))) as [D1 D2]. split; [by constructor|].
    cbn [List.map]. by rewrite D2, IH2. }
  destruct Hbs as [Hbs Hplans]. pose proof (fetch_rows_spec max c bs _ 0 Hbs Hplans) as Hf.
  destruct (draw max c) as [[cells|e] c'] eqn:Ed.
  - destruct Hf as (bs' & -> & Hbs'). apply draw_shape in Ed as (D1 & D2 & D3 & D4 & D5).
    destruct (add_rows_spec cells (replicate (length (plans c)) []) 0) as (R1 & R2 & R3).
    { by rewrite length_replicate. } { by apply Forall_replicate. }
    assert (Hend : cursor_exhausted c' = true -> forall n, fetch_batch false n c' = Ret (Ok batch_empty, c')).
    { intros Hx n. unfold fetch_batch, cursor_guard. by rewrite D3, usable, Hx. }
    rewrite D3, usable. cbn [Nat.add]. destruct (Nat.eqb_spec (length cells) 0) as [E0|E0].
    + apply nil_length_inv in E0 as ->. exists batch_empty. split; [done|]. split; [by apply Forall_nil|]. split_and!; try done; auto.
    + destruct (finish_all_spec bs' _ (length cells) Hbs' R2) as (cs & -> & Hcs & Hlen & Hv). cbn [rbind result_bind].
      destruct (batch_new_columns cs (length cells) Hcs) as (b & -> & Hok & Hcols & Hrows).
      exists b. split; [done|]. split; [done|]. split_and!; try done.
      * intros Hp. apply Hrows. intros ->. rewrite R1, length_replicate in Hlen. by destruct (plans c).
      * intros i j. unfold batch_value. rewrite Hcols, Hv, R3. rewrite decide_False by lia. by rewrite Nat.sub_0_r.
      * auto.
  - destruct Hf as [-> Hfail]. split; [done|]. intros n. unfold fetch_batch, cursor_guard. rewrite Hfail. eauto.
Qed.

End Guarantees.

(** ** A library to evaluate a result set on: every value is a text *)

#[export] Instance sample_rows : @OracleRows sample_oracle_error sample_timestamps sample_numbers sample_lobs := {
  Row := list (option str);
  onum_display n := n;
  get_number r i := Ok (default None (r !! i));
  get_f32 _ _ := Ok None;
  get_f64 _ _ := Ok None;
  get_string r i := Ok (default None (r !! i));
  get_bytes _ _ := Ok None;
  get_bool _ _ := Ok None;
  get_timestamp _ _ := Ok None;
  get_interval_ds _ _ := Ok None;
  get_interval_ym _ _ := Ok None;
  take_lob_value r i := (Ok (default None (r !! i)), r);
  LibCursor := list Described * list (list (option str));
  cursor_described c := c.1;
  cursor_next c := match c.2 with [] => (None, c) | r :: rows => (Some (Ok r), (c.1, rows)) end;
}.

Definition sample_result : OracleCursor :=
  mkCursor 1 1 [] [PlanNumber; PlanText]
    ([], [[Some (lit "3.14"); None]; [None; Some (lit "two")]; [Some (lit "0"); Some []]]) false false.

Lemma fetched_batch_is_the_rows_witness :
  exists b c, fetch_batch false 2 sample_result = Ret (Ok b, c) /\ row_count b = 2%nat /\
    batch_value b 0 1 = Some VNull /\ batch_value b 1 1 = Some (VText (lit "two")) /\ batch_value b 1 0 = Some VNull.
Proof.
  destruct (fetched_batch_is_the_rows (A := std_alloc) sample_result 2 eq_refl eq_refl) as [H _].
  assert (Ed : match draw 2 sample_result with
    | (Ok cells, _) => (length cells, cells !! 0%nat ≫= (.!! 1%nat), cells !! 1%nat ≫= (.!! 1%nat), cells !! 1%nat ≫= (.!! 0%nat))
    | _ => (0%nat, None, None, None) end = (2%nat, Some VNull, Some (VText (lit "two")), Some VNull)) by evaluate.
  destruct (draw 2 sample_result) as [[cells|e] c]; [|discriminate Ed]. injection Ed as E1 E2 E3 E4.
  destruct H as (b & Hb & _ & Hr & _ & Hv & _). exists b, c. rewrite !Hv. split; [exact Hb|].
  split; [rewrite <- E1; by apply Hr|]. split; [exact E2|]. split; [exact E3|exact E4].
Defined.
