(* ===== verification/Format.v ===== *)
(** * Cells as text for the grid (ffi/src/format.rs)

    One column of one window of rows, rendered into an arena: one buffer and
    the offsets between its strings.  Numbers and timestamps arrive as their
    canonical [Display]; what is modelled here applies the caller's settings to
    it: separators, digit groups, the limit on fraction digits with its
    rounding, hexadecimal bytes, the styles of a timestamp.

    [ReldexStr] is [option str]: [None] when the caller's pointer is null or
    its bytes are no UTF-8.  The [Display] of the two binary floats is the
    standard library's, a parameter.  The scratch buffers are cleared before
    each use and are left out. *)

From S2P Require Import Prelude RustStr RustText Number NumberProps Temporal Errors Columns ServerOutput.
Open Scope Z_scope.
Open Scope run_scope.

(** ** Settings *)

Definition style_date_only : Z := 3.
Definition style_space : Z := 2.
Definition style_iso : Z := 1.
Definition hex_lower : Z := 2.

Record FormatOptions := mkFormatOptions {
  decimal_separator : Z;
  grouping_separator : Z;
  o_grouping_size : Z;
  o_timestamp_style : Z;
  bytes_style : Z;
  o_max_fraction_digits : Z;
  max_bytes_rendered : Z;
  o_null_text : option str;
  o_taken_text : option str;
}.

Definition options_default : FormatOptions :=
  {| decimal_separator := 0; grouping_separator := 0; o_grouping_size := 0;
     o_timestamp_style := style_iso; bytes_style := 1; o_max_fraction_digits := -1;
     max_bytes_rendered := 0; o_null_text := Some []; o_taken_text := Some [] |}.

Record Resolved := mkResolved {
  decimal_point : char;
  grouping : option char;
  grouping_size : nat;
  timestamp_style : Z;
  bytes_upper : bool;
  max_fraction_digits : option nat;
  max_bytes : nat;
  null_text : str;
  taken_text : str;
}.

(** [char::from_u32(v).filter(|c| *c != '\0')]. *)
Definition separator (v : Z) : option char :=
  if is_scalar v && negb (v =? 0) then Some v else None.

Definition resolve (o : FormatOptions) : Resolved :=
  {| decimal_point := default DOT (separator (decimal_separator o));
     grouping := separator (grouping_separator o);
     grouping_size := if o_grouping_size o =? 0 then 3 else Z.to_nat (o_grouping_size o);
     timestamp_style := o_timestamp_style o;
     bytes_upper := negb (bytes_style o =? hex_lower);
     max_fraction_digits :=
       if 0 <? o_max_fraction_digits o then Some (Z.to_nat (o_max_fraction_digits o)) else None;
     max_bytes := if max_bytes_rendered o =? 0 then 32 else Z.to_nat (max_bytes_rendered o);
     null_text := default [] (o_null_text o);
     taken_text := default (lit "[LOB]") (o_taken_text o) |}.

(** ** The arena *)

Record Arena := mkArena { arena_buffer : str; arena_offsets : list nat }.

Definition arena_new : Arena := {| arena_buffer := []; arena_offsets := [0%nat] |}.

Definition arena_push (a : Arena) (text : str) : Arena :=
  let buffer := arena_buffer a ++ text in
  {| arena_buffer := buffer; arena_offsets := arena_offsets a ++ [blen buffer] |}.

Definition arena_clear (a : Arena) : Arena := {| arena_buffer := []; arena_offsets := [0%nat] |}.

Definition arena_count (a : Arena) : nat := length (arena_offsets a) - 1.

(** What a reader of the view takes for string [i]: [data[offsets[i]..offsets[i+1]]]. *)
Definition arena_string (a : Arena) (i : nat) : run str :=
  let! from := of_option (arena_offsets a !! i) in
  let! to := of_option (arena_offsets a !! S i) in
  slice (arena_buffer a) from to.

(** ** Numbers *)

Definition NINE : Z := 57.

(** [digits[index] += 1] on a [u8]. *)
Definition u8_succ (d : Z) : run Z := if d =? 255 then Panic else Ret (d + 1).

(** The loop of [round_into]: the carry runs from [index] to the front, and
    over it when every digit was a nine. *)
Fixpoint carry (index : nat) (digits : list Z) (integer_len : nat) : run (list Z * nat) :=
  match index with
  | O => Ret (49 :: digits, S integer_len)
  | S i =>
      let! d := of_option (digits !! i) in
      if d =? NINE then carry i (<[i := 48]> digits) integer_len
      else let! d' := u8_succ d in Ret (<[i := d']> digits, integer_len)
  end.

(** [while fraction_len > 0 && digits[integer_len + fraction_len - 1] == b'0']. *)
Fixpoint trim_fraction (digits : list Z) (integer_len fraction_len : nat) : run nat :=
  match fraction_len with
  | O => Ret 0%nat
  | S f =>
      let! d := of_option (digits !! (integer_len + f)%nat) in
      if d =? 48 then trim_fraction digits integer_len f else Ret fraction_len
  end.

Definition round_into (integer fraction : str) (limit : nat) : run (list Z * nat * nat) :=
  let digits := as_bytes integer ++ take limit (as_bytes fraction) in
  let! r :=
    match as_bytes fraction !! limit with
    | Some byte => if 53 <=? byte then carry (length digits) digits (blen integer) else Ret (digits, blen integer)
    | None => Ret (digits, blen integer)
    end in
  let (digits, integer_len) := r in
  if (length digits <? integer_len)%nat then Panic
  else
    let! fraction_len := trim_fraction digits integer_len (length digits - integer_len) in
    Ret (digits, integer_len, fraction_len).

(** [std::str::from_utf8(bytes).unwrap_or_default()]. *)
Definition from_utf8_or_default (bytes : list Z) : str :=
  let (text, replaced) := decode_line bytes in if replaced then [] else text.

(** The digits of the integer part, a separator before each full group. *)
Fixpoint group_from (separator : char) (size : nat) (index : nat) (whole : list Z) : str :=
  match whole with
  | [] => []
  | digit :: rest =>
      let remaining := length whole in
      (if (0 <? index)%nat && (0 <? size)%nat && (remaining mod size =? 0)%nat then [separator] else [])
        ++ digit :: group_from separator size (S index) rest
  end.

Definition group_digits (options : Resolved) (whole : list Z) : str :=
  match grouping options with
  | None => from_utf8_or_default whole
  | Some separator => group_from separator (grouping_size options) 0 whole
  end.

Definition all_digits (s : str) : bool := forallb is_ascii_digit (as_bytes s).

(** The digits to print, and how they split. *)
Definition digits_to_print (options : Resolved) (integer fraction : str) : run (list Z * nat * nat) :=
  match max_fraction_digits options with
  | Some limit =>
      if (limit <? blen fraction)%nat then round_into integer fraction limit
      else Ret (as_bytes integer ++ as_bytes fraction, blen integer, blen fraction)
  | None => Ret (as_bytes integer ++ as_bytes fraction, blen integer, blen fraction)
  end.

Definition format_number_into (out canonical : str) (options : Resolved) : run str :=
  let (negative, rest) :=
    match strip_prefix canonical [MINUS] with
    | Some rest => (true, rest)
    | None => (false, canonical)
    end in
  let (integer, fraction) :=
    match break_str [DOT] rest with
    | Some (integer, fraction) => (integer, fraction)
    | None => (rest, [])
    end in
  if negb (all_digits integer) || negb (all_digits fraction) then Ret (out ++ canonical)
  else
    let! r := digits_to_print options integer fraction in
    let '(digits, integer_len, fraction_len) := r in
    if (length digits <? integer_len)%nat || (length digits <? integer_len + fraction_len)%nat then Panic
    else
      let whole := take integer_len digits in
      let part := take fraction_len (drop integer_len digits) in
      Ret (out ++ (if negative then [MINUS] else [])
               ++ (if (integer_len =? 0)%nat then [48] else [])
               ++ group_digits options whole
               ++ (if (0 <? fraction_len)%nat then decimal_point options :: from_utf8_or_default part else [])).

(** ** Bytes and timestamps *)

Definition HEX_UPPER : str := lit "0123456789ABCDEF".
Definition HEX_LOWER : str := lit "0123456789abcdef".
Definition ELLIPSIS : char := 0x2026.

(** [table[usize::from(nibble)]]: a nibble of a byte is below sixteen. *)
Definition hex_digit (table : str) (nibble : Z) : char := nth (Z.to_nat nibble) table 0.

Definition hex_byte (table : str) (byte : Z) : str :=
  [hex_digit table (Z.shiftr byte 4); hex_digit table (Z.land byte 0x0F)].

Definition format_bytes_into (out : str) (bytes : list Z) (options : Resolved) : str :=
  let shown := Nat.min (length bytes) (max_bytes options) in
  let table := if bytes_upper options then HEX_UPPER else HEX_LOWER in
  out ++ flat_map (hex_byte table) (take shown bytes)
      ++ (if (shown <? length bytes)%nat then [ELLIPSIS] else []).

Definition CAPITAL_T : char := 84.
Definition SPACE : char := 32.

Definition format_timestamp_into (out canonical : str) (options : Resolved) : str :=
  if timestamp_style options =? style_date_only then
    out ++ match break_str [CAPITAL_T] canonical with Some (date, _) => date | None => canonical end
  else
    match (if timestamp_style options =? style_space then break_str [CAPITAL_T] canonical else None) with
    | Some (date, time) => out ++ date ++ [SPACE] ++ time
    | None => out ++ canonical
    end.

(** ** Cells and windows *)

Section cells.
Context {Loc : Type} (show_float show_double : Z -> str).

Definition kind_is_lob (kind : option ColumnKind) : bool :=
  match kind with Some KLob => true | _ => false end.

Definition format_value_into (out : str) (value : ValueRef Loc) (kind : option ColumnKind)
    (options : Resolved) : run str :=
  match value with
  | VNull => Ret (out ++ null_text options)
  | VTaken => Ret (out ++ taken_text options)
  | VBoolean b => Ret (out ++ (if b then lit "true" else lit "false"))
  | VNumber n => format_number_into out (display n) options
  | VFloat f => format_number_into out (show_float f) options
  | VDouble f => format_number_into out (show_double f) options
  | VText s | VJson s | VUnsupported s => Ret (out ++ s)
  | VBytes b => Ret (format_bytes_into out b options)
  | VTimestamp t => Ret (format_timestamp_into out (timestamp_display t) options)
  | VLob _ => Ret (if kind_is_lob kind then out ++ taken_text options else out)
  end.

(** One turn of the loop over the rows. *)
Definition format_row (batch : RowBatch Loc) (column : nat) (kind : option ColumnKind)
    (options : Resolved) (a : Arena) (row : nat) : run Arena :=
  let! buffer :=
    match batch_value batch row column with
    | None => Ret (arena_buffer a ++ null_text options)
    | Some value => format_value_into (arena_buffer a) value kind options
    end in
  Ret {| arena_buffer := buffer; arena_offsets := arena_offsets a ++ [blen buffer] |}.

Fixpoint format_rows (batch : RowBatch Loc) (column : nat) (kind : option ColumnKind)
    (options : Resolved) (rows : list nat) (a : Arena) : run Arena :=
  match rows with
  | [] => Ret a
  | row :: rows' =>
      let! a' := format_row batch column kind options a row in
      format_rows batch column kind options rows' a'
  end.

(** [row_start..row_start.saturating_add(row_count).min(rows)]. *)
Definition window_rows (row_start row_count rows : nat) : list nat :=
  let stop := Z.to_nat (Z.min (sat_add (Z.of_nat row_start) (Z.of_nat row_count)) (Z.of_nat rows)) in
  seq row_start (stop - row_start).

Inductive FormatStatus := FormatOk | FormatNotFound (column columns : nat).

Definition batch_format_column (batch : RowBatch Loc) (column row_start rows_asked : nat)
    (options : FormatOptions) (a : Arena) : run (FormatStatus * Arena) :=
  let resolved := resolve options in
  let count := length (columns batch) in
  if (count <=? column)%nat then Ret (FormatNotFound column count, a)
  else
    let kind := (fun c => data_kind (data c)) <$> columns batch !! column in
    let! a' := format_rows batch column kind resolved (window_rows row_start rows_asked (row_count batch)) a in
    Ret (FormatOk, a').

End cells.

(** ** Digits *)

Lemma digits_lookup D i d : map ascii D !! i = Some d -> exists x, D !! i = Some x /\ d = ascii x.
Proof.
  revert i. induction D as [|x D IH]; intros [|i]; simpl; try done; [|apply IH].
  intros [= <-]. eauto.
Qed.

Lemma dval_insert D i x y :
  D !! i = Some x -> dval (<[i := y]> D) = dval D + (y - x) * 10 ^ Z.of_nat (length D - S i).
Proof.
  intros H. pose proof (lookup_lt_Some _ _ _ H) as Hi.
  rewrite insert_take_drop by done.
  assert (dval D = dval (take i D ++ x :: drop (S i) D)) as -> by (by rewrite take_drop_middle).
  rewrite !dval_app, !dval_cons. cbn [length]. rewrite length_drop. lia.
Qed.

Lemma map_insert D i y : <[i := ascii y]> (map ascii D) = map ascii (<[i := y]> D).
Proof. revert i. induction D as [|x D IH]; intros [|i]; simpl; f_equal; auto. Qed.

Lemma nines_insert D i y : Forall nines D -> 0 <= y <= 9 -> Forall nines (<[i := y]> D).
Proof. intros. by apply Forall_insert. Qed.

Lemma nines_lookup D i x : Forall nines D -> D !! i = Some x -> 0 <= x <= 9.
Proof. rewrite Forall_lookup. eauto. Qed.

(** The carry adds one at its place. *)
Lemma carry_spec k D il :
  Forall nines D -> (k <= length D)%nat ->
  wp (carry k (map ascii D) il) (fun r => exists D', r.1 = map ascii D' /\ Forall nines D' /\
    dval D' = dval D + 10 ^ Z.of_nat (length D - k) /\
    (length D' + il = length D + r.2)%nat /\ (il <= r.2)%nat).
Proof.
  revert D. induction k as [|i IH]; intros D HD Hk; cbn [carry].
  { exists (1 :: D). rewrite dval_cons, Nat.sub_0_r. cbn. split_and!; try done; try lia.
    constructor; [lia|done]. }
  destruct (map ascii D !! i) as [d|] eqn:E; cbn [of_option rbind].
  2:{ apply lookup_ge_None in E. rewrite length_map in E. lia. }
  apply digits_lookup in E as (x & Ex & ->).
  assert (0 <= x <= 9) as Hx by (by apply (nines_lookup D i)).
  unfold NINE, ascii. destruct (48 + x =? 57) eqn:E9; boolify.
  - change 48 with (ascii 0). rewrite map_insert.
    eapply wp_mono; [apply IH; [apply nines_insert; [done|lia]|rewrite length_insert; lia]|].
    intros r (D' & Hr & HD' & Hv & Hlen & Hle). exists D'. rewrite length_insert in Hv, Hlen.
    rewrite (dval_insert _ _ x) in Hv by done. split_and!; try done.
    rewrite Hv. replace (length D - i)%nat with (S (length D - S i)) by lia.
    rewrite Nat2Z.inj_succ, Z.pow_succ_r by lia. replace x with 9 by lia. lia.
  - unfold u8_succ. rewrite (proj2 (Z.eqb_neq _ _)) by lia. cbn [rbind].
    replace (48 + x + 1) with (ascii (x + 1)) by (unfold ascii; lia). rewrite map_insert.
    exists (<[i := x + 1]> D). cbn [fst snd]. rewrite length_insert, (dval_insert _ _ x) by done.
    split_and!; try done; try lia. apply nines_insert; [done|lia].
Qed.

(** Zeros at the end of the fraction are not printed. *)
Lemma trim_fraction_spec D il f :
  (il + f <= length D)%nat ->
  wp (trim_fraction (map ascii D) il f) (fun f' => (f' <= f)%nat /\
    dval (take (il + f) D) = dval (take (il + f') D) * 10 ^ Z.of_nat (f - f')).
Proof.
  induction f as [|f IH]; intros Hf; cbn [trim_fraction].
  { cbn. split; [lia|]. lia. }
  destruct (map ascii D !! (il + f)%nat) as [d|] eqn:E; cbn [of_option rbind].
  2:{ apply lookup_ge_None in E. rewrite length_map in E. lia. }
  apply digits_lookup in E as (x & Ex & ->). unfold ascii. destruct (48 + x =? 48) eqn:E0; boolify.
  - eapply wp_mono; [apply IH; lia|]. intros f' [Hle Hv]. split; [lia|].
    rewrite Nat.add_succ_r, (take_S_r _ _ _ Ex), dval_app, Hv, dval_cons.
    replace x with 0 by lia. cbn [length]. replace (S f - f')%nat with (S (f - f')) by lia.
    change (dval []) with 0. change (10 ^ Z.of_nat 1) with 10.
    rewrite Nat2Z.inj_succ, Z.pow_succ_r by lia. lia.
  - cbn [wp]. rewrite Nat.sub_diag, Z.mul_1_r. by split.
Qed.

Lemma as_bytes_digits D : Forall nines D -> as_bytes (map ascii D) = map ascii D.
Proof.
  intros HD. apply as_bytes_literal. induction HD; cbn [map]; constructor; [|done].
  unfold literal_char, ascii. lia.
Qed.

Lemma blen_digits D : Forall nines D -> blen (map ascii D) = length D.
Proof. intros HD. by rewrite <- length_as_bytes, as_bytes_digits, length_map. Qed.

Lemma from_utf8_digits D : Forall nines D -> from_utf8_or_default (map ascii D) = map ascii D.
Proof.
  intros HD. unfold from_utf8_or_default. rewrite <- (as_bytes_digits D) at 1 by done.
  rewrite decode_as_bytes; [done|]. unfold is_text.
  induction HD; cbn [map]; constructor; [|done]. unfold is_scalar, ascii.
  rewrite orb_true_iff, !andb_true_iff, !Z.leb_le. lia.
Qed.

Lemma all_digits_digits D : Forall nines D -> all_digits (map ascii D) = true.
Proof.
  intros HD. unfold all_digits. rewrite as_bytes_digits by done. apply forallb_forall.
  intros b Hb. pose proof (ascii_digits _ HD) as H. rewrite List.Forall_forall in H. auto.
Qed.

(** ** Rounding *)

(** Half away from zero, of [v] units of [10^-169], to [limit] fraction digits. *)
Definition round_half_away (limit : nat) (v : Z) : Z :=
  let u := 10 ^ (169 - Z.of_nat limit) in
  Z.sgn v * ((2 * Z.abs v + u) / (2 * u)) * u.

Definition shown_value (limit : option nat) (v : Z) : Z :=
  match limit with
  | Some k => if (k <=? 169)%nat then round_half_away k v else v
  | None => v
  end.

(** The value of [ds] with [f] fraction digits, in units of [10^-169]. *)
Definition scaled_value (ds : list Z) (f : nat) : Z := dval ds * 10 ^ (169 - Z.of_nat f).

(** One digit decides: the quotient is the kept digits, plus one from five. *)
Lemma half_up A b R :
  0 <= dval A -> Forall nines (b :: R) ->
  let x := dval (A ++ b :: R) in let p := 10 ^ Z.of_nat (length (b :: R)) in
  (2 * x + p) / (2 * p) = dval A + (if 5 <=? b then 1 else 0).
Proof.
  intros HA HR x p. apply Forall_cons in HR as [Hb HR]. unfold x, p. rewrite dval_app, dval_cons.
  pose proof (dval_bound R HR) as HB. cbn [length]. rewrite Nat2Z.inj_succ, Z.pow_succ_r by lia.
  set (q := 10 ^ Z.of_nat (length R)) in *. symmetry.
  destruct (5 <=? b) eqn:E; boolify.
  - apply (Z.div_unique_pos _ _ _ (2 * (b * q + dval R) - 10 * q)); nia.
  - apply (Z.div_unique_pos _ _ _ (2 * (b * q + dval R) + 10 * q)); nia.
Qed.

Lemma pow10_split (a b c : Z) : 0 <= a -> 0 <= b -> c = a + b -> 10 ^ c = 10 ^ a * 10 ^ b.
Proof. intros ? ? ->. by apply Z.pow_add_r. Qed.

(** What a rounded digit run is worth. *)
Lemma round_scaled neg D F limit c :
  0 <= dval D -> Forall nines (take limit F) -> Forall nines (drop limit F) -> (limit < length F <= 169)%nat ->
  c = (if 5 <=? default 0 (F !! limit) then 1 else 0) ->
  round_half_away limit (sgn neg * scaled_value (D ++ F) (length F)) =
    sgn neg * ((dval (D ++ take limit F) + c) * 10 ^ (169 - Z.of_nat limit)).
Proof.
  intros HD HT HR Hl ->. unfold round_half_away, scaled_value.
  destruct (lookup_lt_is_Some_2 F limit) as [b Hb]; [lia|]. rewrite Hb. change (default 0 (Some b)) with b.
  assert (F = take limit F ++ b :: drop (S limit) F) as EF by (symmetry; by apply take_drop_middle).
  assert (Hdrop : drop limit F = b :: drop (S limit) F) by (by apply drop_S).
  rewrite Hdrop in HR. set (A := D ++ take limit F).
  assert (0 <= dval A) as HA.
  { unfold A. rewrite dval_app. pose proof (dval_bound _ HT). pose proof (pow10_pos (Z.of_nat (length (take limit F)))). nia. }
  pose proof (half_up A b (drop (S limit) F) HA HR) as H. cbv zeta in H.
  assert (D ++ F = A ++ b :: drop (S limit) F) as E by (unfold A; rewrite <- app_assoc; by f_equal).
  rewrite E. set (x := dval (A ++ b :: drop (S limit) F)) in *.
  assert (length (b :: drop (S limit) F) = length F - limit)%nat as EL by (rewrite <- Hdrop; apply length_drop).
  rewrite EL in H.
  rewrite (pow10_split (Z.of_nat (length F - limit)) (169 - Z.of_nat (length F)) (169 - Z.of_nat limit)) by lia.
  set (p := 10 ^ Z.of_nat (length F - limit)) in *. set (w := 10 ^ (169 - Z.of_nat (length F))).
  assert (0 < p) by (apply pow10_pos; lia). assert (0 < w) by (apply pow10_pos; lia).
  assert (0 <= x) as Hx.
  { unfold x. rewrite dval_app. pose proof (dval_bound _ HR). pose proof (pow10_pos (Z.of_nat (length (b :: drop (S limit) F)))). nia. }
  assert (Z.abs (sgn neg * (x * w)) = x * w) as -> by (destruct neg; cbn [sgn]; nia).
  replace (2 * (x * w) + p * w) with ((2 * x + p) * w) by lia.
  replace (2 * (p * w)) with (2 * p * w) by lia. rewrite Z.div_mul_cancel_r by lia. rewrite H.
  destruct (decide (x = 0)) as [E0|E0].
  - rewrite E0 in *. rewrite Z.mul_0_l, Z.mul_0_r. cbn [Z.sgn].
    assert (2 * 0 + p < 2 * p) as Hlt by lia. rewrite Z.div_small in H by lia. rewrite <- H. lia.
  - assert (Z.sgn (sgn neg * (x * w)) = sgn neg) as ->; [|lia].
    destruct neg; cbn [sgn]; [apply Z.sgn_neg|apply Z.sgn_pos]; nia.
Qed.

(** The digits that are printed, how they split, and what they are worth. *)
Record printed (options : Resolved) (neg : bool) (I F : list Z) (r : list Z * nat * nat) : Prop := {
  printed_digits : exists D, r.1.1 = map ascii D /\ Forall nines D /\ (r.1.2 + r.2 <= length D)%nat /\
    sgn neg * scaled_value (take (r.1.2 + r.2) D) r.2 =
      shown_value (max_fraction_digits options) (sgn neg * scaled_value (I ++ F) (length F));
  printed_integer : (length I <= r.1.2)%nat;
  printed_fraction : (r.2 <= length F)%nat;
  printed_limit : forall k, max_fraction_digits options = Some k -> (r.2 <= k)%nat;
}.

Lemma round_into_spec options neg I F limit :
  Forall nines I -> Forall nines F -> (limit < length F <= 169)%nat -> max_fraction_digits options = Some limit ->
  wp (round_into (map ascii I) (map ascii F) limit) (printed options neg I F).
Proof.
  intros HI HF Hl Hk. unfold round_into. rewrite !as_bytes_digits, blen_digits by done.
  rewrite firstn_map, <- map_app. set (A := I ++ take limit F).
  assert (Forall nines A) as HA by (apply Forall_app; split; [done|by apply Forall_take]).
  assert (length A = length I + limit)%nat as LA by (unfold A; rewrite length_app, length_take; lia).
  set (c := if 5 <=? default 0 (F !! limit) then 1 else 0).
  apply wp_bind with (R := fun r => exists D, r.1 = map ascii D /\ Forall nines D /\ dval D = dval A + c /\
    (length D + length I = length A + r.2)%nat /\ (length I <= r.2)%nat).
  { destruct (lookup_lt_is_Some_2 F limit) as [b Hb]; [lia|]. unfold c. rewrite Hb. change (default 0 (Some b)) with b.
    assert (map ascii F !! limit = Some (ascii b)) as ->.
    { clear -Hb. revert limit Hb. induction F as [|x F IH]; intros [|i]; simpl; try done; [congruence|apply IH]. }
    unfold ascii at 1. destruct (53 <=? 48 + b) eqn:E1, (5 <=? b) eqn:E2; boolify; try lia.
    - rewrite length_map. eapply wp_mono; [apply carry_spec; [done|lia]|].
      intros r (D & ? & ? & Hv & ? & ?). exists D. rewrite Nat.sub_diag in Hv. done.
    - exists A. cbn [fst snd]. split_and!; try done; lia. }
  intros [ds il] (D & Hds & HD & Hv & Hlen & Hle). cbn [fst snd] in *. subst ds. cbn [fst snd].
  rewrite length_map, (proj2 (Nat.ltb_ge _ _)) by lia.
  apply wp_bind with (R := fun f' => (f' <= length D - il)%nat /\
    dval D = dval (take (il + f') D) * 10 ^ Z.of_nat (length D - il - f')).
  { eapply wp_mono; [apply trim_fraction_spec; lia|]. intros f' [H1 H2]. split; [done|].
    rewrite <- H2. by rewrite take_ge by lia. }
  intros f' [Hf' Hval]. cbn [wp]. split; cbn [fst snd].
  - exists D. split_and!; [done|done|lia|]. rewrite Hk. cbn [shown_value].
    rewrite (proj2 (Nat.leb_le _ _)) by lia.
    rewrite (round_scaled neg I F limit c) by
      (try done; try (by apply Forall_take); try (by apply Forall_drop); pose proof (dval_bound _ HI); lia).
    fold A. rewrite <- Hv. unfold scaled_value. rewrite Hval.
    assert (length D - il = limit)%nat as -> by lia.
    rewrite (pow10_split (Z.of_nat (limit - f')) (169 - Z.of_nat limit) (169 - Z.of_nat f')) by lia. lia.
  - done.
  - lia.
  - intros k. rewrite Hk. intros [= <-]. lia.
Qed.

Lemma round_exact neg D f k :
  0 <= dval D -> (f <= k <= 169)%nat ->
  round_half_away k (sgn neg * scaled_value D f) = sgn neg * scaled_value D f.
Proof.
  intros HD Hk. unfold round_half_away, scaled_value.
  rewrite (pow10_split (Z.of_nat (k - f)) (169 - Z.of_nat k) (169 - Z.of_nat f)) by lia.
  set (u := 10 ^ (169 - Z.of_nat k)). set (q := 10 ^ Z.of_nat (k - f)).
  assert (0 < u) by (apply pow10_pos; lia). assert (0 < q) by (apply pow10_pos; lia).
  set (v := sgn neg * (dval D * (q * u))).
  assert (Z.abs v = dval D * q * u) as -> by (unfold v; destruct neg; cbn [sgn]; nia).
  replace ((2 * (dval D * q * u) + u) / (2 * u)) with (dval D * q).
  2:{ apply (Z.div_unique_pos _ _ _ u); lia. }
  destruct (decide (dval D = 0)) as [E|E]; [unfold v; rewrite E; lia|].
  assert (Z.sgn v = sgn neg) as ->; [|unfold v; lia].
  unfold v. assert (0 < dval D * (q * u)) by nia.
  destruct neg; cbn [sgn]; [apply Z.sgn_neg|apply Z.sgn_pos]; lia.
Qed.

Lemma digits_to_print_spec options neg I F :
  Forall nines I -> Forall nines F -> (length F <= 169)%nat ->
  wp (digits_to_print options (map ascii I) (map ascii F)) (printed options neg I F).
Proof.
  intros HI HF Hl. unfold digits_to_print. rewrite !as_bytes_digits, !blen_digits, <- map_app by done.
  pose proof (dval_bound (I ++ F) (proj2 (Forall_app _ _ _) (conj HI HF))) as Hb.
  assert (forall limit, max_fraction_digits options = limit -> (forall k, limit = Some k -> (length F <= k)%nat) ->
    printed options neg I F (map ascii (I ++ F), length I, length F)) as H.
  { intros limit E Hk. split; cbn [fst snd]; try done; [|intros k; rewrite E; auto].
    exists (I ++ F). rewrite length_app, take_ge by (rewrite length_app; lia).
    split_and!; [done|by apply Forall_app|done|]. rewrite E. destruct limit as [k|]; [|done]. cbn [shown_value].
    case_if as Ek; [|done]. boolify. specialize (Hk k eq_refl). by rewrite round_exact by lia. }
  destruct (max_fraction_digits options) as [k|] eqn:E.
  - destruct (k <? length F)%nat eqn:Ek; boolify.
    + apply round_into_spec; [done|done|lia|done].
    + apply (H (Some k)); [done|]. intros ? [= <-]. lia.
  - by apply (H None).
Qed.

(** ** The text of a number *)

(** Separators no number contains, and that can be told apart. *)
Record readable (options : Resolved) : Prop := {
  readable_digit : is_ascii_digit (decimal_point options) = false;
  readable_minus : decimal_point options <> MINUS;
  readable_group : forall g, grouping options = Some g ->
    is_ascii_digit g = false /\ g <> MINUS /\ g <> decimal_point options;
}.

(** What a reader who knows the settings makes of a text. *)
Definition ungroup (options : Resolved) (text : str) : str :=
  map (fun c => if c =? decimal_point options then DOT else c)
    (List.filter (fun c => match grouping options with Some g => negb (c =? g) | None => true end) text).

Lemma ungroup_app options a b : ungroup options (a ++ b) = ungroup options a ++ ungroup options b.
Proof. unfold ungroup. by rewrite List.filter_app, map_app. Qed.

Lemma ungroup_plain options c text :
  readable options -> is_ascii_digit c = true \/ c = MINUS ->
  ungroup options (c :: text) = c :: ungroup options text.
Proof.
  intros [H1 H2 H3] Hc. unfold ungroup. cbn [List.filter].
  assert (c <> decimal_point options) as Hd by (destruct Hc as [Hc| ->]; congruence).
  destruct (grouping options) as [g|] eqn:E.
  - destruct (H3 g eq_refl) as (G1 & G2 & _). rewrite (proj2 (Z.eqb_neq c g)) by (destruct Hc as [Hc| ->]; congruence).
    cbn [negb map]. by rewrite (proj2 (Z.eqb_neq _ _)) by done.
  - cbn [map]. by rewrite (proj2 (Z.eqb_neq _ _)) by done.
Qed.

Lemma ungroup_point options text :
  readable options -> ungroup options (decimal_point options :: text) = DOT :: ungroup options text.
Proof.
  intros [H1 H2 H3]. unfold ungroup. cbn [List.filter]. destruct (grouping options) as [g|] eqn:E.
  - destruct (H3 g eq_refl) as (_ & _ & G). rewrite (proj2 (Z.eqb_neq _ g)) by done.
    cbn [negb map]. by rewrite Z.eqb_refl.
  - cbn [map]. by rewrite Z.eqb_refl.
Qed.

Lemma ungroup_separator options g text :
  grouping options = Some g -> ungroup options (g :: text) = ungroup options text.
Proof. intros E. unfold ungroup. rewrite E. cbn [List.filter]. by rewrite Z.eqb_refl. Qed.

Lemma ungroup_digits options D : readable options -> Forall nines D -> ungroup options (map ascii D) = map ascii D.
Proof.
  intros Ho. induction 1 as [|d D Hd _ IH]; [done|]. cbn [map].
  rewrite ungroup_plain, IH by auto using ascii_digit. done.
Qed.

Lemma ungroup_groups options D :
  readable options -> Forall nines D -> ungroup options (group_digits options (map ascii D)) = map ascii D.
Proof.
  intros Ho HD. unfold group_digits. destruct (grouping options) as [g|] eqn:E.
  2:{ rewrite from_utf8_digits by done. by apply ungroup_digits. }
  generalize 0%nat at 1. induction HD as [|d D Hd _ IH]; intros k; [done|]. cbn [map group_from].
  rewrite ungroup_app, ungroup_plain, IH by auto using ascii_digit.
  destruct (_ && _); [by rewrite (ungroup_separator options g)|done].
Qed.

(** Groups are full: only the first may be shorter, and none is empty. *)
Lemma group_from_groups g size k D :
  (0 < size)%nat -> (0 < k)%nat \/ D = [] ->
  exists first groups, D = first ++ concat groups /\ (length first < size)%nat /\
    Forall (fun group => length group = size) groups /\
    group_from g size k D = first ++ concat (map (cons g) groups).
Proof.
  intros Hs. revert k. induction D as [|d D IH]; intros k Hk.
  { exists [], []. by repeat split. }
  destruct Hk as [Hk|]; [|done]. destruct (IH (S k)) as (first & groups & ED & Hf & Hg & Et); [lia|].
  assert (length (concat groups) = length groups * size)%nat as Lc.
  { clear -Hg. induction Hg as [|x l Hx _ IH]; [done|]. cbn [concat length]. rewrite length_app, IH. lia. }
  cbn [group_from]. rewrite (proj2 (Nat.ltb_lt 0 k)), (proj2 (Nat.ltb_lt 0 size)) by done. cbn [andb].
  assert ((length (d :: D)) mod size = (S (length first)) mod size)%nat as Em.
  { rewrite ED. cbn [length]. rewrite length_app, Lc. rewrite <- Nat.add_succ_l. apply Nat.Div0.mod_add. }
  rewrite Em, Et. destruct (decide (S (length first) = size)) as [E|E].
  - rewrite E, Nat.Div0.mod_same. cbn [Nat.eqb]. exists [], ((d :: first) :: groups).
    split_and!; [by rewrite ED|done|by constructor|done].
  - rewrite Nat.mod_small by lia. cbn [Nat.eqb]. exists (d :: first), groups.
    split_and!; [by rewrite ED|cbn; lia|done|done].
Qed.

Lemma group_digits_shape options g D :
  grouping options = Some g -> (0 < grouping_size options)%nat -> D <> [] ->
  exists first groups, D = first ++ concat groups /\ (0 < length first <= grouping_size options)%nat /\
    Forall (fun group => length group = grouping_size options) groups /\
    group_digits options D = first ++ concat (map (cons g) groups).
Proof.
  intros E Hs HD. unfold group_digits. rewrite E. destruct D as [|d D]; [done|].
  destruct (group_from_groups g (grouping_size options) 1 D Hs ltac:(lia)) as (f & gs & -> & Hf & Hg & Et).
  exists (d :: f), gs. cbn [group_from]. rewrite Et. cbn. split_and!; try done; lia.
Qed.

(** What [display] writes, and what it is worth. *)
Lemma display_shape n :
  number_ok n ->
  let l := display_literal n in
  literal_ok l /\ lit_exp l = None /\ lit_sign l = (if negative n then Some true else None) /\
  lit_int l <> [] /\ (length (frac_digits l) <= 169)%nat /\
  units n = sgn (negative n) * scaled_value (lit_int l ++ frac_digits l) (length (frac_digits l)).
Proof.
  intros [|neg ds e Hc Hl He]; cbv zeta.
  { split_and!; try done; [|cbn; lia]. split; try done; cbn; repeat constructor; try lia; done. }
  destruct (display_literal_spec neg ds e Hc Hl He) as [Hok Heq].
  set (l := display_literal (make neg ds e)) in *.
  pose proof (canonical_length _ Hc) as Hp. unfold MAX_SIGNIFICANT_DIGITS, MIN_EXPONENT, MAX_EXPONENT in *.
  assert (lit_exp l = None /\ lit_sign l = (if neg then Some true else None) /\ lit_int l <> [] /\
    (length (frac_digits l) <= 169)%nat) as (He1 & Hs & Hi & Hf).
  { unfold l, display_literal, frac_digits. rewrite digits_make. cbn [len exponent negative make].
    rewrite (proj2 (Nat.eqb_neq _ _)) by lia.
    destruct (_ <=? e) eqn:E1; boolify; [|destruct (0 <? e) eqn:E2; boolify]; cbn; split_and!; try done; try lia.
    - intros E%(f_equal length). rewrite length_app in E. cbn in E. lia.
    - intros E%(f_equal length). rewrite length_take in E. cbn in E. lia.
    - unfold id. rewrite length_drop. lia.
    - unfold id. rewrite length_app, length_replicate. lia. }
  split_and!; try done. cbn [negative make].
  destruct (from_digits_sound _ _ _ _ (proj2 (Forall_app _ _ _)
    (conj (literal_int_digits _ Hok) (literal_frac_digits _ Hok))) (literal_length _ Hok) Heq) as [_ Hd].
  unfold literal_exponent in Hd. rewrite He1, Hs, length_app in Hd.
  assert (is_minus (if neg then Some true else None) = neg) as Hm by (by destruct neg). rewrite Hm in Hd.
  specialize (Hd 0 (169 - Z.of_nat (length (frac_digits l))) ltac:(lia) ltac:(lia) ltac:(lia)).
  unfold scaled_value. lia.
Qed.
