(* ===== verification/Contract.v ===== *)
(** * The driver contract's own types (db-driver-api/src/session.rs, ids.rs,
      result.rs)

    What a driver can do and how it says so, the outcome of a cancel request,
    the names of savepoints, and the outcome of an execution with its builders
    and the values taken out of it, each at most once.  The traits themselves
    are the class [Driver] of [SessionWorld]. *)

From S2P Require Import Prelude RustStr RustText Number Temporal Errors ResultStore Events.
Open Scope Z_scope.

(** ** Cancelling *)

Definition interrupts_running_call (k : CancelKind) : bool := match k with Native => true | _ => false end.
Definition needs_deadline_armed_up_front (k : CancelKind) : bool :=
  match k with PreArmedDeadline => true | _ => false end.

Inductive CancelOutcome := Requested | NotInterruptible (deadline_remaining : option Duration).
Definition is_requested (o : CancelOutcome) : bool := match o with Requested => true | _ => false end.

(** ** Capabilities *)

Record Capabilities := mkCapabilities {
  cap_cancel : CancelKind;
  cap_savepoints : bool;
  cap_named_binds : bool;
  cap_out_binds : bool;
  cap_ref_cursor : bool;
  cap_lob_streaming : bool;
  cap_tls : bool;
  cap_exact_transaction_state : bool;
  cap_error_position : bool;
  cap_server_output : bool;
}.

Definition capabilities_none : Capabilities :=
  mkCapabilities CancelUnsupported false false false false false false false false false.

Definition with_cancel (k : CancelKind) (c : Capabilities) : Capabilities :=
  mkCapabilities k (cap_savepoints c) (cap_named_binds c) (cap_out_binds c) (cap_ref_cursor c) (cap_lob_streaming c)
    (cap_tls c) (cap_exact_transaction_state c) (cap_error_position c) (cap_server_output c).
Definition with_savepoints (b : bool) (c : Capabilities) : Capabilities :=
  mkCapabilities (cap_cancel c) b (cap_named_binds c) (cap_out_binds c) (cap_ref_cursor c) (cap_lob_streaming c)
    (cap_tls c) (cap_exact_transaction_state c) (cap_error_position c) (cap_server_output c).
Definition cap_with_named_binds (b : bool) (c : Capabilities) : Capabilities :=
  mkCapabilities (cap_cancel c) (cap_savepoints c) b (cap_out_binds c) (cap_ref_cursor c) (cap_lob_streaming c)
    (cap_tls c) (cap_exact_transaction_state c) (cap_error_position c) (cap_server_output c).
Definition with_out_binds (b : bool) (c : Capabilities) : Capabilities :=
  mkCapabilities (cap_cancel c) (cap_savepoints c) (cap_named_binds c) b (cap_ref_cursor c) (cap_lob_streaming c)
    (cap_tls c) (cap_exact_transaction_state c) (cap_error_position c) (cap_server_output c).
Definition with_ref_cursor (b : bool) (c : Capabilities) : Capabilities :=
  mkCapabilities (cap_cancel c) (cap_savepoints c) (cap_named_binds c) (cap_out_binds c) b (cap_lob_streaming c)
    (cap_tls c) (cap_exact_transaction_state c) (cap_error_position c) (cap_server_output c).
Definition with_lob_streaming (b : bool) (c : Capabilities) : Capabilities :=
  mkCapabilities (cap_cancel c) (cap_savepoints c) (cap_named_binds c) (cap_out_binds c) (cap_ref_cursor c) b
    (cap_tls c) (cap_exact_transaction_state c) (cap_error_position c) (cap_server_output c).
Definition cap_with_tls (b : bool) (c : Capabilities) : Capabilities :=
  mkCapabilities (cap_cancel c) (cap_savepoints c) (cap_named_binds c) (cap_out_binds c) (cap_ref_cursor c)
    (cap_lob_streaming c) b (cap_exact_transaction_state c) (cap_error_position c) (cap_server_output c).
Definition with_exact_transaction_state (b : bool) (c : Capabilities) : Capabilities :=
  mkCapabilities (cap_cancel c) (cap_savepoints c) (cap_named_binds c) (cap_out_binds c) (cap_ref_cursor c)
    (cap_lob_streaming c) (cap_tls c) b (cap_error_position c) (cap_server_output c).
Definition with_error_position (b : bool) (c : Capabilities) : Capabilities :=
  mkCapabilities (cap_cancel c) (cap_savepoints c) (cap_named_binds c) (cap_out_binds c) (cap_ref_cursor c)
    (cap_lob_streaming c) (cap_tls c) (cap_exact_transaction_state c) b (cap_server_output c).
Definition with_server_output (b : bool) (c : Capabilities) : Capabilities :=
  mkCapabilities (cap_cancel c) (cap_savepoints c) (cap_named_binds c) (cap_out_binds c) (cap_ref_cursor c)
    (cap_lob_streaming c) (cap_tls c) (cap_exact_transaction_state c) (cap_error_position c) b.

Definition can_interrupt_running_call (c : Capabilities) : bool := interrupts_running_call (cap_cancel c).

(** ** Savepoint names *)

Definition MAX_SAVEPOINT_NAME_LEN : nat := 30.

Inductive SavepointNameError := NameEmpty | NameTooLong | BadFirstCharacter | BadCharacter.

(** A validated name. *)
Record SavepointName := mkSavepointName { savepoint_text : str }.

Definition savepoint_char (c : char) : bool := is_ascii_alphanumeric c || (c =? 95) || (c =? 36) || (c =? 35).

Definition savepoint_name_new (name : str) : result SavepointName SavepointNameError :=
  match name with
  | [] => Err NameEmpty
  | first :: chars =>
      if (MAX_SAVEPOINT_NAME_LEN <? blen name)%nat then Err NameTooLong
      else if negb (is_ascii_alphabetic first) then Err BadFirstCharacter
      else if negb (forallb savepoint_char chars) then Err BadCharacter
      else Ok (mkSavepointName name)
  end.

Definition savepoint_error_text (e : SavepointNameError) : str :=
  match e with
  | NameEmpty => lit "savepoint name is empty"
  | NameTooLong => lit "savepoint name is too long"
  | BadFirstCharacter => lit "savepoint name must start with an ASCII letter"
  | BadCharacter => lit "savepoint name may contain only ASCII letters, digits, '_', '$' and '#'"
  end.

(** ** What an execution returned *)

Arguments mkExecution {_}.

Section Outcome.
Context {DO : DriverObjects}.

Definition is_taken (v : Value) : bool := match v with OTaken => true | _ => false end.

Definition out_positional (o : DriverOutValues) (index : nat) : option Value :=
  match o with DPositional vs => mjoin (vs !! index) | _ => None end.
Definition out_named (o : DriverOutValues) (name : str) : option Value :=
  match o with DNamed vs => snd <$> (snd <$> list_find (fun p => p.1 = name) vs) | _ => None end.

(** [take_slot]: the value, unless it was taken, and what is left. *)
Definition take_slot (slot : Value) : option Value * Value :=
  if is_taken slot then (None, slot) else (Some slot, OTaken).

Definition take_positional (index : nat) (o : DriverOutValues) : option Value * DriverOutValues :=
  match o with
  | DPositional vs =>
      match vs !! index with
      | Some (Some slot) => let (v, slot) := take_slot slot in (v, DPositional (<[index := Some slot]> vs))
      | _ => (None, o)
      end
  | _ => (None, o)
  end.

Definition take_named (name : str) (o : DriverOutValues) : option Value * DriverOutValues :=
  match o with
  | DNamed vs =>
      match list_find (fun p => p.1 = name) vs with
      | Some (i, (key, slot)) => let (v, slot) := take_slot slot in (v, DNamed (<[i := (key, slot)]> vs))
      | None => (None, o)
      end
  | _ => (None, o)
  end.

Definition out_is_empty (o : DriverOutValues) : bool :=
  match o with
  | DNone => true
  | DPositional vs => forallb (fun v => match v with None => true | Some _ => false end) vs
  | DNamed vs => is_nil vs
  end.

Definition same_shape_all_taken (o : DriverOutValues) : DriverOutValues :=
  match o with
  | DNone => DNone
  | DPositional vs => DPositional (List.map (option_map (fun _ => OTaken)) vs)
  | DNamed vs => DNamed (List.map (fun p => (p.1, OTaken)) vs)
  end.

Definition outcome_new : ExecutionOutcome := mkExecution None None OtherStatement DNone [].
Definition with_cursor (c : CursorObject) (o : ExecutionOutcome) : ExecutionOutcome :=
  mkExecution (Some c) (ex_rows_affected o) (ex_kind o) (ex_out_values o) (ex_warnings o).
Definition with_rows_affected (n : Z) (o : ExecutionOutcome) : ExecutionOutcome :=
  mkExecution (ex_cursor o) (Some n) (ex_kind o) (ex_out_values o) (ex_warnings o).
Definition with_statement_kind (k : StatementKind) (o : ExecutionOutcome) : ExecutionOutcome :=
  mkExecution (ex_cursor o) (ex_rows_affected o) k (ex_out_values o) (ex_warnings o).
Definition with_out_values (v : DriverOutValues) (o : ExecutionOutcome) : ExecutionOutcome :=
  mkExecution (ex_cursor o) (ex_rows_affected o) (ex_kind o) v (ex_warnings o).
Definition with_warnings (w : list Warning) (o : ExecutionOutcome) : ExecutionOutcome :=
  mkExecution (ex_cursor o) (ex_rows_affected o) (ex_kind o) (ex_out_values o) w.

Definition take_cursor (o : ExecutionOutcome) : option CursorObject * ExecutionOutcome :=
  (ex_cursor o, mkExecution None (ex_rows_affected o) (ex_kind o) (ex_out_values o) (ex_warnings o)).
Definition take_out_values (o : ExecutionOutcome) : DriverOutValues * ExecutionOutcome :=
  (ex_out_values o, with_out_values (same_shape_all_taken (ex_out_values o)) o).
Definition outcome_committed_implicitly (o : ExecutionOutcome) : bool := commits_implicitly (ex_kind o).

End Outcome.

(** ** Lemmas *)

(** An accepted name can be put into a statement's text: it is a letter and at
    most twenty-nine letters, digits, underscores, dollar or number signs. *)
Lemma savepoint_name_plain name s : savepoint_name_new name = Ok s <->
  savepoint_text s = name /\ (blen name <= 30)%nat /\
  (exists c chars, name = c :: chars /\ is_ascii_alphabetic c = true) /\ Forall (fun c => savepoint_char c = true) name.
Proof.
  unfold savepoint_name_new, MAX_SAVEPOINT_NAME_LEN. destruct name as [|c chars]; [split; [done|by intros (_ & _ & (? & ? & ? & _) & _)]|].
  destruct (Nat.ltb_spec 30 (blen (c :: chars))); [split; [done|lia]|].
  destruct (is_ascii_alphabetic c) eqn:Ec; cbn [negb]; [|split; [done|]; intros (_ & _ & (d & ? & [= -> ->] & Hd) & _); congruence].
  assert (Hc : savepoint_char c = true) by (unfold savepoint_char, is_ascii_alphanumeric; by rewrite Ec).
  destruct (forallb savepoint_char chars) eqn:Ef; cbn [negb].
  - rewrite List.forallb_forall, <- List.Forall_forall in Ef. split.
    + intros [= <-]. split_and!; [done|lia|by eauto|]. constructor; [done|exact Ef].
    + intros (E & _). destruct s as [t]. simpl in E. by subst.
  - split; [done|]. intros (_ & _ & _ & HF). exfalso. apply not_true_iff_false in Ef. apply Ef, List.forallb_forall, List.Forall_forall.
    by inversion HF.
Qed.

Section Taking.
Context {DO : DriverObjects}.

(** A value is taken once: the slot says so afterwards, the others stay. *)
Lemma taken_once index o v o' : take_positional index o = (Some v, o') ->
  out_positional o index = Some v /\ is_taken v = false /\ out_positional o' index = Some OTaken /\
  take_positional index o' = (None, o') /\ forall j, j <> index -> out_positional o' j = out_positional o j.
Proof.
  unfold take_positional, out_positional, take_slot. destruct o as [|vs|vs]; [done| |done].
  destruct (vs !! index) as [[slot|]|] eqn:E; [|done|done]. destruct (is_taken slot) eqn:Et; [done|]. intros [= <- <-].
  rewrite list_lookup_insert_eq by (by eapply lookup_lt_Some). cbn. split_and!; try done.
  - by rewrite list_insert_insert_eq.
  - intros j Hj. by rewrite list_lookup_insert_ne.
Qed.

Lemma taken_shape o : out_is_empty (same_shape_all_taken o) = out_is_empty o.
Proof. destruct o as [|vs|[|v vs]]; try done. cbn. by induction vs as [|[v|] vs IH]. Qed.
End Taking.
