(* ===== verification/OracleConnection.v ===== *)
(** * One session of the Oracle driver (oracle-thin/src/conn.rs)

    The connection the driver hands to a session: its deadline, its conservative
    transaction state, the count of its open result sets, and every operation.
    The library's session is the class [OracleClient], one function per call the
    source makes on it; a prepared statement is the text and the options the
    driver sets on it.  [history] is a history variable: every call the driver
    made that reaches the library's session, in order.

    A cursor of this driver is closed by dropping its guard, which is the
    operation [result_set_closed]. *)

From S2P Require Import Prelude RustStr RustText Number Temporal Errors Columns Segment Policy ResultStore Events SessionShared Params Descriptor Connect Classify Rewrite ServerOutput OracleErrors OracleTime OracleTypes LobStream Handoff OracleCursor Contract.
Open Scope Z_scope.

(** ** The library's session *)

(** What the driver asks of a statement before it runs it. *)
Record Prepared := mkPrepared {
  prep_sql : str;
  prep_cached : bool;
  prep_fetch_lobs : bool;
  (** [None] is the library's own number. *)
  prep_prefetch_rows : option Z;
  prep_fetch_array_size : option Z;
}.

Inductive BindArgs `{OracleTimestamps} `{OracleNumbers} :=
| ByPosition (values : list OwnedBind)
| ByName (pairs : list (str * OwnedBind)).

(** The types an output value is read as, and what each gives. *)
Inductive CellType := CtNumber | CtF32 | CtF64 | CtBool | CtString | CtBytes | CtTimestamp | CtLob | CtCursor.

Definition cell `{OracleRows} (t : CellType) : Type :=
  match t with
  | CtNumber => onum | CtF32 | CtF64 => Z | CtBool => bool | CtString => str | CtBytes => list Z
  | CtTimestamp => ots | CtLob => Lob | CtCursor => LibCursor
  end.

Class OracleClient `{OracleRows} := {
  Session : Type;
  set_call_timeout : option Duration -> Session -> result unit ora_error * Session;
  last_warning : Session -> result (option str) ora_error;
  (** [Connection::statement]. *)
  lib_statement : str -> Session -> result unit ora_error * Session;
  bind_names : Prepared -> Session -> result (list str) ora_error * Session;
  ExecResult : Type;
  lib_query : Prepared -> BindArgs -> Session -> result LibCursor ora_error * Session;
  lib_execute : Prepared -> BindArgs -> Session -> result ExecResult ora_error * Session;
  lib_rows_affected : ExecResult -> Z;
  returned_data : ExecResult -> list Row;
  out_bind_data : ExecResult -> Row;
  (** [Row::get] of an optional text. *)
  get_str : Row -> nat -> result (option str) ora_error;
  (** [Row::take]. *)
  take_cell : forall t : CellType, Row -> nat -> result (option (cell t)) ora_error * Row;
  lib_commit : Session -> result unit ora_error * Session;
  lib_rollback : Session -> result unit ora_error * Session;
  lib_ping : Session -> result unit ora_error * Session;
  lib_close : Session -> result unit ora_error * Session;
  (** [Connection::execute] without binds. *)
  lib_run : str -> Session -> result unit ora_error * Session;
  lib_output_call : OutputCall -> Session -> result unit ora_error * Session;
  lib_take_block : Z -> Z -> Session -> result (Taken unit) ora_error * Session;
  (** The time since the connection opened. *)
  elapsed : Session -> Duration;
}.

(** A call on the library's session. *)
Inductive LibCall `{OracleTimestamps} `{OracleNumbers} :=
| SetTimeout (d : option Duration)
| PrepareStatement (sql : str)
| ReadBindNames (p : Prepared)
| RunQuery (p : Prepared) (args : BindArgs)
| RunExecute (p : Prepared) (args : BindArgs)
| RunInternal (sql : str)
| RunOutputCall (c : OutputCall)
| RunTakeBlock (max budget : Z)
| RunCommit | RunRollback | RunPing | RunClose.

(** The driver's own objects, by value. *)
#[export] Instance oracle_objects `{OracleClient} : DriverObjects :=
  {| Locator := OracleLobStream; CursorObject := OracleCursor |}.

(** [Capabilities] of the driver. *)
Definition capabilities : Capabilities :=
  with_server_output true (with_error_position true (with_exact_transaction_state false (cap_with_tls true
  (with_lob_streaming true (with_ref_cursor true (with_out_binds true (cap_with_named_binds true
  (with_savepoints true (with_cancel PreArmedDeadline capabilities_none))))))))).

(** [{:?}] of a [Duration], in nanoseconds: the largest unit that fits, with
    the fraction's trailing zeros left out. *)
Definition fraction (width : nat) (n : Z) : str :=
  match rev (trim_start_char 48 (rev (padded width n))) with [] => [] | ds => lit "." ++ ds end.
Definition duration_debug (d : Duration) : str :=
  let seconds := d / 1000000000 in
  let nanos := d mod 1000000000 in
  if 0 <? seconds then padded 1 seconds ++ fraction 9 nanos ++ lit "s"
  else if 1000000 <=? nanos then padded 1 (nanos / 1000000) ++ fraction 6 (nanos mod 1000000) ++ lit "ms"
  else if 1000 <=? nanos then padded 1 (nanos / 1000) ++ fraction 3 (nanos mod 1000) ++ [181] ++ lit "s"
  else padded 1 nanos ++ lit "ns".

Section Connection.
Context `{OracleClient} {U : Unicode} {CM : CaseMap}.

(** ** [OracleConnection] *)

Record OracleConnection := mkConnection {
  conn_id : ConnectionId;
  inner : Session;
  deadline_at_millis : Z;            (* the cancel handle's *)
  conn_closed : bool;
  transaction : TransactionState;
  allow_timestamp_with_time_zone : bool;
  rewrites_triggers : bool;
  open_result_sets : Z;
  armed_deadline : option Duration;
  connect_warnings : list Warning;
  next_result_set : Z;               (* [ResultSetId::allocate] *)
  history : list LibCall;
}.

Definition connection_new (id : ConnectionId) (s : Session) (allow rewrites : bool) (warnings : list Warning)
    (next : Z) : OracleConnection :=
  mkConnection id s 0 false Inactive allow rewrites 0 None warnings next [].

Definition set_inner (s : Session) (c : OracleConnection) : OracleConnection :=
  mkConnection (conn_id c) s (deadline_at_millis c) (conn_closed c) (transaction c) (allow_timestamp_with_time_zone c)
    (rewrites_triggers c) (open_result_sets c) (armed_deadline c) (connect_warnings c) (next_result_set c) (history c).
Definition set_deadline_at (n : Z) (c : OracleConnection) : OracleConnection :=
  mkConnection (conn_id c) (inner c) n (conn_closed c) (transaction c) (allow_timestamp_with_time_zone c)
    (rewrites_triggers c) (open_result_sets c) (armed_deadline c) (connect_warnings c) (next_result_set c) (history c).
Definition mark_closed (c : OracleConnection) : OracleConnection :=
  mkConnection (conn_id c) (inner c) (deadline_at_millis c) true (transaction c) (allow_timestamp_with_time_zone c)
    (rewrites_triggers c) (open_result_sets c) (armed_deadline c) (connect_warnings c) (next_result_set c) (history c).
Definition set_transaction (t : TransactionState) (c : OracleConnection) : OracleConnection :=
  mkConnection (conn_id c) (inner c) (deadline_at_millis c) (conn_closed c) t (allow_timestamp_with_time_zone c)
    (rewrites_triggers c) (open_result_sets c) (armed_deadline c) (connect_warnings c) (next_result_set c) (history c).
Definition set_open_result_sets (n : Z) (c : OracleConnection) : OracleConnection :=
  mkConnection (conn_id c) (inner c) (deadline_at_millis c) (conn_closed c) (transaction c) (allow_timestamp_with_time_zone c)
    (rewrites_triggers c) n (armed_deadline c) (connect_warnings c) (next_result_set c) (history c).
Definition set_armed (d : option Duration) (c : OracleConnection) : OracleConnection :=
  mkConnection (conn_id c) (inner c) (deadline_at_millis c) (conn_closed c) (transaction c) (allow_timestamp_with_time_zone c)
    (rewrites_triggers c) (open_result_sets c) d (connect_warnings c) (next_result_set c) (history c).
Definition set_connect_warnings (w : list Warning) (c : OracleConnection) : OracleConnection :=
  mkConnection (conn_id c) (inner c) (deadline_at_millis c) (conn_closed c) (transaction c) (allow_timestamp_with_time_zone c)
    (rewrites_triggers c) (open_result_sets c) (armed_deadline c) w (next_result_set c) (history c).
Definition set_next_result_set (n : Z) (c : OracleConnection) : OracleConnection :=
  mkConnection (conn_id c) (inner c) (deadline_at_millis c) (conn_closed c) (transaction c) (allow_timestamp_with_time_zone c)
    (rewrites_triggers c) (open_result_sets c) (armed_deadline c) (connect_warnings c) n (history c).
Definition record_call (k : LibCall) (c : OracleConnection) : OracleConnection :=
  mkConnection (conn_id c) (inner c) (deadline_at_millis c) (conn_closed c) (transaction c) (allow_timestamp_with_time_zone c)
    (rewrites_triggers c) (open_result_sets c) (armed_deadline c) (connect_warnings c) (next_result_set c) (history c ++ [k]).

(** ** Calls that change the connection and may fail *)

Definition Conn (A : Type) : Type := OracleConnection -> result A DbError * OracleConnection.
Definition done {A} (a : A) : Conn A := fun c => (Ok a, c).
Definition fail {A} (e : DbError) : Conn A := fun c => (Err e, c).
Definition answer {A} (r : result A DbError) : Conn A := fun c => (r, c).
Definition chain {A B} (m : Conn A) (k : A -> Conn B) : Conn B := fun c =>
  match m c with (Ok a, c') => k a c' | (Err e, c') => (Err e, c') end.
Definition reads {A} (f : OracleConnection -> A) : Conn A := fun c => (Ok (f c), c).
Definition update (f : OracleConnection -> OracleConnection) : Conn unit := fun c => (Ok tt, f c).
(** The result as a value. *)
Definition attempt {A} (m : Conn A) : Conn (result A DbError) := fun c => let (r, c') := m c in (Ok r, c').
(** A call on the library's session, its error mapped. *)
Definition library {A} (k : LibCall) (f : Session -> result A ora_error * Session) : Conn A := fun c =>
  let (r, s) := f (inner c) in (map_err map r, record_call k (set_inner s c)).

End Connection.

Declare Scope conn_scope.
Delimit Scope conn_scope with conn.
Notation "'do' x <- m ; k" := (chain m (fun x => k))
  (at level 200, x pattern, m at level 100, k at level 200, format "'do'  x  <-  m ;  '//' k") : conn_scope.
Notation "m ;; k" := (chain m (fun _ => k)) (at level 100, k at level 200, right associativity) : conn_scope.
Open Scope conn_scope.

(** ** Open result sets *)

Section Operations.
Context `{OracleClient} {U : Unicode} {CM : CaseMap}.

(** [ResultSetGuard::drop]. *)
Definition result_set_closed (c : OracleConnection) : OracleConnection :=
  set_open_result_sets (open_result_sets c - 1) c.

(** [OracleCursor::new] with the guard of a result set it opens: a refused
    cursor drops its guard. *)
Definition open_cursor (l : LibCursor) : Conn OracleCursor := fun c =>
  match cursor_new l (next_result_set c) (conn_id c) (allow_timestamp_with_time_zone c) with
  | Ok cursor => (Ok cursor, set_next_result_set (next_result_set c + 1) (set_open_result_sets (open_result_sets c + 1) c))
  | Err e => (Err e, c)
  end.

(** ** The cancel handle *)

(** [u64::try_from(at.as_millis()).unwrap_or(u64::MAX)]. *)
Definition as_u64_millis (d : Duration) : Z := Z.min (d / 1000000) (2 ^ 64 - 1).

Definition arm (deadline : option Duration) (c : OracleConnection) : OracleConnection :=
  set_deadline_at (match deadline with
                   | None => 0
                   | Some d => Z.max (as_u64_millis (elapsed (inner c) + d)) 1
                   end) c.

(** In milliseconds. *)
Definition remaining (c : OracleConnection) : option Z :=
  let at_ := deadline_at_millis c in
  if (at_ =? 0) || (0 <? open_result_sets c) then None
  else
    let now := as_u64_millis (elapsed (inner c)) in
    if at_ <=? now then None else Some (at_ - now).

Definition request_cancel (c : OracleConnection) : result CancelOutcome DbError :=
  Ok (NotInterruptible (option_map (fun ms => ms * 1000000) (remaining c))).

(** ** Guards and preparation *)

Definition conn_guard : Conn unit := fun c =>
  if conn_closed c then (Err (connection_closed (lit "connection")), c) else (Ok tt, c).

Definition zoned_output_is_refused : DbError := error_new UnsupportedKind (Text (lit
  "an output bind of type TIMESTAMP WITH TIME ZONE is refused on oracledb 26.0.0-beta.3: a value whose zone is a named region reaches an unimplemented branch in the upstream decoder and takes the whole process down with it, and the two forms cannot be told apart before the value is decoded. Declare the bind as VARCHAR2 and format it in PL/SQL, or set the connection extension " ++
  [DQUOTE] ++ EXT_ALLOW_TIMESTAMP_WITH_TIME_ZONE ++ [DQUOTE] ++ lit " to accept the risk")).

Definition refused_output (spec : option OutBindSpec) : bool :=
  match spec with Some s => match out_sql_type s with TTimestampWithTimeZone => true | _ => false end | None => false end.

Definition check_out_bind_types (st : Statement) : Conn unit := fun c =>
  if allow_timestamp_with_time_zone c then (Ok tt, c)
  else
    let found := match st_binds st with
      | Positional binds => existsb (fun b => refused_output (out_spec b)) binds
      | Named binds => existsb (fun b => refused_output (out_spec (named_bind b))) binds
      | NoBinds => false
      end in
    if found then (Err zoned_output_is_refused, c) else (Ok tt, c).

Definition apply_deadline (deadline : option Duration) : Conn unit :=
  update (arm deadline);;
  library (SetTimeout deadline) (set_call_timeout deadline);;
  update (set_armed deadline).

Definition statement_warnings (c : OracleConnection) : list Warning :=
  match last_warning (inner c) with
  | Ok (Some message) =>
      let kind := if str_contains (lowercase message) (lit "compilation error") then CompiledWithErrors else Informational in
      [mkWarning kind (Text message) None None]
  | _ => []
  end.

Definition record_statement (k : StatementKind) (c : OracleConnection) : OracleConnection :=
  set_transaction match k with
                  | Ddl => Inactive
                  | SessionControl => transaction c
                  | _ => Unknown
                  end c.

(** [prepare_binds]: every value the library is given, and its names. *)
Fixpoint owned_binds (binds : list Bind) : result (list OwnedBind) DbError :=
  match binds with
  | [] => Ok []
  | b :: bs => result_bind (to_owned_bind b) (fun o => result_bind (owned_binds bs) (fun os => Ok (o :: os)))
  end.

Definition prepare_binds (st : Statement) : result (list OwnedBind * option (list str)) DbError :=
  match st_binds st with
  | NoBinds => Ok ([], None)
  | Positional binds => result_bind (owned_binds binds) (fun owned => Ok (owned, None))
  | Named binds =>
      result_bind (owned_binds (List.map named_bind binds)) (fun owned => Ok (owned, Some (List.map bind_name binds)))
  end.

Definition bind_args (owned : list OwnedBind) (names : option (list str)) : BindArgs :=
  match names with Some names => ByName (zip names owned) | None => ByPosition owned end.

(** ** Queries *)

(** [statement(sql)] with the options of every statement the driver runs. *)
Definition prepared_for (sql : str) (array_size : option Z) : Prepared := mkPrepared sql false true (Some 0) array_size.

Definition execute_query (st : Statement) (owned : list OwnedBind) (names : option (list str)) : Conn ExecutionOutcome :=
  library (PrepareStatement (st_sql st)) (lib_statement (st_sql st));;
  let p := prepared_for (st_sql st) (option_map (fun n => Z.min n (2 ^ 32 - 1)) (st_fetch_rows st)) in
  let args := bind_args owned names in
  do l <- library (RunQuery p args) (lib_query p args);
  do cursor <- open_cursor l;
  do warnings <- reads statement_warnings;
  done (with_warnings warnings (with_cursor (cursor : CursorObject) (with_statement_kind Query outcome_new))).

(** ** Output values *)

Definition find_named (binds : list NamedBind) (name : str) : option NamedBind :=
  List.find (fun b => eq_ignore_ascii_case (bind_name b) name) binds.

Definition has_spec (b : Bind) : bool := match out_spec b with Some _ => true | None => false end.

Definition declared_output_count (b : Binds) : nat :=
  match b with
  | Positional binds => length (List.filter has_spec binds)
  | Named binds => length (List.filter (fun n => has_spec (named_bind n)) binds)
  | NoBinds => 0
  end.

Definition all_null_outputs (b : Binds) : DriverOutValues :=
  match b with
  | Positional binds => DPositional (List.map (fun b => option_map (fun _ => ONull) (out_spec b)) binds)
  | Named binds => DNamed (List.map (fun n => (bind_name n, ONull)) (List.filter (fun n => has_spec (named_bind n)) binds))
  | NoBinds => DNone
  end.

Definition LIMIT : nat := 1024.

Fixpoint probe_slots (fuel : nat) (row : Row) (slots : nat) : nat :=
  match fuel with
  | O => slots
  | S fuel' =>
      match get_str row slots with
      | Err e => match ora_kind e with InvalidColumnIndex => slots | _ => probe_slots fuel' row (S slots) end
      | Ok _ => probe_slots fuel' row (S slots)
      end
  end.
Definition upstream_out_slots (row : Row) : nat := probe_slots LIMIT row 0.

Definition check_out_slots (declared : nat) (row : Row) : result unit DbError :=
  let slots := upstream_out_slots row in
  if (slots =? declared)%nat then Ok tt
  else Err (error_new DataConversion (Text (lit "the server reports " ++ padded 1 (Z.of_nat slots) ++
    lit " output parameter(s) for this call but " ++ padded 1 (Z.of_nat declared) ++
    lit " were declared. The most likely cause is a parameter declared as an input that the PL/SQL signature makes IN OUT, which shifts every later output by one slot; this driver refuses to read them rather than return a neighbouring parameter's value. Declare every IN OUT parameter as IN OUT"))).

Definition too_many_returned (n : nat) : DbError :=
  error_new UnsupportedKind (Text (lit "this statement returned " ++ padded 1 (Z.of_nat n) ++
    lit " rows through RETURNING " ++ [ELLIPSIS] ++ lit " INTO, and this driver supports single-row RETURNING only: the contract's output binds carry one value each, not an array. Use a cursor or a PL/SQL block with a collection instead")).

(** [output_row]: the list is empty or its only row, when it is not refused. *)
Definition output_row (declared : nat) (k : StatementKind) (r : ExecResult) : result (option Row) DbError :=
  let returned := returned_data r in
  if (1 <? length returned)%nat then Err (too_many_returned (length returned))
  else
    match last returned with
    | Some row => result_bind (check_out_slots declared row) (fun _ => Ok (Some row))
    | None =>
        let row := out_bind_data r in
        if (upstream_out_slots row =? 0)%nat && bool_decide (k = Dml) then Ok None
        else result_bind (check_out_slots declared row) (fun _ => Ok (Some row))
    end.

Definition bind_name_order (st : Statement) : Conn (list str) :=
  library (PrepareStatement (st_sql st)) (lib_statement (st_sql st));;
  let p := mkPrepared (st_sql st) false false None None in
  library (ReadBindNames p) (bind_names p).

(** [take_out], and a present value through a conversion. *)
Definition take_out (t : CellType) (row : Row) (slot : nat) : result (option (cell t)) DbError * Row :=
  let (r, row) := take_cell t row slot in (map_err map r, row).
Definition present {A} (r : result (option A) DbError * Row) (f : A -> result Value DbError) : result Value DbError * Row :=
  (match r.1 with Err e => Err e | Ok None => Ok ONull | Ok (Some a) => f a end, r.2).

Definition lob_value (l : Lob) (k : LobKind) (c : OracleConnection) : Value := OLob (stream_new l k (conn_id c) : Locator).

Definition unsupported_output (t : SqlType) : DbError :=
  error_new UnsupportedKind (Text (lit "an output bind of type " ++ sql_type_display t ++ lit " is not supported")).

Definition timestamp_value (zoned : bool) (t : ots) : result Value DbError :=
  match to_timestamp t zoned with Ok t => Ok (OTimestamp t) | Err e => Err (from_temporal_error e) end.

Definition read_plain_out (t : SqlType) (row : Row) (slot : nat) (c : OracleConnection) : result Value DbError * Row :=
  match t with
  | TNumber => present (take_out CtNumber row slot) (fun n =>
      match parse (onum_display n) with Ok n => Ok (ONumber n) | Err e => Err (from_number_error e) end)
  | TBinaryFloat => present (take_out CtF32 row slot) (fun v => Ok (OFloat v))
  | TBinaryDouble => present (take_out CtF64 row slot) (fun v => Ok (ODouble v))
  | TBoolean => present (take_out CtBool row slot) (fun v => Ok (OBoolean v))
  | TText _ _ => present (take_out CtString row slot) (fun v => Ok (OText v))
  | TJson => present (take_out CtString row slot) (fun v => Ok (OJson v))
  | TRaw => present (take_out CtBytes row slot) (fun v => Ok (OBytes v))
  | TDate | TTimestamp => present (take_out CtTimestamp row slot) (timestamp_value false)
  | TTimestampWithTimeZone => present (take_out CtTimestamp row slot) (timestamp_value true)
  | TCharacterLob national => present (take_out CtLob row slot) (fun l =>
      Ok (lob_value l (if national then NationalCharacter else Character) c))
  | TBinaryLob => present (take_out CtLob row slot) (fun l => Ok (lob_value l Binary c))
  | t => (Err (unsupported_output t), row)
  end.

(** [read_out_value]: a cursor is opened, everything else only read. *)
Definition read_out_value (row : Row) (slot : nat) (spec : OutBindSpec) : Conn (Value * Row) := fun c =>
  match out_bind_type spec with
  | Err e => (Err e, c)
  | Ok _ =>
      match out_sql_type spec with
      | TCursor =>
          match take_out CtCursor row slot with
          | (Err e, _) => (Err e, c)
          | (Ok None, row) => (Ok (ONull, row), c)
          | (Ok (Some l), row) => chain (open_cursor l) (fun cursor => done (OCursor (cursor : CursorObject), row)) c
          end
      | t => let (r, row) := read_plain_out t row slot c in (match r with Ok v => Ok (v, row) | Err e => Err e end, c)
      end
  end.

(** Values that are dropped close the cursors among them. *)
Definition is_cursor (v : Value) : bool := match v with OCursor _ => true | _ => false end.
Definition drop_values (vs : list Value) (c : OracleConnection) : OracleConnection :=
  fold_left (fun c _ => result_set_closed c) (List.filter is_cursor vs) c.

(** The loops of [collect_out_values]; [seen] is what they have read. *)
Fixpoint collect_positional (binds : list Bind) (row : Row) (slot : nat) (seen : list (option Value))
    : Conn (list (option Value)) := fun c =>
  match binds with
  | [] => (Ok seen, c)
  | b :: binds =>
      match out_spec b with
      | None => collect_positional binds row slot (seen ++ [None]) c
      | Some spec =>
          match read_out_value row slot spec c with
          | (Ok (v, row), c) => collect_positional binds row (S slot) (seen ++ [Some v]) c
          | (Err e, c) => (Err e, drop_values (omap id seen) c)
          end
      end
  end.

Fixpoint collect_named (declared : list NamedBind) (order : list str) (row : Row) (slot : nat) (seen : list (str * Value))
    : Conn (list (str * Value)) := fun c =>
  match order with
  | [] => (Ok seen, c)
  | name :: order =>
      match find_named declared name with
      | None => collect_named declared order row slot seen c
      | Some b =>
          match out_spec (named_bind b) with
          | None => collect_named declared order row slot seen c
          | Some spec =>
              match read_out_value row slot spec c with
              | (Ok (v, row), c) => collect_named declared order row (S slot) (seen ++ [(bind_name b, v)]) c
              | (Err e, c) => (Err e, drop_values (List.map snd seen) c)
              end
          end
      end
  end.

Definition collect_out_values (st : Statement) (k : StatementKind) (r : ExecResult) : Conn DriverOutValues :=
  if negb (has_outputs (st_binds st)) then done DNone
  else
    do row <- answer (output_row (declared_output_count (st_binds st)) k r);
    match row with
    | None => done (all_null_outputs (st_binds st))
    | Some row =>
        match st_binds st with
        | Positional binds => do vs <- collect_positional binds row 0 []; done (DPositional vs)
        | Named binds =>
            do order <- bind_name_order st;
            do vs <- collect_named binds order row 0 [];
            done (DNamed vs)
        | NoBinds => done DNone
        end
    end.

(** [execute_non_query]: [sql] is what goes to the server. *)
Definition execute_non_query (st : Statement) (sql : str) (k : StatementKind) (owned : list OwnedBind)
    (names : option (list str)) : Conn ExecutionOutcome :=
  library (PrepareStatement sql) (lib_statement sql);;
  let p := prepared_for sql None in
  let args := bind_args owned names in
  do r <- library (RunExecute p args) (lib_execute p args);
  do out <- collect_out_values st k r;
  do warnings <- reads statement_warnings;
  done (with_warnings warnings (with_out_values out (with_rows_affected (lib_rows_affected r) (with_statement_kind k outcome_new)))).

(** ** The whole of [execute] *)

Definition deadline_change_warning (open : Z) (armed requested : option Duration) : option Warning :=
  if (open =? 0) || bool_decide (armed = requested) then None
  else
    let change := match requested with
      | Some d => lit "changed the connection's time limit to " ++ duration_debug d
      | None => lit "cleared the connection's time limit"
      end in
    Some (informational (lit "this statement " ++ change ++
      lit ". The underlying Oracle crate keeps that limit on the connection's socket rather than on a statement, and bounds each round trip rather than a whole operation, so the " ++
      padded 1 open ++ lit " result set(s) already open on this connection now fetch under the new limit")).

Definition finish_rewritten (k : StatementKind) (r : Rewrite) (outcome : result ExecutionOutcome DbError)
    : result ExecutionOutcome DbError :=
  match outcome with
  | Err e =>
      if is_compiled_with_errors e
      then Ok (with_warnings [rewrite_warning r; compiled_with_errors e] (with_statement_kind k outcome_new))
      else Err e
  | Ok o => Ok (with_warnings (rewrite_warning r :: ex_warnings o) (with_statement_kind k outcome_new))
  end.

Definition misclassified : DbError := internal (Text (lit
  "this statement returns rows, but the driver classified it as one that does not. The underlying Oracle crate would execute it and discard the result set without reporting anything, so it is refused instead. This is a driver bug: please report the statement text")).

(** The plan of what is sent, and the outcome of sending it. *)
Definition submit (st : Statement) (cl : Classification) (owned : list OwnedBind) (names : option (list str))
    : Conn (Plan * result ExecutionOutcome DbError) :=
  if returns_rows cl then
    do outcome <- attempt (execute_query st owned names);
    done (AsSubmitted, outcome)
  else
    do rewrites <- reads rewrites_triggers;
    do p <- answer (if rewrites && binds_is_empty (st_binds st) then plan (st_sql st) else Ok AsSubmitted);
    do outcome <- attempt (execute_non_query st (plan_text p (st_sql st)) (Classify.kind cl) owned names);
    done (p, outcome).

(** What is reported: the placeholder explained, a rewrite undone, the change of
    a limit added. *)
Definition report (st : Statement) (k : StatementKind) (p : Plan) (warning : option Warning)
    (outcome : result ExecutionOutcome DbError) : result ExecutionOutcome DbError :=
  let outcome := match outcome with
    | Err e => Err (if binds_is_empty (st_binds st) then explain_parsed_placeholders e else e)
    | o => o
    end in
  let outcome := match plan_wrapped p with Some r => finish_rewritten k r outcome | None => outcome end in
  match outcome, warning with
  | Ok o, Some w => Ok (with_warnings (ex_warnings o ++ [w]) o)
  | o, _ => o
  end.

Definition execute (st : Statement) : Conn ExecutionOutcome :=
  conn_guard;;
  check_out_bind_types st;;
  let cl := classify (st_sql st) in
  if negb (returns_rows cl) && upstream_would_return_rows (st_sql st) then fail misclassified
  else
    do (owned, names) <- answer (prepare_binds st);
    do warning <- reads (fun c => deadline_change_warning (open_result_sets c) (armed_deadline c) (st_deadline st));
    apply_deadline (st_deadline st);;
    do (p, outcome) <- submit st cl owned names;
    match report st (Classify.kind cl) p warning outcome with
    | Ok o => update (record_statement (Classify.kind cl));; done o
    | Err e => update (set_transaction Unknown);; fail e
    end.

(** ** The other operations *)

Definition take_connect_warnings (c : OracleConnection) : list Warning * OracleConnection :=
  (connect_warnings c, set_connect_warnings [] c).

Definition commit : Conn unit :=
  conn_guard;; library RunCommit lib_commit;; update (set_transaction Inactive).
Definition rollback : Conn unit :=
  conn_guard;; library RunRollback lib_rollback;; update (set_transaction Inactive).

Definition execute_internal (sql : str) : Conn unit := library (RunInternal sql) (lib_run sql).
Definition savepoint (name : SavepointName) : Conn unit :=
  conn_guard;; execute_internal (lit "SAVEPOINT " ++ savepoint_text name);; update (set_transaction Unknown).
Definition rollback_to_savepoint (name : SavepointName) : Conn unit :=
  conn_guard;; execute_internal (lit "ROLLBACK TO SAVEPOINT " ++ savepoint_text name);; update (set_transaction Unknown).

Definition ping : Conn unit := conn_guard;; library RunPing lib_ping.

Definition set_server_output (setting : ServerOutputSetting) : Conn ServerOutputSetting :=
  conn_guard;;
  library (RunOutputCall (output_call setting)) (lib_output_call (output_call setting));;
  done (effective setting).

Definition take_server_output (max_lines max_bytes : Z) : Conn ServerOutputChunk :=
  conn_guard;;
  let max := Z.min max_lines (2 ^ 31 - 1) in
  let budget := Z.min max_bytes MAX_PACKED_BYTES in
  do taken <- library (RunTakeBlock max budget) (lib_take_block max budget);
  answer (read_taken taken).

(** [close], and the drop of a connection that was not closed. *)
Definition close : Conn unit := fun c =>
  if conn_closed c then (Ok tt, c) else library RunClose lib_close (mark_closed c).
Definition connection_dropped (c : OracleConnection) : OracleConnection := mark_closed c.

(** ** Opening a session *)

(** [OracleThinDriver::connect].  What the library's connect comes to is an
    argument, and so is whether it was in time where a limit applies; without a
    limit a panic of the library unwinds ([None]). *)
Definition connect `{OracleLibrary} (markers : list str) (p : ConnectionParams) (attempted : Attempted (T := Session) (E := ora_error))
    (in_time : bool) (id : ConnectionId) (next : Z) : option (result OracleConnection DbError) :=
  match build_config p with
  | Err e => Some (Err e)
  | Ok prepared =>
      let map_error := fun e => if names_certificate_parameters prepared
                                then explain_name_verification markers (map_connect e) else map_connect e in
      let session := match connect_limit p with
        | Some limit => Some (if in_time then attempt_result map_error attempted else Err (expired limit))
        | None => match attempted with Panicked _ => None | _ => Some (attempt_result map_error attempted) end
        end in
      option_map (fun r => result_bind r (fun s =>
        Ok (connection_new id s (session_allows_zones p) (session_rewrites_triggers p) (prepared_warnings prepared) next))) session
  end.

End Operations.
