(* ===== verification/OracleConnectionClaims.v ===== *)
(** * What a session of the Oracle driver guarantees (oracle-thin/src/conn.rs)

    The transaction state it reports, what it sends and under which limit, the
    values of output binds, and the time a cancel names. *)

From stdpp Require Import relations.
From S2P Require Import Prelude RustStr RustText Number Temporal Errors Columns Segment Policy ResultStore Events SessionShared Params Descriptor Connect Classify Rewrite ServerOutput OracleErrors OracleTime OracleTypes LobStream OracleCursor OracleCursorClaims Contract OracleConnection.
Open Scope Z_scope.
Open Scope conn_scope.

(** ** What the library documents *)

(** Whether the server has a transaction open.  Only a statement opens one; a
    commit, a rollback and DDL (also inside [EXECUTE IMMEDIATE], and when it
    compiled with errors) leave none open, and a statement about the session
    opens none. *)
Class LawfulTransactions `{C : OracleClient} `{Unicode} `{CaseMap} := {
  open_transaction : Session -> Prop;
  law_commit s r s' : lib_commit s = (r, s') ->
    match r with Ok _ => ~ open_transaction s' | Err _ => open_transaction s' -> open_transaction s end;
  law_rollback s r s' : lib_rollback s = (r, s') ->
    match r with Ok _ => ~ open_transaction s' | Err _ => open_transaction s' -> open_transaction s end;
  law_timeout d s : open_transaction (set_call_timeout d s).2 -> open_transaction s;
  law_statement sql s : open_transaction (lib_statement sql s).2 -> open_transaction s;
  law_names p s : open_transaction (bind_names p s).2 -> open_transaction s;
  law_ping s : open_transaction (lib_ping s).2 -> open_transaction s;
  law_close s : open_transaction (lib_close s).2 -> open_transaction s;
  law_output_call o s : open_transaction (lib_output_call o s).2 -> open_transaction s;
  law_take_block m b s : open_transaction (lib_take_block m b s).2 -> open_transaction s;
  law_savepoint_failed sql s e s' : lib_run sql s = (Err e, s') -> open_transaction s' -> open_transaction s;
  law_session_control p args s r s' : Classify.kind (classify (prep_sql p)) = SessionControl ->
    lib_execute p args s = (Ok r, s') -> open_transaction s' -> open_transaction s;
  law_ddl sql p args s r s' : Classify.kind (classify sql) = Ddl ->
    prep_sql p = sql \/ prep_sql p = normalize sql \/ prep_sql p = wrap (normalize sql) ->
    lib_execute p args s = (r, s') ->
    match r with Ok _ => True | Err e => is_compiled_with_errors (map e) = true end ->
    ~ open_transaction s';
  (** Preparing a statement does not reach the server. *)
  law_statement_error sql s e s' : lib_statement sql s = (Err e, s') -> is_compiled_with_errors (map e) = false;
}.

(** ** Values are read without a call *)

Section Reading.
Context `{C : OracleClient}.
Implicit Types c : OracleConnection.

(** The library's session, the transaction state and the calls stay. *)
Definition untouched c c' : Prop := inner c' = inner c /\ transaction c' = transaction c /\ history c' = history c.

Lemma untouched_refl c : untouched c c. Proof. done. Qed.
Lemma untouched_trans c1 c2 c3 : untouched c1 c2 -> untouched c2 c3 -> untouched c1 c3.
Proof. intros (A1 & B1 & D1) (A2 & B2 & D2). split_and!; congruence. Qed.

Lemma untouched_open l c : untouched c (open_cursor l c).2.
Proof. unfold open_cursor. by destruct (cursor_new _ _ _ _). Qed.
Lemma untouched_drop vs c : untouched c (drop_values vs c).
Proof.
  unfold drop_values. generalize (List.filter is_cursor vs) as l. intros l. revert c. induction l as [|v l IH]; intros c; [done|].
  simpl. eapply untouched_trans; [|apply IH]. done.
Qed.
Lemma untouched_read row slot spec c : untouched c (read_out_value row slot spec c).2.
Proof.
  unfold read_out_value. destruct (out_bind_type spec); [|done].
  assert (P : forall t, untouched c (let (r, row) := read_plain_out t row slot c in
    (match r with Ok v => Ok (v, row) | Err e => Err e end, c)).2) by (intros; by destruct (read_plain_out _ _ _ _)).
  destruct (out_sql_type spec); try apply P.
  destruct (take_out CtCursor row slot) as [[[l|]|e] row']; try done.
  unfold chain. pose proof (untouched_open l c). by destruct (open_cursor l c) as [[]].
Qed.
Lemma untouched_positional binds row slot seen c : untouched c (collect_positional binds row slot seen c).2.
Proof.
  revert row slot seen c. induction binds as [|b binds IH]; intros row slot seen c; [done|]. cbn [collect_positional].
  destruct (out_spec b) as [spec|]; [|apply IH]. pose proof (untouched_read row slot spec c) as HK.
  destruct (read_out_value row slot spec c) as [[[v row']|e] c']; (eapply untouched_trans; [exact HK|]); [apply IH|apply untouched_drop].
Qed.
Lemma untouched_named declared order row slot seen c : untouched c (collect_named declared order row slot seen c).2.
Proof.
  revert row slot seen c. induction order as [|name order IH]; intros row slot seen c; [done|]. cbn [collect_named].
  destruct (find_named declared name) as [b|]; [|apply IH]. destruct (out_spec (named_bind b)) as [spec|]; [|apply IH].
  pose proof (untouched_read row slot spec c) as HK.
  destruct (read_out_value row slot spec c) as [[[v row']|e] c']; (eapply untouched_trans; [exact HK|]); [apply IH|apply untouched_drop].
Qed.

(** *** Reasoning about a call *)

Definition post {A} (m : Conn A) (c : OracleConnection) (Q : result A DbError -> OracleConnection -> Prop) : Prop :=
  Q (m c).1 (m c).2.

Lemma post_chain {A B} (m : Conn A) (k : A -> Conn B) c Q :
  post m c (fun r c' => match r with Ok a => post (k a) c' Q | Err e => Q (Err e) c' end) -> post (chain m k) c Q.
Proof. unfold post, chain. by destruct (m c) as [[a|e] c']. Qed.

Lemma post_mono {A} (m : Conn A) c (P Q : result A DbError -> OracleConnection -> Prop) :
  post m c P -> (forall r c', P r c' -> Q r c') -> post m c Q.
Proof. unfold post. eauto. Qed.

Lemma post_library {A} k (f : Session -> result A ora_error * Session) c Q :
  (forall r s, f (inner c) = (r, s) -> Q (map_err map r) (record_call k (set_inner s c))) -> post (library k f) c Q.
Proof. intros HQ. unfold post, library. destruct (f (inner c)) as [r s]. by apply HQ. Qed.
Lemma post_attempt {A} (m : Conn A) c Q : post m c (fun r c' => Q (Ok r) c') -> post (attempt m) c Q.
Proof. unfold post, attempt. by destruct (m c). Qed.

End Reading.

Section Transactions.
Context `{L : LawfulTransactions}.
Implicit Types c : OracleConnection.

(** Nothing is opened, and the transaction state stays. *)
Definition keeps c c' : Prop :=
  (open_transaction (inner c') -> open_transaction (inner c)) /\ transaction c' = transaction c.

Lemma keeps_refl c : keeps c c. Proof. by split. Qed.
Lemma keeps_trans c1 c2 c3 : keeps c1 c2 -> keeps c2 c3 -> keeps c1 c3.
Proof. intros [A1 B1] [A2 B2]. split; [auto|congruence]. Qed.

(** A call that keeps, whatever it answers. *)
Definition keeping {A} (m : Conn A) : Prop := forall c, keeps c (m c).2.

Lemma keeping_chain {A B} (m : Conn A) (k : A -> Conn B) : keeping m -> (forall a, keeping (k a)) -> keeping (chain m k).
Proof.
  intros Hm Hk c. pose proof (Hm c) as HK. unfold chain. destruct (m c) as [[a|e] c']; [|done].
  eapply keeps_trans; [exact HK|apply Hk].
Qed.
Lemma keeping_done {A} (a : A) : keeping (done a). Proof. intros c. apply keeps_refl. Qed.
Lemma keeping_fail {A} e : keeping (A := A) (fail e). Proof. intros c. apply keeps_refl. Qed.
Lemma keeping_answer {A} (r : result A DbError) : keeping (answer r). Proof. intros c. apply keeps_refl. Qed.
Lemma keeping_reads {A} (f : OracleConnection -> A) : keeping (reads f). Proof. intros c. apply keeps_refl. Qed.
Lemma keeping_guard : keeping conn_guard.
Proof. intros c. unfold conn_guard. destruct (conn_closed c); apply keeps_refl. Qed.
Lemma keeping_update f : (forall c, keeps c (f c)) -> keeping (update f).
Proof. done. Qed.
Lemma keeping_library {A} k (f : Session -> result A ora_error * Session) :
  (forall s, open_transaction (f s).2 -> open_transaction s) -> keeping (library k f).
Proof. intros Hf c. pose proof (Hf (inner c)) as HK. unfold library. destruct (f (inner c)) as [r s]. by split. Qed.

Create HintDb keeping.
Hint Resolve keeping_chain keeping_done keeping_fail keeping_answer keeping_reads keeping_guard keeping_update
  keeps_refl : keeping.
Hint Extern 1 (keeping (library _ _)) =>
  apply keeping_library; intros s;
  solve [apply law_timeout | apply law_statement | apply law_names | apply law_ping | apply law_close
        | apply law_output_call | apply law_take_block] : keeping.

Lemma keeping_check st : keeping (check_out_bind_types st).
Proof. intros c. unfold check_out_bind_types. destruct (allow_timestamp_with_time_zone c); [apply keeps_refl|]. case_match; apply keeps_refl. Qed.
Lemma keeping_deadline d : keeping (apply_deadline d).
Proof.
  apply keeping_chain; [by apply keeping_update|]. intros ?. apply keeping_chain; [auto with keeping|].
  intros ?. by apply keeping_update.
Qed.
Lemma untouched_keeps c c' : untouched c c' -> keeps c c'.
Proof. intros (E1 & E2 & _). split; [by rewrite E1|done]. Qed.
Lemma keeping_collect st k r : keeping (collect_out_values st k r).
Proof.
  unfold collect_out_values. destruct (negb _); [auto with keeping|]. apply keeping_chain; [auto with keeping|].
  intros [row|]; [|auto with keeping]. destruct (st_binds st); [auto with keeping| |].
  - apply keeping_chain; [|auto with keeping]. intros c. apply untouched_keeps, untouched_positional.
  - apply keeping_chain; [unfold bind_name_order; auto 6 with keeping|]. intros order.
    apply keeping_chain; [|auto with keeping]. intros c. apply untouched_keeps, untouched_named.
Qed.

(** ** What a statement leaves *)

Lemma compiled_explained e : is_compiled_with_errors (explain_parsed_placeholders e) = true -> is_compiled_with_errors e = true.
Proof. unfold explain_parsed_placeholders. destruct (Errors.kind e); try done. by destruct (negb _). Qed.

Lemma no_outputs st : binds_is_empty (st_binds st) = true -> has_outputs (st_binds st) = false.
Proof. unfold binds_is_empty, binds_len. by destruct (st_binds st) as [|[]|[]]. Qed.

(** A statement that succeeded, or compiled with errors, was executed by the
    library, and nothing was opened before or after that call. *)
Definition executed (sql : str) c c' (r : result ExecutionOutcome DbError) : Prop :=
  exists args s1 r1 s2, lib_execute (prepared_for sql None) args s1 = (r1, s2) /\
    match r1 with Ok _ => True | Err e => is_compiled_with_errors (map e) = true /\ exists e', r = Err e' end /\
    (open_transaction s1 -> open_transaction (inner c)) /\ (open_transaction (inner c') -> open_transaction s2).

Lemma non_query_spec st sql k owned names c :
  post (execute_non_query st sql k owned names) c (fun r c' => transaction c' = transaction c /\
    (match r with Ok _ => True | Err e => binds_is_empty (st_binds st) = true /\ is_compiled_with_errors e = true end ->
     executed sql c c' r)).
Proof.
  unfold execute_non_query. apply post_chain, post_library. intros [u|e] s1 E1; cbn [map_err].
  2: { split; [done|]. intros [_ Hc]. by rewrite (law_statement_error _ _ _ _ E1) in Hc. }
  pose proof (law_statement sql (inner c)) as H1'. rewrite E1 in H1'. cbn in H1'.
  apply post_chain, post_library. intros [r1|e] s2 E2; cbn [map_err inner record_call set_inner] in *.
  2: { split; [done|]. intros [_ Hc]. eexists _, s1, (Err e), s2. split_and!; eauto. }
  set (c1 := record_call _ (set_inner s2 _)). apply post_chain.
  pose proof (keeping_collect st k r1 c1) as [HK1 HK2]. unfold post at 1.
  destruct (collect_out_values st k r1 c1) as [[out|e] c2] eqn:E3; cbn [fst snd] in *.
  - split; [exact HK2|]. intros _. eexists _, s1, (Ok r1), s2. split_and!; eauto.
  - split; [exact HK2|]. intros [Hb _]. unfold collect_out_values in E3. by rewrite no_outputs in E3.
Qed.

Lemma query_spec st owned names c :
  post (execute_query st owned names) c (fun _ c' => transaction c' = transaction c).
Proof.
  unfold execute_query. apply post_chain, post_library. intros [u|e] s1 _; [|done]. cbn [map_err].
  apply post_chain, post_library. intros [l|e] s2 _; [|done]. cbn [map_err].
  set (c1 := record_call _ (set_inner s2 _)). apply post_chain. unfold post at 1.
  pose proof (untouched_open l c1) as (_ & HK & _). by destruct (open_cursor l c1) as [[cur|e] c2].
Qed.

Lemma detect_ddl sql k : detect sql = Some k -> Classify.kind (classify sql) = Ddl.
Proof.
  unfold detect, classify. destruct (next (keywords_new sql)) as [[w|] words]; [|done]. cbn [is_word].
  destruct (negb _) eqn:E; [done|]. intros _. apply negb_false_iff in E. cbn [existsb] in E. rewrite orb_false_r in E.
  apply bool_decide_eq_true in E as ->. reflexivity.
Qed.

Lemma plan_cases sql p : plan sql = Ok p ->
  p = AsSubmitted \/ Classify.kind (classify sql) = Ddl /\
    (p = Trimmed (normalize sql) \/ exists k, p = Wrapped (mkRewrite k (wrap (normalize sql)))).
Proof.
  unfold plan. destruct (detect sql) as [k|] eqn:E; [|intros [= <-]; auto]. apply detect_ddl in E. destruct (negb _).
  - intros [= <-]. case_match; auto.
  - case_match; [done|]. intros [= <-]. eauto.
Qed.

(** Everything a success of [execute] can leave. *)
Lemma submit_spec st cl owned names c :
  cl = classify (st_sql st) ->
  post (submit st cl owned names) c (fun r c' => transaction c' = transaction c /\
    match r with
    | Err _ => keeps c c'
    | Ok (p, outcome) => forall w o, report st (Classify.kind cl) p w outcome = Ok o ->
        match Classify.kind cl with
        | Ddl => ~ open_transaction (inner c')
        | SessionControl => open_transaction (inner c') -> open_transaction (inner c)
        | _ => True
        end
    end).
Proof.
  intros ->. unfold submit. destruct (returns_rows (classify (st_sql st))) eqn:Er.
  - apply post_chain, post_attempt. eapply post_mono; [apply query_spec|]. intros r c' HT. split; [done|]. intros w o _.
    unfold classify in *. destruct (next _) as [f ws]. repeat case_match; simpl in *; congruence || done.
  - apply post_chain. unfold post at 1, reads at 1 2. cbn [fst snd].
    apply post_chain. unfold post at 1, answer at 1 2. cbn [fst snd].
    set (rewriting := rewrites_triggers c && binds_is_empty (st_binds st)).
    destruct (if rewriting then plan (st_sql st) else Ok AsSubmitted) as [p|e] eqn:Ep; [|by split; [|apply keeps_refl]].
    assert (Hp : p = AsSubmitted \/ binds_is_empty (st_binds st) = true /\ Classify.kind (classify (st_sql st)) = Ddl /\
      (p = Trimmed (normalize (st_sql st)) \/ exists k, p = Wrapped (mkRewrite k (wrap (normalize (st_sql st)))))).
    { destruct rewriting eqn:Ew; [|left; congruence]. apply andb_true_iff in Ew as [_ Ew].
      apply plan_cases in Ep as [->|[E1 E2]]; auto. }
    apply post_chain, post_attempt. eapply post_mono; [apply non_query_spec|]. intros r c' [HT HN]. split; [done|].
    intros w o Ho.
    assert (HE : executed (plan_text p (st_sql st)) c c' r).
    { apply HN. destruct r as [o'|e]; [done|]. unfold report in Ho. destruct Hp as [->|[Hb _]]; [by destruct w|].
      split; [done|]. rewrite Hb in Ho. apply compiled_explained. destruct (plan_wrapped p) as [rw|]; [|by destruct w].
      unfold finish_rewritten in Ho. destruct (is_compiled_with_errors (explain_parsed_placeholders e)); [done|by destruct w]. }
    destruct HE as (args & s1 & r1 & s2 & Hx & Hr & H1' & H2').
    destruct (Classify.kind (classify (st_sql st))) eqn:Ek; try done.
    + intros Ho2. apply H2' in Ho2. revert Ho2. eapply (law_ddl (st_sql st)); [done| |exact Hx|by destruct r1; [|apply Hr]].
      destruct Hp as [->|[_ [_ [->|[k ->]]]]]; simpl; auto.
    + destruct Hp as [->|[_ [Hk _]]]; [|done]. destruct r1 as [r1|e1].
      * intros Ho2. apply H1'. eapply law_session_control; [|exact Hx|auto]. done.
      * destruct Hr as [_ [e' ->]]. by destruct w.
Qed.

(** ** Whatever a session does *)

(** One operation, with what it is asked; a result set that is closed; and what
    the handles outside do to the library's session, which opens nothing. *)
Inductive conn_step : OracleConnection -> OracleConnection -> Prop :=
| StepExecute st c : conn_step c (execute st c).2
| StepCommit c : conn_step c (commit c).2
| StepRollback c : conn_step c (rollback c).2
| StepSavepoint name c : conn_step c (savepoint name c).2
| StepRollbackTo name c : conn_step c (rollback_to_savepoint name c).2
| StepPing c : conn_step c (ping c).2
| StepSetOutput x c : conn_step c (set_server_output x c).2
| StepTakeOutput n b c : conn_step c (take_server_output n b c).2
| StepTakeWarnings c : conn_step c (take_connect_warnings c).2
| StepClose c : conn_step c (close c).2
| StepDropped c : conn_step c (connection_dropped c)
| StepResultSetClosed c : conn_step c (result_set_closed c)
| StepOutside s c : (open_transaction s -> open_transaction (inner c)) -> conn_step c (set_inner s c).

Definition truthful c : Prop := transaction c = Inactive -> ~ open_transaction (inner c).

Lemma keeps_truthful c c' : keeps c c' -> truthful c -> truthful c'.
Proof. intros [H1' H2'] Hc Ht Ho. rewrite H2' in Ht. by apply Hc; [|apply H1']. Qed.

Lemma keeping_truthful {A} (m : Conn A) c : keeping m -> truthful c -> truthful (m c).2.
Proof. intros Hm. by apply keeps_truthful. Qed.

Lemma execute_truthful st c : truthful c -> truthful (execute st c).2.
Proof.
  intros Hc. change (post (execute st) c (fun _ c' => truthful c')). unfold execute. apply post_chain. unfold post at 1.
  pose proof (keeping_guard c) as HK. destruct (conn_guard c) as [[u|e] c1]; cbn [fst snd] in *; [|by eapply keeps_truthful].
  eapply keeps_truthful in Hc; [|exact HK]. clear HK. apply post_chain. unfold post at 1.
  pose proof (keeping_check st c1) as HK. destruct (check_out_bind_types st c1) as [[u'|e] c2]; cbn [fst snd] in *; [|by eapply keeps_truthful].
  eapply keeps_truthful in Hc; [|exact HK]. clear HK. cbv zeta. destruct (negb _ && _); [exact Hc|].
  apply post_chain. unfold post at 1, answer at 1 2. cbn [fst snd]. destruct (prepare_binds st) as [[owned names]|e]; [|exact Hc].
  apply post_chain. unfold post at 1, reads at 1 2. cbn [fst snd]. apply post_chain. unfold post at 1.
  pose proof (keeping_deadline (st_deadline st) c2) as HK.
  destruct (apply_deadline (st_deadline st) c2) as [[u''|e] c3]; cbn [fst snd] in *; [|by eapply keeps_truthful].
  eapply keeps_truthful in Hc; [|exact HK]. clear HK. apply post_chain. eapply post_mono; [by apply submit_spec|].
  intros [[p outcome]|e] c' [HT HS]; [|by eapply keeps_truthful]. cbv beta iota.
  set (w := deadline_change_warning _ _ _) in *. destruct (report _ _ p w outcome) as [o|e] eqn:Er; [|done].
  specialize (HS _ _ Er). unfold post, chain, update, done, record_statement, truthful. cbn [fst snd set_transaction transaction inner].
  destruct (Classify.kind _); try done. rewrite HT. intros Ht Ho. by apply Hc; [|apply HS].
Qed.

Lemma resolve_truthful k (f : Session -> result unit ora_error * Session) c :
  (forall s r s', f s = (r, s') -> match r with Ok _ => ~ open_transaction s' | Err _ => open_transaction s' -> open_transaction s end) ->
  truthful c -> truthful ((conn_guard;; library k f;; update (set_transaction Inactive)) c).2.
Proof.
  intros Hf Hc. unfold chain at 1, conn_guard. destruct (conn_closed c); [exact Hc|]. unfold chain, library.
  specialize (Hf (inner c)). destruct (f (inner c)) as [[u|e] s]; specialize (Hf _ _ eq_refl); cbn; [by intros _|].
  intros Ht Ho. apply Hc in Ht. auto.
Qed.

Lemma internal_truthful sql c :
  truthful c -> truthful ((conn_guard;; execute_internal sql;; update (set_transaction Unknown)) c).2.
Proof.
  intros Hc. unfold chain at 1, conn_guard. destruct (conn_closed c); [exact Hc|]. unfold chain, execute_internal, library.
  pose proof (law_savepoint_failed sql (inner c)) as Hf. destruct (lib_run sql (inner c)) as [[u|e] s]; [done|].
  intros Ht Ho. apply Hc in Ht. eauto.
Qed.

Lemma step_truthful c c' : conn_step c c' -> truthful c -> truthful c'.
Proof.
  intros []; try (eapply keeps_truthful; by split).
  - apply execute_truthful.
  - apply resolve_truthful, law_commit.
  - apply resolve_truthful, law_rollback.
  - apply internal_truthful.
  - apply internal_truthful.
  - apply keeping_truthful. unfold ping. auto with keeping.
  - apply keeping_truthful. unfold set_server_output. auto 7 with keeping.
  - apply keeping_truthful. unfold take_server_output. auto 7 with keeping.
  - eapply keeps_truthful. unfold close. destruct (conn_closed c0); [apply keeps_refl|].
    eapply (keeps_trans _ (mark_closed c0)); [by split|]. by apply keeping_library, law_close.
Qed.

End Transactions.

(** ** What the library takes for a query *)

Section Queries.
Context `{Unicode} `{CaseMap}.

(** What is cut off the end of a text begins with no letter. *)
Definition cut (r : str) : Prop := forall c, head r = Some c -> is_ascii_alphabetic c = false.

Lemma strip_prefix_app s r p t : strip_prefix s p = Some t -> strip_prefix (s ++ r) p = Some (t ++ r).
Proof. rewrite !strip_prefix_Some. intros ->. by rewrite <- app_assoc. Qed.

Lemma break_str_app p s r a b : break_str p s = Some (a, b) -> break_str p (s ++ r) = Some (a, b ++ r).
Proof.
  revert a b. induction s as [|c s IH]; intros a b E.
  - simpl in E. destruct (strip_prefix [] p) as [t|] eqn:Ep; [|done]. injection E as <- <-.
    apply (strip_prefix_app _ r) in Ep. simpl. destruct r; simpl in *; by rewrite Ep.
  - pose proof (break_str_Some _ _ _ _ E) as [Es _]. revert E. cbn [break_str app].
    destruct (strip_prefix (c :: s) p) as [t|] eqn:Ep.
    + intros [= <- <-]. change (c :: s ++ r) with ((c :: s) ++ r). by rewrite (strip_prefix_app _ r _ _ Ep).
    + destruct (break_str p s) as [[a' b']|] eqn:Eb; [|done]. intros [= <- <-].
      destruct (strip_prefix (c :: s ++ r) p) as [t|] eqn:Ep'; [|by rewrite (IH _ _ eq_refl)].
      exfalso. apply strip_prefix_Some in Ep'. assert (Hl : (length p <= length (c :: s))%nat).
      { rewrite Es. simpl. rewrite !length_app. lia. }
      assert (E2 : c :: s = p ++ drop (length p) (c :: s)).
      { rewrite <- (take_drop (length p) (c :: s)) at 1. f_equal.
        transitivity (take (length p) (c :: s ++ r)); [|by rewrite Ep', take_app_length].
        change (c :: s ++ r) with ((c :: s) ++ r). by rewrite take_app_le. }
      apply strip_prefix_Some in E2. congruence.
Qed.

(** A skip in the text is the same before the cut, or runs to the end. *)
Lemma position_of_cut c a r p : (p <= length a)%nat ->
  position_of c (a ++ r) p = position_of c a p \/ position_of c a p = length a.
Proof.
  intros Hp. unfold position_of. rewrite drop_app_le by done. destruct (break_char (Z.eqb c) (drop p a)) as [x y] eqn:E.
  apply break_char_spec in E as (E & Hx & Hy). destruct y as [|d y].
  - right. simpl. rewrite app_nil_r in E. rewrite <- E, length_drop. lia.
  - left. rewrite E, <- app_assoc. simpl. by rewrite break_char_app by auto.
Qed.

Lemma upstream_skip_app a r p ch lc : (p < length a)%nat ->
  upstream_skip (a ++ r) p ch lc = upstream_skip a p ch lc \/
  is_ascii_alphabetic ch = false /\ (length a <= upstream_skip a p ch lc)%nat.
Proof.
  intros Hp. unfold upstream_skip, QUOTE, DQUOTE. destruct (Z.eqb_spec ch 39) as [->|].
  { destruct (position_of_cut 39 a r (p + 1)) as [->| ->]; [lia|by left|right; split; [done|lia]]. }
  destruct (is_whitespace ch); [by left|]. cbn [negb]. destruct ((ch =? 45) && (lc =? 45)) eqn:E1.
  { apply andb_true_iff in E1 as [E1 _]. apply Z.eqb_eq in E1 as ->.
    destruct (position_of_cut NEWLINE a r p) as [->| ->]; [lia|by left|right; split; [done|lia]]. }
  destruct ((ch =? 42) && (lc =? 47)) eqn:E2.
  { apply andb_true_iff in E2 as [E2 _]. apply Z.eqb_eq in E2 as ->. unfold position_of_close.
    rewrite drop_app_le by lia. destruct (break_str _ (drop (p + 1) a)) as [[x y]|] eqn:Eb.
    - rewrite (break_str_app _ _ r _ _ Eb). left. apply break_str_Some in Eb as [Eb _].
      assert (length (drop (p + 1) a) = length x + (2 + length y))%nat by (rewrite Eb, !length_app; done).
      rewrite length_drop in *. rewrite length_app. lia.
    - right. split; [done|]. lia. }
  destruct (Z.eqb_spec ch 34) as [->|]; [|by left].
  destruct (position_of_cut 34 a r (p + 1)) as [->| ->]; [lia|by left|right; split; [done|lia]].
Qed.

Lemma upstream_skip_letter text p ch lc : is_ascii_alphabetic ch = true -> upstream_skip text p ch lc = p.
Proof.
  intros Ha. unfold upstream_skip, QUOTE, DQUOTE, is_ascii_alphabetic in *.
  repeat match goal with |- context [?a =? ?b] => destruct (Z.eqb_spec a b); [subst; simpl in *; lia|] end.
  simpl. by destruct (is_whitespace ch).
Qed.

Lemma upstream_loop_end fuel text p ks lc : (length text <= p)%nat -> upstream_loop fuel text p ks false lc = false.
Proof. intros Hp. destruct fuel; [done|]. simpl. rewrite lookup_ge_None_2 by done. by destruct ks. Qed.

(** A text that is a query is one with anything after it. *)
Lemma upstream_loop_app f f' a r p ks lwa lc :
  cut r -> (f <= f')%nat -> (lwa = true -> (p <= length a)%nat) ->
  upstream_loop f a p ks lwa lc = true -> upstream_loop f' (a ++ r) p ks lwa lc = true.
Proof.
  intros Hr. revert f' p ks lwa lc. induction f as [|f IH]; intros [|f'] p ks lwa lc Hf Hp; try done; [lia|].
  cbn [upstream_loop]. destruct (a !! p) as [ch|] eqn:E.
  - pose proof (lookup_lt_Some _ _ _ E) as Hl. rewrite (lookup_app_l_Some _ _ _ _ E).
    destruct (negb (is_ascii_alphabetic ch) && lwa) eqn:Ew.
    + intros <-. f_equal. destruct (decide (default p ks <= p)%nat) as [Hd|Hd].
      * rewrite drop_app_le by lia. rewrite take_app_le; [done|]. rewrite length_drop. lia.
      * replace (p - default p ks)%nat with 0%nat by lia. done.
    + destruct (is_ascii_alphabetic ch) eqn:Ea.
      * rewrite !upstream_skip_letter by done. apply IH; [lia|]. intros _. lia.
      * destruct (upstream_skip_app a r p ch lc Hl) as [->|[_ Hs]]; [apply IH; [lia|done]|].
        by rewrite upstream_loop_end by lia.
  - apply lookup_ge_None in E. destruct ks as [start|]; [|done]. intros Hq. apply andb_true_iff in Hq as [-> Hq].
    specialize (Hp eq_refl). assert (p = length a) as -> by lia.
    assert (Et : take (length a - start) (drop start (a ++ r)) = drop start a).
    { destruct (decide (start <= length a)%nat); [|rewrite (drop_ge a) by lia; by replace (length a - start)%nat with 0%nat by lia].
      rewrite drop_app_le by lia. rewrite <- length_drop. apply take_app_length. }
    destruct r as [|c r]; [by rewrite !app_nil_r, lookup_ge_None_2, Hq by done|].
    rewrite list_lookup_middle by done. rewrite (Hr c eq_refl). cbn. by rewrite Et.
Qed.

Lemma upstream_app a r : cut r -> upstream_would_return_rows (a ++ r) = false -> upstream_would_return_rows a = false.
Proof.
  intros Hr Hq. destruct (upstream_would_return_rows a) eqn:E; [|done]. rewrite <- Hq. unfold upstream_would_return_rows in *.
  symmetry. revert E. apply upstream_loop_app; [done|rewrite length_app; lia|done].
Qed.

Lemma whitespace_no_letter c : is_whitespace c = true -> is_ascii_alphabetic c = false.
Proof.
  unfold is_ascii_alphabetic. intros Hw. destruct ((_ && _) || _) eqn:E; [|done]. exfalso. revert Hw. unfold is_whitespace.
  intros Hw. repeat match goal with H : _ || _ = true |- _ => apply orb_true_iff in H as [H|H] end; boolify; lia.
Qed.

Lemma normalize_no_query sql : upstream_would_return_rows sql = false -> upstream_would_return_rows (normalize sql) = false.
Proof.
  destruct (normalize_spec sql) as (w1 & semi & w2 & slash & w3 & E & H1 & H2 & H3 & Hs & Hl). rewrite E at 1.
  apply upstream_app. set (r := w1 ++ _).
  assert (Hr : Forall (fun c => is_ascii_alphabetic c = false) r).
  { assert (Hw : forall w, all_ws w -> Forall (fun c => is_ascii_alphabetic c = false) w).
    { intros w Hw. eapply Forall_impl; [exact Hw|exact whitespace_no_letter]. }
    unfold r. rewrite !Forall_app. destruct Hs as [->| ->], Hl as [->| ->]; split_and!; auto; repeat constructor. }
  intros c Hc. destruct r as [|d r']; [done|]. injection Hc as ->. by inversion Hr.
Qed.

Lemma wrapped_no_query body : upstream_would_return_rows (wrap body) = false.
Proof.
  unfold wrap. set (t := literal body ++ _). change (lit "BEGIN EXECUTE IMMEDIATE " ++ t) with
    (66 :: 69 :: 71 :: 73 :: 78 :: 32 :: lit "EXECUTE IMMEDIATE " ++ t). set (u := lit "EXECUTE IMMEDIATE " ++ t).
  unfold upstream_would_return_rows. cbn [length]. repeat (cbn [upstream_loop lookup]; rewrite ?upstream_skip_letter by done; cbn - [is_query_keyword upstream_loop upstream_skip length]).
  unfold is_query_keyword, str_uppercase. cbn [flat_map take]. rewrite !to_uppercase_ascii by done. reflexivity.
Qed.
End Queries.

(** ** What a statement sends *)

Section Sending.
Context `{C : OracleClient} {U : Unicode} {CM : CaseMap}.
Implicit Types c : OracleConnection.

(** The whole of what a query, or any other statement, sends: its own limit
    first, then the text to prepare, then one run. *)
Definition query_script (st : Statement) (args : BindArgs) : list LibCall :=
  let size := option_map (fun n => Z.min n (2 ^ 32 - 1)) (st_fetch_rows st) in
  [PrepareStatement (st_sql st); RunQuery (mkPrepared (st_sql st) false true (Some 0) size) args].
Definition execute_script (st : Statement) (text : str) (args : BindArgs) : list LibCall :=
  [PrepareStatement text; RunExecute (mkPrepared text false true (Some 0) None) args;
   PrepareStatement (st_sql st); ReadBindNames (mkPrepared (st_sql st) false false None None)].

(** The calls made since are the first ones of a script. *)
Definition sends (script : list LibCall) c c' : Prop := exists calls, history c' = history c ++ calls /\ calls `prefix_of` script.

Lemma sends_nothing script c c' : history c' = history c -> sends script c c'.
Proof. intros E. exists []. rewrite E, app_nil_r. split; [done|apply prefix_nil]. Qed.
Lemma sends_more k script c c1 c' : history c1 = history c ++ [k] -> sends script c1 c' -> sends (k :: script) c c'.
Proof.
  intros E1 (calls & E & Hp). exists (k :: calls). split; [|by apply prefix_cons]. by rewrite E, E1, <- app_assoc.
Qed.

(** The calls that were made are listed. *)
Ltac sent := unfold sends; cbn; rewrite <- ?app_assoc; eexists; split; [reflexivity|]; cbn; repeat apply prefix_cons; apply prefix_nil.

Lemma query_sends st owned names c :
  post (execute_query st owned names) c (fun _ c' => sends (query_script st (bind_args owned names)) c c').
Proof.
  unfold execute_query, query_script. apply post_chain, post_library.
  intros [u|e] s1 _; cbn [map_err]; [|sent].
  apply post_chain, post_library. intros [l|e] s2 _; cbn [map_err]; [|sent].
  set (c1 := record_call _ (set_inner s2 _)). apply post_chain. pose proof (untouched_open l c1) as (_ & _ & HK). unfold post at 1.
  destruct (open_cursor l c1) as [[cur|e] c2]; cbn in *; unfold post, sends; cbn; rewrite HK; sent.
Qed.

Definition read_names (st : Statement) : list LibCall :=
  [PrepareStatement (st_sql st); ReadBindNames (mkPrepared (st_sql st) false false None None)].

Lemma collect_sends st k r c : post (collect_out_values st k r) c (fun _ c' => sends (read_names st) c c').
Proof.
  unfold collect_out_values. destruct (negb _); [by apply sends_nothing|]. apply post_chain. unfold post at 1, answer at 1 2.
  cbn [fst snd]. destruct (output_row _ _ _) as [[row|]|e]; try by apply sends_nothing.
  destruct (st_binds st) as [|binds|binds]; [by apply sends_nothing| |].
  - apply post_chain. pose proof (untouched_positional binds row 0 [] c) as (_ & _ & HK). unfold post at 1.
    destruct (collect_positional binds row 0 [] c) as [[vs|e] c']; by apply sends_nothing.
  - apply post_chain. unfold bind_name_order. apply post_chain, post_library.
    intros [u|e] s1 _; cbn [map_err]; [|sent]. apply post_library.
    intros [order|e] s2 _; cbn [map_err]; [|sent].
    set (c1 := record_call _ (set_inner s2 _)). apply post_chain.
    pose proof (untouched_named binds order row 0 [] c1) as (_ & _ & HK). unfold post at 1.
    destruct (collect_named binds order row 0 [] c1) as [[vs|e] c']; cbn in *; unfold post, sends; cbn; rewrite HK; sent.
Qed.

Lemma non_query_sends st sql k owned names c :
  post (execute_non_query st sql k owned names) c (fun _ c' => sends (execute_script st sql (bind_args owned names)) c c').
Proof.
  unfold execute_non_query, execute_script. apply post_chain, post_library.
  intros [u|e] s1 _; cbn [map_err]; [|sent].
  apply post_chain, post_library. intros [r|e] s2 _; cbn [map_err]; [|sent].
  apply post_chain. eapply post_mono; [apply collect_sends|].
  intros [out|e] c' Hs; (apply (sends_more _ _ _ (record_call (PrepareStatement sql) (set_inner s1 c))); [done|]; eapply sends_more; [|exact Hs]; done).
Qed.

(** What may be sent for a text that is not a query: the text, or what the
    trigger rewrite makes of it. *)
Definition sendable (st : Statement) (rewrites : bool) (text : str) : Prop :=
  upstream_would_return_rows text = false /\
  (text = st_sql st \/
   rewrites = true /\ binds_is_empty (st_binds st) = true /\ detect (st_sql st) <> None /\
   (text = normalize (st_sql st) \/ text = wrap (normalize (st_sql st)))).

Lemma plan_sendable st rewrites p :
  upstream_would_return_rows (st_sql st) = false ->
  (if rewrites && binds_is_empty (st_binds st) then plan (st_sql st) else Ok AsSubmitted) = Ok p ->
  sendable st rewrites (plan_text p (st_sql st)).
Proof.
  intros Hq. destruct (rewrites && _) eqn:Ew; [|by intros [= <-]; split; [|left]].
  apply andb_true_iff in Ew as [-> Hb]. unfold plan. destruct (detect (st_sql st)) as [k|] eqn:Ed; [|by intros [= <-]; split; [|left]].
  assert (Hd : detect (st_sql st) <> None) by (by rewrite Ed).
  destruct (negb _).
  - intros [= <-]. case_match; [by split; [|left]|]. split; [by apply normalize_no_query|]. right. simpl. auto.
  - case_match; [done|]. intros [= <-]. split; [apply wrapped_no_query|]. right. simpl. auto.
Qed.

(** A script of the statement, after its limit. *)
Definition contained (st : Statement) (owned : list OwnedBind) (names : option (list str)) c c' : Prop :=
  (returns_rows (classify (st_sql st)) = true /\
   sends (SetTimeout (st_deadline st) :: query_script st (bind_args owned names)) c c') \/
  (returns_rows (classify (st_sql st)) = false /\
   exists text, sendable st (rewrites_triggers c) text /\
     sends (SetTimeout (st_deadline st) :: execute_script st text (bind_args owned names)) c c').

Lemma deadline_sends d c : post (apply_deadline d) c (fun _ c' =>
  history c' = history c ++ [SetTimeout d] /\ rewrites_triggers c' = rewrites_triggers c).
Proof.
  unfold apply_deadline. apply post_chain. unfold post at 1, update at 1 2. cbn [fst snd].
  apply post_chain, post_library. by intros [u|e] s _.
Qed.

Lemma submit_contained st owned names c c1 :
  history c1 = history c ++ [SetTimeout (st_deadline st)] -> rewrites_triggers c1 = rewrites_triggers c ->
  returns_rows (classify (st_sql st)) = true \/ upstream_would_return_rows (st_sql st) = false ->
  post (submit st (classify (st_sql st)) owned names) c1 (fun _ c' => contained st owned names c c').
Proof.
  intros E1 E2 Hq. unfold submit, contained. destruct (returns_rows _) eqn:Er.
  - apply post_chain, post_attempt. eapply post_mono; [apply query_sends|]. intros r c' Hs. left. split; [done|].
    by eapply sends_more.
  - destruct Hq as [?|Hq]; [done|]. apply post_chain. unfold post at 1, reads at 1 2. cbn [fst snd].
    apply post_chain. unfold post at 1, answer at 1 2. cbn [fst snd].
    destruct (if _ : bool then _ else _) as [p|e] eqn:Ep.
    2: { right. split; [done|]. exists (st_sql st). split; [by split; [|left]|]. eapply sends_more; [exact E1|]. by apply sends_nothing. }
    apply plan_sendable in Ep; [|done]. rewrite E2 in Ep. apply post_chain, post_attempt.
    eapply post_mono; [apply non_query_sends|]. intros r c' Hs. right. split; [done|]. eexists. split; [exact Ep|].
    by eapply sends_more.
Qed.

Lemma execute_contained st c : conn_closed c = false ->
  post (execute st) c (fun _ c' => history c' = history c \/
    exists owned names, prepare_binds st = Ok (owned, names) /\ contained st owned names c c').
Proof.
  intros Hc. unfold execute. apply post_chain. unfold post at 1, conn_guard. rewrite Hc. cbn [fst snd].
  apply post_chain. unfold post at 1. assert (E : (check_out_bind_types st c).2 = c).
  { unfold check_out_bind_types. destruct (allow_timestamp_with_time_zone c); [done|]. by case_match. }
  rewrite E. destruct (check_out_bind_types st c).1; [|by left]. cbv zeta.
  destruct (negb _ && _) eqn:Eg; [by left|]. apply post_chain. unfold post at 1, answer at 1 2. cbn [fst snd].
  destruct (prepare_binds st) as [[owned names]|e]; [|by left].
  apply post_chain. unfold post at 1, reads at 1 2. cbn [fst snd]. apply post_chain.
  eapply post_mono; [apply deadline_sends|]. intros r c1 [E1 E2].
  assert (Hq : returns_rows (classify (st_sql st)) = true \/ upstream_would_return_rows (st_sql st) = false).
  { apply andb_false_iff in Eg as [Eg|Eg]; [left; by apply negb_false_iff|by right]. }
  destruct r as [u|e].
  2: { right. exists owned, names. split; [done|]. unfold contained. destruct (returns_rows _) eqn:Er; [left|right].
       - split; [done|]. eapply sends_more; [exact E1|by apply sends_nothing].
       - destruct Hq as [?|Hq]; [done|]. split; [done|]. exists (st_sql st). split; [by split; [|left]|].
         eapply sends_more; [exact E1|by apply sends_nothing]. }
  apply post_chain. eapply post_mono; [by apply submit_contained|]. intros [[p outcome]|e] c' HC; [|right; eauto].
  cbv beta iota. set (w := deadline_change_warning _ _ _). right. exists owned, names. split; [done|].
  by destruct (report st _ p w outcome).
Qed.

(** C15: a statement is sent in a way that loses no row and decodes no value
    early.  Executing one first arms its own limit, then sends at most one text,
    prepared without a cached cursor, large objects as locators and no row
    fetched ahead, with the statement's own binds in their order; only a text
    the driver classified as a query runs as one, and nothing the library would
    take for a query runs where its rows would be dropped.  What goes out is the
    statement's text, unless it creates a trigger and declares no binds.  A
    closed session sends nothing. *)
Theorem statement_is_sent_contained st c :
  let (r, c') := execute st c in
  (conn_closed c = true -> r = Err (connection_closed (lit "connection")) /\ c' = c) /\
  (history c' = history c \/
   exists owned names, prepare_binds st = Ok (owned, names) /\
   ((returns_rows (classify (st_sql st)) = true /\
     sends (SetTimeout (st_deadline st) :: query_script st (bind_args owned names)) c c') \/
    (returns_rows (classify (st_sql st)) = false /\
     exists text, sendable st (rewrites_triggers c) text /\
       sends (SetTimeout (st_deadline st) :: execute_script st text (bind_args owned names)) c c'))).
Proof.
  destruct (conn_closed c) eqn:Ec; [by unfold execute, chain at 1, conn_guard; rewrite Ec; split; [|left]|].
  pose proof (execute_contained st c Ec) as HE. unfold post in HE. destruct (execute st c) as [r c']. by split.
Qed.
End Sending.

(** ** Output values *)

(** Taking a value out of a row's slot leaves the other slots as they are. *)
Class LawfulSlots `{C : OracleClient} := {
  take_other t t' row i j : i <> j -> (take_cell t' (take_cell t row i).2 j).1 = (take_cell t' row j).1;
}.

Section Outputs.
Context `{L : LawfulSlots} {U : Unicode} {CM : CaseMap}.
Implicit Types c : OracleConnection.

(** What a slot of a row holds for a declared output. *)
Definition shows (row : Row) (slot : nat) (spec : OutBindSpec) (v : Value) : Prop :=
  exists c c' row', read_out_value row slot spec c = (Ok (v, row'), c').

(** The slots from [k] on are those of the row the server sent. *)
Definition unread (k : nat) (row row' : Row) : Prop := forall t j, (k <= j)%nat -> (take_cell t row' j).1 = (take_cell t row j).1.

Lemma unread_take t k row row' : unread k row row' -> unread (S k) row (take_cell t row' k).2.
Proof. intros Hu t' j Hj. rewrite take_other by lia. apply Hu. lia. Qed.
Lemma unread_skip k row row' : unread k row row' -> unread (S k) row row'.
Proof. intros Hu t j Hj. apply Hu. lia. Qed.

Lemma read_plain_row t row slot c : (read_plain_out t row slot c).2 = row \/ exists t', (read_plain_out t row slot c).2 = (take_cell t' row slot).2.
Proof.
  unfold read_plain_out, present, take_out.
  destruct t; try (by left); right; eexists; destruct (take_cell _ row slot) eqn:E; cbn; by rewrite ?E.
Qed.

Lemma read_plain_same t k row row' c : unread k row row' -> (read_plain_out t row' k c).1 = (read_plain_out t row k c).1.
Proof.
  intros Hu. unfold read_plain_out, present, take_out. destruct t; try done; cbn;
    match goal with |- context [take_cell ?t row' k] => pose proof (Hu t k (le_n k)) as E;
      destruct (take_cell t row' k), (take_cell t row k); cbn in *; by subst end.
Qed.

(** A read of the row as it is shows what the server sent. *)
Lemma read_shows k row row' spec c v row'' c' :
  unread k row row' -> read_out_value row' k spec c = (Ok (v, row''), c') -> shows row k spec v /\ unread (S k) row row''.
Proof.
  intros Hu. unfold shows. cut (forall c0, c0 = c -> read_out_value row' k spec c0 = (Ok (v, row''), c') ->
    (exists c c' row3, read_out_value row k spec c = (Ok (v, row3), c')) /\ unread (S k) row row''); [eauto|]. intros c0 ->.
  unfold read_out_value. destruct (out_bind_type spec); [|done].
  assert (P : forall t, (let (r, row2) := read_plain_out t row' k c in (match r with Ok v => Ok (v, row2) | Err e => Err e end, c)) = (Ok (v, row''), c') ->
    (exists c c' row3, (let (r, row2) := read_plain_out t row k c in (match r with Ok v => Ok (v, row2) | Err e => Err e end, c)) = (Ok (v, row3), c')) /\
    unread (S k) row row'').
  { intros t. pose proof (read_plain_same t k row row' c Hu) as E1. pose proof (read_plain_row t row' k c) as E2.
    destruct (read_plain_out t row' k c) as [r r2]. cbn in *. destruct r as [v'|e]; [|done]. intros [= -> -> <-]. split.
    - exists c, c. destruct (read_plain_out t row k c) as [r3 r4]. cbn in *. subst. by eexists.
    - destruct E2 as [->|[t' ->]]; [by apply unread_skip|by apply unread_take]. }
  destruct (out_sql_type spec); try apply P. clear P. unfold take_out. pose proof (Hu CtCursor k (le_n k)) as E.
  pose proof (unread_take CtCursor k row row' Hu) as Hu'.
  destruct (take_cell CtCursor row' k) as [[[l|]|e] r2], (take_cell CtCursor row k) as [r3 r4]; cbn in *; try done; subst r3; cbn.
  - intros Hx. unfold chain in Hx. destruct (open_cursor l c) as [[cur|e] c2] eqn:Eo; [|done]. injection Hx as <- <- <-.
    split; [|done]. exists c, c2, r4. unfold chain. by rewrite Eo.
  - intros [= <- <- <-]. split; [|done]. by exists c, c, r4.
Qed.

(** *** Result sets among the values *)

Definition cursors_in (vs : list Value) : Z := Z.of_nat (length (List.filter is_cursor vs)).

Lemma cursors_app vs ws : cursors_in (vs ++ ws) = cursors_in vs + cursors_in ws.
Proof. unfold cursors_in. rewrite List.filter_app, length_app. lia. Qed.

Lemma drop_open vs c : open_result_sets (drop_values vs c) = open_result_sets c - cursors_in vs.
Proof.
  unfold drop_values, cursors_in. generalize (List.filter is_cursor vs) as l. intros l. revert c.
  induction l as [|v l IH]; intros c; [simpl; lia|]. cbn [fold_left]. rewrite IH. cbn. lia.
Qed.

Lemma read_open row slot spec c :
  match read_out_value row slot spec c with
  | (Ok (v, _), c') => open_result_sets c' = open_result_sets c + cursors_in [v]
  | (Err _, c') => open_result_sets c' = open_result_sets c
  end.
Proof.
  unfold read_out_value. destruct (out_bind_type spec); [|done].
  assert (P : forall t, match t with TCursor => True | _ => match (read_plain_out t row slot c).1 with Ok v => is_cursor v = false | Err _ => True end end).
  { intros t. unfold read_plain_out, present, take_out, timestamp_value.
    destruct t; try done; destruct (take_cell _ row slot) as [[[?|]|]]; cbn; repeat case_match; simplify_eq; done. }
  destruct (out_sql_type spec) as [| | | |n f| | | | |n| | | |] eqn:Et;
    try (match goal with |- context [read_plain_out ?t row slot c] => specialize (P t); cbv beta iota in P;
      destruct (read_plain_out t row slot c) as [[v|e] r]; cbn in *; [|done]; unfold cursors_in; cbn; rewrite P; cbn; lia end).
  destruct (take_out CtCursor row slot) as [[[l|]|e] r]; cbn; try (unfold cursors_in; cbn; lia).
  unfold chain, open_cursor. destruct (cursor_new _ _ _ _); cbn; unfold cursors_in; cbn; lia.
Qed.

(** *** The loops *)

Definition slot_of (binds : list Bind) (i : nat) : nat := length (List.filter has_spec (take i binds)).

(** The values from slot [k] on, bind by bind. *)
Definition aligned (row : Row) (k : nat) (binds : list Bind) (vs : list (option Value)) : Prop :=
  length vs = length binds /\ forall i b, binds !! i = Some b ->
    match out_spec b with
    | None => vs !! i = Some None
    | Some spec => exists v, vs !! i = Some (Some v) /\ shows row (k + slot_of binds i) spec v
    end.

Lemma aligned_cons row k b binds v vs :
  match out_spec b with
  | None => v = None /\ aligned row k binds vs
  | Some spec => exists x, v = Some x /\ shows row k spec x /\ aligned row (S k) binds vs
  end -> aligned row k (b :: binds) (v :: vs).
Proof.
  unfold aligned, slot_of. destruct (out_spec b) as [spec|] eqn:E.
  - intros (x & -> & Hx & Hl & Hv). split; [by simpl; rewrite Hl|]. intros [|i] b' Hb; simpl in *.
    + injection Hb as <-. rewrite E. exists x. by rewrite Nat.add_0_r.
    + specialize (Hv i b' Hb). unfold has_spec at 1. rewrite E. simpl. by rewrite Nat.add_succ_r.
  - intros (-> & Hl & Hv). split; [by simpl; rewrite Hl|]. intros [|i] b' Hb; simpl in *.
    + injection Hb as <-. by rewrite E.
    + specialize (Hv i b' Hb). unfold has_spec at 1. by rewrite E.
Qed.

Lemma positional_spec binds row row' k seen c : unread k row row' ->
  match collect_positional binds row' k seen c with
  | (Ok vs, c') => exists vs', vs = seen ++ vs' /\ aligned row k binds vs' /\
      open_result_sets c' = open_result_sets c + cursors_in (omap id vs')
  | (Err _, c') => open_result_sets c' = open_result_sets c - cursors_in (omap id seen)
  end.
Proof.
  revert row' k seen c. induction binds as [|b binds IH]; intros row' k seen c Hu; cbn [collect_positional].
  { exists []. rewrite app_nil_r. split_and!; [done|by split|]. unfold cursors_in. simpl. lia. }
  destruct (out_spec b) as [spec|] eqn:Eb.
  - pose proof (read_shows k row row' spec c) as HS. pose proof (read_open row' k spec c) as HO.
    destruct (read_out_value row' k spec c) as [[[v row2]|e] c2]; [|by rewrite drop_open, HO].
    destruct (HS v row2 c2 Hu eq_refl) as [HS1 HS2]. specialize (IH row2 (S k) (seen ++ [Some v]) c2 HS2).
    destruct (collect_positional binds row2 (S k) (seen ++ [Some v]) c2) as [[vs|e] c'].
    + destruct IH as (vs' & -> & HA & HC). exists (Some v :: vs'). rewrite <- app_assoc. split; [done|].
      split; [apply aligned_cons; rewrite Eb; eauto|]. rewrite HC, HO. change (omap id (Some v :: vs')) with ([v] ++ omap id vs').
      rewrite cursors_app. lia.
    + rewrite IH, HO, omap_app, cursors_app. change (omap id [Some v]) with [v]. lia.
  - specialize (IH row' k (seen ++ [None]) c Hu). destruct (collect_positional binds row' k (seen ++ [None]) c) as [[vs|e] c'].
    + destruct IH as (vs' & -> & HA & HC). exists (None :: vs'). rewrite <- app_assoc. split; [done|].
      split; [apply aligned_cons; by rewrite Eb|done].
    + rewrite IH, omap_app, cursors_app. change (omap id [None]) with (@nil Value). unfold cursors_in at 2. simpl. lia.
Qed.

(** The declared outputs, in the order the statement names them. *)
Definition named_outputs (declared : list NamedBind) (order : list str) : list NamedBind :=
  omap (fun name => match find_named declared name with Some b => if has_spec (named_bind b) then Some b else None | None => None end) order.

Definition aligned_named (row : Row) (k : nat) (outs : list NamedBind) (vs : list (str * Value)) : Prop :=
  length vs = length outs /\ forall i b, outs !! i = Some b ->
    exists spec v, out_spec (named_bind b) = Some spec /\ vs !! i = Some (bind_name b, v) /\ shows row (k + i) spec v.

Lemma named_spec declared order row row' k seen c : unread k row row' ->
  match collect_named declared order row' k seen c with
  | (Ok vs, c') => exists vs', vs = seen ++ vs' /\ aligned_named row k (named_outputs declared order) vs' /\
      open_result_sets c' = open_result_sets c + cursors_in (List.map snd vs')
  | (Err _, c') => open_result_sets c' = open_result_sets c - cursors_in (List.map snd seen)
  end.
Proof.
  revert row' k seen c. induction order as [|name order IH]; intros row' k seen c Hu; cbn [collect_named named_outputs omap list_omap].
  { exists []. rewrite app_nil_r. split_and!; [done|by split|]. unfold cursors_in. simpl. lia. }
  destruct (find_named declared name) as [b|]; [|by apply IH]. unfold has_spec.
  destruct (out_spec (named_bind b)) as [spec|] eqn:Eb; [|by apply IH].
  pose proof (read_shows k row row' spec c) as HS. pose proof (read_open row' k spec c) as HO.
  destruct (read_out_value row' k spec c) as [[[v row2]|e] c2]; [|by rewrite drop_open, HO].
  destruct (HS v row2 c2 Hu eq_refl) as [HS1 HS2]. specialize (IH row2 (S k) (seen ++ [(bind_name b, v)]) c2 HS2).
  destruct (collect_named declared order row2 (S k) (seen ++ [(bind_name b, v)]) c2) as [[vs|e] c'].
  - destruct IH as (vs' & -> & [HL HA] & HC). exists ((bind_name b, v) :: vs'). rewrite <- app_assoc. split; [done|]. split.
    + split; [simpl; by rewrite HL|]. intros [|i] b' Hb; simpl in *.
      * injection Hb as <-. exists spec, v. by rewrite Nat.add_0_r.
      * rewrite <- Nat.add_succ_comm. by apply HA.
    + rewrite HC, HO. change (List.map snd ((bind_name b, v) :: vs')) with ([v] ++ List.map snd vs'). rewrite cursors_app. lia.
  - rewrite IH, HO, List.map_app, cursors_app. simpl. lia.
Qed.

Lemma output_row_slots n k r row : output_row n k r = Ok (Some row) -> upstream_out_slots row = n.
Proof.
  assert (P : forall x, check_out_slots n x = Ok tt -> upstream_out_slots x = n).
  { intros x. unfold check_out_slots. by destruct (Nat.eqb_spec (upstream_out_slots x) n). }
  unfold output_row. destruct (1 <? _)%nat; [done|]. destruct (last _) as [x|].
  - destruct (check_out_slots n x) as [[]|e] eqn:E; unfold result_bind; [|discriminate]. intros [= <-]. auto.
  - destruct (_ && _); [done|]. destruct (check_out_slots n _) as [[]|e] eqn:E; unfold result_bind; [|discriminate]. intros [= <-]. auto.
Qed.

(** C16: an output is answered with its own value, never with a neighbour's.
    Values are read only from a row with as many slots as the statement declares
    outputs: by position, the value of an output is what the slot of its rank
    among the outputs holds; by name, the outputs are taken in the order the
    text names them.  A statement that returns no row answers every output with
    NULL.  A cursor among the values counts as an open result set, and when a
    value cannot be read the ones opened before it are closed. *)
Theorem outputs_are_their_own st k r c :
  match collect_out_values st k r c with
  | (Err _, c') => open_result_sets c' = open_result_sets c
  | (Ok out, c') =>
      has_outputs (st_binds st) = false /\ out = DNone \/
      output_row (declared_output_count (st_binds st)) k r = Ok None /\ out = all_null_outputs (st_binds st) \/
      exists row, output_row (declared_output_count (st_binds st)) k r = Ok (Some row) /\
        upstream_out_slots row = declared_output_count (st_binds st) /\
        match st_binds st with
        | NoBinds => False
        | Positional binds => exists vs, out = DPositional vs /\ aligned row 0 binds vs /\
            open_result_sets c' = open_result_sets c + cursors_in (omap id vs)
        | Named binds => exists p s order vs, prep_sql p = st_sql st /\ (bind_names p s).1 = Ok order /\
            out = DNamed vs /\ aligned_named row 0 (named_outputs binds order) vs /\
            open_result_sets c' = open_result_sets c + cursors_in (List.map snd vs)
        end
  end.
Proof.
  unfold collect_out_values. destruct (has_outputs (st_binds st)) eqn:Ho; cbn [negb]; [|by left].
  unfold chain at 1, answer. destruct (output_row _ k r) as [[row|]|e] eqn:Er; [|by right; left|done].
  pose proof (output_row_slots _ _ _ _ Er) as Hs. destruct (st_binds st) as [|binds|binds] eqn:Eb; [done| |].
  - pose proof (positional_spec binds row row 0 [] c ltac:(by intros ??)) as HP. unfold chain.
    destruct (collect_positional binds row 0 [] c) as [[vs|e] c'].
    + destruct HP as (vs' & -> & HA & HC). right. right. exists row. split; [reflexivity|]. split; [exact Hs|]. by exists vs'.
    + rewrite HP. unfold cursors_in. simpl. lia.
  - unfold bind_name_order, chain, library. destruct (lib_statement _ _) as [[u|e] s1]; cbn [map_err]; [|reflexivity].
    set (p := mkPrepared _ _ _ _ _). cbn [inner record_call set_inner].
    destruct (bind_names p s1) as [[order|e] s2] eqn:En; cbn [map_err]; [|reflexivity].
    set (c1 := record_call _ (set_inner s2 _)). pose proof (named_spec binds order row row 0 [] c1 ltac:(by intros ??)) as HP.
    destruct (collect_named binds order row 0 [] c1) as [[vs|e] c'].
    + destruct HP as (vs' & -> & HA & HC). right. right. exists row. split; [reflexivity|]. split; [exact Hs|]. exists p, s1, order, vs'.
      by rewrite En.
    + rewrite HP. unfold cursors_in. cbn [List.map List.filter length]. change (open_result_sets c1) with (open_result_sets c). lia.
Qed.
End Outputs.

(** ** The time a cancel names *)

Section Cancelling.
Context `{C : OracleClient} {U : Unicode} {CM : CaseMap}.
Implicit Types c : OracleConnection.

Lemma armed_at d c c1 : apply_deadline d c = (Ok tt, c1) ->
  open_result_sets c1 = open_result_sets c /\
  deadline_at_millis c1 = match d with None => 0 | Some d => Z.max (as_u64_millis (elapsed (inner c) + d)) 1 end.
Proof.
  unfold apply_deadline, chain, update, library. cbn. destruct (set_call_timeout d (inner c)) as [[u|e] s]; [|done].
  cbn. by intros [= <-].
Qed.

(** C17: a cancel never promises an end that is not coming.  Once a limit is
    armed, the time named later is positive and points within two milliseconds
    of the armed instant; no time is named when that instant has passed, when no
    limit is armed, or while a result set is open and more round trips may
    follow. *)
Theorem cancel_names_the_armed_instant d c c1 c2
  (armed : apply_deadline d c = (Ok tt, c1))
  (kept : deadline_at_millis c2 = deadline_at_millis c1)
  (clock : 0 <= elapsed (inner c) <= elapsed (inner c2)) (width : elapsed (inner c2) < 2 ^ 64 * 1000000)
  (limit : match d with Some d => 0 <= d /\ elapsed (inner c) + d < (2 ^ 64 - 1) * 1000000 | None => True end) :
  exists left, request_cancel c2 = Ok (NotInterruptible left) /\
  match left with
  | Some ns => open_result_sets c2 <= 0 /\ 0 < ns /\
      exists d', d = Some d' /\ Z.abs (elapsed (inner c2) + ns - (elapsed (inner c) + d')) < 2 * 1000000
  | None => d = None \/ 0 < open_result_sets c2 \/
      exists d', d = Some d' /\ elapsed (inner c) + d' < elapsed (inner c2) + 1000000
  end.
Proof.
  apply armed_at in armed as [_ Ha]. eexists. split; [reflexivity|]. unfold remaining. rewrite kept, Ha. clear kept Ha.
  destruct d as [d|]; [|by left]. destruct limit as [L1 L2]. unfold as_u64_millis.
  set (a := elapsed (inner c) + d) in *. set (n := elapsed (inner c2)) in *.
  rewrite !Z.min_l by (pose proof (Z.div_lt_upper_bound a 1000000 (2 ^ 64 - 1));
    pose proof (Z.div_lt_upper_bound n 1000000 (2 ^ 64)); lia).
  pose proof (Z.div_mod a 1000000 ltac:(lia)). pose proof (Z.mod_pos_bound a 1000000 ltac:(lia)).
  pose proof (Z.div_mod n 1000000 ltac:(lia)). pose proof (Z.mod_pos_bound n 1000000 ltac:(lia)).
  destruct (Z.eqb_spec (Z.max (a / 1000000) 1) 0); [lia|]. cbn [orb].
  destruct (Z.ltb_spec 0 (open_result_sets c2)); [by right; left|].
  destruct (Z.leb_spec (Z.max (a / 1000000) 1) (n / 1000000)); cbn.
  - right. right. exists d. split; [done|]. lia.
  - split; [lia|]. split; [lia|]. exists d. split; [done|]. lia.
Qed.
End Cancelling.

(** ** A library to run a session on *)

(** Its state is whether a transaction is open, and the time.  One update opens
    a transaction; a block answers its two outputs. *)
Definition sample_update : str := lit "update t set x = 1 ".
#[local] Arguments sample_update : simpl never.
Definition tick (s : bool * Z) : bool * Z := (s.1, s.2 + 1000000).

#[export] Instance sample_client : OracleClient := {
  Session := bool * Z;
  set_call_timeout _ s := (Ok tt, tick s);
  last_warning _ := Ok None;
  lib_statement _ s := (Ok tt, s);
  bind_names _ s := (Ok [lit "B"; lit "A"], s);
  ExecResult := list (option str);
  lib_query p _ s := (Ok ([], []), tick s);
  lib_execute p _ s := (Ok [Some (lit "first"); Some (lit "second")], (str_eqb (prep_sql p) sample_update, s.2 + 1000000));
  lib_rows_affected _ := 1;
  returned_data _ := [];
  out_bind_data r := r;
  get_str r i := match r !! i with Some v => Ok v | None => Err (InvalidColumnIndex, []) end;
  take_cell t r i :=
    (match t return result (option (cell t)) ora_error with
     | CtString => Ok (default None (r !! i))
     | CtCursor => Ok (match default None (r !! i) with Some _ => Some ([], []) | None => None end)
     | _ => Ok None
     end, r);
  lib_commit s := (Ok tt, (false, s.2));
  lib_rollback s := (Ok tt, (false, s.2));
  lib_ping s := (Ok tt, s);
  lib_close s := (Ok tt, s);
  lib_run _ s := (Ok tt, s);
  lib_output_call _ s := (Ok tt, s);
  lib_take_block _ _ s := (Ok (mkTaken [] [] false 0 true []), s);
  elapsed s := s.2;
}.

#[export] Instance sample_slots : LawfulSlots (C := sample_client).
Proof. split. done. Qed.

Lemma trimmed_end s a c : is_whitespace c = true -> trim_end s <> a ++ [c].
Proof.
  intros Hc E. unfold trim_end in E. apply (f_equal (@rev Z)) in E. rewrite rev_involutive, rev_app_distr in E.
  assert (Hh : head (trim_start (rev s)) = Some c) by (by rewrite E). apply trim_start_no_ws in Hh. congruence.
Qed.

Lemma normalize_trimmed sql : exists s, normalize sql = trim_end s.
Proof.
  unfold normalize, strip_statement_terminator.
  assert (P : exists s, strip_sqlplus_terminator sql = trim_end s).
  { unfold strip_sqlplus_terminator. destruct (rbreak_char _ _) as [[b l]|]; [case_match|]; eauto. }
  destruct (strip_suffix _ _); [case_match|]; eauto.
Qed.

Lemma sample_update_is_dml : Classify.kind (classify sample_update) = Dml.
Proof. vm_compute. reflexivity. Qed.

#[export] Instance sample_transactions : LawfulTransactions (C := sample_client).
Proof.
  refine {| open_transaction := fun s : Session (OracleClient := sample_client) => s.1 = true |}; cbn.
  - by intros s r s' [= <- <-].
  - by intros s r s' [= <- <-].
  - done.
  - done.
  - done.
  - done.
  - done.
  - done.
  - done.
  - done.
  - intros p args s r s' Hk [= _ <-]. cbn. intros E. apply bool_decide_eq_true in E. rewrite E, sample_update_is_dml in Hk. done.
  - intros sql p args s r s' Hk Hs [= <- <-] _. cbn. intros E. apply bool_decide_eq_true in E. destruct Hs as [Hs|[Hs|Hs]]; rewrite E in Hs.
    + by rewrite <- Hs, sample_update_is_dml in Hk.
    + destruct (normalize_trimmed sql) as [s0 E0]. rewrite E0 in Hs. symmetry in Hs.
      by apply (trimmed_end s0 (lit "update t set x = 1") 32) in Hs.
    + discriminate Hs.
  - done.
Defined.

Definition sample_connection : OracleConnection := connection_new 1 (false, 0) false true [] 1.


(** A block with two outputs, an update under a limit of three seconds. *)
Definition sample_block : Statement :=
  with_named_binds (statement_new (lit "begin p(:b, :a); end;"))
    [mkNamed (lit "a") (BindOut (out_spec_new (TText false false))); mkNamed (lit "b") (BindOut (out_spec_new (TText false false)))].

Definition sample_answer : ExecResult := [Some (lit "first"); Some (lit "second")].

Lemma outputs_are_their_own_witness :
  match collect_out_values sample_block PlSqlBlock sample_answer sample_connection with
  | (Ok out, c) => out = DNamed [(lit "b", OText (lit "first")); (lit "a", OText (lit "second"))] /\ open_result_sets c = 0
  | _ => False
  end.
Proof.
  pose proof (outputs_are_their_own sample_block PlSqlBlock sample_answer sample_connection) as H.
  assert (E : match (collect_out_values sample_block PlSqlBlock sample_answer sample_connection).1 with Ok out => Some out | _ => None end
    = Some (DNamed [(lit "b", OText (lit "first")); (lit "a", OText (lit "second"))])) by evaluate.
  destruct (collect_out_values _ _ _ _) as [[out|e] c]; [|discriminate E]. injection E as ->. split; [reflexivity|].
  destruct H as [[H _]|[[_ H]|(row & _ & _ & H)]]; [discriminate H|discriminate H|].
  destruct H as (p & s & order & vs & _ & _ & Ev & _ & Ho). rewrite Ho. injection Ev as <-. reflexivity.
Defined.

Lemma cancel_names_the_armed_instant_witness :
  let c := (apply_deadline (Some 3000000000) sample_connection).2 in
  request_cancel c = Ok (NotInterruptible (Some 2999000000)) /\
  exists left, request_cancel c = Ok (NotInterruptible left).
Proof.
  cbv zeta. split; [evaluate|].
  destruct (cancel_names_the_armed_instant (Some 3000000000) sample_connection _ _ eq_refl eq_refl) as (left & E & _);
    [cbn; lia|cbn; lia|cbn; lia|]. by exists left.
Defined.
